(* ===== verification/_CoqProject ===== *)
-Q . S2P
Prelude.v
MessageQueue.v
QueueMgr.v
Scheduler.v
Handle.v
HashId.v
DataBuffer.v
Seri.v
SeriStack.v
NetPack.v
Cluster.v
Des.v
Crypt.v
Sha1.v
CString.v
Timer.v
Server.v
Command.v
Safety.v
Process.v
Drop.v
Requests.v
Gate.v
Harbor.v
Node.v
SprotoPack.v
SprotoCode.v
SprotoWire.v
SprotoEncode.v
SprotoDecode.v
SprotoLua.v
SprotoValue.v
SprotoLuaEncode.v
SprotoLuaDecode.v
SprotoRound.v
SprotoSchema.v
SprotoLoad.v
SprotoBundle.v
LuaSocket.v
Sql.v
Bson.v
BsonWire.v
BsonRead.v
BsonSafe.v
BsonReplace.v
BsonTypes.v
Mongo.v
