(* ===== verification/Prelude.v ===== *)
(** * A verification library for the skynet core

    skynet runs many small services in one process: each has a message queue, worker
    threads take queues in turn and call the services, and the nodes of a cluster are
    connected by harbor services.  This library models the C and C++ code of the core
    and of its protocol libraries as functions and step relations, and proves what
    makes them correct.

    ** Conventions

    A C function is a function into [outcome]: a value ([Ret]), a Lua error ([Raise]) or
    a fault ([Crash]): an access out of bounds, a failed assertion, a bad free, or the end
    of the fuel of a loop.  A theorem that says [= Ret ...] therefore says that the code
    returns, that it stays in its arrays and that the fuel was enough.  Integers are [Z];
    where a C type wraps, [u8], [u32], [i32], ... say so.  Buffers are byte lists ([Bytes]).
    Linked nodes live in a list that stands for the heap, and a pointer is an index
    ([linked]); rings are arrays with [ring_items] for their content.  A service handler
    answers its new state and the list of calls it makes to the rest of the program, in
    order.  The host is little-endian, [int] has 32 bits and [size_t] has 64; an
    allocation succeeds.  Signed arithmetic wraps where the code goes on as if it did (the
    session counters at [INT_MAX], which C leaves undefined).

    ** Files

    - Prelude: this header; outcomes, arrays, rings, machine integers, bytes; constants of
      src/include/skynet.h, skynet_harbor.h and skynet_socket.h.
    - MessageQueue (src/src/sn_mq.cpp): the queue of a service with its overload mark
      ([mq_fifo], [mq_pop_overload]); the queue of queues as the interface [GlobalQueue]
      with the laws [GlobalQueueLaws], implemented by the debug build, which has a mutex.
    - QueueMgr (src/src/sn_mq.cpp: SNMessageQueueMgr): the queue of queues of the release
      build, as atomic steps over a lock-free queue of a library (the class
      [LockfreeQueue]), the [next] pointers of the queues and the assertions
      ([release_mgr_conserves]; threads that interleave, [interleaved_calls_conserve]; an
      interleaving that goes wrong, [aba_duplicates]).
    - Scheduler (src/src/sn_server.cpp: DispatchMessageQueue, ContextPush, NewContext,
      handle_exit; src/src/sn_start.cpp: _worker): worker threads over the interface of the
      queue of queues, as steps that interleave with senders, launches and kills
      ([dispatch_exclusive], [dispatch_no_lost_wakeup]; two executions that go wrong:
      [push_after_delete], [empty_pop_assert_races]).
    - Handle (src/src/sn_handle.cpp): handles and names of local services
      ([register_fresh], [remove_local], [remove_fails_with_harbor],
      [register_gives_invalid_handle]).
    - Timer (src/src/sn_timer.cpp): the timing wheel under concurrent requests
      ([timers_fire_on_time], [timer_update_runs]).
    - Server (src/src/sn_server.cpp, sn_harbor.cpp, sn_error.cpp, sn_monitor.cpp): the state
      of the process as one record, sending, dispatching, launching and releasing
      ([send_delivers], [send_fails], [sessions_distinct]).
    - Command (skynet_command of sn_server.cpp, sn_env.cpp, the log files of sn_log.cpp): the
      text commands of services.
    - Safety, Process: the invariant of the process, kept by every function of Server and
      Command, and by every run of services that are programs over them ([process_safe]).
    - Drop: what becomes of the messages of a service that ended ([dead_service_answers],
      [exit_hangs_on_own_message], [failed_launch_dangles]).
    - Requests: commands that meet their answers ([timeout_answered], [kill_ends_service],
      [registered_name_found], [handle_text_reads]).
    - HashId, DataBuffer (src/service-src/hashid.h, databuffer.h): the two containers of
      the gate, each refining a mathematical object: a finite map from socket ids to
      indices, and byte queues over one pool of nodes ([hashid_implements_map],
      [databuffer_implements_queues], [header_sign_stalls]).
    - CString: the functions of the C library that the services use on text.
    - Gate (src/service-src/service_gate.c): the gate service over HashId and DataBuffer,
      refining a specification with a byte queue for each session and parsed orders
      ([gate_refines], [gate_forwards_packets], [short_command_frees_stack]).
    - Harbor (src/service-src/service_harbor.c): the connection between nodes, the
      messages that wait for a node or a name, and the table of global names
      ([harbor_link_delivers], [name_waits_then_delivers], [name_queue_loses_handle],
      [harbor_queue_fifo]).
    - Node: a harbor service in the core, and two nodes ([send_crosses_nodes]).
    - Seri (src/lualib-src/lua-seri.c): serialization of Lua values
      ([seri_roundtrip], [pack_writes_format]); SeriStack is the reader on a Lua stack with
      so many free slots ([unpack_total], [nesting_overruns]).
    - NetPack (src/lualib-src/lua-netpack.c): packets with a 16-bit length out of the
      chunks of many sockets ([filter_reassembles], [pack_then_parse],
      [pack_64k_desyncs], [close_keeps_partial]).
    - Cluster (src/lualib-src/lua-cluster.c): requests and responses between clusters, in
      the frames of NetPack ([request_roundtrip], [response_roundtrip]).
    - Des, Crypt (src/lualib-src/lua-crypt.c): DES over padded text ([des_roundtrip],
      [desdecode_faults_iff]); hashes, hexadecimal, base64 and the key exchange
      ([dh_agreement], [dhexchange_terminates_iff], [b64_roundtrip], [b64decode_safe],
      [hex_roundtrip_even_only]).
    - SprotoPack (src/lualib-src/sproto/sproto.c: sproto_pack, sproto_unpack; lsproto.c:
      lpack, lunpack): the zero packing of sproto, whose in-place packer refines a code that
      is defined on the list of segments ([sproto_pack_refines], [sproto_roundtrip],
      [lpack_lunpack]).
    - SprotoCode (sproto.c: findtag to sproto_encode, sproto_decode): the encoder and the
      decoder of messages over a callback with a state.  SprotoWire says what the bytes of
      a message mean and what callbacks promise; SprotoEncode and SprotoDecode prove the
      two functions for every callback that keeps its promise.
    - SprotoLua (src/lualib-src/sproto/lsproto.c: encode, lencode, decode, ldecode): the
      callbacks over Lua tables.  SprotoValue says which tables stand for a value of a
      schema; SprotoLuaEncode and SprotoLuaDecode show that the callbacks keep the promises,
      and SprotoRound has the results ([lua_table_roundtrip], [decode_tells_contents],
      [encode_stays_in_buffer], [findtag_exact], [integer_array_leaves_buffer]).
    - SprotoSchema (sproto.c: pool_init to sproto_name; lsproto.c: lnewproto, lquerytype,
      lprotocol, lsaveproto, lloadproto): the loading of a schema from its message and the
      queries.  SprotoLoad has the invariant of the pool and what is true of a schema from
      any bytes ([loaded_schema_well_typed]); SprotoBundle has the bytes of a schema, their
      loading and the search for protocols ([schema_roundtrip], [lprotocol_finds],
      [count_loop_hangs]).
    - LuaSocket (src/lualib-src/lua-socket.c: lnewpool to lreadline): the buffers of
      received blocks, refining byte queues ([socket_buffers_are_queues],
      [long_separator_overreads]).
    - Bson (src/lualib-src/lua-bson.c): documents, their index and the typed strings.  BsonWire
      has the bytes of a document and the encoder, BsonRead the decoder ([bson_roundtrip],
      [order_agrees]), BsonSafe the decoder on any bytes ([bson_decode_safe],
      [extreme_integers], [looping_index]), BsonReplace the index ([bson_replace]) and
      BsonTypes the typed strings ([typed_strings_read_back], [objectids_distinct]).
    - Mongo (src/lualib-src/lua-mongo.c): the requests of the MongoDB driver and its replies,
      whose documents the decoder of Bson reads ([requests_written],
      [reply_gives_documents], [zero_length_stays]).
    - Sql (src/lualib-src/lua-mysqlaux.c): quoting for SQL ([quote_reads_back]).
    - Sha1 (src/lualib-src/lsha1.c): the streaming hash and HMAC against the definition of
      the standard ([sha1_standard], [hmac_sha1_standard]).

    ** How the parts meet

    The dispatcher is proved against the class [GlobalQueue], whose laws the debug build and
    the specification of the release build ([overflow]) discharge.  The release build
    implements that specification with calls that follow each other; with calls that
    interleave it does what the dispatcher needs as long as the chain is not used.  Server joins the queues of MessageQueue, the map of Handle and the wheel of Timer
    in one state, as seen by one thread that is not interrupted; its scheduling invariant is
    [core] of Scheduler, where threads interleave.  The gate's theorems use those of HashId
    and DataBuffer, so a run of the gate is a run of abstract maps and queues.  Cluster is
    stated over the frames that NetPack cuts.  The theorem on two harbors takes what the
    [send_remote] of one puts on the wire as the input of the other.  Gate and Harbor call
    [skynet_send], [skynet_queryname] and the socket calls of the core: those calls are
    actions, and where the answer matters it is an argument of the definitions that holds
    for every caller.  Node runs those actions of a harbor with the functions of Server, so
    that a message between two nodes goes from queue to queue.  The encoder and the decoder of
    sproto are proved against the classes [EncodeCallback] and [DecodeCallback]; the callbacks
    of the Lua library are instances at every depth of a value, by induction on the depth.
    The schema that they need ([schema_ok]) is what SprotoBundle shows of a loaded schema.

    ** Fuel and bounds

    Loops over a buffer get its length (and one or two more rounds); the loop of a chain
    gets the number of nodes, of which a chain without a repetition has no more; the ring
    loops get the size of the ring; doubling loops get the width of the integer; the wheel
    gets its four levels; [pow_mod_p] gets 64 levels, as the exponent is halved.  The drop of a
    queue gets a round for each message in it, and [exit_hangs_on_own_message] shows the drop
    for which no number is enough; the launches inside of launches get a depth.  The depth of a
    table is the bound of 64 that the code has, and the buffer of sproto doubles twelve times
    before it is too large, for which 32 rounds are more than enough.  [count_array] gets a
    round for each byte, enough unless a length wraps to zero, where [count_loop_hangs] shows
    that no number is.  The tables of a document get their depth, the documents in a document its
    length ([bson_decode_safe]), and [looping_index] is an index that no number suffices for.  A call of the release build is at most ten
    atomic steps if it is not interrupted.  Where the
    code needs a bound the theorem states it: [2^31] bytes in a receive buffer, [2^30]
    messages in a harbor queue, the 16 or 24 bits of a frame length.

    ** What is not modelled

    The socket server over libuv (src/src/sn_socket.cpp, socket_server), the loading of
    modules, the threads' start and sleep, configuration, the text of log files, memory
    counters; shared data between services; the client socket and
    the socket calls for Lua; the glue of the Lua API; and all Lua code and vendored libraries.
    Input and output, dynamic loading and libuv's callbacks have no meaning here; the others
    are the plan.  Memory is tracked only where it faults in the models (pools, double frees,
    [freed] of Server), so leaks are out of scope.  The C stack is not modelled, and the Lua
    stack only in SeriStack: the readers of Seri and Bson nest as deep as their input says,
    without a check of either.

    ** Plan

    What remains of this kind of code is the shared tables of src/lualib-src/lua-sharedata.cpp. *)
From stdpp Require Import base list gmap numbers strings.
From Stdlib Require Import ZArith Lia.

Local Open Scope Z_scope.

#[export] Set Warnings "-clear-no-such-hyp,-register-all".

(** ** Outcomes of C code *)

(** What a C function of the program can end with: a value, a Lua error
    ([luaL_error], which does not return), or a fault, an execution the C
    language gives no meaning to (or an [assert] that fails). *)
Inductive fault :=
| OutOfBounds
| AssertFailed
| BadFree
| UseAfterFree
| StackOverflow
| OutOfFuel.

Inductive outcome (A : Type) :=
| Ret (a : A)
| Raise (msg : string)
| Crash (f : fault).
Arguments Ret {A} _.
Arguments Raise {A} _.
Arguments Crash {A} _.

#[export] Instance outcome_ret : MRet outcome := fun A a => Ret a.
#[export] Instance outcome_bind : MBind outcome := fun A B f o =>
  match o with
  | Ret a => f a
  | Raise m => Raise m
  | Crash x => Crash x
  end.

#[export] Instance fault_eq_dec : EqDecision fault.
Proof. solve_decision. Defined.

(** [lia] with the Euclidean equations of every division and remainder. *)
Ltac dlia := Z.div_mod_to_equations; lia.

(** Lengths: the rewrite rules of the database, and then [lia]. *)
Create Rewrite HintDb sizes.
#[export] Hint Rewrite @length_app @length_take @length_drop @length_replicate @length_insert
  @length_map @length_fmap @length_rev : sizes.
Ltac len_lia := do 3 (autorewrite with sizes in *; cbn [length] in *); lia.
Ltac size_lia := cbn [concat]; autorewrite with sizes; cbn [length]; first [lia | simpl; lia].

(** A bind whose first step has its value. *)
Lemma bind_Ret {A B} (x : A) (f : A -> outcome B) : (y ← Ret x; f y) = f x.
Proof. reflexivity. Qed.

(** A step of a computation has the value that the equation [H] says. *)
Tactic Notation "step_with" uconstr(H) := rewrite H, bind_Ret.
Tactic Notation "step_with" uconstr(H) "by" tactic3(t) := rewrite H, bind_Ret by t.

(** A property of all small numbers, by computation. *)
Lemma below_Forall (n : nat) (Q : Z -> Prop) :
  Forall (fun i => Q (Z.of_nat i)) (seq 0 n) -> forall z, 0 <= z < Z.of_nat n -> Q z.
Proof.
  intros H z Hz. rewrite Forall_forall in H. replace z with (Z.of_nat (Z.to_nat z)) by lia.
  apply H, elem_of_seq. lia.
Qed.

(** A read of a list used as an array: out of range is a fault. *)
Definition read_at {A} (l : list A) (i : Z) : outcome A :=
  if decide (0 <= i) then
    match l !! Z.to_nat i with
    | Some x => Ret x
    | None => Crash OutOfBounds
    end
  else Crash OutOfBounds.

(** A write to a list used as an array: out of range is a fault. *)
Definition write_at {A} (l : list A) (i : Z) (x : A) : outcome (list A) :=
  if decide (0 <= i < Z.of_nat (length l)) then Ret (<[Z.to_nat i := x]> l)
  else Crash OutOfBounds.

Lemma read_at_Some {A} (l : list A) (i : nat) x :
  l !! i = Some x -> read_at l (Z.of_nat i) = Ret x.
Proof. intros H. unfold read_at. rewrite decide_True by lia. by rewrite Nat2Z.id, H. Qed.

Lemma read_at_Z {A} (l : list A) (i : Z) x :
  0 <= i -> l !! Z.to_nat i = Some x -> read_at l i = Ret x.
Proof. intros Hi H. unfold read_at. by rewrite decide_True, H by lia. Qed.

Lemma read_at_lt {A} (l : list A) i x : read_at l i = Ret x -> 0 <= i < Z.of_nat (length l).
Proof.
  unfold read_at. destruct (decide (0 <= i)); [|done].
  destruct (l !! Z.to_nat i) eqn:E; [|done]. apply lookup_lt_Some in E. lia.
Qed.

Lemma write_at_Z {A} (l : list A) (i : Z) x :
  0 <= i < Z.of_nat (length l) -> write_at l i x = Ret (<[Z.to_nat i := x]> l).
Proof. intros H. unfold write_at. by rewrite decide_True. Qed.

Lemma write_at_lt {A} (l : list A) (i : nat) x :
  (i < length l)%nat -> write_at l (Z.of_nat i) x = Ret (<[i := x]> l).
Proof. intros H. unfold write_at. rewrite decide_True by lia. by rewrite Nat2Z.id. Qed.

Lemma filter_all {A} (P : A -> Prop) `{forall x, Decision (P x)} (l : list A) :
  Forall P l -> filter P l = l.
Proof.
  induction 1 as [|x l Hx Hl IH]; [done|]. rewrite filter_cons, decide_True, IH by done. done.
Qed.

Lemma NoDup_middle {A} (l1 l2 : list A) x :
  NoDup (l1 ++ x :: l2) <-> (x ∉ l1 ++ l2) /\ NoDup (l1 ++ l2).
Proof. by rewrite <- Permutation_middle, NoDup_cons. Qed.

(** ** Linked structures in an array *)

(** C code that keeps nodes in an array (or a pool) and links them by pointers
    is modelled with indices for the pointers.  [linked nx nodes c l]: following
    [nx] from pointer [c] visits the nodes [l], in order, and ends in NULL. *)
Section linked.
Context {N : Type} (nx : N -> option nat).

Inductive linked (nodes : list N) : option nat -> list nat -> Prop :=
| linked_nil : linked nodes None []
| linked_cons c nd l : nodes !! c = Some nd -> linked nodes (nx nd) l ->
    linked nodes (Some c) (c :: l).

Lemma linked_lookup nodes c l i : linked nodes c l -> i ∈ l -> exists nd, nodes !! i = Some nd.
Proof.
  induction 1; [by intros ?%not_elem_of_nil|]. intros [->|]%elem_of_cons; eauto.
Qed.

Lemma linked_head nodes c l : linked nodes c l -> c = head l.
Proof. by destruct 1. Qed.

Lemma linked_length nodes c l : linked nodes c l -> NoDup l -> (length l <= length nodes)%nat.
Proof.
  intros Hc Hn.
  assert (Hsub : l ⊆+ seq 0 (length nodes)).
  { apply NoDup_submseteq; [done|]. intros i Hi. apply elem_of_seq. split; [lia|]. simpl.
    destruct (linked_lookup _ _ _ _ Hc Hi). by eapply lookup_lt_Some. }
  apply submseteq_length in Hsub. by rewrite length_seq in Hsub.
Qed.

Lemma linked_ext nodes nodes' c l :
  linked nodes c l -> (forall i, i ∈ l -> nodes' !! i = nodes !! i) -> linked nodes' c l.
Proof.
  induction 1 as [|c nd l Hnd Hc IH]; intros He; [constructor|].
  econstructor; [rewrite He by set_solver; done|]. apply IH. set_solver.
Qed.

Lemma linked_insert_ne nodes c l i nd :
  i ∉ l -> linked nodes c l -> linked (<[i := nd]> nodes) c l.
Proof.
  intros Hi Hc. eapply linked_ext; [done|]. intros j Hj.
  apply list_lookup_insert_ne. set_solver.
Qed.

Lemma linked_app nodes c l1 p l2 :
  linked nodes c (l1 ++ p :: l2) -> exists nd, nodes !! p = Some nd /\ linked nodes (nx nd) l2.
Proof.
  revert c. induction l1 as [|x l1 IH]; intros c Hc; simpl in Hc; inversion Hc; subst; eauto.
Qed.

(** Appending node [m] behind the last node [t]. *)
Lemma linked_snoc nodes nodes' c l t m nt nm :
  linked nodes c (l ++ [t]) -> NoDup (l ++ [t]) ->
  (forall i, i ∈ l -> nodes' !! i = nodes !! i) ->
  nodes' !! t = Some nt -> nx nt = Some m -> nodes' !! m = Some nm -> nx nm = None ->
  linked nodes' c (l ++ [t; m]).
Proof.
  intros Hc Hn He Ht Hnt Hm Hnm. revert c Hc. induction l as [|x l IH]; intros c Hc; simpl in *.
  - inversion Hc; subst. econstructor; [done|]. rewrite Hnt. econstructor; [done|].
    rewrite Hnm. constructor.
  - inversion Hc as [|? nd ? Hnd Hr]; subst. apply NoDup_cons in Hn as [Hx Hn].
    econstructor; [rewrite He by set_solver; done|]. apply IH; [done|set_solver|done].
Qed.

(** Fresh nodes behind the others, each linked to the one behind it. *)
Lemma linked_fresh (mk : nat -> N) n base pre k j :
  (forall i, nx (mk i) = if decide (S i = n) then None else Some (base + S i)%nat) ->
  length pre = base -> (0 < k)%nat -> (j + k = n)%nat ->
  linked (pre ++ (mk <$> seq 0 n)) (Some (base + j)%nat) (seq (base + j) k).
Proof.
  intros Hmk Hpre. revert j. induction k as [|k IH]; intros j Hk Hj; [lia|].
  simpl. apply linked_cons with (mk j).
  - rewrite lookup_app_r, list_lookup_fmap by lia. rewrite Hpre.
    replace (base + j - base)%nat with j by lia. by rewrite lookup_seq_lt by lia.
  - rewrite Hmk. case_decide as Hd.
    + replace k with 0%nat by lia. constructor.
    + rewrite <- Nat.add_succ_r. apply IH; lia.
Qed.
End linked.

(** *** The lists of several owners *)

Lemma concat_delete {A} (ls : list (list A)) k l :
  ls !! k = Some l -> Permutation (concat ls) (l ++ concat (delete k ls)).
Proof.
  revert k. induction ls as [|x ls IH]; intros [|k] H; simplify_eq/=; [done|].
  rewrite (IH k) by done. by rewrite Permutation_app_swap_app.
Qed.

Lemma concat_insert {A} (ls : list (list A)) k l :
  (k < length ls)%nat -> Permutation (concat (<[k := l]> ls)) (l ++ concat (delete k ls)).
Proof.
  revert k. induction ls as [|x ls IH]; intros [|k] H; simpl in *; [lia|lia|done|].
  rewrite (IH k) by lia. by rewrite Permutation_app_swap_app.
Qed.

Lemma elem_of_delete_concat {A} (ls : list (list A)) j k l i :
  j <> k -> ls !! j = Some l -> i ∈ l -> i ∈ concat (delete k ls).
Proof.
  revert j k. induction ls as [|x ls IH]; intros [|j] [|k] Hne Hl Hi; simplify_eq/=; try done.
  - apply elem_of_app. by left.
  - apply list_elem_of_lookup_2 in Hl.
    apply list_elem_of_In, in_concat. exists l. by rewrite <- !list_elem_of_In.
  - apply elem_of_app. right. apply (IH j); [congruence|done|done].
Qed.

(** ** Ring buffers *)

(** The [n] elements of the circular array [l] from position [head] on. *)
Section ring.
Context {A : Type} `{Inhabited A}.

Definition ring_items (l : list A) (head n : nat) : list A :=
  (fun i => l !!! ((head + i) mod length l)%nat) <$> seq 0 n.

Lemma ring_items_length l head n : length (ring_items l head n) = n.
Proof. unfold ring_items. by rewrite length_fmap, length_seq. Qed.

Lemma ring_items_snoc l head n :
  ring_items l head (S n) = ring_items l head n ++ [l !!! ((head + n) mod length l)%nat].
Proof. unfold ring_items. by rewrite seq_S, fmap_app. Qed.

Lemma ring_items_cons l head n : (head < length l)%nat ->
  ring_items l head (S n) = l !!! head :: ring_items l ((head + 1) mod length l) n.
Proof.
  intros Hh. unfold ring_items. cbn [seq fmap list_fmap].
  rewrite Nat.add_0_r, (Nat.mod_small head) by done. f_equal.
  rewrite <- (fmap_S_seq 0 n), <- list_fmap_compose. apply list_fmap_ext. intros i x _. simpl.
  f_equal. rewrite Nat.Div0.add_mod_idemp_l. f_equal. lia.
Qed.

(** Two positions of a ring that are less than its size apart are distinct. *)
Lemma ring_pos_ne head i n size : (i < n)%nat -> (n < size)%nat ->
  ((head + i) mod size)%nat <> ((head + n) mod size)%nat.
Proof.
  intros Hi Hn Heq.
  assert (Hd : (Z.of_nat n - Z.of_nat i) mod Z.of_nat size = 0).
  { replace (Z.of_nat n - Z.of_nat i) with
      ((Z.of_nat head + Z.of_nat n) - (Z.of_nat head + Z.of_nat i)) by lia.
    rewrite Zminus_mod, <- !Nat2Z.inj_add, <- !Nat2Z.inj_mod, Heq, Z.sub_diag.
    by rewrite Z.mod_0_l by lia. }
  rewrite Z.mod_small in Hd by lia. lia.
Qed.

(** Writing behind the last element of a ring that has room. *)
Lemma ring_items_push l head n x : (n < length l)%nat ->
  ring_items (<[((head + n) mod length l)%nat := x]> l) head (S n) = ring_items l head n ++ [x].
Proof.
  intros Hn. rewrite ring_items_snoc, length_insert.
  assert (Hlt : ((head + n) mod length l < length l)%nat) by (apply Nat.mod_upper_bound; lia).
  rewrite list_lookup_total_insert, decide_True by done. f_equal.
  unfold ring_items. rewrite length_insert. apply list_fmap_ext. intros i j Hj.
  apply lookup_seq in Hj as [-> Hi]. simpl. apply list_lookup_total_insert_ne.
  apply not_eq_sym. by apply ring_pos_ne.
Qed.

(** An array read from its start. *)
Lemma ring_items_flat l1 l2 : ring_items (l1 ++ l2) 0 (length l1) = l1.
Proof.
  apply list_eq_same_length with (n := length l1); [done|by rewrite ring_items_length|].
  intros i x y Hi Hx Hy. unfold ring_items in Hx.
  rewrite list_lookup_fmap, lookup_seq_lt in Hx by done. simpl in Hx.
  rewrite Nat.mod_small in Hx by size_lia.
  rewrite lookup_total_app_l in Hx by done. simplify_eq/=.
  by apply list_lookup_total_correct.
Qed.
End ring.

(** ** Machine integers *)

Definition u8 (n : Z) : Z := n mod 2 ^ 8.
Definition u16 (n : Z) : Z := n mod 2 ^ 16.
Definition u32 (n : Z) : Z := n mod 2 ^ 32.
Definition u64 (n : Z) : Z := n mod 2 ^ 64.
Definition i32 (n : Z) : Z := (n + 2 ^ 31) mod 2 ^ 32 - 2 ^ 31.
Definition i64 (n : Z) : Z := (n + 2 ^ 63) mod 2 ^ 64 - 2 ^ 63.

Definition is_byte (b : Z) : Prop := 0 <= b < 256.
Definition is_u32 (n : Z) : Prop := 0 <= n < 2 ^ 32.
Definition is_u64 (n : Z) : Prop := 0 <= n < 2 ^ 64.
Definition is_i32 (n : Z) : Prop := - 2 ^ 31 <= n < 2 ^ 31.
Definition is_i64 (n : Z) : Prop := - 2 ^ 63 <= n < 2 ^ 63.

#[export] Instance is_byte_dec b : Decision (is_byte b).
Proof. unfold is_byte. apply _. Defined.
#[export] Instance is_u32_dec n : Decision (is_u32 n).
Proof. unfold is_u32. apply _. Defined.
#[export] Instance is_u64_dec n : Decision (is_u64 n).
Proof. unfold is_u64. apply _. Defined.
#[export] Instance is_i32_dec n : Decision (is_i32 n).
Proof. unfold is_i32. apply _. Defined.
#[export] Instance is_i64_dec n : Decision (is_i64 n).
Proof. unfold is_i64. apply _. Defined.

(** A buffer is a list of bytes; every element of [Bytes l] is one. *)
Abbreviation Bytes := (Forall is_byte).

(** [memcpy] out of, and into, a buffer at an offset. *)
Definition read_bytes (l : list Z) (i n : Z) : outcome (list Z) :=
  if decide (0 <= i /\ 0 <= n /\ i + n <= Z.of_nat (length l))
  then Ret (take (Z.to_nat n) (drop (Z.to_nat i) l))
  else Crash OutOfBounds.

Definition write_bytes (l : list Z) (i : Z) (bs : list Z) : outcome (list Z) :=
  if decide (0 <= i /\ i + Z.of_nat (length bs) <= Z.of_nat (length l))
  then Ret (take (Z.to_nat i) l ++ bs ++ drop (Z.to_nat i + length bs) l)
  else Crash OutOfBounds.

Lemma read_bytes_all (l : list Z) n :
  Z.of_nat (length l) = n -> read_bytes l 0 n = Ret l.
Proof.
  intros <-. unfold read_bytes. rewrite decide_True by lia.
  by rewrite Nat2Z.id, drop_0, firstn_all.
Qed.

Lemma read_bytes_prefix (l : list Z) n :
  0 <= n <= Z.of_nat (length l) -> read_bytes l 0 n = Ret (take (Z.to_nat n) l).
Proof. intros. unfold read_bytes. rewrite decide_True by lia. done. Qed.

Lemma read_bytes_mid (pre e post : list Z) n :
  Z.of_nat (length e) = n -> read_bytes (pre ++ e ++ post) (Z.of_nat (length pre)) n = Ret e.
Proof.
  intros <-. unfold read_bytes. rewrite decide_True by size_lia.
  rewrite !Nat2Z.id, drop_app_length. by rewrite take_app_length.
Qed.

(** Two writes next to each other at the start of a buffer. *)
Lemma write_front (buf a : list Z) : (length a <= length buf)%nat ->
  write_bytes buf 0 a = Ret (a ++ drop (length a) buf).
Proof. intros. unfold write_bytes. rewrite decide_True by lia. done. Qed.

Lemma write_next (buf a b : list Z) : (length a + length b <= length a + length buf)%nat ->
  write_bytes (a ++ buf) (Z.of_nat (length a)) b = Ret (a ++ b ++ drop (length b) buf).
Proof.
  intros. unfold write_bytes. rewrite decide_True by size_lia.
  rewrite Nat2Z.id, take_app_length. by rewrite drop_app_add.
Qed.

(** Building a message from the front of a buffer. *)
Lemma write_append (pre buf bs : list Z) i :
  i = Z.of_nat (length pre) -> (length bs <= length buf)%nat ->
  write_bytes (pre ++ buf) i bs = Ret ((pre ++ bs) ++ drop (length bs) buf).
Proof. intros -> Hl. rewrite write_next by lia. by rewrite app_assoc. Qed.

Lemma read_prefix (pre buf : list Z) n :
  n = Z.of_nat (length pre) -> read_bytes (pre ++ buf) 0 n = Ret pre.
Proof.
  intros ->. rewrite read_bytes_prefix by size_lia.
  by rewrite Nat2Z.id, take_app_length.
Qed.

Lemma read_at_app_r {A} (pre l : list A) i j :
  0 <= j -> i = Z.of_nat (length pre) + j -> read_at (pre ++ l) i = read_at l j.
Proof.
  intros Hj ->. unfold read_at. rewrite !decide_True by lia.
  rewrite lookup_app_r by lia.
  by replace (Z.to_nat (Z.of_nat (length pre) + j) - length pre)%nat with (Z.to_nat j) by lia.
Qed.

Lemma read_bytes_at (pre e : list Z) i n :
  i = Z.of_nat (length pre) -> n = Z.of_nat (length e) ->
  read_bytes (pre ++ e) i n = Ret e.
Proof.
  intros -> ->. unfold read_bytes. rewrite decide_True by size_lia.
  by rewrite !Nat2Z.id, drop_app_length, firstn_all.
Qed.

(** ** Placed bytes *)

(** The bytes [l] are in the memory [m] at [p]. *)
Definition placed (m : list Z) (p : Z) (l : list Z) : Prop :=
  exists pre post, m = pre ++ l ++ post /\ p = Z.of_nat (length pre).

Lemma placed_app m p a b : placed m p (a ++ b) <-> placed m p a /\ placed m (p + Z.of_nat (length a)) b.
Proof.
  split.
  - intros (pre & post & -> & ->). split; [exists pre, (b ++ post)|exists (pre ++ a), post];
      rewrite <- ?app_assoc; (split; [done|len_lia]).
  - intros [(pre & post & -> & ->) (pre' & post' & He & Hp)]. exists pre, post'. split; [|done].
    rewrite app_assoc in He. apply app_inj_1 in He as [Hpre He]; [|len_lia]. subst pre'.
    by rewrite He, <- !app_assoc.
Qed.

Lemma placed_read m p l n : placed m p l -> n = Z.of_nat (length l) -> read_bytes m p n = Ret l.
Proof. intros (pre & post & -> & ->) ->. by apply read_bytes_mid. Qed.

Lemma placed_length m p l : placed m p l -> 0 <= p /\ p + Z.of_nat (length l) <= Z.of_nat (length m).
Proof. intros (pre & post & -> & ->). len_lia. Qed.

Lemma placed_byte m p x l : placed m p (x :: l) -> read_at m p = Ret x.
Proof.
  intros (pre & post & -> & ->). rewrite (read_at_app_r _ _ _ 0) by lia. done.
Qed.

(** ** Fixed-size chunks of a byte string *)

Definition chunk (n : nat) (b : list Z) : Prop := length b = n /\ Bytes b.

Lemma length_chunks n bs : Forall (chunk n) bs -> length (concat bs) = (n * length bs)%nat.
Proof.
  induction 1 as [|b bs [Hb _] _ IH]; [simpl; lia|]. cbn [concat length].
  rewrite length_app, IH. lia.
Qed.

Lemma split_chunks n l : (0 < n)%nat -> Bytes l ->
  exists bs rest, l = concat bs ++ rest /\ Forall (chunk n) bs /\ Bytes rest /\
    (length rest < n)%nat.
Proof.
  intros Hn. remember (length l) as m eqn:Hm. revert l Hm.
  induction m as [m IH] using lt_wf_ind. intros l -> HB.
  destruct (decide (length l < n)%nat); [by exists [], l|].
  destruct (IH (length (drop n l)) ltac:(size_lia) (drop n l) eq_refl)
    as (bs & rest & HE & Hbs & Hr); [by apply Forall_drop|].
  exists (take n l :: bs), rest. split; [|split; [|done]].
  - cbn [concat]. by rewrite <- app_assoc, <- HE, take_drop.
  - constructor; [|done]. split; [size_lia|by apply Forall_take].
Qed.

(** Little- and big-endian images of an integer. *)
Fixpoint le_bytes (n : nat) (z : Z) : list Z :=
  match n with
  | O => []
  | S n => z mod 256 :: le_bytes n (z / 256)
  end.

Fixpoint le_value (l : list Z) : Z :=
  match l with
  | [] => 0
  | b :: l => b + 256 * le_value l
  end.

Definition be_bytes (n : nat) (z : Z) : list Z := rev (le_bytes n z).
Definition be_value (l : list Z) : Z := le_value (rev l).

(** ** Lemmas on bits and bytes *)

Lemma land_255 z : Z.land z 255 = z mod 256.
Proof. exact (Z.land_ones z 8 ltac:(lia)). Qed.

Lemma land_mask n z : 0 <= n -> Z.land z (2 ^ n - 1) = z mod 2 ^ n.
Proof. intros. rewrite <- Z.land_ones by lia. rewrite Z.ones_equiv. f_equal. Qed.

Lemma shiftr_div z n : 0 <= n -> Z.shiftr z n = z / 2 ^ n.
Proof. intros. by apply Z.shiftr_div_pow2. Qed.

Lemma testbit_above z n i : 0 <= z < 2 ^ n -> n <= i -> Z.testbit z i = false.
Proof.
  intros Hz Hi. destruct (decide (z = 0)) as [->|]; [apply Z.bits_0|].
  assert (0 <= n). { destruct (decide (0 <= n)); [done|].
    rewrite (Z.pow_neg_r 2 n) in Hz; lia. }
  apply Z.bits_above_log2; [lia|].
  apply Z.lt_le_trans with n; [|lia]. apply Z.log2_lt_pow2; lia.
Qed.

(** [a | b << k] is [a + b * 2^k] when [a] fits below bit [k]. *)
Lemma lor_shiftl_add a b k :
  0 <= k -> 0 <= a < 2 ^ k -> Z.lor a (Z.shiftl b k) = a + b * 2 ^ k.
Proof.
  intros Hk Ha. rewrite <- Z.shiftl_mul_pow2 by lia.
  assert (Hl : Z.land a (Z.shiftl b k) = 0).
  { apply Z.bits_inj'. intros i Hi. rewrite Z.land_spec, Z.bits_0.
    destruct (decide (i < k)).
    - rewrite Z.shiftl_spec_low by lia. by rewrite andb_false_r.
    - rewrite (testbit_above a k) by lia. done. }
  symmetry. rewrite <- Z.lxor_lor by done. apply Z.add_nocarry_lxor. done.
Qed.

Lemma length_le_bytes n z : length (le_bytes n z) = n.
Proof. revert z. induction n; intros; simpl; auto. Qed.

#[export] Hint Rewrite length_le_bytes : sizes.

Lemma le_bytes_Bytes n z : Bytes (le_bytes n z).
Proof.
  revert z. induction n; intros; simpl; constructor; auto.
  unfold is_byte. dlia.
Qed.

Lemma le_value_range l : Bytes l -> 0 <= le_value l < 256 ^ Z.of_nat (length l).
Proof.
  induction 1 as [|b l Hb _ IH]; simpl length; simpl le_value; [lia|].
  unfold is_byte in Hb. rewrite Nat2Z.inj_succ, Z.pow_succ_r by lia. lia.
Qed.

Lemma le_value_le_bytes n z : le_value (le_bytes n z) = z mod 256 ^ Z.of_nat n.
Proof.
  revert z. induction n as [|n IH]; intros z; [simpl; by rewrite Z.mod_1_r|].
  cbn [le_bytes le_value]. rewrite IH, Nat2Z.inj_succ, Z.pow_succ_r by lia.
  rewrite Z.rem_mul_r by lia. done.
Qed.

Lemma le_value_le_bytes_small n z :
  0 <= z < 256 ^ Z.of_nat n -> le_value (le_bytes n z) = z.
Proof. intros. rewrite le_value_le_bytes. by apply Z.mod_small. Qed.

Lemma le_bytes_le_value l : Bytes l -> le_bytes (length l) (le_value l) = l.
Proof.
  induction 1 as [|b l Hb _ IH]; simpl; [done|]. unfold is_byte in Hb.
  rewrite (Z.mul_comm 256), Z.mod_add, Z.mod_small by lia.
  rewrite Z.div_add, Z.div_small, Z.add_0_l by lia. by f_equal.
Qed.

Lemma le_bytes_mod n z : le_bytes n (z mod 256 ^ Z.of_nat n) = le_bytes n z.
Proof.
  revert z. induction n as [|n IH]; intros z; [done|].
  cbn [le_bytes]. rewrite Nat2Z.inj_succ, Z.pow_succ_r by lia.
  rewrite Z.rem_mul_r by lia. f_equal.
  - rewrite Z.mul_comm, Z.mod_add by lia. by rewrite Z.mod_mod.
  - rewrite (Z.mul_comm 256), Z.div_add by lia.
    rewrite (Z.div_small (z mod 256)), Z.add_0_l by dlia. apply IH.
Qed.

Lemma length_be_bytes n z : length (be_bytes n z) = n.
Proof. unfold be_bytes. rewrite length_rev. apply length_le_bytes. Qed.

#[export] Hint Rewrite length_be_bytes : sizes.

Lemma be_bytes_Bytes n z : Bytes (be_bytes n z).
Proof. unfold be_bytes. apply Forall_rev, le_bytes_Bytes. Qed.

Lemma be_value_be_bytes n z : be_value (be_bytes n z) = z mod 256 ^ Z.of_nat n.
Proof. unfold be_value, be_bytes. rewrite rev_involutive. apply le_value_le_bytes. Qed.

Lemma be_bytes_be_value l : Bytes l -> be_bytes (length l) (be_value l) = l.
Proof.
  intros Hl. unfold be_value, be_bytes.
  rewrite <- (length_rev l), le_bytes_le_value by by apply Forall_rev.
  apply rev_involutive.
Qed.

(** Signed and unsigned images. *)
Lemma i32_small n : is_i32 n -> i32 n = n.
Proof. unfold is_i32, i32. intros. rewrite Z.mod_small by lia. lia. Qed.

Lemma i64_small n : is_i64 n -> i64 n = n.
Proof. unfold is_i64, i64. intros. rewrite Z.mod_small by lia. lia. Qed.

Lemma i32_u32 n : i32 (u32 n) = i32 n.
Proof. unfold i32, u32. rewrite Zplus_mod_idemp_l. done. Qed.

Lemma i64_u64 n : i64 (u64 n) = i64 n.
Proof. unfold i64, u64. rewrite Zplus_mod_idemp_l. done. Qed.

Lemma i32_range n : is_i32 (i32 n).
Proof. unfold is_i32, i32. dlia. Qed.

Lemma u32_range n : is_u32 (u32 n).
Proof. unfold is_u32, u32. dlia. Qed.

Lemma u64_range n : is_u64 (u64 n).
Proof. unfold is_u64, u64. dlia. Qed.

Lemma u32_small n : is_u32 n -> u32 n = n.
Proof. unfold is_u32, u32. intros. apply Z.mod_small. lia. Qed.

Lemma u64_small n : is_u64 n -> u64 n = n.
Proof. unfold is_u64, u64. intros. apply Z.mod_small. lia. Qed.

(** ** Program-wide constants (src/include/skynet_harbor.h, src/include/skynet.h) *)

Definition GLOBALNAME_LENGTH : Z := 16.
Definition REMOTE_MAX : Z := 256.
Definition HANDLE_MASK : Z := 0xffffff.
Definition HANDLE_REMOTE_SHIFT : Z := 24.

Definition PTYPE_TEXT : Z := 0.
Definition PTYPE_RESPONSE : Z := 1.
Definition PTYPE_CLIENT : Z := 3.
Definition PTYPE_SYSTEM : Z := 4.
Definition PTYPE_HARBOR : Z := 5.
Definition PTYPE_SOCKET : Z := 6.
Definition PTYPE_ERROR : Z := 7.
Definition PTYPE_TAG_DONTCOPY : Z := 0x10000.
Definition PTYPE_TAG_ALLOCSESSION : Z := 0x20000.

(** ** Messages of the socket thread (src/include/skynet_socket.h) *)

Definition SKYNET_SOCKET_TYPE_DATA : Z := 1.
Definition SKYNET_SOCKET_TYPE_CONNECT : Z := 2.
Definition SKYNET_SOCKET_TYPE_CLOSE : Z := 3.
Definition SKYNET_SOCKET_TYPE_ACCEPT : Z := 4.
Definition SKYNET_SOCKET_TYPE_ERROR : Z := 5.

(** A message of the socket thread: [sm_buffer] is [None] when the text follows
    the structure in memory ([sm_padding]). *)
Record socket_message := mk_socket_message {
  sm_type : Z;
  sm_id : Z;
  sm_ud : Z;
  sm_buffer : option (list Z);
  sm_padding : list Z
}.

(** The service part of a handle, and its harbor (node) part. *)
Definition handle_local (h : Z) : Z := Z.land h HANDLE_MASK.
Definition handle_harbor (h : Z) : Z := Z.shiftr h HANDLE_REMOTE_SHIFT.

Lemma handle_local_mod h : handle_local h = h mod 2 ^ 24.
Proof. unfold handle_local, HANDLE_MASK. exact (Z.land_ones h 24 ltac:(lia)). Qed.
