(* ===== verification/MessageQueue.v ===== *)
(** * Service message queues and the global queue of queues (src/src/sn_mq.cpp)

    [SNMessageQueue] is the per-service queue with its in-global flag and its
    overload detector; [GlobalQueue] is the interface the dispatcher needs from
    the queue of queues, with the laws of that interface in [GlobalQueueLaws];
    the [_DEBUG] build of [SNMessageQueueMgr], a [std::queue] under a mutex,
    implements it here, and the release build is in QueueMgr. *)
From S2P Require Import Prelude.
From stdpp Require Import base list gmap numbers strings.
From Stdlib Require Import ZArith Lia.

Local Open Scope Z_scope.

(** A pointer to an [SNMessageQueue] object. *)
Abbreviation qid := Z.

(** What the [void *data] of a message points to: text, or the [remote_message] of
    src/include/skynet_harbor.h that the core gives to the harbor service. *)
Inductive mem_block :=
| Text (bytes : list Z)
| Rmsg (name : list Z) (handle : Z) (message : option (list Z)) (size : Z).

(** NULL is [None]. *)
Abbreviation buffer_ptr := (option mem_block).

(* ------------------------------------------------------------------ *)
(** ** The data *)

Record sn_message := mk_sn_message {
  source : Z;
  session : Z;
  data : buffer_ptr;
  sz : Z
}.

Definition MQ_OVERLOAD : Z := 1024.
Definition MAX_GLOBAL_MQ : Z := 65534.

Record SNMessageQueue := mk_SNMessageQueue {
  m_bInGlobal : bool;
  m_overload : Z;
  m_overload_threshold : Z;
  m_queue : list sn_message;
  m_handle : Z
}.

(** ** Operations of [SNMessageQueue] *)

Definition SNMessageQueue_new (handle : Z) : SNMessageQueue :=
  {| m_bInGlobal := true; m_overload := 0; m_overload_threshold := MQ_OVERLOAD;
     m_queue := []; m_handle := handle |}.

(** [while (length > m_overload_threshold) { m_overload = length; m_overload_threshold *= 2; }] *)
Fixpoint overload_loop (fuel : nat) (length overload threshold : Z) : outcome (Z * Z) :=
  if bool_decide (threshold < length) then
    match fuel with
    | O => Crash OutOfFuel
    | S fuel => overload_loop fuel length length (i32 (threshold * 2))
    end
  else Ret (overload, threshold).

(** The loop doubles an [int]: 32 rounds are more than it can take. *)
Definition overload_fuel : nat := 32.
#[global] Arguments overload_loop : simpl never.

Definition SNMessageQueue_Pop (q : SNMessageQueue) (removeGlobal : bool)
  : outcome (option sn_message * SNMessageQueue) :=
  match m_queue q with
  | [] =>
      Ret (None, {| m_bInGlobal := if removeGlobal then false else m_bInGlobal q;
                    m_overload := m_overload q;
                    m_overload_threshold := MQ_OVERLOAD;
                    m_queue := []; m_handle := m_handle q |})
  | msg :: rest =>
      '(overload, threshold) ←
        overload_loop overload_fuel (i32 (Z.of_nat (length rest)))
                      (m_overload q) (m_overload_threshold q);
      Ret (Some msg, {| m_bInGlobal := m_bInGlobal q;
                        m_overload := overload;
                        m_overload_threshold := threshold;
                        m_queue := rest; m_handle := m_handle q |})
  end.

Definition set_in_global (b : bool) (q : SNMessageQueue) : SNMessageQueue :=
  {| m_bInGlobal := b; m_overload := m_overload q;
     m_overload_threshold := m_overload_threshold q;
     m_queue := m_queue q; m_handle := m_handle q |}.

Definition enqueue (msg : sn_message) (q : SNMessageQueue) : SNMessageQueue :=
  {| m_bInGlobal := m_bInGlobal q; m_overload := m_overload q;
     m_overload_threshold := m_overload_threshold q;
     m_queue := m_queue q ++ [msg]; m_handle := m_handle q |}.

Definition SNMessageQueue_Length (q : SNMessageQueue) : Z :=
  i32 (Z.of_nat (length (m_queue q))).

(** Reads and clears the overload mark. *)
Definition SNMessageQueue_Overload (q : SNMessageQueue) : Z * SNMessageQueue :=
  if bool_decide (m_overload q = 0) then (0, q)
  else (m_overload q,
        {| m_bInGlobal := m_bInGlobal q; m_overload := 0;
           m_overload_threshold := m_overload_threshold q;
           m_queue := m_queue q; m_handle := m_handle q |}).

Definition SNMessageQueue_GetHandle (q : SNMessageQueue) : Z := m_handle q.

(** [_drop_queue]: pops until empty, handing every message to [drop_func];
    here the messages are returned in the order they are dropped. *)
Fixpoint drop_queue (fuel : nat) (q : SNMessageQueue)
  : outcome (list sn_message * SNMessageQueue) :=
  '(m, q) ← SNMessageQueue_Pop q false;
  match m with
  | None => Ret ([], q)
  | Some msg =>
      match fuel with
      | O => Crash OutOfFuel
      | S fuel => '(l, q) ← drop_queue fuel q; Ret (msg :: l, q)
      end
  end.

Definition SNMessageQueue_Release (q : SNMessageQueue)
  : outcome (list sn_message * SNMessageQueue) :=
  drop_queue (length (m_queue q)) q.

(* ------------------------------------------------------------------ *)
(** ** The queue of queues *)

(** What the dispatcher asks of [SNMessageQueueMgr]. *)
Class GlobalQueue (G : Type) := {
  gq_push : qid -> G -> G;
  gq_pop : G -> option (qid * G);
  gq_elems : G -> list qid;
  gq_wf : G -> Prop
}.

(** What it promises: nothing is lost, duplicated or invented, and an empty
    answer means that there was nothing to give. *)
Class GlobalQueueLaws (G : Type) `{GlobalQueue G} := {
  gq_push_wf q g : gq_wf g -> gq_wf (gq_push q g);
  gq_push_elems q g : gq_elems (gq_push q g) ≡ₚ q :: gq_elems g;
  gq_pop_wf q g g' : gq_wf g -> gq_pop g = Some (q, g') -> gq_wf g';
  gq_pop_elems q g g' :
    gq_wf g -> gq_pop g = Some (q, g') -> gq_elems g ≡ₚ q :: gq_elems g';
  gq_pop_none g : gq_wf g -> gq_pop g = None -> gq_elems g = []
}.

(** [SNMessageQueue::Push] and [ForceInGlobal] of the object at [this]:
    the only two places that set the flag of an existing queue. *)
Section PUSH.
Context {G : Type} `{GlobalQueue G}.

Definition SNMessageQueue_Push (this : qid) (msg : sn_message)
    (q : SNMessageQueue) (g : G) : SNMessageQueue * G :=
  let q := enqueue msg q in
  if m_bInGlobal q then (q, g)
  else (set_in_global true q, gq_push this g).

Definition SNMessageQueue_ForceInGlobal (this : qid)
    (q : SNMessageQueue) (g : G) : SNMessageQueue * G :=
  if m_bInGlobal q then (q, g)
  else (set_in_global true q, gq_push this g).
End PUSH.

(** *** The [_DEBUG] build: [std::queue] under a mutex *)
Definition debug_mgr : Type := list qid.

Definition debug_mgr_Push (queue : qid) (m : debug_mgr) : debug_mgr := m ++ [queue].

Definition debug_mgr_Pop (m : debug_mgr) : option (qid * debug_mgr) :=
  match m with
  | [] => None
  | ret :: m => Some (ret, m)
  end.

#[export] Instance debug_global : GlobalQueue debug_mgr := {|
  gq_push := debug_mgr_Push;
  gq_pop := debug_mgr_Pop;
  gq_elems m := m;
  gq_wf _ := True
|}.

(* ------------------------------------------------------------------ *)
(** ** Lemmas *)

#[export] Instance debug_global_laws : GlobalQueueLaws debug_mgr.
Proof.
  split; simpl; try done.
  - intros q g. unfold debug_mgr_Push. by rewrite <- Permutation_cons_append.
  - intros q [|x g] g' _ [= -> ->]. done.
  - by intros [|x g] _.
Qed.

(* ------------------------------------------------------------------ *)
(** ** The overload detector *)

(** Thresholds are [MQ_OVERLOAD] doubled at most twenty times. *)
Definition mq_wf (q : SNMessageQueue) : Prop :=
  exists k, 0 <= k <= 20 /\ m_overload_threshold q = MQ_OVERLOAD * 2 ^ k.

(** The longest queue for which doubling the threshold stays inside [int]. *)
Definition mq_max : Z := 2 ^ 30.

Lemma overload_loop_S fuel len ov t :
  overload_loop (S fuel) len ov t =
    if bool_decide (t < len) then overload_loop fuel len len (i32 (t * 2)) else Ret (ov, t).
Proof. reflexivity. Qed.

Lemma overload_loop_spec fuel len ov k :
  0 <= k <= 20 -> len <= 2 ^ 30 -> 20 - k < Z.of_nat fuel ->
  exists k', k <= k' <= 20 /\
    overload_loop fuel len ov (MQ_OVERLOAD * 2 ^ k) =
      Ret (if decide (MQ_OVERLOAD * 2 ^ k < len) then len else ov, MQ_OVERLOAD * 2 ^ k') /\
    len <= MQ_OVERLOAD * 2 ^ k' /\
    (k < k' -> MQ_OVERLOAD * 2 ^ (k' - 1) < len).
Proof.
  unfold MQ_OVERLOAD. revert ov k.
  induction fuel as [|fuel IH]; intros ov k Hk Hlen Hf; [lia|].
  rewrite overload_loop_S. case_bool_decide as Hlt; rewrite ?decide_True, ?decide_False by lia.
  2: { exists k. split_and!; [lia|lia|done|lia|lia]. }
  assert (k < 20).
  { destruct (decide (k = 20)) as [->|]; [|lia]. change (2 ^ 20) with 1048576 in Hlt. lia. }
  assert (Hp : 2 ^ (k + 1) = 2 * 2 ^ k) by (rewrite Z.pow_add_r; lia).
  assert (Hb : 2 ^ (k + 1) <= 2 ^ 20) by (apply Z.pow_le_mono_r; lia).
  assert (0 < 2 ^ k) by (apply Z.pow_pos_nonneg; lia).
  change (2 ^ 20) with 1048576 in Hb.
  rewrite i32_small by (unfold is_i32; lia).
  replace (1024 * 2 ^ k * 2) with (1024 * 2 ^ (k + 1)) by lia.
  destruct (IH len (k + 1)) as (k' & Hk' & -> & Hle & Hmin); [lia|lia|lia|].
  exists k'. split_and!; [lia|lia| |done|].
  - case_decide; done.
  - intros _. destruct (decide (k' = k + 1)) as [->|]; [|apply Hmin; lia].
    replace (k + 1 - 1) with k by lia. done.
Qed.

(** A pop of a queue of at most [mq_max] messages always returns. *)
Lemma SNMessageQueue_Pop_spec q b :
  mq_wf q -> Z.of_nat (length (m_queue q)) <= mq_max ->
  exists q', SNMessageQueue_Pop q b = Ret (head (m_queue q), q') /\ mq_wf q' /\
    m_queue q' = tail (m_queue q) /\ m_handle q' = m_handle q /\
    m_bInGlobal q' = (if decide (m_queue q = []) then (if b then false else m_bInGlobal q)
                      else m_bInGlobal q).
Proof.
  intros (k & Hk & Hth) Hlen. unfold SNMessageQueue_Pop.
  destruct (m_queue q) as [|msg rest]; simpl in *.
  - eexists. split; [done|]. simpl. split_and!; [|done|done|done].
    exists 0. split; [lia|done].
  - unfold mq_max in *.
    rewrite i32_small by (unfold is_i32; lia). rewrite Hth.
    destruct (overload_loop_spec overload_fuel (Z.of_nat (length rest)) (m_overload q) k)
      as (k' & Hk' & -> & _); [lia|lia|unfold overload_fuel; lia|].
    eexists. split; [done|]. simpl. split_and!; [|done|done|done].
    exists k'. split; [lia|done].
Qed.

Lemma drop_queue_spec fuel q :
  mq_wf q -> Z.of_nat (length (m_queue q)) <= mq_max -> (length (m_queue q) <= fuel)%nat ->
  exists q', drop_queue fuel q = Ret (m_queue q, q') /\ m_queue q' = [] /\
    m_handle q' = m_handle q /\ m_bInGlobal q' = m_bInGlobal q.
Proof.
  revert q. induction fuel as [|fuel IH]; intros q Hwf Hmax Hf;
    destruct (SNMessageQueue_Pop_spec q false Hwf Hmax) as (q1 & Hpop & Hwf1 & Hq1 & Hh1 & Hb1);
    simpl; rewrite Hpop; destruct (m_queue q) as [|m rest] eqn:Eq; simpl in *; try lia.
  - exists q1. done.
  - exists q1. done.
  - destruct (IH q1) as (q2 & -> & ? & ? & ?); [done|rewrite Hq1; lia|rewrite Hq1; lia|].
    exists q2. simpl. rewrite Hq1. split_and!; [done|done|congruence|].
    congruence.
Qed.

(** ** A queue seen through its operations *)

Inductive mq_op :=
| OpPush (msg : sn_message)
| OpPop (removeGlobal : bool).

Definition mq_apply {G} `{GlobalQueue G} (this : qid) (op : mq_op)
    (st : SNMessageQueue * G) : outcome (option sn_message * (SNMessageQueue * G)) :=
  match op with
  | OpPush msg => Ret (None, SNMessageQueue_Push this msg st.1 st.2)
  | OpPop b => '(m, q) ← SNMessageQueue_Pop st.1 b; Ret (m, (q, st.2))
  end.

(** The messages popped by a sequence of operations, in order. *)
Fixpoint mq_run {G} `{GlobalQueue G} (this : qid) (ops : list mq_op)
    (st : SNMessageQueue * G) : outcome (list sn_message * (SNMessageQueue * G)) :=
  match ops with
  | [] => Ret ([], st)
  | op :: ops =>
      '(m, st) ← mq_apply this op st;
      '(l, st) ← mq_run this ops st;
      Ret (option_list m ++ l, st)
  end.

Definition pushes (ops : list mq_op) : list sn_message :=
  omap (fun op => match op with OpPush m => Some m | OpPop _ => None end) ops.

Lemma mq_run_fifo {G} `{GlobalQueue G} this ops q (g : G) :
  mq_wf q -> Z.of_nat (length (m_queue q) + length (pushes ops)) <= mq_max ->
  exists out q' g', mq_run this ops (q, g) = Ret (out, (q', g')) /\
    m_queue q ++ pushes ops = out ++ m_queue q' /\ mq_wf q' /\ m_handle q' = m_handle q /\
    (m_queue q' <> [] -> m_queue q = [] \/ m_bInGlobal q = true -> m_bInGlobal q' = true).
Proof.
  revert q g. induction ops as [|[m|b] ops IH]; intros q g Hwf Hlen; simpl.
  - exists [], q, g. simpl. rewrite app_nil_r. split_and!; [done..|]. intros ? [?|?]; done.
  - assert (exists q1 g1, SNMessageQueue_Push this m q g = (q1, g1) /\ mq_wf q1 /\
      m_queue q1 = m_queue q ++ [m] /\ m_handle q1 = m_handle q /\ m_bInGlobal q1 = true)
      as (q1 & g1 & -> & Hwf1 & Hq1 & Hh1 & Hb1).
    { unfold SNMessageQueue_Push. simpl. destruct (m_bInGlobal q) eqn:?; eauto 10. }
    simpl in Hlen.
    destruct (IH q1 g1) as (out & q' & g' & -> & Heq & Hwf' & Hh' & Hb'); [done|
      rewrite Hq1, length_app; simpl; lia|].
    exists out, q', g'. simpl. split_and!; [done| |done|congruence|by eauto].
    rewrite <- Heq, Hq1, <- app_assoc. done.
  - destruct (SNMessageQueue_Pop_spec q b) as (q1 & -> & Hwf1 & Hq1 & Hh1 & Hb1);
      [done|simpl in Hlen; lia|]. simpl.
    destruct (IH q1 g) as (out & q' & g' & -> & Heq & Hwf' & Hh' & Hb'); [done| |].
    { rewrite Hq1. simpl in Hlen. destruct (m_queue q); simpl in *; lia. }
    eexists _, q', g'. simpl. split; [done|]. split_and!; [|done|congruence|].
    + rewrite <- app_assoc, <- Heq, Hq1. by destruct (m_queue q).
    + intros Hne Hor. apply Hb'; [done|].
      destruct (m_queue q) eqn:E; [left; by rewrite Hq1|].
      right. rewrite Hb1. rewrite decide_False by done. by destruct Hor.
Qed.

(* ------------------------------------------------------------------ *)
(** ** Properties *)

(** C10: a service queue is a FIFO: under any sequence of [Push] and [Pop] that
    keeps it under [mq_max] messages, every call returns, the messages popped
    followed by the messages left are exactly the messages pushed, in order,
    and a queue that holds messages is marked as being in the global queue. *)
Theorem mq_fifo {G} `{GlobalQueue G} (this handle : Z) (ops : list mq_op) (g : G) :
  Z.of_nat (length (pushes ops)) <= mq_max ->
  exists out q' g',
    mq_run this ops (SNMessageQueue_new handle, g) = Ret (out, (q', g')) /\
    pushes ops = out ++ m_queue q' /\
    (m_queue q' <> [] -> m_bInGlobal q' = true).
Proof.
  intros Hlen.
  destruct (mq_run_fifo this ops (SNMessageQueue_new handle) g) as (out & q' & g' & -> & Heq & _ & _ & Hb);
    [exists 0; done|done|].
  exists out, q', g'. split_and!; [done|done|]. intros Hne. apply Hb; [done|]. by left.
Qed.

Definition demo_msg (n : Z) : sn_message := mk_sn_message 1 n None 0.

Lemma mq_fifo_witness :
  exists out q' g',
    mq_run 7 [OpPush (demo_msg 1); OpPush (demo_msg 2); OpPop true]
      (SNMessageQueue_new 16, @nil Z : debug_mgr) = Ret (out, (q', g')) /\
    pushes [OpPush (demo_msg 1); OpPush (demo_msg 2); OpPop true] = out ++ m_queue q' /\
    (m_queue q' <> [] -> m_bInGlobal q' = true).
Proof. apply (mq_fifo 7 16). vm_compute. discriminate. Defined.

(** Popping a message updates the overload detector without overflow: the
    new threshold is the smallest doubling of the old one that is not below
    the number of messages left, and the overload mark is that number exactly
    when the old threshold was exceeded. *)
Theorem mq_pop_overload (q : SNMessageQueue) (msg : sn_message) (rest : list sn_message)
    (b : bool) (k : Z) :
  m_queue q = msg :: rest -> Z.of_nat (length rest) <= mq_max ->
  0 <= k <= 20 -> m_overload_threshold q = MQ_OVERLOAD * 2 ^ k ->
  exists q' k', SNMessageQueue_Pop q b = Ret (Some msg, q') /\
    k <= k' <= 20 /\ m_overload_threshold q' = MQ_OVERLOAD * 2 ^ k' /\
    Z.of_nat (length rest) <= m_overload_threshold q' /\
    (k < k' -> MQ_OVERLOAD * 2 ^ (k' - 1) < Z.of_nat (length rest)) /\
    m_overload q' = (if decide (m_overload_threshold q < Z.of_nat (length rest))
                     then Z.of_nat (length rest) else m_overload q).
Proof.
  unfold mq_max. intros Hq Hlen Hk Hth. unfold SNMessageQueue_Pop. rewrite Hq.
  rewrite i32_small by (unfold is_i32; lia). rewrite Hth.
  destruct (overload_loop_spec overload_fuel (Z.of_nat (length rest)) (m_overload q) k)
    as (k' & Hk' & -> & Hle & Hmin); [lia|lia|unfold overload_fuel; lia|].
  eexists _, k'. simpl. split_and!; [done|lia|lia|done|done|done|done].
Qed.

Lemma mq_pop_overload_witness :
  exists q' k',
    SNMessageQueue_Pop (mk_SNMessageQueue true 0 1024 (demo_msg 0 :: replicate 3000 (demo_msg 1)) 16) true
      = Ret (Some (demo_msg 0), q') /\
    0 <= k' <= 20 /\ m_overload_threshold q' = MQ_OVERLOAD * 2 ^ k' /\
    Z.of_nat (length (replicate 3000 (demo_msg 1))) <= m_overload_threshold q' /\
    (0 < k' -> MQ_OVERLOAD * 2 ^ (k' - 1) < Z.of_nat (length (replicate 3000 (demo_msg 1)))) /\
    m_overload q' = (if decide (1024 < Z.of_nat (length (replicate 3000 (demo_msg 1))))
                     then Z.of_nat (length (replicate 3000 (demo_msg 1))) else 0).
Proof.
  apply (mq_pop_overload (mk_SNMessageQueue true 0 1024 (demo_msg 0 :: replicate 3000 (demo_msg 1)) 16)
    (demo_msg 0) (replicate 3000 (demo_msg 1)) true 0);
    [reflexivity | vm_compute; discriminate | lia | reflexivity].
Defined.

