(* ===== verification/QueueMgr.v ===== *)
(** * The release build of the queue of queues (src/src/sn_mq.cpp, SNMessageQueueMgr)

    A lock-free queue of fixed capacity, which is a library, and a chain of the queues that
    did not fit, linked through the [next] pointers of the queue objects.  The methods are
    programs of atomic steps over the shared memory.  One call after the other, they
    implement a bag, with the chain and without a failed assertion ([release_mgr_conserves]);
    interleaved, they do as long as the queues fit into the lock-free queue
    ([interleaved_calls_conserve]).  Interleaved calls on the chain can hand out a queue
    twice ([aba_duplicates]). *)
From S2P Require Import Prelude MessageQueue.
From stdpp Require Import base list gmap numbers strings.
From Stdlib Require Import ZArith Lia.

Local Open Scope Z_scope.

(** ** The lock-free queue *)

(** [boost::lockfree::queue] with [fixed_sized]: its calls are atomic. *)
Class LockfreeQueue (Q : Type) := {
  lf_push : qid -> Q -> option Q;
  lf_pop : Q -> option (qid * Q);
  lf_contents : Q -> list qid;
  lf_cap : Q -> nat
}.

Class LockfreeQueueLaws (Q : Type) `{LockfreeQueue Q} := {
  lf_push_some x q q' : lf_push x q = Some q' ->
    lf_contents q' = lf_contents q ++ [x] /\ lf_cap q' = lf_cap q;
  lf_push_none x q : lf_push x q = None <-> (lf_cap q <= length (lf_contents q))%nat;
  lf_pop_some x q q' : lf_pop q = Some (x, q') ->
    lf_contents q = x :: lf_contents q' /\ lf_cap q' = lf_cap q;
  lf_pop_none q : lf_pop q = None <-> lf_contents q = []
}.

(** A concrete fixed-capacity FIFO: capacity and contents. *)
#[export] Instance bounded_list : LockfreeQueue (nat * list qid) := {|
  lf_push x q := if bool_decide (length q.2 < q.1)%nat then Some (q.1, q.2 ++ [x]) else None;
  lf_pop q := match q.2 with [] => None | x :: l => Some (x, (q.1, l)) end;
  lf_contents q := q.2;
  lf_cap q := q.1
|}.

#[export] Instance bounded_list_laws : LockfreeQueueLaws (nat * list qid).
Proof.
  split; simpl.
  - intros x [c l] q'. simpl. case_bool_decide; [|done]. by intros [= <-].
  - intros x [c l]. simpl. case_bool_decide; split; try done; lia.
  - intros x [c [|y l]] q'; simpl; [done|]. by intros [= -> <-].
  - intros [c [|y l]]; simpl; done.
Qed.

(** ** The manager and its methods *)

Section MANAGER.
Context {Q : Type} `{LockfreeQueue Q}.

(** The manager with the two fields of the queue objects that it uses: the [next] pointers
    that are not NULL, and the objects whose [m_bInGlobal] is set. *)
Record SNMessageQueueMgr := mk_SNMessageQueueMgr {
  mgr_queue : Q;
  mgr_list : option qid;
  q_next : gmap qid qid;
  q_inGlobal : gset qid
}.

Definition set_queue (q : Q) (m : SNMessageQueueMgr) := mk_SNMessageQueueMgr q (mgr_list m) (q_next m) (q_inGlobal m).
Definition set_list (p : option qid) (m : SNMessageQueueMgr) := mk_SNMessageQueueMgr (mgr_queue m) p (q_next m) (q_inGlobal m).
Definition set_next (queue : qid) (p : option qid) (m : SNMessageQueueMgr) :=
  mk_SNMessageQueueMgr (mgr_queue m) (mgr_list m) (partial_alter (fun _ => p) queue (q_next m)) (q_inGlobal m).
Definition set_flag (queue : qid) (b : bool) (m : SNMessageQueueMgr) :=
  mk_SNMessageQueueMgr (mgr_queue m) (mgr_list m) (q_next m) (if b then {[queue]} ∪ q_inGlobal m else q_inGlobal m ∖ {[queue]}).

(** Where a thread is in a call; [ret] is what the call will return ([None]: nothing, or NULL). *)
Inductive mgr_pc :=
| Finished (ret : option qid)
| PushAssert (ret : option qid) (queue : qid)
| PushQueue (ret : option qid) (queue : qid)
| PushNext (ret : option qid) (queue : qid)
| PushCas (ret : option qid) (queue : qid)
| PopQueue
| PopList (ret : qid)
| PopNext (ret l : qid)
| PopCas (ret l : qid) (newhead : option qid)
| PopClear (ret l : qid).

(** An atomic step of [Push] or [Pop].  [compare_exchange_strong] compares with [queue->next]
    and writes [list] into it when they differ. *)
Definition mgr_step (pc : mgr_pc) (m : SNMessageQueueMgr) : outcome (mgr_pc * SNMessageQueueMgr) :=
  match pc with
  | Finished ret => Ret (pc, m)
  | PushAssert ret queue => if bool_decide (queue ∈ q_inGlobal m) then Ret (PushQueue ret queue, m) else Crash AssertFailed
  | PushQueue ret queue =>
    match lf_push queue (mgr_queue m) with
    | Some q => Ret (Finished ret, set_queue q m)
    | None => Ret (PushNext ret queue, m)
    end
  | PushNext ret queue => if bool_decide (q_next m !! queue = None) then Ret (PushCas ret queue, m) else Crash AssertFailed
  | PushCas ret queue =>
    if bool_decide (mgr_list m = q_next m !! queue) then Ret (Finished ret, set_list (Some queue) m)
    else Ret (PushCas ret queue, set_next queue (mgr_list m) m)
  | PopQueue =>
    match lf_pop (mgr_queue m) with
    | Some (ret, q) => Ret (PopList ret, set_queue q m)
    | None => Ret (Finished None, m)
    end
  | PopList ret =>
    match mgr_list m with
    | Some l => Ret (PopNext ret l, m)
    | None => Ret (Finished (Some ret), m)
    end
  | PopNext ret l => Ret (PopCas ret l (q_next m !! l), m)
  | PopCas ret l newhead =>
    if bool_decide (mgr_list m = Some l) then Ret (PopClear ret l, set_list newhead m) else Ret (Finished (Some ret), m)
  | PopClear ret l => Ret (PushAssert (Some ret) l, set_next l None m)
  end.

(** A call that no other call interrupts; a failed exchange is repeated. *)
Fixpoint mgr_exec (fuel : nat) (pc : mgr_pc) (m : SNMessageQueueMgr) : outcome (option qid * SNMessageQueueMgr) :=
  match pc with
  | Finished ret => Ret (ret, m)
  | _ =>
    match fuel with
    | O => Crash OutOfFuel
    | S fuel => '(pc, m) ← mgr_step pc m; mgr_exec fuel pc m
    end
  end.

Definition SNMessageQueueMgr_Push (queue : qid) (m : SNMessageQueueMgr) : outcome (option qid * SNMessageQueueMgr) :=
  mgr_exec 10 (PushAssert None queue) m.

Definition SNMessageQueueMgr_Pop (m : SNMessageQueueMgr) : outcome (option qid * SNMessageQueueMgr) :=
  mgr_exec 10 PopQueue m.
End MANAGER.
Arguments SNMessageQueueMgr Q : clear implicits.

(** ** The specification: a bounded FIFO that overflows into a stack *)

Section OVERFLOW.
Context {Q : Type} `{LockfreeQueue Q}.

(** [ov_chain] is the chain that starts at [list] and follows [next]. *)
Record overflow := mk_overflow {
  ov_queue : Q;
  ov_chain : list qid
}.

(** A queue that does not fit goes in front of the chain. *)
Definition overflow_push (queue : qid) (m : overflow) : overflow :=
  match lf_push queue (ov_queue m) with
  | Some q => {| ov_queue := q; ov_chain := ov_chain m |}
  | None => {| ov_queue := ov_queue m; ov_chain := queue :: ov_chain m |}
  end.

(** A successful [m_queue.pop] moves the head of the chain, if any, back into
    the lock-free queue. *)
Definition overflow_pop (m : overflow) : option (qid * overflow) :=
  match lf_pop (ov_queue m) with
  | Some (ret, q) =>
      match ov_chain m with
      | [] => Some (ret, {| ov_queue := q; ov_chain := [] |})
      | l :: newhead =>
          Some (ret, overflow_push l {| ov_queue := q; ov_chain := newhead |})
      end
  | None => None
  end.

(** The chain is used only while the lock-free queue is full. *)
Definition overflow_wf (m : overflow) : Prop :=
  (0 < lf_cap (ov_queue m))%nat /\
  (length (lf_contents (ov_queue m)) <= lf_cap (ov_queue m))%nat /\
  (ov_chain m <> [] -> length (lf_contents (ov_queue m)) = lf_cap (ov_queue m)).
End OVERFLOW.
Arguments overflow Q : clear implicits.

#[export] Instance overflow_global {Q} `{LockfreeQueue Q} : GlobalQueue (overflow Q) := {|
  gq_push := overflow_push;
  gq_pop := overflow_pop;
  gq_elems m := lf_contents (ov_queue m) ++ ov_chain m;
  gq_wf := overflow_wf
|}.

Lemma overflow_push_cases {Q} `{LockfreeQueueLaws Q} q (m : overflow Q) :
  (lf_cap (ov_queue m) <= length (lf_contents (ov_queue m)))%nat /\
    overflow_push q m = {| ov_queue := ov_queue m; ov_chain := q :: ov_chain m |} \/
  (length (lf_contents (ov_queue m)) < lf_cap (ov_queue m))%nat /\
  exists q', overflow_push q m = {| ov_queue := q'; ov_chain := ov_chain m |} /\
    lf_contents q' = lf_contents (ov_queue m) ++ [q] /\
    lf_cap q' = lf_cap (ov_queue m).
Proof.
  unfold overflow_push. destruct (lf_push q (ov_queue m)) eqn:E.
  - right. pose proof (lf_push_some _ _ _ E) as [? ?]. split; [|by eauto].
    destruct (decide (length (lf_contents (ov_queue m)) < lf_cap (ov_queue m))%nat); [done|].
    pose proof (proj2 (lf_push_none q (ov_queue m)) ltac:(lia)). congruence.
  - left. split; [|done]. by apply lf_push_none in E.
Qed.

Lemma overflow_push_wf {Q} `{LockfreeQueueLaws Q} q (m : overflow Q) :
  overflow_wf m -> overflow_wf (overflow_push q m).
Proof.
  intros (Hc & Hle & Hfull).
  destruct (overflow_push_cases q m) as [[? ->]|[Hlt (q' & -> & Hq' & Hcap)]];
    unfold overflow_wf; simpl.
  - split_and!; [done|done|lia].
  - rewrite Hcap, Hq', length_app; simpl. split_and!; [done|lia|].
    intros Hne. specialize (Hfull Hne). lia.
Qed.

Lemma overflow_push_elems {Q} `{LockfreeQueueLaws Q} q (m : overflow Q) :
  gq_elems (overflow_push q m) ≡ₚ q :: gq_elems m.
Proof.
  simpl. destruct (overflow_push_cases q m) as [[? ->]|[Hlt (q' & -> & Hq' & Hcap)]]; simpl.
  - by rewrite <- Permutation_middle.
  - rewrite Hq', <- app_assoc. simpl. by rewrite <- Permutation_middle.
Qed.

#[export] Instance overflow_global_laws {Q} `{LockfreeQueueLaws Q} :
  GlobalQueueLaws (overflow Q).
Proof.
  split; simpl.
  - intros. by apply overflow_push_wf.
  - intros. apply overflow_push_elems.
  - intros q [lq l] g' (Hc & Hle & Hfull). unfold overflow_pop. simpl in *.
    destruct (lf_pop lq) as [[x lq']|] eqn:E; [|done].
    apply lf_pop_some in E as [Ec Ecap]. rewrite Ec in *; simpl in *.
    destruct l as [|y l]; intros [= -> <-].
    + split_and!; simpl; [lia|lia|done].
    + specialize (Hfull ltac:(done)).
      destruct (overflow_push_cases y {| ov_queue := lq'; ov_chain := l |})
        as [[Hge _]|[Hlt (q' & -> & Hq' & Hcap)]]; simpl in *; [lia|].
      unfold overflow_wf; simpl. rewrite Hcap, Hq', length_app; simpl.
      split_and!; [lia|lia|lia].
  - intros q [lq l] g' _. unfold overflow_pop. simpl.
    destruct (lf_pop lq) as [[x lq']|] eqn:E; [|done].
    apply lf_pop_some in E as [Ec Ecap]. rewrite Ec.
    destruct l as [|y l]; intros [= -> <-]; simpl; [done|].
    pose proof (overflow_push_elems y {| ov_queue := lq'; ov_chain := l |}) as Hp.
    simpl in Hp. rewrite Hp. by rewrite <- Permutation_middle.
  - intros [lq l] (Hc & Hle & Hfull). unfold overflow_pop. simpl in *.
    destruct (lf_pop lq) as [[x lq']|] eqn:E; [by destruct l|].
    apply lf_pop_none in E. rewrite E in *. simpl in *. intros _.
    destruct l; [done|]. specialize (Hfull ltac:(done)). lia.
Qed.

(** ** Calls one after the other *)

(** The chain from [p] through the [next] pointers. *)
Fixpoint chain (next : gmap qid qid) (p : option qid) (l : list qid) : Prop :=
  match l with
  | [] => p = None
  | q :: l => p = Some q /\ chain next (next !! q) l
  end.

Lemma next_chain_ext next next' l : forall p, (forall q, q ∈ l -> next' !! q = next !! q) -> chain next p l -> chain next' p l.
Proof.
  induction l as [|q l IH]; intros p Hn; [done|]. intros [-> Hc]. split; [done|]. rewrite Hn by left.
  apply IH; [|done]. intros x Hx. apply Hn. by right.
Qed.

Section REFINEMENT.
Context {Q : Type} `{LockfreeQueueLaws Q}.

(** The memory stands for an abstract queue: the chain is linked, each queue is in it once and
    has its flag set, and the [next] of all others is NULL. *)
Record mgr_repr (m : SNMessageQueueMgr Q) (a : overflow Q) : Prop := {
  mr_queue : mgr_queue m = ov_queue a;
  mr_chain : chain (q_next m) (mgr_list m) (ov_chain a);
  mr_once : NoDup (gq_elems a);
  mr_next : forall q, q ∉ ov_chain a -> q_next m !! q = None;
  mr_flag : forall q, q ∈ gq_elems a -> q ∈ q_inGlobal m
}.

Lemma exec_S fuel pc m : (forall ret, pc <> Finished ret) ->
  mgr_exec (S fuel) pc m = ('(pc, m) ← mgr_step (Q := Q) pc m; mgr_exec fuel pc m).
Proof. by destruct pc; intros Hp; try by destruct (Hp ret). Qed.

(** What [Push] does, from its assertion on: it is also the end of [Pop]. *)
Lemma push_exec fuel ret queue m a : mgr_repr m a -> queue ∈ q_inGlobal m -> queue ∉ gq_elems a -> (5 <= fuel)%nat ->
  exists m', mgr_exec fuel (PushAssert ret queue) m = Ret (ret, m') /\ mgr_repr m' (overflow_push queue a) /\ q_inGlobal m' = q_inGlobal m.
Proof.
  intros [Hq Hc Ho Hn Hf] Hin Hnew Hfuel. do 5 (destruct fuel as [|fuel]; [lia|]).
  rewrite exec_S by done. cbn [mgr_step]. rewrite bool_decide_true, bind_Ret by done. cbn beta iota.
  rewrite exec_S by done. cbn [mgr_step]. pose proof (overflow_push_elems queue a) as Hp. unfold overflow_push in *. rewrite Hq.
  assert (Honce : NoDup (queue :: gq_elems a)) by by apply NoDup_cons.
  destruct (lf_push queue (ov_queue a)) as [q'|] eqn:Ep; rewrite bind_Ret; cbn beta iota.
  - exists (set_queue q' m). split; [by destruct fuel|]. split; [|done]. split; [done|exact Hc|by rewrite Hp|exact Hn|].
    intros x. rewrite Hp. intros [-> |Hx]%elem_of_cons; [exact Hin|by apply Hf].
  - assert (Hnc : queue ∉ ov_chain a) by (intros Hx; apply Hnew; cbn; set_solver).
    rewrite exec_S by done. cbn [mgr_step]. rewrite bool_decide_true, bind_Ret by by apply Hn. cbn beta iota. rewrite exec_S by done. cbn [mgr_step].
    assert (Hflag : forall x, x ∈ gq_elems (mk_overflow (ov_queue a) (queue :: ov_chain a)) -> x ∈ q_inGlobal m).
    { intros x. rewrite Hp. intros [-> |Hx]%elem_of_cons; [exact Hin|by apply Hf]. }
    destruct (mgr_list m) as [h|] eqn:El.
    + rewrite bool_decide_false by (rewrite Hn; done). rewrite bind_Ret. cbn beta iota. rewrite exec_S by done. cbn [mgr_step set_next mgr_list q_next].
      rewrite lookup_partial_alter_eq, El, bool_decide_true, bind_Ret by done. cbn beta iota.
      eexists. split; [by destruct fuel|]. split; [|done]. split; cbn [set_list set_next mgr_queue mgr_list q_next q_inGlobal ov_queue ov_chain]; [done| |by rewrite Hp| |exact Hflag].
      * split; [done|]. rewrite lookup_partial_alter_eq. eapply next_chain_ext; [|exact Hc]. intros x Hx. rewrite lookup_partial_alter_ne; [done|]. by intros ->.
      * intros x Hx. apply not_elem_of_cons in Hx as [Hne Hx]. rewrite lookup_partial_alter_ne by done. by apply Hn.
    + rewrite bool_decide_true, bind_Ret by (by rewrite Hn). cbn beta iota.
      eexists. split; [by destruct fuel|]. split; [|done]. split; cbn [set_list mgr_queue mgr_list q_next q_inGlobal ov_queue ov_chain]; [done| |by rewrite Hp| |exact Hflag].
      * split; [done|]. rewrite (Hn queue Hnc). destruct (ov_chain a) as [|y l]; [done|]. by destruct Hc.
      * intros x Hx. apply not_elem_of_cons in Hx as [Hne Hx]. by apply Hn.
Qed.

Lemma pop_exec m a : mgr_repr m a -> exists m', SNMessageQueueMgr_Pop m = Ret (fst <$> overflow_pop a, m') /\
  mgr_repr m' (default a (snd <$> overflow_pop a)) /\ q_inGlobal m' = q_inGlobal m.
Proof.
  intros Hm. pose proof Hm as [Hq Hc Ho Hn Hf]. unfold SNMessageQueueMgr_Pop, overflow_pop. rewrite exec_S by done. cbn [mgr_step]. rewrite Hq.
  destruct (lf_pop (ov_queue a)) as [[ret q']|] eqn:Ep; rewrite bind_Ret; cbn beta iota; [|by exists m].
  destruct (lf_pop_some _ _ _ Ep) as [Hcont _]. rewrite exec_S by done. cbn [mgr_step set_queue mgr_list].
  destruct (ov_chain a) as [|l rest] eqn:Ea.
  - cbn [chain] in Hc. rewrite Hc, bind_Ret. cbn beta iota. eexists. split; [done|]. split; [|done].
    assert (He : gq_elems a = ret :: gq_elems (mk_overflow q' [])) by (change (gq_elems a) with (lf_contents (ov_queue a) ++ ov_chain a); by rewrite Ea, Hcont). rewrite He in *.
    split; cbn [fmap option_fmap option_map snd default from_option id set_queue mgr_queue mgr_list q_next q_inGlobal ov_queue ov_chain];
      [done|exact Hc|by apply NoDup_cons in Ho as [_ Ho]|exact Hn|]. intros x Hx. apply Hf. by right.
  - destruct Hc as [El Hc]. rewrite El, bind_Ret. cbn beta iota. rewrite exec_S by done. cbn [mgr_step set_queue q_next]. rewrite bind_Ret. cbn beta iota.
    rewrite exec_S by done. cbn [mgr_step set_queue mgr_list]. rewrite El, bool_decide_true, bind_Ret by done. cbn beta iota.
    rewrite exec_S by done. cbn [mgr_step]. rewrite bind_Ret. cbn beta iota.
    assert (He : gq_elems a ≡ₚ ret :: l :: gq_elems (mk_overflow q' rest)) by (change (gq_elems a) with (lf_contents (ov_queue a) ++ ov_chain a); rewrite Ea, Hcont; cbn; by rewrite <- Permutation_middle).
    rewrite He in Ho. apply NoDup_cons in Ho as [_ Ho]. pose proof Ho as [Hl Ho']%NoDup_cons.
    destruct (push_exec 5 (Some ret) l (set_next l None (set_list (q_next m !! l) (set_queue q' m))) (mk_overflow q' rest)) as (m' & Hm' & Hr & Hfl);
      [| |done|lia|exists m'; by split; [exact Hm'|split]].
    + split; cbn [set_next set_list set_queue mgr_queue mgr_list q_next q_inGlobal ov_queue ov_chain]; [done| |done| |].
      * eapply next_chain_ext; [|exact Hc]. intros x Hx. rewrite lookup_partial_alter_ne; [done|]. intros ->. apply Hl. cbn. set_solver.
      * intros x Hx. destruct (decide (l = x)) as [-> |Hne]; [apply lookup_partial_alter_eq|]. rewrite lookup_partial_alter_ne by done. apply Hn.
        by apply not_elem_of_cons.
      * intros x Hx. apply Hf. rewrite He. right. by right.
    + cbn. apply Hf. rewrite He. right. by left.
Qed.
End REFINEMENT.

(** ** Runs of calls *)

(** The flag of a queue is written under the lock of the queue, by its owner. *)
Inductive mgr_call :=
| CallFlag (queue : qid) (b : bool)
| CallPush (queue : qid)
| CallPop.

Section CALLS.
Context {Q : Type} `{LockfreeQueueLaws Q}.

(** The answers of the pops. *)
Fixpoint call_run (cs : list mgr_call) (m : SNMessageQueueMgr Q) : outcome (list (option qid) * SNMessageQueueMgr Q) :=
  match cs with
  | [] => Ret ([], m)
  | CallFlag queue b :: cs => call_run cs (set_flag queue b m)
  | CallPush queue :: cs => '(_, m) ← SNMessageQueueMgr_Push queue m; call_run cs m
  | CallPop :: cs => '(r, m) ← SNMessageQueueMgr_Pop m; '(rs, m) ← call_run cs m; Ret (r :: rs, m)
  end.

(** What [SNMessageQueue::Push] and the dispatcher keep to: a queue is pushed with its flag
    set and when it is not in the manager, and keeps the flag while it is there.  [flags]
    are the queues with the flag, [a] the content of the manager. *)
Fixpoint calls_legal (flags : gset qid) (a : overflow Q) (cs : list mgr_call) : Prop :=
  match cs with
  | [] => True
  | CallFlag queue b :: cs =>
    (b = false -> queue ∉ gq_elems a) /\ calls_legal (if b then ({[queue]} ∪ flags) else (flags ∖ {[queue]})) a cs
  | CallPush queue :: cs => queue ∈ flags /\ (queue ∉ gq_elems a) /\ calls_legal flags (overflow_push queue a) cs
  | CallPop :: cs => calls_legal flags (default a (snd <$> overflow_pop a)) cs
  end.

Definition pushed (cs : list mgr_call) : list qid := omap (fun c => match c with CallPush q => Some q | _ => None end) cs.

Lemma call_run_spec cs : forall m a, mgr_repr m a -> overflow_wf a -> calls_legal (q_inGlobal m) a cs ->
  exists rs m' a', call_run cs m = Ret (rs, m') /\ mgr_repr m' a' /\ overflow_wf a' /\
    pushed cs ++ gq_elems a ≡ₚ omap id rs ++ gq_elems a'.
Proof.
  induction cs as [|[queue b|queue|] cs IH]; intros m a Hm Hwf Hl; cbn [call_run calls_legal] in *; [by exists [], m, a| | |].
  - destruct Hl as [Hb Hl]. apply (IH (set_flag queue b m) a); [|done|exact Hl]. destruct Hm as [Hq Hc Ho Hn Hf].
    split; [exact Hq|exact Hc|exact Ho|exact Hn|]. intros x Hx. specialize (Hf x Hx). cbn. destruct b; [set_solver|].
    assert (x <> queue) by (intros ->; by apply Hb). set_solver.
  - destruct Hl as (Hin & Hnew & Hl). destruct (push_exec 10 None queue m a Hm Hin Hnew ltac:(lia)) as (m1 & Hp & Hm1 & Hfl).
    unfold SNMessageQueueMgr_Push. rewrite Hp, bind_Ret. destruct (IH m1 _ Hm1 (overflow_push_wf _ _ Hwf)) as (rs & m' & a' & Hr & Hm' & Hwf' & He); [by rewrite Hfl|].
    exists rs, m', a'. split; [exact Hr|]. split; [done|]. split; [done|]. rewrite <- He, overflow_push_elems. cbn. by rewrite Permutation_middle.
  - destruct (pop_exec m a Hm) as (m1 & Hp & Hm1 & Hfl). rewrite Hp, bind_Ret. cbn beta iota.
    destruct (overflow_pop a) as [[r a1]|] eqn:Ea; cbn [fmap option_fmap option_map fst snd default from_option id] in *.
    + pose proof (gq_pop_wf (G := overflow Q) r a a1 Hwf Ea) as Hwf1. pose proof (gq_pop_elems (G := overflow Q) r a a1 Hwf Ea) as He1.
      destruct (IH m1 a1 Hm1 Hwf1) as (rs & m' & a' & Hr & Hm' & Hwf' & He); [by rewrite Hfl|]. exists (Some r :: rs), m', a'.
      rewrite Hr. split; [done|]. split; [done|]. split; [done|]. cbn [omap list_omap id app]. rewrite <- He, He1. by rewrite <- Permutation_middle.
    + destruct (IH m1 a Hm1 Hwf) as (rs & m' & a' & Hr & Hm' & Hwf' & He); [by rewrite Hfl|]. exists (None :: rs), m', a'. by rewrite Hr.
Qed.

(** C9: Called one after the other, the methods of the release build implement a bag of
    queues, with the lock-free queue of any capacity and the chain through the objects: no
    assertion fails and every call returns; what was pushed is what was popped and what is
    left, each queue once; and a pop answers NULL only when nothing is left.  A queue is
    pushed with its flag set and while it is not in the manager, as the dispatcher does
    ([dispatch_exclusive]). *)
Theorem release_mgr_conserves (q : Q) cs : lf_contents q = [] -> (0 < lf_cap q)%nat -> calls_legal ∅ (mk_overflow q []) cs ->
  exists rs m left, call_run cs (mk_SNMessageQueueMgr q None ∅ ∅) = Ret (rs, m) /\
    pushed cs ≡ₚ omap id rs ++ left /\ NoDup left /\
    exists r m', SNMessageQueueMgr_Pop m = Ret (r, m') /\ (r = None <-> left = []).
Proof.
  intros Hq Hcap Hl.
  destruct (call_run_spec cs (mk_SNMessageQueueMgr q None ∅ ∅) (mk_overflow q [])) as (rs & m & a & Hr & Hm & Hwf & He); [| |exact Hl|].
  - split; cbn; rewrite ?Hq; try done; [constructor|]. by intros x Hx%not_elem_of_nil.
  - unfold overflow_wf. cbn. rewrite Hq. cbn. split; [done|]. split; [lia|done].
  - exists rs, m, (gq_elems a). split; [exact Hr|]. cbn [gq_elems overflow_global ov_queue ov_chain] in He. rewrite Hq, !app_nil_r in He. split; [exact He|]. split; [by apply Hm|].
    destruct (pop_exec m a Hm) as (m' & Hp & _ & _). exists (fst <$> overflow_pop a), m'. split; [exact Hp|].
    split; [|intros Hn]; destruct (overflow_pop a) as [[r a1]|] eqn:Ea; try done.
    + intros _. pose proof (gq_pop_none (G := overflow Q) a) as Hnone. exact (Hnone Hwf Ea).
    + pose proof (gq_pop_elems (G := overflow Q) r a a1 Hwf Ea) as Hp'. rewrite Hn in Hp'. by apply Permutation_nil_cons in Hp'.
Qed.
End CALLS.

(** Three queues in a lock-free queue for one: two are in the chain. *)
Definition demo_calls : list mgr_call :=
  [CallFlag 1 true; CallFlag 2 true; CallFlag 3 true; CallPush 1; CallPush 2; CallPush 3; CallPop; CallFlag 1 false; CallPop].

Lemma release_mgr_conserves_witness : exists rs m left,
  call_run demo_calls (mk_SNMessageQueueMgr (1%nat, []) None ∅ ∅) = Ret (rs, m) /\ pushed demo_calls ≡ₚ omap id rs ++ left /\ NoDup left /\
  exists r m', SNMessageQueueMgr_Pop m = Ret (r, m') /\ (r = None <-> left = []).
Proof.
  apply (release_mgr_conserves (Q := nat * list qid) (1%nat, []) demo_calls); [done|cbn; lia|].
  apply (bool_decide_unpack _). vm_compute. exact I.
Defined.

(** ** Interleaved calls *)

(** Threads, the queues pushed and the queues taken out so far. *)
Record mgr_sys (Q : Type) := mk_mgr_sys {
  y_threads : list mgr_pc;
  y_mgr : SNMessageQueueMgr Q;
  y_pushed : list qid;
  y_popped : list qid
}.
Arguments mk_mgr_sys {Q}.
Arguments y_threads {Q}.
Arguments y_mgr {Q}.
Arguments y_pushed {Q}.
Arguments y_popped {Q}.

(** A thread begins a call, or makes a step; a flag is written. *)
Inductive mgr_action :=
| ActPush (t : nat) (queue : qid)
| ActPop (t : nat)
| ActStep (t : nat)
| ActFlag (queue : qid) (b : bool).

Definition is_idle (pc : mgr_pc) : bool := match pc with Finished _ => true | _ => false end.

Section INTERLEAVED.
Context {Q : Type} `{LockfreeQueue Q}.

(** What the step takes out of the lock-free queue. *)
Definition taken (pc : mgr_pc) (m : SNMessageQueueMgr Q) : list qid :=
  match pc with PopQueue => option_list (fst <$> lf_pop (mgr_queue m)) | _ => [] end.

(** A call of a thread that is in a call, and a step of no thread, change nothing. *)
Definition mgr_act (y : mgr_sys Q) (a : mgr_action) : outcome (mgr_sys Q) :=
  match a with
  | ActPush t queue =>
    match y_threads y !! t with
    | Some (Finished _) => Ret (mk_mgr_sys (<[t := PushAssert None queue]> (y_threads y)) (y_mgr y) (queue :: y_pushed y) (y_popped y))
    | _ => Ret y
    end
  | ActPop t =>
    match y_threads y !! t with
    | Some (Finished _) => Ret (mk_mgr_sys (<[t := PopQueue]> (y_threads y)) (y_mgr y) (y_pushed y) (y_popped y))
    | _ => Ret y
    end
  | ActStep t =>
    match y_threads y !! t with
    | Some pc =>
      '(pc', m) ← mgr_step pc (y_mgr y);
      Ret (mk_mgr_sys (<[t := pc']> (y_threads y)) m (y_pushed y) (taken pc (y_mgr y) ++ y_popped y))
    | None => Ret y
    end
  | ActFlag queue b => Ret (mk_mgr_sys (y_threads y) (set_flag queue b (y_mgr y)) (y_pushed y) (y_popped y))
  end.

Fixpoint mgr_acts (y : mgr_sys Q) (acts : list mgr_action) : outcome (mgr_sys Q) :=
  match acts with
  | [] => Ret y
  | a :: acts => y ← mgr_act y a; mgr_acts y acts
  end.

(** The queue that a thread is about to put in. *)
Definition in_flight (pc : mgr_pc) : list qid :=
  match pc with PushAssert _ q | PushQueue _ q | PushNext _ q | PushCas _ q => [q] | _ => [] end.

Definition y_inside (y : mgr_sys Q) : list qid := lf_contents (mgr_queue (y_mgr y)) ++ (y_threads y ≫= in_flight).

(** As for single calls: [queues] are all that there are. *)
Definition act_legal (queues : gset qid) (y : mgr_sys Q) (a : mgr_action) : Prop :=
  match a with
  | ActPush t queue => queue ∈ queues /\ queue ∈ q_inGlobal (y_mgr y) /\ queue ∉ y_inside y
  | ActFlag queue b => b = false -> queue ∉ y_inside y
  | _ => True
  end.
End INTERLEAVED.

(** Two pops and two pushes that interleave: a thread has read the head 3 of the chain and
    its successor 2 when others take 3 and 2 out and push 3 again; its exchange then finds
    the head that it expects and puts 2 back into the chain, although 2 is in the lock-free
    queue: 2 is handed out twice. *)
Definition aba_schedule : list mgr_action :=
  [ActFlag 1 true; ActFlag 2 true; ActFlag 3 true; ActFlag 4 true;
   ActPush 1 1; ActStep 1; ActStep 1; ActPush 1 2; ActStep 1; ActStep 1; ActStep 1; ActStep 1;
   ActPush 1 3; ActStep 1; ActStep 1; ActStep 1; ActStep 1; ActStep 1;
   ActPop 0; ActStep 0; ActStep 0; ActStep 0] ++
  [ActPush 1 4; ActStep 1; ActStep 1] ++
  (ActPop 1 :: replicate 7 (ActStep 1)) ++ (ActPop 1 :: replicate 7 (ActStep 1)) ++
  (ActPush 1 3 :: replicate 5 (ActStep 1)) ++ replicate 7 (ActStep 0) ++
  (ActPop 1 :: replicate 9 (ActStep 1)) ++ (ActPop 1 :: replicate 9 (ActStep 1)) ++ (ActPop 1 :: replicate 9 (ActStep 1)).

Example aba_duplicates : exists y,
  mgr_acts (mk_mgr_sys [Finished None; Finished None] (mk_SNMessageQueueMgr (1%nat, []) None ∅ ∅) [] []) aba_schedule = Ret y /\
  y_pushed y = [3; 4; 3; 2; 1] /\ y_popped y = [2; 3; 2; 3; 4; 1] /\ y_threads y = [Finished (Some 1); Finished (Some 2)].
Proof. eexists. by vm_compute. Qed.

(** A second push of the only queue of the chain passes both assertions and links the queue
    to itself. *)
Example double_push_links_itself : exists m,
  call_run [CallFlag 1 true; CallFlag 2 true; CallPush 1; CallPush 2; CallPush 2] (mk_SNMessageQueueMgr (1%nat, []) None ∅ ∅) = Ret ([], m) /\
  mgr_list m = Some 2 /\ q_next m !! 2 = Some 2.
Proof. eexists. by vm_compute. Qed.

(** With another queue below it, it fails the assertion, and so does a queue without its flag. *)
Example double_push_asserts :
  call_run [CallFlag 1 true; CallFlag 2 true; CallFlag 3 true; CallPush 1; CallPush 3; CallPush 2; CallPush 2]
    (mk_SNMessageQueueMgr (1%nat, []) None ∅ ∅) = Crash AssertFailed /\
  call_run [CallPush 1] (mk_SNMessageQueueMgr (1%nat, []) None ∅ ∅) = Crash AssertFailed.
Proof. by vm_compute. Qed.

(** *** Without overflow *)

Lemma bind_update {A B} (f : A -> list B) (l : list A) t x : l !! t = Some x ->
  exists rest, l ≫= f ≡ₚ f x ++ rest /\ forall y, <[t := y]> l ≫= f ≡ₚ f y ++ rest.
Proof.
  intros Hx. exists ((take t l ≫= f) ++ (drop (S t) l ≫= f)). split.
  - rewrite <- (take_drop_middle _ _ _ Hx) at 1. rewrite bind_app, bind_cons. by rewrite Permutation_app_swap_app.
  - intros y. rewrite insert_take_drop by by eapply lookup_lt_Some. rewrite bind_app, bind_cons. by rewrite Permutation_app_swap_app.
Qed.

Section FITTING.
Context {Q : Type} `{LockfreeQueueLaws Q} (queues : gset qid).

(** A call that has not met the chain. *)
Definition above_chain (pc : mgr_pc) : Prop :=
  match pc with Finished _ | PushAssert _ _ | PushQueue _ _ | PopQueue | PopList _ => True | _ => False end.

Record sys_ok (y : mgr_sys Q) : Prop := {
  so_list : mgr_list (y_mgr y) = None;
  so_cap : (size queues <= lf_cap (mgr_queue (y_mgr y)))%nat;
  so_above : Forall above_chain (y_threads y);
  so_once : NoDup (y_inside y);
  so_in : forall q, q ∈ y_inside y -> q ∈ queues /\ q ∈ q_inGlobal (y_mgr y);
  so_kept : y_pushed y ≡ₚ y_popped y ++ y_inside y
}.

Lemma inside_fits l : NoDup l -> (forall q, q ∈ l -> q ∈ queues) -> (length l <= size queues)%nat.
Proof.
  intros Hn Hq. rewrite <- (size_list_to_set (C := gset qid) l Hn). apply subseteq_size. intros q Hx. apply Hq. by apply elem_of_list_to_set in Hx.
Qed.

(** A step that changes what is inside as given. *)
Lemma sys_ok_update y m t pc pc' pushed popped : sys_ok y -> y_threads y !! t = Some pc -> above_chain pc' ->
  mgr_list m = None -> lf_cap (mgr_queue m) = lf_cap (mgr_queue (y_mgr y)) -> q_inGlobal m = q_inGlobal (y_mgr y) ->
  (forall q, q ∈ pushed -> q ∈ queues /\ q ∈ q_inGlobal (y_mgr y) /\ q ∉ y_inside y) -> NoDup pushed ->
  pushed ++ in_flight pc ++ lf_contents (mgr_queue (y_mgr y)) ≡ₚ popped ++ in_flight pc' ++ lf_contents (mgr_queue m) ->
  sys_ok (mk_mgr_sys (<[t := pc']> (y_threads y)) m (pushed ++ y_pushed y) (popped ++ y_popped y)).
Proof.
  intros [Hl Hc Ha Ho Hi Hk] Ht Hpc Hl' Hc' Hf Hpush Hnd He. destruct (bind_update in_flight _ _ _ Ht) as (rest & Hrest & Hnew).
  assert (Hin : pushed ++ y_inside y ≡ₚ popped ++ lf_contents (mgr_queue m) ++ (<[t := pc']> (y_threads y) ≫= in_flight)).
  { unfold y_inside. rewrite Hrest, Hnew. rewrite (app_assoc (lf_contents (mgr_queue (y_mgr y)))), (app_assoc (lf_contents (mgr_queue m))).
    rewrite (Permutation_app_comm (lf_contents (mgr_queue (y_mgr y)))), (Permutation_app_comm (lf_contents (mgr_queue m))). rewrite !(app_assoc _ _ rest). by rewrite He. }
  assert (Hdup : NoDup (pushed ++ y_inside y)) by (apply NoDup_app; split; [done|]; split; [intros q Hq; by apply Hpush|done]).
  split; cbn [y_threads y_mgr y_pushed y_popped]; [done|by rewrite Hc'|by apply Forall_insert| | |].
  - unfold y_inside. cbn [y_threads y_mgr]. rewrite Hin in Hdup. by apply NoDup_app in Hdup as (_ & _ & Hdup).
  - intros q Hq. rewrite Hf. assert (Hx : q ∈ pushed ++ y_inside y) by (rewrite Hin; apply elem_of_app; by right).
    apply elem_of_app in Hx as [Hx|Hx]; [|by apply Hi]. destruct (Hpush q Hx) as (? & ? & _). by split.
  - unfold y_inside. cbn [y_threads y_mgr]. rewrite Hk, (Permutation_app_swap_app pushed), Hin, <- app_assoc. by rewrite Permutation_app_swap_app.
Qed.

Lemma sys_ok_act y a : sys_ok y -> act_legal queues y a -> exists y', mgr_act y a = Ret y' /\ sys_ok y'.
Proof.
  intros Hy Ha. pose proof Hy as [Hl Hc Hab Ho Hi Hk]. destruct a as [t queue|t|t|queue b]; cbn [mgr_act act_legal] in *.
  - destruct (y_threads y !! t) as [pc|] eqn:Et; [|by exists y]. destruct pc; try by exists y. eexists. split; [done|].
    apply (sys_ok_update y (y_mgr y) t _ (PushAssert None queue) [queue] [] Hy Et); [done|done|done|done| |by apply NoDup_singleton|done].
    intros q ->%list_elem_of_singleton. exact Ha.
  - destruct (y_threads y !! t) as [pc|] eqn:Et; [|by exists y]. destruct pc; try by exists y. eexists. split; [done|].
    apply (sys_ok_update y (y_mgr y) t _ PopQueue [] [] Hy Et); [done|done|done|done| |constructor|done]. by intros q Hq%not_elem_of_nil.
  - destruct (y_threads y !! t) as [pc|] eqn:Et; [|by exists y]. pose proof (proj1 (Forall_lookup _ _) Hab _ _ Et) as Hpc.
    assert (Hgo : forall pc' m popped, mgr_step pc (y_mgr y) = Ret (pc', m) -> taken pc (y_mgr y) = popped -> above_chain pc' -> mgr_list m = None ->
      lf_cap (mgr_queue m) = lf_cap (mgr_queue (y_mgr y)) -> q_inGlobal m = q_inGlobal (y_mgr y) ->
      in_flight pc ++ lf_contents (mgr_queue (y_mgr y)) ≡ₚ popped ++ in_flight pc' ++ lf_contents (mgr_queue m) ->
      exists y', ('(pc', m) ← mgr_step pc (y_mgr y);
        Ret (mk_mgr_sys (<[t := pc']> (y_threads y)) m (y_pushed y) (taken pc (y_mgr y) ++ y_popped y))) = Ret y' /\ sys_ok y').
    { intros pc' m popped Hs <- H1 H2 H3 H4 H5. rewrite Hs, bind_Ret. eexists. split; [done|].
      apply (sys_ok_update y m t pc pc' [] _ Hy Et); [done..| |constructor|done]. by intros q Hq%not_elem_of_nil. }
    destruct (bind_update in_flight _ _ _ Et) as (rest & Hrest & _).
    destruct pc as [ret|ret q|ret q|ret q|ret q| |ret|ret l|ret l nh|ret l]; try done.
    + by apply (Hgo (Finished ret) (y_mgr y) []).
    + apply (Hgo (PushQueue ret q) (y_mgr y) []); try done. cbn. rewrite bool_decide_true; [done|]. apply Hi. unfold y_inside. rewrite Hrest. set_solver.
    + assert (Hlen : (S (length (lf_contents (mgr_queue (y_mgr y)))) <= size queues)%nat).
      { apply (inside_fits (q :: lf_contents (mgr_queue (y_mgr y)))).
        - unfold y_inside in Ho. rewrite Hrest in Ho. cbn in Ho. rewrite <- Permutation_middle in Ho.
          change (q :: lf_contents (mgr_queue (y_mgr y)) ++ rest) with ((q :: lf_contents (mgr_queue (y_mgr y))) ++ rest) in Ho. by apply NoDup_app in Ho as [Ho _].
        - intros x Hx. apply Hi. unfold y_inside. rewrite Hrest. cbn. set_solver. }
      destruct (lf_push q (mgr_queue (y_mgr y))) as [q'|] eqn:Ep; [|apply lf_push_none in Ep; lia]. destruct (lf_push_some _ _ _ Ep) as [Hcont Hcap].
      apply (Hgo (Finished ret) (set_queue q' (y_mgr y)) []); try done; [cbn; by rewrite Ep|]. cbn. rewrite Hcont. by rewrite Permutation_cons_append.
    + destruct (lf_pop (mgr_queue (y_mgr y))) as [[x q']|] eqn:Ep.
      * destruct (lf_pop_some _ _ _ Ep) as [Hcont Hcap]. apply (Hgo (PopList x) (set_queue q' (y_mgr y)) [x]); try done; cbn; by rewrite ?Ep, ?Hcont.
      * apply (Hgo (Finished None) (y_mgr y) []); try done; cbn; by rewrite Ep.
    + apply (Hgo (Finished (Some ret)) (y_mgr y) []); try done. cbn. by rewrite Hl.
  - eexists. split; [done|]. split; try done. intros x Hx. destruct (Hi x Hx) as [H1 H2]. split; [done|]. cbn. destruct b; [set_solver|].
    assert (x <> queue) by (intros ->; by apply Ha). set_solver.
Qed.

Lemma idle_in_flight n : replicate n (Finished None) ≫= in_flight = [].
Proof. by induction n. Qed.

(** Runs that keep to what [act_legal] asks. *)
Inductive legal_run : mgr_sys Q -> list mgr_action -> Prop :=
| legal_nil y : legal_run y []
| legal_cons y a acts : act_legal queues y a -> (forall y', mgr_act y a = Ret y' -> legal_run y' acts) -> legal_run y (a :: acts).

(** As long as there are no more queues than the lock-free queue has places, calls may
    interleave in any way: no assertion fails, the chain is not used, and what was pushed
    is what was taken out and what is inside, each queue once. *)
Theorem interleaved_calls_conserve (q : Q) n acts : lf_contents q = [] -> (size queues <= lf_cap q)%nat ->
  legal_run (mk_mgr_sys (replicate n (Finished None)) (mk_SNMessageQueueMgr q None ∅ ∅) [] []) acts ->
  exists y, mgr_acts (mk_mgr_sys (replicate n (Finished None)) (mk_SNMessageQueueMgr q None ∅ ∅) [] []) acts = Ret y /\
    mgr_list (y_mgr y) = None /\ NoDup (y_inside y) /\ y_pushed y ≡ₚ y_popped y ++ y_inside y.
Proof.
  intros Hq Hc. set (y0 := mk_mgr_sys _ _ _ _). intros Hl.
  assert (Hy : sys_ok y0).
  { assert (He : y_inside y0 = []) by (unfold y_inside, y0; cbn; rewrite Hq; apply idle_in_flight).
    split; rewrite ?He; [done|done|by apply Forall_replicate|constructor|by intros x Hx%not_elem_of_nil|done]. }
  clearbody y0. revert y0 Hl Hy. induction acts as [|a acts IH]; intros y Hl Hy.
  { exists y. split; [done|]. by destruct Hy. }
  inversion Hl as [|y1 a1 acts1 Ha Hrest]; subst. destruct (sys_ok_act y a Hy Ha) as (y' & Hact & Hy'). cbn [mgr_acts]. rewrite Hact, bind_Ret. by apply IH; [apply Hrest|].
Qed.
End FITTING.
