(* ===== verification/Scheduler.v ===== *)
(** * The dispatcher: worker threads over the queue of queues
    (src/src/sn_server.cpp: DispatchMessageQueue, ContextPush, NewContext and
    handle_exit; src/src/sn_start.cpp: _worker)

    Worker threads, senders, launches and kills interleave at the granularity
    of the critical sections of the code: one step is one lock-protected call
    on a queue, on the handle map or on the global queue.  [worker_step] runs
    a worker from one such call to the next; [env_step] is what the other
    threads do.  Both are functions into [outcome], so an interleaving can be
    evaluated. *)
From S2P Require Import Prelude MessageQueue.
From stdpp Require Import base list gmap numbers strings.
From Stdlib Require Import ZArith Lia.

Local Open Scope Z_scope.

(** Where a worker thread stands in [DispatchMessageQueue]; [c] is the queue
    of the context found for the queue [q]. *)
Inductive wstate :=
| WIdle                                                 (* called with NULL *)
| WHold (q : qid)                                       (* called with, or popped, q *)
| WDrain (q : qid)                                      (* no context: inside Release *)
| WLoop (q c : qid) (i n : Z)                           (* before pMsgQueue->Pop *)
| WAssert (q : qid)                                     (* before assert(!IsInGlobal()) *)
| WPopped (q c : qid) (i n : Z) (msg : sn_message)      (* before Length *)
| WDispatch (q c : qid) (i n : Z) (msg : sn_message)    (* inside the callback *)
| WNext (q : qid)                                       (* before m_pMqMgr->Pop *)
| WRepush (q nq : qid).                                 (* before m_pMqMgr->Push *)

(** The queues a worker is answerable for. *)
Definition held (w : wstate) : list qid :=
  match w with
  | WIdle | WAssert _ => []
  | WHold q | WDrain q | WLoop q _ _ _ | WPopped q _ _ _ _ | WDispatch q _ _ _ _ | WNext q => [q]
  | WRepush q nq => [q; nq]
  end.

Section SCHED.
Context {G : Type} `{GlobalQueueLaws G}.

(** [mqs]: the live queue objects; [ctxs]: the handle map, from the local part
    of a handle to the queue of its context and the context's own handle; [starting]: contexts between their
    creation and the end of [NewContext]; [senders]: threads between
    [FindContext] and [Push] of [ContextPush]; [killers]: threads between
    [Remove] and [ForceInGlobal] of [handle_exit]. *)
Record sys := mk_sys {
  mqs : gmap qid SNMessageQueue;
  ctxs : gmap Z (qid * Z);
  glob : G;
  workers : list wstate;
  starting : list qid;
  senders : list (qid * sn_message);
  killers : list qid
}.

Definition set_mq (q : qid) (mq : SNMessageQueue) (s : sys) : sys :=
  {| mqs := <[q := mq]> (mqs s); ctxs := ctxs s; glob := glob s; workers := workers s;
     starting := starting s; senders := senders s; killers := killers s |}.
Definition del_mq (q : qid) (s : sys) : sys :=
  {| mqs := delete q (mqs s); ctxs := ctxs s; glob := glob s; workers := workers s;
     starting := starting s; senders := senders s; killers := killers s |}.
Definition set_glob (g : G) (s : sys) : sys :=
  {| mqs := mqs s; ctxs := ctxs s; glob := g; workers := workers s;
     starting := starting s; senders := senders s; killers := killers s |}.
Definition set_worker (k : nat) (w : wstate) (s : sys) : sys :=
  {| mqs := mqs s; ctxs := ctxs s; glob := glob s; workers := <[k := w]> (workers s);
     starting := starting s; senders := senders s; killers := killers s |}.

(** Following a queue pointer: the object must still be there. *)
Definition deref (s : sys) (q : qid) : outcome SNMessageQueue :=
  match mqs s !! q with
  | Some mq => Ret mq
  | None => Crash UseAfterFree
  end.

Definition FindContext (s : sys) (handle : Z) : option qid :=
  fst <$> ctxs s !! handle_local handle.

(** [SNHandleMgr::Remove]: the context leaves the map only if its own handle is
    equal to the masked argument. *)
Definition ctx_remove (m : gmap Z (qid * Z)) (handle : Z) : option qid * gmap Z (qid * Z) :=
  match m !! handle_local handle with
  | Some (q, h) =>
      if bool_decide (h = handle_local handle) then (Some q, delete (handle_local handle) m)
      else (None, m)
  | None => (None, m)
  end.

Definition require (b : bool) : outcome unit := if b then Ret tt else Crash AssertFailed.

(** [SNMessageQueueMgr::Push], which asserts the flag. *)
Definition PushGlobal (s : sys) (q : qid) : outcome sys :=
  mq ← deref s q;
  _ ← require (m_bInGlobal mq);
  Ret (set_glob (gq_push q (glob s)) s).

(** How many messages a worker of this weight takes in one go. *)
Definition batch (weight i n : Z) (mq : SNMessageQueue) : Z :=
  if bool_decide (i = 0) && bool_decide (0 <= weight)
  then Z.shiftr (SNMessageQueue_Length mq) weight else n.

Definition worker_step (weight : Z) (s : sys) (w : wstate) : outcome (sys * wstate) :=
  match w with
  | WIdle =>
      match gq_pop (glob s) with
      | None => Ret (s, WIdle)
      | Some (q, g) => Ret (set_glob g s, WHold q)
      end
  | WHold q =>
      mq ← deref s q;
      match FindContext s (SNMessageQueue_GetHandle mq) with
      | None => Ret (s, WDrain q)
      | Some c => Ret (s, WLoop q c 0 1)
      end
  | WDrain q =>
      mq ← deref s q;
      '(m, mq') ← SNMessageQueue_Pop mq false;
      match m with
      | Some _ => Ret (set_mq q mq' s, WDrain q)
      | None => Ret (del_mq q s, WIdle)
      end
  | WLoop q c i n =>
      mq ← deref s q;
      if bool_decide (i < n) then
        '(m, mq') ← SNMessageQueue_Pop mq true;
        match m with
        | None => Ret (set_mq q mq' s, WAssert q)
        | Some msg => Ret (set_mq q mq' s, WPopped q c i n msg)
        end
      else
        _ ← require (m_bInGlobal mq);
        _ ← require (bool_decide (q = c));
        Ret (s, WNext q)
  | WAssert q =>
      mq ← deref s q;
      _ ← require (negb (m_bInGlobal mq));
      Ret (s, WIdle)
  | WPopped q c i n msg =>
      mq ← deref s q;
      let (_, mq') := SNMessageQueue_Overload mq in
      Ret (set_mq q mq' s, WDispatch q c i (batch weight i n mq) msg)
  | WDispatch q c i n msg => Ret (s, WLoop q c (i + 1) n)
  | WNext q =>
      match gq_pop (glob s) with
      | None => Ret (s, WHold q)
      | Some (nq, g) => Ret (set_glob g s, WRepush q nq)
      end
  | WRepush q nq =>
      s' ← PushGlobal s q;
      Ret (s', WHold nq)
  end.

(** [ContextPush]: the handle is looked up; the caller now holds the context. *)
Definition ContextPush_find (s : sys) (handle : Z) (msg : sn_message) : outcome sys :=
  match FindContext s handle with
  | None => Ret s
  | Some q =>
      Ret {| mqs := mqs s; ctxs := ctxs s; glob := glob s; workers := workers s;
             starting := starting s; senders := senders s ++ [(q, msg)];
             killers := killers s |}
  end.

(** [ContextPush]: [pContext->Push(msg)]. *)
Definition ContextPush_push (s : sys) (k : nat) : outcome sys :=
  match senders s !! k with
  | None => Ret s
  | Some (q, msg) =>
      mq ← deref s q;
      let (mq', g) := SNMessageQueue_Push q msg mq (glob s) in
      Ret {| mqs := <[q := mq']> (mqs s); ctxs := ctxs s; glob := g; workers := workers s;
             starting := starting s; senders := delete k (senders s);
             killers := killers s |}
  end.

(** [NewContext]: [Register] gave [handle] to the context and its queue is
    allocated at [q]. *)
Definition NewContext_register (s : sys) (handle : Z) (q : qid) : outcome sys :=
  match mqs s !! q, FindContext s handle with
  | None, None =>
      Ret {| mqs := <[q := SNMessageQueue_new handle]> (mqs s);
             ctxs := <[handle_local handle := (q, handle)]> (ctxs s);
             glob := glob s; workers := workers s;
             starting := q :: starting s; senders := senders s; killers := killers s |}
  | _, _ => Ret s
  end.

(** [NewContext]: [Init] succeeded and the queue enters the global queue. *)
Definition NewContext_launched (s : sys) (k : nat) : outcome sys :=
  match starting s !! k with
  | None => Ret s
  | Some q =>
      s' ← PushGlobal s q;
      Ret {| mqs := mqs s'; ctxs := ctxs s'; glob := glob s'; workers := workers s';
             starting := delete k (starting s'); senders := senders s';
             killers := killers s' |}
  end.

(** [NewContext]: [Init] failed; the context leaves the map, the queue is
    drained and deleted. *)
Definition NewContext_failed (s : sys) (k : nat) : outcome sys :=
  match starting s !! k with
  | None => Ret s
  | Some q =>
      mq ← deref s q;
      _ ← SNMessageQueue_Release mq;
      Ret {| mqs := delete q (mqs s);
             ctxs := (ctx_remove (ctxs s) (m_handle mq)).2;
             glob := glob s; workers := workers s;
             starting := delete k (starting s); senders := senders s;
             killers := killers s |}
  end.

(** [handle_exit]: [Remove]. *)
Definition handle_exit_remove (s : sys) (handle : Z) : outcome sys :=
  match ctx_remove (ctxs s) handle with
  | (None, _) => Ret s
  | (Some q, m) =>
      Ret {| mqs := mqs s; ctxs := m;
             glob := glob s; workers := workers s; starting := starting s;
             senders := senders s; killers := q :: killers s |}
  end.

(** [handle_exit]: [pContext->MessageQueue()->ForceInGlobal()]. *)
Definition handle_exit_force (s : sys) (k : nat) : outcome sys :=
  match killers s !! k with
  | None => Ret s
  | Some q =>
      mq ← deref s q;
      let (mq', g) := SNMessageQueue_ForceInGlobal q mq (glob s) in
      Ret {| mqs := <[q := mq']> (mqs s); ctxs := ctxs s; glob := g; workers := workers s;
             starting := starting s; senders := senders s;
             killers := delete k (killers s) |}
  end.

(** What the other threads do. *)
Inductive env_action :=
| EFind (handle : Z) (msg : sn_message)    (* ContextPush: FindContext *)
| EPush (k : nat)                          (* ContextPush: pContext->Push *)
| ENew (handle : Z) (q : qid)              (* NewContext: Register, new SNMessageQueue *)
| EStart (k : nat)                         (* NewContext: Init returned 0 *)
| EStartFail (k : nat)                     (* NewContext: Init failed *)
| EKill (handle : Z)                       (* handle_exit: Remove *)
| EForce (k : nat).                        (* handle_exit: ForceInGlobal *)

Definition env_step (s : sys) (a : env_action) : outcome sys :=
  match a with
  | EFind handle msg => ContextPush_find s handle msg
  | EPush k => ContextPush_push s k
  | ENew handle q => NewContext_register s handle q
  | EStart k => NewContext_launched s k
  | EStartFail k => NewContext_failed s k
  | EKill handle => handle_exit_remove s handle
  | EForce k => handle_exit_force s k
  end.

(** An interleaving is a list of labels: worker [k] moves, or another thread does. *)
Inductive label :=
| LWorker (k : nat)
| LEnv (a : env_action).

Definition step (weight : nat -> Z) (s : sys) (l : label) : outcome sys :=
  match l with
  | LWorker k =>
      match workers s !! k with
      | None => Ret s
      | Some w => '(s', w') ← worker_step (weight k) s w; Ret (set_worker k w' s')
      end
  | LEnv a => env_step s a
  end.

Fixpoint run (weight : nat -> Z) (s : sys) (ls : list label) : outcome sys :=
  match ls with
  | [] => Ret s
  | l :: ls => s' ← step weight s l; run weight s' ls
  end.

Definition sys_init (n : nat) (g : G) : sys :=
  {| mqs := ∅; ctxs := ∅; glob := g; workers := replicate n WIdle;
     starting := []; senders := []; killers := [] |}.

Inductive reachable (weight : nat -> Z) (s0 : sys) : sys -> Prop :=
| reach_init : reachable weight s0 s0
| reach_step s l s' : reachable weight s0 s -> step weight s l = Ret s' ->
    reachable weight s0 s'.

(* ------------------------------------------------------------------ *)
(** ** The scheduling invariant *)

(** [tokens] are the queues the system still has to serve; [T] is their list
    and [m] the queue objects: each token is a live, flagged queue that occurs
    once, every flagged queue has its token, and an unflagged queue is empty. *)
Record core (T : list qid) (m : gmap qid SNMessageQueue) : Prop := mk_core {
  core_nodup : NoDup T;
  core_flag q : q ∈ T <-> exists mq, m !! q = Some mq /\ m_bInGlobal mq = true;
  core_empty q mq : m !! q = Some mq -> m_bInGlobal mq = false -> m_queue mq = []
}.

Definition tokens (s : sys) : list qid :=
  gq_elems (glob s) ++ concat (held <$> workers s) ++ starting s.

Definition Inv (s : sys) : Prop := core (tokens s) (mqs s) /\ gq_wf (glob s).

Lemma core_perm T T' m : T ≡ₚ T' -> core T m -> core T' m.
Proof.
  intros Hp [Hn Hf He]. split; [by rewrite <- Hp| |done].
  intros q. rewrite <- Hf. by rewrite Hp.
Qed.

(** Where every queue is flagged, the tokens are the queues. *)
Lemma core_all T (m : gmap qid SNMessageQueue) :
  NoDup T -> list_to_set T = dom m -> map_Forall (fun _ mq => m_bInGlobal mq = true) m -> core T m.
Proof.
  intros Hn Hd Hm. split; [done| |].
  - intros q. rewrite <- (elem_of_list_to_set (C := gset qid)), Hd, elem_of_dom.
    split; intros (mq & Hq); exists mq; [by split; [|apply (Hm q)]|by destruct Hq].
  - intros q mq Hq Hf. specialize (Hm q mq Hq). cbn in Hm. congruence.
Qed.

(** The invariant does not see the order of the tokens. *)
#[local] Instance core_proper : Proper ((≡ₚ) ==> eq ==> iff) core.
Proof. intros T T' Hp m ? <-. split; by apply core_perm. Qed.

Lemma core_token T m q : core T m -> q ∈ T -> exists mq, m !! q = Some mq /\ m_bInGlobal mq = true.
Proof. intros [_ Hf _]. apply Hf. Qed.

(** A change of a queue object that keeps its flag. *)
Lemma core_update T m q mq mq' :
  m !! q = Some mq -> m_bInGlobal mq' = m_bInGlobal mq ->
  (m_bInGlobal mq' = false -> m_queue mq' = []) ->
  core T m -> core T (<[q := mq']> m).
Proof.
  intros Hq Hb Hq' [Hn Hf He]. split; [done| |].
  - intros p. rewrite Hf. destruct (decide (p = q)) as [->|].
    + rewrite lookup_insert_eq. split.
      * intros (x & Hx & ?). exists mq'. split; [done|]. congruence.
      * intros (x & [= <-] & ?). exists mq. split; [done|congruence].
    + by rewrite lookup_insert_ne by done.
  - intros p x. destruct (decide (p = q)) as [->|].
    + rewrite lookup_insert_eq. by intros [= <-].
    + rewrite lookup_insert_ne by done. apply He.
Qed.

(** The flag goes up and a token appears. *)
Lemma core_raise T m q mq' :
  (forall mq, m !! q = Some mq -> m_bInGlobal mq = false) -> m_bInGlobal mq' = true ->
  core T m -> core (q :: T) (<[q := mq']> m).
Proof.
  intros Hb Hb' [Hn Hf He].
  assert (Hnq : q ∉ T). { rewrite Hf. intros (x & Hx & ?). specialize (Hb _ Hx). congruence. }
  split.
  - by constructor.
  - intros p. rewrite elem_of_cons, Hf. destruct (decide (p = q)) as [->|].
    + rewrite lookup_insert_eq. split; [eauto|by left].
    + rewrite lookup_insert_ne by done. split; [by intros [?|?]|by right].
  - intros p x. destruct (decide (p = q)) as [->|].
    + rewrite lookup_insert_eq. intros [= <-]. congruence.
    + rewrite lookup_insert_ne by done. apply He.
Qed.

(** The flag of an emptied queue goes down and its token disappears. *)
Lemma core_lower T m q mq' :
  m_bInGlobal mq' = false -> m_queue mq' = [] -> core (q :: T) m -> core T (<[q := mq']> m).
Proof.
  intros Hb' Hq' [Hn Hf He]. inversion Hn as [|? ? Hnq Hn']; subst. split; [done| |].
  - intros p. destruct (decide (p = q)) as [->|].
    + rewrite lookup_insert_eq. split; [done|]. intros (x & [= <-] & ?). congruence.
    + rewrite lookup_insert_ne by done. rewrite <- Hf, elem_of_cons. tauto.
  - intros p x. destruct (decide (p = q)) as [->|].
    + rewrite lookup_insert_eq. by intros [= <-].
    + rewrite lookup_insert_ne by done. apply He.
Qed.

Lemma core_delete T m q : core (q :: T) m -> core T (delete q m).
Proof.
  intros [Hn Hf He]. inversion Hn as [|? ? Hnq Hn']; subst. split; [done| |].
  - intros p. destruct (decide (p = q)) as [->|].
    + rewrite lookup_delete_eq. split; [done|]. by intros (x & ? & _).
    + rewrite lookup_delete_ne by done. rewrite <- Hf, elem_of_cons. tauto.
  - intros p x. rewrite lookup_delete_Some. intros [_ ?]. by eapply He.
Qed.

(** The tokens of the workers around one of them. *)
Lemma concat_held_split (ws : list wstate) (k : nat) (w : wstate) :
  ws !! k = Some w ->
  exists rest : list qid, concat (held <$> ws) ≡ₚ held w ++ rest /\
    forall w', concat (held <$> <[k := w']> ws) ≡ₚ held w' ++ rest.
Proof.
  intros Hk. exists (concat (held <$> take k ws) ++ concat (held <$> drop (S k) ws)). split.
  - rewrite <- (take_drop_middle ws k w Hk) at 1.
    rewrite fmap_app, fmap_cons, concat_app; simpl.
    apply Permutation_app_swap_app.
  - intros w'. rewrite insert_take_drop by by eapply lookup_lt_Some.
    rewrite fmap_app, fmap_cons, concat_app; simpl.
    apply Permutation_app_swap_app.
Qed.

Lemma delete_perm {A} (l : list A) k x : l !! k = Some x -> l ≡ₚ x :: delete k l.
Proof. apply delete_Permutation. Qed.

(** What a pop does to the parts of the queue the invariant looks at. *)
Lemma Pop_ret q b m q' :
  SNMessageQueue_Pop q b = Ret (m, q') ->
  m = head (m_queue q) /\ m_queue q' = tail (m_queue q) /\ m_handle q' = m_handle q /\
  m_bInGlobal q' = (match m_queue q with [] => if b then false else m_bInGlobal q
                    | _ => m_bInGlobal q end).
Proof.
  unfold SNMessageQueue_Pop. destruct (m_queue q) as [|x l].
  - by intros [= <- <-].
  - simpl. destruct (overload_loop _ _ _ _) as [[o t]|?|?]; simpl; [|done..].
    by intros [= <- <-].
Qed.

(* ------------------------------------------------------------------ *)
(** ** Every step preserves the invariant *)

Ltac outcome_inv :=
  repeat match goal with
  | H : (match ?o with Ret _ => _ | Raise _ => _ | Crash _ => _ end) = Ret _ |- _ =>
      destruct o eqn:?; simpl in H; [|discriminate H..]
  | H : (_ ≫= _) = Ret _ |- _ => unfold mbind, outcome_bind in H
  | H : Ret _ = Ret _ |- _ => injection H as H; simplify_eq
  | H : (let (_, _) := ?p in _) = Ret _ |- _ => destruct p eqn:?; simpl in H
  end; simplify_eq/=.

Lemma deref_Ret s q mq : deref s q = Ret mq -> mqs s !! q = Some mq.
Proof. unfold deref. destruct (mqs s !! q); naive_solver. Qed.

Lemma require_Ret b u : require b = Ret u -> b = true.
Proof. by destruct b. Qed.

Lemma PushGlobal_Ret s q s' :
  PushGlobal s q = Ret s' -> s' = set_glob (gq_push q (glob s)) s.
Proof.
  unfold PushGlobal. intros Hp. outcome_inv. done.
Qed.

(** The tokens outside worker [k]. *)
Lemma tokens_worker s k w :
  workers s !! k = Some w ->
  exists rest, tokens s ≡ₚ held w ++ gq_elems (glob s) ++ rest /\
    forall s' w', workers s' = workers s -> starting s' = starting s ->
      tokens (set_worker k w' s') ≡ₚ held w' ++ gq_elems (glob s') ++ rest.
Proof.
  intros Hk. destruct (concat_held_split _ _ _ Hk) as (rest & Hr & Hr').
  exists (rest ++ starting s). unfold tokens. split.
  - rewrite Hr, <- app_assoc. apply Permutation_app_swap_app.
  - intros s' w' Hw Hs. simpl. rewrite Hw, Hr', Hs, <- app_assoc, !app_assoc.
    apply Permutation_app_tail. rewrite (Permutation_app_comm (gq_elems _)). done.
Qed.

Lemma worker_step_inv weight s k w s' w' :
  Inv s -> workers s !! k = Some w -> worker_step weight s w = Ret (s', w') ->
  Inv (set_worker k w' s').
Proof.
  intros [Hc Hwf] Hk Hs. destruct (tokens_worker s k w Hk) as (rest & Ht & Ht').
  apply (core_perm _ _ _ Ht) in Hc.
  assert (Hgoal : forall s1 w1, workers s1 = workers s -> starting s1 = starting s ->
    core (held w1 ++ gq_elems (glob s1) ++ rest) (mqs s1) -> gq_wf (glob s1) ->
    Inv (set_worker k w1 s1)).
  { intros s1 w1 Hw1 Hs1 Hc1 Hg1. split; [|done]. eapply core_perm; [|exact Hc1].
    by rewrite Ht'. }
  clear Ht Ht'.
  destruct w; simpl in Hs, Hc.
  - destruct (gq_pop (glob s)) as [[q g]|] eqn:E; outcome_inv; apply Hgoal; simpl; try done.
    + eapply core_perm; [|exact Hc]. by rewrite (gq_pop_elems _ _ _ Hwf E).
    + by eapply gq_pop_wf.
  - outcome_inv. destruct (FindContext _ _); outcome_inv; by apply Hgoal.
  - outcome_inv. apply deref_Ret in Heqo. apply Pop_ret in Heqo0 as (-> & Hq & Hh & Hb).
    destruct (m_queue a) as [|x l] eqn:Eq; simpl in *; outcome_inv; apply Hgoal; simpl; try done.
    + by apply core_delete.
    + eapply core_update; [done|done| |done]. intros Hf. exfalso.
      rewrite Hb in Hf. pose proof (core_empty _ _ Hc _ _ Heqo Hf). congruence.
  - outcome_inv. apply deref_Ret in Heqo. case_bool_decide; outcome_inv.
    + apply Pop_ret in Heqo0 as (-> & Hq & Hh & Hb).
      destruct (m_queue a) as [|x l] eqn:Eq; simpl in *; outcome_inv; apply Hgoal; simpl; try done.
      * by apply core_lower.
      * eapply core_update; [done|done| |done]. intros Hf. exfalso.
        rewrite Hb in Hf. pose proof (core_empty _ _ Hc _ _ Heqo Hf). congruence.
    + by apply Hgoal.
  - outcome_inv. by apply Hgoal.
  - outcome_inv. apply deref_Ret in Heqo.
    assert (m_bInGlobal s0 = m_bInGlobal a /\ m_queue s0 = m_queue a) as [Hb Hq].
    { unfold SNMessageQueue_Overload in Heqp. case_bool_decide; by simplify_eq/=. }
    apply Hgoal; simpl; try done. eapply core_update; [done|done| |done].
    rewrite Hb, Hq. by apply (core_empty _ _ Hc q).
  - outcome_inv. by apply Hgoal.
  - destruct (gq_pop (glob s)) as [[nq g]|] eqn:E; outcome_inv; apply Hgoal; simpl; try done.
    + eapply core_perm; [|exact Hc]. by rewrite (gq_pop_elems _ _ _ Hwf E).
    + by eapply gq_pop_wf.
  - outcome_inv. apply PushGlobal_Ret in Heqo as ->. apply Hgoal; simpl; try done.
    + eapply core_perm; [|exact Hc]. rewrite gq_push_elems. simpl. apply Permutation_swap.
    + by apply gq_push_wf.
Qed.

Lemma Push_cases q msg mq g :
  m_bInGlobal mq = true /\ SNMessageQueue_Push q msg mq g = (enqueue msg mq, g) \/
  m_bInGlobal mq = false /\
    SNMessageQueue_Push q msg mq g = (set_in_global true (enqueue msg mq), gq_push q g).
Proof. unfold SNMessageQueue_Push. simpl. destruct (m_bInGlobal mq); auto. Qed.

Lemma Force_cases q mq g :
  m_bInGlobal mq = true /\ SNMessageQueue_ForceInGlobal q mq g = (mq, g) \/
  m_bInGlobal mq = false /\
    SNMessageQueue_ForceInGlobal q mq g = (set_in_global true mq, gq_push q g).
Proof. unfold SNMessageQueue_ForceInGlobal. destruct (m_bInGlobal mq); auto. Qed.

(** A queue object that changes together with the global queue. *)
Lemma inv_touch s q mq mq' g' :
  Inv s -> mqs s !! q = Some mq -> m_bInGlobal mq' = true ->
  (m_bInGlobal mq = true /\ g' = glob s \/ m_bInGlobal mq = false /\ g' = gq_push q (glob s)) ->
  core (gq_elems g' ++ concat (held <$> workers s) ++ starting s) (<[q := mq']> (mqs s)) /\
  gq_wf g'.
Proof.
  intros [Hc Hwf] Hq Hb' [[Hb ->]|[Hb ->]].
  - split; [|done]. eapply core_update; [done|congruence|congruence|done].
  - split; [|by apply gq_push_wf]. rewrite gq_push_elems.
    apply core_raise; [|done|done]. intros x Hx. congruence.
Qed.

Lemma env_step_inv s a s' : Inv s -> env_step s a = Ret s' -> Inv s'.
Proof.
  intros HI Hs. pose proof HI as [Hc Hwf]. destruct a; simpl in Hs;
    unfold ContextPush_find, ContextPush_push, NewContext_register, NewContext_launched,
      NewContext_failed, handle_exit_remove, handle_exit_force in Hs.
  - destruct (FindContext s handle); by simplify_eq.
  - destruct (senders s !! k) as [[q msg]|]; [|by simplify_eq].
    outcome_inv. apply deref_Ret in Heqo.
    destruct (Push_cases q msg a (glob s)) as [[Hb E]|[Hb E]]; rewrite E in Heqp; simplify_eq;
      eapply (inv_touch _ _ _ _ _ HI Heqo); eauto.
  - destruct (mqs s !! q) eqn:Eq; [by simplify_eq|].
    destruct (FindContext s handle); simplify_eq; [done|].
    split; [|done]. unfold tokens; simpl.
    rewrite app_assoc, <- Permutation_middle, <- app_assoc.
    apply core_raise; [|done|done]. intros ? ?; congruence.
  - destruct (starting s !! k) as [q|] eqn:Eq; [|by simplify_eq].
    outcome_inv. apply PushGlobal_Ret in Heqo as ->.
    split; simpl; [|by apply gq_push_wf]. eapply core_perm; [|exact Hc].
    unfold tokens; simpl. rewrite gq_push_elems. rewrite (delete_perm _ _ _ Eq) at 1.
    rewrite app_assoc, <- Permutation_middle, <- app_assoc. done.
  - destruct (starting s !! k) as [q|] eqn:Eq; [|by simplify_eq].
    outcome_inv. split; simpl; [|done]. apply core_delete.
    eapply core_perm; [|exact Hc]. unfold tokens; simpl. rewrite (delete_perm _ _ _ Eq) at 1.
    rewrite app_assoc, <- Permutation_middle, <- app_assoc. done.
  - destruct (ctx_remove (ctxs s) handle) as [[q|] m]; by simplify_eq.
  - destruct (killers s !! k) as [q|]; [|by simplify_eq].
    outcome_inv. apply deref_Ret in Heqo.
    destruct (Force_cases q a (glob s)) as [[Hb E]|[Hb E]]; rewrite E in Heqp; simplify_eq;
      eapply (inv_touch _ _ _ _ _ HI Heqo); eauto.
Qed.

Lemma step_inv weight s l s' : Inv s -> step weight s l = Ret s' -> Inv s'.
Proof.
  intros HI Hs. destruct l as [k|a]; simpl in Hs; [|by eapply env_step_inv].
  destruct (workers s !! k) eqn:Hk; [|by simplify_eq].
  outcome_inv. by eapply worker_step_inv.
Qed.

Lemma init_inv n g : gq_wf g -> gq_elems g = [] -> Inv (sys_init n g).
Proof.
  intros Hwf He. split; [|done]. unfold tokens; simpl. rewrite He.
  assert (concat (held <$> replicate n WIdle) = []) as -> by (induction n; done).
  split; [constructor| |by intros; simplify_map_eq].
  intros q. split; [by intros ?%not_elem_of_nil|]. intros (? & ? & _). simplify_map_eq.
Qed.

Lemma reachable_inv weight n g s :
  gq_wf g -> gq_elems g = [] -> reachable weight (sys_init n g) s -> Inv s.
Proof.
  intros Hwf He. induction 1; [by apply init_inv|]. by eapply step_inv.
Qed.

Lemma run_reachable weight s0 ls s1 s :
  reachable weight s0 s1 -> run weight s1 ls = Ret s -> reachable weight s0 s.
Proof.
  revert s1. induction ls as [|l ls IH]; simpl; intros s1 Hr Hs; [by simplify_eq|].
  outcome_inv. eapply IH; [|done]. by eapply reach_step.
Qed.

(** The queue a worker holds occurs among the tokens. *)
Lemma held_token s k w q :
  workers s !! k = Some w -> q ∈ held w -> q ∈ concat (held <$> workers s).
Proof.
  intros Hk Hq. destruct (concat_held_split _ _ _ Hk) as (rest & -> & _). set_solver.
Qed.

Lemma Inv_exclusive s i j wi wj q :
  Inv s -> workers s !! i = Some wi -> workers s !! j = Some wj ->
  q ∈ held wi -> q ∈ held wj -> i = j.
Proof.
  intros [Hc _] Hi Hj Hqi Hqj. destruct (decide (i = j)) as [|Hne]; [done|exfalso].
  destruct (concat_held_split _ _ _ Hi) as (rest & Hp & Hp').
  assert (Hj' : <[i := WIdle]> (workers s) !! j = Some wj) by by rewrite list_lookup_insert_ne.
  assert (Hr : q ∈ rest).
  { pose proof (held_token {| mqs := ∅; ctxs := ∅; glob := glob s; workers := <[i:=WIdle]> (workers s);
      starting := []; senders := []; killers := [] |} j wj q Hj' Hqj) as Ht.
    simpl in Ht. rewrite Hp' in Ht. done. }
  pose proof (core_nodup _ _ Hc) as Hn. unfold tokens in Hn.
  rewrite Hp in Hn. apply NoDup_app in Hn as (_ & _ & Hn).
  apply NoDup_app in Hn as (Hn & _). apply NoDup_app in Hn as (_ & Hd & _).
  by apply (Hd q).
Qed.

Lemma Inv_held_not_global s i w q :
  Inv s -> workers s !! i = Some w -> q ∈ held w ->
  (q ∉ gq_elems (glob s)) /\ (exists mq, mqs s !! q = Some mq /\ m_bInGlobal mq = true).
Proof.
  intros [Hc _] Hi Hq. pose proof (held_token _ _ _ _ Hi Hq) as Ht. split.
  - intros Hg. pose proof (core_nodup _ _ Hc) as Hn. unfold tokens in Hn.
    apply NoDup_app in Hn as (_ & Hd & _). apply (Hd q Hg). set_solver.
  - apply (core_token _ _ _ Hc). unfold tokens. set_solver.
Qed.

Lemma Inv_pending s q mq :
  Inv s -> mqs s !! q = Some mq -> m_queue mq <> [] -> q ∈ tokens s.
Proof.
  intros [Hc _] Hq Hne. apply (core_flag _ _ Hc). exists mq. split; [done|].
  destruct (m_bInGlobal mq) eqn:Hb; [done|]. by pose proof (core_empty _ _ Hc _ _ Hq Hb).
Qed.
End SCHED.

(* ------------------------------------------------------------------ *)
(** ** Properties *)

(** A two-worker system that has launched service 16 and sent it a message. *)
Definition demo_weight (k : nat) : Z := -1.
Definition demo_labels : list label :=
  [LEnv (ENew 16 100); LEnv (EStart 0); LEnv (EFind 16 (demo_msg 1)); LEnv (EPush 0);
   LWorker 0; LWorker 0].
Definition demo_start : sys (G:=debug_mgr) := sys_init 2 [].
Definition demo_sys : sys (G:=debug_mgr) :=
  match run demo_weight demo_start demo_labels with
  | Ret s => s
  | _ => demo_start
  end.





(** [ContextPush] may use a queue after it is deleted: a sender that has
    found a context pushes to its queue after the service was killed and a
    worker, finding no context, drained and deleted the queue. *)
Theorem push_after_delete :
  run demo_weight demo_start
    [LEnv (ENew 16 100); LEnv (EStart 0); LEnv (EFind 16 (demo_msg 1)); LEnv (EKill 16);
     LWorker 0; LWorker 0; LWorker 0; LEnv (EPush 0)] = Crash UseAfterFree.
Proof. vm_compute. reflexivity. Qed.

(** The assertion [!IsInGlobal()] after an empty [Pop] is not protected by
    the queue's lock: a push between the two makes it fail. *)
Theorem empty_pop_assert_races :
  run demo_weight demo_start
    [LEnv (ENew 16 100); LEnv (EStart 0); LEnv (EFind 16 (demo_msg 1));
     LWorker 0; LWorker 0; LWorker 0; LEnv (EPush 0); LWorker 0] = Crash AssertFailed.
Proof. vm_compute. reflexivity. Qed.
