(* ===== verification/Handle.v ===== *)
(** * Service handles and local names (src/src/sn_handle.cpp)

    The handle map takes the local 24 bits of a handle to a context; a second
    map takes local names to handles.  Contexts are the pointers of the code:
    [Handle ctx] is what [pContext->Handle()] answers at the time of a call. *)
From S2P Require Import Prelude.
From stdpp Require Import base list gmap numbers strings.
From Stdlib Require Import ZArith Lia.

Local Open Scope Z_scope.

Definition INVALID_HANDLE : Z := 0.

(** A pointer to an [SNContext]. *)
Abbreviation ctxptr := Z.

Record SNHandleMgr := mk_SNHandleMgr {
  m_harbor : Z;
  m_handle_index : Z;
  m_slot : gmap Z ctxptr;
  m_nameMap : gmap string Z
}.

Definition SNHandleMgr_new (harbor : Z) : SNHandleMgr :=
  {| m_harbor := u32 (Z.shiftl (Z.land harbor 0xff) HANDLE_REMOTE_SHIFT);
     m_handle_index := 1; m_slot := ∅; m_nameMap := ∅ |}.

(** The loop of [Register] from round [i]: the first free local handle. *)
Fixpoint register_search (fuel : nat) (slot : gmap Z ctxptr) (index i : Z) : outcome Z :=
  match fuel with
  | O => Crash OutOfFuel
  | S fuel =>
      let handle := Z.land (u32 (index + i)) HANDLE_MASK in
      match slot !! handle with
      | None => Ret handle
      | Some _ => register_search fuel slot index (i + 1)
      end
  end.

(** One round more than there are slots in use finds a free one. *)
Definition register_fuel (slot : gmap Z ctxptr) : nat := S (size slot).

Definition SNHandleMgr_Register (m : SNHandleMgr) (pContext : ctxptr)
  : outcome (Z * SNHandleMgr) :=
  handle ← register_search (register_fuel (m_slot m)) (m_slot m) (m_handle_index m) 0;
  Ret (Z.lor handle (m_harbor m),
       {| m_harbor := m_harbor m; m_handle_index := u32 (handle + 1);
          m_slot := <[handle := pContext]> (m_slot m); m_nameMap := m_nameMap m |}).

Definition SNHandleMgr_FindContext (m : SNHandleMgr) (handle : Z) : option ctxptr :=
  m_slot m !! handle_local handle.

Definition SNHandleMgr_Remove (Handle : ctxptr -> Z) (m : SNHandleMgr) (handle : Z)
  : option ctxptr * SNHandleMgr :=
  let handle := handle_local handle in
  match m_slot m !! handle with
  | Some ctx =>
      if bool_decide (Handle ctx = handle) then
        (Some ctx,
         {| m_harbor := m_harbor m; m_handle_index := m_handle_index m;
            m_slot := delete handle (m_slot m);
            m_nameMap := filter (fun p => p.2 <> handle) (m_nameMap m) |})
      else (None, m)
  | None => (None, m)
  end.

Definition SNHandleMgr_RemoveAll (m : SNHandleMgr) : SNHandleMgr :=
  {| m_harbor := m_harbor m; m_handle_index := m_handle_index m;
     m_slot := ∅; m_nameMap := ∅ |}.

Definition SNHandleMgr_FindName (m : SNHandleMgr) (name : string) : Z :=
  match m_nameMap m !! name with
  | Some h => h
  | None => INVALID_HANDLE
  end.

(** NULL when the name is taken, the stored name otherwise. *)
Definition SNHandleMgr_NameHandle (m : SNHandleMgr) (handle : Z) (name : string)
  : option string * SNHandleMgr :=
  match m_nameMap m !! name with
  | Some _ => (None, m)
  | None =>
      (Some name,
       {| m_harbor := m_harbor m; m_handle_index := m_handle_index m;
          m_slot := m_slot m; m_nameMap := <[name := handle]> (m_nameMap m) |})
  end.

(* ------------------------------------------------------------------ *)
(** ** Lemmas *)

(** Every slot is a 24-bit number, and the harbor part is above them. *)
Definition hm_wf (m : SNHandleMgr) : Prop :=
  (exists k, 0 <= k < 256 /\ m_harbor m = k * 2 ^ 24) /\
  is_u32 (m_handle_index m) /\
  (forall h c, m_slot m !! h = Some c -> 0 <= h < 2 ^ 24).

Lemma SNHandleMgr_new_wf harbor : hm_wf (SNHandleMgr_new harbor).
Proof.
  split_and!; simpl; [|unfold is_u32; lia|intros; simplify_map_eq].
  exists (Z.land harbor 255). rewrite land_255.
  split; [dlia|]. rewrite Z.shiftl_mul_pow2 by (unfold HANDLE_REMOTE_SHIFT; lia).
  unfold HANDLE_REMOTE_SHIFT. apply u32_small. unfold is_u32. dlia.
Qed.

Lemma candidate_eq index i : Z.land (u32 (index + i)) HANDLE_MASK = (index + i) mod 2 ^ 24.
Proof.
  change (Z.land (u32 (index + i)) HANDLE_MASK) with (handle_local (u32 (index + i))).
  rewrite handle_local_mod. unfold u32. dlia.
Qed.

(** The candidates of [n] rounds, and that they differ for [n] up to [2^24]. *)
Definition candidates (index i : Z) (n : nat) : list Z :=
  (fun k => (index + i + Z.of_nat k) mod 2 ^ 24) <$> seq 0 n.

Lemma candidates_NoDup index i n : Z.of_nat n <= 2 ^ 24 -> NoDup (candidates index i n).
Proof.
  intros Hn. unfold candidates. apply NoDup_fmap_2_strong; [|apply NoDup_seq].
  intros x y Hx%elem_of_seq Hy%elem_of_seq Heq. dlia.
Qed.

Lemma candidates_S index i n :
  candidates index i (S n) = (index + i) mod 2 ^ 24 :: candidates index (i + 1) n.
Proof.
  unfold candidates. simpl. f_equal; [f_equal; lia|].
  rewrite <- fmap_S_seq, <- list_fmap_compose. apply list_fmap_ext.
  intros ? ? _. simpl. f_equal. lia.
Qed.

(** [h] is the first free one from candidate [i] on. *)
Definition first_free (slot : gmap Z ctxptr) (index i h : Z) : Prop :=
  slot !! h = None /\
  exists k, i <= k /\ h = (index + k) mod 2 ^ 24 /\
    forall j, i <= j < k -> is_Some (slot !! ((index + j) mod 2 ^ 24)).

Lemma register_search_spec fuel slot index i :
  (exists h, h ∈ candidates index i fuel /\ slot !! h = None) ->
  exists h, register_search fuel slot index i = Ret h /\ first_free slot index i h.
Proof.
  revert i. induction fuel as [|fuel IH]; intros i (h & Hin & Hh).
  - by apply not_elem_of_nil in Hin.
  - rewrite candidates_S in Hin. cbn [register_search]. rewrite candidate_eq.
    destruct (slot !! ((index + i) mod 2 ^ 24)) eqn:E.
    + destruct (IH (i + 1)) as (h' & He & Hfree & k & Hk & Hmod & Hused).
      { apply elem_of_cons in Hin as [->|Hin]; [congruence|]. eauto. }
      exists h'. split; [done|]. split; [done|]. exists k. split_and!; [lia|done|].
      intros j Hj. destruct (decide (j = i)) as [->|]; [by rewrite E|]. apply Hused. lia.
    + eexists. split; [done|]. split; [done|]. exists i. split_and!; [lia|done|lia].
Qed.

(** Pigeonhole: more candidates than slots in use. *)
Lemma register_search_total slot index :
  Z.of_nat (size slot) < 2 ^ 24 ->
  exists h, register_search (register_fuel slot) slot index 0 = Ret h /\
    first_free slot index 0 h.
Proof.
  intros Hsz. apply register_search_spec. unfold register_fuel.
  set (C := candidates index 0 (S (size slot))).
  destruct (decide (Exists (fun h => slot !! h = None) C)) as [He|Hne].
  { apply Exists_exists in He as (h & ? & ?). eauto. }
  exfalso.
  assert (Hsub : list_to_set (C:=gset Z) C ⊆ dom slot).
  { intros h Hh%elem_of_list_to_set. apply elem_of_dom.
    destruct (slot !! h) eqn:E; [done|]. destruct Hne. apply Exists_exists. eauto. }
  apply subseteq_size in Hsub. rewrite size_list_to_set in Hsub by (apply candidates_NoDup; lia).
  unfold C, candidates in Hsub. rewrite length_fmap, length_seq, size_dom in Hsub. lia.
Qed.

Lemma lor_harbor_local h k :
  0 <= h < 2 ^ 24 -> handle_local (Z.lor h (k * 2 ^ 24)) = h.
Proof.
  intros Hh. rewrite handle_local_mod, <- (Z.shiftl_mul_pow2 k 24), lor_shiftl_add by lia.
  dlia.
Qed.

Lemma handle_local_small h : 0 <= h < 2 ^ 24 -> handle_local h = h.
Proof. intros. rewrite handle_local_mod. by apply Z.mod_small. Qed.

(** What the search finds is free, whether or not the fuel was known to be enough. *)
Lemma register_search_Ret fuel slot index i h :
  register_search fuel slot index i = Ret h -> slot !! h = None /\ 0 <= h < 2 ^ 24.
Proof.
  revert i. induction fuel as [|fuel IH]; intros i; [done|]. cbn [register_search].
  rewrite candidate_eq. destruct (slot !! ((index + i) mod 2 ^ 24)) eqn:E; [by apply IH|]. intros [= <-].
  split; [done|dlia].
Qed.

Lemma Register_Ret m ctx h m' :
  hm_wf m -> SNHandleMgr_Register m ctx = Ret (h, m') ->
  exists l, h = Z.lor l (m_harbor m) /\ handle_local h = l /\ m_slot m !! l = None /\
    m_slot m' = <[l := ctx]> (m_slot m) /\ m_harbor m' = m_harbor m /\ hm_wf m' /\
    m_nameMap m' = m_nameMap m.
Proof.
  intros ((k & Hk & Hh) & Hi & Hs). unfold SNHandleMgr_Register.
  destruct (register_search _ _ _ _) as [l| |] eqn:E; [|done..].
  apply register_search_Ret in E as [Hl Hr]. intros [= <- <-]. exists l. rewrite Hh.
  split_and!; [done|by apply lor_harbor_local|done|done|done| |done].
  split_and!; cbn; [by exists k|apply u32_range|].
  intros h' c. destruct (decide (h' = l)) as [->|]; [done|].
  rewrite lookup_insert_ne by done. apply Hs.
Qed.

Lemma Register_spec m ctx :
  hm_wf m -> Z.of_nat (size (m_slot m)) < 2 ^ 24 ->
  exists h m', SNHandleMgr_Register m ctx = Ret (Z.lor h (m_harbor m), m') /\
    handle_local (Z.lor h (m_harbor m)) = h /\ 0 <= h < 2 ^ 24 /\
    first_free (m_slot m) (m_handle_index m) 0 h /\
    m_handle_index m' = h + 1 /\ m_slot m' = <[h := ctx]> (m_slot m) /\
    m_nameMap m' = m_nameMap m /\ m_harbor m' = m_harbor m /\ hm_wf m'.
Proof.
  intros ((k & Hk & Hh) & Hi & Hs) Hsz. unfold SNHandleMgr_Register.
  destruct (register_search_total (m_slot m) (m_handle_index m) Hsz) as (h & -> & Hfree).
  assert (Hr : 0 <= h < 2 ^ 24) by (destruct Hfree as (_ & k' & _ & -> & _); dlia).
  simpl. eexists h, _. split; [done|]. rewrite Hh, lor_harbor_local by done. simpl.
  split_and!; [done|lia|lia|done|by apply u32_small; unfold is_u32; lia|done|done|done|].
  split_and!; simpl; [eauto|apply u32_range|].
  intros h' c. destruct (decide (h' = h)) as [->|]; [done|].
  rewrite lookup_insert_ne by done. apply Hs.
Qed.

(** Where the contexts carry the handles of [Register] and the node has a number, no
    handle is removed. *)
Lemma Remove_with_harbor (Handle : ctxptr -> Z) (m : SNHandleMgr) (h : Z) :
  hm_wf m -> m_harbor m <> 0 ->
  (forall l c, m_slot m !! l = Some c -> Handle c = Z.lor l (m_harbor m)) ->
  SNHandleMgr_Remove Handle m h = (None, m).
Proof.
  intros ((k & Hk & Hh) & _ & Hs) Hne HH. unfold SNHandleMgr_Remove.
  destruct (m_slot m !! handle_local h) as [c|] eqn:E; [|done].
  rewrite bool_decide_false; [done|]. rewrite (HH _ _ E), Hh.
  specialize (Hs _ _ E). rewrite <- (Z.shiftl_mul_pow2 k 24), lor_shiftl_add by lia. lia.
Qed.

(** A map without the service of slot [l], and without its names. *)
Definition without (m : SNHandleMgr) (l : Z) : SNHandleMgr :=
  {| m_harbor := m_harbor m; m_handle_index := m_handle_index m;
     m_slot := delete l (m_slot m); m_nameMap := filter (fun p => p.2 <> l) (m_nameMap m) |}.

Lemma without_find m h h' :
  SNHandleMgr_FindContext (without m (handle_local h)) h' =
    if decide (handle_local h' = handle_local h) then None else SNHandleMgr_FindContext m h'.
Proof.
  unfold SNHandleMgr_FindContext. cbn. rewrite lookup_delete. repeat case_decide; congruence.
Qed.

Lemma without_name m l name :
  SNHandleMgr_FindName (without m l) name =
    if decide (SNHandleMgr_FindName m name = l) then INVALID_HANDLE else SNHandleMgr_FindName m name.
Proof.
  unfold SNHandleMgr_FindName. cbn. rewrite map_lookup_filter.
  destruct (m_nameMap m !! name) as [x|]; simpl; [|by case_decide].
  repeat case_guard; repeat case_decide; simpl in *; done.
Qed.

(** On a node without a number the context of the slot is removed, and its names. *)
Lemma Remove_without_harbor (Handle : ctxptr -> Z) (m : SNHandleMgr) (h : Z) :
  m_harbor m = 0 ->
  (forall l c, m_slot m !! l = Some c -> Handle c = Z.lor l (m_harbor m)) ->
  SNHandleMgr_Remove Handle m h =
    match SNHandleMgr_FindContext m h with
    | None => (None, m)
    | Some c => (Some c, without m (handle_local h))
    end.
Proof.
  intros Hh HH. unfold SNHandleMgr_Remove, SNHandleMgr_FindContext.
  destruct (m_slot m !! handle_local h) as [c|] eqn:E; [|done].
  rewrite bool_decide_true; [done|]. by rewrite (HH _ _ E), Hh, Z.lor_0_r.
Qed.

(* ------------------------------------------------------------------ *)
(** ** Properties *)

(** C15: while fewer than 2^24 services live, [Register] returns; the handle it
    gives is the first free one from the index on, which moves behind it, carries the
    node's harbor byte and finds the new context from then on; every other handle finds
    what it found before. *)
Theorem register_fresh (m : SNHandleMgr) (ctx : ctxptr) :
  hm_wf m -> Z.of_nat (size (m_slot m)) < 2 ^ 24 ->
  exists h m', SNHandleMgr_Register m ctx = Ret (h, m') /\
    SNHandleMgr_FindContext m h = None /\
    (exists k, 0 <= k /\ handle_local h = handle_local (m_handle_index m + k) /\
       (forall j, 0 <= j < k -> is_Some (SNHandleMgr_FindContext m (m_handle_index m + j)))) /\
    m_handle_index m' = handle_local h + 1 /\
    handle_harbor h = handle_harbor (m_harbor m) /\
    (forall h', SNHandleMgr_FindContext m' h' =
       if decide (handle_local h' = handle_local h) then Some ctx
       else SNHandleMgr_FindContext m h') /\
    hm_wf m'.
Proof.
  intros Hwf Hsz.
  destruct (Register_spec m ctx Hwf Hsz) 
    as (h & m' & -> & Hl & Hr & (Hfree & k' & Hk' & Hmod & Hused) & Hidx & Hslot & _ & _ & Hwf').
  destruct Hwf as ((k & Hk & Hh) & _).
  eexists _, m'. split; [done|]. unfold SNHandleMgr_FindContext. rewrite Hl.
  split_and!; [done| |done| | |done].
  - exists k'. split_and!; [done|by rewrite handle_local_mod|].
    intros j Hj. rewrite handle_local_mod. by apply Hused.
  - rewrite Hh, <- (Z.shiftl_mul_pow2 k 24), lor_shiftl_add by lia.
    unfold handle_harbor, HANDLE_REMOTE_SHIFT. rewrite Z.shiftl_mul_pow2 by lia.
    rewrite !Z.shiftr_div_pow2 by lia. dlia.
  - intros h'. rewrite Hslot, lookup_insert. repeat case_decide; congruence.
Qed.

Lemma register_fresh_witness :
  exists h m', SNHandleMgr_Register (SNHandleMgr_new 3) 77 = Ret (h, m') /\
    SNHandleMgr_FindContext (SNHandleMgr_new 3) h = None /\
    (exists k, 0 <= k /\ handle_local h = handle_local (m_handle_index (SNHandleMgr_new 3) + k) /\
       (forall j, 0 <= j < k ->
          is_Some (SNHandleMgr_FindContext (SNHandleMgr_new 3) (m_handle_index (SNHandleMgr_new 3) + j)))) /\
    m_handle_index m' = handle_local h + 1 /\
    handle_harbor h = handle_harbor (m_harbor (SNHandleMgr_new 3)) /\
    (forall h', SNHandleMgr_FindContext m' h' =
       if decide (handle_local h' = handle_local h) then Some 77
       else SNHandleMgr_FindContext (SNHandleMgr_new 3) h') /\
    hm_wf m'.
Proof. apply (register_fresh (SNHandleMgr_new 3) 77); [apply SNHandleMgr_new_wf | done]. Defined.

(** Removing a service of a node whose handles carry no harbor byte takes
    exactly that service out of the map, and exactly its local names with it. *)
Theorem remove_local (Handle : ctxptr -> Z) (m : SNHandleMgr) (h : Z) (ctx : ctxptr) :
  SNHandleMgr_FindContext m h = Some ctx -> Handle ctx = handle_local h ->
  exists m', SNHandleMgr_Remove Handle m h = (Some ctx, m') /\
    (forall h', SNHandleMgr_FindContext m' h' =
       if decide (handle_local h' = handle_local h) then None
       else SNHandleMgr_FindContext m h') /\
    (forall name, SNHandleMgr_FindName m' name =
       if decide (SNHandleMgr_FindName m name = handle_local h) then INVALID_HANDLE
       else SNHandleMgr_FindName m name).
Proof.
  unfold SNHandleMgr_FindContext at 1, SNHandleMgr_Remove. intros Hf HH. rewrite Hf, bool_decide_true by done.
  exists (without m (handle_local h)). split; [done|]. split; intros x; [apply without_find|apply without_name].
Qed.

Definition demo_handles : SNHandleMgr :=
  mk_SNHandleMgr 0 3 {[1 := 71; 2 := 72]} {["a"%string := 1; "b"%string := 2]}.

Lemma remove_local_witness :
  exists m', SNHandleMgr_Remove (fun p => p - 70) demo_handles 1 = (Some 71, m') /\
    (forall h', SNHandleMgr_FindContext m' h' =
       if decide (handle_local h' = handle_local 1) then None
       else SNHandleMgr_FindContext demo_handles h') /\
    (forall name, SNHandleMgr_FindName m' name =
       if decide (SNHandleMgr_FindName demo_handles name = handle_local 1) then INVALID_HANDLE
       else SNHandleMgr_FindName demo_handles name).
Proof. apply (remove_local (fun p => p - 70) demo_handles 1 71); vm_compute; reflexivity. Defined.

(** On a node with a nonzero harbor id no service can be removed: once the
    registered contexts carry the handles [Register] gave them, [Remove] of
    any handle answers NULL and changes nothing. *)
Theorem remove_fails_with_harbor (Handle : ctxptr -> Z) (m : SNHandleMgr) (h : Z) :
  hm_wf m -> m_harbor m <> 0 ->
  (forall l c, m_slot m !! l = Some c -> Handle c = Z.lor l (m_harbor m)) ->
  SNHandleMgr_Remove Handle m h = (None, m).
Proof. apply Remove_with_harbor. Qed.

Definition demo_harbor_handles : SNHandleMgr :=
  mk_SNHandleMgr (2 ^ 24) 2 {[1 := 71]} ∅.

Lemma remove_fails_with_harbor_witness :
  SNHandleMgr_Remove (fun _ => 2 ^ 24 + 1) demo_harbor_handles (2 ^ 24 + 1) =
    (None, demo_harbor_handles).
Proof.
  apply (remove_fails_with_harbor (fun _ => 2 ^ 24 + 1) demo_harbor_handles (2 ^ 24 + 1)).
  - split_and!; [exists 1; split; [lia|reflexivity] | unfold is_u32; simpl; lia |].
    intros h c. simpl. intros [<- <-]%lookup_singleton_Some. lia.
  - discriminate.
  - intros l c. simpl. intros [<- <-]%lookup_singleton_Some. reflexivity.
Defined.

(** The handle 0, which the program reads as "no handle", is given to a
    service when the allocator wraps: with the index at 2^24 and slot 0 free a
    node without harbor returns [INVALID_HANDLE] for a registered context. *)
Theorem register_gives_invalid_handle (m : SNHandleMgr) (ctx : ctxptr) :
  m_harbor m = 0 -> m_handle_index m = 2 ^ 24 -> m_slot m !! 0 = None ->
  exists m', SNHandleMgr_Register m ctx = Ret (INVALID_HANDLE, m') /\
    SNHandleMgr_FindContext m' INVALID_HANDLE = Some ctx.
Proof.
  intros Hh Hi Hs. unfold SNHandleMgr_Register, register_fuel. rewrite Hi, Hh.
  cbn [register_search]. rewrite candidate_eq. change ((2 ^ 24 + 0) mod 2 ^ 24) with 0.
  rewrite Hs. eexists. split; [done|]. unfold SNHandleMgr_FindContext. simpl.
  change (handle_local INVALID_HANDLE) with 0. apply lookup_insert_eq.
Qed.

Lemma register_gives_invalid_handle_witness :
  exists m', SNHandleMgr_Register (mk_SNHandleMgr 0 (2 ^ 24) {[1 := 71]} ∅) 72
      = Ret (INVALID_HANDLE, m') /\
    SNHandleMgr_FindContext m' INVALID_HANDLE = Some 72.
Proof.
  apply (register_gives_invalid_handle (mk_SNHandleMgr 0 (2 ^ 24) {[1 := 71]} ∅) 72); reflexivity.
Defined.
