(* ===== verification/HashId.v ===== *)
(** * The connection id table (src/service-src/hashid.h)

    An array of [cap] nodes, chained by index from [hashmod + 1] buckets: the
    gate uses the array index of a socket id as the index of its connection.
    Pointers into the array are indices ([c - hi->id]); NULL is [None]. *)
From S2P Require Import Prelude.
From stdpp Require Import base list gmap numbers strings.
From Stdlib Require Import ZArith Lia.

Local Open Scope Z_scope.

Record hashid_node := mk_node { nid : Z; nnext : option nat }.

Record hashid := mk_hashid {
  hashmod : Z;
  cap : Z;
  count : Z;
  ids : list hashid_node;
  hash : list (option nat)
}.

#[export] Instance hashid_node_inhabited : Inhabited hashid_node := populate (mk_node 0 None).

(** [while (hashcap < max) hashcap *= 2;] *)
Fixpoint hashcap_loop (fuel : nat) (hashcap max : Z) : outcome Z :=
  if bool_decide (hashcap < max) then
    match fuel with
    | O => Crash OutOfFuel
    | S fuel => hashcap_loop fuel (i32 (hashcap * 2)) max
    end
  else Ret hashcap.

Definition hashid_init (max : Z) : outcome hashid :=
  hashcap ← hashcap_loop 32 16 max;
  Ret {| hashmod := hashcap - 1; cap := max; count := 0;
         ids := replicate (Z.to_nat max) (mk_node (-1) None);
         hash := replicate (Z.to_nat hashcap) None |}.

Definition hashid_clear (hi : hashid) : hashid :=
  {| hashmod := 1; cap := 0; count := 0; ids := []; hash := [] |}.

(** [while (c) { if (c->id == id) return c - hi->id; c = c->next; } return -1;] *)
Fixpoint lookup_chain (fuel : nat) (nodes : list hashid_node) (c : option nat) (id : Z)
  : outcome Z :=
  match c with
  | None => Ret (-1)
  | Some c =>
      nd ← read_at nodes (Z.of_nat c);
      if bool_decide (nid nd = id) then Ret (Z.of_nat c)
      else match fuel with
           | O => Crash OutOfFuel
           | S fuel => lookup_chain fuel nodes (nnext nd) id
           end
  end.

Definition hashid_lookup (hi : hashid) (id : Z) : outcome Z :=
  let h := Z.land id (hashmod hi) in
  c ← read_at (hash hi) h;
  lookup_chain (length (ids hi)) (ids hi) c id.

(** The tail of [hashid_remove], at the label [_clear]. *)
Definition remove_clear (hi : hashid) (nodes : list hashid_node) (buckets : list (option nat))
    (c : nat) : outcome (Z * hashid) :=
  nodes ← write_at nodes (Z.of_nat c) (mk_node (-1) None);
  Ret (Z.of_nat c,
       {| hashmod := hashmod hi; cap := cap hi; count := count hi - 1;
          ids := nodes; hash := buckets |}).

(** [while (c->next) { ... }]: the node before the one to unlink is [c]. *)
Fixpoint remove_chain (fuel : nat) (hi : hashid) (c : nat) (id : Z) : outcome (Z * hashid) :=
  nd ← read_at (ids hi) (Z.of_nat c);
  match nnext nd with
  | None => Ret (-1, hi)
  | Some t =>
      temp ← read_at (ids hi) (Z.of_nat t);
      if bool_decide (nid temp = id) then
        nodes ← write_at (ids hi) (Z.of_nat c) (mk_node (nid nd) (nnext temp));
        remove_clear hi nodes (hash hi) t
      else match fuel with
           | O => Crash OutOfFuel
           | S fuel => remove_chain fuel hi t id
           end
  end.

Definition hashid_remove (hi : hashid) (id : Z) : outcome (Z * hashid) :=
  let h := Z.land id (hashmod hi) in
  c ← read_at (hash hi) h;
  match c with
  | None => Ret (-1, hi)
  | Some c =>
      nd ← read_at (ids hi) (Z.of_nat c);
      if bool_decide (nid nd = id) then
        buckets ← write_at (hash hi) h (nnext nd);
        remove_clear hi (ids hi) buckets c
      else remove_chain (length (ids hi)) hi c id
  end.

(** [for (i=0;i<hi->cap;i++)]: the first free node from [id % cap] on. *)
Fixpoint find_free (n : nat) (hi : hashid) (id i : Z) : outcome (option nat) :=
  match n with
  | O => Ret None
  | S n =>
      let index := Z.rem (i32 (i + id)) (cap hi) in
      nd ← read_at (ids hi) index;
      if bool_decide (nid nd = -1) then Ret (Some (Z.to_nat index))
      else find_free n hi id (i + 1)
  end.

Definition hashid_insert (hi : hashid) (id : Z) : outcome (Z * hashid) :=
  c ← find_free (Z.to_nat (cap hi)) hi id 0;
  match c with
  | None => Crash AssertFailed
  | Some c =>
      nd ← read_at (ids hi) (Z.of_nat c);
      if bool_decide (nnext nd = None) then
        let h := Z.land id (hashmod hi) in
        b ← read_at (hash hi) h;
        nodes ← write_at (ids hi) (Z.of_nat c) (mk_node id b);
        buckets ← write_at (hash hi) h (Some c);
        Ret (Z.of_nat c,
             {| hashmod := hashmod hi; cap := cap hi; count := count hi + 1;
                ids := nodes; hash := buckets |})
      else Crash AssertFailed
  end.

Definition hashid_full (hi : hashid) : bool := bool_decide (count hi = cap hi).

(* ------------------------------------------------------------------ *)
(** ** The invariant *)

(** The nodes from pointer [c] on, in order. *)
Abbreviation chain := (linked nnext).

(** -1 marks a free node. *)
Definition used (id : Z) : Prop := id <> -1.
#[export] Instance used_dec id : Decision (used id).
Proof. unfold used. apply _. Defined.

(** Node [i] holds the id [id]. *)
Definition holds (nodes : list hashid_node) (i : nat) (id : Z) : Prop :=
  id <> -1 /\ (nid <$> nodes) !! i = Some id.

Record hid_wf (hi : hashid) : Prop := mk_hid_wf {
  wf_cap : Z.of_nat (length (ids hi)) = cap hi;
  wf_mod : exists k, 4 <= k <= 30 /\ hashmod hi = 2 ^ k - 1;
  wf_hash : Z.of_nat (length (hash hi)) = hashmod hi + 1;
  wf_count : count hi = Z.of_nat (length (filter used (nid <$> ids hi)));
  wf_free i nd : ids hi !! i = Some nd -> nid nd = -1 -> nnext nd = None;
  wf_uniq i j id : holds (ids hi) i id -> holds (ids hi) j id -> i = j;
  wf_chain b c : hash hi !! b = Some c -> exists l, chain (ids hi) c l /\ NoDup l /\
    forall i, i ∈ l <-> exists id, holds (ids hi) i id /\ Z.land id (hashmod hi) = Z.of_nat b
}.

(* ------------------------------------------------------------------ *)
(** ** Lemmas *)

Lemma bucket_range hi id : hid_wf hi -> 0 <= Z.land id (hashmod hi) < hashmod hi + 1.
Proof.
  intros [_ (k & Hk & ->) _ _ _ _ _]. rewrite land_mask by lia.
  pose proof (Z.mod_pos_bound id (2 ^ k)). lia.
Qed.

(** The bucket of an id, and its chain. *)
Lemma bucket_chain hi id :
  hid_wf hi -> exists (b : nat) c l, Z.land id (hashmod hi) = Z.of_nat b /\
    hash hi !! b = Some c /\ read_at (hash hi) (Z.land id (hashmod hi)) = Ret c /\
    chain (ids hi) c l /\ NoDup l /\
    forall i, i ∈ l <-> exists id', holds (ids hi) i id' /\ Z.land id' (hashmod hi) = Z.of_nat b.
Proof.
  intros Hwf. pose proof (bucket_range hi id Hwf) as Hr.
  set (b := Z.to_nat (Z.land id (hashmod hi))).
  assert (Hb : Z.land id (hashmod hi) = Z.of_nat b) by (unfold b; lia).
  destruct (lookup_lt_is_Some_2 (hash hi) b) as [c Hc].
  { pose proof (wf_hash _ Hwf). lia. }
  destruct (wf_chain _ Hwf _ _ Hc) as (l & Hl & Hn & Hi).
  exists b, c, l. split_and!; [done|done| |done..].
  rewrite Hb. by apply read_at_Some.
Qed.

Lemma holds_lookup nodes i nd id : nodes !! i = Some nd ->
  holds nodes i id <-> id <> -1 /\ nid nd = id.
Proof. intros Hnd. unfold holds. rewrite list_lookup_fmap, Hnd. simpl. naive_solver. Qed.

Lemma lookup_chain_spec fuel nodes c l id :
  chain nodes c l -> (length l <= fuel)%nat ->
  (forall i, i ∈ l -> exists id', holds nodes i id') ->
  (exists i, i ∈ l /\ holds nodes i id /\ lookup_chain fuel nodes c id = Ret (Z.of_nat i)) \/
  (forall i, i ∈ l -> ~ holds nodes i id) /\ lookup_chain fuel nodes c id = Ret (-1).
Proof.
  intros Hc. revert fuel. induction Hc as [|c nd l Hnd Hc IH]; intros fuel Hf Hu.
  - right. split; [by intros ? ?%not_elem_of_nil|]. by destruct fuel.
  - destruct fuel as [|fuel]; [simpl in Hf; lia|].
    destruct (Hu c) as (id' & Hh); [set_solver|].
    apply (holds_lookup _ _ _ _ Hnd) in Hh as [Hne <-].
    cbn [lookup_chain]. rewrite (read_at_Some _ _ _ Hnd). cbn [mbind outcome_bind].
    case_bool_decide as Hid.
    + left. exists c. split_and!; [set_solver| |done].
      apply (holds_lookup _ _ _ _ Hnd). split; congruence.
    + destruct (IH fuel) as [(i & Hi & Hh & ->)|[Hno ->]]; [simpl in Hf; lia|set_solver| |].
      * left. exists i. split_and!; [set_solver|done|done].
      * right. split; [|done]. intros i [->|Hi]%elem_of_cons; [|by apply Hno].
        by intros [_ ?]%(holds_lookup _ _ _ _ Hnd).
Qed.

Lemma hashid_lookup_spec hi id :
  hid_wf hi ->
  (exists i, holds (ids hi) i id /\ hashid_lookup hi id = Ret (Z.of_nat i)) \/
  (forall i, ~ holds (ids hi) i id) /\ hashid_lookup hi id = Ret (-1).
Proof.
  intros Hwf. destruct (bucket_chain hi id Hwf) as (b & c & l & Hb & Hhb & Hrd & Hc & Hn & Hl).
  unfold hashid_lookup. rewrite Hrd. cbn [mbind outcome_bind].
  destruct (lookup_chain_spec (length (ids hi)) _ _ _ id Hc) as [(i & Hi & Hh & ->)|[Hno ->]].
  - by eapply linked_length.
  - intros i Hi%Hl. naive_solver.
  - left. eauto.
  - right. split; [|done]. intros i Hi. apply (Hno i); [|done]. apply Hl. eauto.
Qed.

(** *** Insertion *)

Lemma find_free_spec n hi id i :
  0 < cap hi -> Z.of_nat (length (ids hi)) = cap hi -> 0 <= i -> 0 <= id ->
  i + Z.of_nat n + id <= 2 ^ 31 ->
  (exists k, i <= k < i + Z.of_nat n /\
    (nid <$> ids hi) !! Z.to_nat ((k + id) mod cap hi) = Some (-1)) ->
  exists c, find_free n hi id i = Ret (Some c) /\ (nid <$> ids hi) !! c = Some (-1).
Proof.
  intros Hcap Hlen. revert i. induction n as [|n IH]; intros i Hi Hid Hmax (k & Hk & Hfree); [lia|].
  cbn [find_free]. rewrite i32_small by (unfold is_i32; lia).
  rewrite Z.rem_mod_nonneg by lia.
  pose proof (Z.mod_pos_bound (i + id) (cap hi) Hcap).
  destruct (lookup_lt_is_Some_2 (ids hi) (Z.to_nat ((i + id) mod cap hi))) as [nd Hnd]; [lia|].
  rewrite (read_at_Z _ _ _ (proj1 H) Hnd). cbn [mbind outcome_bind]. case_bool_decide as Hm.
  - eexists. split; [done|]. rewrite list_lookup_fmap, Hnd. simpl. by rewrite Hm.
  - apply IH; [lia|lia|lia|]. exists k. split; [|done].
    destruct (decide (k = i)) as [->|]; [|lia].
    rewrite list_lookup_fmap, Hnd in Hfree. simpl in Hfree. congruence.
Qed.

(** The keys after a node is written. *)
Lemma holds_insert nodes c nd i id :
  (c < length nodes)%nat ->
  holds (<[c := nd]> nodes) i id <->
  (i = c /\ id = nid nd /\ nid nd <> -1) \/ (i <> c /\ holds nodes i id).
Proof.
  intros Hc. unfold holds. rewrite list_fmap_insert. destruct (decide (i = c)) as [->|Hne].
  - rewrite list_lookup_insert_eq by by rewrite length_fmap. naive_solver.
  - rewrite list_lookup_insert_ne by done. naive_solver.
Qed.

Lemma filter_insert_length (P : Z -> Prop) `{forall x, Decision (P x)} (l : list Z) i x y :
  l !! i = Some y ->
  (length (filter P (<[i := x]> l)) + (if decide (P y) then 1 else 0) =
   length (filter P l) + (if decide (P x) then 1 else 0))%nat.
Proof.
  intros Hi. rewrite insert_take_drop by by eapply lookup_lt_Some.
  rewrite <- (take_drop_middle l i y Hi) at 3.
  rewrite !filter_app, !length_app, !filter_cons.
  repeat case_decide; simpl; lia.
Qed.

Lemma insert_wf hi id c b :
  hid_wf hi -> id <> -1 -> (forall i, ~ holds (ids hi) i id) ->
  (nid <$> ids hi) !! c = Some (-1) -> hash hi !! Z.to_nat (Z.land id (hashmod hi)) = Some b ->
  hid_wf {| hashmod := hashmod hi; cap := cap hi; count := count hi + 1;
            ids := <[c := mk_node id b]> (ids hi);
            hash := <[Z.to_nat (Z.land id (hashmod hi)) := Some c]> (hash hi) |}.
Proof.
  intros Hwf Hid Hfresh Hc Hb. pose proof (bucket_range hi id Hwf) as Hr.
  assert (Hlt : (c < length (ids hi))%nat).
  { apply lookup_lt_Some in Hc. by rewrite length_fmap in Hc. }
  assert (Hnc : forall x, ~ holds (ids hi) c x) by (intros x [? ?]; congruence).
  destruct Hwf as [Wcap Wmod Whash Wcount Wfree Wuniq Wchain].
  split; simpl; [by rewrite length_insert|done|by rewrite length_insert| | | |].
  - pose proof (filter_insert_length used (nid <$> ids hi) c id (-1) Hc) as Hf.
    rewrite list_fmap_insert. simpl.
    rewrite (decide_True (P:=used id)), (decide_False (P:=used (-1))) in Hf by (unfold used; lia). lia.
  - intros i nd. destruct (decide (i = c)) as [->|].
    + rewrite list_lookup_insert_eq by done. intros [= <-]. done.
    + rewrite list_lookup_insert_ne by done. apply Wfree.
  - intros i j x. rewrite !holds_insert by done. simpl.
    intros [(-> & -> & _)|[? Hi]] [(-> & ? & _)|[? Hj]]; [done| | |by eapply Wuniq].
    + by destruct (Hfresh j).
    + subst. by destruct (Hfresh i).
  - intros b' c'. destruct (decide (b' = Z.to_nat (Z.land id (hashmod hi)))) as [->|Hne].
    + rewrite list_lookup_insert_eq by lia. intros [= <-].
      destruct (Wchain _ _ Hb) as (l & Hl & Hn & Hm).
      assert (Hcl : c ∉ l). { intros (x & Hx & _)%Hm. by apply Hnc in Hx. }
      exists (c :: l). split_and!.
      * apply linked_cons with (mk_node id b); [by apply list_lookup_insert_eq|].
        by apply linked_insert_ne.
      * by constructor.
      * intros i. rewrite elem_of_cons, Hm. split.
        -- intros [->|(x & Hx & Hx')].
           { exists id. rewrite holds_insert by done. split; [by left|]. lia. }
           exists x. rewrite holds_insert by done. split; [|done]. right.
           split; [|done]. intros ->. by apply Hnc in Hx.
        -- intros (x & Hx & Hx'). apply holds_insert in Hx as [(-> & _)|[? Hx]]; [by left| |done].
           right. eauto.
    + rewrite list_lookup_insert_ne by done. intros Hb'.
      destruct (Wchain _ _ Hb') as (l & Hl & Hn & Hm). exists l. split_and!; [|done|].
      * apply linked_insert_ne; [|done]. intros (x & Hx & _)%Hm. by apply Hnc in Hx.
      * intros i. rewrite Hm. split; intros (x & Hx & Hx'); exists x.
        -- rewrite holds_insert by done. split; [|done]. right.
           split; [|done]. intros ->. by apply Hnc in Hx.
        -- apply holds_insert in Hx as [(-> & -> & _)|[? Hx]]; [|done|done]. simpl in Hx'. lia.
Qed.

(** A table that is not full has a free node. *)
Lemma exists_free hi :
  hid_wf hi -> count hi <> cap hi -> exists j, (nid <$> ids hi) !! j = Some (-1).
Proof.
  intros Hwf Hne. destruct (decide (Forall used (nid <$> ids hi))) as [Hall|Hex].
  - exfalso. apply Hne. rewrite (wf_count _ Hwf), <- (wf_cap _ Hwf).
    rewrite filter_all by done. by rewrite length_fmap.
  - apply not_Forall_Exists in Hex; [|intros; apply _].
    apply Exists_exists in Hex as (x & Hx & Hn). apply list_elem_of_lookup in Hx as (j & Hj).
    exists j. rewrite Hj. f_equal. unfold used in Hn. simpl in Hn. lia.
Qed.

Lemma hashid_insert_spec hi id :
  hid_wf hi -> count hi <> cap hi -> 0 <= id -> id + cap hi <= 2 ^ 31 ->
  (forall i, ~ holds (ids hi) i id) ->
  exists i hi', hashid_insert hi id = Ret (Z.of_nat i, hi') /\ hid_wf hi' /\
    (forall x, ~ holds (ids hi) i x) /\ cap hi' = cap hi /\ count hi' = count hi + 1 /\
    (forall j x, holds (ids hi') j x <-> (j = i /\ x = id) \/ holds (ids hi) j x).
Proof.
  intros Hwf Hne Hid Hmax Hfresh.
  destruct (exists_free hi Hwf Hne) as (j & Hj).
  assert (Hjl : (j < length (ids hi))%nat).
  { apply lookup_lt_Some in Hj. by rewrite length_fmap in Hj. }
  pose proof (wf_cap _ Hwf) as Hcap.
  destruct (find_free_spec (Z.to_nat (cap hi)) hi id 0) as (c & Hf & Hc); [lia|done|lia|lia|lia| |].
  { exists ((Z.of_nat j - id) mod cap hi).
    pose proof (Z.mod_pos_bound (Z.of_nat j - id) (cap hi) ltac:(lia)). split; [lia|].
    rewrite Zplus_mod_idemp_l. replace (Z.of_nat j - id + id) with (Z.of_nat j) by lia.
    rewrite Z.mod_small by lia. by rewrite Nat2Z.id. }
  destruct (bucket_chain hi id Hwf) as (b & p & l & Hb & Hhb & Hrd & _).
  pose proof Hc as Hc'. rewrite list_lookup_fmap, fmap_Some in Hc'. destruct Hc' as (nd & Hnd & Hm).
  assert (Hlt : (c < length (ids hi))%nat) by by eapply lookup_lt_Some.
  assert (Hhb' : hash hi !! Z.to_nat (Z.land id (hashmod hi)) = Some p) by by rewrite Hb, Nat2Z.id.
  unfold hashid_insert. rewrite Hf. cbn [mbind outcome_bind].
  rewrite (read_at_Some _ _ _ Hnd). cbn [mbind outcome_bind].
  rewrite bool_decide_true by (by eapply (wf_free _ Hwf)). rewrite Hrd. cbn [mbind outcome_bind].
  rewrite write_at_lt by done. cbn [mbind outcome_bind].
  rewrite write_at_Z by (pose proof (bucket_range hi id Hwf); pose proof (wf_hash _ Hwf); lia).
  cbn [mbind outcome_bind]. eexists c, _. split; [done|].
  split; [apply insert_wf; [done|lia|done|done|done]|].
  split_and!; simpl; [intros x [? ?]; congruence|done|done|].
  intros k x. rewrite holds_insert by done. simpl. split.
  - intros [(-> & -> & _)|[_ ?]]; [by left|by right].
  - intros [[-> ->]|Hk]; [left; split_and!; [done|done|lia]|right].
    split; [|done]. intros ->. destruct Hk. congruence.
Qed.

(** *** Removal *)

(** Unlinking node [t], which holds [id], from its bucket. *)
Lemma unlink_wf hi id (b : nat) c (l : list nat) (t : nat) nodes c' (l' : list nat) :
  hid_wf hi -> Z.land id (hashmod hi) = Z.of_nat b -> hash hi !! b = Some c ->
  (forall i, i ∈ l <-> exists x, holds (ids hi) i x /\ Z.land x (hashmod hi) = Z.of_nat b) ->
  holds (ids hi) t id ->
  (nid <$> nodes) = <[t := -1]> (nid <$> ids hi) ->
  (forall i nd, nodes !! i = Some nd -> nid nd = -1 -> nnext nd = None) ->
  chain nodes c' l' -> NoDup l' -> (forall i, i ∈ l' <-> i ∈ l /\ i <> t) ->
  (forall i, i ∉ l -> nodes !! i = ids hi !! i) ->
  hid_wf {| hashmod := hashmod hi; cap := cap hi; count := count hi - 1;
            ids := nodes; hash := <[b := c']> (hash hi) |} /\
  (forall i x, holds nodes i x <-> holds (ids hi) i x /\ i <> t).
Proof.
  intros Hwf Hb Hc Hl Ht Hkeys Hfree' Hch Hn Hl' Hout.
  assert (Hlen : length nodes = length (ids hi)).
  { apply (f_equal length) in Hkeys. by rewrite length_insert, !length_fmap in Hkeys. }
  assert (Hh : forall i x, holds nodes i x <-> holds (ids hi) i x /\ i <> t).
  { intros i x. unfold holds. rewrite Hkeys. destruct (decide (i = t)) as [->|].
    - rewrite list_lookup_insert_eq by (eapply lookup_lt_Some, Ht). naive_solver.
    - rewrite list_lookup_insert_ne by done. naive_solver. }
  split; [|done]. destruct Hwf as [Wcap Wmod Whash Wcount Wfree Wuniq Wchain].
  split; simpl; [congruence|done|by rewrite length_insert| |done| |].
  - destruct Ht as [Hne Ht].
    pose proof (filter_insert_length used _ t (-1) _ Ht) as Hf.
    rewrite (decide_True (P:=used id)), (decide_False (P:=used (-1))) in Hf by (unfold used; lia).
    rewrite Hkeys. lia.
  - intros i j x [Hi _]%Hh [Hj _]%Hh. by eapply Wuniq.
  - intros b' p. destruct (decide (b' = b)) as [->|Hne].
    + rewrite list_lookup_insert_eq by (by eapply lookup_lt_Some). intros [= <-].
      exists l'. split_and!; [done|done|]. intros i. rewrite Hl', Hl. split.
      * intros ((x & Hx & Hx') & Hit). exists x. rewrite Hh. done.
      * intros (x & [Hx Hit]%Hh & Hx'). eauto.
    + rewrite list_lookup_insert_ne by done. intros Hp.
      destruct (Wchain _ _ Hp) as (k & Hk & Hkn & Hki).
      assert (Hdisj : forall i, i ∈ k -> i ∉ l).
      { intros i (x & [_ Hx] & Hxb)%Hki (y & [_ Hy] & Hyb)%Hl.
        rewrite Hx in Hy. simplify_eq. lia. }
      exists k. split_and!; [|done|].
      * assert (Hall : forall i, i ∈ k -> nodes !! i = ids hi !! i) by (intros; auto).
        clear -Hk Hall. induction Hk as [|i nd k Hnd Hk IH]; [constructor|].
        econstructor; [rewrite Hall by set_solver; done|]. apply IH. set_solver.
      * intros i. rewrite Hki. split.
        -- intros (x & Hx & Hx'). exists x. rewrite Hh. split; [|done]. split; [done|].
           intros ->. destruct Hx as [_ Hx], Ht as [_ Ht]. simplify_eq. lia.
        -- intros (x & [Hx _]%Hh & Hx'). eauto.
Qed.

Lemma chain_unlink nodes c l1 p t l2 np nt :
  chain nodes c (l1 ++ p :: t :: l2) -> NoDup (l1 ++ p :: t :: l2) ->
  nodes !! p = Some np -> nodes !! t = Some nt ->
  chain (<[t := mk_node (-1) None]> (<[p := mk_node (nid np) (nnext nt)]> nodes)) c (l1 ++ p :: l2).
Proof.
  intros Hc Hn Hp Ht.
  assert (Hpt : p <> t /\ t ∉ l1 ++ p :: l2).
  { rewrite NoDup_app, !NoDup_cons in Hn. set_solver. }
  destruct Hpt as [Hpt Htl]. apply linked_insert_ne; [done|]. clear Htl.
  revert c Hc Hn. induction l1 as [|x l1 IH]; intros c Hc Hn; simpl in *.
  - inversion Hc as [|? ? ? Hx Hr]; subst. simplify_eq.
    inversion Hr as [|? ? ? Hx' Hr']; subst. simplify_eq.
    apply NoDup_cons in Hn as [Hpn Hn].
    apply linked_cons with (mk_node (nid np) (nnext nt)).
    + apply list_lookup_insert_eq. by eapply lookup_lt_Some.
    + apply linked_insert_ne; [set_solver|done].
  - inversion Hc as [|? ? ? Hx Hr]; subst. apply NoDup_cons in Hn as [Hxn Hn].
    apply linked_cons with nd; [|by apply IH].
    rewrite list_lookup_insert_ne by set_solver. done.
Qed.

Lemma remove_chain_spec fuel hi c l id :
  chain (ids hi) (Some c) (c :: l) -> (length l <= fuel)%nat ->
  (forall i, i ∈ c :: l -> exists x, holds (ids hi) i x) -> ~ holds (ids hi) c id ->
  (exists l1 p t l2 np nt, c :: l = l1 ++ p :: t :: l2 /\ ids hi !! p = Some np /\
     ids hi !! t = Some nt /\ holds (ids hi) t id /\
     remove_chain fuel hi c id =
       remove_clear hi (<[p := mk_node (nid np) (nnext nt)]> (ids hi)) (hash hi) t) \/
  (forall i, i ∈ c :: l -> ~ holds (ids hi) i id) /\ remove_chain fuel hi c id = Ret (-1, hi).
Proof.
  revert c l. induction fuel as [|fuel IH]; intros c l Hc Hf Hu Hnc;
    inversion Hc as [|? nd ? Hnd Hr]; subst; cbn [remove_chain];
    rewrite (read_at_Some _ _ _ Hnd); cbn [mbind outcome_bind].
  - destruct l; [|simpl in Hf; lia]. inversion Hr as [He|]; subst.
    right. split; [|done]. by intros i ->%list_elem_of_singleton.
  - inversion Hr as [He|t ndt l' Hndt Hrt He]; subst.
    { right. split; [|done]. by intros i ->%list_elem_of_singleton. }
    rewrite (read_at_Some _ _ _ Hndt). cbn [mbind outcome_bind]. case_bool_decide as Hid.
    + left. exists [], c, t, l', nd, ndt. split_and!; [done|done|done| |].
      * destruct (Hu t) as (x & Hx); [set_solver|].
        pose proof Hx as Hx'. apply (holds_lookup _ _ _ _ Hndt) in Hx' as [? <-]. congruence.
      * rewrite write_at_lt by (by eapply lookup_lt_Some). done.
    + assert (Hnt : ~ holds (ids hi) t id) by (rewrite (holds_lookup _ _ _ _ Hndt); tauto).
      destruct (IH t l') as [(l1 & p & t' & l2 & np & nt & He' & ?)|[Hno ->]];
        [by econstructor|simpl in Hf; lia|set_solver|done| |].
      * left. exists (c :: l1), p, t', l2, np, nt. rewrite He'. done.
      * right. split; [|done]. intros i [->|Hi]%elem_of_cons; [done|by apply Hno].
Qed.

Lemma hashid_remove_spec hi id :
  hid_wf hi ->
  (exists i hi', holds (ids hi) i id /\ hashid_remove hi id = Ret (Z.of_nat i, hi') /\ hid_wf hi' /\
     cap hi' = cap hi /\ count hi' = count hi - 1 /\
     (forall j x, holds (ids hi') j x <-> holds (ids hi) j x /\ j <> i)) \/
  (forall i, ~ holds (ids hi) i id) /\ hashid_remove hi id = Ret (-1, hi).
Proof.
  intros Hwf. destruct (bucket_chain hi id Hwf) as (b & c & l & Hb & Hhb & Hrd & Hc & Hn & Hl).
  assert (Hu : forall i, i ∈ l -> exists x, holds (ids hi) i x) by (intros i Hi%Hl; naive_solver).
  assert (Hnone : (forall i, i ∈ l -> ~ holds (ids hi) i id) -> forall i, ~ holds (ids hi) i id).
  { intros Hno i Hi. apply (Hno i); [|done]. apply Hl. eauto. }
  unfold hashid_remove. rewrite Hrd. cbn [mbind outcome_bind].
  inversion Hc as [He|c0 nd l0 Hnd Hr He]; subst.
  { right. split; [|done]. apply Hnone. by intros ? ?%not_elem_of_nil. }
  rewrite (read_at_Some _ _ _ Hnd). cbn [mbind outcome_bind]. case_bool_decide as Hid.
  - assert (Hh : holds (ids hi) c0 id).
    { destruct (Hu c0) as (x & Hx); [set_solver|]. pose proof Hx as Hx'.
      apply (holds_lookup _ _ _ _ Hnd) in Hx' as [? <-]. congruence. }
    assert (Hlt : (c0 < length (ids hi))%nat) by by eapply lookup_lt_Some.
    apply NoDup_cons in Hn as [Hnc Hn].
    destruct (unlink_wf hi id b (Some c0) (c0 :: l0) c0 (<[c0 := mk_node (-1) None]> (ids hi))
      (nnext nd) l0) as [Hwf' Hh']; [done..| | | | | | |].
    + by rewrite list_fmap_insert.
    + intros i x. destruct (decide (i = c0)) as [->|].
      * rewrite list_lookup_insert_eq by done. by intros [= <-].
      * rewrite list_lookup_insert_ne by done. apply (wf_free _ Hwf).
    + by apply linked_insert_ne.
    + done.
    + set_solver.
    + intros i Hi. apply list_lookup_insert_ne. set_solver.
    + left. rewrite Hb. rewrite write_at_lt by (by eapply lookup_lt_Some). cbn [mbind outcome_bind].
      unfold remove_clear. rewrite write_at_lt by done. cbn [mbind outcome_bind].
      eexists c0, _. split_and!; [done|done|done|done|done|done].
  - destruct (remove_chain_spec (length (ids hi)) hi c0 l0 id Hc) as
      [(l1 & p & t & l2 & np & nt & He & Hp & Ht & Hh & ->)|[Hno ->]].
    + pose proof (linked_length _ _ _ _ Hc Hn). simpl in *. lia.
    + done.
    + intros [_ ?]%(holds_lookup _ _ _ _ Hnd). congruence.
    + assert (Hlt : (t < length (ids hi))%nat) by by eapply lookup_lt_Some.
      assert (Hpt : p <> t). { rewrite He in Hn. rewrite NoDup_app, !NoDup_cons in Hn. set_solver. }
      assert (Hnp : exists x, holds (ids hi) p x) by (apply Hu; rewrite He; set_solver).
      destruct (unlink_wf hi id b (Some c0) (c0 :: l0) t
        (<[t := mk_node (-1) None]> (<[p := mk_node (nid np) (nnext nt)]> (ids hi)))
        (Some c0) (l1 ++ p :: l2)) as [Hwf' Hh']; [done..| | | | | | |].
      * rewrite !list_fmap_insert. simpl. f_equal. apply list_insert_id.
        by rewrite list_lookup_fmap, Hp.
      * intros i x. destruct (decide (i = t)) as [->|].
        { rewrite list_lookup_insert_eq by by rewrite length_insert. by intros [= <-]. }
        rewrite list_lookup_insert_ne by done. destruct (decide (i = p)) as [->|].
        { rewrite list_lookup_insert_eq by (by eapply lookup_lt_Some). intros [= <-]. simpl.
          destruct Hnp as (x & Hx). apply (holds_lookup _ _ _ _ Hp) in Hx as [? ?]. congruence. }
        rewrite list_lookup_insert_ne by done. apply (wf_free _ Hwf).
      * rewrite He in Hc, Hn. by apply chain_unlink.
      * rewrite He in Hn. rewrite NoDup_app, !NoDup_cons in Hn.
        rewrite NoDup_app, NoDup_cons. set_solver.
      * intros i. rewrite He. rewrite He in Hn. rewrite NoDup_app, !NoDup_cons in Hn.
        set_solver.
      * intros i Hi. rewrite He in Hi. rewrite !list_lookup_insert_ne by set_solver. done.
      * left. unfold remove_clear. rewrite write_at_lt by by rewrite length_insert.
        cbn [mbind outcome_bind].
        assert (Hbk : <[b := Some c0]> (hash hi) = hash hi) by by apply list_insert_id.
        rewrite Hbk in Hwf'. eexists t, _. split_and!; [done|done|done|done|done|done].
    + right. split; [|done]. by apply Hnone.
Qed.

(** *** Creation *)

Lemma hashcap_loop_spec fuel k max :
  4 <= k <= 30 -> max <= 2 ^ 30 -> 30 - k <= Z.of_nat fuel ->
  exists k', k <= k' <= 30 /\ hashcap_loop fuel (2 ^ k) max = Ret (2 ^ k') /\ max <= 2 ^ k'.
Proof.
  revert k. induction fuel as [|fuel IH]; intros k Hk Hmax Hf; cbn [hashcap_loop];
    case_bool_decide as Hlt; try (exists k; split_and!; [lia|lia|done|lia]).
  - replace k with 30 in Hlt by lia. lia.
  - assert (k < 30) by (destruct (decide (k = 30)) as [->|]; lia).
    assert (Hp : 2 ^ (k + 1) = 2 ^ k * 2) by (rewrite Z.pow_add_r; lia).
    assert (2 ^ (k + 1) <= 2 ^ 30) by (apply Z.pow_le_mono_r; lia).
    rewrite <- Hp, i32_small by (unfold is_i32; lia).
    destruct (IH (k + 1)) as (k' & ? & ? & ?); [lia|lia|lia|].
    exists k'. split_and!; [lia|lia|done|done].
Qed.

(** *** The table as a finite map from ids to indices *)
Definition repr (hi : hashid) (m : gmap Z nat) : Prop :=
  hid_wf hi /\ count hi = Z.of_nat (size m) /\
  forall id i, m !! id = Some i <-> holds (ids hi) i id.

Definition index_of (m : gmap Z nat) (id : Z) : Z :=
  match m !! id with
  | Some i => Z.of_nat i
  | None => -1
  end.

Lemma repr_none hi m id : repr hi m -> m !! id = None <-> forall i, ~ holds (ids hi) i id.
Proof.
  intros (_ & _ & Hm). split.
  - intros Hn i Hi%Hm. congruence.
  - intros Hno. destruct (m !! id) eqn:E; [|done]. apply Hm in E. by destruct (Hno n).
Qed.

Lemma init_repr max :
  0 <= max <= 2 ^ 30 -> exists hi, hashid_init max = Ret hi /\ repr hi ∅ /\ cap hi = max.
Proof.
  intros Hmax. unfold hashid_init.
  destruct (hashcap_loop_spec 32 4 max) as (k & Hk & Hl & Hle); [lia|lia|lia|].
  change (2 ^ 4) with 16 in Hl. rewrite Hl. cbn [mbind outcome_bind].
  eexists. split; [done|]. split; [|done].
  assert (Hnone : forall i id, ~ holds (replicate (Z.to_nat max) (mk_node (-1) None)) i id).
  { intros i id [Hne Hi]. rewrite fmap_replicate in Hi.
    apply lookup_replicate in Hi as [-> _]. done. }
  split_and!; [split; simpl| |].
  - rewrite length_replicate. lia.
  - exists k. split; [lia|done].
  - rewrite length_replicate. lia.
  - rewrite fmap_replicate. simpl. clear. induction (Z.to_nat max) as [|n IH]; [done|].
    simpl. rewrite filter_cons, decide_False by (unfold used; lia). done.
  - intros i nd [-> _]%lookup_replicate. done.
  - intros i j id Hi. by destruct (Hnone i id).
  - intros b c [-> _]%lookup_replicate. exists []. split_and!; [constructor|constructor|].
    intros i. split; [by intros ?%not_elem_of_nil|]. intros (id & Hi & _). by destruct (Hnone i id).
  - done.
  - intros id i. split; [by rewrite lookup_empty|]. intros Hi. by destruct (Hnone i id).
Qed.

(** *** A session of the table *)

Inductive hid_op := OpInsert (id : Z) | OpRemove (id : Z) | OpLookup (id : Z).

(** One call, with its result. *)
Definition hid_call (hi : hashid) (op : hid_op) : outcome (Z * hashid) :=
  match op with
  | OpInsert id => hashid_insert hi id
  | OpRemove id => hashid_remove hi id
  | OpLookup id => r ← hashid_lookup hi id; Ret (r, hi)
  end.

Fixpoint hid_run (hi : hashid) (ops : list hid_op) : outcome (list Z * hashid) :=
  match ops with
  | [] => Ret ([], hi)
  | op :: ops =>
      '(r, hi) ← hid_call hi op;
      '(rs, hi) ← hid_run hi ops;
      Ret (r :: rs, hi)
  end.

(** The specification: a finite map from ids to distinct indices below [n].
    An insertion chooses an index no other id has; the caller inserts a new
    non-negative id, and not into a full table. *)
Inductive hid_spec (n : Z) : gmap Z nat -> hid_op -> Z -> gmap Z nat -> Prop :=
| spec_insert m id i : m !! id = None -> Z.of_nat i < n ->
    (forall id', m !! id' <> Some i) ->
    hid_spec n m (OpInsert id) (Z.of_nat i) (<[id := i]> m)
| spec_remove m id : hid_spec n m (OpRemove id) (index_of m id) (delete id m)
| spec_lookup m id : hid_spec n m (OpLookup id) (index_of m id) m.

Inductive hid_specs (n : Z) : gmap Z nat -> list hid_op -> list Z -> gmap Z nat -> Prop :=
| specs_nil m : hid_specs n m [] [] m
| specs_cons m op r m' ops rs m'' : hid_spec n m op r m' -> hid_specs n m' ops rs m'' ->
    hid_specs n m (op :: ops) (r :: rs) m''.

(** The caller's obligations along a session: what is in the table is the set [s]. *)
Fixpoint hid_legal (n : Z) (s : gset Z) (ops : list hid_op) : bool :=
  match ops with
  | [] => true
  | OpInsert id :: ops =>
      bool_decide (0 <= id /\ id + n <= 2 ^ 31 /\ (id ∉ s) /\ Z.of_nat (size s) < n) &&
      hid_legal n ({[id]} ∪ s) ops
  | OpRemove id :: ops => hid_legal n (s ∖ {[id]}) ops
  | OpLookup _ :: ops => hid_legal n s ops
  end.

Lemma holds_bound hi i id : hid_wf hi -> holds (ids hi) i id -> Z.of_nat i < cap hi.
Proof.
  intros Hwf [_ Hi]. apply lookup_lt_Some in Hi. rewrite length_fmap in Hi.
  pose proof (wf_cap _ Hwf). lia.
Qed.

Lemma repr_index hi m id i : repr hi m -> holds (ids hi) i id -> index_of m id = Z.of_nat i.
Proof. intros (_ & _ & Hm) Hi%Hm. unfold index_of. by rewrite Hi. Qed.

Lemma repr_no_index hi m id : repr hi m -> (forall i, ~ holds (ids hi) i id) ->
  index_of m id = -1 /\ m !! id = None.
Proof. intros Hr Hno%(repr_none _ _ _ Hr). unfold index_of. by rewrite Hno. Qed.

Lemma call_insert hi m id :
  repr hi m -> 0 <= id -> id + cap hi <= 2 ^ 31 -> m !! id = None -> Z.of_nat (size m) < cap hi ->
  exists i hi', hashid_insert hi id = Ret (Z.of_nat i, hi') /\ Z.of_nat i < cap hi /\
    (forall id', m !! id' <> Some i) /\ repr hi' (<[id := i]> m) /\ cap hi' = cap hi.
Proof.
  intros (Hwf & Hcnt & Hm) Hid Hmax Hfresh Hsz.
  destruct (hashid_insert_spec hi id) as (i & hi' & -> & Hwf' & Hfree & Hcap & Hc & Hh);
    [done|lia|lia|lia| |].
  { intros i Hi%Hm. congruence. }
  exists i, hi'. split_and!; [done| | | |done].
  - rewrite <- Hcap. apply holds_bound with id; [done|]. apply Hh. by left.
  - intros id' Hi%Hm. by apply Hfree in Hi.
  - split_and!; [done|rewrite map_size_insert_None by done; lia|]. intros x j. rewrite Hh, <- Hm.
    destruct (decide (x = id)) as [->|Hne].
    + rewrite lookup_insert_eq. split; [intros [= ->]; by left|]. intros [[-> _]|?]; congruence.
    + rewrite lookup_insert_ne by done. naive_solver.
Qed.

Lemma call_remove hi m id :
  repr hi m -> exists hi', hashid_remove hi id = Ret (index_of m id, hi') /\
    repr hi' (delete id m) /\ cap hi' = cap hi.
Proof.
  intros Hr. pose proof Hr as (Hwf & Hcnt & Hm).
  destruct (hashid_remove_spec hi id Hwf) as [(i & hi' & Hi & -> & Hwf' & Hcap & Hc & Hh)|[Hno ->]].
  - rewrite (repr_index _ _ _ _ Hr Hi). exists hi'. split_and!; [done| |done].
    apply Hm in Hi as Hmi. split_and!; [done| |].
    { rewrite map_size_delete, Hmi. simpl.
      assert (size m <> 0)%nat; [|lia]. intros ->%map_size_empty_inv.
      by rewrite lookup_empty in Hmi. }
    intros x j. rewrite Hh, <- Hm. destruct (decide (x = id)) as [->|Hne].
    + rewrite lookup_delete_eq. split; [done|]. intros [Hj ?]. congruence.
    + rewrite lookup_delete_ne by done. split; [|tauto]. intros Hj. split; [done|].
      intros ->. apply Hm in Hj. destruct Hj as [_ Hj], Hi as [_ Hi]. congruence.
  - destruct (repr_no_index _ _ _ Hr Hno) as [-> Hn]. exists hi.
    rewrite delete_id by done. done.
Qed.

Lemma call_lookup hi m id : repr hi m -> hashid_lookup hi id = Ret (index_of m id).
Proof.
  intros Hr. pose proof Hr as (Hwf & _).
  destruct (hashid_lookup_spec hi id Hwf) as [(i & Hi & ->)|[Hno ->]].
  - by rewrite (repr_index _ _ _ _ Hr Hi).
  - by rewrite (proj1 (repr_no_index _ _ _ Hr Hno)).
Qed.

Lemma hid_run_repr hi m ops :
  repr hi m -> hid_legal (cap hi) (dom m) ops = true ->
  exists rs hi' m', hid_run hi ops = Ret (rs, hi') /\ hid_specs (cap hi) m ops rs m' /\ repr hi' m'.
Proof.
  revert hi m. induction ops as [|op ops IH]; intros hi m Hr Hl.
  { exists [], hi, m. split_and!; [done|constructor|done]. }
  destruct op as [id|id|id]; simpl in Hl; cbn [hid_run hid_call].
  - apply andb_true_iff in Hl as [(Hid & Hmax & Hs & Hsz)%bool_decide_eq_true Hl].
    apply not_elem_of_dom in Hs. rewrite size_dom in Hsz.
    destruct (call_insert hi m id) as (i & hi' & -> & Hi & Hf & Hr' & Hcap); [done..|].
    rewrite <- dom_insert_L with (x := i), <- Hcap in Hl.
    destruct (IH _ _ Hr' Hl) as (rs & hi'' & m' & He & Hsp & Hr''). rewrite Hcap in Hsp.
    cbn [mbind outcome_bind]. rewrite He. eexists _, hi'', m'. split_and!; [done| |done].
    econstructor; [by constructor|done].
  - destruct (call_remove hi m id Hr) as (hi' & -> & Hr' & Hcap).
    rewrite <- dom_delete_L, <- Hcap in Hl.
    destruct (IH _ _ Hr' Hl) as (rs & hi'' & m' & He & Hsp & Hr''). rewrite Hcap in Hsp.
    cbn [mbind outcome_bind]. rewrite He. eexists _, hi'', m'. split_and!; [done| |done].
    econstructor; [by constructor|done].
  - rewrite (call_lookup hi m id Hr). cbn [mbind outcome_bind].
    destruct (IH _ _ Hr Hl) as (rs & hi'' & m' & He & Hsp & Hr'').
    rewrite He. eexists _, hi'', m'. split_and!; [done| |done].
    econstructor; [by constructor|done].
Qed.

(* ------------------------------------------------------------------ *)
(** ** Properties *)

(** C14: the id table implements a finite map.  From [hashid_init max], every
    sequence of insertions, removals and lookups that respects the callers'
    contract (a new id, a table that is not full) returns, never trips an
    assertion or leaves the array, and answers what a finite map from ids to
    distinct indices below [max] answers; the table it ends in represents the
    map, chains included. *)
Theorem hashid_implements_map max ops :
  0 <= max <= 2 ^ 30 -> hid_legal max ∅ ops = true ->
  exists hi rs hi' m,
    hashid_init max = Ret hi /\ hid_run hi ops = Ret (rs, hi') /\
    hid_specs max ∅ ops rs m /\ repr hi' m.
Proof.
  intros Hmax Hl. destruct (init_repr max Hmax) as (hi & Hi & Hr & Hcap).
  rewrite <- Hcap in Hl. destruct (hid_run_repr hi ∅ ops Hr) as (rs & hi' & m & He & Hs & Hr').
  - by rewrite dom_empty_L.
  - exists hi, rs, hi', m. rewrite Hcap in Hs. done.
Qed.

Lemma hashid_implements_map_witness :
  let ops := [OpInsert 5; OpInsert 21; OpLookup 21; OpRemove 5; OpLookup 5; OpInsert 37] in
  hid_legal 4 ∅ ops = true /\ exists hi rs hi' m,
    hashid_init 4 = Ret hi /\ hid_run hi ops = Ret (rs, hi') /\
    hid_specs 4 ∅ ops rs m /\ repr hi' m.
Proof.
  split; [by vm_compute|]. apply hashid_implements_map; [lia|by vm_compute].
Defined.
