(* ===== verification/DataBuffer.v ===== *)
(** * Receive buffers and the message pool (src/service-src/databuffer.h)

    The buffers of all connections take their list nodes from one shared pool.
    The pool's nodes are an array that grows by [MESSAGEPOOL]; pointers to nodes
    are indices into it.  The theorems show that any interleaving of operations
    on the buffers that share a pool behaves as independent byte queues. *)
From S2P Require Import Prelude.
From stdpp Require Import base list gmap numbers strings.
From Stdlib Require Import ZArith Lia.

Local Open Scope Z_scope.

Definition MESSAGEPOOL : nat := 1023.

Lemma MESSAGEPOOL_pos : (1 < MESSAGEPOOL)%nat.
Proof. apply Nat.ltb_lt. reflexivity. Qed.
#[global] Opaque MESSAGEPOOL.

(** [buffer] is [None] for NULL. *)
Record message := mk_message {
  buffer : option (list Z);
  size : Z;
  next : option nat
}.

Record databuffer := mk_databuffer {
  db_header : Z;
  db_offset : Z;
  db_size : Z;
  db_head : option nat;
  db_tail : option nat
}.

(** [nodes] holds the [pool] arrays of the chunk list, oldest first. *)
Record messagepool := mk_messagepool {
  nodes : list message;
  freelist : option nat
}.

Definition databuffer_zero : databuffer := mk_databuffer 0 0 0 None None.
Definition messagepool_zero : messagepool := mk_messagepool [] None.

Definition messagepool_free (mp : messagepool) : messagepool := messagepool_zero.

(** The dereference of a node pointer. *)
Definition deref (mp : messagepool) (p : option nat) : outcome (nat * message) :=
  match p with
  | None => Crash OutOfBounds
  | Some i => m ← read_at (nodes mp) (Z.of_nat i); Ret (i, m)
  end.

Definition _return_message (db : databuffer) (mp : messagepool)
  : outcome (databuffer * messagepool) :=
  '(i, m) ← deref mp (db_head db);
  db ← match next m with
       | None =>
           if bool_decide (db_tail db = Some i)
           then Ret (mk_databuffer (db_header db) (db_offset db) (db_size db) None None)
           else Crash AssertFailed
       | Some n =>
           Ret (mk_databuffer (db_header db) (db_offset db) (db_size db) (Some n) (db_tail db))
       end;
  Ret (db, mk_messagepool (<[i := mk_message None 0 (freelist mp)]> (nodes mp)) (Some i)).

(** [memcpy] out of a node's buffer. *)
Definition copy_out (m : message) (offset n : Z) : outcome (list Z) :=
  match buffer m with
  | None => if bool_decide (n = 0) then Ret [] else Crash OutOfBounds
  | Some b => read_bytes b offset n
  end.

Definition set_offset (db : databuffer) (off : Z) : databuffer :=
  mk_databuffer (db_header db) off (db_size db) (db_head db) (db_tail db).

(** The [for (;;)] loop of [databuffer_read]; [acc] is what was copied so far. *)
Fixpoint read_loop (fuel : nat) (db : databuffer) (mp : messagepool) (sz : Z) (acc : list Z)
  : outcome (list Z * databuffer * messagepool) :=
  match fuel with
  | O => Crash OutOfFuel
  | S fuel =>
      '(_, current) ← deref mp (db_head db);
      let bsz := i32 (size current - db_offset db) in
      if bool_decide (bsz > sz) then
        bs ← copy_out current (db_offset db) sz;
        Ret (acc ++ bs, set_offset db (i32 (db_offset db + sz)), mp)
      else if bool_decide (bsz = sz) then
        bs ← copy_out current (db_offset db) sz;
        '(db, mp) ← _return_message (set_offset db 0) mp;
        Ret (acc ++ bs, db, mp)
      else
        bs ← copy_out current (db_offset db) bsz;
        '(db, mp) ← _return_message db mp;
        read_loop fuel (set_offset db 0) mp (i32 (sz - bsz)) (acc ++ bs)
  end.

Definition databuffer_read (db : databuffer) (mp : messagepool) (sz : Z)
  : outcome (list Z * databuffer * messagepool) :=
  if bool_decide (db_size db >= sz) then
    read_loop (S (length (nodes mp)))
      (mk_databuffer (db_header db) (db_offset db) (i32 (db_size db - sz)) (db_head db) (db_tail db))
      mp sz []
  else Crash AssertFailed.

(** A new chunk at index [base], its nodes linked in order.  Node 0 is handed
    out at once; its uninitialised fields are written before any read. *)
Definition chunk_node (n base i : nat) : message :=
  mk_message None 0 (if decide (S i = n) then None else Some (base + S i)%nat).

Definition new_chunk (base : nat) : list message :=
  chunk_node MESSAGEPOOL base <$> seq 0 MESSAGEPOOL.

Definition databuffer_push (db : databuffer) (mp : messagepool) (data : list Z)
  : outcome (databuffer * messagepool) :=
  '(m, mp) ← match freelist mp with
             | Some m =>
                 nd ← read_at (nodes mp) (Z.of_nat m);
                 Ret (m, mk_messagepool (nodes mp) (next nd))
             | None =>
                 let base := length (nodes mp) in
                 Ret (base, mk_messagepool (nodes mp ++ new_chunk base) (Some (base + 1)%nat))
             end;
  let sz := Z.of_nat (length data) in
  ns ← write_at (nodes mp) (Z.of_nat m) (mk_message (Some data) sz None);
  let total := i32 (db_size db + sz) in
  match db_head db with
  | None =>
      if bool_decide (db_tail db = None) then
        Ret (mk_databuffer (db_header db) (db_offset db) total (Some m) (Some m),
             mk_messagepool ns (freelist mp))
      else Crash AssertFailed
  | Some h =>
      '(t, tl) ← deref (mk_messagepool ns (freelist mp)) (db_tail db);
      ns ← write_at ns (Z.of_nat t) (mk_message (buffer tl) (size tl) (Some m));
      Ret (mk_databuffer (db_header db) (db_offset db) total (Some h) (Some m),
           mk_messagepool ns (freelist mp))
  end.

(** The value of a header read into [plen]. *)
Definition header_value (header_size : Z) (plen : list Z) : outcome Z :=
  p0 ← read_at plen 0;
  p1 ← read_at plen 1;
  if bool_decide (header_size = 2) then Ret (Z.lor (Z.shiftl p0 8) p1)
  else
    p2 ← read_at plen 2;
    p3 ← read_at plen 3;
    Ret (i32 (Z.lor (Z.lor (Z.lor (Z.shiftl p0 24) (Z.shiftl p1 16)) (Z.shiftl p2 8)) p3)).

Definition set_header (db : databuffer) (h : Z) : databuffer :=
  mk_databuffer h (db_offset db) (db_size db) (db_head db) (db_tail db).

Definition databuffer_readheader (db : databuffer) (mp : messagepool) (header_size : Z)
  : outcome (Z * databuffer * messagepool) :=
  if bool_decide (db_header db = 0) then
    if bool_decide (db_size db < header_size) then Ret (-1, db, mp)
    else
      '(plen, db, mp) ← databuffer_read db mp header_size;
      h ← header_value header_size plen;
      let db := set_header db h in
      Ret (if bool_decide (db_size db < h) then -1 else h, db, mp)
  else Ret (if bool_decide (db_size db < db_header db) then -1 else db_header db, db, mp).

Definition databuffer_reset (db : databuffer) : databuffer := set_header db 0.

(** [while (db->head) _return_message(db,mp);] *)
Fixpoint clear_loop (fuel : nat) (db : databuffer) (mp : messagepool) : outcome messagepool :=
  match db_head db with
  | None => Ret mp
  | Some _ =>
      match fuel with
      | O => Crash OutOfFuel
      | S fuel => '(db, mp) ← _return_message db mp; clear_loop fuel db mp
      end
  end.

Definition databuffer_clear (db : databuffer) (mp : messagepool)
  : outcome (databuffer * messagepool) :=
  mp ← clear_loop (length (nodes mp)) db mp;
  Ret (databuffer_zero, mp).

(* ------------------------------------------------------------------ *)
(** ** Representation *)

(** The bytes node [i] carries. *)
Definition node_bytes (ns : list message) (i : nat) : list Z :=
  match ns !! i with
  | Some m => default [] (buffer m)
  | None => []
  end.

Definition stored (ns : list message) (l : list nat) : list Z := concat (node_bytes ns <$> l).

Definition node_ok (ns : list message) (i : nat) : Prop :=
  exists m b, ns !! i = Some m /\ buffer m = Some b /\ size m = Z.of_nat (length b).

(** Where reading starts: inside the first node. *)
Definition offset_ok (ns : list message) (off : Z) (l : list nat) : Prop :=
  0 <= off /\ match l with
              | [] => off = 0
              | h :: _ => off <= Z.of_nat (length (node_bytes ns h))
              end.

(** The buffer's nodes are [l], and from its offset on they hold [bs]; no more
    than [M] bytes are kept. *)
Record db_chain (M : Z) (ns : list message) (db : databuffer) (l : list nat) (bs : list Z) : Prop := {
  dr_linked : linked next ns (db_head db) l;
  dr_tail : db_tail db = last l;
  dr_nodes : Forall (node_ok ns) l;
  dr_offset : offset_ok ns (db_offset db) l;
  dr_bytes : bs = drop (Z.to_nat (db_offset db)) (stored ns l);
  dr_max : db_offset db + Z.of_nat (length bs) <= M
}.

(** Between two calls the size field counts the bytes. *)
Definition db_repr (M : Z) (ns : list message) (db : databuffer) (l : list nat) (bs : list Z)
  : Prop :=
  db_chain M ns db l bs /\ db_size db = Z.of_nat (length bs).

Lemma node_bytes_ext ns ns' i : ns' !! i = ns !! i -> node_bytes ns' i = node_bytes ns i.
Proof. intros H. unfold node_bytes. by rewrite H. Qed.

Lemma stored_ext ns ns' l : (forall i, i ∈ l -> ns' !! i = ns !! i) -> stored ns' l = stored ns l.
Proof.
  intros H. unfold stored. f_equal. apply list_fmap_ext. intros i x Hx.
  apply node_bytes_ext, H. by eapply list_elem_of_lookup_2.
Qed.

Lemma db_chain_mono M M' ns db l bs : M <= M' -> db_chain M ns db l bs -> db_chain M' ns db l bs.
Proof. intros HM []. split; [done..|lia]. Qed.

Lemma db_chain_ext M ns ns' db l bs :
  (forall i, i ∈ l -> ns' !! i = ns !! i) -> db_chain M ns db l bs -> db_chain M ns' db l bs.
Proof.
  intros He [H1 H2 H3 H4 H5 H6]. split; [by eapply linked_ext|done| | | |done].
  - rewrite Forall_forall in H3 |- *. intros i Hi. unfold node_ok. rewrite He by done. by apply H3.
  - unfold offset_ok in *. destruct l as [|h l]; [done|].
    rewrite (node_bytes_ext ns ns') by (apply He; set_solver). done.
  - by rewrite (stored_ext ns ns').
Qed.

(** The pool's free nodes are [fl]; the buffer's [l] and the other buffers' [r]
    are apart from them and from each other. *)
Definition pool_repr (mp : messagepool) (fl l r : list nat) : Prop :=
  linked next (nodes mp) (freelist mp) fl /\ NoDup (fl ++ l ++ r) /\
  forall i, i ∈ r -> (i < length (nodes mp))%nat.

Lemma return_message_spec db mp fl h l r :
  linked next (nodes mp) (Some h) (h :: l) -> db_head db = Some h -> db_tail db = last (h :: l) ->
  pool_repr mp fl (h :: l) r ->
  exists mp', _return_message db mp =
      Ret (mk_databuffer (db_header db) (db_offset db) (db_size db) (head l) (last l), mp') /\
    pool_repr mp' (h :: fl) l r /\ length (nodes mp') = length (nodes mp) /\
    forall i, i <> h -> nodes mp' !! i = nodes mp !! i.
Proof.
  intros Hl Hh Ht (Hfl & Hn & Hr0). inversion Hl as [|? m ? Hm Hr]; subst.
  unfold _return_message, deref. rewrite Hh, (read_at_Some _ _ _ Hm). cbn [mbind outcome_bind].
  assert (Hlt : (h < length (nodes mp))%nat) by (by eapply lookup_lt_Some).
  assert (Hnh : (h ∉ fl) /\ NoDup (h :: fl ++ l ++ r)).
  { rewrite NoDup_app in Hn. destruct Hn as (Hn1 & Hn2 & Hn3). simpl in Hn3.
    apply NoDup_cons in Hn3 as [Hn3 Hn4]. split; [set_solver|].
    rewrite NoDup_cons, NoDup_app. set_solver. }
  destruct Hnh as [Hnh Hn'].
  set (mp' := mk_messagepool (<[h := mk_message None 0 (freelist mp)]> (nodes mp)) (Some h)).
  exists mp'. rewrite (linked_head _ _ _ _ Hr).
  assert (Hpool : pool_repr mp' (h :: fl) l r).
  { split; [|split; [done|unfold mp'; simpl; by rewrite length_insert]].
    apply linked_cons with (mk_message None 0 (freelist mp)).
    - by apply list_lookup_insert_eq.
    - by apply linked_insert_ne. }
  split; [|split_and!; [done|apply length_insert|]].
  - destruct l as [|h' l]; simpl.
    + rewrite bool_decide_true by (by rewrite Ht). done.
    + simpl in Ht. rewrite Ht. done.
  - intros i Hi. by apply list_lookup_insert_ne.
Qed.

Lemma stored_cons ns h l : stored ns (h :: l) = node_bytes ns h ++ stored ns l.
Proof. done. Qed.

(** Dropping the first node, fully read. *)
Lemma db_chain_tail M ns db h l bs :
  db_chain M ns db (h :: l) bs ->
  db_chain M ns (mk_databuffer (db_header db) 0 (db_size db) (head l) (last l)) l (stored ns l) /\
  exists m b, ns !! h = Some m /\ buffer m = Some b /\ size m = Z.of_nat (length b) /\
    0 <= db_offset db <= Z.of_nat (length b) /\
    bs = drop (Z.to_nat (db_offset db)) b ++ stored ns l.
Proof.
  intros [H1 H2 H3 H4 H5 H6]. inversion H1 as [|? m0 ? Hm0 Hr]; subst.
  apply Forall_cons in H3 as [(m & b & Hm & Hb & Hs) H3].
  assert (Hnb : node_bytes ns h = b) by (unfold node_bytes; by rewrite Hm, Hb).
  destruct H4 as [Ho1 Ho2]. rewrite Hnb in Ho2. rewrite stored_cons, Hnb in *.
  rewrite drop_app_le in H6 |- * by lia. rewrite length_app in H6.
  split.
  - split; simpl; [by rewrite <- (linked_head _ _ _ _ Hr)|done|done| |done|lia].
    split; [lia|]. destruct l; lia.
  - exists m, b. split_and!; [done..|lia|lia|done].
Qed.

Lemma copy_out_spec m b off n :
  buffer m = Some b -> 0 <= off -> 0 <= n -> off + n <= Z.of_nat (length b) ->
  copy_out m off n = Ret (take (Z.to_nat n) (drop (Z.to_nat off) b)).
Proof. intros Hb ???. unfold copy_out. rewrite Hb. unfold read_bytes. by rewrite decide_True. Qed.

Lemma read_loop_spec M fuel db mp fl l r bs sz acc :
  M < 2 ^ 31 -> db_chain M (nodes mp) db l bs -> pool_repr mp fl l r -> (length l < fuel)%nat ->
  0 < sz <= Z.of_nat (length bs) ->
  exists db' mp' fl' l',
    read_loop fuel db mp sz acc = Ret (acc ++ take (Z.to_nat sz) bs, db', mp') /\
    db_chain M (nodes mp') db' l' (drop (Z.to_nat sz) bs) /\ pool_repr mp' fl' l' r /\
    db_header db' = db_header db /\ db_size db' = db_size db /\
    length (nodes mp') = length (nodes mp) /\
    forall i, i ∉ l -> nodes mp' !! i = nodes mp !! i.
Proof.
  intros HM. revert db mp fl l bs sz acc. induction fuel as [|fuel IH];
    intros db mp fl l bs sz acc Hdb Hp Hf Hsz; [lia|].
  destruct l as [|h l].
  { destruct Hdb as [_ _ _ _ -> _]. change (stored _ []) with (@nil Z) in Hsz.
    rewrite drop_nil in Hsz. simpl in Hsz. lia. }
  destruct (db_chain_tail _ _ _ _ _ _ Hdb) as (Htl & m & b & Hm & Hb & Hs & Ho & Hbs).
  pose proof (dr_max _ _ _ _ _ Hdb) as Hmax. pose proof (dr_linked _ _ _ _ _ Hdb) as Hl.
  pose proof (linked_head _ _ _ _ Hl) as Hhd. rewrite Hhd in Hl. simpl in Hl.
  set (d := drop (Z.to_nat (db_offset db)) b) in *.
  assert (Hd : Z.of_nat (length d) = size m - db_offset db)
    by (unfold d; rewrite length_drop; lia).
  assert (Hlb : length bs = (length d + length (stored (nodes mp) l))%nat)
    by (rewrite Hbs, length_app; done).
  cbn [read_loop]. unfold deref at 1. rewrite Hhd. cbn [head]. rewrite (read_at_Some _ _ _ Hm).
  cbn [mbind outcome_bind]. rewrite (i32_small (size m - db_offset db)) by (unfold is_i32; lia).
  repeat case_bool_decide.
  - rewrite (copy_out_spec m b) by first [done|lia]. cbn [mbind outcome_bind]. fold d.
    rewrite i32_small by (unfold is_i32; lia).
    exists (set_offset db (db_offset db + sz)), mp, fl, (h :: l).
    rewrite Hbs, take_app_le, drop_app_le by lia.
    split_and!; [done| |done..]. destruct Hdb as [D1 D2 D3 D4 D5 D6].
    assert (Hnb : node_bytes (nodes mp) h = b) by (unfold node_bytes; by rewrite Hm, Hb).
    split; simpl; [done|done|done| | |].
    + split; [lia|]. rewrite Hnb. lia.
    + rewrite stored_cons, Hnb, drop_app_le by lia. unfold d. rewrite drop_drop. do 2 f_equal. lia.
    + rewrite length_app, length_drop. lia.
  - rewrite (copy_out_spec m b) by first [done|lia]. cbn [mbind outcome_bind]. fold d.
    destruct (return_message_spec (set_offset db 0) mp fl h l r) as (mp' & -> & Hp' & Hlen & Hframe);
      [done|exact Hhd|exact (dr_tail _ _ _ _ _ Hdb)|done|]. cbn [mbind outcome_bind].
    assert (Hhl : h ∉ l) by (destruct Hp as (_ & Hp & _); rewrite !NoDup_app, NoDup_cons in Hp; tauto).
    eexists _, mp', (h :: fl), l. rewrite Hbs, take_app_length', drop_app_length' by lia.
    rewrite take_ge by lia. split_and!; [done| |done|done|done|done|].
    + eapply db_chain_ext; [|exact Htl]. intros; apply Hframe; set_solver.
    + intros i Hi. apply Hframe. set_solver.
  - rewrite (copy_out_spec m b) by first [done|lia]. cbn [mbind outcome_bind]. fold d.
    destruct (return_message_spec db mp fl h l r) as (mp' & -> & Hp' & Hlen & Hframe);
      [done|exact Hhd|exact (dr_tail _ _ _ _ _ Hdb)|done|]. cbn [mbind outcome_bind].
    assert (Hhl : h ∉ l) by (destruct Hp as (_ & Hp & _); rewrite !NoDup_app, NoDup_cons in Hp; tauto).
    rewrite i32_small by (unfold is_i32; lia). unfold set_offset. cbn [db_header db_size db_head db_tail].
    edestruct (IH (mk_databuffer (db_header db) 0 (db_size db) (head l) (last l)) mp' (h :: fl) l
      (stored (nodes mp) l) (sz - (size m - db_offset db)))
      as (db' & mp'' & fl' & l' & -> & Hdb' & Hp'' & Hh' & Hs' & Hlen' & Hframe').
    + eapply db_chain_ext; [|exact Htl]. intros; apply Hframe; set_solver.
    + done.
    + simpl in Hf. lia.
    + lia.
    + exists db', mp'', fl', l'. split_and!; [| |done|done|done|lia|].
      * rewrite Hbs. rewrite take_app_ge by lia. rewrite take_ge by lia. rewrite <- app_assoc.
        repeat f_equal. lia.
      * rewrite Hbs, drop_app_ge by lia. by replace (Z.to_nat sz - length d)%nat
          with (Z.to_nat (sz - (size m - db_offset db))) by lia.
      * intros i Hi. rewrite Hframe' by set_solver. apply Hframe. set_solver.
Qed.

Lemma chunk_linked n base pre k j :
  length pre = base -> (0 < k)%nat -> (j + k = n)%nat ->
  linked next (pre ++ (chunk_node n base <$> seq 0 n)) (Some (base + j)%nat) (seq (base + j) k).
Proof. by apply linked_fresh. Qed.

(** Taking a node from the pool: the code before [m->buffer = data]. *)
Lemma alloc_spec mp fl l r :
  pool_repr mp fl l r -> (forall i, i ∈ l -> (i < length (nodes mp))%nat) ->
  exists m mp' fl',
    match freelist mp with
    | Some m => nd ← read_at (nodes mp) (Z.of_nat m); Ret (m, mk_messagepool (nodes mp) (next nd))
    | None => Ret (length (nodes mp), mk_messagepool (nodes mp ++ new_chunk (length (nodes mp)))
                                        (Some (length (nodes mp) + 1)%nat))
    end = Ret (m, mp') /\
    linked next (nodes mp') (freelist mp') fl' /\ NoDup (m :: fl' ++ l ++ r) /\
    (m < length (nodes mp'))%nat /\ (length (nodes mp) <= length (nodes mp'))%nat /\
    forall i, i ∈ l ++ r -> nodes mp' !! i = nodes mp !! i.
Proof.
  intros (Hfl & Hn & Hr) Hl. destruct (freelist mp) as [m|] eqn:E.
  - inversion Hfl as [|? nd fl' Hm Hr']; subst. rewrite (read_at_Some _ _ _ Hm).
    exists m, (mk_messagepool (nodes mp) (next nd)), fl'. split_and!; [done|done|done| |done|done].
    by eapply lookup_lt_Some.
  - inversion Hfl; subst.
    set (base := length (nodes mp)) in *.
    exists base, (mk_messagepool (nodes mp ++ new_chunk base) (Some (base + 1)%nat)),
      (seq (base + 1) (MESSAGEPOOL - 1)).
    assert (Hlen : length (new_chunk base) = MESSAGEPOOL)
      by (unfold new_chunk; by rewrite length_fmap, length_seq).
    pose proof MESSAGEPOOL_pos as Hpos.
    assert (Hold : forall i, i ∈ l ++ r -> (i < base)%nat) by (intros i [?|?]%elem_of_app; auto).
    split_and!; simpl; [done| | | | |].
    + apply chunk_linked; [done|lia|lia].
    + apply NoDup_cons. split.
      * intros [Hi%elem_of_seq|Hi%Hold]%elem_of_app; lia.
      * apply NoDup_app. split_and!; [apply NoDup_seq| |done].
        intros i Hi%elem_of_seq Hi'%Hold. lia.
    + rewrite length_app, Hlen. unfold base in *. lia.
    + rewrite length_app. lia.
    + intros i Hi%Hold. by apply lookup_app_l.
Qed.

Lemma stored_app ns l1 l2 : stored ns (l1 ++ l2) = stored ns l1 ++ stored ns l2.
Proof. unfold stored. by rewrite fmap_app, concat_app. Qed.

(** The list after [tail->next = m; tail = m]. *)
Lemma db_chain_snoc M ns db l t m (data : list Z) bs tl :
  db_chain M ns db (l ++ [t]) bs -> NoDup (l ++ [t]) -> m ∉ l ++ [t] ->
  (m < length ns)%nat -> ns !! t = Some tl ->
  let ns' := <[t := mk_message (buffer tl) (size tl) (Some m)]>
               (<[m := mk_message (Some data) (Z.of_nat (length data)) None]> ns) in
  db_chain (M + Z.of_nat (length data)) ns'
    (mk_databuffer (db_header db) (db_offset db) (db_size db + Z.of_nat (length data))
       (db_head db) (Some m)) (l ++ [t; m]) (bs ++ data).
Proof.
  intros [H1 H2 H3 H4 H5 H6] Hn Hm Hlt Ht ns'.
  assert (Htlt : (t < length ns)%nat) by (by eapply lookup_lt_Some).
  assert (Htm : t <> m) by set_solver.
  assert (Hl : forall i, i ∈ l -> ns' !! i = ns !! i).
  { intros i Hi. unfold ns'. rewrite !list_lookup_insert_ne; [done|set_solver|].
    rewrite NoDup_app in Hn. set_solver. }
  assert (Ht' : ns' !! t = Some (mk_message (buffer tl) (size tl) (Some m)))
    by (apply list_lookup_insert_eq; by rewrite length_insert).
  assert (Hm' : ns' !! m = Some (mk_message (Some data) (Z.of_nat (length data)) None))
    by (unfold ns'; rewrite list_lookup_insert_ne by done; by apply list_lookup_insert_eq).
  assert (Hbt : node_bytes ns' t = node_bytes ns t) by (unfold node_bytes; by rewrite Ht', Ht).
  assert (Hst : stored ns' (l ++ [t; m]) = stored ns (l ++ [t]) ++ data).
  { change [t; m] with ([t] ++ [m]). rewrite app_assoc, stored_app. f_equal.
    - rewrite !stored_app, (stored_ext ns ns') by done. f_equal. unfold stored. simpl.
      by rewrite Hbt.
    - unfold stored, node_bytes. simpl. rewrite Hm'. simpl. by rewrite app_nil_r. }
  assert (Hoff : (Z.to_nat (db_offset db) <= length (stored ns (l ++ [t])))%nat).
  { destruct H4 as [Ho Ho']. destruct (l ++ [t]) eqn:E; [by destruct l|].
    rewrite stored_cons, length_app. lia. }
  split; simpl.
  - eapply linked_snoc; [exact H1|done|done|exact Ht'|done|exact Hm'|done].
  - change [t; m] with ([t] ++ [m]). by rewrite app_assoc, last_snoc.
  - rewrite Forall_app in H3 |- *. destruct H3 as [H3 Ht3]. split.
    + rewrite Forall_forall in H3 |- *. intros i Hi. unfold node_ok. rewrite Hl by done. by apply H3.
    + apply Forall_singleton in Ht3 as (m0 & b & Hm0 & Hb & Hs). simplify_eq.
      repeat constructor; [exists (mk_message (buffer m0) (size m0) (Some m)), b; done|].
      exists (mk_message (Some data) (Z.of_nat (length data)) None), data. done.
  - destruct H4 as [Ho Ho']. split; [done|]. destruct l as [|h l]; simpl in *.
    + by rewrite Hbt.
    + by rewrite (node_bytes_ext ns ns') by (apply Hl; set_solver).
  - rewrite Hst, drop_app_le by done. by rewrite H5.
  - rewrite length_app. lia.
Qed.

Lemma push_spec M db mp fl l r bs data :
  M + Z.of_nat (length data) < 2 ^ 31 ->
  db_repr M (nodes mp) db l bs -> pool_repr mp fl l r ->
  exists db' mp' fl' l',
    databuffer_push db mp data = Ret (db', mp') /\
    db_repr (M + Z.of_nat (length data)) (nodes mp') db' l' (bs ++ data) /\
    pool_repr mp' fl' l' r /\ db_header db' = db_header db /\
    forall i, i ∈ r -> nodes mp' !! i = nodes mp !! i.
Proof.
  intros HM [Hc Hsz] Hp. pose proof Hc as [H1 H2 H3 H4 H5 H6].
  assert (Hlt : forall i, i ∈ l -> (i < length (nodes mp))%nat).
  { intros i Hi. destruct (linked_lookup _ _ _ _ _ H1 Hi). by eapply lookup_lt_Some. }
  destruct (alloc_spec mp fl l r Hp Hlt) as (m & mp1 & fl1 & Ha & Hfl & Hn & Hm & Hlen & Hold).
  unfold databuffer_push. rewrite Ha. cbn [mbind outcome_bind].
  rewrite write_at_lt by done. cbn [mbind outcome_bind].
  assert (Ho : 0 <= db_offset db) by (by destruct H4).
  rewrite i32_small by (unfold is_i32; lia).
  set (new := mk_message (Some data) (Z.of_nat (length data)) None).
  apply NoDup_cons in Hn as [Hmn Hn].
  assert (Hlt' : forall i, i ∈ r -> (i < length (nodes mp1))%nat)
    by (intros i Hi; destruct Hp as (_ & _ & Hp); apply Hp in Hi; lia).
  rewrite (linked_head _ _ _ _ H1). destruct (decide (l = [])) as [->|Hne].
  - simpl in *. rewrite bool_decide_true by done.
    set (ns := <[m := new]> (nodes mp1)).
    eexists _, (mk_messagepool ns (freelist mp1)), fl1, [m]. split_and!; [done| | |done|].
    + assert (Hnew : ns !! m = Some new) by (by apply list_lookup_insert_eq).
      assert (bs = []) as -> by (rewrite H5; unfold stored; simpl; apply drop_nil).
      destruct H4 as [_ H4]. split; [split; simpl| simpl in *; lia].
      * apply linked_cons with new; [done|constructor].
      * done.
      * repeat constructor. exists new, data. done.
      * split; [lia|]. rewrite H4. lia.
      * rewrite H4. unfold stored, node_bytes. simpl. rewrite Hnew. simpl. by rewrite app_nil_r.
      * rewrite H4 in *. lia.
    + split; [apply linked_insert_ne; [set_solver|done]|split].
      * apply NoDup_middle. done.
      * intros i Hi. unfold ns. simpl. rewrite length_insert. by apply Hlt'.
    + intros i Hi. unfold ns. simpl. rewrite list_lookup_insert_ne by set_solver. apply Hold. set_solver.
  - destruct (exists_last Hne) as (l0 & t & ->).
    assert (Hnl : NoDup (l0 ++ [t])) by (rewrite !NoDup_app in Hn; rewrite NoDup_app; tauto).
    assert (Hml : m ∉ l0 ++ [t]) by set_solver.
    rewrite <- app_assoc in Hn, Hmn.
    assert (Ht : (t ∉ fl1) /\ (t ∉ r)).
    { rewrite app_assoc in Hn. apply NoDup_middle in Hn as [Hn _]. set_solver. }
    assert (Hn' : NoDup (fl1 ++ (l0 ++ [t; m]) ++ r)).
    { rewrite <- app_assoc. change ([t; m] ++ r) with ([t] ++ m :: r).
      rewrite !app_assoc. apply NoDup_middle. rewrite <- !app_assoc. done. }
    assert (Htt : exists tl, nodes mp1 !! t = Some tl).
    { rewrite Hold by set_solver. eapply linked_lookup; [exact H1|set_solver]. }
    destruct Htt as (tl & Htl). assert (Htm : m <> t) by set_solver.
    pose proof (db_chain_snoc M (nodes mp1) db l0 t m data bs tl) as Hsn.
    destruct (head (l0 ++ [t])) as [h|] eqn:Eh; [|by destruct l0].
    rewrite H2, last_snoc. unfold deref. cbn [nodes].
    rewrite (read_at_Some _ t tl) by (by rewrite list_lookup_insert_ne). cbn [mbind outcome_bind].
    rewrite write_at_lt by (rewrite length_insert; by eapply lookup_lt_Some). cbn [mbind outcome_bind].
    eexists _, (mk_messagepool _ (freelist mp1)), fl1, (l0 ++ [t; m]). split_and!; [done| | |done|].
    + split; [|simpl; rewrite Hsz, length_app; lia].
      rewrite Hsz. rewrite <- Hsz. rewrite <- Eh, <- (linked_head _ _ _ _ H1). apply Hsn; try done.
      eapply db_chain_ext; [|done]. intros i Hi. apply Hold. set_solver.
    + split; [|split].
      * simpl. apply linked_insert_ne; [tauto|].
        apply linked_insert_ne; [set_solver|done].
      * done.
      * intros i Hi. simpl. rewrite !length_insert. by apply Hlt'.
    + intros i Hi. simpl. rewrite !list_lookup_insert_ne; [apply Hold; set_solver|set_solver|].
      intros ->. by destruct Ht.
Qed.

Lemma read_spec M db mp fl l r bs sz :
  M < 2 ^ 31 -> db_repr M (nodes mp) db l bs -> pool_repr mp fl l r ->
  0 < sz <= Z.of_nat (length bs) ->
  exists db' mp' fl' l',
    databuffer_read db mp sz = Ret (take (Z.to_nat sz) bs, db', mp') /\
    db_repr M (nodes mp') db' l' (drop (Z.to_nat sz) bs) /\ pool_repr mp' fl' l' r /\
    db_header db' = db_header db /\ forall i, i ∈ r -> nodes mp' !! i = nodes mp !! i.
Proof.
  intros HM [Hc Hs] Hp Hsz. unfold databuffer_read. rewrite bool_decide_true by lia.
  pose proof (dr_max _ _ _ _ _ Hc) as Hmax. destruct (dr_offset _ _ _ _ _ Hc) as [Ho _].
  rewrite i32_small by (unfold is_i32; lia).
  pose proof Hp as (_ & Hn & _).
  destruct (read_loop_spec M (S (length (nodes mp)))
    (mk_databuffer (db_header db) (db_offset db) (db_size db - sz) (db_head db) (db_tail db))
    mp fl l r bs sz []) as (db' & mp' & fl' & l' & He & Hc' & Hp' & Hh & Hsz' & _ & Hframe);
    [done|by destruct Hc; split|done| |done|].
  { rewrite !NoDup_app in Hn.
    pose proof (linked_length _ _ _ _ (dr_linked _ _ _ _ _ Hc)). lia || (apply Nat.lt_succ_r; tauto). }
  exists db', mp', fl', l'. split_and!; [exact He|split; [done|]|done|done|].
  - rewrite Hsz', length_drop. simpl. lia.
  - intros i Hi. apply Hframe. rewrite !NoDup_app in Hn. set_solver.
Qed.

(** The specification of [databuffer_readheader] on a header field [h] and the
    queued bytes: the result, the new header field and the bytes left. *)
Definition decode_header (plen : list Z) : Z := i32 (be_value plen).

Definition ready (h : Z) (bs : list Z) : Z := if bool_decide (Z.of_nat (length bs) < h) then -1 else h.

Definition spec_readheader (h : Z) (bs : list Z) (hs : nat) : Z * Z * list Z :=
  if bool_decide (h = 0) then
    if bool_decide ((length bs < hs)%nat) then (-1, h, bs)
    else let h' := decode_header (take hs bs) in
         let bs' := drop hs bs in (ready h' bs', h', bs')
  else (ready h bs, h, bs).

Lemma header_value_spec hs plen :
  hs = 2%nat \/ hs = 4%nat -> length plen = hs -> Bytes plen ->
  header_value (Z.of_nat hs) plen = Ret (decode_header plen).
Proof.
  intros [-> | ->] Hlen Hb; unfold decode_header, be_value.
  - destruct plen as [|p0 [|p1 [|]]]; try done. cbv [header_value]. simpl.
    rewrite !Forall_cons in Hb. destruct Hb as (H0 & H1 & _). unfold is_byte in *.
    change (read_at [p0; p1] 0) with (Ret p0). change (read_at [p0; p1] 1) with (Ret p1).
    cbn [mbind outcome_bind]. rewrite Z.lor_comm, lor_shiftl_add by lia.
    rewrite i32_small by (unfold is_i32; lia). do 2 f_equal. lia.
  - destruct plen as [|p0 [|p1 [|p2 [|p3 [|]]]]]; try done. cbv [header_value]. simpl.
    rewrite !Forall_cons in Hb. destruct Hb as (H0 & H1 & H2 & H3 & _). unfold is_byte in *.
    change (read_at [p0; p1; p2; p3] 0) with (Ret p0).
    change (read_at [p0; p1; p2; p3] 1) with (Ret p1).
    change (read_at [p0; p1; p2; p3] 2) with (Ret p2).
    change (read_at [p0; p1; p2; p3] 3) with (Ret p3).
    cbn [mbind outcome_bind]. f_equal. f_equal.
    rewrite (Z.lor_comm _ p3), (Z.lor_comm (Z.lor _ _) (Z.shiftl p2 8)), Z.lor_assoc,
      (lor_shiftl_add p3) by lia.
    rewrite (Z.lor_comm (Z.shiftl p0 24)), Z.lor_assoc, (lor_shiftl_add _ p1) by lia.
    rewrite (lor_shiftl_add _ p0) by lia. lia.
Qed.

Lemma readheader_spec M db mp fl l r bs hs :
  M < 2 ^ 31 -> db_repr M (nodes mp) db l bs -> pool_repr mp fl l r ->
  hs = 2%nat \/ hs = 4%nat -> Bytes bs ->
  let '(ret, h', bs') := spec_readheader (db_header db) bs hs in
  exists db' mp' fl' l',
    databuffer_readheader db mp (Z.of_nat hs) = Ret (ret, db', mp') /\
    db_repr M (nodes mp') db' l' bs' /\ pool_repr mp' fl' l' r /\ db_header db' = h' /\
    forall i, i ∈ r -> nodes mp' !! i = nodes mp !! i.
Proof.
  intros HM Hdb Hp Hhs Hb. pose proof Hdb as [_ Hs].
  unfold databuffer_readheader, spec_readheader, ready. rewrite Hs.
  case_bool_decide as Hh; [|by exists db, mp, fl, l].
  case_bool_decide as Hlt.
  { rewrite bool_decide_true by lia. by exists db, mp, fl, l. }
  rewrite bool_decide_false by lia.
  destruct (read_spec M db mp fl l r bs (Z.of_nat hs)) as (db' & mp' & fl' & l' & He & Hdb' & Hp' & Hh' & Hf);
    [done..|lia|]. rewrite Nat2Z.id in *. rewrite He. cbn [mbind outcome_bind].
  rewrite header_value_spec by first [done | rewrite length_take; lia | by apply Forall_take].
  cbn [mbind outcome_bind]. destruct Hdb' as [Hc' Hs'].
  exists (set_header db' (decode_header (take hs bs))), mp', fl', l'.
  split_and!; [|split; [by destruct Hc'; split|done]|done|done|done].
  simpl. by rewrite Hs'.
Qed.

Lemma clear_loop_spec fuel db mp fl l r :
  linked next (nodes mp) (db_head db) l -> db_tail db = last l -> pool_repr mp fl l r ->
  (length l <= fuel)%nat ->
  exists mp' fl', clear_loop fuel db mp = Ret mp' /\ pool_repr mp' fl' [] r /\
    forall i, i ∈ r -> nodes mp' !! i = nodes mp !! i.
Proof.
  revert db mp fl l. induction fuel as [|fuel IH]; intros db mp fl l Hl Ht Hp Hf.
  - destruct l; [|simpl in Hf; lia]. simpl. rewrite (linked_head _ _ _ _ Hl). by exists mp, fl.
  - cbn [clear_loop]. rewrite (linked_head _ _ _ _ Hl). destruct l as [|h l]; [by exists mp, fl|].
    pose proof (linked_head _ _ _ _ Hl) as Hh. rewrite Hh in Hl. cbn [head] in *.
    destruct (return_message_spec db mp fl h l r) as (mp' & -> & Hp' & Hlen & Hframe); [done..|].
    cbn [mbind outcome_bind]. destruct Hp as (_ & Hn & _).
    assert (Hhl : (h ∉ l) /\ (h ∉ r)) by (rewrite !NoDup_app, NoDup_cons in Hn; set_solver).
    edestruct (IH (mk_databuffer (db_header db) (db_offset db) (db_size db) (head l) (last l)) mp'
      (h :: fl) l) as (mp'' & fl'' & -> & Hp'' & Hframe'); [|done|done|simpl in Hf; lia|].
    + inversion Hl as [|? ? ? ? Hr]; subst. simpl. rewrite <- (linked_head _ _ _ _ Hr).
      eapply linked_ext; [done|]. intros i Hi. apply Hframe. set_solver.
    + exists mp'', fl''. split_and!; [done|done|]. intros i Hi.
      rewrite Hframe' by done. apply Hframe. set_solver.
Qed.

Lemma clear_spec M db mp fl l r bs :
  db_repr M (nodes mp) db l bs -> pool_repr mp fl l r ->
  exists mp' fl', databuffer_clear db mp = Ret (databuffer_zero, mp') /\ pool_repr mp' fl' [] r /\
    forall i, i ∈ r -> nodes mp' !! i = nodes mp !! i.
Proof.
  intros [Hc _] Hp. pose proof Hp as (_ & Hn & _).
  destruct (clear_loop_spec (length (nodes mp)) db mp fl l r) as (mp' & fl' & He & ?);
    [by destruct Hc|by destruct Hc|done| |].
  - eapply linked_length; [by destruct Hc|]. rewrite !NoDup_app in Hn. tauto.
  - exists mp', fl'. unfold databuffer_clear. rewrite He. done.
Qed.

(** ** Sessions of several buffers over one pool *)

Inductive db_op :=
| OpPush (k : nat) (data : list Z)
| OpRead (k : nat) (sz : Z)
| OpHeader (k : nat)
| OpReset (k : nat)
| OpClear (k : nat).

Inductive db_res := RUnit | RInt (n : Z) | RBytes (bs : list Z).

Definition op_index (op : db_op) : nat :=
  match op with OpPush k _ | OpRead k _ | OpHeader k | OpReset k | OpClear k => k end.

(** One call, on one buffer. *)
Definition db_call1 (hs : nat) (op : db_op) (db : databuffer) (mp : messagepool)
  : outcome (db_res * databuffer * messagepool) :=
  match op with
  | OpPush _ data => '(db, mp) ← databuffer_push db mp data; Ret (RUnit, db, mp)
  | OpRead _ sz => '(bs, db, mp) ← databuffer_read db mp sz; Ret (RBytes bs, db, mp)
  | OpHeader _ => '(n, db, mp) ← databuffer_readheader db mp (Z.of_nat hs); Ret (RInt n, db, mp)
  | OpReset _ => Ret (RUnit, databuffer_reset db, mp)
  | OpClear _ => '(db, mp) ← databuffer_clear db mp; Ret (RUnit, db, mp)
  end.

Fixpoint db_run (hs : nat) (ops : list db_op) (dbs : list databuffer) (mp : messagepool)
  : outcome (list db_res * list databuffer * messagepool) :=
  match ops with
  | [] => Ret ([], dbs, mp)
  | op :: ops =>
      db ← read_at dbs (Z.of_nat (op_index op));
      '(r, db, mp) ← db_call1 hs op db mp;
      '(rs, dbs, mp) ← db_run hs ops (<[op_index op := db]> dbs) mp;
      Ret (r :: rs, dbs, mp)
  end.

(** The specification: each buffer is a header field and a byte queue.  [None]
    marks a call outside the callers' contract (reading more than is queued). *)
Definition spec_call1 (hs : nat) (op : db_op) (q : Z * list Z) : option (db_res * (Z * list Z)) :=
  let '(h, bs) := q in
  match op with
  | OpPush _ data => if bool_decide (Bytes data) then Some (RUnit, (h, bs ++ data)) else None
  | OpRead _ sz =>
      if bool_decide (0 < sz <= Z.of_nat (length bs))
      then Some (RBytes (take (Z.to_nat sz) bs), (h, drop (Z.to_nat sz) bs)) else None
  | OpHeader _ => let '(n, h, bs) := spec_readheader h bs hs in Some (RInt n, (h, bs))
  | OpReset _ => Some (RUnit, (0, bs))
  | OpClear _ => Some (RUnit, (0, []))
  end.

Fixpoint spec_run (hs : nat) (ops : list db_op) (qs : list (Z * list Z))
  : option (list db_res * list (Z * list Z)) :=
  match ops with
  | [] => Some ([], qs)
  | op :: ops =>
      q ← qs !! op_index op;
      '(r, q) ← spec_call1 hs op q;
      '(rs, qs) ← spec_run hs ops (<[op_index op := q]> qs);
      Some (r :: rs, qs)
  end.

(** How many bytes the calls push. *)
Definition pushed1 (op : db_op) : Z :=
  match op with OpPush _ data => Z.of_nat (length data) | _ => 0 end.
Definition pushed (ops : list db_op) : Z := foldr (fun op n => pushed1 op + n) 0 ops.

(** Buffer [db] owns [l] and stands for the queue [q]. *)
Definition buf_repr (M : Z) (ns : list message) (db : databuffer) (l : list nat)
    (q : Z * list Z) : Prop :=
  db_repr M ns db l q.2 /\ db_header db = q.1 /\ Bytes q.2.

Definition store_repr (M : Z) (mp : messagepool) (dbs : list databuffer)
    (ls : list (list nat)) (fl : list nat) (qs : list (Z * list Z)) : Prop :=
  pool_repr mp fl [] (concat ls) /\ length ls = length dbs /\ length qs = length dbs /\
  forall k db l q, dbs !! k = Some db -> ls !! k = Some l -> qs !! k = Some q ->
    buf_repr M (nodes mp) db l q.

Lemma db_repr_mono M M' ns db l bs : M <= M' -> db_repr M ns db l bs -> db_repr M' ns db l bs.
Proof. intros ? [? ?]. split; [by eapply db_chain_mono|done]. Qed.

Lemma db_repr_set_header M ns db l bs h :
  db_repr M ns db l bs -> db_repr M ns (set_header db h) l bs.
Proof. intros [[] ?]. split; [by split|done]. Qed.

Lemma db_call1_spec M hs op db mp fl l r q res q' :
  hs = 2%nat \/ hs = 4%nat -> M + pushed1 op < 2 ^ 31 ->
  buf_repr M (nodes mp) db l q -> pool_repr mp fl l r -> 0 <= M ->
  spec_call1 hs op q = Some (res, q') ->
  exists db' mp' fl' l', db_call1 hs op db mp = Ret (res, db', mp') /\
    buf_repr (M + pushed1 op) (nodes mp') db' l' q' /\ pool_repr mp' fl' l' r /\
    forall i, i ∈ r -> nodes mp' !! i = nodes mp !! i.
Proof.
  intros Hhs HM (Hr & Hh & Hb) Hp HM0. destruct q as [h bs]. simpl in *.
  destruct op as [k data|k sz|k|k|k]; simpl in *.
  - case_bool_decide as Hd; [|done]. intros [= <- <-].
    destruct (push_spec M db mp fl l r bs data) as (db' & mp' & fl' & l' & -> & Hr' & ? & ? & ?); [done..|].
    exists db', mp', fl', l'. split_and!; [done| |done|done].
    split_and!; [done|simpl; congruence|by apply Forall_app].
  - case_bool_decide as Hsz; [|done]. intros [= <- <-].
    destruct (read_spec M db mp fl l r bs sz) as (db' & mp' & fl' & l' & -> & Hr' & ? & ? & ?);
      [lia|done..|].
    exists db', mp', fl', l'. rewrite Z.add_0_r. split_and!; [done| |done|done].
    split_and!; [done|simpl; congruence|by apply Forall_drop].
  - pose proof (readheader_spec M db mp fl l r bs hs ltac:(lia) Hr Hp Hhs Hb) as Hrh.
    assert (Hb' : forall n h' bs', spec_readheader h bs hs = (n, h', bs') -> Bytes bs').
    { unfold spec_readheader. intros n h' bs'. repeat case_bool_decide; intros [= <- <- <-];
        [done|by apply Forall_drop|done]. }
    rewrite Hh in Hrh. destruct (spec_readheader h bs hs) as [[n h'] bs'] eqn:E.
    intros [= <- <-]. destruct Hrh as (db' & mp' & fl' & l' & -> & Hr' & ? & ? & ?).
    exists db', mp', fl', l'. rewrite Z.add_0_r. split_and!; [done| |done|done].
    split_and!; [done|done|by eapply Hb'].
  - intros [= <- <-]. exists (databuffer_reset db), mp, fl, l. rewrite Z.add_0_r.
    split_and!; [done| |done|done]. split_and!; [by apply db_repr_set_header|done|done].
  - intros [= <- <-].
    destruct (clear_spec M db mp fl l r bs Hr Hp) as (mp' & fl' & -> & ? & ?).
    exists databuffer_zero, mp', fl', []. split_and!; [done| |done|done].
    split_and!; [|done|constructor]. split; [split; simpl|done]; [constructor|done|constructor|done|done|lia].
Qed.

Lemma pool_repr_focus mp fl ls k l :
  ls !! k = Some l -> pool_repr mp fl [] (concat ls) -> pool_repr mp fl l (concat (delete k ls)).
Proof.
  intros Hl (H1 & H2 & H3). pose proof (concat_delete _ _ _ Hl) as Hperm. split_and!; [done| |].
  - by rewrite <- Hperm.
  - intros i Hi. apply H3. rewrite Hperm. set_solver.
Qed.

Lemma store_update M M' mp mp' dbs ls fl fl' qs k l db' l' q' :
  M <= M' -> store_repr M mp dbs ls fl qs -> ls !! k = Some l ->
  buf_repr M' (nodes mp') db' l' q' -> pool_repr mp' fl' l' (concat (delete k ls)) ->
  (forall i, i ∈ concat (delete k ls) -> nodes mp' !! i = nodes mp !! i) ->
  store_repr M' mp' (<[k := db']> dbs) (<[k := l']> ls) fl' (<[k := q']> qs).
Proof.
  intros HM (Hp & Hll & Hlq & Hall) Hl Hb (Hp1 & Hp2 & Hp3) Hf.
  assert (Hk : (k < length ls)%nat) by (by eapply lookup_lt_Some).
  pose proof (concat_insert ls k l' Hk) as Hperm.
  split_and!; [|by rewrite !length_insert|by rewrite !length_insert|].
  - split_and!; [done|simpl; by rewrite Hperm|]. intros i. rewrite Hperm.
    intros [Hi|Hi]%elem_of_app; [|by apply Hp3]. destruct Hb as ((Hc & _) & _).
    destruct (linked_lookup _ _ _ _ _ (dr_linked _ _ _ _ _ Hc) Hi). by eapply lookup_lt_Some.
  - intros j db lj q. destruct (decide (j = k)) as [->|Hne].
    + rewrite !list_lookup_insert_eq by lia. by intros [= <-] [= <-] [= <-].
    + rewrite !list_lookup_insert_ne by done. intros Hdb Hlj Hq.
      destruct (Hall _ _ _ _ Hdb Hlj Hq) as ([Hc ?] & ? & ?). split_and!; [split|done|done]; [|done].
      eapply db_chain_mono; [exact HM|]. eapply db_chain_ext; [|done].
      intros i Hi. apply Hf. by eapply elem_of_delete_concat.
Qed.

Lemma pushed_nonneg ops : 0 <= pushed ops.
Proof. induction ops as [|[] ops IH]; simpl; lia. Qed.

Lemma db_run_spec hs ops : hs = 2%nat \/ hs = 4%nat ->
  forall M mp dbs ls fl qs rs qs',
  0 <= M -> M + pushed ops < 2 ^ 31 -> store_repr M mp dbs ls fl qs ->
  spec_run hs ops qs = Some (rs, qs') ->
  exists mp' dbs' ls' fl', db_run hs ops dbs mp = Ret (rs, dbs', mp') /\
    store_repr (M + pushed ops) mp' dbs' ls' fl' qs'.
Proof.
  intros Hhs. induction ops as [|op ops IH]; intros M mp dbs ls fl qs rs qs' HM Hpush Hst Hspec.
  { simpl in *. simplify_eq. exists mp, dbs, ls, fl. by rewrite Z.add_0_r. }
  cbn [spec_run] in Hspec. destruct (qs !! op_index op) as [q|] eqn:Eq; [|done]. simpl in Hspec.
  destruct (spec_call1 hs op q) as [[r q']|] eqn:Es; [|done]. simpl in Hspec.
  destruct (spec_run hs ops _) as [[rs1 qs1]|] eqn:Er; [|done]. simpl in Hspec. simplify_eq.
  pose proof Hst as (Hp & Hll & Hlq & Hall). simpl in Hpush.
  pose proof (pushed_nonneg ops). pose proof (lookup_lt_Some _ _ _ Eq) as Hlt.
  destruct (lookup_lt_is_Some_2 dbs (op_index op)) as [db Hdb]; [lia|].
  destruct (lookup_lt_is_Some_2 ls (op_index op)) as [l Hl]; [lia|].
  destruct (db_call1_spec M hs op db mp fl l (concat (delete (op_index op) ls)) q r q')
    as (db' & mp' & fl' & l' & He & Hb & Hp' & Hf);
    [done|lia|by eapply Hall|by apply pool_repr_focus|done|done|].
  assert (0 <= pushed1 op) by (destruct op; simpl; lia).
  edestruct (IH (M + pushed1 op)) as (mp'' & dbs' & ls' & fl'' & He' & Hst');
    [lia|lia| |exact Er|].
  { eapply (store_update M); [lia|exact Hst|exact Hl|exact Hb|exact Hp'|exact Hf]. }
  exists mp'', dbs', ls', fl''. cbn [db_run]. rewrite (read_at_Some _ _ _ Hdb). cbn [mbind outcome_bind].
  rewrite He. cbn [mbind outcome_bind]. rewrite He'. split; [done|]. simpl. by rewrite Z.add_assoc.
Qed.

Lemma store_init n :
  store_repr 0 messagepool_zero (replicate n databuffer_zero) (replicate n []) [] (replicate n (0, [])).
Proof.
  assert (Hc : concat (replicate n ([] : list nat)) = []) by (induction n; done).
  split_and!; [|by rewrite !length_replicate..|].
  - rewrite Hc. split_and!; [constructor|constructor|by intros ? ?%not_elem_of_nil].
  - intros k db l q [-> _]%lookup_replicate [-> _]%lookup_replicate [-> _]%lookup_replicate.
    split_and!; [split; [split; simpl|done]|done|constructor];
      [constructor|done|constructor|done|done|done].
Qed.

(* ------------------------------------------------------------------ *)
(** ** Properties *)

(** C16: any number of receive buffers sharing one message pool behave as
    independent byte queues with a header field.  For every sequence of pushes,
    reads, header reads, resets and clears that never reads more than is queued,
    with less than 2^31 bytes pushed, every call returns, no assertion fails and
    no node is used outside its owner, and the results are those of the queues. *)
Theorem databuffer_implements_queues n hs ops rs qs :
  hs = 2%nat \/ hs = 4%nat -> pushed ops < 2 ^ 31 ->
  spec_run hs ops (replicate n (0, [])) = Some (rs, qs) ->
  exists mp dbs ls fl,
    db_run hs ops (replicate n databuffer_zero) messagepool_zero = Ret (rs, dbs, mp) /\
    store_repr (pushed ops) mp dbs ls fl qs.
Proof.
  intros Hhs Hpush Hspec.
  by apply (db_run_spec hs ops Hhs 0 _ _ _ _ _ _ _ (Z.le_refl 0) Hpush (store_init n)).
Qed.

Definition demo_ops : list db_op :=
  [OpPush 0 [0; 3; 65]; OpHeader 0; OpPush 1 [0; 1; 66]; OpPush 0 [67; 68; 0]; OpHeader 0;
   OpRead 0 3; OpReset 0; OpHeader 0; OpHeader 1; OpRead 1 1; OpClear 0].

Lemma databuffer_implements_queues_witness :
  pushed demo_ops < 2 ^ 31 /\
  spec_run 2 demo_ops (replicate 2 (0, [])) =
    Some ([RUnit; RInt (-1); RUnit; RUnit; RInt 3; RBytes [65; 67; 68]; RUnit; RInt (-1);
           RInt 1; RBytes [66]; RUnit], [(0, []); (1, [])]) /\
  exists mp dbs ls fl,
    db_run 2 demo_ops (replicate 2 databuffer_zero) messagepool_zero =
      Ret ([RUnit; RInt (-1); RUnit; RUnit; RInt 3; RBytes [65; 67; 68]; RUnit; RInt (-1);
           RInt 1; RBytes [66]; RUnit], dbs, mp) /\
    store_repr (pushed demo_ops) mp dbs ls fl [(0, []); (1, [])].
Proof.
  split; [by vm_compute|]. split; [by vm_compute|].
  apply databuffer_implements_queues; [by left|by vm_compute|by vm_compute].
Defined.

(** With 4-byte headers a length of 2^31 or more is stored as a negative
    header: from then on the connection is stuck, every later header read answers
    that negative number (for the gate: not yet) and takes nothing from the
    queue, however many bytes have arrived. *)
Theorem header_sign_stalls (plen : list Z) (db : databuffer) (mp : messagepool) :
  Bytes plen -> length plen = 4%nat -> 2 ^ 31 <= be_value plen -> 0 <= db_size db ->
  exists h, h < 0 /\ header_value 4 plen = Ret h /\
    databuffer_readheader (set_header db h) mp 4 = Ret (h, set_header db h, mp).
Proof.
  intros Hb Hl Hv Hs.
  assert (Hr : be_value plen < 2 ^ 32).
  { unfold be_value. pose proof (le_value_range (rev plen) ltac:(by apply Forall_rev)) as Hr.
    rewrite length_rev, Hl in Hr. exact (proj2 Hr). }
  exists (be_value plen - 2 ^ 32). split_and!; [lia| |].
  - rewrite (header_value_spec 4) by first [by right|done]. unfold decode_header, i32. f_equal. dlia.
  - unfold databuffer_readheader. cbn [db_header db_size set_header].
    rewrite !bool_decide_false by lia. done.
Qed.

Lemma header_sign_stalls_witness :
  Bytes [128; 0; 0; 1] /\ 2 ^ 31 <= be_value [128; 0; 0; 1] /\
  exists h, h < 0 /\ header_value 4 [128; 0; 0; 1] = Ret h /\
    databuffer_readheader (set_header (mk_databuffer 0 0 100 None None) h) messagepool_zero 4 =
      Ret (h, set_header (mk_databuffer 0 0 100 None None) h, messagepool_zero).
Proof.
  assert (Bytes [128; 0; 0; 1]) by (repeat constructor; lia).
  split_and!; [done|by vm_compute|].
  apply header_sign_stalls; [done|done|by vm_compute|simpl; lia].
Defined.
