(* ===== verification/Seri.v ===== *)
(** * Serialization of Lua values (src/lualib-src/lua-seri.c)

    Packing writes into a chain of 128-byte blocks that [seri] copies into one
    buffer; unpacking reads that buffer.  Lua values are a tree: a table is the
    list of its entries in [lua_next] order with the length [lua_rawlen] answers.
    Doubles and light userdata are their 64-bit images (little-endian host).  The Lua stack
    is taken for large enough here; SeriStack counts it. *)
From S2P Require Import Prelude.
From stdpp Require Import base list gmap numbers strings.
From Stdlib Require Import ZArith Lia Permutation.

Local Open Scope Z_scope.

(** ** Constants *)

Definition TYPE_NIL : Z := 0.
Definition TYPE_BOOLEAN : Z := 1.
Definition TYPE_NUMBER : Z := 2.
Definition TYPE_NUMBER_ZERO : Z := 0.
Definition TYPE_NUMBER_BYTE : Z := 1.
Definition TYPE_NUMBER_WORD : Z := 2.
Definition TYPE_NUMBER_DWORD : Z := 4.
Definition TYPE_NUMBER_QWORD : Z := 6.
Definition TYPE_NUMBER_REAL : Z := 8.
Definition TYPE_USERDATA : Z := 3.
Definition TYPE_SHORT_STRING : Z := 4.
Definition TYPE_LONG_STRING : Z := 5.
Definition TYPE_TABLE : Z := 6.
Definition MAX_COOKIE : Z := 32.
Definition COMBINE_TYPE (t v : Z) : Z := Z.lor t (Z.shiftl v 3).
Definition BLOCK_SIZE : Z := 128.
Definition MAX_DEPTH : Z := 32.

(** ** Lua values *)

Inductive value :=
| VNil
| VBoolean (b : bool)
| VInteger (n : Z)
| VReal (bits : Z)
| VString (s : list Z)
| VPointer (p : Z)
| VTable (rawlen : Z) (entries : list (value * value))
| VOther (typename : string).

Definition is_nil (v : value) : bool := match v with VNil => true | _ => false end.

(** [lua_rawgeti] *)
Fixpoint rawgeti (es : list (value * value)) (i : Z) : value :=
  match es with
  | [] => VNil
  | (VInteger n, v) :: es => if decide (n = i) then v else rawgeti es i
  | _ :: es => rawgeti es i
  end.

(** The parts of an IEEE double, and the integer a table key that is a double
    is turned into, if it has the value of one. *)
Definition real_exponent (bits : Z) : Z := (bits / 2 ^ 52) mod 2 ^ 11.
Definition real_mantissa (bits : Z) : Z := bits mod 2 ^ 52.
Definition real_is_nan (bits : Z) : bool :=
  bool_decide (real_exponent bits = 2047 /\ real_mantissa bits <> 0).
Definition real_integer (bits : Z) : option Z :=
  let e := real_exponent bits in
  let m := if decide (e = 0) then real_mantissa bits else real_mantissa bits + 2 ^ 52 in
  let k := (if decide (e = 0) then 1 else e) - 1075 in
  let sign := if Z.testbit bits 63 then -1 else 1 in
  if decide (e = 2047) then None
  else let a := if decide (0 <= k) then Some (m * 2 ^ k)
                else if decide (m mod 2 ^ (- k) = 0) then Some (m / 2 ^ (- k)) else None in
       match a with
       | Some a => if decide (is_i64 (sign * a)) then Some (sign * a) else None
       | None => None
       end.

(** A key as the table stores it. *)
Definition normal_key (k : value) : value :=
  match k with
  | VReal bits => match real_integer bits with Some n => VInteger n | None => k end
  | _ => k
  end.

(** Raw equality of stored keys.  A table is compared with tables made earlier
    from the same stream, so it is never equal to one of them. *)
Definition raw_equal (a b : value) : bool :=
  match a, b with
  | VBoolean x, VBoolean y => bool_decide (x = y)
  | VInteger x, VInteger y => bool_decide (x = y)
  | VReal x, VReal y => bool_decide (x = y)
  | VString x, VString y => bool_decide (x = y)
  | VPointer x, VPointer y => bool_decide (x = y)
  | _, _ => false
  end.

(** Setting stored key [k] to [v]; nil removes the entry. *)
Fixpoint set_entry (es : list (value * value)) (k v : value) : list (value * value) :=
  match es with
  | [] => if is_nil v then [] else [(k, v)]
  | (k', v') :: es =>
      if raw_equal k' k then if is_nil v then es else (k', v) :: es
      else (k', v') :: set_entry es k v
  end.

(** [lua_rawset] *)
Definition rawset (es : list (value * value)) (k v : value) : outcome (list (value * value)) :=
  match k with
  | VNil => Raise "table index is nil"
  | VReal bits =>
      if real_is_nan bits then Raise "table index is NaN" else Ret (set_entry es (normal_key k) v)
  | _ => Ret (set_entry es k v)
  end.

(** A border of a table: the first [n] such that key [n + 1] is absent. *)
Fixpoint border_from (fuel : nat) (es : list (value * value)) (n : Z) : Z :=
  match fuel with
  | O => n
  | S fuel => if is_nil (rawgeti es (n + 1)) then n else border_from fuel es (n + 1)
  end.
Definition border (es : list (value * value)) : Z := border_from (length es) es 0.

(** ** Writing *)

(** The blocks from [head] to [current], in order. *)
Record write_block := mk_write_block {
  wb_blocks : list (list Z);
  wb_len : Z;
  wb_ptr : Z
}.

(** A new block; its bytes are not initialised. *)
Definition blk_alloc : list Z := replicate (Z.to_nat BLOCK_SIZE) 0.

Definition wb_init : write_block := mk_write_block [blk_alloc] 0 0.

(** [memcpy] into the current block. *)
Definition blk_write (blocks : list (list Z)) (ptr : Z) (bs : list Z) : outcome (list (list Z)) :=
  let c := Z.of_nat (length blocks) - 1 in
  b ← read_at blocks c;
  b ← write_bytes b ptr bs;
  write_at blocks c b.

Fixpoint wb_push_loop (fuel : nat) (b : write_block) (buffer : list Z) : outcome write_block :=
  let b := if bool_decide (wb_ptr b = BLOCK_SIZE)
           then mk_write_block (wb_blocks b ++ [blk_alloc]) (wb_len b) 0 else b in
  let sz := Z.of_nat (length buffer) in
  if bool_decide (wb_ptr b <= BLOCK_SIZE - sz) then
    bl ← blk_write (wb_blocks b) (wb_ptr b) buffer;
    Ret (mk_write_block bl (i32 (wb_len b + sz)) (wb_ptr b + sz))
  else
    match fuel with
    | O => Crash OutOfFuel
    | S fuel =>
        let copy := BLOCK_SIZE - wb_ptr b in
        bl ← blk_write (wb_blocks b) (wb_ptr b) (take (Z.to_nat copy) buffer);
        (* goto _again: the next round starts with a full block *)
        wb_push_loop fuel (mk_write_block bl (i32 (wb_len b + copy)) BLOCK_SIZE)
          (drop (Z.to_nat copy) buffer)
    end.

(** Each round but the last uses up at least one byte. *)
Definition wb_push (b : write_block) (buffer : list Z) : outcome write_block :=
  wb_push_loop (length buffer) b buffer.

Definition wb_nil (wb : write_block) : outcome write_block := wb_push wb [TYPE_NIL].

Definition wb_boolean (wb : write_block) (b : bool) : outcome write_block :=
  wb_push wb [COMBINE_TYPE TYPE_BOOLEAN (if b then 1 else 0)].

Definition wb_integer (wb : write_block) (v : Z) : outcome write_block :=
  if bool_decide (v = 0) then wb_push wb [COMBINE_TYPE TYPE_NUMBER TYPE_NUMBER_ZERO]
  else if bool_decide (v <> i32 v) then
    wb ← wb_push wb [COMBINE_TYPE TYPE_NUMBER TYPE_NUMBER_QWORD]; wb_push wb (le_bytes 8 v)
  else if bool_decide (v < 0) then
    wb ← wb_push wb [COMBINE_TYPE TYPE_NUMBER TYPE_NUMBER_DWORD]; wb_push wb (le_bytes 4 v)
  else if bool_decide (v < 0x100) then
    wb ← wb_push wb [COMBINE_TYPE TYPE_NUMBER TYPE_NUMBER_BYTE]; wb_push wb (le_bytes 1 v)
  else if bool_decide (v < 0x10000) then
    wb ← wb_push wb [COMBINE_TYPE TYPE_NUMBER TYPE_NUMBER_WORD]; wb_push wb (le_bytes 2 v)
  else
    wb ← wb_push wb [COMBINE_TYPE TYPE_NUMBER TYPE_NUMBER_DWORD]; wb_push wb (le_bytes 4 v).

Definition wb_real (wb : write_block) (bits : Z) : outcome write_block :=
  wb ← wb_push wb [COMBINE_TYPE TYPE_NUMBER TYPE_NUMBER_REAL]; wb_push wb (le_bytes 8 bits).

Definition wb_pointer (wb : write_block) (p : Z) : outcome write_block :=
  wb ← wb_push wb [TYPE_USERDATA]; wb_push wb (le_bytes 8 p).

(** [len] is the length of [str] cut to an [int]; the copies take [len] bytes. *)
Definition wb_string (wb : write_block) (str : list Z) (len : Z) : outcome write_block :=
  if bool_decide (len < MAX_COOKIE) then
    wb ← wb_push wb [u8 (COMBINE_TYPE TYPE_SHORT_STRING len)];
    if bool_decide (0 < len) then wb_push wb (take (Z.to_nat len) str) else Ret wb
  else
    wb ← (if bool_decide (len < 0x10000) then
            wb ← wb_push wb [COMBINE_TYPE TYPE_LONG_STRING 2]; wb_push wb (le_bytes 2 len)
          else
            wb ← wb_push wb [COMBINE_TYPE TYPE_LONG_STRING 4]; wb_push wb (le_bytes 4 len));
    wb_push wb (take (Z.to_nat len) str).

(** The header of a table, in [wb_table_array]. *)
Definition wb_table_header (wb : write_block) (array_size : Z) : outcome write_block :=
  if bool_decide (array_size >= MAX_COOKIE - 1) then
    wb ← wb_push wb [COMBINE_TYPE TYPE_TABLE (MAX_COOKIE - 1)]; wb_integer wb array_size
  else wb_push wb [u8 (COMBINE_TYPE TYPE_TABLE array_size)].

(** [for (i=1;i<=array_size;i++)], with [n] rounds left. *)
Fixpoint array_loop (pack : value -> write_block -> outcome write_block)
    (es : list (value * value)) (n : nat) (i : Z) (wb : write_block) : outcome write_block :=
  match n with
  | O => Ret wb
  | S n => wb ← pack (rawgeti es i) wb; array_loop pack es n (i + 1) wb
  end.

Definition wb_table_array (pack : value -> write_block -> outcome write_block)
    (rawlen : Z) (es : list (value * value)) (wb : write_block) : outcome (Z * write_block) :=
  let array_size := i32 rawlen in
  wb ← wb_table_header wb array_size;
  wb ← array_loop pack es (Z.to_nat array_size) 1 wb;
  Ret (array_size, wb).

(** Keys the array part has covered. *)
Definition in_array (array_size : Z) (k : value) : bool :=
  match k with
  | VInteger x => bool_decide (0 < x /\ x <= array_size)
  | _ => false
  end.

(** [while (lua_next(L, index) != 0)] *)
Fixpoint hash_loop (pack : value -> write_block -> outcome write_block)
    (array_size : Z) (es : list (value * value)) (wb : write_block) : outcome write_block :=
  match es with
  | [] => Ret wb
  | (k, v) :: es =>
      if in_array array_size k then hash_loop pack array_size es wb
      else wb ← pack k wb; wb ← pack v wb; hash_loop pack array_size es wb
  end.

Definition wb_table_hash (pack : value -> write_block -> outcome write_block)
    (array_size : Z) (es : list (value * value)) (wb : write_block) : outcome write_block :=
  wb ← hash_loop pack array_size es wb;
  wb_nil wb.

Definition wb_table (pack : value -> write_block -> outcome write_block)
    (rawlen : Z) (es : list (value * value)) (wb : write_block) : outcome write_block :=
  '(array_size, wb) ← wb_table_array pack rawlen es wb;
  wb_table_hash pack array_size es wb.

(** [fuel] bounds the nesting; the depth check stops the recursion before it
    runs out. *)
Fixpoint pack_one (fuel : nat) (v : value) (depth : Z) (b : write_block) : outcome write_block :=
  if bool_decide (depth > MAX_DEPTH) then Raise "serialize can't pack too depth table"
  else
    match fuel with
    | O => Crash OutOfFuel
    | S fuel =>
        match v with
        | VNil => wb_nil b
        | VInteger x => wb_integer b x
        | VReal n => wb_real b n
        | VBoolean x => wb_boolean b x
        | VString str => wb_string b str (i32 (Z.of_nat (length str)))
        | VPointer p => wb_pointer b p
        | VTable rawlen es =>
            wb_table (fun v wb => pack_one fuel v (depth + 1) wb) rawlen es b
        | VOther typename => Raise ("Unsupport type " +:+ typename +:+ " to serialize")
        end
    end.

Definition pack_fuel : nat := 34.

Fixpoint pack_from (vs : list value) (b : write_block) : outcome write_block :=
  match vs with
  | [] => Ret b
  | v :: vs => b ← pack_one pack_fuel v 0 b; pack_from vs b
  end.

(** The copy into one buffer. *)
Fixpoint seri_loop (bl : list (list Z)) (len : Z) : outcome (list Z) :=
  if bool_decide (0 < len) then
    match bl with
    | [] => Crash OutOfBounds
    | b :: bl =>
        if bool_decide (len >= BLOCK_SIZE) then
          bs ← read_bytes b 0 BLOCK_SIZE;
          rest ← seri_loop bl (len - BLOCK_SIZE);
          Ret (bs ++ rest)
        else read_bytes b 0 len
    end
  else Ret [].

Definition seri (wb : write_block) : outcome (list Z) := seri_loop (wb_blocks wb) (wb_len wb).

Definition _luaseri_pack (vs : list value) : outcome (list Z) :=
  wb ← pack_from vs wb_init;
  seri wb.

(** ** Reading *)

(** [rb_buffer] is the whole buffer; [rb_ptr] the position, [rb_len] what is left. *)
Record read_block := mk_read_block {
  rb_buffer : list Z;
  rb_len : Z;
  rb_ptr : Z
}.

Definition rball_init (buffer : list Z) (size : Z) : read_block := mk_read_block buffer size 0.

(** NULL, or the position read from and the advanced block. *)
Definition rb_read (rb : read_block) (sz : Z) : option (Z * read_block) :=
  if bool_decide (rb_len rb < sz) then None
  else Some (rb_ptr rb, mk_read_block (rb_buffer rb) (rb_len rb - sz) (rb_ptr rb + sz)).

(** The length and the line number in the message are left out. *)
Definition invalid_stream {A} : outcome A := Raise "Invalid serialize stream".

(** [rb_read] of [n] bytes that are then copied out. *)
Definition get_bytes (rb : read_block) (n : Z) : outcome (list Z * read_block) :=
  match rb_read rb n with
  | None => invalid_stream
  | Some (p, rb) => bs ← read_bytes (rb_buffer rb) p n; Ret (bs, rb)
  end.

Definition get_integer (rb : read_block) (cookie : Z) : outcome (Z * read_block) :=
  if bool_decide (cookie = TYPE_NUMBER_ZERO) then Ret (0, rb)
  else if bool_decide (cookie = TYPE_NUMBER_BYTE) then
    '(bs, rb) ← get_bytes rb 1; Ret (le_value bs, rb)
  else if bool_decide (cookie = TYPE_NUMBER_WORD) then
    '(bs, rb) ← get_bytes rb 2; Ret (le_value bs, rb)
  else if bool_decide (cookie = TYPE_NUMBER_DWORD) then
    '(bs, rb) ← get_bytes rb 4; Ret (i32 (le_value bs), rb)
  else if bool_decide (cookie = TYPE_NUMBER_QWORD) then
    '(bs, rb) ← get_bytes rb 8; Ret (i64 (le_value bs), rb)
  else invalid_stream.

Definition get_real (rb : read_block) : outcome (Z * read_block) :=
  '(bs, rb) ← get_bytes rb 8; Ret (le_value bs, rb).

Definition get_pointer (rb : read_block) : outcome (Z * read_block) :=
  '(bs, rb) ← get_bytes rb 8; Ret (le_value bs, rb).

(** [lua_pushlstring(L,p,len)]: a negative [len] is a huge [size_t]. *)
Definition get_buffer (rb : read_block) (len : Z) : outcome (value * read_block) :=
  match rb_read rb len with
  | None => invalid_stream
  | Some (p, rb) =>
      if bool_decide (len < 0) then Raise "memory allocation error: block too big"
      else bs ← read_bytes (rb_buffer rb) p len; Ret (VString bs, rb)
  end.

(** The array size that follows the tag of a table. *)
Definition unpack_array_size (rb : read_block) (array_size : Z) : outcome (Z * read_block) :=
  if bool_decide (array_size = MAX_COOKIE - 1) then
    '(t, rb) ← get_bytes rb 1;
    let type := le_value t in
    let cookie := Z.shiftr type 3 in
    if bool_decide (Z.land type 7 <> TYPE_NUMBER \/ cookie = TYPE_NUMBER_REAL) then invalid_stream
    else '(n, rb) ← get_integer rb cookie; Ret (i32 n, rb)
  else Ret (array_size, rb).

(** [push_value] of everything but tables. *)
Definition push_scalar (rb : read_block) (type cookie : Z) : outcome (value * read_block) :=
  if bool_decide (type = TYPE_NIL) then Ret (VNil, rb)
  else if bool_decide (type = TYPE_BOOLEAN) then Ret (VBoolean (bool_decide (cookie <> 0)), rb)
  else if bool_decide (type = TYPE_NUMBER) then
    if bool_decide (cookie = TYPE_NUMBER_REAL) then
      '(n, rb) ← get_real rb; Ret (VReal n, rb)
    else '(n, rb) ← get_integer rb cookie; Ret (VInteger n, rb)
  else if bool_decide (type = TYPE_USERDATA) then
    '(p, rb) ← get_pointer rb; Ret (VPointer p, rb)
  else if bool_decide (type = TYPE_SHORT_STRING) then get_buffer rb cookie
  else if bool_decide (type = TYPE_LONG_STRING) then
    if bool_decide (cookie = 2) then
      '(plen, rb) ← get_bytes rb 2; get_buffer rb (le_value plen)
    else if bool_decide (cookie <> 4) then invalid_stream
    else '(plen, rb) ← get_bytes rb 4; get_buffer rb (i32 (le_value plen))
  else invalid_stream.

(** [unpack_one], with [push_value] and [unpack_table] in it, and the two loops
    of [unpack_table]: the array part and the key-value part.  [fuel] bounds the
    calls, each of which reads at least one byte or ends a loop. *)
Fixpoint unpack_one (fuel : nat) (rb : read_block) : outcome (value * read_block) :=
  match fuel with
  | O => Crash OutOfFuel
  | S fuel => '(t, rb) ← get_bytes rb 1; push_value fuel rb (Z.land (le_value t) 7) (Z.shiftr (le_value t) 3)
  end
with push_value (fuel : nat) (rb : read_block) (type cookie : Z) : outcome (value * read_block) :=
  if bool_decide (type = TYPE_TABLE) then
    match fuel with
    | O => Crash OutOfFuel
    | S fuel =>
        '(array_size, rb) ← unpack_array_size rb cookie;
        '(es, rb) ← unpack_array fuel rb 1 array_size [];
        '(es, rb) ← unpack_hash fuel rb es;
        Ret (VTable (border es) es, rb)
    end
  else push_scalar rb type cookie
with unpack_array (fuel : nat) (rb : read_block) (i array_size : Z) (es : list (value * value))
  : outcome (list (value * value) * read_block) :=
  if bool_decide (i <= array_size) then
    match fuel with
    | O => Crash OutOfFuel
    | S fuel =>
        '(v, rb) ← unpack_one fuel rb;
        unpack_array fuel rb (i + 1) array_size (set_entry es (VInteger i) v)
    end
  else Ret (es, rb)
with unpack_hash (fuel : nat) (rb : read_block) (es : list (value * value))
  : outcome (list (value * value) * read_block) :=
  match fuel with
  | O => Crash OutOfFuel
  | S fuel =>
      '(k, rb) ← unpack_one fuel rb;
      if is_nil k then Ret (es, rb)
      else
        '(v, rb) ← unpack_one fuel rb;
        es ← rawset es k v;
        unpack_hash fuel rb es
  end.

Definition unpack_fuel (n : Z) : nat := S (4 * Z.to_nat n + 4).

(** The top-level loop of [_luaseri_unpack]. *)
Fixpoint unpack_loop (fuel : nat) (rb : read_block) : outcome (list value) :=
  match rb_read rb 1 with
  | None => Ret []
  | Some (p, rb') =>
      match fuel with
      | O => Crash OutOfFuel
      | S fuel =>
          t ← read_bytes (rb_buffer rb') p 1;
          '(v, rb) ← push_value (unpack_fuel (rb_len rb')) rb' (Z.land (le_value t) 7)
                       (Z.shiftr (le_value t) 3);
          vs ← unpack_loop fuel rb;
          Ret (v :: vs)
      end
  end.

(** What is passed to unpack: nothing, a string, or a pointer ([None]: NULL) to a
    block of memory and a length. *)
Inductive unpack_arg :=
| ArgNil
| ArgString (s : list Z)
| ArgBlock (buffer : option (list Z)) (len : Z).

Definition unpack_buffer (buffer : list Z) (len : Z) : outcome (list value) :=
  unpack_loop (Z.to_nat len) (rball_init buffer len).

Definition _luaseri_unpack (arg : unpack_arg) : outcome (list value) :=
  match arg with
  | ArgNil => Ret []
  | ArgString s =>
      let len := i32 (Z.of_nat (length s)) in
      if bool_decide (len = 0) then Ret [] else unpack_buffer s len
  | ArgBlock buffer len =>
      let len := i32 len in
      if bool_decide (len = 0) then Ret []
      else match buffer with
           | None => Raise "deserialize null pointer"
           | Some b => unpack_buffer b len
           end
  end.

Definition demo_value : value :=
  VTable 3 [(VInteger 1, VString [104; 105]); (VInteger 2, VNil); (VString [120], VReal 4607182418800017408);
            (VInteger 3, VTable 0 []); (VBoolean true, VInteger (-70000)); (VInteger 300, VInteger 300)].

Example demo_roundtrip :
  (bs ← _luaseri_pack [demo_value; VNil; VInteger (2 ^ 40); VString (repeat 7 200)];
   _luaseri_unpack (ArgString bs)) =
  Ret [VTable 1 [(VInteger 1, VString [104; 105]); (VInteger 3, VTable 0 []);
                 (VString [120], VReal 4607182418800017408); (VBoolean true, VInteger (-70000));
                 (VInteger 300, VInteger 300)];
       VNil; VInteger (2 ^ 40); VString (repeat 7 200)].
Proof. vm_compute. reflexivity. Qed.

(* ------------------------------------------------------------------ *)
(** ** The write buffer is a byte string *)

Record wb_repr (wb : write_block) (bs : list Z) : Prop := mk_wb_repr {
  wr_blocks : exists full lst, wb_blocks wb = full ++ [lst] /\
    Forall (fun b => length b = 128%nat) full /\ length lst = 128%nat /\
    bs = concat full ++ take (Z.to_nat (wb_ptr wb)) lst;
  wr_ptr : 0 <= wb_ptr wb <= 128;
  wr_len : wb_len wb = Z.of_nat (length bs)
}.

Lemma wb_init_repr : wb_repr wb_init [].
Proof.
  split; [|simpl; lia|done]. exists [], blk_alloc. split_and!; [done|constructor|done|done].
Qed.

(** A write that fits. *)
Lemma blk_write_spec (full : list (list Z)) lst ptr buf :
  length lst = 128%nat -> 0 <= ptr -> ptr + Z.of_nat (length buf) <= 128 ->
  exists lst', blk_write (full ++ [lst]) ptr buf = Ret (full ++ [lst']) /\ length lst' = 128%nat /\
    take (Z.to_nat (ptr + Z.of_nat (length buf))) lst' = take (Z.to_nat ptr) lst ++ buf.
Proof.
  intros Hl Hp Hb.
  set (lst' := take (Z.to_nat ptr) lst ++ buf ++ drop (Z.to_nat ptr + length buf) lst).
  exists lst'. unfold blk_write. rewrite length_app. simpl.
  replace (Z.of_nat (length full + 1) - 1) with (Z.of_nat (length full)) by lia.
  rewrite (read_at_Some _ _ lst) by by apply list_lookup_middle. cbn [mbind outcome_bind].
  unfold write_bytes. rewrite decide_True by lia. cbn [mbind outcome_bind].
  rewrite write_at_lt by size_lia.
  rewrite insert_app_r_alt, Nat.sub_diag by lia. split_and!; [done| |].
  - unfold lst'. rewrite !length_app, length_take, length_drop. lia.
  - unfold lst'. rewrite app_assoc. apply take_app_length'.
    rewrite length_app, length_take. lia.
Qed.

Lemma concat_length_128 (full : list (list Z)) :
  Forall (fun b => length b = 128%nat) full -> length (concat full) = (128 * length full)%nat.
Proof. induction 1 as [|b l Hb _ IH]; [done|]. simpl. rewrite length_app, IH, Hb. lia. Qed.

(** A full current block is followed by a new one. *)
Lemma wb_next wb bs : wb_repr wb bs ->
  let b := if bool_decide (wb_ptr wb = BLOCK_SIZE)
           then mk_write_block (wb_blocks wb ++ [blk_alloc]) (wb_len wb) 0 else wb in
  wb_repr b bs /\ wb_ptr b < 128.
Proof.
  intros [(full & lst & Hbl & Hf & Hl & Hbs) Hptr Hlen]. simpl. unfold BLOCK_SIZE.
  case_bool_decide as Hp; simpl; [|split; [split; [by exists full, lst|done|done]|lia]].
  split; [|lia]. split; simpl; [|lia|done].
  exists (full ++ [lst]), blk_alloc. split_and!; [by rewrite Hbl|apply Forall_app; auto|done|].
  rewrite Hbs, concat_app, Hp. simpl. rewrite !app_nil_r. f_equal.
  by rewrite take_ge by lia.
Qed.

Lemma wb_push_loop_spec fuel wb bs e :
  wb_repr wb bs -> Z.of_nat (length bs) + Z.of_nat (length e) < 2 ^ 31 ->
  (length e <= fuel)%nat ->
  exists wb', wb_push_loop fuel wb e = Ret wb' /\ wb_repr wb' (bs ++ e).
Proof.
  revert wb bs e. induction fuel as [|fuel IH]; intros wb bs e Hr Hmax Hf;
    pose proof (wb_next wb bs Hr) as [Hr' Hlt]; cbn [wb_push_loop];
    revert Hr' Hlt; generalize (if bool_decide (wb_ptr wb = BLOCK_SIZE)
      then mk_write_block (wb_blocks wb ++ [blk_alloc]) (wb_len wb) 0 else wb);
    clear wb Hr; intros wb [(full & lst & Hbl & Hfl & Hl & Hbs) Hptr Hlen] Hlt;
    unfold BLOCK_SIZE; case_bool_decide as Hfit; try lia.
  1, 2: rewrite Hbl; destruct (blk_write_spec full lst (wb_ptr wb) e) as (lst' & -> & Hl' & Ht);
    [done|lia|lia|]; cbn [mbind outcome_bind];
    eexists; split; [done|]; split; simpl;
    [exists full, lst'; split_and!; [done|done|done|by rewrite Hbs, <- app_assoc, Ht]
    |lia|rewrite Hlen, i32_small, length_app by (unfold is_i32; lia); lia].
  set (n := Z.to_nat (128 - wb_ptr wb)).
  assert (Hn : length (take n e) = n) by size_lia.
  rewrite Hbl. destruct (blk_write_spec full lst (wb_ptr wb) (take n e)) as (lst' & -> & Hl' & Ht);
    [done|lia|lia|]. cbn [mbind outcome_bind].
  rewrite Hn in Ht. replace (Z.to_nat (wb_ptr wb + Z.of_nat n)) with 128%nat in Ht by lia.
  edestruct (IH (mk_write_block (full ++ [lst']) (i32 (wb_len wb + (128 - wb_ptr wb))) 128)
    (bs ++ take n e) (drop n e)) as (wb' & -> & Hr); [| | |].
  - split; simpl; [|lia|].
    + exists full, lst'. split_and!; [done|done|done|]. rewrite Hbs, <- app_assoc. by f_equal.
    + rewrite Hlen, i32_small, length_app by (unfold is_i32; lia). lia.
  - rewrite length_app, length_drop. lia.
  - rewrite length_drop. lia.
  - exists wb'. rewrite <- app_assoc, take_drop in Hr. done.
Qed.

Lemma wb_push_spec wb bs e :
  wb_repr wb bs -> Z.of_nat (length bs) + Z.of_nat (length e) < 2 ^ 31 ->
  exists wb', wb_push wb e = Ret wb' /\ wb_repr wb' (bs ++ e).
Proof. intros Hr Hm. by apply wb_push_loop_spec. Qed.

Lemma seri_loop_spec (full : list (list Z)) lst n :
  Forall (fun b => length b = 128%nat) full -> length lst = 128%nat -> 0 <= n <= 128 ->
  seri_loop (full ++ [lst]) (128 * Z.of_nat (length full) + n) =
    Ret (concat full ++ take (Z.to_nat n) lst).
Proof.
  intros Hf Hl Hn. induction Hf as [|b full Hb Hf IH].
  - simpl app. change (128 * Z.of_nat (length [])) with 0. rewrite Z.add_0_l.
    cbn [seri_loop]. case_bool_decide as Hpos.
    + unfold BLOCK_SIZE. case_bool_decide as Hge.
      * replace n with 128 by lia. rewrite read_bytes_all by lia. cbn [mbind outcome_bind].
        rewrite bool_decide_false by lia. cbn [mbind outcome_bind]. rewrite app_nil_r. simpl. by rewrite take_ge by lia.
      * by rewrite read_bytes_prefix by lia.
    + by replace n with 0 by lia.
  - cbn [app seri_loop length]. rewrite bool_decide_true by lia. unfold BLOCK_SIZE.
    rewrite bool_decide_true by lia. rewrite read_bytes_all by lia. cbn [mbind outcome_bind].
    replace (128 * Z.of_nat (S (length full)) + n - 128)
      with (128 * Z.of_nat (length full) + n) by lia.
    rewrite IH. cbn [mbind outcome_bind concat]. by rewrite app_assoc.
Qed.

Lemma seri_spec wb bs : wb_repr wb bs -> seri wb = Ret bs.
Proof.
  intros [(full & lst & Hbl & Hfl & Hl & Hbs) Hptr Hlen]. unfold seri.
  rewrite Hbl, Hlen, Hbs, length_app, concat_length_128, length_take by done.
  rewrite <- seri_loop_spec by done. f_equal. lia.
Qed.

(* ------------------------------------------------------------------ *)
(** ** The format *)

(** The encoding of an integer: the cookie and the payload. *)
Definition int_cookie (v : Z) : Z :=
  if bool_decide (v = 0) then 0
  else if bool_decide (~ is_i32 v) then 6
  else if bool_decide (v < 0) then 4
  else if bool_decide (v < 0x100) then 1
  else if bool_decide (v < 0x10000) then 2 else 4.

Definition enc_tag (t c : Z) : Z := t + 8 * c.

(** The bytes that follow. *)
Definition int_size (cookie : Z) : nat := if bool_decide (cookie = 6) then 8%nat else Z.to_nat cookie.

Definition enc_payload (v : Z) : list Z := le_bytes (int_size (int_cookie v)) v.
Definition enc_integer (v : Z) : list Z := enc_tag 2 (int_cookie v) :: enc_payload v.

Definition enc_string (s : list Z) : list Z :=
  let n := Z.of_nat (length s) in
  if decide (n < 32) then enc_tag 4 n :: s
  else if decide (n < 0x10000) then (enc_tag 5 2 :: le_bytes 2 n) ++ s
  else (enc_tag 5 4 :: le_bytes 4 n) ++ s.

Definition enc_table_header (n : Z) : list Z :=
  if decide (31 <= n) then enc_tag 6 31 :: enc_integer n else [enc_tag 6 n].

(** What is packed of a table, in order: the array part, then the other entries. *)
Definition array_values (n : Z) (es : list (value * value)) : list value := rawgeti es <$> seqZ 1 n.
Definition hash_entries (n : Z) (es : list (value * value)) : list (value * value) :=
  filter (fun p => in_array n p.1 = false) es.

(** The encoding of a value, [f] tables deep at most. *)
Fixpoint encode (f : nat) (v : value) : list Z :=
  match f with
  | O => []
  | S f =>
      match v with
      | VNil => [0]
      | VBoolean b => [enc_tag 1 (if b then 1 else 0)]
      | VInteger n => enc_integer n
      | VReal bits => enc_tag 2 8 :: le_bytes 8 bits
      | VString s => enc_string s
      | VPointer p => 3 :: le_bytes 8 p
      | VTable n es =>
          enc_table_header n ++ concat (encode f <$> array_values n es) ++
          concat ((fun p => encode f p.1 ++ encode f p.2) <$> hash_entries n es) ++ [0]
      | VOther _ => []
      end
  end.

(** Values that can be packed: no unsupported type, at most [f] levels. *)
Fixpoint fits (f : nat) (v : value) : bool :=
  match f with
  | O => false
  | S f =>
      match v with
      | VOther _ => false
      | VTable n es =>
          forallb (fits f) (array_values n es) &&
          forallb (fun p => fits f p.1 && fits f p.2) (hash_entries n es)
      | _ => true
      end
  end.

(** Keys a table can hold. *)
Definition key_ok (k : value) : Prop :=
  match k with
  | VNil => False
  | VReal bits => real_is_nan bits = false /\ real_integer bits = None
  | _ => True
  end.

(** Values of a Lua state (with strings and arrays below 2^31). *)
Inductive wf_value : value -> Prop :=
| wf_nil : wf_value VNil
| wf_boolean b : wf_value (VBoolean b)
| wf_integer n : is_i64 n -> wf_value (VInteger n)
| wf_real n : is_u64 n -> wf_value (VReal n)
| wf_string s : Z.of_nat (length s) < 2 ^ 31 -> wf_value (VString s)
| wf_pointer p : is_u64 p -> wf_value (VPointer p)
| wf_table n es : 0 <= n < 2 ^ 31 ->
    Forall (fun p => wf_value p.1 /\ wf_value p.2 /\ key_ok p.1 /\ is_nil p.2 = false) es ->
    ForallOrdPairs (fun p q => raw_equal p.1 q.1 = false /\ raw_equal q.1 p.1 = false) es ->
    wf_value (VTable n es)
| wf_other t : wf_value (VOther t).

(** Equal but for the order of table entries, the lengths of tables with holes,
    and the identity of tables. *)
Inductive same : value -> value -> Prop :=
| same_nil : same VNil VNil
| same_boolean b : same (VBoolean b) (VBoolean b)
| same_integer n : same (VInteger n) (VInteger n)
| same_real n : same (VReal n) (VReal n)
| same_string s : same (VString s) (VString s)
| same_pointer p : same (VPointer p) (VPointer p)
| same_table n es m es1 es2 : Permutation es es1 ->
    Forall2 (fun p q => same p.1 q.1 /\ same p.2 q.2) es1 es2 ->
    same (VTable n es) (VTable m es2).

(** ** Packing emits the format *)

(** [o] appends [e] to the buffer [bs] if [ok], and raises an error otherwise. *)
Definition emits (o : outcome write_block) (bs : list Z) (ok : bool) (e : list Z) : Prop :=
  if ok then exists wb, o = Ret wb /\ wb_repr wb (bs ++ e) else exists m, o = Raise m.

Lemma emits_bind o k bs ok1 e1 ok2 e2 :
  emits o bs ok1 e1 ->
  (forall wb, wb_repr wb (bs ++ e1) -> emits (k wb) (bs ++ e1) ok2 e2) ->
  emits (wb ← o; k wb) bs (ok1 && ok2) (e1 ++ e2).
Proof.
  unfold emits. destruct ok1; [|intros (m & ->) _; by exists m].
  intros (wb & -> & Hr) Hk. simpl. specialize (Hk wb Hr). destruct ok2; [|done].
  by rewrite app_assoc.
Qed.

Lemma emits_push wb bs e :
  wb_repr wb bs -> Z.of_nat (length bs) + Z.of_nat (length e) < 2 ^ 31 ->
  emits (wb_push wb e) bs true e.
Proof. intros. by apply wb_push_spec. Qed.

Lemma emits_push2 wb bs e1 e2 :
  wb_repr wb bs -> Z.of_nat (length bs) + Z.of_nat (length (e1 ++ e2)) < 2 ^ 31 ->
  emits (wb ← wb_push wb e1; wb_push wb e2) bs true (e1 ++ e2).
Proof.
  intros Hr Hl. rewrite length_app in Hl. apply (emits_bind _ _ _ true _ true).
  - apply emits_push; [done|lia].
  - intros wb' Hr'. apply emits_push; [done|]. rewrite length_app. lia.
Qed.

Lemma combine_type t c : 0 <= t < 8 -> COMBINE_TYPE t c = enc_tag t c.
Proof. intros. unfold COMBINE_TYPE, enc_tag. rewrite lor_shiftl_add by lia. lia. Qed.

Lemma emits_integer wb bs v :
  wb_repr wb bs -> is_i64 v -> Z.of_nat (length bs) + Z.of_nat (length (enc_integer v)) < 2 ^ 31 ->
  emits (wb_integer wb v) bs true (enc_integer v).
Proof.
  intros Hr Hv. unfold wb_integer, enc_integer, enc_payload, int_cookie.
  rewrite !combine_type by (unfold TYPE_NUMBER; lia).
  assert (Hi : v = i32 v <-> is_i32 v).
  { split; [intros ->; apply i32_range|by intros ?%i32_small]. }
  unfold is_i32 in *.
  repeat case_bool_decide; try lia;
    first [apply (emits_push wb bs) | apply (emits_push2 wb bs [_]) | tauto]; done.
Qed.

Lemma emits_string wb bs s :
  wb_repr wb bs -> Z.of_nat (length s) < 2 ^ 31 ->
  Z.of_nat (length bs) + Z.of_nat (length (enc_string s)) < 2 ^ 31 ->
  emits (wb_string wb s (i32 (Z.of_nat (length s)))) bs true (enc_string s).
Proof.
  intros Hr Hs. rewrite i32_small by (unfold is_i32; lia). unfold wb_string, enc_string, MAX_COOKIE.
  rewrite Nat2Z.id, firstn_all, !combine_type
    by (unfold TYPE_SHORT_STRING, TYPE_LONG_STRING; lia).
  repeat case_bool_decide; repeat case_decide; try lia; intros Hl.
  - unfold u8. rewrite Z.mod_small by (unfold enc_tag, TYPE_SHORT_STRING; lia).
    by apply (emits_push2 wb bs [_]).
  - destruct s; [|simpl in *; lia]. unfold u8. rewrite Z.mod_small by done.
    change (enc_tag TYPE_SHORT_STRING (Z.of_nat (length []))) with 4.
    destruct (wb_push_spec wb bs [4]) as (wb' & -> & Hr'); [done|done|]. by exists wb'.
  - rewrite length_app in Hl. apply (emits_bind _ _ _ true _ true).
    + apply (emits_push2 wb bs [_]); [done|]. simpl in *. lia.
    + intros wb' Hr'. apply emits_push; [done|]. rewrite length_app. lia.
  - rewrite length_app in Hl. apply (emits_bind _ _ _ true _ true).
    + apply (emits_push2 wb bs [_]); [done|]. simpl in *. lia.
    + intros wb' Hr'. apply emits_push; [done|]. rewrite length_app. lia.
Qed.

Section pack_table.
Context (pk : value -> write_block -> outcome write_block).
Context (enc : value -> list Z) (fit : value -> bool).

(** [pk] packs [v] as [enc] says, if [fit] says it can. *)
Definition packs (v : value) : Prop := forall wb bs,
  wb_repr wb bs -> Z.of_nat (length bs) + Z.of_nat (length (enc v)) < 2 ^ 31 ->
  emits (pk v wb) bs (fit v) (enc v).

Lemma emits_array es n i wb bs :
  Forall packs (rawgeti es <$> seqZ i (Z.of_nat n)) -> wb_repr wb bs ->
  Z.of_nat (length bs) +
    Z.of_nat (length (concat (enc <$> (rawgeti es <$> seqZ i (Z.of_nat n))))) < 2 ^ 31 ->
  emits (array_loop pk es n i wb) bs (forallb fit (rawgeti es <$> seqZ i (Z.of_nat n)))
    (concat (enc <$> (rawgeti es <$> seqZ i (Z.of_nat n)))).
Proof.
  revert i wb bs. induction n as [|n IH]; intros i wb bs Hp Hr Hl.
  { exists wb. simpl. rewrite app_nil_r. done. }
  rewrite Nat2Z.inj_succ, seqZ_cons, Z.pred_succ in * by lia.
  cbn [fmap list_fmap concat forallb array_loop] in *. rewrite length_app in Hl.
  apply Forall_cons in Hp as [Hp1 Hp].
  apply emits_bind; [apply Hp1; [done|lia]|]. intros wb' Hr'.
  apply IH; [done|done|]. rewrite length_app. unfold fmap in *. lia.
Qed.

Lemma emits_hash n es wb bs :
  Forall (fun p => packs p.1 /\ packs p.2) (hash_entries n es) -> wb_repr wb bs ->
  Z.of_nat (length bs) +
    Z.of_nat (length (concat ((fun p => enc p.1 ++ enc p.2) <$> hash_entries n es))) < 2 ^ 31 ->
  emits (hash_loop pk n es wb) bs (forallb (fun p => fit p.1 && fit p.2) (hash_entries n es))
    (concat ((fun p => enc p.1 ++ enc p.2) <$> hash_entries n es)).
Proof.
  revert wb bs. unfold hash_entries. induction es as [|[k v] es IH]; intros wb bs Hp Hr Hl.
  { exists wb. simpl. rewrite app_nil_r. done. }
  rewrite filter_cons in *. cbn [hash_loop]. simpl in *.
  destruct (in_array n k); case_decide; try done; [by apply IH|].
  cbn [fmap list_fmap concat forallb] in *. simpl in *.
  apply Forall_cons in Hp as [[Hk Hv] Hp]. simpl in *. rewrite !length_app in Hl.
  rewrite <- app_assoc, <- andb_assoc. apply emits_bind; [apply Hk; [done|lia]|].
  intros wb1 Hr1. apply emits_bind; [apply Hv; [done|rewrite length_app; lia]|].
  intros wb2 Hr2. apply IH; [done|done|]. rewrite !length_app. unfold fmap in *. lia.
Qed.
End pack_table.

Lemma emits_header wb bs n :
  wb_repr wb bs -> 0 <= n < 2 ^ 31 ->
  Z.of_nat (length bs) + Z.of_nat (length (enc_table_header n)) < 2 ^ 31 ->
  emits (wb_table_header wb n) bs true (enc_table_header n).
Proof.
  intros Hr Hn Hl. unfold wb_table_header, enc_table_header, MAX_COOKIE in *.
  rewrite !combine_type by (unfold TYPE_TABLE; lia).
  case_bool_decide; case_decide; try lia; cbn [length] in Hl.
  - apply (emits_bind _ _ _ true [_] true).
    + apply emits_push; [done|]. simpl. lia.
    + intros wb' Hr'. apply emits_integer; [done|unfold is_i64; lia|]. rewrite length_app. cbn [length]. lia.
  - unfold u8. rewrite Z.mod_small by (unfold enc_tag, TYPE_TABLE; lia). by apply emits_push.
Qed.

Lemma table_steps pk n es wb : is_i32 n ->
  wb_table pk n es wb =
    (wb ← wb_table_header wb n; wb ← array_loop pk es (Z.to_nat n) 1 wb;
     wb ← hash_loop pk n es wb; wb_nil wb).
Proof.
  intros Hn. unfold wb_table, wb_table_array, wb_table_hash. rewrite i32_small by done.
  destruct (wb_table_header wb n) as [wb1| |]; [|done..]. simpl.
  by destruct (array_loop pk es (Z.to_nat n) 1 wb1).
Qed.

Lemma rawgeti_elem es i : rawgeti es i = VNil \/ exists k, (k, rawgeti es i) ∈ es.
Proof.
  induction es as [|[k v] es IH]; [by left|]. simpl.
  assert (H : rawgeti es i = VNil \/ exists k0, (k0, rawgeti es i) ∈ (k, v) :: es).
  { destruct IH as [?|(k' & ?)]; [by left|right; exists k'; by right]. }
  destruct k; try done. case_decide; [|done]. right. eexists. by left.
Qed.

(** The components of a well-formed table are well-formed. *)
Lemma wf_array n es m : wf_value (VTable n es) -> Forall wf_value (rawgeti es <$> seqZ 1 m).
Proof.
  inversion 1 as [| | | | | |? ? Hn Hes _|]; subst. apply Forall_fmap, Forall_forall. intros i _. simpl.
  destruct (rawgeti_elem es i) as [->|(k & Hk)]; [constructor|].
  rewrite Forall_forall in Hes. by apply Hes in Hk as (_ & ? & _).
Qed.

Lemma wf_hash n es m :
  wf_value (VTable n es) -> Forall (fun p => wf_value p.1 /\ wf_value p.2) (hash_entries m es).
Proof.
  inversion 1 as [| | | | | |? ? Hn Hes _|]; subst. unfold hash_entries. apply Forall_forall.
  intros p [_ Hp]%list_elem_of_filter. rewrite Forall_forall in Hes. by apply Hes in Hp as (? & ? & _).
Qed.

Lemma pack_one_table f n es depth wb : depth <= 32 ->
  pack_one (S f) (VTable n es) depth wb =
    wb_table (fun v wb => pack_one f v (depth + 1) wb) n es wb.
Proof. intros H. simpl. unfold MAX_DEPTH. by rewrite bool_decide_false by lia. Qed.

Lemma pack_one_spec f v wb bs :
  (f <= 33)%nat -> wf_value v -> wb_repr wb bs ->
  Z.of_nat (length bs) + Z.of_nat (length (encode f v)) < 2 ^ 31 ->
  emits (pack_one (S f) v (33 - Z.of_nat f) wb) bs (fits f v) (encode f v).
Proof.
  revert v wb bs. induction f as [|f IH]; intros v wb bs Hf Hwf Hr Hl.
  { by eexists. }
  destruct v as [|b|n|bits|s|p|n es|t]; cbn [encode fits] in *;
    [cbn [pack_one]; unfold MAX_DEPTH; rewrite bool_decide_false by lia.. |
     rewrite pack_one_table by lia |
     cbn [pack_one]; unfold MAX_DEPTH; rewrite bool_decide_false by lia].
  - by apply emits_push.
  - unfold wb_boolean. rewrite combine_type by (unfold TYPE_BOOLEAN; lia). by apply emits_push.
  - inversion Hwf; subst. by apply emits_integer.
  - unfold wb_real. rewrite combine_type by (unfold TYPE_NUMBER; lia). by apply (emits_push2 wb bs [_]).
  - inversion Hwf; subst. by apply emits_string.
  - by apply (emits_push2 wb bs [_]).
  - pose proof Hwf as Hwf'. inversion Hwf' as [| | | | | |? ? Hn _ _|]; subst. clear Hwf'.
    rewrite !length_app in Hl. cbn [length] in Hl.
    replace (33 - Z.of_nat (S f) + 1) with (33 - Z.of_nat f) by lia.
    set (pk := fun v wb => pack_one (S f) v (33 - Z.of_nat f) wb).
    assert (Hpk : forall v, wf_value v -> packs pk (encode f) (fits f) v)
      by (intros v Hv wb' bs' ? ?; apply IH; [lia|done..]).
    pose proof (wf_array n es n Hwf) as Ha. pose proof (wf_hash n es n Hwf) as Hh.
    rewrite table_steps by (unfold is_i32; lia). apply (emits_bind _ _ _ true _ _).
    { apply emits_header; [done|lia|lia]. }
    intros wb1 Hr1. apply emits_bind.
    { pose proof (emits_array pk (encode f) (fits f) es (Z.to_nat n) 1 wb1) as Hea.
      rewrite Z2Nat.id in Hea by lia. apply Hea; [|done|].
      - eapply Forall_impl; [exact Ha|]. intros ? ?. by apply Hpk.
      - rewrite length_app. unfold array_values in Hl. lia. }
    intros wb2 Hr2.
    rewrite <- (andb_true_r (forallb _ (hash_entries n es))). apply emits_bind.
    { apply emits_hash; [|done|].
      - eapply Forall_impl; [exact Hh|]. intros ? [? ?]. split; by apply Hpk.
      - rewrite !length_app. lia. }
    intros wb3 Hr3. apply emits_push; [done|]. rewrite !length_app. simpl. lia.
  - by eexists.
Qed.

Lemma pack_top_spec v wb bs :
  wf_value v -> wb_repr wb bs ->
  Z.of_nat (length bs) + Z.of_nat (length (encode 33 v)) < 2 ^ 31 ->
  emits (pack_one pack_fuel v 0 wb) bs (fits 33 v) (encode 33 v).
Proof. intros. unfold pack_fuel. by apply (pack_one_spec 33). Qed.

Lemma pack_from_packs enc fit vs wb bs :
  Forall (packs (fun v wb => pack_one pack_fuel v 0 wb) enc fit) vs -> wb_repr wb bs ->
  Z.of_nat (length bs) + Z.of_nat (length (concat (enc <$> vs))) < 2 ^ 31 ->
  emits (pack_from vs wb) bs (forallb fit vs) (concat (enc <$> vs)).
Proof.
  revert wb bs. induction vs as [|v vs IH]; intros wb bs Hwf Hr Hl.
  { exists wb. simpl. by rewrite app_nil_r. }
  apply Forall_cons in Hwf as [Hv Hwf].
  cbn [fmap list_fmap concat forallb pack_from] in *. rewrite length_app in Hl.
  apply emits_bind; [apply Hv; [done|lia]|].
  intros wb' Hr'. apply IH; [done|done|]. rewrite length_app. unfold fmap in *. lia.
Qed.

(** The encoding of a message, at the depth limit of the code. *)
Definition encode_all (vs : list value) : list Z := concat (encode 33 <$> vs).

Lemma pack_spec vs :
  Forall wf_value vs -> Z.of_nat (length (encode_all vs)) < 2 ^ 31 ->
  if forallb (fits 33) vs then _luaseri_pack vs = Ret (encode_all vs)
  else exists m, _luaseri_pack vs = Raise m.
Proof.
  intros Hwf Hl. unfold _luaseri_pack.
  assert (H : emits (pack_from vs wb_init) [] (forallb (fits 33) vs) (encode_all vs)).
  { apply pack_from_packs; [|apply wb_init_repr|exact Hl].
    eapply Forall_impl; [exact Hwf|]. intros v Hv wb bs ? ?. by apply pack_top_spec. }
  unfold emits in H. destruct (forallb (fits 33) vs).
  - destruct H as (wb & -> & Hr). simpl. by rewrite (seri_spec _ _ Hr).
  - destruct H as (m & ->). by exists m.
Qed.

(** ** Unpacking reads the format *)

(** The reader between [pre] and [post]. *)
Definition rb_at (pre post : list Z) : read_block :=
  mk_read_block (pre ++ post) (Z.of_nat (length post)) (Z.of_nat (length pre)).

Lemma rb_at_app pre e post : mk_read_block (pre ++ e ++ post) (Z.of_nat (length post))
  (Z.of_nat (length (pre ++ e))) = rb_at (pre ++ e) post.
Proof. unfold rb_at. by rewrite app_assoc. Qed.

Lemma rb_read_at pre e post n :
  Z.of_nat (length e) = n ->
  rb_read (rb_at pre (e ++ post)) n = Some (Z.of_nat (length pre), rb_at (pre ++ e) post).
Proof.
  intros <-. unfold rb_read, rb_at. cbn [rb_len rb_ptr rb_buffer]. rewrite length_app.
  rewrite bool_decide_false by lia. rewrite <- app_assoc, length_app.
  do 3 f_equal; lia.
Qed.

Lemma get_bytes_at pre e post n :
  Z.of_nat (length e) = n -> get_bytes (rb_at pre (e ++ post)) n = Ret (e, rb_at (pre ++ e) post).
Proof.
  intros Hn. unfold get_bytes. rewrite (rb_read_at _ _ _ _ Hn). cbn [rb_buffer rb_at].
  rewrite <- app_assoc, (read_bytes_mid _ _ _ _ Hn). done.
Qed.

Lemma tag_type t c : 0 <= t < 8 -> Z.land (enc_tag t c) 7 = t.
Proof.
  intros. unfold enc_tag. change 7 with (2 ^ 3 - 1). rewrite land_mask by lia. dlia.
Qed.

Lemma tag_cookie t c : 0 <= t < 8 -> Z.shiftr (enc_tag t c) 3 = c.
Proof. intros. unfold enc_tag. rewrite shiftr_div by lia. dlia. Qed.

(** [e] reads as [v], whatever is around it. *)
Definition decodes (e : list Z) (v : value) : Prop :=
  e <> [] /\ forall pre post fuel, (4 * length e + 1 <= fuel)%nat ->
    unpack_one fuel (rb_at pre (e ++ post)) = Ret (v, rb_at (pre ++ e) post).

Lemma unpack_one_tag fuel pre t c post :
  0 <= t < 8 ->
  unpack_one (S fuel) (rb_at pre ((enc_tag t c :: []) ++ post)) =
    push_value fuel (rb_at (pre ++ [enc_tag t c]) post) t c.
Proof.
  intros Ht. cbn [unpack_one]. rewrite get_bytes_at by done. cbn [mbind outcome_bind le_value].
  replace (enc_tag t c + 256 * 0) with (enc_tag t c) by lia. by rewrite tag_type, tag_cookie.
Qed.

Lemma push_value_scalar fuel rb t c :
  t <> TYPE_TABLE -> push_value fuel rb t c = push_scalar rb t c.
Proof. intros. destruct fuel; simpl; by rewrite bool_decide_false. Qed.

Lemma decodes_scalar t c e v :
  0 <= t < 8 -> t <> TYPE_TABLE ->
  (forall pre post, push_scalar (rb_at pre (e ++ post)) t c = Ret (v, rb_at (pre ++ e) post)) ->
  decodes (enc_tag t c :: e) v.
Proof.
  intros Ht Hne He. split; [done|]. intros pre post fuel Hf.
  destruct fuel as [|fuel]; [lia|].
  change ((enc_tag t c :: e) ++ post) with ([enc_tag t c] ++ (e ++ post)).
  rewrite unpack_one_tag, push_value_scalar, He by done. by rewrite <- app_assoc.
Qed.

Lemma get_integer_at pre post v :
  is_i64 v ->
  get_integer (rb_at pre (enc_payload v ++ post)) (int_cookie v) =
    Ret (v, rb_at (pre ++ enc_payload v) post).
Proof.
  intros Hv. unfold enc_payload, int_cookie, is_i64, is_i32 in *.
  repeat case_bool_decide; subst; unfold get_integer.
  all: rewrite ?bool_decide_false by done; rewrite ?bool_decide_true by done.
  1: change (int_size 0) with 0%nat; simpl; by rewrite app_nil_r.
  all: rewrite ?(get_bytes_at _ (le_bytes _ _)) by done; cbn [mbind outcome_bind];
    rewrite le_value_le_bytes.
  - change (v mod 256 ^ Z.of_nat (int_size 6)) with (u64 v). by rewrite i64_u64, i64_small.
  - change (v mod 256 ^ Z.of_nat (int_size 4)) with (u32 v). by rewrite i32_u32, i32_small.
  - change (256 ^ Z.of_nat (int_size 1)) with 256. by rewrite Z.mod_small by lia.
  - change (256 ^ Z.of_nat (int_size 2)) with 65536. by rewrite Z.mod_small by lia.
  - change (v mod 256 ^ Z.of_nat (int_size 4)) with (u32 v).
    rewrite i32_u32, i32_small; [done|]. unfold is_i32. lia.
Qed.

Lemma get_buffer_at pre s post :
  Z.of_nat (length s) < 2 ^ 31 ->
  get_buffer (rb_at pre (s ++ post)) (Z.of_nat (length s)) = Ret (VString s, rb_at (pre ++ s) post).
Proof.
  intros Hs. unfold get_buffer. rewrite rb_read_at by done. rewrite bool_decide_false by lia.
  cbn [rb_buffer rb_at]. rewrite <- app_assoc, read_bytes_mid by done. done.
Qed.

Lemma decodes_integer v : is_i64 v -> decodes (enc_integer v) (VInteger v).
Proof.
  intros Hv. apply decodes_scalar; [lia|done|]. intros pre post. unfold push_scalar.
  rewrite !bool_decide_false by done. rewrite bool_decide_true by done.
  rewrite bool_decide_false.
  - by rewrite get_integer_at.
  - unfold int_cookie. repeat case_bool_decide; done.
Qed.

Lemma decodes_string s : Z.of_nat (length s) < 2 ^ 31 -> decodes (enc_string s) (VString s).
Proof.
  intros Hs. unfold enc_string. repeat case_decide.
  - apply decodes_scalar; [lia|done|]. intros pre post. unfold push_scalar.
    rewrite !bool_decide_false by done. rewrite bool_decide_true by done. by apply get_buffer_at.
  - apply (decodes_scalar 5 2 (le_bytes 2 (Z.of_nat (length s)) ++ s)); [lia|done|].
    intros pre post. unfold push_scalar.
    rewrite !bool_decide_false by done. rewrite !bool_decide_true by done.
    rewrite <- app_assoc, get_bytes_at by done. cbn [mbind outcome_bind].
    rewrite le_value_le_bytes_small by (change (256 ^ Z.of_nat 2) with 65536; lia).
    rewrite get_buffer_at by done. by rewrite <- app_assoc.
  - apply (decodes_scalar 5 4 (le_bytes 4 (Z.of_nat (length s)) ++ s)); [lia|done|].
    intros pre post. unfold push_scalar.
    rewrite !bool_decide_false by done. rewrite bool_decide_true by done.
    rewrite !bool_decide_false by (first [done | by intros []]).
    rewrite <- app_assoc, get_bytes_at by done. cbn [mbind outcome_bind].
    rewrite le_value_le_bytes_small by (change (256 ^ Z.of_nat 4) with (2 ^ 32); lia).
    rewrite i32_small by (unfold is_i32; lia).
    rewrite get_buffer_at by done. by rewrite <- app_assoc.
Qed.

Lemma decodes_word8 t c mk n :
  0 <= t < 8 -> t <> TYPE_TABLE -> is_u64 n ->
  (forall rb, push_scalar rb t c = ('(bs, rb) ← get_bytes rb 8; Ret (mk (le_value bs), rb))) ->
  decodes (enc_tag t c :: le_bytes 8 n) (mk n).
Proof.
  intros Ht Hne Hn He. apply decodes_scalar; [done|done|]. intros pre post.
  rewrite He, get_bytes_at by done. cbn [mbind outcome_bind].
  rewrite le_value_le_bytes_small; [done|exact Hn].
Qed.

(** *** Tables *)

(** What the two loops of [unpack_table] do to the entries. *)
Fixpoint set_array (acc : list (value * value)) (i : Z) (vs : list value) : list (value * value) :=
  match vs with
  | [] => acc
  | v :: vs => set_array (set_entry acc (VInteger i) v) (i + 1) vs
  end.

Fixpoint set_hash (acc kvs : list (value * value)) : list (value * value) :=
  match kvs with
  | [] => acc
  | (k, v) :: kvs => set_hash (set_entry acc k v) kvs
  end.

Lemma unpack_array_end fuel rb i n es : n < i -> unpack_array fuel rb i n es = Ret (es, rb).
Proof. intros. destruct fuel; simpl; by rewrite bool_decide_false by lia. Qed.

Lemma unpack_array_decodes encs vs : Forall2 decodes encs vs ->
  forall pre post fuel i acc, (4 * length (concat encs) + 2 <= fuel)%nat ->
  unpack_array fuel (rb_at pre (concat encs ++ post)) i (i + Z.of_nat (length vs) - 1) acc =
    Ret (set_array acc i vs, rb_at (pre ++ concat encs) post).
Proof.
  induction 1 as [|e v encs vs [Hne He] _ IH]; intros pre post fuel i acc Hf.
  { rewrite unpack_array_end by (simpl; lia). simpl. by rewrite app_nil_r. }
  destruct fuel as [|fuel]; [lia|]. cbn [concat length] in *. rewrite length_app in Hf.
  destruct e as [|b e]; [done|]. cbn [length] in Hf.
  cbn [unpack_array]. rewrite bool_decide_true by lia.
  rewrite <- app_assoc, He by (cbn [length]; lia). cbn [mbind outcome_bind].
  replace (i + Z.of_nat (S (length vs)) - 1) with ((i + 1) + Z.of_nat (length vs) - 1) by lia.
  rewrite IH by lia. by rewrite <- app_assoc.
Qed.

Lemma rawset_ok es k v : key_ok k -> rawset es k v = Ret (set_entry es k v).
Proof.
  destruct k; try done. simpl. intros [-> Hi]. by rewrite Hi.
Qed.

Lemma decodes_nil : decodes [0] VNil.
Proof.
  apply (decodes_scalar 0 0 [] VNil); [lia|done|]. intros pre post.
  unfold push_scalar. simpl. by rewrite app_nil_r.
Qed.

Lemma unpack_hash_decodes (encs : list (list Z * list Z)) kvs :
  Forall2 (fun e p => decodes e.1 p.1 /\ decodes e.2 p.2 /\ key_ok p.1) encs kvs ->
  forall pre post fuel acc,
  (4 * length (concat ((fun e => e.1 ++ e.2) <$> encs)) + 6 <= fuel)%nat ->
  unpack_hash fuel (rb_at pre (concat ((fun e => e.1 ++ e.2) <$> encs) ++ [0] ++ post)) acc =
    Ret (set_hash acc kvs, rb_at (pre ++ concat ((fun e => e.1 ++ e.2) <$> encs) ++ [0]) post).
Proof.
  induction 1 as [|[ek ev] [k v] encs kvs ([Hnk Hk] & [Hnv Hv] & Hok) _ IH];
    intros pre post fuel acc Hf; (destruct fuel as [|fuel]; [lia|]).
  - cbn [unpack_hash fmap list_fmap concat]. destruct decodes_nil as [_ Hd].
    rewrite app_nil_l, Hd by (simpl; lia). done.
  - cbn [fmap list_fmap concat fst snd] in *. rewrite !length_app in Hf. simpl in Hk, Hv, Hnk, Hnv, Hok.
    destruct ek as [|b ek]; [done|]. destruct ev as [|b' ev]; [done|]. cbn [length] in Hf.
    cbn [unpack_hash]. rewrite <- !app_assoc, Hk by (cbn [length]; lia). cbn [mbind outcome_bind].
    assert (is_nil k = false) as -> by by destruct k.
    rewrite Hv by (cbn [length]; lia). cbn [mbind outcome_bind].
    rewrite rawset_ok by done. cbn [mbind outcome_bind].
    unfold fmap in *. rewrite IH by lia. by rewrite <- !app_assoc.
Qed.

(** The entries of an array part. *)
Fixpoint arr_entries (i : Z) (vs : list value) : list (value * value) :=
  match vs with
  | [] => []
  | v :: vs => (if is_nil v then [] else [(VInteger i, v)]) ++ arr_entries (i + 1) vs
  end.

Lemma set_entry_fresh es k v :
  (forall p, p ∈ es -> raw_equal p.1 k = false) ->
  set_entry es k v = es ++ (if is_nil v then [] else [(k, v)]).
Proof.
  induction es as [|[k' v'] es IH]; intros Hf; [done|]. simpl.
  pose proof (Hf (k', v') ltac:(by left)) as Hk. simpl in Hk. rewrite Hk, IH; [done|]. intros p Hp. apply Hf. by right.
Qed.

Lemma set_array_fresh vs acc i :
  (forall p j, p ∈ acc -> i <= j -> raw_equal p.1 (VInteger j) = false) ->
  set_array acc i vs = acc ++ arr_entries i vs.
Proof.
  revert acc i. induction vs as [|v vs IH]; intros acc i Hf; simpl; [by rewrite app_nil_r|].
  rewrite set_entry_fresh by (intros; apply Hf; [done|lia]).
  rewrite IH; [by rewrite <- app_assoc|]. intros p j [Hp|Hp]%elem_of_app Hj.
  - apply Hf; [done|lia].
  - destruct (is_nil v); [by apply not_elem_of_nil in Hp|].
    apply list_elem_of_singleton in Hp as ->. simpl. apply bool_decide_eq_false. lia.
Qed.

Lemma set_hash_fresh kvs acc :
  Forall (fun p => is_nil p.2 = false) kvs ->
  (forall p q, p ∈ acc -> q ∈ kvs -> raw_equal p.1 q.1 = false) ->
  ForallOrdPairs (fun p q => raw_equal p.1 q.1 = false) kvs ->
  set_hash acc kvs = acc ++ kvs.
Proof.
  revert acc. induction kvs as [|[k v] kvs IH]; intros acc Hn Hf Hp; simpl; [by rewrite app_nil_r|].
  apply Forall_cons in Hn as [Hv Hn]. simpl in Hv. inversion Hp as [|? ? Hh Ht]; subst.
  rewrite set_entry_fresh, Hv by (intros; apply (Hf _ (k, v)); [done|by left]).
  rewrite IH; [by rewrite <- app_assoc|done| |done].
  intros p q [Hpa|Hpa]%elem_of_app Hq; [|apply list_elem_of_singleton in Hpa as ->].
  - apply Hf; [done|by right].
  - rewrite Forall_forall in Hh. by apply (Hh q).
Qed.

Lemma same_raw_equal_l k k' x : same k k' -> raw_equal k' x = raw_equal k x.
Proof. by destruct 1. Qed.

Lemma same_raw_equal_r k k' x : same k k' -> raw_equal x k' = raw_equal x k.
Proof. by destruct 1; destruct x. Qed.

Lemma same_is_nil v v' : same v v' -> is_nil v' = is_nil v.
Proof. by destruct 1. Qed.

Lemma same_key_ok k k' : same k k' -> key_ok k -> key_ok k'.
Proof. by destruct 1. Qed.

Definition same2 (p q : value * value) : Prop := same p.1 q.1 /\ same p.2 q.2.

Lemma arr_entries_same vs vs' i :
  Forall2 same vs vs' -> Forall2 same2 (arr_entries i vs) (arr_entries i vs').
Proof.
  intros H. revert i. induction H as [|v v' vs vs' Hv _ IH]; intros i; simpl; [constructor|].
  rewrite (same_is_nil _ _ Hv). destruct (is_nil v); simpl; [apply IH|].
  constructor; [split; [constructor|done]|apply IH].
Qed.

Lemma arr_entries_app i vs1 vs2 :
  arr_entries i (vs1 ++ vs2) = arr_entries i vs1 ++ arr_entries (i + Z.of_nat (length vs1)) vs2.
Proof.
  revert i. induction vs1 as [|v vs1 IH]; intros i; simpl; [by rewrite Z.add_0_r|].
  rewrite IH, <- app_assoc. do 3 f_equal. lia.
Qed.

Lemma elem_of_arr_entries p i vs :
  p ∈ arr_entries i vs -> exists j, p.1 = VInteger j /\ i <= j < i + Z.of_nat (length vs).
Proof.
  revert i. induction vs as [|v vs IH]; intros i; simpl; [by intros ?%not_elem_of_nil|].
  intros [Hp|Hp]%elem_of_app.
  - destruct (is_nil v); [by apply not_elem_of_nil in Hp|].
    apply list_elem_of_singleton in Hp as ->. exists i. split; [done|lia].
  - destruct (IH _ Hp) as (j & ? & ?). exists j. split; [done|lia].
Qed.

(** *** The entries read back are the entries packed *)

Definition distinct (es : list (value * value)) : Prop :=
  ForallOrdPairs (fun p q => raw_equal p.1 q.1 = false /\ raw_equal q.1 p.1 = false) es.

Definition has_key (m : Z) (p : value * value) : Prop := p.1 = VInteger m.
#[export] Instance has_key_dec m p : Decision (has_key m p).
Proof. unfold has_key. destruct p as [[] ?]; simpl; try (right; done). destruct (decide (n = m)); [left|right]; congruence. Defined.

Lemma rawgeti_absent m es :
  (forall p, p ∈ es -> raw_equal (VInteger m) p.1 = false) -> rawgeti es m = VNil.
Proof.
  induction es as [|[k v] es IH]; intros Hf; [done|]. simpl.
  rewrite IH by (intros; apply Hf; by right).
  pose proof (Hf (k, v) ltac:(by left)) as Hk. destruct k; try done. simpl in Hk.
  apply bool_decide_eq_false in Hk. by rewrite decide_False by done.
Qed.

Lemma filter_has_key m es :
  distinct es -> Forall (fun p => is_nil p.2 = false) es ->
  filter (has_key m) es = if is_nil (rawgeti es m) then [] else [(VInteger m, rawgeti es m)].
Proof.
  induction es as [|[k v] es IH]; intros Hd Hn; [done|].
  apply Forall_cons in Hn as [Hv Hn]. simpl in Hv. inversion Hd as [|? ? Hh Ht]; subst.
  rewrite filter_cons. case_decide as Hk.
  - unfold has_key in Hk. simpl in Hk. subst k.
    assert (Hab : rawgeti es m = VNil).
    { apply rawgeti_absent. rewrite Forall_forall in Hh. intros p Hp. by apply Hh. }
    rewrite IH, Hab by done. simpl. rewrite decide_True, Hv by done. done.
  - rewrite IH by done. assert (rawgeti ((k, v) :: es) m = rawgeti es m) as ->; [|done].
    destruct k; try done. simpl. rewrite decide_False; [done|]. intros ->. by apply Hk.
Qed.

Lemma filter_split {A} (P Q R : A -> Prop)
    `{!forall x, Decision (P x), !forall x, Decision (Q x), !forall x, Decision (R x)} (l : list A) :
  (forall x, x ∈ l -> R x <-> P x \/ Q x) -> (forall x, P x -> Q x -> False) ->
  Permutation (filter R l) (filter P l ++ filter Q l).
Proof.
  intros HR Hd. induction l as [|x l IH]; [done|].
  assert (Hx := HR x ltac:(by left)).
  assert (IH' := IH ltac:(intros; apply HR; by right)).
  rewrite !filter_cons. repeat case_decide; try tauto.
  - exfalso. by apply (Hd x).
  - simpl. by constructor.
  - rewrite IH'. apply Permutation_middle.
Qed.

Lemma array_perm es n :
  distinct es -> Forall (fun p => is_nil p.2 = false) es ->
  Permutation (filter (fun p => in_array (Z.of_nat n) p.1 = true) es)
    (arr_entries 1 (rawgeti es <$> seqZ 1 (Z.of_nat n))).
Proof.
  intros Hd Hn. induction n as [|n IH].
  - change (Permutation (filter (fun p => in_array (Z.of_nat 0) p.1 = true) es) []).
    clear. induction es as [|[k v] es IH]; [done|]. rewrite filter_cons, decide_False; [done|].
    destruct k; try done. simpl. by rewrite bool_decide_false by lia.
  - rewrite Nat2Z.inj_succ, <- Z.add_1_r, seqZ_app, fmap_app, arr_entries_app by lia.
    rewrite length_fmap, length_seqZ, Nat2Z.id.
    change (seqZ (1 + Z.of_nat n) 1) with [0 + (1 + Z.of_nat n)]. rewrite Z.add_0_l.
    cbn [fmap list_fmap arr_entries]. rewrite app_nil_r.
    rewrite <- (filter_has_key (1 + Z.of_nat n)), <- IH by done.
    apply filter_split.
    + intros [k v] _. unfold has_key. simpl. destruct k; simpl; try (split; [done|by intros []]).
      rewrite !bool_decide_eq_true. split; [|intros [|[= ->]]; lia].
      intros ?. destruct (decide (n0 = 1 + Z.of_nat n)); [right; congruence|left; lia].
    + intros [k v]. unfold has_key. simpl. intros Hin ->. simpl in Hin.
      apply bool_decide_eq_true in Hin. lia.
Qed.

Lemma table_perm es n :
  0 <= n -> distinct es -> Forall (fun p => is_nil p.2 = false) es ->
  Permutation es (arr_entries 1 (array_values n es) ++ hash_entries n es).
Proof.
  intros Hpos Hd Hn. unfold array_values, hash_entries. rewrite <- (Z2Nat.id n) by done.
  rewrite <- array_perm by done. symmetry.
  rewrite <- (filter_split _ _ (fun _ => True)); [by rewrite filter_all by by apply Forall_true|..].
  - intros p _. destruct (in_array _ p.1); naive_solver.
  - intros p. congruence.
Qed.

Lemma Forall2_flip_elem {A B} (R : A -> B -> Prop) l k y :
  Forall2 R l k -> y ∈ k -> exists x, x ∈ l /\ R x y.
Proof.
  induction 1 as [|x z l k Hx _ IH]; [by intros ?%not_elem_of_nil|].
  intros [->|Hy]%elem_of_cons; [exists x; split; [by left|done]|].
  destruct (IH Hy) as (x' & ? & ?). exists x'. split; [by right|done].
Qed.

(** Building a table from copies of its parts gives the parts. *)
Lemma table_rebuild n es vs kvs :
  0 <= n -> distinct es -> Forall (fun p => is_nil p.2 = false) es ->
  Forall2 same (array_values n es) vs -> Forall2 same2 (hash_entries n es) kvs ->
  set_hash (set_array [] 1 vs) kvs = arr_entries 1 vs ++ kvs.
Proof.
  intros Hpos Hd Hn Hvs Hkvs.
  rewrite set_array_fresh by by intros ? ? ?%not_elem_of_nil. rewrite app_nil_l.
  assert (Hlen : Z.of_nat (length vs) = n).
  { rewrite <- (Forall2_length _ _ _ Hvs). unfold array_values. rewrite length_fmap, length_seqZ. lia. }
  apply set_hash_fresh.
  - apply Forall_forall. intros q Hq. destruct (Forall2_flip_elem _ _ _ _ Hkvs Hq) as (p & Hp & [_ Hs]).
    rewrite (same_is_nil _ _ Hs). apply list_elem_of_filter in Hp as [_ Hp].
    rewrite Forall_forall in Hn. by apply Hn.
  - intros p q Hp Hq. destruct (elem_of_arr_entries _ _ _ Hp) as (j & -> & Hj).
    destruct (Forall2_flip_elem _ _ _ _ Hkvs Hq) as (q' & Hq' & [Hs _]).
    rewrite (same_raw_equal_r _ _ _ Hs). apply list_elem_of_filter in Hq' as [Hin _].
    destruct q'.1; try done. simpl in *. apply bool_decide_eq_false in Hin.
    apply bool_decide_eq_false. lia.
  - assert (Hdf : distinct (hash_entries n es)).
    { unfold hash_entries. clear -Hd. induction Hd as [|p es Hh Ht IH]; [constructor|].
      rewrite filter_cons. case_decide; [|done]. constructor; [|done].
      rewrite Forall_forall in Hh |- *. intros q [_ Hq]%list_elem_of_filter. by apply Hh. }
    clear -Hkvs Hdf. induction Hkvs as [|p q ps qs [Hp _] Hpq IH]; [constructor|].
    inversion Hdf as [|? ? Hh Ht]; subst. constructor; [|by apply IH].
    apply Forall_forall. intros r Hr.
    destruct (Forall2_flip_elem _ _ _ _ Hpq Hr) as (r' & Hr' & [Hs _]).
    rewrite (same_raw_equal_l _ _ _ Hp), (same_raw_equal_r _ _ _ Hs).
    rewrite Forall_forall in Hh. by apply Hh.
Qed.

Lemma header_decodes n : 0 <= n < 2 ^ 31 -> exists c h,
  enc_table_header n = enc_tag 6 c :: h /\
  forall pre post, unpack_array_size (rb_at pre (h ++ post)) c = Ret (n, rb_at (pre ++ h) post).
Proof.
  intros Hn. unfold enc_table_header. case_decide.
  - exists 31, (enc_integer n). split; [done|]. intros pre post. unfold unpack_array_size.
    rewrite bool_decide_true by done. unfold enc_integer.
    change ((enc_tag 2 (int_cookie n) :: enc_payload n) ++ post)
      with ([enc_tag 2 (int_cookie n)] ++ (enc_payload n ++ post)).
    rewrite get_bytes_at by done. cbn [mbind outcome_bind le_value].
    replace (enc_tag 2 (int_cookie n) + 256 * 0) with (enc_tag 2 (int_cookie n)) by lia.
    rewrite tag_type, tag_cookie by lia. rewrite bool_decide_false.
    2: { unfold int_cookie. intros [?|Hc]; [done|]. repeat case_bool_decide; done. }
    rewrite get_integer_at by (unfold is_i64; lia). cbn [mbind outcome_bind].
    rewrite i32_small by (unfold is_i32; lia). by rewrite <- app_assoc.
  - exists n, []. split; [done|]. intros pre post. unfold unpack_array_size, MAX_COOKIE.
    rewrite bool_decide_false by lia. by rewrite app_nil_r.
Qed.

Lemma decodes_table n vs kvs encs hencs es :
  0 <= n < 2 ^ 31 -> Z.of_nat (length vs) = n -> Forall2 decodes encs vs ->
  Forall2 (fun e p => decodes e.1 p.1 /\ decodes e.2 p.2 /\ key_ok p.1) hencs kvs ->
  set_hash (set_array [] 1 vs) kvs = es ->
  decodes (enc_table_header n ++ concat encs ++ concat ((fun e => e.1 ++ e.2) <$> hencs) ++ [0])
    (VTable (border es) es).
Proof.
  intros Hn Hlen Hvs Hkvs Hes. destruct (header_decodes n Hn) as (c & h & -> & Hh).
  split; [done|]. intros pre post fuel Hf.
  rewrite !length_app in Hf. cbn [length] in Hf.
  destruct fuel as [|[|fuel]]; [lia|lia|].
  replace (((enc_tag 6 c :: h) ++ concat encs ++ concat ((fun e => e.1 ++ e.2) <$> hencs) ++ [0]) ++ post)
    with ([enc_tag 6 c] ++ (h ++ concat encs ++ concat ((fun e => e.1 ++ e.2) <$> hencs) ++ [0] ++ post))
    by (simpl; by rewrite <- !app_assoc).
  rewrite unpack_one_tag by lia. cbn [push_value]. rewrite bool_decide_true by done.
  rewrite Hh. cbn [mbind outcome_bind].
  replace n with (1 + Z.of_nat (length vs) - 1) by lia.
  rewrite (unpack_array_decodes _ _ Hvs) by lia. cbn [mbind outcome_bind].
  rewrite (unpack_hash_decodes _ _ Hkvs) by lia. cbn [mbind outcome_bind].
  rewrite Hes. do 3 f_equal. simpl. by rewrite <- !app_assoc.
Qed.

Lemma Forall_choose {A B} (R : A -> B -> Prop) l :
  Forall (fun x => exists y, R x y) l -> exists k, Forall2 R l k.
Proof.
  induction 1 as [|x l (y & Hy) _ (k & Hk)]; [by exists []|]. exists (y :: k). by constructor.
Qed.

Lemma forallb_elem {A} (f : A -> bool) l x : forallb f l = true -> x ∈ l -> f x = true.
Proof. intros H Hx. rewrite forallb_forall in H. apply H. by apply list_elem_of_In. Qed.

Lemma encode_decodes f v :
  wf_value v -> fits f v = true -> exists v', decodes (encode f v) v' /\ same v v'.
Proof.
  revert v. induction f as [|f IH]; intros v Hwf Hfit; [done|].
  destruct v as [|b|n|bits|s|p|n es|t]; cbn [encode fits] in *; [| | | | | | |done].
  - exists VNil. split; [apply decodes_nil|constructor].
  - exists (VBoolean b). split; [|constructor]. apply decodes_scalar; [lia|done|].
    intros pre post. unfold push_scalar. rewrite app_nil_r. by destruct b.
  - inversion Hwf; subst. exists (VInteger n). split; [by apply decodes_integer|constructor].
  - inversion Hwf; subst. exists (VReal bits). split; [|constructor].
    apply (decodes_word8 2 8 VReal); [lia|done|done|]. intros rb.
    unfold push_scalar, get_real. simpl. by destruct (get_bytes rb 8) as [[]| |].
  - inversion Hwf; subst. exists (VString s). split; [by apply decodes_string|constructor].
  - inversion Hwf; subst. exists (VPointer p). split; [|constructor].
    apply (decodes_word8 3 0 VPointer); [lia|done|done|]. intros rb.
    unfold push_scalar, get_pointer. simpl. by destruct (get_bytes rb 8) as [[]| |].
  - apply andb_true_iff in Hfit as [Hfa Hfh].
    pose proof (wf_array n es n Hwf) as Ha. pose proof (wf_hash n es n Hwf) as Hh.
    inversion Hwf as [| | | | | |? ? Hn Hes Hd|]; subst.
    destruct (Forall_choose (fun v v' => decodes (encode f v) v' /\ same v v') (array_values n es))
      as (vs & Hvs).
    { apply Forall_forall. intros v Hv. apply IH; [|by eapply forallb_elem].
      rewrite Forall_forall in Ha. by apply Ha. }
    destruct (Forall_choose (fun p q => key_ok p.1 /\ decodes (encode f p.1) q.1 /\
       decodes (encode f p.2) q.2 /\ same2 p q) (hash_entries n es)) as (kvs & Hkvs).
    { apply Forall_forall. intros q Hq. rewrite Forall_forall in Hh. destruct (Hh q Hq) as [H1 H2].
      pose proof (forallb_elem _ _ _ Hfh Hq) as [F1 F2]%andb_true_iff.
      destruct (IH _ H1 F1) as (k' & ? & ?), (IH _ H2 F2) as (v' & ? & ?). exists (k', v').
      split; [|done]. apply list_elem_of_filter in Hq as [_ Hq].
      rewrite Forall_forall in Hes. by apply Hes in Hq as (_ & _ & ? & _). }
    assert (Hnil : Forall (fun p => is_nil p.2 = false) es)
      by (eapply Forall_impl; [exact Hes|]; by intros ? (? & ? & ? & ?)).
    assert (Hsv : Forall2 same (array_values n es) vs) by (eapply Forall2_impl; [exact Hvs|tauto]).
    assert (Hsk : Forall2 same2 (hash_entries n es) kvs)
      by (eapply Forall2_impl; [exact Hkvs|tauto]).
    eexists. split.
    + pose proof (decodes_table n vs kvs (encode f <$> array_values n es)
        ((fun p => (encode f p.1, encode f p.2)) <$> hash_entries n es)) as Hdt.
      rewrite <- list_fmap_compose in Hdt. apply Hdt; [done| | | |].
      * rewrite <- (Forall2_length _ _ _ Hvs). unfold array_values.
        rewrite length_fmap, length_seqZ. lia.
      * apply Forall2_fmap_l. eapply Forall2_impl; [exact Hvs|]. simpl. tauto.
      * apply Forall2_fmap_l. eapply Forall2_impl; [exact Hkvs|].
        intros p q (Hk & H1 & H2 & [Hs _]). simpl. split_and!; [done|done|].
        by apply (same_key_ok _ _ Hs).
      * apply (table_rebuild n es); [lia|done..].
    + eapply same_table; [apply (table_perm es n); [lia|done|done]|].
      apply Forall2_app; [by apply arr_entries_same|done].
Qed.

(** *** Messages *)

Lemma unpack_loop_step fuel pre e post v :
  decodes e v ->
  unpack_loop (S fuel) (rb_at pre (e ++ post)) =
    (vs ← unpack_loop fuel (rb_at (pre ++ e) post); Ret (v :: vs)).
Proof.
  intros [Hne Hd]. destruct e as [|b e]; [done|].
  assert (Hone := Hd pre post (S (unpack_fuel (Z.of_nat (length (e ++ post)))))).
  assert (Hf : (4 * length (b :: e) + 1 <= S (unpack_fuel (Z.of_nat (length (e ++ post)))))%nat)
    by (unfold unpack_fuel; rewrite length_app; simpl; lia).
  specialize (Hone Hf). cbn [unpack_one] in Hone. cbn [unpack_loop].
  change ((b :: e) ++ post) with ([b] ++ (e ++ post)) in *.
  rewrite rb_read_at by done. rewrite get_bytes_at in Hone by done.
  cbn [mbind outcome_bind] in Hone. cbn [rb_buffer rb_at]. rewrite <- app_assoc.
  rewrite read_bytes_mid by done. cbn [mbind outcome_bind rb_len rb_at]. rewrite Hone. done.
Qed.

Lemma unpack_loop_decodes encs vs : Forall2 decodes encs vs ->
  forall pre fuel, (length (concat encs) <= fuel)%nat ->
  unpack_loop fuel (rb_at pre (concat encs)) = Ret vs.
Proof.
  induction 1 as [|e v encs vs He _ IH]; intros pre fuel Hf.
  - by destruct fuel.
  - cbn [concat] in *. rewrite length_app in Hf.
    assert (Hlen : (0 < length e)%nat) by (destruct He as [He _]; destruct e; [done|simpl; lia]).
    destruct fuel as [|fuel]; [lia|].
    rewrite unpack_loop_step with (v := v) by done. rewrite IH by lia. done.
Qed.

Lemma unpack_encode_all vs :
  Forall wf_value vs -> forallb (fits 33) vs = true -> exists vs',
  Forall2 same vs vs' /\ unpack_buffer (encode_all vs) (Z.of_nat (length (encode_all vs))) = Ret vs'.
Proof.
  intros Hwf Hfit.
  destruct (Forall_choose (fun v v' => decodes (encode 33 v) v' /\ same v v') vs) as (vs' & Hvs).
  { apply Forall_forall. intros v Hv. apply encode_decodes; [|by eapply forallb_elem].
    rewrite Forall_forall in Hwf. by apply Hwf. }
  exists vs'. split; [eapply Forall2_impl; [exact Hvs|]; intros v v' [_ Hs]; exact Hs|].
  unfold unpack_buffer, encode_all. rewrite Nat2Z.id.
  change (rball_init ?b (Z.of_nat (length ?b))) with (rb_at [] b).
  apply unpack_loop_decodes; [|done].
  apply Forall2_fmap_l. eapply Forall2_impl; [exact Hvs|]. intros v v' [Hd _]. exact Hd.
Qed.

(** ** Safety of unpacking arbitrary bytes *)

Definition safe {A} (P : A -> Prop) (o : outcome A) : Prop :=
  match o with
  | Ret a => P a
  | Raise _ => True
  | Crash _ => False
  end.

Lemma safe_bind {A B} (P : A -> Prop) (Q : B -> Prop) (o : outcome A) (k : A -> outcome B) :
  safe P o -> (forall a, P a -> safe Q (k a)) -> safe Q (a ← o; k a).
Proof. destruct o; simpl; auto. Qed.

(** The reader stays inside its buffer. *)
Record rb_ok (rb : read_block) : Prop := mk_rb_ok {
  ro_ptr : 0 <= rb_ptr rb;
  ro_len : 0 <= rb_len rb;
  ro_in : rb_ptr rb + rb_len rb <= Z.of_nat (length (rb_buffer rb))
}.

(** [rb'] is [rb] moved forward by at least [n] bytes. *)
Definition moved (n : Z) (rb rb' : read_block) : Prop := rb_ok rb' /\ rb_len rb' + n <= rb_len rb.

Lemma get_bytes_safe rb n : rb_ok rb -> 0 <= n ->
  safe (fun p => moved n rb p.2) (get_bytes rb n).
Proof.
  intros [H1 H2 H3] Hn. unfold get_bytes, rb_read. case_bool_decide; [done|].
  cbn [rb_buffer]. unfold read_bytes. rewrite decide_True by lia. simpl.
  split; [split; simpl; lia|simpl; lia].
Qed.

Lemma get_integer_safe rb c : rb_ok rb -> safe (fun p => moved 0 rb p.2) (get_integer rb c).
Proof.
  intros Hrb. unfold get_integer. assert (moved 0 rb rb) by (split; [done|lia]).
  repeat case_bool_decide; try done;
    (eapply safe_bind; [apply get_bytes_safe; [done|lia]|]; intros [bs rb'] [Ho1 Ho2]; simpl in *;
     split; [done|simpl; lia]).
Qed.

Lemma get_buffer_safe rb n : rb_ok rb -> safe (fun p => moved 0 rb p.2) (get_buffer rb n).
Proof.
  intros [H1 H2 H3]. unfold get_buffer, rb_read. repeat case_bool_decide; try done.
  cbn [rb_buffer]. unfold read_bytes. rewrite decide_True by lia. simpl.
  split; [split; simpl; lia|simpl; lia].
Qed.

Lemma get_real_safe rb : rb_ok rb -> safe (fun p => moved 0 rb p.2) (get_real rb).
Proof.
  intros Hrb. unfold get_real. eapply safe_bind; [apply get_bytes_safe; [done|lia]|].
  intros [bs rb'] [Ho Hl]. split; [done|simpl in *; lia].
Qed.

Lemma push_scalar_safe rb t c : rb_ok rb -> safe (fun p => moved 0 rb p.2) (push_scalar rb t c).
Proof.
  intros Hrb. unfold push_scalar. assert (moved 0 rb rb) by (split; [done|lia]).
  repeat case_bool_decide; try done; try by apply get_buffer_safe.
  - eapply safe_bind; [by apply get_real_safe|]. by intros [n rb'] ?.
  - eapply safe_bind; [by apply get_integer_safe|]. by intros [n rb'] ?.
  - eapply safe_bind; [by apply get_real_safe|]. by intros [n rb'] ?.
  - eapply safe_bind; [apply get_bytes_safe; [done|lia]|]. intros [bs rb'] [Hm ?]. simpl in *.
    pose proof (get_buffer_safe rb' (le_value bs) Hm) as Hs. destruct (get_buffer rb' _) as [[]| |];
      try done. destruct Hs. split; [done|simpl in *; lia].
  - eapply safe_bind; [apply get_bytes_safe; [done|lia]|]. intros [bs rb'] [Hm ?]. simpl in *.
    pose proof (get_buffer_safe rb' (i32 (le_value bs)) Hm) as Hs.
    destruct (get_buffer rb' _) as [[]| |]; try done. destruct Hs. split; [done|simpl in *; lia].
Qed.

Lemma unpack_array_size_safe rb c :
  rb_ok rb -> safe (fun p => moved 0 rb p.2) (unpack_array_size rb c).
Proof.
  intros Hrb. unfold unpack_array_size. case_bool_decide; [|split; [done|simpl; lia]].
  eapply safe_bind; [apply get_bytes_safe; [done|lia]|]. intros [bs rb'] [Hm ?]. simpl in *.
  case_bool_decide; [done|]. eapply safe_bind; [by apply get_integer_safe|].
  intros [n rb''] [? ?]. split; [done|simpl in *; lia].
Qed.

Lemma rawset_safe es k v : is_nil k = false -> safe (fun _ => True) (rawset es k v).
Proof. destruct k; simpl; try done. intros _. by destruct (real_is_nan bits). Qed.

Lemma unpack_safe fuel :
  (forall rb, rb_ok rb -> 4 * rb_len rb + 2 <= Z.of_nat fuel ->
     safe (fun p => moved 1 rb p.2) (unpack_one fuel rb)) /\
  (forall rb t c, rb_ok rb -> 4 * rb_len rb + 4 <= Z.of_nat fuel ->
     safe (fun p => moved 0 rb p.2) (push_value fuel rb t c)) /\
  (forall rb i n es, rb_ok rb -> 4 * rb_len rb + 3 <= Z.of_nat fuel ->
     safe (fun p => moved 0 rb p.2) (unpack_array fuel rb i n es)) /\
  (forall rb es, rb_ok rb -> 4 * rb_len rb + 3 <= Z.of_nat fuel ->
     safe (fun p => moved 0 rb p.2) (unpack_hash fuel rb es)).
Proof.
  induction fuel as [|fuel (IHo & IHp & IHa & IHh)].
  { split_and!; intros rb; intros; destruct H; lia. }
  split_and!.
  - intros rb Hrb Hf. cbn [unpack_one].
    eapply safe_bind; [apply get_bytes_safe; [done|lia]|]. intros [bs rb'] [Hm ?]. simpl in *.
    pose proof (IHp rb' (Z.land (le_value bs) 7) (Z.shiftr (le_value bs) 3) Hm ltac:(lia)) as Hs.
    destruct (push_value _ _ _ _) as [[]| |]; try done. destruct Hs. split; [done|simpl in *; lia].
  - intros rb t c Hrb Hf. cbn [push_value]. case_bool_decide; [|by apply push_scalar_safe].
    eapply safe_bind; [by apply unpack_array_size_safe|]. intros [n rb1] [Ho1 ?]. simpl in *.
    eapply safe_bind; [apply IHa; [done|lia]|]. intros [es rb2] [Ho2 ?]. simpl in *.
    eapply safe_bind; [apply IHh; [done|lia]|]. intros [es' rb3] [Ho3 ?]. simpl in *.
    split; [done|simpl; lia].
  - intros rb i n es Hrb Hf. cbn [unpack_array]. case_bool_decide; [|split; [done|simpl; lia]].
    eapply safe_bind; [apply IHo; [done|lia]|]. intros [v rb1] [Ho1 ?]. simpl in *.
    pose proof (IHa rb1 (i + 1) n (set_entry es (VInteger i) v) Ho1 ltac:(lia)) as Hs.
    destruct (unpack_array _ _ _ _ _) as [[]| |]; try done. destruct Hs. split; [done|simpl in *; lia].
  - intros rb es Hrb Hf. cbn [unpack_hash].
    eapply safe_bind; [apply IHo; [done|lia]|]. intros [k rb1] [Ho1 ?]. simpl in *.
    destruct (is_nil k) eqn:Ek; [split; [done|simpl; lia]|].
    eapply safe_bind; [apply IHo; [done|lia]|]. intros [v rb2] [Ho2 ?]. simpl in *.
    eapply safe_bind; [by apply rawset_safe|]. intros es' _.
    pose proof (IHh rb2 es' Ho2 ltac:(lia)) as Hs.
    destruct (unpack_hash _ _ _) as [[]| |]; try done. destruct Hs. split; [done|simpl in *; lia].
Qed.

Lemma unpack_loop_safe fuel rb :
  rb_ok rb -> rb_len rb <= Z.of_nat fuel -> safe (fun _ => True) (unpack_loop fuel rb).
Proof.
  revert rb. induction fuel as [|fuel IH]; intros rb Hrb Hf; cbn [unpack_loop];
    unfold rb_read; case_bool_decide; try done; destruct Hrb as [Ho1 Ho2 Ho3]; [lia|].
  cbn [rb_buffer rb_len]. unfold read_bytes. rewrite decide_True by lia. cbn [mbind outcome_bind].
  eapply safe_bind.
  - apply (proj1 (proj2 (unpack_safe _))); [split; simpl; lia|].
    unfold unpack_fuel. cbn [rb_len]. lia.
  - intros [v rb'] [Hm Hl]. cbn [snd rb_len] in *.
    eapply safe_bind; [apply IH; [done|lia]|]. done.
Qed.

(* ------------------------------------------------------------------ *)
(** ** Properties *)

(** C17: what is packed comes back.  Every list of packable values (tables at
    most [MAX_DEPTH] deep, no functions or full userdata) whose encoding is
    shorter than 2^31 bytes is packed, and unpacking the buffer, as a string or
    as a pointer and length, gives the same values: scalars are equal, tables
    hold the same entries, tables as keys or values included. *)
Theorem seri_roundtrip vs :
  Forall wf_value vs -> forallb (fits 33) vs = true ->
  Z.of_nat (length (encode_all vs)) < 2 ^ 31 ->
  exists bs vs', _luaseri_pack vs = Ret bs /\ Forall2 same vs vs' /\
    _luaseri_unpack (ArgString bs) = Ret vs' /\
    _luaseri_unpack (ArgBlock (Some bs) (Z.of_nat (length bs))) = Ret vs'.
Proof.
  intros Hwf Hfit Hl. pose proof (pack_spec vs Hwf Hl) as Hp. rewrite Hfit in Hp.
  destruct (unpack_encode_all vs Hwf Hfit) as (vs' & Hs & Hu).
  exists (encode_all vs), vs'. split; [done|]. split; [done|].
  unfold _luaseri_unpack. rewrite i32_small by (unfold is_i32; lia).
  case_bool_decide as Hz; [|by rewrite Hu].
  destruct (encode_all vs) eqn:E; [|simpl in Hz; lia].
  change (Ret ([] : list value) = Ret vs') in Hu. by rewrite Hu.
Qed.

Definition demo_values : list value :=
  [VTable 2 [(VInteger 2, VString [104; 105]); (VTable 0 [], VBoolean false); (VInteger 1, VPointer 7);
             (VReal 4609434218613702656, VInteger (-70000))]; VNil; VInteger (2 ^ 40)].

Lemma demo_values_wf : Forall wf_value demo_values.
Proof.
  repeat first [apply Forall_cons; split | apply Forall_nil; exact I];
    repeat first [constructor | split | discriminate | lia].
Qed.

Lemma seri_roundtrip_witness :
  forallb (fits 33) demo_values = true /\
  exists bs vs', _luaseri_pack demo_values = Ret bs /\ Forall2 same demo_values vs' /\
    _luaseri_unpack (ArgString bs) = Ret vs' /\
    _luaseri_unpack (ArgBlock (Some bs) (Z.of_nat (length bs))) = Ret vs'.
Proof.
  split; [by vm_compute|].
  apply seri_roundtrip; [apply demo_values_wf|by vm_compute|by vm_compute].
Defined.

(** Packing writes exactly the documented format, over however many blocks,
    when every value can be packed, and raises a Lua error (too deep, or an
    unsupported type) when some value cannot; it never runs off a block. *)
Theorem pack_writes_format vs :
  Forall wf_value vs -> Z.of_nat (length (encode_all vs)) < 2 ^ 31 ->
  if forallb (fits 33) vs then _luaseri_pack vs = Ret (encode_all vs)
  else exists m, _luaseri_pack vs = Raise m.
Proof. apply pack_spec. Qed.

(** [n] tables, one in the other. *)
Fixpoint nest (n : nat) : value :=
  match n with
  | O => VTable 0 []
  | S n => VTable 1 [(VInteger 1, nest n)]
  end.

Lemma nest_wf n : wf_value (nest n).
Proof.
  induction n as [|n IH]; constructor; try lia; try by constructor.
  - constructor; [|constructor]. split_and!; [by constructor|done|done|by destruct n].
  - by repeat constructor.
Qed.

Lemma pack_writes_format_witness :
  (Forall wf_value [nest 32] /\ forallb (fits 33) [nest 32] = true /\
   if forallb (fits 33) [nest 32] then _luaseri_pack [nest 32] = Ret (encode_all [nest 32])
   else exists m, _luaseri_pack [nest 32] = Raise m) /\
  (forallb (fits 33) [nest 33] = false /\
   if forallb (fits 33) [nest 33] then _luaseri_pack [nest 33] = Ret (encode_all [nest 33])
   else exists m, _luaseri_pack [nest 33] = Raise m).
Proof.
  split.
  - split; [constructor; [apply (nest_wf 32)|constructor]|split; [by vm_compute|]].
    apply pack_writes_format; [constructor; [apply (nest_wf 32)|constructor]|by vm_compute].
  - split; [by vm_compute|].
    apply pack_writes_format; [constructor; [apply (nest_wf 33)|constructor]|by vm_compute].
Defined.

(** Unpacking any string of less than 2^31 bytes, or any length inside a block of memory. *)
Lemma unpack_safe_all (b : list Z) (len : Z) :
  len <= Z.of_nat (length b) < 2 ^ 31 -> - 2 ^ 31 <= len ->
  safe (fun _ => True) (_luaseri_unpack (ArgString b)) /\
  safe (fun _ => True) (_luaseri_unpack (ArgBlock (Some b) len)).
Proof.
  intros Hb Hlen. assert (Hall : forall n, n <= Z.of_nat (length b) -> 0 <= n ->
    safe (fun _ => True) (unpack_buffer b n)).
  { intros n Hn Hpos. apply unpack_loop_safe; [split; simpl; lia|simpl; lia]. }
  unfold _luaseri_unpack. rewrite !i32_small by (unfold is_i32; lia).
  split; case_bool_decide; try done; [apply Hall; lia|].
  destruct (decide (0 <= len)); [apply Hall; lia|].
  unfold unpack_buffer. replace (Z.to_nat len) with 0%nat by lia. cbn [unpack_loop].
  unfold rb_read. simpl. by rewrite bool_decide_true by lia.
Qed.
