(* ===== verification/SeriStack.v ===== *)
(** * Unpacking on a Lua stack (src/lualib-src/lua-seri.c)

    Seri reads the bytes as if the Lua stack had no end.  Here the reader counts the slots
    that are free: it pushes each value, a table stays on the stack while its entries are
    read, and a key while its value is.  Only the outermost loop asks Lua for more slots. *)
From S2P Require Import Prelude Seri.
From stdpp Require Import base list gmap numbers strings.
From Stdlib Require Import ZArith Lia.

Local Open Scope Z_scope.

(** A push with [room] free slots. *)
Definition push {A} (room : Z) (o : outcome A) : outcome A := if bool_decide (room <= 0) then Crash StackOverflow else o.

(** As [unpack_one], [push_value] and the two loops of [unpack_table] in Seri; the result of
    [unpack_one_on] and [push_value_on] is one value on the stack. *)
Fixpoint unpack_one_on (fuel : nat) (room : Z) (rb : read_block) : outcome (value * read_block) :=
  match fuel with
  | O => Crash OutOfFuel
  | S fuel => '(t, rb) ← get_bytes rb 1; push_value_on fuel room rb (Z.land (le_value t) 7) (Z.shiftr (le_value t) 3)
  end
with push_value_on (fuel : nat) (room : Z) (rb : read_block) (type cookie : Z) : outcome (value * read_block) :=
  if bool_decide (type = TYPE_TABLE) then
    match fuel with
    | O => Crash OutOfFuel
    | S fuel =>
        '(array_size, rb) ← unpack_array_size rb cookie;
        push room
          ('(es, rb) ← unpack_array_on fuel (room - 1) rb 1 array_size [];
           '(es, rb) ← unpack_hash_on fuel (room - 1) rb es;
           Ret (VTable (border es) es, rb))
    end
  else '(v, rb) ← push_scalar rb type cookie; push room (Ret (v, rb))
with unpack_array_on (fuel : nat) (room : Z) (rb : read_block) (i array_size : Z) (es : list (value * value))
  : outcome (list (value * value) * read_block) :=
  if bool_decide (i <= array_size) then
    match fuel with
    | O => Crash OutOfFuel
    | S fuel =>
        '(v, rb) ← unpack_one_on fuel room rb;
        unpack_array_on fuel room rb (i + 1) array_size (set_entry es (VInteger i) v)
    end
  else Ret (es, rb)
with unpack_hash_on (fuel : nat) (room : Z) (rb : read_block) (es : list (value * value))
  : outcome (list (value * value) * read_block) :=
  match fuel with
  | O => Crash OutOfFuel
  | S fuel =>
      '(k, rb) ← unpack_one_on fuel room rb;
      if is_nil k then Ret (es, rb)
      else
        '(v, rb) ← unpack_one_on fuel (room - 1) rb;
        es ← rawset es k v;
        unpack_hash_on fuel room rb es
  end.

Section STACK.
(** The free slots after [lua_checkstack] asked for some; it never takes slots away, and
    the code does not look whether it succeeded. *)
Context (checkstack : Z -> Z -> Z) (checkstack_grows : forall room n, room <= checkstack room n).

(** The loop of [_luaseri_unpack]: [i] values are on the stack. *)
Fixpoint unpack_loop_on (fuel : nat) (i room : Z) (rb : read_block) : outcome (list value) :=
  let room := if bool_decide (i mod 16 = 15) then checkstack room i else room in
  match rb_read rb 1 with
  | None => Ret []
  | Some (p, rb') =>
      match fuel with
      | O => Crash OutOfFuel
      | S fuel =>
          t ← read_bytes (rb_buffer rb') p 1;
          '(v, rb) ← push_value_on (unpack_fuel (rb_len rb')) room rb' (Z.land (le_value t) 7)
                       (Z.shiftr (le_value t) 3);
          vs ← unpack_loop_on fuel (i + 1) (room - 1) rb;
          Ret (v :: vs)
      end
  end.

(** [room] slots are free behind [lua_settop(L,0)]. *)
Definition _luaseri_unpack_on (room : Z) (arg : unpack_arg) : outcome (list value) :=
  let unpack buffer len := unpack_loop_on (Z.to_nat len) 0 room (rball_init buffer len) in
  match arg with
  | ArgNil => Ret []
  | ArgString s =>
      let len := i32 (Z.of_nat (length s)) in
      if bool_decide (len = 0) then Ret [] else unpack s len
  | ArgBlock buffer len =>
      let len := i32 len in
      if bool_decide (len = 0) then Ret []
      else match buffer with
           | None => Raise "deserialize null pointer"
           | Some b => unpack b len
           end
  end.

(** ** The two readers *)

(** With the stack the reader does the same, or runs out of slots. *)
Definition agrees {A} (o' o : outcome A) : Prop := o' = o \/ o' = Crash StackOverflow.

Lemma agrees_refl {A} (o : outcome A) : agrees o o.
Proof. by left. Qed.

Lemma agrees_bind {A B} (o' o : outcome A) (k' k : A -> outcome B) : agrees o' o -> (forall a, agrees (k' a) (k a)) -> agrees (a ← o'; k' a) (a ← o; k a).
Proof. intros [-> | ->] Hk; [|by right]. destruct o; [apply Hk|by left|by left]. Qed.

Lemma agrees_push {A} room (o' o : outcome A) : agrees o' o -> agrees (push room o') o.
Proof. intros Ho. unfold push. case_bool_decide; [by right|done]. Qed.

Lemma unpack_agrees fuel :
  (forall room rb, agrees (unpack_one_on fuel room rb) (unpack_one fuel rb)) /\
  (forall room rb t c, agrees (push_value_on fuel room rb t c) (push_value fuel rb t c)) /\
  (forall room rb i n es, agrees (unpack_array_on fuel room rb i n es) (unpack_array fuel rb i n es)) /\
  (forall room rb es, agrees (unpack_hash_on fuel room rb es) (unpack_hash fuel rb es)).
Proof.
  assert (Hscalar : forall room rb t c, agrees ('(v, rb) ← push_scalar rb t c; push room (Ret (v, rb))) (push_scalar rb t c)).
  { intros room rb t c. destruct (push_scalar rb t c) as [[v rb1]| |]; [apply agrees_push; by left|by left|by left]. }
  induction fuel as [|fuel (IHo & IHp & IHa & IHh)].
  { split_and!; intros; cbn; try case_bool_decide; first [by apply agrees_refl | apply Hscalar]. }
  split_and!; intros.
  - cbn [unpack_one_on unpack_one]. apply agrees_bind; [apply agrees_refl|]. intros [t rb1]. apply IHp.
  - cbn [push_value_on push_value]. case_bool_decide; [|apply Hscalar]. apply agrees_bind; [apply agrees_refl|]. intros [n rb1].
    apply agrees_push, agrees_bind; [apply IHa|]. intros [es rb2]. apply agrees_bind; [apply IHh|]. intros [es' rb3]. apply agrees_refl.
  - cbn [unpack_array_on unpack_array]. case_bool_decide; [|apply agrees_refl]. apply agrees_bind; [apply IHo|]. intros [v rb1]. apply IHa.
  - cbn [unpack_hash_on unpack_hash]. apply agrees_bind; [apply IHo|]. intros [k rb1]. destruct (is_nil k); [apply agrees_refl|].
    apply agrees_bind; [apply IHo|]. intros [v rb2]. apply agrees_bind; [apply agrees_refl|]. intros es'. apply IHh.
Qed.

Lemma push_fits {A} room (o : outcome A) : 0 < room -> push room o = o.
Proof. intros Hr. unfold push. by rewrite bool_decide_false by lia. Qed.

(** A table needs a slot for itself and one for a key, and takes at least two bytes. *)
Lemma unpack_fits fuel :
  (forall room rb, rb_ok rb -> 4 * rb_len rb + 2 <= Z.of_nat fuel -> 2 * rb_len rb <= room ->
     unpack_one_on fuel room rb = unpack_one fuel rb) /\
  (forall room rb t c, rb_ok rb -> 4 * rb_len rb + 4 <= Z.of_nat fuel -> 2 * rb_len rb + 1 <= room ->
     push_value_on fuel room rb t c = push_value fuel rb t c) /\
  (forall room rb i n es, rb_ok rb -> 4 * rb_len rb + 3 <= Z.of_nat fuel -> 2 * rb_len rb <= room ->
     unpack_array_on fuel room rb i n es = unpack_array fuel rb i n es) /\
  (forall room rb es, rb_ok rb -> 4 * rb_len rb + 3 <= Z.of_nat fuel -> 2 * rb_len rb <= room ->
     unpack_hash_on fuel room rb es = unpack_hash fuel rb es).
Proof.
  induction fuel as [|fuel (IHo & IHp & IHa & IHh)].
  { split_and!; intros room rb; intros; destruct H; lia. }
  pose proof (unpack_safe fuel) as (So & _ & Sa & _). split_and!.
  - intros room rb Hrb Hf Hr. cbn [unpack_one_on unpack_one]. pose proof (get_bytes_safe rb 1 Hrb ltac:(lia)) as Hs.
    destruct (get_bytes rb 1) as [[t rb1]| |]; [|done|done]. destruct Hs as [Hm Hl]. cbn [snd] in *. rewrite !bind_Ret. apply IHp; [done|lia|lia].
  - intros room rb t c Hrb Hf Hr. pose proof (ro_len _ Hrb) as H0. cbn [push_value_on push_value]. case_bool_decide as Ht.
    + pose proof (unpack_array_size_safe rb c Hrb) as Hs. destruct (unpack_array_size rb c) as [[n rb1]| |]; [|done|done]. destruct Hs as [Hm Hl]. cbn [snd] in *.
      rewrite !bind_Ret, push_fits by lia. rewrite IHa by (first [done | lia]).
      pose proof (Sa rb1 1 n [] Hm ltac:(lia)) as Hs. destruct (unpack_array fuel rb1 1 n []) as [[es rb2]| |]; [|done|done]. destruct Hs as [Hm2 Hl2]. cbn [snd] in *.
      rewrite !bind_Ret. by rewrite IHh by (first [done | lia]).
    + destruct (push_scalar rb t c) as [[v rb1]| |]; [|done|done]. rewrite bind_Ret. by apply push_fits; lia.
  - intros room rb i n es Hrb Hf Hr. cbn [unpack_array_on unpack_array]. case_bool_decide; [|done]. rewrite IHo by (first [done | lia]).
    pose proof (So rb Hrb ltac:(lia)) as Hs. destruct (unpack_one fuel rb) as [[v rb1]| |]; [|done|done]. destruct Hs as [Hm Hl]. cbn [snd] in *.
    rewrite !bind_Ret. apply IHa; [done|lia|lia].
  - intros room rb es Hrb Hf Hr. cbn [unpack_hash_on unpack_hash]. rewrite IHo by (first [done | lia]).
    pose proof (So rb Hrb ltac:(lia)) as Hs. destruct (unpack_one fuel rb) as [[k rb1]| |]; [|done|done]. destruct Hs as [Hm Hl]. cbn [snd] in *.
    rewrite !bind_Ret. destruct (is_nil k); [done|]. rewrite IHo by (first [done | lia]).
    pose proof (So rb1 Hm ltac:(lia)) as Hs. destruct (unpack_one fuel rb1) as [[v rb2]| |]; [|done|done]. destruct Hs as [Hm2 Hl2]. cbn [snd] in *.
    rewrite !bind_Ret. destruct (rawset es k v) as [es'| |]; [|done|done]. rewrite !bind_Ret. apply IHh; [done|lia|lia].
Qed.

Lemma unpack_loop_agrees fuel : forall i room rb, agrees (unpack_loop_on fuel i room rb) (unpack_loop fuel rb).
Proof.
  induction fuel as [|fuel IH]; intros i room rb; cbn [unpack_loop_on unpack_loop]; destruct (rb_read rb 1) as [[p rb1]|]; try apply agrees_refl.
  apply agrees_bind; [apply agrees_refl|]. intros t. apply agrees_bind; [apply unpack_agrees|]. intros [v rb2].
  apply agrees_bind; [apply IH|]. intros vs. apply agrees_refl.
Qed.

Lemma unpack_loop_fits fuel : forall i room rb, rb_ok rb -> rb_len rb <= Z.of_nat fuel -> 2 * rb_len rb <= room ->
  unpack_loop_on fuel i room rb = unpack_loop fuel rb.
Proof.
  induction fuel as [|fuel IH]; intros i room rb Hrb Hf Hr; cbn [unpack_loop_on unpack_loop]; unfold rb_read; case_bool_decide; try done.
  destruct Hrb as [Ho1 Ho2 Ho3]. cbn [rb_buffer rb_len]. unfold read_bytes. rewrite decide_True by lia. rewrite !bind_Ret.
  match goal with |- context [push_value_on _ _ ?r _ _] => set (rb1 := r) end. set (room1 := if bool_decide (i mod 16 = 15) then checkstack room i else room).
  assert (Hroom : room <= room1) by (unfold room1; case_bool_decide; [apply checkstack_grows|lia]).
  assert (Hrb1 : rb_ok rb1) by (split; cbn; lia). assert (Hlen : rb_len rb1 = rb_len rb - 1) by done.
  set (t := Z.land _ 7). set (c := Z.shiftr _ 3).
  rewrite (proj1 (proj2 (unpack_fits _))) by (first [done | unfold unpack_fuel; lia]).
  pose proof (proj1 (proj2 (unpack_safe (unpack_fuel (rb_len rb1)))) rb1 t c Hrb1 ltac:(unfold unpack_fuel; lia)) as Hs.
  change (rb_len rb - 1) with (rb_len rb1). destruct (push_value _ rb1 t c) as [[v rb2]| |]; [|done|done]. destruct Hs as [Hm Hl]. cbn [snd] in *.
  rewrite !bind_Ret. by rewrite IH by (first [done | lia]).
Qed.

(** C18: Unpacking any string of less than 2^31 bytes, well-formed or not, or any length
    inside a block of memory, ends: no read leaves the buffer, and the recursion and the
    loops come to an end, with the values or a Lua error.  On a Lua stack with any number
    of free slots it does the same or needs a slot that is not there, which the code does
    not look at and nested tables can bring about ([nesting_overruns]); two slots for each
    byte are always enough. *)
Theorem unpack_total (b : list Z) (len room : Z) :
  len <= Z.of_nat (length b) < 2 ^ 31 -> - 2 ^ 31 <= len ->
  forall arg, arg = ArgString b \/ arg = ArgBlock (Some b) len ->
  safe (fun _ => True) (_luaseri_unpack arg) /\
  agrees (_luaseri_unpack_on room arg) (_luaseri_unpack arg) /\
  (2 * Z.of_nat (length b) <= room -> _luaseri_unpack_on room arg = _luaseri_unpack arg).
Proof.
  intros Hb Hlen arg Harg. destruct (unpack_safe_all b len Hb Hlen) as [Hs1 Hs2]. split; [by destruct Harg as [-> | ->]|]. clear Hs1 Hs2.
  assert (Hall : forall n, n <= Z.of_nat (length b) -> - 2 ^ 31 <= n ->
    agrees (unpack_loop_on (Z.to_nat n) 0 room (rball_init b n)) (unpack_buffer b n) /\
    (2 * Z.of_nat (length b) <= room -> unpack_loop_on (Z.to_nat n) 0 room (rball_init b n) = unpack_buffer b n)).
  { intros n Hn Hpos. split; [apply unpack_loop_agrees|]. intros Hr. unfold unpack_buffer. destruct (decide (0 <= n)).
    - apply unpack_loop_fits; [split; cbn; lia|cbn; lia|cbn; lia].
    - replace (Z.to_nat n) with 0%nat by lia. cbn [unpack_loop_on unpack_loop]. unfold rb_read. cbn. by rewrite bool_decide_true by lia. }
  destruct Harg as [-> | ->]; unfold _luaseri_unpack_on, _luaseri_unpack; rewrite i32_small by (unfold is_i32; lia);
    (case_bool_decide; [split; [apply agrees_refl|done]|]); apply Hall; lia.
Qed.
End STACK.

Lemma unpack_total_witness :
  _luaseri_unpack_on (fun room _ => room) 14 (ArgString [14; 37; 255; 255; 255; 255; 9]) = _luaseri_unpack (ArgString [14; 37; 255; 255; 255; 255; 9]) /\
  safe (fun _ => True) (_luaseri_unpack (ArgBlock (Some [14; 37; 255; 255; 255; 255; 9]) 6)).
Proof.
  destruct (unpack_total (fun room _ => room) (fun room _ => Z.le_refl room) [14; 37; 255; 255; 255; 255; 9] 6 14 ltac:(cbn; lia) ltac:(lia) _ (or_introl eq_refl)) as (_ & _ & Hfit).
  destruct (unpack_total (fun room _ => room) (fun room _ => Z.le_refl room) [14; 37; 255; 255; 255; 255; 9] 6 14 ltac:(cbn; lia) ltac:(lia) _ (or_intror eq_refl)) as (Hsafe & _).
  split; [apply Hfit; cbn; lia|exact Hsafe].
Defined.

(** Lua promises 20 slots; what [_luaseri_pack] makes of eleven tables, each the value of a
    key of the one around it, needs more. *)
Definition nested_table (n : nat) : value := Nat.iter n (fun v => VTable 0 [(VBoolean true, v)]) (VTable 0 []).

Example nesting_overruns :
  (bs ← _luaseri_pack [nested_table 9]; _luaseri_unpack_on (fun room n => Z.max room n) 20 (ArgString bs)) = Ret [nested_table 9] /\
  (bs ← _luaseri_pack [nested_table 10]; _luaseri_unpack_on (fun room n => Z.max room n) 20 (ArgString bs)) = Crash StackOverflow.
Proof. by vm_compute. Qed.
