(* ===== verification/NetPack.v ===== *)
(** * Packet framing for Lua gates (src/lualib-src/lua-netpack.c)

    A packet is a 2-byte big-endian length and that many bytes.  [filter] cuts
    the chunks that arrive on each socket into packets: incomplete ones wait in
    hash buckets by socket, complete ones are returned at once or queued in a
    growing ring that [pop] empties. *)
From S2P Require Import Prelude.
From stdpp Require Import base list gmap numbers strings.
From Stdlib Require Import ZArith Lia.

Local Open Scope Z_scope.

Definition QUEUESIZE : nat := Z.to_nat 1024.
Definition HASHSIZE : nat := Z.to_nat 4096.
Definition SMALLSTRING : Z := 2048.

Record netpack := mk_netpack { np_id : Z; np_size : Z; np_buffer : list Z }.

(** [read] is -1 while only the first byte, [header], of the length is known. *)
Record uncomplete := mk_uncomplete {
  uc_pack : netpack;
  uc_read : Z;
  uc_header : Z
}.

(** The lists [next] makes of the hash buckets are Rocq lists. *)
Record queue := mk_queue {
  q_cap : nat;
  q_head : nat;
  q_tail : nat;
  q_hash : list (list uncomplete);
  q_queue : list netpack
}.

#[export] Instance netpack_inhabited : Inhabited netpack := populate (mk_netpack 0 0 []).

(** Memory not written yet. *)
Definition fresh_queue (n : nat) : list netpack := replicate n (mk_netpack 0 0 []).

(** [lclear], with the packet buffers it frees.  NULL does nothing. *)
Definition lclear (q : option queue) : list (list Z) * option queue :=
  match q with
  | None => ([], None)
  | Some q =>
      let tail := if bool_decide (q_tail q < q_head q)%nat then (q_tail q + q_cap q)%nat else q_tail q in
      ((fun i => np_buffer (q_queue q !!! (i mod q_cap q)%nat)) <$> seq (q_head q) (tail - q_head q),
       Some (mk_queue (q_cap q) 0 0 (replicate HASHSIZE []) (q_queue q)))
  end.

Definition hash_fd (fd : Z) : Z :=
  let a := Z.shiftr fd 24 in
  let b := Z.shiftr fd 12 in
  let c := fd in
  u32 (i32 (a + b + c)) mod Z.of_nat HASHSIZE.

(** The first entry of [fd] in a bucket, taken out of it. *)
Fixpoint take_uncomplete (l : list uncomplete) (fd : Z) : option (uncomplete * list uncomplete) :=
  match l with
  | [] => None
  | uc :: l =>
      if bool_decide (np_id (uc_pack uc) = fd) then Some (uc, l)
      else match take_uncomplete l fd with
           | None => None
           | Some (uc', l') => Some (uc', uc :: l')
           end
  end.

Definition set_bucket (q : queue) (h : Z) (l : list uncomplete) : outcome queue :=
  b ← write_at (q_hash q) h l;
  Ret (mk_queue (q_cap q) (q_head q) (q_tail q) b (q_queue q)).

Definition find_uncomplete (q : option queue) (fd : Z)
  : outcome (option uncomplete * option queue) :=
  match q with
  | None => Ret (None, None)
  | Some q =>
      let h := hash_fd fd in
      l ← read_at (q_hash q) h;
      match take_uncomplete l fd with
      | None => Ret (None, Some q)
      | Some (uc, l) => q ← set_bucket q h l; Ret (Some uc, Some q)
      end
  end.

Definition get_queue (q : option queue) : queue :=
  match q with
  | Some q => q
  | None => mk_queue QUEUESIZE 0 0 (replicate HASHSIZE []) (fresh_queue QUEUESIZE)
  end.

(** [for (i=0;i<q->cap;i++) nq->queue[i] = q->queue[(q->head + i) % q->cap];] *)
Definition expand_queue (q : queue) : queue :=
  mk_queue (q_cap q + QUEUESIZE) 0 (q_cap q) (q_hash q)
    (ring_items (q_queue q) (q_head q) (q_cap q) ++ fresh_queue QUEUESIZE).

Definition push_data (q : option queue) (fd : Z) (buffer : list Z) : outcome queue :=
  let q := get_queue q in
  l ← write_at (q_queue q) (Z.of_nat (q_tail q)) (mk_netpack fd (Z.of_nat (length buffer)) buffer);
  let tail := if bool_decide (q_cap q <= q_tail q + 1)%nat then (q_tail q + 1 - q_cap q)%nat
              else (q_tail q + 1)%nat in
  let q := mk_queue (q_cap q) (q_head q) tail (q_hash q) l in
  Ret (if bool_decide (q_head q = q_tail q) then expand_queue q else q).

Definition save_uncomplete (q : option queue) (fd : Z) (uc : uncomplete) : outcome queue :=
  let q := get_queue q in
  let h := hash_fd fd in
  l ← read_at (q_hash q) h;
  set_bucket q h (uc :: l).

Definition read_size (buffer : list Z) : outcome Z :=
  b0 ← read_at buffer 0;
  b1 ← read_at buffer 1;
  Ret (Z.lor (Z.shiftl b0 8) b1).

(** A new buffer of [pack_size] bytes, the first of them copied from [buffer]. *)
Definition partial_buffer (pack_size : Z) (buffer : list Z) : outcome (list Z) :=
  write_bytes (replicate (Z.to_nat pack_size) 0) 0 buffer.

(** The entry of a packet of which only [buffer] has arrived. *)
Definition save_header (q : option queue) (fd b : Z) : outcome queue :=
  save_uncomplete q fd (mk_uncomplete (mk_netpack fd 0 []) (-1) b).
Definition save_partial (q : option queue) (fd pack_size : Z) (buffer : list Z) : outcome queue :=
  buf ← partial_buffer pack_size buffer;
  save_uncomplete q fd (mk_uncomplete (mk_netpack fd pack_size buf) (Z.of_nat (length buffer)) 0).

Fixpoint push_more (fuel : nat) (q : option queue) (fd : Z) (buffer : list Z) : outcome queue :=
  match fuel with
  | O => Crash OutOfFuel
  | S fuel =>
      let size := Z.of_nat (length buffer) in
      if bool_decide (size = 1) then
        b ← read_at buffer 0; save_header q fd b
      else
        pack_size ← read_size buffer;
        let buffer := drop 2 buffer in
        let size := size - 2 in
        if bool_decide (size < pack_size) then save_partial q fd pack_size buffer
        else
          q ← push_data q fd (take (Z.to_nat pack_size) buffer);
          let buffer := drop (Z.to_nat pack_size) buffer in
          if bool_decide (size - pack_size > 0) then push_more fuel (Some q) fd buffer
          else Ret q
  end.

(** What [filter] answers: nothing but the queue, one packet, or "more". *)
Inductive filtered :=
| FNone
| FData (fd : Z) (packet : list Z)
| FMore
| FError (fd : Z) (msg : list Z)
| FOpen (fd : Z) (msg : list Z)
| FClose (fd : Z).

(** The header of an incomplete packet of which one byte is known. *)
Definition fill_header (uc : uncomplete) (buffer : list Z) : outcome (uncomplete * list Z) :=
  if bool_decide (uc_read uc < 0) then
    if bool_decide (uc_read uc = -1) then
      b ← read_at buffer 0;
      let pack_size := Z.lor b (Z.shiftl (uc_header uc) 8) in
      Ret (mk_uncomplete (mk_netpack (np_id (uc_pack uc)) pack_size (replicate (Z.to_nat pack_size) 0))
             0 (uc_header uc), drop 1 buffer)
    else Crash AssertFailed
  else Ret (uc, buffer).

(** The rest of the branch, once the length is known. *)
Definition fill_body (q : queue) (fd : Z) (uc : uncomplete) (buffer : list Z)
  : outcome (filtered * option queue) :=
  let size := Z.of_nat (length buffer) in
  let need := np_size (uc_pack uc) - uc_read uc in
  let set_buf buf r := mk_uncomplete (mk_netpack (np_id (uc_pack uc)) (np_size (uc_pack uc)) buf) r
                         (uc_header uc) in
  if bool_decide (size < need) then
    buf ← write_bytes (np_buffer (uc_pack uc)) (uc_read uc) buffer;
    let h := hash_fd fd in
    l ← read_at (q_hash q) h;
    q ← set_bucket q h (set_buf buf (uc_read uc + size) :: l);
    Ret (FNone, Some q)
  else
    buf ← write_bytes (np_buffer (uc_pack uc)) (uc_read uc) (take (Z.to_nat need) buffer);
    let buffer := drop (Z.to_nat need) buffer in
    if bool_decide (size - need = 0) then Ret (FData fd buf, Some q)
    else
      q ← push_data (Some q) fd buf;
      q ← push_more (length buffer) (Some q) fd buffer;
      Ret (FMore, Some q).

Definition fill_uncomplete (q : queue) (fd : Z) (uc : uncomplete) (buffer : list Z)
  : outcome (filtered * option queue) :=
  '(uc, buffer) ← fill_header uc buffer;
  fill_body q fd uc buffer.

(** The branch without an incomplete packet. *)
Definition filter_new (q : option queue) (fd : Z) (buffer : list Z)
  : outcome (filtered * option queue) :=
  let size := Z.of_nat (length buffer) in
  if bool_decide (size = 1) then
    b ← read_at buffer 0; q ← save_header q fd b; Ret (FNone, Some q)
  else
    pack_size ← read_size buffer;
    let buffer := drop 2 buffer in
    let size := size - 2 in
    if bool_decide (size < pack_size) then
      q ← save_partial q fd pack_size buffer; Ret (FNone, Some q)
    else if bool_decide (size = pack_size) then Ret (FData fd buffer, q)
    else
      q ← push_data q fd (take (Z.to_nat pack_size) buffer);
      let buffer := drop (Z.to_nat pack_size) buffer in
      q ← push_more (length buffer) (Some q) fd buffer;
      Ret (FMore, Some q).

Definition filter_data_ (q : option queue) (fd : Z) (buffer : list Z)
  : outcome (filtered * option queue) :=
  '(uc, q) ← find_uncomplete q fd;
  match uc, q with
  | Some uc, Some q => fill_uncomplete q fd uc buffer
  | _, q => filter_new q fd buffer
  end.

(** The caller's buffer is freed after the call; it is not used again. *)
Definition filter_data (q : option queue) (fd : Z) (buffer : list Z)
  : outcome (filtered * option queue) := filter_data_ q fd buffer.

Definition pushstring (buffer : list Z) (size : Z) : outcome (list Z) :=
  if bool_decide (size < 0) then Raise "memory allocation error: block too big"
  else read_bytes buffer 0 size.

(** [size] is the size of the padding: [luaL_checkinteger(L,3)] less the structure. *)
Definition lfilter (q : option queue) (m : socket_message) (size : Z)
  : outcome (filtered * option queue) :=
  let '(buffer, size) := match sm_buffer m with
                         | None => (sm_padding m, size)
                         | Some b => (b, -1)
                         end in
  if bool_decide (sm_type m = SKYNET_SOCKET_TYPE_DATA) then
    if bool_decide (size = -1) then
      bs ← read_bytes buffer 0 (sm_ud m); filter_data q (sm_id m) bs
    else Crash AssertFailed
  else if bool_decide (sm_type m = SKYNET_SOCKET_TYPE_CONNECT) then Ret (FNone, q)
  else if bool_decide (sm_type m = SKYNET_SOCKET_TYPE_CLOSE) then Ret (FClose (sm_id m), q)
  else if bool_decide (sm_type m = SKYNET_SOCKET_TYPE_ACCEPT) then
    s ← pushstring buffer size; Ret (FOpen (sm_ud m) s, q)
  else if bool_decide (sm_type m = SKYNET_SOCKET_TYPE_ERROR) then
    s ← pushstring buffer size; Ret (FError (sm_id m) s, q)
  else Ret (FNone, q).

Definition lpop (q : option queue) : outcome (option (Z * list Z) * option queue) :=
  match q with
  | None => Ret (None, None)
  | Some q =>
      if bool_decide (q_head q = q_tail q) then Ret (None, Some q)
      else
        np ← read_at (q_queue q) (Z.of_nat (q_head q));
        let head := if bool_decide (q_cap q <= q_head q + 1)%nat then O else (q_head q + 1)%nat in
        Ret (Some (np_id np, np_buffer np),
             Some (mk_queue (q_cap q) head (q_tail q) (q_hash q) (q_queue q)))
  end.

Definition write_size (len : Z) : list Z := [Z.land (Z.shiftr len 8) 0xff; Z.land len 0xff].

Definition lpack (ptr : list Z) : outcome (list Z) :=
  let len := Z.of_nat (length ptr) in
  if bool_decide (len > 0x10000) then Raise "Invalid size (too long) of data"
  else Ret (write_size len ++ ptr).

(** The same bytes, built on the stack ([tmp]) or in a userdata. *)
Definition lpack_string (ptr : list Z) : outcome (list Z) :=
  let len := Z.of_nat (length ptr) in
  if bool_decide (len > 0x10000) then Raise "Invalid size (too long) of data"
  else
    let buffer := replicate (Z.to_nat (if bool_decide (len <= SMALLSTRING) then SMALLSTRING + 2
                                       else len + 2)) 0 in
    buffer ← write_bytes buffer 0 (write_size len);
    buffer ← write_bytes buffer 2 ptr;
    read_bytes buffer 0 (len + 2).

Definition lpack_padding (cookie ptr : list Z) : outcome (list Z) :=
  let content_sz := Z.of_nat (length ptr) in
  let len := Z.of_nat (length cookie) + content_sz in
  if bool_decide (len > 0x10000) then Raise "Invalid size (too long) of data"
  else
    let buffer := replicate (Z.to_nat (if bool_decide (len <= SMALLSTRING) then SMALLSTRING + 2
                                       else len + 2)) 0 in
    buffer ← write_bytes buffer 0 (write_size len);
    buffer ← write_bytes buffer 2 ptr;
    buffer ← write_bytes buffer (2 + content_sz) cookie;
    read_bytes buffer 0 (len + 2).

Definition ltostring (ptr : option (list Z)) (size : Z) (offset : option Z) : outcome (list Z) :=
  match ptr with
  | None => Ret []
  | Some ptr =>
      match offset with
      | Some offset =>
          if bool_decide (offset < 0) then Raise "Invalid offset"
          else
            let offset := if bool_decide (offset > size) then size else offset in
            read_bytes ptr offset (size - offset)
      | None => read_bytes ptr 0 size
      end
  end.

(* ------------------------------------------------------------------ *)
(** ** The specification: cutting a byte stream into packets *)

Fixpoint parse_fuel (n : nat) (bs : list Z) : list (list Z) * list Z :=
  match n, bs with
  | S n, b0 :: b1 :: rest =>
      let len := Z.to_nat (b0 * 256 + b1) in
      if decide (length rest < len)%nat then ([], bs)
      else let '(ps, r) := parse_fuel n (drop len rest) in (take len rest :: ps, r)
  | _, _ => ([], bs)
  end.

(** The complete packets of a stream, and the bytes left over. *)
Definition parse (bs : list Z) : list (list Z) * list Z := parse_fuel (length bs) bs.

Lemma parse_fuel_cons n b0 b1 rest :
  parse_fuel (S n) (b0 :: b1 :: rest) =
    if decide (length rest < Z.to_nat (b0 * 256 + b1))%nat then ([], b0 :: b1 :: rest)
    else let '(ps, r) := parse_fuel n (drop (Z.to_nat (b0 * 256 + b1)) rest) in
         (take (Z.to_nat (b0 * 256 + b1)) rest :: ps, r).
Proof. done. Qed.

Lemma parse_fuel_enough n bs : (length bs <= n)%nat -> parse_fuel n bs = parse bs.
Proof.
  unfold parse. revert bs. induction n as [n IH] using lt_wf_ind. intros bs Hl.
  destruct bs as [|b0 [|b1 rest]]; [by destruct n|by destruct n|].
  destruct n as [|n]; [simpl in Hl; lia|]. simpl in Hl.
  cbn [length]. rewrite !parse_fuel_cons. case_decide as Hlt; [done|].
  rewrite (IH n) by size_lia.
  rewrite (IH (S (length rest))) by size_lia. done.
Qed.

Lemma parse_short bs : (length bs < 2)%nat -> parse bs = ([], bs).
Proof. destruct bs as [|? [|? ?]]; simpl; [done|done|lia]. Qed.

Lemma parse_cons b0 b1 rest :
  parse (b0 :: b1 :: rest) =
    let len := Z.to_nat (b0 * 256 + b1) in
    if decide (length rest < len)%nat then ([], b0 :: b1 :: rest)
    else let '(ps, r) := parse (drop len rest) in (take len rest :: ps, r).
Proof.
  unfold parse at 1. cbn [length]. rewrite parse_fuel_cons. cbv zeta. case_decide; [done|].
  rewrite (parse_fuel_enough (S (length rest))) by size_lia. done.
Qed.

(** Cutting a stream in two places: the left-over of the first part goes before
    the second. *)
Lemma parse_app a b :
  parse (a ++ b) =
    let '(ps, r) := parse a in let '(ps', r') := parse (r ++ b) in (ps ++ ps', r').
Proof.
  induction a as [a IH] using (well_founded_induction (Wf_nat.well_founded_ltof _ (@length Z))).
  destruct a as [|b0 [|b1 rest]].
  - change (parse []) with (@nil (list Z), @nil Z). simpl. by destruct (parse b).
  - rewrite (parse_short [b0]) by (simpl; lia). cbv zeta. by destruct (parse ([b0] ++ b)).
  - rewrite (parse_cons b0 b1 rest). cbv zeta. case_decide as Hlt.
    + by destruct (parse ((b0 :: b1 :: rest) ++ b)).
    + change ((b0 :: b1 :: rest) ++ b) with (b0 :: b1 :: (rest ++ b)). rewrite parse_cons. cbv zeta.
      rewrite decide_False by size_lia.
      rewrite drop_app_le, take_app_le by lia.
      rewrite IH by (unfold Wf_nat.ltof; rewrite length_drop; simpl; lia).
      destruct (parse (drop _ rest)) as [ps r]. by destruct (parse (r ++ b)).
Qed.

(** ** Representation *)

(** The bytes an incomplete packet stands for. *)
Definition uc_bytes (uc : uncomplete) : list Z :=
  if bool_decide (uc_read uc = -1) then [uc_header uc]
  else be_bytes 2 (np_size (uc_pack uc)) ++ take (Z.to_nat (uc_read uc)) (np_buffer (uc_pack uc)).

Definition uc_ok (uc : uncomplete) : Prop :=
  (uc_read uc = -1 /\ is_byte (uc_header uc)) \/
  (0 <= uc_read uc < np_size (uc_pack uc) /\ np_size (uc_pack uc) < 65536 /\
   Z.of_nat (length (np_buffer (uc_pack uc))) = np_size (uc_pack uc)).

Definition uc_id (uc : uncomplete) : Z := np_id (uc_pack uc).

Fixpoint lookup_uc (l : list uncomplete) (fd : Z) : option (list Z) :=
  match l with
  | [] => None
  | uc :: l => if bool_decide (uc_id uc = fd) then Some (uc_bytes uc) else lookup_uc l fd
  end.

Record q_ok (q : queue) (items : list (Z * list Z)) (m : gmap Z (list Z)) : Prop := mk_q_ok {
  qo_cap : length (q_queue q) = q_cap q;
  qo_head : (q_head q < q_cap q)%nat;
  qo_ring : exists n, (n < q_cap q)%nat /\ q_tail q = ((q_head q + n) mod q_cap q)%nat /\
    items = (fun np => (np_id np, np_buffer np)) <$> ring_items (q_queue q) (q_head q) n;
  qo_hash : length (q_hash q) = HASHSIZE;
  qo_buckets h l : q_hash q !! h = Some l ->
    Forall (fun uc => uc_ok uc /\ Z.to_nat (hash_fd (uc_id uc)) = h) l /\ NoDup (uc_id <$> l);
  qo_map fd : m !! fd = match q_hash q !! Z.to_nat (hash_fd fd) with
                        | Some l => lookup_uc l fd
                        | None => None
                        end
}.

Lemma hash_range fd : 0 <= hash_fd fd < Z.of_nat HASHSIZE.
Proof. unfold hash_fd. apply Z.mod_pos_bound. reflexivity. Qed.

Lemma get_queue_ok : q_ok (get_queue None) [] ∅.
Proof.
  assert (0 < QUEUESIZE)%nat by (apply Nat.ltb_lt; reflexivity).
  unfold get_queue. split; cbn [q_cap q_head q_tail q_hash q_queue].
  - apply length_replicate.
  - done.
  - exists 0%nat. rewrite Nat.add_0_r, Nat.mod_small by done. done.
  - apply length_replicate.
  - intros h l [-> _]%lookup_replicate. split; constructor.
  - intros fd. rewrite lookup_empty. pose proof (hash_range fd).
    rewrite lookup_replicate_2 by lia. done.
Qed.

Lemma take_uncomplete_spec l fd :
  match take_uncomplete l fd with
  | None => lookup_uc l fd = None /\ fd ∉ uc_id <$> l
  | Some (uc, l') => exists l1 l2, l = l1 ++ uc :: l2 /\ l' = l1 ++ l2 /\ uc_id uc = fd /\
      lookup_uc l fd = Some (uc_bytes uc)
  end.
Proof.
  induction l as [|uc l IH]; [split; [done|apply not_elem_of_nil]|].
  cbn [take_uncomplete lookup_uc]. change (np_id (uc_pack uc)) with (uc_id uc).
  case_bool_decide as Hid; [by exists [], l|].
  destruct (take_uncomplete l fd) as [[uc' l']|].
  - destruct IH as (l1 & l2 & -> & -> & ? & ?). by exists (uc :: l1), l2.
  - destruct IH as [? ?]. split; [done|]. cbn [fmap list_fmap]. apply not_elem_of_cons. done.
Qed.

Lemma lookup_uc_app l1 l2 fd : fd ∉ uc_id <$> l1 -> lookup_uc (l1 ++ l2) fd = lookup_uc l2 fd.
Proof.
  induction l1 as [|uc l1 IH]; [done|]. cbn [fmap list_fmap]. intros [Hne Hn]%not_elem_of_cons.
  simpl. rewrite bool_decide_false by done. by apply IH.
Qed.

Lemma lookup_uc_remove l1 uc l2 fd :
  fd <> uc_id uc -> lookup_uc (l1 ++ l2) fd = lookup_uc (l1 ++ uc :: l2) fd.
Proof.
  intros Hne. induction l1 as [|uc' l1 IH]; simpl.
  - by rewrite (bool_decide_false (uc_id uc = fd)).
  - by rewrite IH.
Qed.

Lemma lookup_uc_none l fd : fd ∉ uc_id <$> l -> lookup_uc l fd = None.
Proof. intros H. rewrite <- (app_nil_r l). by rewrite lookup_uc_app. Qed.

Definition set_hash_list (q : queue) (h : nat) (l : list uncomplete) : queue :=
  mk_queue (q_cap q) (q_head q) (q_tail q) (<[h := l]> (q_hash q)) (q_queue q).

Lemma set_bucket_ok q fd l : length (q_hash q) = HASHSIZE ->
  set_bucket q (hash_fd fd) l = Ret (set_hash_list q (Z.to_nat (hash_fd fd)) l).
Proof.
  intros Hl. unfold set_bucket. pose proof (hash_range fd).
  rewrite write_at_Z by lia. done.
Qed.

Lemma bucket_read q items m fd : q_ok q items m ->
  exists l, q_hash q !! Z.to_nat (hash_fd fd) = Some l /\
    read_at (q_hash q) (hash_fd fd) = Ret l /\ m !! fd = lookup_uc l fd.
Proof.
  intros Hq. pose proof (hash_range fd).
  destruct (lookup_lt_is_Some_2 (q_hash q) (Z.to_nat (hash_fd fd))) as [l Hl].
  { rewrite (qo_hash _ _ _ Hq). lia. }
  exists l. split_and!; [done|by apply read_at_Z; [lia|]|].
  by rewrite (qo_map _ _ _ Hq), Hl.
Qed.

(** Replacing one bucket. *)
Lemma q_ok_set_bucket q items m m' fd l l' :
  q_ok q items m -> q_hash q !! Z.to_nat (hash_fd fd) = Some l ->
  Forall (fun uc => uc_ok uc /\ Z.to_nat (hash_fd (uc_id uc)) = Z.to_nat (hash_fd fd)) l' ->
  NoDup (uc_id <$> l') ->
  (forall x, x <> fd -> lookup_uc l' x = lookup_uc l x) ->
  m' !! fd = lookup_uc l' fd -> (forall x, x <> fd -> m' !! x = m !! x) ->
  q_ok (set_hash_list q (Z.to_nat (hash_fd fd)) l') items m'.
Proof.
  intros [H1 H2 H3 H4 H5 H6] Hl Hall Hnd Hsame Hfd Hm.
  assert (Hlt : (Z.to_nat (hash_fd fd) < length (q_hash q))%nat) by (by eapply lookup_lt_Some).
  split; cbn [q_cap q_head q_tail q_hash q_queue set_hash_list];
    [done|done|done|by rewrite length_insert| |].
  - intros h k. destruct (decide (h = Z.to_nat (hash_fd fd))) as [->|Hne].
    + rewrite list_lookup_insert_eq by done. by intros [= <-].
    + rewrite list_lookup_insert_ne by done. apply H5.
  - intros x. destruct (decide (Z.to_nat (hash_fd x) = Z.to_nat (hash_fd fd))) as [He|Hne].
    + rewrite He, list_lookup_insert_eq by done. destruct (decide (x = fd)) as [->|Hx]; [done|].
      rewrite Hm, Hsame, H6, He, Hl by done. done.
    + rewrite list_lookup_insert_ne by done. rewrite Hm by (by intros ->). apply H6.
Qed.

Lemma find_spec q items m fd :
  q_ok q items m ->
  match m !! fd with
  | None => find_uncomplete (Some q) fd = Ret (None, Some q)
  | Some bs => exists uc q', find_uncomplete (Some q) fd = Ret (Some uc, Some q') /\
      bs = uc_bytes uc /\ uc_ok uc /\ uc_id uc = fd /\ q_ok q' items (delete fd m)
  end.
Proof.
  intros Hq. destruct (bucket_read q items m fd Hq) as (l & Hl & Hrd & Hm).
  unfold find_uncomplete. rewrite Hrd. cbn [mbind outcome_bind].
  pose proof (take_uncomplete_spec l fd) as Ht. destruct (take_uncomplete l fd) as [[uc l']|].
  - destruct Ht as (l1 & l2 & -> & -> & Hid & Hlk). rewrite Hm, Hlk.
    rewrite set_bucket_ok by apply (qo_hash _ _ _ Hq). cbn [mbind outcome_bind].
    destruct (qo_buckets _ _ _ Hq _ _ Hl) as [Hall Hnd].
    rewrite fmap_app in Hnd. cbn [fmap list_fmap] in Hnd.
    apply Forall_app in Hall as [Ha1 Ha2]. apply Forall_cons in Ha2 as [[Huc _] Ha2].
    assert (Hnd' : NoDup (uc_id <$> (l1 ++ l2)) /\ (fd ∉ uc_id <$> (l1 ++ l2))).
    { rewrite fmap_app, <- Hid. apply NoDup_middle in Hnd. tauto. }
    eexists uc, _. split_and!; [done|done|done|done|].
    eapply q_ok_set_bucket; [done|done|by apply Forall_app|tauto| | |].
    + intros x Hx. apply lookup_uc_remove. congruence.
    + rewrite lookup_delete_eq, lookup_uc_none by tauto. done.
    + intros x Hx. by rewrite lookup_delete_ne.
  - destruct Ht as [Hlk _]. by rewrite Hm, Hlk.
Qed.

Lemma save_spec q items m fd uc :
  q_ok (get_queue q) items m -> m !! fd = None -> uc_ok uc -> uc_id uc = fd ->
  exists q', save_uncomplete q fd uc = Ret q' /\ q_ok q' items (<[fd := uc_bytes uc]> m).
Proof.
  intros Hq Hnone Huc Hid. unfold save_uncomplete.
  destruct (bucket_read _ items m fd Hq) as (l & Hl & -> & Hm). cbn [mbind outcome_bind].
  rewrite set_bucket_ok by apply (qo_hash _ _ _ Hq). eexists. split; [done|].
  destruct (qo_buckets _ _ _ Hq _ _ Hl) as [Hall Hnd].
  assert (Hfd : fd ∉ uc_id <$> l).
  { pose proof (take_uncomplete_spec l fd) as Ht. destruct (take_uncomplete l fd) as [[? ?]|];
      [|tauto]. destruct Ht as (? & ? & ? & ? & ? & ?). congruence. }
  eapply q_ok_set_bucket; [done|done| | | | |].
  - constructor; [|done]. by rewrite Hid.
  - cbn [fmap list_fmap]. rewrite Hid. by constructor.
  - intros x Hx. simpl. by rewrite bool_decide_false by congruence.
  - simpl. by rewrite lookup_insert_eq, bool_decide_true by done.
  - intros x Hx. by rewrite lookup_insert_ne.
Qed.

Lemma push_data_spec q items m fd b :
  q_ok (get_queue q) items m ->
  exists q', push_data q fd b = Ret q' /\ q_ok q' (items ++ [(fd, b)]) m.
Proof.
  intros Hq. unfold push_data. set (g := get_queue q) in *. clearbody g. clear q.
  destruct Hq as [H1 H2 (n & Hn & Ht & Hi) H4 H5 H6].
  assert (Htl : (q_tail g < q_cap g)%nat) by (rewrite Ht; apply Nat.mod_upper_bound; lia).
  rewrite write_at_lt by lia. cbn [mbind outcome_bind].
  set (np := mk_netpack fd (Z.of_nat (length b)) b).
  set (q' := <[q_tail g := np]> (q_queue g)).
  assert (Hlen : length q' = q_cap g) by (unfold q'; by rewrite length_insert).
  assert (Hring : ring_items q' (q_head g) (S n) = ring_items (q_queue g) (q_head g) n ++ [np]).
  { unfold q'. rewrite Ht, <- H1. apply ring_items_push. lia. }
  set (t' := if bool_decide (q_cap g <= q_tail g + 1)%nat then _ else _).
  assert (Ht' : t' = ((q_head g + S n) mod q_cap g)%nat).
  { rewrite Nat.add_succ_r, <- Nat.add_1_r. rewrite <- Nat.Div0.add_mod_idemp_l, <- Ht.
    unfold t'. case_bool_decide.
    - replace (q_tail g + 1)%nat with (q_cap g) by lia. rewrite Nat.Div0.mod_same. lia.
    - by rewrite Nat.mod_small by lia. }
  assert (Hmap : items ++ [(fd, b)] =
    (fun np => (np_id np, np_buffer np)) <$> ring_items q' (q_head g) (S n))
    by (rewrite Hring, fmap_app, Hi; done).
  case_bool_decide as Hfull; cbn [q_head q_tail q_cap] in Hfull; eexists; (split; [done|]).
  - (* the ring is full: the elements are copied out in order *)
    assert (Hsn : S n = q_cap g).
    { destruct (decide (S n = q_cap g)) as [|Hne]; [done|]. exfalso.
      rewrite Ht' in Hfull. apply (ring_pos_ne (q_head g) 0 (S n) (q_cap g)); [lia|lia|].
      by rewrite Nat.add_0_r, Nat.mod_small. }
    assert (Hqs : (0 < QUEUESIZE)%nat) by (apply Nat.ltb_lt; reflexivity).
    split; cbn [q_cap q_head q_tail q_hash q_queue expand_queue]; [|lia| |done|done|done].
    + rewrite length_app, ring_items_length. unfold fresh_queue. by rewrite length_replicate.
    + exists (q_cap g). split_and!; [lia| |].
      * rewrite Nat.mod_small by lia. done.
      * rewrite <- Hsn in *. rewrite <- (ring_items_length q' (q_head g) (S n)) at 2.
        rewrite ring_items_flat. exact Hmap.
  - split; cbn [q_cap q_head q_tail q_hash q_queue]; [done|done| |done|done|done].
    exists (S n). split_and!; [|done|done].
    destruct (decide (S n = q_cap g)) as [He|]; [|lia]. exfalso. apply Hfull.
    rewrite Ht', He. rewrite <- Nat.Div0.add_mod_idemp_r, Nat.Div0.mod_same, Nat.add_0_r.
    by rewrite Nat.mod_small.
Qed.

(** The left-over of socket [fd]. *)
Definition set_rest (m : gmap Z (list Z)) (fd : Z) (r : list Z) : gmap Z (list Z) :=
  match r with [] => delete fd m | _ => <[fd := r]> m end.

Lemma set_rest_delete m fd r : set_rest (delete fd m) fd r = set_rest m fd r.
Proof. unfold set_rest. destruct r; [apply delete_delete_eq|apply insert_delete_eq]. Qed.

Lemma read_size_cons b0 b1 rest :
  is_byte b0 -> is_byte b1 -> read_size (b0 :: b1 :: rest) = Ret (b0 * 256 + b1).
Proof.
  unfold is_byte. intros H0 H1. unfold read_size.
  change (read_at (b0 :: b1 :: rest) 0) with (Ret b0).
  change (read_at (b0 :: b1 :: rest) 1) with (Ret b1). cbn [mbind outcome_bind].
  rewrite Z.lor_comm, lor_shiftl_add by lia. f_equal. lia.
Qed.

Lemma be_bytes_two b0 b1 : is_byte b0 -> is_byte b1 -> be_bytes 2 (b0 * 256 + b1) = [b0; b1].
Proof. unfold is_byte. intros. unfold be_bytes. simpl. repeat f_equal; dlia. Qed.

Lemma save_header_spec q items m fd b :
  q_ok (get_queue q) items m -> m !! fd = None -> is_byte b ->
  exists q', save_header q fd b = Ret q' /\ q_ok q' items (<[fd := [b]]> m).
Proof. intros. apply save_spec; [done|done|by left|done]. Qed.

Lemma save_partial_spec q items m fd n buffer :
  q_ok (get_queue q) items m -> m !! fd = None -> n < 65536 -> Z.of_nat (length buffer) < n ->
  exists q', save_partial q fd n buffer = Ret q' /\ q_ok q' items (<[fd := be_bytes 2 n ++ buffer]> m).
Proof.
  intros Hq Hm Hn Hl. unfold save_partial, partial_buffer, write_bytes.
  rewrite decide_True by size_lia. cbn [mbind outcome_bind].
  rewrite take_0, app_nil_l. set (buf := buffer ++ _).
  assert (Hb : Z.of_nat (length buf) = n)
    by (unfold buf; rewrite length_app, length_drop, length_replicate; lia).
  edestruct (save_spec q items m fd
    (mk_uncomplete (mk_netpack fd n buf) (Z.of_nat (length buffer)) 0)) as (q' & Hs & Hq');
    [done|done|right; simpl; lia|done|].
  exists q'. split; [exact Hs|]. unfold uc_bytes in Hq'. cbn [uc_read uc_pack np_size np_buffer] in Hq'.
  rewrite bool_decide_false in Hq' by lia. rewrite Nat2Z.id in Hq'. unfold buf in Hq'.
  by rewrite take_app_length in Hq'.
Qed.

Lemma push_more_spec fuel q fd buffer items m :
  q_ok (get_queue q) items m -> m !! fd = None -> Bytes buffer -> buffer <> [] ->
  (length buffer <= fuel)%nat ->
  exists q', push_more fuel q fd buffer = Ret q' /\
    q_ok q' (items ++ (pair fd <$> (parse buffer).1)) (set_rest m fd (parse buffer).2).
Proof.
  revert q buffer items. induction fuel as [|fuel IH]; intros q buffer items Hq Hm Hb Hne Hf.
  { destruct buffer; [done|simpl in Hf; lia]. }
  cbn [push_more]. destruct buffer as [|b0 [|b1 rest]]; [done| |].
  - apply Forall_cons in Hb as [Hb _]. simpl. rewrite app_nil_r. by apply save_header_spec.
  - apply Forall_cons in Hb as [Hb0 Hb]. apply Forall_cons in Hb as [Hb1 Hb].
    rewrite bool_decide_false by (simpl; lia).
    rewrite read_size_cons by done. cbn [mbind outcome_bind].
    change (drop 2 (b0 :: b1 :: rest)) with rest.
    rewrite parse_cons. cbv zeta. unfold is_byte in Hb0, Hb1. cbn [length] in *.
    case_decide as Hlt.
    + rewrite bool_decide_true by lia. simpl. rewrite app_nil_r.
      change (b0 :: b1 :: rest) with ([b0; b1] ++ rest).
      rewrite <- (be_bytes_two b0 b1) by done. apply save_partial_spec; [done|done|lia|lia].
    + rewrite bool_decide_false by lia. set (n := Z.to_nat (b0 * 256 + b1)) in *.
      destruct (push_data_spec q items m fd (take n rest) Hq) as (q1 & -> & Hq1).
      cbn [mbind outcome_bind]. case_bool_decide as Hmore.
      * destruct (IH (Some q1) (drop n rest) (items ++ [(fd, take n rest)])) as (q' & -> & Hq');
          [done|done|by apply Forall_drop| | |].
        { intros Hd. apply (f_equal length) in Hd. rewrite length_drop in Hd. simpl in Hd. lia. }
        { rewrite length_drop. lia. }
        exists q'. split; [done|]. destruct (parse (drop n rest)) as [ps r]. simpl in *.
        by rewrite <- app_assoc in Hq'.
      * assert (drop n rest = []) as -> by (apply nil_length_inv; rewrite length_drop; lia).
        exists q1. split; [done|]. change (parse []) with (@nil (list Z), @nil Z). simpl.
        by rewrite delete_id.
Qed.

(** ** What [filter] does to one socket *)

(** The answer to a chunk that completes the packets [ps] and leaves [r]. *)
Definition answer (fd : Z) (ps : list (list Z)) (r : list Z) : filtered * list (Z * list Z) :=
  match ps, r with
  | [], _ => (FNone, [])
  | [p], [] => (FData fd p, [])
  | _, _ => (FMore, pair fd <$> ps)
  end.

(** The state before the first packet is NULL. *)
Definition st_ok (q : option queue) (items : list (Z * list Z)) (m : gmap Z (list Z)) : Prop :=
  match q with
  | None => items = [] /\ m = ∅
  | Some q => q_ok q items m
  end.

Lemma st_ok_get q items m : st_ok q items m -> q_ok (get_queue q) items m.
Proof. destruct q; [done|]. intros [-> ->]. apply get_queue_ok. Qed.

Lemma filter_new_spec q items m fd buffer :
  st_ok q items m -> m !! fd = None -> Bytes buffer -> buffer <> [] ->
  exists q', let a := answer fd (parse buffer).1 (parse buffer).2 in
    filter_new q fd buffer = Ret (a.1, q') /\ st_ok q' (items ++ a.2) (set_rest m fd (parse buffer).2).
Proof.
  intros Hst Hm Hb Hne. pose proof (st_ok_get _ _ _ Hst) as Hq. unfold filter_new.
  destruct buffer as [|b0 [|b1 rest]]; [done| |].
  - apply Forall_cons in Hb as [Hb _]. rewrite parse_short by (simpl; lia).
    cbn [answer fst snd set_rest]. rewrite app_nil_r, bool_decide_true by done.
    destruct (save_header_spec q items m fd b0 Hq Hm Hb) as (q' & He & Hq').
    change (read_at [b0] 0) with (Ret b0). cbn [mbind outcome_bind]. rewrite He.
    exists (Some q'). split; done.
  - apply Forall_cons in Hb as [Hb0 Hb]. apply Forall_cons in Hb as [Hb1 Hb].
    rewrite bool_decide_false by (simpl; lia).
    rewrite read_size_cons by done. cbn [mbind outcome_bind].
    change (drop 2 (b0 :: b1 :: rest)) with rest.
    rewrite parse_cons. cbv zeta. unfold is_byte in Hb0, Hb1. cbn [length] in *.
    case_decide as Hlt.
    + rewrite bool_decide_true by lia. cbn [answer fst snd set_rest]. rewrite app_nil_r.
      destruct (save_partial_spec q items m fd (b0 * 256 + b1) rest) as (q' & -> & Hq');
        [done|done|lia|lia|]. rewrite be_bytes_two in Hq' by done. by exists (Some q').
    + rewrite (bool_decide_false (_ < _)) by lia. set (n := Z.to_nat (b0 * 256 + b1)) in *.
      case_bool_decide as Hone.
      * rewrite drop_ge, take_ge by lia. change (parse []) with (@nil (list Z), @nil Z). cbn [answer fst snd set_rest].
        rewrite app_nil_r, delete_id by done. by exists q.
      * destruct (push_data_spec q items m fd (take n rest) Hq) as (q1 & -> & Hq1).
        cbn [mbind outcome_bind].
        assert (Hd : drop n rest <> []).
        { intros Hd. apply (f_equal length) in Hd. rewrite length_drop in Hd. simpl in Hd. lia. }
        destruct (push_more_spec (length (drop n rest)) (Some q1) fd (drop n rest)
          (items ++ [(fd, take n rest)]) m) as (q' & -> & Hq'); [done|done|by apply Forall_drop|done|done|].
        exists (Some q'). cbn [mbind outcome_bind].
        destruct (parse (drop n rest)) as [ps r] eqn:E. cbn [answer fst snd] in *.
        rewrite <- app_assoc in Hq'. destruct ps; [destruct r|]; [|done|done].
        exfalso. apply Hd. destruct (drop n rest) as [|c0 [|c1 l]]; [done|done|].
        rewrite parse_cons in E. cbv zeta in E. case_decide; [done|]. by destruct (parse _).
Qed.

Lemma parse_be n s : 0 <= n < 65536 ->
  parse (be_bytes 2 n ++ s) =
    if decide (length s < Z.to_nat n)%nat then ([], be_bytes 2 n ++ s)
    else let '(ps, r) := parse (drop (Z.to_nat n) s) in (take (Z.to_nat n) s :: ps, r).
Proof.
  intros Hn. assert (He : be_bytes 2 n = [n / 256; n mod 256]).
  { unfold be_bytes. simpl. rewrite (Z.mod_small (n / 256)) by dlia. done. }
  rewrite He. change ([n / 256; n mod 256] ++ s) with (n / 256 :: n mod 256 :: s).
  rewrite parse_cons. cbv zeta. by replace (n / 256 * 256 + n mod 256) with n by dlia.
Qed.

(** A write behind the part that has been read. *)
Lemma write_behind (buf : list Z) r (bs : list Z) :
  0 <= r -> r + Z.of_nat (length bs) <= Z.of_nat (length buf) ->
  exists buf', write_bytes buf r bs = Ret buf' /\ length buf' = length buf /\
    take (Z.to_nat (r + Z.of_nat (length bs))) buf' = take (Z.to_nat r) buf ++ bs.
Proof.
  intros Hr Hl. unfold write_bytes. rewrite decide_True by lia. eexists. split; [done|].
  split; [size_lia|].
  rewrite app_assoc. apply take_app_length'. rewrite length_app, length_take. lia.
Qed.

Lemma fill_body_spec q items m fd uc buffer :
  q_ok q items (delete fd m) -> uc_id uc = fd ->
  0 <= uc_read uc <= np_size (uc_pack uc) -> np_size (uc_pack uc) < 65536 ->
  Z.of_nat (length (np_buffer (uc_pack uc))) = np_size (uc_pack uc) -> Bytes buffer ->
  let bs := be_bytes 2 (np_size (uc_pack uc)) ++
              take (Z.to_nat (uc_read uc)) (np_buffer (uc_pack uc)) ++ buffer in
  exists q', let a := answer fd (parse bs).1 (parse bs).2 in
    fill_body q fd uc buffer = Ret (a.1, q') /\ st_ok q' (items ++ a.2) (set_rest m fd (parse bs).2).
Proof.
  intros Hq Hid Hr Hn Hlen Hb bs. unfold fill_body.
  destruct uc as [[id n buf] r hd]. cbn [uc_read uc_pack np_size np_buffer uc_id np_id uc_header] in *.
  cbv [uc_id np_id uc_pack] in Hid. subst id.
  assert (Hlt : length (take (Z.to_nat r) buf) = Z.to_nat r) by size_lia.
  subst bs. rewrite parse_be by lia. rewrite length_app, Hlt.
  case_bool_decide as Hneed.
  - rewrite decide_True by lia. cbn [answer fst snd]. rewrite app_nil_r.
    destruct (write_behind buf r buffer) as (buf' & -> & Hl' & Ht'); [lia|lia|].
    cbn [mbind outcome_bind].
    destruct (save_spec (Some q) items (delete fd m) fd
      (mk_uncomplete (mk_netpack fd n buf') (r + Z.of_nat (length buffer)) hd)) as (q' & Hs & Hq');
      [done|apply lookup_delete_eq| |done|].
    { right. cbn [uc_read uc_pack np_size np_buffer]. rewrite Hl'. lia. }
    unfold save_uncomplete in Hs. cbn [get_queue] in Hs.
    destruct (read_at (q_hash q) (hash_fd fd)) as [l| |]; [|done..]. cbn [mbind outcome_bind] in *.
    rewrite Hs. cbn [mbind outcome_bind]. exists (Some q'). split; [done|].
    rewrite insert_delete_eq in Hq'. unfold uc_bytes in Hq'.
    cbn [uc_read uc_pack np_size np_buffer] in Hq'. rewrite bool_decide_false, Ht' in Hq' by lia. done.
  - rewrite decide_False by lia.
    set (need := Z.to_nat (n - r)).
    assert (Htk : length (take need buffer) = need) by size_lia.
    destruct (write_behind buf r (take need buffer)) as (buf' & -> & Hl' & Ht'); [lia|lia|].
    cbn [mbind outcome_bind].
    rewrite take_ge in Ht' by lia.
    assert (Hbuf : take (Z.to_nat n) (take (Z.to_nat r) buf ++ buffer) = buf').
    { rewrite take_app_ge, Hlt, Ht' by lia. do 2 f_equal. lia. }
    assert (Hdrop : drop (Z.to_nat n) (take (Z.to_nat r) buf ++ buffer) = drop need buffer).
    { rewrite drop_app_ge, Hlt by lia. f_equal. lia. }
    rewrite Hbuf, Hdrop. case_bool_decide as Hz.
    + rewrite drop_ge by lia. change (parse []) with (@nil (list Z), @nil Z).
      cbn [answer fst snd set_rest]. rewrite app_nil_r. by exists (Some q).
    + destruct (push_data_spec (Some q) items (delete fd m) fd buf' Hq) as (q1 & -> & Hq1).
      cbn [mbind outcome_bind].
      assert (Hd : drop need buffer <> []).
      { intros Hd. apply (f_equal length) in Hd. rewrite length_drop in Hd. simpl in Hd. lia. }
      destruct (push_more_spec (length (drop need buffer)) (Some q1) fd (drop need buffer)
        (items ++ [(fd, buf')]) (delete fd m)) as (q' & -> & Hq');
        [done|apply lookup_delete_eq|by apply Forall_drop|done|done|].
      cbn [mbind outcome_bind]. exists (Some q'). rewrite set_rest_delete in Hq'.
      destruct (parse (drop need buffer)) as [ps r'] eqn:E. cbn [answer fst snd] in *.
      rewrite <- app_assoc in Hq'. destruct ps; [destruct r'|]; [|done|done].
      exfalso. apply Hd. destruct (drop need buffer) as [|c0 [|c1 l]]; [done|done|].
      rewrite parse_cons in E. cbv zeta in E. case_decide; [done|]. by destruct (parse _).
Qed.

Lemma filter_spec q items m fd buffer :
  st_ok q items m -> Bytes buffer -> buffer <> [] ->
  exists q', let bs := default [] (m !! fd) ++ buffer in
    let a := answer fd (parse bs).1 (parse bs).2 in
    filter_data q fd buffer = Ret (a.1, q') /\ st_ok q' (items ++ a.2) (set_rest m fd (parse bs).2).
Proof.
  intros Hst Hb Hne. unfold filter_data, filter_data_. destruct q as [q|].
  2: { destruct Hst as [-> ->]. rewrite lookup_empty. by apply filter_new_spec. }
  pose proof (find_spec q items m fd Hst) as Hf. destruct (m !! fd) as [bs|] eqn:Em.
  2: { rewrite Hf. cbn [mbind outcome_bind default]. by apply filter_new_spec. }
  destruct Hf as (uc & q1 & -> & -> & Hok & Hid & Hq1). cbn [mbind outcome_bind default].
  unfold fill_uncomplete, fill_header, uc_bytes.
  destruct Hok as [[Hr Hhd]|(Hr & Hn & Hl)].
  - rewrite Hr. rewrite !bool_decide_true by lia. destruct buffer as [|b rest]; [done|].
    apply Forall_cons in Hb as [Hb0 Hb]. change (read_at (b :: rest) 0) with (Ret b).
    cbn [mbind outcome_bind]. change (drop 1 (b :: rest)) with rest.
    unfold is_byte in *. rewrite lor_shiftl_add by lia.
    set (n := b + uc_header uc * 2 ^ 8).
    destruct (fill_body_spec q1 items m fd
      (mk_uncomplete (mk_netpack (np_id (uc_pack uc)) n (replicate (Z.to_nat n) 0)) 0 (uc_header uc)) rest)
      as (q' & He & Hq'); [done|done| | | |done|].
    1-3: cbn [uc_read uc_pack np_size np_buffer]; rewrite ?length_replicate; lia.
    cbn [uc_read uc_pack np_size np_buffer] in Hq', He. rewrite take_0, app_nil_l in Hq', He.
    assert (Hbe : be_bytes 2 n = [uc_header uc; b]).
    { rewrite <- (be_bytes_two (uc_header uc) b) by done. f_equal. unfold n. lia. }
    rewrite Hbe in *. exists q'. split; [exact He|exact Hq'].
  - rewrite bool_decide_false by lia. cbn [mbind outcome_bind]. rewrite bool_decide_false by lia.
    cbn [default from_option id]. rewrite <- app_assoc. apply fill_body_spec; [done|done|lia|done|done|done].
Qed.

Lemma lpop_spec q items m :
  q_ok q items m ->
  match items with
  | [] => lpop (Some q) = Ret (None, Some q)
  | p :: items => exists q', lpop (Some q) = Ret (Some p, Some q') /\ q_ok q' items m /\ q_cap q' = q_cap q
  end.
Proof.
  intros [H1 H2 (n & Hn & Ht & Hi) H4 H5 H6]. unfold lpop. destruct n as [|n].
  - simpl in Hi. subst. rewrite Nat.add_0_r, Nat.mod_small in Ht by done.
    by rewrite bool_decide_true.
  - rewrite bool_decide_false.
    2: { rewrite Ht, <- (Nat.mod_small (q_head q) (q_cap q)) at 1 by done.
         rewrite <- (Nat.add_0_r (q_head q)) at 1. apply ring_pos_ne; lia. }
    rewrite ring_items_cons in Hi by lia. subst items.
    destruct (lookup_lt_is_Some_2 (q_queue q) (q_head q)) as [np Hnp]; [lia|].
    rewrite (list_lookup_total_correct _ _ _ Hnp). cbn [fmap list_fmap].
    rewrite (read_at_Some _ _ _ Hnp). cbn [mbind outcome_bind].
    set (h := if bool_decide _ then 0%nat else _).
    assert (Hh : h = ((q_head q + 1) mod q_cap q)%nat).
    { unfold h. case_bool_decide.
      - replace (q_head q + 1)%nat with (q_cap q) by lia. by rewrite Nat.Div0.mod_same.
      - by rewrite Nat.mod_small by lia. }
    eexists. split_and!; [done| |done].
    split; cbn [q_cap q_head q_tail q_hash q_queue]; [done| | |done|done|done].
    + rewrite Hh. apply Nat.mod_upper_bound. lia.
    + exists n. split_and!; [lia| |by rewrite Hh, H1].
      rewrite Ht, Hh, Nat.Div0.add_mod_idemp_l. f_equal. lia.
Qed.

(** ** The receiver *)

(** [for fd, msg, sz in netpack.pop, queue]: the receiver's reaction to "more". *)
Fixpoint drain (fuel : nat) (q : option queue) : outcome (list (Z * list Z) * option queue) :=
  '(r, q) ← lpop q;
  match r with
  | None => Ret ([], q)
  | Some p =>
      match fuel with
      | O => Crash OutOfFuel
      | S fuel => '(ps, q) ← drain fuel q; Ret (p :: ps, q)
      end
  end.

(** The packets a receiver gets from the chunks [cs] of any sockets, in order of
    arrival. *)
Fixpoint feed (q : option queue) (cs : list (Z * list Z)) : outcome (list (Z * list Z) * option queue) :=
  match cs with
  | [] => Ret ([], q)
  | (fd, c) :: cs =>
      '(a, q) ← filter_data q fd c;
      '(ps, q) ← match a with
                 | FData fd p => Ret ([(fd, p)], q)
                 | FMore => drain (q_cap (get_queue q)) q
                 | _ => Ret ([], q)
                 end;
      '(rest, q) ← feed q cs;
      Ret (ps ++ rest, q)
  end.

(** What belongs to socket [fd]. *)
Definition of_fd (fd : Z) (l : list (Z * list Z)) : list (list Z) := snd <$> filter (fun p => p.1 = fd) l.

Lemma of_fd_app fd l1 l2 : of_fd fd (l1 ++ l2) = of_fd fd l1 ++ of_fd fd l2.
Proof. unfold of_fd. by rewrite filter_app, fmap_app. Qed.

Lemma of_fd_pair fd fd' ps : of_fd fd (pair fd' <$> ps) = if decide (fd' = fd) then ps else [].
Proof.
  unfold of_fd. induction ps as [|p ps IH]; [by case_decide|]. cbn [fmap list_fmap].
  rewrite filter_cons. cbn [fst]. case_decide; [|done].
  cbn [fmap list_fmap snd]. by rewrite IH.
Qed.

Lemma of_fd_cons fd fd' p l :
  of_fd fd ((fd', p) :: l) = (if decide (fd' = fd) then [p] else []) ++ of_fd fd l.
Proof. unfold of_fd. rewrite filter_cons. cbn [fst]. by case_decide. Qed.

Lemma parse_rest bs : parse (parse bs).2 = ([], (parse bs).2).
Proof.
  induction bs as [bs IH] using (well_founded_induction (Wf_nat.well_founded_ltof _ (@length Z))).
  destruct bs as [|b0 [|b1 rest]]; [done|done|]. rewrite parse_cons. cbv zeta. case_decide as Hlt.
  - cbn [fst snd]. rewrite parse_cons. cbv zeta. by rewrite decide_True.
  - specialize (IH (drop (Z.to_nat (b0 * 256 + b1)) rest)).
    destruct (parse (drop _ rest)) as [ps r]. apply IH.
    unfold Wf_nat.ltof. rewrite length_drop. simpl. lia.
Qed.

Lemma drain_spec fuel q items m :
  q_ok q items m -> (length items <= fuel)%nat ->
  exists q', drain fuel (Some q) = Ret (items, Some q') /\ q_ok q' [] m.
Proof.
  revert q items. induction fuel as [|fuel IH]; intros q items Hq Hf; cbn [drain];
    pose proof (lpop_spec q items m Hq) as Hp; destruct items as [|p items];
    [rewrite Hp; by exists q|simpl in Hf; lia|rewrite Hp; by exists q|].
  destruct Hp as (q1 & -> & Hq1 & _). cbn [mbind outcome_bind].
  destruct (IH q1 items Hq1) as (q' & -> & Hq'); [simpl in Hf; lia|]. by exists q'.
Qed.

Lemma items_bound q items m : q_ok q items m -> (length items <= q_cap q)%nat.
Proof. intros [_ _ (n & Hn & _ & ->) _ _ _]. rewrite length_fmap, ring_items_length. lia. Qed.

Definition rest_of (m : gmap Z (list Z)) (fd : Z) : list Z := default [] (m !! fd).

Lemma rest_of_set m fd r x : rest_of (set_rest m fd r) x = if decide (x = fd) then r else rest_of m x.
Proof.
  unfold rest_of, set_rest. case_decide as Hx; [subst|].
  - destruct r; [by rewrite lookup_delete_eq|by rewrite lookup_insert_eq].
  - destruct r; [by rewrite lookup_delete_ne|by rewrite lookup_insert_ne].
Qed.

(** One chunk: the receiver gets exactly the packets it completes. *)
Lemma feed_one q m fd c :
  st_ok q [] m -> Bytes c -> c <> [] ->
  exists a q1 q', filter_data q fd c = Ret (a, q1) /\
    match a with
    | FData fd p => Ret ([(fd, p)], q1)
    | FMore => drain (q_cap (get_queue q1)) q1
    | _ => Ret ([], q1)
    end = Ret (pair fd <$> (parse (rest_of m fd ++ c)).1, q') /\
    st_ok q' [] (set_rest m fd (parse (rest_of m fd ++ c)).2).
Proof.
  intros Hst Hb Hne. destruct (filter_spec q [] m fd c Hst Hb Hne) as (q1 & Hf & Hq1).
  change (default [] (m !! fd)) with (rest_of m fd) in *.
  destruct (parse (rest_of m fd ++ c)) as [ps r]. cbn [fst snd] in *.
  destruct ps as [|p [|p' ps]]; [|destruct r as [|b r]|]; cbn [answer fst snd app] in *.
  - by exists FNone, q1, q1.
  - by exists (FData fd p), q1, q1.
  - destruct q1 as [q1|]; [|by destruct Hq1].
    destruct (drain_spec (q_cap q1) q1 _ _ Hq1) as (q' & Hd & Hq'); [by eapply items_bound|].
    exists FMore, (Some q1), (Some q'). done.
  - destruct q1 as [q1|]; [|by destruct Hq1].
    destruct (drain_spec (q_cap q1) q1 _ _ Hq1) as (q' & Hd & Hq'); [by eapply items_bound|].
    exists FMore, (Some q1), (Some q'). done.
Qed.

Lemma feed_spec cs : Forall (fun c => Bytes c.2 /\ c.2 <> []) cs -> forall q m,
  st_ok q [] m -> (forall fd, parse (rest_of m fd) = ([], rest_of m fd)) ->
  exists ps q' m', feed q cs = Ret (ps, q') /\ st_ok q' [] m' /\
    forall fd, parse (rest_of m fd ++ concat (of_fd fd cs)) = (of_fd fd ps, rest_of m' fd).
Proof.
  induction 1 as [|[fd c] cs [Hb Hne] _ IH]; intros q m Hst Hrest.
  { exists [], q, m. split_and!; [done|done|]. intros fd. cbn [of_fd filter list_filter fmap list_fmap concat].
    unfold of_fd. simpl. rewrite app_nil_r. apply Hrest. }
  cbn [snd] in *. destruct (feed_one q m fd c Hst Hb Hne) as (a & q1 & q2 & Hf & Ha & Hq2).
  cbn [feed]. rewrite Hf. cbn [mbind outcome_bind]. rewrite Ha. cbn [mbind outcome_bind].
  destruct (IH q2 _ Hq2) as (ps & q' & m' & -> & Hq' & Hall).
  { intros x. rewrite rest_of_set. case_decide; [apply parse_rest|apply Hrest]. }
  cbn [mbind outcome_bind]. eexists _, q', m'. split_and!; [done|done|]. intros x.
  specialize (Hall x). rewrite rest_of_set in Hall.
  rewrite of_fd_app, of_fd_pair, of_fd_cons. destruct (decide (fd = x)) as [->|Hx].
  - rewrite decide_True in Hall by done. cbn [app concat]. rewrite app_assoc, parse_app.
    destruct (parse (rest_of m x ++ c)) as [ps1 r1]. cbn [fst snd] in *. by rewrite Hall.
  - rewrite decide_False in Hall by done. cbn [app]. by rewrite Hall.
Qed.

(* ------------------------------------------------------------------ *)
(** ** Properties *)

(** C19: reassembly does not depend on how the streams are cut into chunks.  For
    every interleaving of non-empty chunks from any number of sockets, the
    receiver (which takes the packet of "data" and pops the queue on "more")
    gets, for each socket, exactly the packets of the concatenation of that
    socket's chunks, in order; what is left over is kept for that socket. *)
Theorem filter_reassembles cs :
  Forall (fun c => Bytes c.2 /\ c.2 <> []) cs ->
  exists ps q m, feed None cs = Ret (ps, q) /\ st_ok q [] m /\
    forall fd, parse (concat (of_fd fd cs)) = (of_fd fd ps, default [] (m !! fd)).
Proof.
  intros Hcs. destruct (feed_spec cs Hcs None ∅) as (ps & q & m & Hf & Hst & Hall).
  - done.
  - intros fd. unfold rest_of. by rewrite lookup_empty.
  - exists ps, q, m. split_and!; [done|done|]. intros fd. specialize (Hall fd).
    unfold rest_of in Hall. by rewrite lookup_empty in Hall.
Qed.

Definition demo_chunks : list (Z * list Z) :=
  [(7, [0]); (8, [0; 1; 66; 0]); (7, [3; 65]); (7, [66; 67; 0; 0; 0; 1; 68]); (8, [2; 1])].

Lemma filter_reassembles_witness :
  Forall (fun c => Bytes c.2 /\ c.2 <> []) demo_chunks /\
  exists ps q m, feed None demo_chunks = Ret (ps, q) /\ st_ok q [] m /\
    forall fd, parse (concat (of_fd fd demo_chunks)) = (of_fd fd ps, default [] (m !! fd)).
Proof.
  assert (H : Forall (fun c => Bytes c.2 /\ c.2 <> []) demo_chunks)
    by (repeat constructor; simpl; try lia; discriminate).
  split; [done|]. by apply filter_reassembles.
Defined.

(** ** Packing *)

Lemma write_size_be n : 0 <= n -> write_size n = be_bytes 2 n.
Proof.
  intros Hn. unfold write_size. rewrite shiftr_div by lia.
  change 0xff with 255. rewrite !land_255. done.
Qed.

Lemma pack_string_eq ptr :
  Z.of_nat (length ptr) <= 0x10000 -> lpack_string ptr = lpack ptr.
Proof.
  intros Hl. unfold lpack_string, lpack. rewrite !bool_decide_false by lia.
  set (n := Z.to_nat _). assert (Hn : (length ptr + 2 <= n)%nat)
    by (unfold n, SMALLSTRING; case_bool_decide; lia).
  assert (Hw : length (write_size (Z.of_nat (length ptr))) = 2%nat) by done.
  rewrite write_front by size_lia. cbn [mbind outcome_bind].
  change 2 with (Z.of_nat (length (write_size (Z.of_nat (length ptr))))) at 1.
  rewrite write_next by size_lia. cbn [mbind outcome_bind].
  rewrite app_assoc, read_bytes_prefix by size_lia.
  f_equal. apply take_app_length'. rewrite length_app. lia.
Qed.

Lemma pack_padding_eq cookie ptr :
  Z.of_nat (length (ptr ++ cookie)) <= 0x10000 -> lpack_padding cookie ptr = lpack (ptr ++ cookie).
Proof.
  intros Hl. unfold lpack_padding, lpack. rewrite length_app in *.
  replace (Z.of_nat (length cookie) + Z.of_nat (length ptr))
    with (Z.of_nat (length ptr + length cookie)) by lia.
  rewrite !bool_decide_false by lia.
  set (n := Z.to_nat _). assert (Hn : (length ptr + length cookie + 2 <= n)%nat)
    by (unfold n, SMALLSTRING; case_bool_decide; lia).
  set (w := write_size _). assert (Hw : length w = 2%nat) by done.
  rewrite write_front by size_lia. cbn [mbind outcome_bind].
  replace 2 with (Z.of_nat (length w)) at 1 by lia.
  rewrite write_next by size_lia. cbn [mbind outcome_bind].
  replace (2 + Z.of_nat (length ptr)) with (Z.of_nat (length (w ++ ptr))) by size_lia.
  rewrite app_assoc, write_next by size_lia.
  cbn [mbind outcome_bind]. rewrite app_assoc, read_bytes_prefix by size_lia.
  rewrite <- (app_assoc w). f_equal. apply take_app_length'. rewrite !length_app. lia.
Qed.

(** Packets of up to 65535 bytes survive framing: the three packing functions
    write the same frame, and the receiver's cutter gives the packet back and
    goes on with what follows the frame. *)
Theorem pack_then_parse (content cookie rest : list Z) :
  let bs := content ++ cookie in
  Z.of_nat (length bs) <= 0xffff ->
  exists frame, lpack bs = Ret frame /\ lpack_string bs = Ret frame /\
    lpack_padding cookie content = Ret frame /\
    parse (frame ++ rest) = (bs :: (parse rest).1, (parse rest).2).
Proof.
  intros bs Hl. exists (be_bytes 2 (Z.of_nat (length bs)) ++ bs).
  rewrite pack_string_eq, pack_padding_eq by (unfold bs in *; lia).
  assert (Hp : lpack bs = Ret (be_bytes 2 (Z.of_nat (length bs)) ++ bs)).
  { unfold lpack. rewrite bool_decide_false, write_size_be by lia. done. }
  split_and!; [done|done|done|].
  rewrite <- app_assoc, parse_be by lia. rewrite length_app, decide_False by lia.
  rewrite Nat2Z.id, take_app_length, drop_app_length. by destruct (parse rest).
Qed.

Lemma pack_then_parse_witness :
  Z.of_nat (length ([65; 66] ++ [1; 2])) <= 0xffff /\
  exists frame, lpack [65; 66; 1; 2] = Ret frame /\ lpack_string [65; 66; 1; 2] = Ret frame /\
    lpack_padding [1; 2] [65; 66] = Ret frame /\
    parse (frame ++ [0; 5; 9]) = ([65; 66; 1; 2] :: (parse [0; 5; 9]).1, (parse [0; 5; 9]).2).
Proof. split; [simpl; lia|]. apply (pack_then_parse [65; 66] [1; 2] [0; 5; 9]). simpl. lia. Defined.

(** The length check lets 65536 bytes through, whose length wraps to 0 in the
    header: the receiver sees an empty packet and then takes the content for
    frames. *)
Theorem pack_64k_desyncs (bs : list Z) :
  Z.of_nat (length bs) = 0x10000 ->
  lpack bs = Ret ([0; 0] ++ bs) /\ lpack_string bs = Ret ([0; 0] ++ bs) /\
  parse ([0; 0] ++ bs) = ([] :: (parse bs).1, (parse bs).2).
Proof.
  intros Hl. rewrite pack_string_eq by lia.
  assert (Hp : lpack bs = Ret ([0; 0] ++ bs)).
  { unfold lpack. rewrite Hl. done. }
  split; [exact Hp|split; [exact Hp|]]. change ([0; 0] ++ bs) with (0 :: 0 :: bs).
  rewrite parse_cons. cbv zeta. rewrite decide_False by (simpl; lia).
  change (Z.to_nat (0 * 256 + 0)) with 0%nat. rewrite drop_0, take_0.
  by destruct (parse bs).
Qed.

Lemma pack_64k_desyncs_witness :
  let bs := replicate (Z.to_nat 0x10000) 7 in
  Z.of_nat (length bs) = 0x10000 /\
  lpack bs = Ret ([0; 0] ++ bs) /\ lpack_string bs = Ret ([0; 0] ++ bs) /\
  parse ([0; 0] ++ bs) = ([] :: (parse bs).1, (parse bs).2).
Proof.
  intros bs. assert (H : Z.of_nat (length bs) = 0x10000)
    by (unfold bs; rewrite length_replicate; lia).
  split; [exact H|]. exact (pack_64k_desyncs bs H).
Defined.

(** Closing a socket leaves its incomplete packet in the table: when the id
    is used again, the first bytes of the new connection are read as the rest of
    the old packet. *)
Theorem close_keeps_partial q items m fd r ud buf pad size c :
  q_ok q items m -> m !! fd = Some r -> Bytes c -> c <> [] ->
  lfilter (Some q) (mk_socket_message SKYNET_SOCKET_TYPE_CLOSE fd ud buf pad) size =
    Ret (FClose fd, Some q) /\
  exists q', filter_data (Some q) fd c =
    Ret ((answer fd (parse (r ++ c)).1 (parse (r ++ c)).2).1, q').
Proof.
  intros Hq Hr Hb Hne. split; [by destruct buf|].
  destruct (filter_spec (Some q) items m fd c Hq Hb Hne) as (q' & Hf & _).
  rewrite Hr in Hf. by exists q'.
Qed.

Lemma close_keeps_partial_witness :
  exists q, q_ok q [] {[7 := [9]]} /\
  lfilter (Some q) (mk_socket_message SKYNET_SOCKET_TYPE_CLOSE 7 0 None []) 0 =
    Ret (FClose 7, Some q) /\
  exists q', filter_data (Some q) 7 [0; 1; 65] =
    Ret ((answer 7 (parse ([9] ++ [0; 1; 65])).1 (parse ([9] ++ [0; 1; 65])).2).1, q').
Proof.
  destruct (save_header_spec None [] ∅ 7 9 get_queue_ok) as (q & _ & Hq); [done|unfold is_byte; lia|].
  exists q. split; [exact Hq|].
  apply (close_keeps_partial q [] {[7 := [9]]} 7 [9] 0 None [] 0 [0; 1; 65]);
    [exact Hq|by vm_compute|repeat constructor; lia|discriminate].
Defined.
