(* ===== verification/Cluster.v ===== *)
(** * Messages between cluster nodes (src/lualib-src/lua-cluster.c)

    A request is the 2-byte frame length, the address (0 and 32 bits, or a length
    byte and a name), the session and the message; a response the session, a flag
    and the message.  The frame is what [NetPack] cuts out of the stream. *)
From S2P Require Import Prelude NetPack.
From stdpp Require Import base list gmap numbers strings.
From Stdlib Require Import ZArith Lia.

Local Open Scope Z_scope.

Definition TEMP_LENGTH : Z := 0x10007.

(** The local [buf] of the packing functions. *)
Definition temp_buffer : list Z := replicate (Z.to_nat TEMP_LENGTH) 0.

Lemma length_temp : Z.of_nat (length temp_buffer) = 0x10007.
Proof. unfold temp_buffer. rewrite length_replicate. unfold TEMP_LENGTH. lia. Qed.
#[global] Opaque temp_buffer.

Definition uint32_bytes (n : Z) : list Z :=
  [Z.land n 0xff; Z.land (Z.shiftr n 8) 0xff; Z.land (Z.shiftr n 16) 0xff;
   Z.land (Z.shiftr n 24) 0xff].

(** [fill_uint32(buf + i, n)] *)
Definition fill_uint32 (buf : list Z) (i n : Z) : outcome (list Z) :=
  write_bytes buf i (uint32_bytes n).

(** The argument is cut to an [int]. *)
Definition fill_header (buf : list Z) (sz : Z) : outcome (list Z) :=
  let sz := i32 sz in
  if bool_decide (sz >= 0x10000) then Raise "request message is too long"
  else write_bytes buf 0 [Z.land (Z.shiftr sz 8) 0xff; Z.land sz 0xff].

Definition packreq_number (addr session : Z) (msg : list Z) : outcome (list Z) :=
  let sz := Z.of_nat (length msg) in
  buf ← fill_header temp_buffer (sz + 9);
  buf ← write_bytes buf 2 [0];
  buf ← fill_uint32 buf 3 (u32 addr);
  buf ← fill_uint32 buf 7 (u32 session);
  buf ← write_bytes buf 11 msg;
  read_bytes buf 0 (sz + 11).

Definition packreq_string (name : list Z) (session : Z) (msg : list Z) : outcome (list Z) :=
  let namelen := Z.of_nat (length name) in
  let sz := Z.of_nat (length msg) in
  if bool_decide (namelen < 1 \/ namelen > 255) then Raise "name is too long"
  else
    buf ← fill_header temp_buffer (sz + 5 + namelen);
    buf ← write_bytes buf 2 [namelen];
    buf ← write_bytes buf 3 name;
    buf ← fill_uint32 buf (3 + namelen) (u32 session);
    buf ← write_bytes buf (7 + namelen) msg;
    read_bytes buf 0 (sz + 7 + namelen).

(** The address of a service: a handle or a name. *)
Inductive address := AddrNumber (n : Z) | AddrString (s : list Z).

(** The frame and the next session. *)
Definition lpackrequest (addr : address) (session : Z) (msg : option (list Z))
  : outcome (list Z * Z) :=
  match msg with
  | None => Raise "Invalid request message"
  | Some msg =>
      let session := i32 session in
      if bool_decide (session <= 0) then Raise "Invalid request session"
      else
        frame ← match addr with
                | AddrNumber n => packreq_number n session msg
                | AddrString s => packreq_string s session msg
                end;
        let session := i32 (session + 1) in
        Ret (frame, if bool_decide (session < 0) then 1 else session)
  end.

(** Of [buf + i]. *)
Definition unpack_uint32 (buf : list Z) (i : Z) : outcome Z :=
  b0 ← read_at buf i;
  b1 ← read_at buf (i + 1);
  b2 ← read_at buf (i + 2);
  b3 ← read_at buf (i + 3);
  Ret (u32 (Z.lor (Z.lor (Z.lor b0 (Z.shiftl b1 8)) (Z.shiftl b2 16)) (i32 (Z.shiftl b3 24)))).

Definition unpackreq_number (buf : list Z) : outcome (address * Z * list Z) :=
  let sz := Z.of_nat (length buf) in
  if bool_decide (sz < 9) then Raise "Invalid cluster message"
  else
    addr ← unpack_uint32 buf 1;
    session ← unpack_uint32 buf 5;
    msg ← read_bytes buf 9 (sz - 9);
    Ret (AddrNumber addr, session, msg).

Definition unpackreq_string (buf : list Z) : outcome (address * Z * list Z) :=
  let sz := Z.of_nat (length buf) in
  namesz ← read_at buf 0;
  if bool_decide (sz < namesz + 5) then Raise "Invalid cluster message"
  else
    name ← read_bytes buf 1 namesz;
    session ← unpack_uint32 buf (namesz + 1);
    msg ← read_bytes buf (1 + namesz + 4) (sz - namesz - 5);
    Ret (AddrString name, session, msg).

(** A Lua string ends in a NUL that is not part of it. *)
Definition lunpackrequest (msg : list Z) : outcome (address * Z * list Z) :=
  c ← read_at (msg ++ [0]) 0;
  if bool_decide (c = 0) then unpackreq_number msg else unpackreq_string msg.

(** The message of a response: an error string, or a block of memory. *)
Inductive response := RespString (s : list Z) | RespBlock (b : list Z).

Definition lpackresponse (session : Z) (ok : bool) (r : response) : outcome (list Z) :=
  let session := u32 session in
  let msg := match r with
             | RespString s => if bool_decide (Z.of_nat (length s) > 0x1000)
                               then take (Z.to_nat 0x1000) s else s
             | RespBlock b => b
             end in
  let sz := Z.of_nat (length msg) in
  buf ← fill_header temp_buffer (sz + 5);
  buf ← fill_uint32 buf 2 session;
  buf ← write_bytes buf 6 [if ok then 1 else 0];
  buf ← write_bytes buf 7 msg;
  read_bytes buf 0 (sz + 7).

Definition lunpackresponse (buf : list Z) : outcome (option (Z * bool * list Z)) :=
  let sz := Z.of_nat (length buf) in
  if bool_decide (sz < 5) then Ret None
  else
    session ← unpack_uint32 buf 0;
    ok ← read_at buf 4;
    msg ← read_bytes buf 5 (sz - 5);
    Ret (Some (session, bool_decide (ok <> 0), msg)).

(* ------------------------------------------------------------------ *)
(** ** Lemmas *)

Lemma uint32_bytes_le n : 0 <= n -> uint32_bytes n = le_bytes 4 n.
Proof.
  intros Hn. unfold uint32_bytes. change 0xff with 255. rewrite !land_255, !shiftr_div by lia.
  simpl. rewrite !Z.div_div by lia. done.
Qed.

Lemma fill_header_ok n : 0 <= n < 0x10000 ->
  fill_header temp_buffer n = Ret (be_bytes 2 n ++ drop 2 temp_buffer).
Proof.
  intros Hn. unfold fill_header. rewrite i32_small, bool_decide_false by (unfold is_i32; lia).
  change [Z.land (Z.shiftr n 8) 0xff; Z.land n 0xff] with (write_size n).
  rewrite write_size_be by lia. apply write_front. pose proof length_temp. rewrite length_be_bytes. lia.
Qed.

Lemma fill_header_long n : 0x10000 <= n < 2 ^ 31 ->
  fill_header temp_buffer n = Raise "request message is too long".
Proof.
  intros Hn. unfold fill_header. by rewrite i32_small, bool_decide_true by (unfold is_i32; lia).
Qed.

Lemma u32_nonneg n : 0 <= u32 n.
Proof. apply u32_range. Qed.

Ltac append_bytes :=
  rewrite write_append by
    (pose proof length_temp; rewrite ?length_app, ?length_drop, ?length_be_bytes, ?length_le_bytes;
     cbn [length]; lia);
  cbn [mbind outcome_bind].

Lemma packreq_number_ok addr session msg :
  Z.of_nat (length msg) + 9 < 0x10000 ->
  packreq_number addr session msg =
    Ret (be_bytes 2 (Z.of_nat (length msg) + 9) ++
         [0] ++ le_bytes 4 (u32 addr) ++ le_bytes 4 (u32 session) ++ msg).
Proof.
  intros Hl. unfold packreq_number, fill_uint32. rewrite fill_header_ok by lia.
  cbn [mbind outcome_bind]. rewrite !uint32_bytes_le by apply u32_nonneg.
  do 4 append_bytes.
  rewrite read_prefix; [by rewrite <- !app_assoc|].
  rewrite !length_app, length_be_bytes, !length_le_bytes. cbn [length]. lia.
Qed.

Lemma packreq_string_ok name session msg :
  1 <= Z.of_nat (length name) <= 255 ->
  Z.of_nat (length msg) + 5 + Z.of_nat (length name) < 0x10000 ->
  packreq_string name session msg =
    Ret (be_bytes 2 (Z.of_nat (length msg) + 5 + Z.of_nat (length name)) ++
         [Z.of_nat (length name)] ++ name ++ le_bytes 4 (u32 session) ++ msg).
Proof.
  intros Hn Hl. unfold packreq_string, fill_uint32. rewrite bool_decide_false by lia.
  rewrite fill_header_ok by lia. cbn [mbind outcome_bind].
  rewrite !uint32_bytes_le by apply u32_nonneg.
  do 4 append_bytes.
  rewrite read_prefix; [by rewrite <- !app_assoc|].
  rewrite !length_app, length_be_bytes, !length_le_bytes. cbn [length]. lia.
Qed.

Lemma unpack_uint32_at (pre post : list Z) n i :
  0 <= n < 2 ^ 32 -> i = Z.of_nat (length pre) ->
  unpack_uint32 (pre ++ le_bytes 4 n ++ post) i = Ret n.
Proof.
  intros Hn ->. unfold unpack_uint32.
  rewrite (read_at_app_r pre _ (Z.of_nat (length pre)) 0),
    (read_at_app_r pre _ (Z.of_nat (length pre) + 1) 1),
    (read_at_app_r pre _ (Z.of_nat (length pre) + 2) 2),
    (read_at_app_r pre _ (Z.of_nat (length pre) + 3) 3) by lia.
  cbn [le_bytes app]. rewrite !Z.div_div by lia.
  change (read_at (?a :: ?l) 0) with (Ret a). change (read_at (?a :: ?b :: ?l) 1) with (Ret b).
  change (read_at (?a :: ?b :: ?c :: ?l) 2) with (Ret c).
  change (read_at (?a :: ?b :: ?c :: ?d :: ?l) 3) with (Ret d).
  change (256 * 256) with 65536. change (65536 * 256) with 16777216.
  cbn [mbind outcome_bind]. f_equal.
  set (b0 := n mod 256). set (b1 := (n / 256) mod 256).
  set (b2 := (n / 65536) mod 256). set (b3 := (n / 16777216) mod 256).
  assert (H0 : 0 <= b0 < 256) by (unfold b0; dlia). assert (H1 : 0 <= b1 < 256) by (unfold b1; dlia).
  assert (H2 : 0 <= b2 < 256) by (unfold b2; dlia). assert (H3 : 0 <= b3 < 256) by (unfold b3; dlia).
  rewrite (lor_shiftl_add b0), (lor_shiftl_add _ b2) by lia.
  assert (Hi : i32 (Z.shiftl b3 24) = Z.shiftl (if decide (b3 < 128) then b3 else b3 - 256) 24).
  { rewrite !Z.shiftl_mul_pow2 by lia. case_decide.
    - apply i32_small. unfold is_i32. lia.
    - unfold i32. replace (b3 * 2 ^ 24 + 2 ^ 31) with ((b3 - 128) * 2 ^ 24 + 1 * 2 ^ 32) by lia.
      rewrite Z.mod_add, Z.mod_small by lia. lia. }
  rewrite Hi, lor_shiftl_add by lia.
  assert (Hn4 : n = b0 + b1 * 2 ^ 8 + b2 * 2 ^ 16 + b3 * 2 ^ 24) by (unfold b0, b1, b2, b3; dlia).
  rewrite Hn4 at 1. unfold u32. case_decide.
  - rewrite Z.mod_small; lia.
  - replace (b0 + b1 * 2 ^ 8 + b2 * 2 ^ 16 + (b3 - 256) * 2 ^ 24)
      with (b0 + b1 * 2 ^ 8 + b2 * 2 ^ 16 + b3 * 2 ^ 24 + (-1) * 2 ^ 32) by lia.
    rewrite Z.mod_add, Z.mod_small; lia.
Qed.


(** Reading the fields of a message, one behind the other. *)
Lemma unpackreq_number_ok addr session msg :
  is_u32 addr -> is_u32 session ->
  unpackreq_number ([0] ++ le_bytes 4 addr ++ le_bytes 4 session ++ msg) =
    Ret (AddrNumber addr, session, msg).
Proof.
  intros Ha Hs. unfold unpackreq_number. rewrite !length_app, !length_le_bytes. cbn [length].
  rewrite bool_decide_false by lia.
  rewrite (unpack_uint32_at [0] _ addr 1) by done. cbn [mbind outcome_bind].
  rewrite app_assoc, (unpack_uint32_at ([0] ++ le_bytes 4 addr) _ session 5) by done.
  cbn [mbind outcome_bind]. rewrite app_assoc, (read_bytes_at _ msg); [done|..].
  - rewrite !length_app, !length_le_bytes. cbn [length]. lia.
  - lia.
Qed.

Lemma unpackreq_string_ok name session msg :
  is_u32 session ->
  unpackreq_string ([Z.of_nat (length name)] ++ name ++ le_bytes 4 session ++ msg) =
    Ret (AddrString name, session, msg).
Proof.
  intros Hs. unfold unpackreq_string. rewrite !length_app, !length_le_bytes. cbn [length].
  change (read_at ([?n] ++ ?l) 0) with (Ret n). cbn [mbind outcome_bind].
  rewrite bool_decide_false by lia.
  rewrite (read_bytes_mid [Z.of_nat (length name)] name) by done. cbn [mbind outcome_bind].
  rewrite app_assoc, (unpack_uint32_at ([_] ++ name) _ session) by
    (first [done | rewrite length_app; cbn [length]; lia]).
  cbn [mbind outcome_bind]. rewrite app_assoc, (read_bytes_at _ msg); [done|..].
  - rewrite !length_app, !length_le_bytes. cbn [length]. lia.
  - lia.
Qed.

(* ------------------------------------------------------------------ *)
(** ** Properties *)

(** What a receiver makes of an address. *)
Definition addr_ok (addr : address) : Prop :=
  match addr with
  | AddrNumber n => is_u32 n
  | AddrString s => 1 <= Z.of_nat (length s) <= 255 /\ Bytes s
  end.

Definition addr_size (addr : address) : Z :=
  match addr with AddrNumber _ => 4 | AddrString s => Z.of_nat (length s) end.

(** C21: a cluster request survives the wire.  For a valid address and session and
    a message that fits, packing gives a frame that netpack cuts into exactly one
    packet, and unpacking that packet gives the address, the session and the
    message; the next session is positive. *)
Theorem request_roundtrip addr session msg :
  addr_ok addr -> 0 < session < 2 ^ 31 ->
  Z.of_nat (length msg) + 5 + addr_size addr < 0x10000 ->
  exists frame next packet,
    lpackrequest addr session (Some msg) = Ret (frame, next) /\
    parse frame = ([packet], []) /\
    lunpackrequest packet = Ret (addr, session, msg) /\
    0 < next < 2 ^ 31 /\ (session < 2 ^ 31 - 1 -> next = session + 1).
Proof.
  intros Ha Hs Hl. unfold lpackrequest. rewrite (i32_small session) by (unfold is_i32; lia).
  rewrite bool_decide_false by lia.
  assert (Hu : u32 session = session) by (apply u32_small; unfold is_u32; lia).
  set (next := if bool_decide (i32 (session + 1) < 0) then 1 else i32 (session + 1)).
  assert (Hnext : 0 < next < 2 ^ 31 /\ (session < 2 ^ 31 - 1 -> next = session + 1)).
  { unfold next. destruct (decide (session = 2 ^ 31 - 1)) as [->|].
    - change (i32 (2 ^ 31 - 1 + 1)) with (- 2 ^ 31). rewrite bool_decide_true by lia. lia.
    - rewrite i32_small, bool_decide_false by (unfold is_i32; lia). lia. }
  assert (Hparse : forall n p, Z.of_nat (length p) = n -> n < 65536 -> 0 <= n ->
    parse (be_bytes 2 n ++ p) = ([p], [])).
  { intros n p Hp Hn Hn0. rewrite parse_be, decide_False by lia.
    rewrite drop_ge, take_ge by lia. done. }
  destruct addr as [n|name]; simpl in Ha, Hl.
  - rewrite packreq_number_ok by lia. cbn [mbind outcome_bind]. fold next.
    rewrite Hu, (u32_small n) by done. eexists _, next, _. split_and!; [done| | |tauto..].
    + apply Hparse; [|lia|lia]. rewrite !length_app, !length_le_bytes. cbn [length]. lia.
    + unfold lunpackrequest.
      change (read_at (([0] ++ le_bytes 4 n ++ le_bytes 4 session ++ msg) ++ [0]) 0) with (Ret 0).
      cbn [mbind outcome_bind]. rewrite bool_decide_true by done.
      apply unpackreq_number_ok; [done|unfold is_u32; lia].
  - destruct Ha as [Hn Hb]. rewrite packreq_string_ok by lia. cbn [mbind outcome_bind]. fold next.
    rewrite Hu. eexists _, next, _. split_and!; [done| | |tauto..].
    + apply Hparse; [|lia|lia]. rewrite !length_app, !length_le_bytes. cbn [length]. lia.
    + unfold lunpackrequest. change (read_at (([?x] ++ ?l) ++ ?r) 0) with (Ret x).
      cbn [mbind outcome_bind]. rewrite bool_decide_false by lia.
      apply unpackreq_string_ok. unfold is_u32. lia.
Qed.

Lemma request_roundtrip_witness :
  exists frame next packet,
    lpackrequest (AddrString [100; 98]) 7 (Some [1; 2; 3]) = Ret (frame, next) /\
    parse frame = ([packet], []) /\
    lunpackrequest packet = Ret (AddrString [100; 98], 7, [1; 2; 3]) /\
    0 < next < 2 ^ 31 /\ (7 < 2 ^ 31 - 1 -> next = 7 + 1).
Proof.
  apply request_roundtrip; [split; [simpl; lia|repeat constructor; lia]|lia|simpl; lia].
Defined.

(** A cluster response survives the wire: the session and the flag come
    back, and the message too, cut to 4096 bytes when it is an error string. *)
Theorem response_roundtrip session ok r :
  is_u32 session ->
  let msg := match r with RespString s => take (Z.to_nat 0x1000) s | RespBlock b => b end in
  Z.of_nat (length msg) + 5 < 0x10000 ->
  exists frame packet,
    lpackresponse session ok r = Ret frame /\ parse frame = ([packet], []) /\
    lunpackresponse packet = Ret (Some (session, ok, msg)).
Proof.
  intros Hs msg Hl. unfold lpackresponse. rewrite (u32_small session) by done.
  assert (Hm : match r with
               | RespString s => if bool_decide (Z.of_nat (length s) > 0x1000)
                                 then take (Z.to_nat 0x1000) s else s
               | RespBlock b => b
               end = msg).
  { unfold msg. destruct r as [s|b]; [|done]. case_bool_decide; [done|]. by rewrite take_ge by lia. }
  rewrite Hm. clearbody msg. clear Hm. rewrite fill_header_ok by lia. cbn [mbind outcome_bind].
  unfold fill_uint32. rewrite uint32_bytes_le by (unfold is_u32 in Hs; lia).
  do 3 append_bytes. rewrite read_prefix.
  2: { rewrite !length_app, length_be_bytes, !length_le_bytes. cbn [length]. lia. }
  rewrite <- !app_assoc.
  set (f := [if ok then 1 else 0]). exists (be_bytes 2 (Z.of_nat (length msg) + 5) ++ le_bytes 4 session ++ f ++ msg).
  exists (le_bytes 4 session ++ f ++ msg). split_and!; [done| |].
  - rewrite parse_be, decide_False; [|..].
    + rewrite drop_ge, take_ge; [done|..]; rewrite !length_app, !length_le_bytes; unfold f;
        cbn [length]; lia.
    + rewrite !length_app, !length_le_bytes. unfold f. cbn [length]. lia.
    + lia.
  - unfold lunpackresponse. rewrite !length_app, !length_le_bytes. unfold f at 1. cbn [length].
    rewrite bool_decide_false by lia.
    pose proof (unpack_uint32_at [] (f ++ msg) session 0 Hs eq_refl) as Hun. cbn [app] in Hun.
    rewrite Hun. cbn [mbind outcome_bind].
    rewrite (read_at_app_r (le_bytes 4 session) _ 4 0) by done.
    change (read_at (f ++ msg) 0) with (Ret (if ok then 1 else 0)). cbn [mbind outcome_bind].
    rewrite app_assoc, (read_bytes_at _ msg); [by destruct ok|..].
    + rewrite length_app, length_le_bytes. done.
    + unfold f. cbn [length]. lia.
Qed.

Lemma response_roundtrip_witness :
  exists frame packet,
    lpackresponse 9 false (RespString [101; 114; 114]) = Ret frame /\ parse frame = ([packet], []) /\
    lunpackresponse packet = Ret (Some (9, false, take (Z.to_nat 0x1000) [101; 114; 114])).
Proof.
  apply (response_roundtrip 9 false (RespString [101; 114; 114])); [unfold is_u32; lia|].
  simpl. lia.
Defined.
