(* ===== verification/Des.v ===== *)
(** * DES (src/lualib-src/lua-crypt.c)

    The block cipher on a pair of 32-bit words, its key schedule, and the text
    functions [desencode] and [desdecode], which pad with 0x80 and zeros.  A word
    is a Z below 2^32; a shift to the left is cut to 32 bits where the C type does
    it. *)
From S2P Require Import Prelude.
From stdpp Require Import base list gmap numbers strings.
From Stdlib Require Import ZArith Lia.

Local Open Scope Z_scope.

(** ** Word access *)

Definition lors (l : list Z) : Z := fold_right Z.lor 0 l.

Definition GET_UINT32 (b : list Z) (i : nat) : Z :=
  lors [Z.shiftl (b !!! i) 24; Z.shiftl (b !!! (i + 1)%nat) 16; Z.shiftl (b !!! (i + 2)%nat) 8;
        b !!! (i + 3)%nat].

Definition PUT_UINT32 (n : Z) : list Z :=
  [u8 (Z.shiftr n 24); u8 (Z.shiftr n 16); u8 (Z.shiftr n 8); u8 n].

(** ** Tables *)

Definition SB1 : list Z := [
  0x01010400; 0x00000000; 0x00010000; 0x01010404; 0x01010004; 0x00010404;
  0x00000004; 0x00010000; 0x00000400; 0x01010400; 0x01010404; 0x00000400;
  0x01000404; 0x01010004; 0x01000000; 0x00000004; 0x00000404; 0x01000400;
  0x01000400; 0x00010400; 0x00010400; 0x01010000; 0x01010000; 0x01000404;
  0x00010004; 0x01000004; 0x01000004; 0x00010004; 0x00000000; 0x00000404;
  0x00010404; 0x01000000; 0x00010000; 0x01010404; 0x00000004; 0x01010000;
  0x01010400; 0x01000000; 0x01000000; 0x00000400; 0x01010004; 0x00010000;
  0x00010400; 0x01000004; 0x00000400; 0x00000004; 0x01000404; 0x00010404;
  0x01010404; 0x00010004; 0x01010000; 0x01000404; 0x01000004; 0x00000404;
  0x00010404; 0x01010400; 0x00000404; 0x01000400; 0x01000400; 0x00000000;
  0x00010004; 0x00010400; 0x00000000; 0x01010004].

Definition SB2 : list Z := [
  0x80108020; 0x80008000; 0x00008000; 0x00108020; 0x00100000; 0x00000020;
  0x80100020; 0x80008020; 0x80000020; 0x80108020; 0x80108000; 0x80000000;
  0x80008000; 0x00100000; 0x00000020; 0x80100020; 0x00108000; 0x00100020;
  0x80008020; 0x00000000; 0x80000000; 0x00008000; 0x00108020; 0x80100000;
  0x00100020; 0x80000020; 0x00000000; 0x00108000; 0x00008020; 0x80108000;
  0x80100000; 0x00008020; 0x00000000; 0x00108020; 0x80100020; 0x00100000;
  0x80008020; 0x80100000; 0x80108000; 0x00008000; 0x80100000; 0x80008000;
  0x00000020; 0x80108020; 0x00108020; 0x00000020; 0x00008000; 0x80000000;
  0x00008020; 0x80108000; 0x00100000; 0x80000020; 0x00100020; 0x80008020;
  0x80000020; 0x00100020; 0x00108000; 0x00000000; 0x80008000; 0x00008020;
  0x80000000; 0x80100020; 0x80108020; 0x00108000].

Definition SB3 : list Z := [
  0x00000208; 0x08020200; 0x00000000; 0x08020008; 0x08000200; 0x00000000;
  0x00020208; 0x08000200; 0x00020008; 0x08000008; 0x08000008; 0x00020000;
  0x08020208; 0x00020008; 0x08020000; 0x00000208; 0x08000000; 0x00000008;
  0x08020200; 0x00000200; 0x00020200; 0x08020000; 0x08020008; 0x00020208;
  0x08000208; 0x00020200; 0x00020000; 0x08000208; 0x00000008; 0x08020208;
  0x00000200; 0x08000000; 0x08020200; 0x08000000; 0x00020008; 0x00000208;
  0x00020000; 0x08020200; 0x08000200; 0x00000000; 0x00000200; 0x00020008;
  0x08020208; 0x08000200; 0x08000008; 0x00000200; 0x00000000; 0x08020008;
  0x08000208; 0x00020000; 0x08000000; 0x08020208; 0x00000008; 0x00020208;
  0x00020200; 0x08000008; 0x08020000; 0x08000208; 0x00000208; 0x08020000;
  0x00020208; 0x00000008; 0x08020008; 0x00020200].

Definition SB4 : list Z := [
  0x00802001; 0x00002081; 0x00002081; 0x00000080; 0x00802080; 0x00800081;
  0x00800001; 0x00002001; 0x00000000; 0x00802000; 0x00802000; 0x00802081;
  0x00000081; 0x00000000; 0x00800080; 0x00800001; 0x00000001; 0x00002000;
  0x00800000; 0x00802001; 0x00000080; 0x00800000; 0x00002001; 0x00002080;
  0x00800081; 0x00000001; 0x00002080; 0x00800080; 0x00002000; 0x00802080;
  0x00802081; 0x00000081; 0x00800080; 0x00800001; 0x00802000; 0x00802081;
  0x00000081; 0x00000000; 0x00000000; 0x00802000; 0x00002080; 0x00800080;
  0x00800081; 0x00000001; 0x00802001; 0x00002081; 0x00002081; 0x00000080;
  0x00802081; 0x00000081; 0x00000001; 0x00002000; 0x00800001; 0x00002001;
  0x00802080; 0x00800081; 0x00002001; 0x00002080; 0x00800000; 0x00802001;
  0x00000080; 0x00800000; 0x00002000; 0x00802080].

Definition SB5 : list Z := [
  0x00000100; 0x02080100; 0x02080000; 0x42000100; 0x00080000; 0x00000100;
  0x40000000; 0x02080000; 0x40080100; 0x00080000; 0x02000100; 0x40080100;
  0x42000100; 0x42080000; 0x00080100; 0x40000000; 0x02000000; 0x40080000;
  0x40080000; 0x00000000; 0x40000100; 0x42080100; 0x42080100; 0x02000100;
  0x42080000; 0x40000100; 0x00000000; 0x42000000; 0x02080100; 0x02000000;
  0x42000000; 0x00080100; 0x00080000; 0x42000100; 0x00000100; 0x02000000;
  0x40000000; 0x02080000; 0x42000100; 0x40080100; 0x02000100; 0x40000000;
  0x42080000; 0x02080100; 0x40080100; 0x00000100; 0x02000000; 0x42080000;
  0x42080100; 0x00080100; 0x42000000; 0x42080100; 0x02080000; 0x00000000;
  0x40080000; 0x42000000; 0x00080100; 0x02000100; 0x40000100; 0x00080000;
  0x00000000; 0x40080000; 0x02080100; 0x40000100].

Definition SB6 : list Z := [
  0x20000010; 0x20400000; 0x00004000; 0x20404010; 0x20400000; 0x00000010;
  0x20404010; 0x00400000; 0x20004000; 0x00404010; 0x00400000; 0x20000010;
  0x00400010; 0x20004000; 0x20000000; 0x00004010; 0x00000000; 0x00400010;
  0x20004010; 0x00004000; 0x00404000; 0x20004010; 0x00000010; 0x20400010;
  0x20400010; 0x00000000; 0x00404010; 0x20404000; 0x00004010; 0x00404000;
  0x20404000; 0x20000000; 0x20004000; 0x00000010; 0x20400010; 0x00404000;
  0x20404010; 0x00400000; 0x00004010; 0x20000010; 0x00400000; 0x20004000;
  0x20000000; 0x00004010; 0x20000010; 0x20404010; 0x00404000; 0x20400000;
  0x00404010; 0x20404000; 0x00000000; 0x20400010; 0x00000010; 0x00004000;
  0x20400000; 0x00404010; 0x00004000; 0x00400010; 0x20004010; 0x00000000;
  0x20404000; 0x20000000; 0x00400010; 0x20004010].

Definition SB7 : list Z := [
  0x00200000; 0x04200002; 0x04000802; 0x00000000; 0x00000800; 0x04000802;
  0x00200802; 0x04200800; 0x04200802; 0x00200000; 0x00000000; 0x04000002;
  0x00000002; 0x04000000; 0x04200002; 0x00000802; 0x04000800; 0x00200802;
  0x00200002; 0x04000800; 0x04000002; 0x04200000; 0x04200800; 0x00200002;
  0x04200000; 0x00000800; 0x00000802; 0x04200802; 0x00200800; 0x00000002;
  0x04000000; 0x00200800; 0x04000000; 0x00200800; 0x00200000; 0x04000802;
  0x04000802; 0x04200002; 0x04200002; 0x00000002; 0x00200002; 0x04000000;
  0x04000800; 0x00200000; 0x04200800; 0x00000802; 0x00200802; 0x04200800;
  0x00000802; 0x04000002; 0x04200802; 0x04200000; 0x00200800; 0x00000000;
  0x00000002; 0x04200802; 0x00000000; 0x00200802; 0x04200000; 0x00000800;
  0x04000002; 0x04000800; 0x00000800; 0x00200002].

Definition SB8 : list Z := [
  0x10001040; 0x00001000; 0x00040000; 0x10041040; 0x10000000; 0x10001040;
  0x00000040; 0x10000000; 0x00040040; 0x10040000; 0x10041040; 0x00041000;
  0x10041000; 0x00041040; 0x00001000; 0x00000040; 0x10040000; 0x10000040;
  0x10001000; 0x00001040; 0x00041000; 0x00040040; 0x10040040; 0x10041000;
  0x00001040; 0x00000000; 0x00000000; 0x10040040; 0x10000040; 0x10001000;
  0x00041040; 0x00040000; 0x00041040; 0x00040000; 0x10041000; 0x00001000;
  0x00000040; 0x10040040; 0x00001000; 0x00041040; 0x10001000; 0x00000040;
  0x10000040; 0x10040000; 0x10040040; 0x10000000; 0x00040000; 0x10001040;
  0x00000000; 0x10041040; 0x00040040; 0x10000040; 0x10040000; 0x10001000;
  0x10001040; 0x00000000; 0x10041040; 0x00041000; 0x00041000; 0x00001040;
  0x00001040; 0x00040040; 0x10000000; 0x10041000].

Definition LHs : list Z := [
  0x00000000; 0x00000001; 0x00000100; 0x00000101; 0x00010000; 0x00010001;
  0x00010100; 0x00010101; 0x01000000; 0x01000001; 0x01000100; 0x01000101;
  0x01010000; 0x01010001; 0x01010100; 0x01010101].

Definition RHs : list Z := [
  0x00000000; 0x01000000; 0x00010000; 0x01010000; 0x00000100; 0x01000100;
  0x00010100; 0x01010100; 0x00000001; 0x01000001; 0x00010001; 0x01010001;
  0x00000101; 0x01000101; 0x00010101; 0x01010101].

(** Subkey word 1 of a round; every mask fits in 32 bits. *)
Definition subkey1 (X Y : Z) : Z :=
  lors [Z.land (Z.shiftl X 4) 0x24000000;
        Z.land (Z.shiftl X 28) 0x10000000;
        Z.land (Z.shiftl X 14) 0x08000000;
        Z.land (Z.shiftl X 18) 0x02080000;
        Z.land (Z.shiftl X 6) 0x01000000;
        Z.land (Z.shiftl X 9) 0x00200000;
        Z.land (Z.shiftr X 1) 0x00100000;
        Z.land (Z.shiftl X 10) 0x00040000;
        Z.land (Z.shiftl X 2) 0x00020000;
        Z.land (Z.shiftr X 10) 0x00010000;
        Z.land (Z.shiftr Y 13) 0x00002000;
        Z.land (Z.shiftr Y 4) 0x00001000;
        Z.land (Z.shiftl Y 6) 0x00000800;
        Z.land (Z.shiftr Y 1) 0x00000400;
        Z.land (Z.shiftr Y 14) 0x00000200;
        Z.land Y 0x00000100;
        Z.land (Z.shiftr Y 5) 0x00000020;
        Z.land (Z.shiftr Y 10) 0x00000010;
        Z.land (Z.shiftr Y 3) 0x00000008;
        Z.land (Z.shiftr Y 18) 0x00000004;
        Z.land (Z.shiftr Y 26) 0x00000002;
        Z.land (Z.shiftr Y 24) 0x00000001].

(** Subkey word 2 of a round; every mask fits in 32 bits. *)
Definition subkey2 (X Y : Z) : Z :=
  lors [Z.land (Z.shiftl X 15) 0x20000000;
        Z.land (Z.shiftl X 17) 0x10000000;
        Z.land (Z.shiftl X 10) 0x08000000;
        Z.land (Z.shiftl X 22) 0x04000000;
        Z.land (Z.shiftr X 2) 0x02000000;
        Z.land (Z.shiftl X 1) 0x01000000;
        Z.land (Z.shiftl X 16) 0x00200000;
        Z.land (Z.shiftl X 11) 0x00100000;
        Z.land (Z.shiftl X 3) 0x00080000;
        Z.land (Z.shiftr X 6) 0x00040000;
        Z.land (Z.shiftl X 15) 0x00020000;
        Z.land (Z.shiftr X 4) 0x00010000;
        Z.land (Z.shiftr Y 2) 0x00002000;
        Z.land (Z.shiftl Y 8) 0x00001000;
        Z.land (Z.shiftr Y 14) 0x00000808;
        Z.land (Z.shiftr Y 9) 0x00000400;
        Z.land Y 0x00000200;
        Z.land (Z.shiftl Y 7) 0x00000100;
        Z.land (Z.shiftr Y 7) 0x00000020;
        Z.land (Z.shiftr Y 3) 0x00000011;
        Z.land (Z.shiftl Y 2) 0x00000004;
        Z.land (Z.shiftr Y 21) 0x00000002].

(** ** Key schedule *)

(** Both step kinds of the permutations: exchange the bits of [X >> k] and [Y]
    that the mask [M] selects.  The result is the new [X] and [Y]. *)
Definition exchange (k M : Z) (p : Z * Z) : Z * Z :=
  let '(X, Y) := p in
  let T := Z.land (Z.lxor (Z.shiftr X k) Y) M in
  (Z.lxor X (u32 (Z.shiftl T k)), Z.lxor Y T).

Definition lookup4 (l : list Z) (X k : Z) : Z := l !!! Z.to_nat (Z.land (Z.shiftr X k) 0xF).

Definition permuted_choice_1 (X Y : Z) : Z * Z :=
  let '(Y, X) := exchange 4 0x0F0F0F0F (Y, X) in
  let '(Y, X) := exchange 0 0x10101010 (Y, X) in
  let X := lors [Z.shiftl (lookup4 LHs X 0) 3; Z.shiftl (lookup4 LHs X 8) 2;
                 Z.shiftl (lookup4 LHs X 16) 1; lookup4 LHs X 24;
                 Z.shiftl (lookup4 LHs X 5) 7; Z.shiftl (lookup4 LHs X 13) 6;
                 Z.shiftl (lookup4 LHs X 21) 5; Z.shiftl (lookup4 LHs X 29) 4] in
  let Y := lors [Z.shiftl (lookup4 RHs Y 1) 3; Z.shiftl (lookup4 RHs Y 9) 2;
                 Z.shiftl (lookup4 RHs Y 17) 1; lookup4 RHs Y 25;
                 Z.shiftl (lookup4 RHs Y 4) 7; Z.shiftl (lookup4 RHs Y 12) 6;
                 Z.shiftl (lookup4 RHs Y 20) 5; Z.shiftl (lookup4 RHs Y 28) 4] in
  (Z.land (u32 X) 0x0FFFFFFF, Z.land (u32 Y) 0x0FFFFFFF).

(** The 28-bit rotation of half a key. *)
Definition rotate28 (X n : Z) : Z :=
  Z.land (Z.lor (Z.shiftl X n) (Z.shiftr X (28 - n))) 0x0FFFFFFF.

Fixpoint subkeys (rounds : nat) (i X Y : Z) : list Z :=
  match rounds with
  | O => []
  | S rounds =>
    let n := if bool_decide (i < 2 \/ i = 8 \/ i = 15) then 1 else 2 in
    let X := rotate28 X n in
    let Y := rotate28 Y n in
    subkey1 X Y :: subkey2 X Y :: subkeys rounds (i + 1) X Y
  end.

Definition des_main_ks (key : list Z) : list Z :=
  let '(X, Y) := permuted_choice_1 (GET_UINT32 key 0) (GET_UINT32 key 4) in
  subkeys 16 0 X Y.

(** ** The cipher *)

Definition rotl1 (X : Z) : Z :=
  Z.land (Z.lor (u32 (Z.shiftl X 1)) (Z.shiftr X 31)) 0xFFFFFFFF.
Definition rotr1 (X : Z) : Z :=
  Z.land (Z.lor (u32 (Z.shiftl X 31)) (Z.shiftr X 1)) 0xFFFFFFFF.

Definition DES_IP (p : Z * Z) : Z * Z :=
  let '(X, Y) := exchange 16 0x0000FFFF (exchange 4 0x0F0F0F0F p) in
  let '(Y, X) := exchange 8 0x00FF00FF (exchange 2 0x33333333 (Y, X)) in
  let Y := rotl1 Y in
  let '(X, Y) := exchange 0 0xAAAAAAAA (X, Y) in
  (rotl1 X, Y).

Definition DES_FP (p : Z * Z) : Z * Z :=
  let '(X, Y) := p in
  let X := rotr1 X in
  let '(X, Y) := exchange 0 0xAAAAAAAA (X, Y) in
  let Y := rotr1 Y in
  let '(Y, X) := exchange 2 0x33333333 (exchange 8 0x00FF00FF (Y, X)) in
  exchange 4 0x0F0F0F0F (exchange 16 0x0000FFFF (X, Y)).

Definition lookup6 (l : list Z) (T k : Z) : Z := l !!! Z.to_nat (Z.land (Z.shiftr T k) 0x3F).

(** The new [Y]; [SK] moves on by the two subkeys [k1] and [k2]. *)
Definition DES_ROUND (X Y k1 k2 : Z) : Z :=
  let T := Z.lxor k1 X in
  let Y := Z.lxor Y (Z.lxor (Z.lxor (Z.lxor (lookup6 SB8 T 0) (lookup6 SB6 T 8))
                                    (lookup6 SB4 T 16)) (lookup6 SB2 T 24)) in
  let T := Z.lxor k2 (Z.lor (u32 (Z.shiftl X 28)) (Z.shiftr X 4)) in
  Z.lxor Y (Z.lxor (Z.lxor (Z.lxor (lookup6 SB7 T 0) (lookup6 SB5 T 8))
                           (lookup6 SB3 T 16)) (lookup6 SB1 T 24)).

(** The rounds of [des_crypt], two at a time. *)
Fixpoint des_rounds (SK : list Z) (X Y : Z) : Z * Z :=
  match SK with
  | k0 :: k1 :: k2 :: k3 :: SK =>
    let X := DES_ROUND Y X k0 k1 in
    let Y := DES_ROUND X Y k2 k3 in
    des_rounds SK X Y
  | _ => (X, Y)
  end.

Definition des_crypt (SK input : list Z) : list Z :=
  let '(X, Y) := DES_IP (GET_UINT32 input 0, GET_UINT32 input 4) in
  let '(X, Y) := des_rounds SK X Y in
  let '(Y, X) := DES_FP (Y, X) in
  PUT_UINT32 Y ++ PUT_UINT32 X.

(** ** Texts *)

Definition des_key (key : list Z) : outcome (list Z) :=
  if bool_decide (Z.of_nat (length key) <> 8) then Raise "Invalid key size"
  else Ret (des_main_ks key).

(** The loop over the whole blocks; [out] is the part of [buffer] written. *)
Fixpoint encode_blocks (fuel : nat) (SK text : list Z) (i : Z) (out : list Z)
  : outcome (Z * list Z) :=
  match fuel with
  | O => Crash OutOfFuel
  | S fuel =>
    if bool_decide (i < i32 (Z.of_nat (length text)) - 7) then
      block ← read_bytes text i 8;
      encode_blocks fuel SK text (i + 8) (out ++ des_crypt SK block)
    else Ret (i, out)
  end.

(** [tail], from the last [bytes] bytes of the text. *)
Definition pad_tail (text : list Z) (i bytes : Z) : outcome (list Z) :=
  rest ← read_bytes text i bytes;
  Ret ((fun j => if bool_decide (Z.of_nat j < bytes) then rest !!! j
                 else if bool_decide (Z.of_nat j = bytes) then 0x80 else 0) <$> seq 0 8).

Definition ldesencode (key text : list Z) : outcome (list Z) :=
  SK ← des_key key;
  let textsz := Z.of_nat (length text) in
  let chunksz := Z.land (textsz + 8) (Z.lnot 7) in
  '(i, out) ← encode_blocks (S (length text)) SK text 0 [];
  tail ← pad_tail text i (i32 (textsz - i));
  read_bytes (out ++ des_crypt SK tail) 0 chunksz.

Fixpoint decode_blocks (fuel : nat) (SK text : list Z) (i : Z) (out : list Z)
  : outcome (list Z) :=
  match fuel with
  | O => Crash OutOfFuel
  | S fuel =>
    if bool_decide (u64 i < Z.of_nat (length text)) then
      block ← read_bytes text i 8;
      decode_blocks fuel SK text (i + 8) (out ++ des_crypt SK block)
    else Ret out
  end.

(** The scan for the end mark; [i] is an [int], compared with a [size_t]. *)
Fixpoint find_padding (fuel : nat) (buffer : list Z) (i padding : Z) : outcome Z :=
  match fuel with
  | O => Crash OutOfFuel
  | S fuel =>
    if bool_decide (Z.of_nat (length buffer) - 8 <= u64 i) then
      b ← read_at buffer i;
      if bool_decide (b = 0) then find_padding fuel buffer (i - 1) (padding + 1)
      else if bool_decide (b = 0x80) then Ret padding
      else Raise "Invalid des crypt text"
    else Ret padding
  end.

(** [SK[i] = ESK[30 - i]; SK[i + 1] = ESK[31 - i]] *)
Fixpoint reverse_pairs (ESK : list Z) : list Z :=
  match ESK with
  | k1 :: k2 :: ESK => reverse_pairs ESK ++ [k1; k2]
  | _ => []
  end.

Definition ldesdecode (key text : list Z) : outcome (list Z) :=
  ESK ← des_key key;
  let SK := reverse_pairs ESK in
  let textsz := Z.of_nat (length text) in
  if bool_decide (Z.land textsz 7 <> 0 \/ textsz = 0) then
    Raise "Invalid des crypt text length"
  else
    buffer ← decode_blocks (S (length text)) SK text 0 [];
    padding ← find_padding 10 buffer (i32 (textsz - 1)) 1;
    if bool_decide (8 < padding) then Raise "Invalid des crypt text"
    else read_bytes buffer 0 (textsz - padding).

(** A published test vector of the cipher. *)
Example des_known_answer :
  des_crypt (des_main_ks [0x13; 0x34; 0x57; 0x79; 0x9B; 0xBC; 0xDF; 0xF1])
    [0x01; 0x23; 0x45; 0x67; 0x89; 0xAB; 0xCD; 0xEF]
  = [0x85; 0xE8; 0x13; 0x54; 0x0F; 0x0A; 0xB4; 0x05].
Proof. vm_compute. reflexivity. Qed.

(** ** The permutations undo each other *)

Lemma is_u32_lxor a b : is_u32 a -> is_u32 b -> is_u32 (Z.lxor a b).
Proof.
  unfold is_u32. intros Ha Hb.
  assert (Hm : Z.lxor a b = Z.land (Z.lxor a b) (2 ^ 32 - 1)).
  { rewrite land_mask by lia. apply Z.bits_inj'. intros i Hi.
    destruct (decide (i < 32)).
    - by rewrite Z.mod_pow2_bits_low by lia.
    - rewrite Z.mod_pow2_bits_high by lia. rewrite Z.lxor_spec.
      by rewrite (testbit_above a 32), (testbit_above b 32) by lia. }
  rewrite Hm, land_mask by lia. dlia.
Qed.

Lemma land_le_mask a n : 0 <= n -> 0 <= Z.land a n <= n.
Proof.
  intros Hn. split; [apply Z.land_nonneg; lia|].
  rewrite Z.land_comm. rewrite <- (Z.lxor_0_r (Z.land n a)).
  assert (Hs : n = Z.land n a + Z.land n (Z.lnot a)).
  { rewrite Z.add_nocarry_lxor.
    - apply Z.bits_inj'. intros i Hi.
      rewrite Z.lxor_spec, !Z.land_spec, Z.lnot_spec by done.
      by destruct (Z.testbit n i), (Z.testbit a i).
    - apply Z.bits_inj'. intros i Hi.
      rewrite !Z.land_spec, Z.lnot_spec, Z.bits_0 by done.
      by destruct (Z.testbit n i), (Z.testbit a i). }
  rewrite Z.lxor_0_r. pose proof (proj2 (Z.land_nonneg n (Z.lnot a)) (or_introl Hn)). lia.
Qed.

(** An exchange is an involution when the mask survives the shift. *)
Lemma exchange_involutive k M p :
  0 <= k -> 0 <= M -> Z.shiftl M k < 2 ^ 32 -> exchange k M (exchange k M p) = p.
Proof.
  intros Hk HM Hlt. destruct p as [X Y]. unfold exchange.
  set (T := Z.land (Z.lxor (Z.shiftr X k) Y) M).
  assert (HT : 0 <= T <= M) by by apply land_le_mask.
  assert (Hs : u32 (Z.shiftl T k) = Z.shiftl T k).
  { apply u32_small. unfold is_u32. rewrite Z.shiftl_mul_pow2 in * by lia. nia. }
  rewrite Hs.
  assert (Hsame : Z.land (Z.lxor (Z.shiftr (Z.lxor X (Z.shiftl T k)) k) (Z.lxor Y T)) M = T).
  { rewrite Z.shiftr_lxor, Z.shiftr_shiftl_l, Z.sub_diag, Z.shiftl_0_r by lia.
    rewrite (Z.lxor_comm Y T), <- Z.lxor_assoc, (Z.lxor_assoc _ T T), Z.lxor_nilpotent.
    by rewrite Z.lxor_0_r. }
  rewrite Hsame, Hs, !Z.lxor_assoc, !Z.lxor_nilpotent. by rewrite !Z.lxor_0_r.
Qed.

Lemma exchange_u32 k M X Y :
  0 <= M < 2 ^ 32 -> is_u32 X -> is_u32 Y ->
  is_u32 (exchange k M (X, Y)).1 /\ is_u32 (exchange k M (X, Y)).2.
Proof.
  intros HM HX HY. simpl. split; apply is_u32_lxor; try done; [apply u32_range|].
  pose proof (land_le_mask (Z.lxor (Z.shiftr X k) Y) M). unfold is_u32. lia.
Qed.

Lemma rotl1_add X : is_u32 X -> rotl1 X = (X * 2 + X / 2 ^ 31) mod 2 ^ 32.
Proof.
  unfold is_u32, rotl1. intros HX. change 0xFFFFFFFF with (2 ^ 32 - 1).
  rewrite land_mask by lia. rewrite Z.lor_comm, Z.shiftr_div_pow2 by lia.
  replace (u32 (Z.shiftl X 1)) with (Z.shiftl (X mod 2 ^ 31) 1).
  - rewrite lor_shiftl_add by (simpl; dlia). dlia.
  - unfold u32. rewrite !Z.shiftl_mul_pow2 by lia. dlia.
Qed.

Lemma rotr1_add X : is_u32 X -> rotr1 X = X / 2 + (X mod 2) * 2 ^ 31.
Proof.
  unfold is_u32, rotr1. intros HX. change 0xFFFFFFFF with (2 ^ 32 - 1).
  rewrite land_mask by lia. rewrite Z.lor_comm, Z.shiftr_div_pow2 by lia.
  replace (u32 (Z.shiftl X 31)) with (Z.shiftl (X mod 2) 31).
  - rewrite lor_shiftl_add by (simpl; dlia). dlia.
  - unfold u32. rewrite !Z.shiftl_mul_pow2 by lia. dlia.
Qed.

Lemma rot_u32 X : is_u32 X -> is_u32 (rotl1 X) /\ is_u32 (rotr1 X).
Proof.
  intros HX. rewrite rotl1_add, rotr1_add by done. unfold is_u32 in *. split; dlia.
Qed.

Lemma rotr1_rotl1 X : is_u32 X -> rotr1 (rotl1 X) = X.
Proof.
  intros HX. rewrite rotr1_add by by apply rot_u32. rewrite rotl1_add by done.
  unfold is_u32 in HX. dlia.
Qed.

Lemma rotl1_rotr1 X : is_u32 X -> rotl1 (rotr1 X) = X.
Proof.
  intros HX. rewrite rotl1_add by by apply rot_u32. rewrite rotr1_add by done.
  unfold is_u32 in HX. dlia.
Qed.

(** A pair of 32-bit words. *)
Definition words (p : Z * Z) : Prop := is_u32 p.1 /\ is_u32 p.2.

Definition on_fst (f : Z -> Z) (p : Z * Z) : Z * Z := (f p.1, p.2).
Definition on_snd (f : Z -> Z) (p : Z * Z) : Z * Z := (p.1, f p.2).

Lemma words_exchange k M p : 0 <= M < 2 ^ 32 -> words p -> words (exchange k M p).
Proof. destruct p as [X Y]. intros HM [HX HY]. by apply exchange_u32. Qed.

Lemma words_swap p : words p -> words (prod_swap p).
Proof. destruct p. unfold words. simpl. tauto. Qed.

Lemma words_rot p : words p ->
  (words (on_fst rotl1 p) /\ words (on_snd rotl1 p)) /\
  words (on_fst rotr1 p) /\ words (on_snd rotr1 p).
Proof.
  destruct p as [X Y]. intros [HX HY]. unfold words. simpl in *.
  pose proof (rot_u32 X HX). pose proof (rot_u32 Y HY). tauto.
Qed.

(** The permutations as compositions. *)
Lemma DES_IP_eq p : DES_IP p =
  on_fst rotl1 (exchange 0 0xAAAAAAAA (on_snd rotl1 (prod_swap (exchange 8 0x00FF00FF
    (exchange 2 0x33333333 (prod_swap (exchange 16 0x0000FFFF (exchange 4 0x0F0F0F0F p)))))))).
Proof.
  unfold DES_IP. destruct (exchange 16 _ _) as [X Y]. cbn [prod_swap].
  destruct (exchange 8 _ _) as [Y' X']. cbn [prod_swap on_snd fst snd].
  by destruct (exchange 0 _ _).
Qed.

Lemma DES_FP_eq p : DES_FP p =
  exchange 4 0x0F0F0F0F (exchange 16 0x0000FFFF (prod_swap (exchange 2 0x33333333
    (exchange 8 0x00FF00FF (prod_swap (on_snd rotr1 (exchange 0 0xAAAAAAAA (on_fst rotr1 p)))))))).
Proof.
  unfold DES_FP. destruct p as [X Y]. cbn [on_fst fst snd].
  destruct (exchange 0 _ _) as [X' Y']. cbn [on_snd prod_swap fst snd].
  by destruct (exchange 2 _ _).
Qed.

Ltac solve_words :=
  repeat first [done | apply words_exchange; [lia|] | apply words_swap
               | apply words_rot ].

Lemma words_IP p : words p -> words (DES_IP p).
Proof. intros. rewrite DES_IP_eq. solve_words. Qed.

Lemma words_FP p : words p -> words (DES_FP p).
Proof. intros. rewrite DES_FP_eq. solve_words. Qed.

Lemma prod_swap_swap (p : Z * Z) : prod_swap (prod_swap p) = p.
Proof. by destruct p. Qed.

Lemma on_fst_rl p : words p -> on_fst rotr1 (on_fst rotl1 p) = p.
Proof. destruct p. intros [? ?]. unfold on_fst. simpl in *. by rewrite rotr1_rotl1. Qed.
Lemma on_snd_rl p : words p -> on_snd rotr1 (on_snd rotl1 p) = p.
Proof. destruct p. intros [? ?]. unfold on_snd. simpl in *. by rewrite rotr1_rotl1. Qed.
Lemma on_fst_lr p : words p -> on_fst rotl1 (on_fst rotr1 p) = p.
Proof. destruct p. intros [? ?]. unfold on_fst. simpl in *. by rewrite rotl1_rotr1. Qed.
Lemma on_snd_lr p : words p -> on_snd rotl1 (on_snd rotr1 p) = p.
Proof. destruct p. intros [? ?]. unfold on_snd. simpl in *. by rewrite rotl1_rotr1. Qed.

Ltac undo :=
  repeat first [ rewrite exchange_involutive by (vm_compute; done)
               | rewrite prod_swap_swap
               | rewrite on_fst_rl by solve_words
               | rewrite on_snd_rl by solve_words
               | rewrite on_fst_lr by solve_words
               | rewrite on_snd_lr by solve_words ].

Lemma DES_FP_IP p : words p -> DES_FP (DES_IP p) = p.
Proof. intros. rewrite DES_FP_eq, DES_IP_eq. undo. done. Qed.

Lemma DES_IP_FP p : words p -> DES_IP (DES_FP p) = p.
Proof. intros. rewrite DES_FP_eq, DES_IP_eq. undo. done. Qed.

(** ** Rounds *)

(** What a round adds to [Y]. *)
Definition feistel (X k1 k2 : Z) : Z :=
  let T1 := Z.lxor k1 X in
  let T2 := Z.lxor k2 (Z.lor (u32 (Z.shiftl X 28)) (Z.shiftr X 4)) in
  Z.lxor
    (Z.lxor (Z.lxor (Z.lxor (lookup6 SB8 T1 0) (lookup6 SB6 T1 8)) (lookup6 SB4 T1 16))
       (lookup6 SB2 T1 24))
    (Z.lxor (Z.lxor (Z.lxor (lookup6 SB7 T2 0) (lookup6 SB5 T2 8)) (lookup6 SB3 T2 16))
       (lookup6 SB1 T2 24)).

Lemma DES_ROUND_eq X Y k1 k2 : DES_ROUND X Y k1 k2 = Z.lxor Y (feistel X k1 k2).
Proof. unfold DES_ROUND, feistel. cbv zeta. apply Z.lxor_assoc. Qed.

Lemma DES_ROUND_twice X Y k1 k2 : DES_ROUND X (DES_ROUND X Y k1 k2) k1 k2 = Y.
Proof. by rewrite !DES_ROUND_eq, Z.lxor_assoc, Z.lxor_nilpotent, Z.lxor_0_r. Qed.

(** Every table entry is a word. *)
Lemma tables_u32 : Forall (Forall is_u32) [SB1; SB2; SB3; SB4; SB5; SB6; SB7; SB8].
Proof. refine (bool_decide_unpack _ _). vm_compute. exact I. Qed.

Lemma lookup6_u32 l T k : Forall is_u32 l -> is_u32 (lookup6 l T k).
Proof.
  intros Hl. unfold lookup6. rewrite list_lookup_total_alt.
  destruct (l !! _) as [x|] eqn:E; [|vm_compute; split; congruence].
  by eapply Forall_lookup_1.
Qed.

Lemma DES_ROUND_u32 X Y k1 k2 : is_u32 Y -> is_u32 (DES_ROUND X Y k1 k2).
Proof.
  intros HY. rewrite DES_ROUND_eq. apply is_u32_lxor; [done|]. unfold feistel. cbv zeta.
  pose proof tables_u32 as HT. rewrite !Forall_cons in HT.
  repeat apply is_u32_lxor; apply lookup6_u32; tauto.
Qed.

(** The key words of whole double rounds. *)
Inductive quads : list Z -> Prop :=
| quads_nil : quads []
| quads_cons a b c d l : quads l -> quads (a :: b :: c :: d :: l).

Lemma des_rounds_app K1 K2 X Y : quads K1 ->
  des_rounds (K1 ++ K2) X Y = let '(X, Y) := des_rounds K1 X Y in des_rounds K2 X Y.
Proof. intros H. revert X Y. induction H; intros; [done|]. cbn [des_rounds app]. apply IHquads. Qed.

Lemma words_rounds K X Y : quads K -> words (X, Y) -> words (des_rounds K X Y).
Proof.
  intros H. revert X Y. induction H; intros X Y [HX HY]; [done|]. simpl in HX, HY.
  cbn [des_rounds]. cbv zeta. apply IHquads. split; simpl; by repeat apply DES_ROUND_u32.
Qed.

Lemma quads_app K1 K2 : quads K1 -> quads K2 -> quads (K1 ++ K2).
Proof. induction 1; intros; [done|]. constructor. auto. Qed.

Lemma quads_reverse K : quads K -> quads (reverse_pairs K).
Proof.
  induction 1 as [|a b c d l H IH]; [constructor|]. cbn [reverse_pairs]. rewrite <- app_assoc.
  apply quads_app; [done|]. repeat constructor.
Qed.

(** The rounds with the key pairs reversed undo the rounds, the halves exchanged. *)
Lemma des_rounds_reverse K X Y X' Y' : quads K ->
  des_rounds K X Y = (X', Y') -> des_rounds (reverse_pairs K) Y' X' = (Y, X).
Proof.
  intros H. revert X Y. induction H as [|a b c d l H IH]; intros X Y HE.
  { by injection HE as -> ->. }
  cbn [des_rounds] in HE. cbv zeta in HE. apply IH in HE.
  cbn [reverse_pairs]. rewrite <- app_assoc, des_rounds_app by by apply quads_reverse.
  rewrite HE. cbn [app des_rounds]. cbv zeta. by rewrite !DES_ROUND_twice.
Qed.

(** The key schedule gives 32 words. *)
Lemma quads_subkeys n i X Y : quads (subkeys (n + n) i X Y).
Proof.
  revert i X Y. induction n as [|n IH]; intros; [constructor|].
  rewrite Nat.add_succ_r. cbn [Nat.add subkeys]. cbv zeta. constructor. apply IH.
Qed.

Lemma quads_main_ks key : quads (des_main_ks key).
Proof.
  unfold des_main_ks. destruct (permuted_choice_1 _ _). apply (quads_subkeys 8).
Qed.

(** ** Blocks *)

Lemma lors_word a b c d : Bytes [a; b; c; d] ->
  lors [Z.shiftl a 24; Z.shiftl b 16; Z.shiftl c 8; d]
  = d + c * 2 ^ 8 + b * 2 ^ 16 + a * 2 ^ 24.
Proof.
  intros HB. rewrite !Forall_cons in HB. destruct HB as (Ha & Hb & Hc & Hd & _).
  unfold is_byte in *. unfold lors. cbn [fold_right]. rewrite Z.lor_0_r.
  rewrite (Z.lor_comm _ d), (lor_shiftl_add d c 8) by lia.
  rewrite (Z.lor_comm (Z.shiftl b 16)), (lor_shiftl_add _ b 16) by lia.
  by rewrite Z.lor_comm, (lor_shiftl_add _ a 24) by lia.
Qed.

Lemma PUT_bytes n : PUT_UINT32 n =
  [n / 2 ^ 24 mod 256; n / 2 ^ 16 mod 256; n / 2 ^ 8 mod 256; n mod 256].
Proof. unfold PUT_UINT32, u8. by rewrite !Z.shiftr_div_pow2 by lia. Qed.

Lemma PUT_Bytes n : Bytes (PUT_UINT32 n).
Proof. rewrite PUT_bytes. repeat constructor; unfold is_byte; dlia. Qed.

Lemma PUT_word a b c d : Bytes [a; b; c; d] ->
  PUT_UINT32 (d + c * 2 ^ 8 + b * 2 ^ 16 + a * 2 ^ 24) = [a; b; c; d].
Proof.
  intros HB. rewrite !Forall_cons in HB. unfold is_byte in HB. rewrite PUT_bytes.
  repeat f_equal; dlia.
Qed.

Lemma word_PUT n : is_u32 n -> exists a b c d, PUT_UINT32 n = [a; b; c; d] /\
  Bytes [a; b; c; d] /\ n = d + c * 2 ^ 8 + b * 2 ^ 16 + a * 2 ^ 24.
Proof.
  intros Hn. rewrite PUT_bytes. do 4 eexists. split; [reflexivity|]. split.
  - repeat constructor; unfold is_byte; dlia.
  - unfold is_u32 in Hn. dlia.
Qed.

(** A block is eight bytes. *)
Abbreviation is_block := (chunk 8).

Lemma GET_PUT X Y : words (X, Y) ->
  GET_UINT32 (PUT_UINT32 X ++ PUT_UINT32 Y) 0 = X /\
  GET_UINT32 (PUT_UINT32 X ++ PUT_UINT32 Y) 4 = Y.
Proof.
  intros [HX HY]. simpl in HX, HY.
  destruct (word_PUT X HX) as (a & b & c & d & -> & HB & HE).
  destruct (word_PUT Y HY) as (a' & b' & c' & d' & -> & HB' & HE').
  split; etrans; [by apply lors_word|done|by apply lors_word|done].
Qed.

Lemma PUT_GET l : is_block l ->
  words (GET_UINT32 l 0, GET_UINT32 l 4) /\
  PUT_UINT32 (GET_UINT32 l 0) ++ PUT_UINT32 (GET_UINT32 l 4) = l.
Proof.
  intros [Hl HB].
  destruct l as [|a [|b [|c [|d [|e [|f [|g [|h [|? ?]]]]]]]]]; try discriminate Hl.
  rewrite !Forall_cons in HB. destruct HB as (? & ? & ? & ? & ? & ? & ? & ? & _).
  assert (HBa : Bytes [a; b; c; d]) by (repeat (apply Forall_cons_2; [done|]); apply Forall_nil_2).
  assert (HBe : Bytes [e; f; g; h]) by (repeat (apply Forall_cons_2; [done|]); apply Forall_nil_2).
  replace (GET_UINT32 _ 0) with (d + c * 2 ^ 8 + b * 2 ^ 16 + a * 2 ^ 24)
    by by symmetry; apply (lors_word a b c d).
  replace (GET_UINT32 _ 4) with (h + g * 2 ^ 8 + f * 2 ^ 16 + e * 2 ^ 24)
    by by symmetry; apply (lors_word e f g h).
  split; [|by rewrite !PUT_word by done].
  unfold is_byte in *. unfold words, is_u32. simpl. lia.
Qed.

Lemma des_crypt_block K l : is_block (des_crypt K l).
Proof.
  unfold des_crypt. destruct (DES_IP _). destruct (des_rounds _ _ _). destruct (DES_FP _).
  split; [done|]. apply Forall_app; split; apply PUT_Bytes.
Qed.

(** Decryption of a block, with the key pairs reversed. *)
Lemma des_crypt_reverse K l : quads K -> is_block l ->
  des_crypt (reverse_pairs K) (des_crypt K l) = l.
Proof.
  intros HK Hl. destruct (PUT_GET l Hl) as [Hw Hp].
  unfold des_crypt at 2. destruct (DES_IP _) as [X0 Y0] eqn:HIP.
  assert (H0 : words (X0, Y0)) by (rewrite <- HIP; by apply words_IP).
  destruct (des_rounds K X0 Y0) as [X1 Y1] eqn:HR.
  assert (H1 : words (X1, Y1)) by (rewrite <- HR; by apply words_rounds).
  destruct (DES_FP (Y1, X1)) as [Y2 X2] eqn:HFP.
  assert (Hs : words (Y1, X1)) by (destruct H1; by split).
  assert (H2 : words (Y2, X2)) by (rewrite <- HFP; by apply words_FP).
  unfold des_crypt. destruct (GET_PUT Y2 X2 H2) as [-> ->].
  rewrite <- HFP, DES_IP_FP by done.
  rewrite (des_rounds_reverse K X0 Y0 X1 Y1 HK HR), <- HIP, DES_FP_IP by done. done.
Qed.

(** ** Texts *)

Lemma encode_blocks_eq SK bs : forall fuel pre rest i out,
  Forall is_block bs -> (length rest < 8)%nat -> (length bs < fuel)%nat ->
  i = Z.of_nat (length pre) ->
  Z.of_nat (length (pre ++ concat bs ++ rest)) < 2 ^ 31 ->
  encode_blocks fuel SK (pre ++ concat bs ++ rest) i out
  = Ret (Z.of_nat (length (pre ++ concat bs)), out ++ concat (des_crypt SK <$> bs)).
Proof.
  induction bs as [|b bs IH]; intros fuel pre rest i out Hbs Hr Hf -> Hlt;
    (destruct fuel as [|fuel]; [simpl in Hf; lia|]); cbn [encode_blocks].
  - rewrite i32_small by (unfold is_i32; lia).
    rewrite bool_decide_false by size_lia.
    cbn [concat fmap list_fmap]. by rewrite !app_nil_r.
  - apply Forall_cons in Hbs as [Hb Hbs]. pose proof Hb as [Hb8 _].
    rewrite i32_small by (unfold is_i32; lia).
    rewrite bool_decide_true by (rewrite !length_app; simpl; rewrite length_app; lia).
    cbn [concat]. rewrite <- (app_assoc b), read_bytes_mid by lia.
    cbn [mbind outcome_bind]. rewrite (app_assoc pre b).
    rewrite IH; [|done|done|simpl in Hf; lia|rewrite length_app; lia|].
    + cbn [fmap list_fmap concat]. by rewrite <- !app_assoc.
    + cbn [concat] in Hlt. by rewrite <- (app_assoc b), (app_assoc pre) in Hlt.
Qed.

Lemma decode_blocks_eq SK bs : forall fuel pre i out,
  Forall is_block bs -> (length bs < fuel)%nat ->
  i = Z.of_nat (length pre) -> Z.of_nat (length (pre ++ concat bs)) < 2 ^ 31 ->
  decode_blocks fuel SK (pre ++ concat bs) i out
  = Ret (out ++ concat (des_crypt SK <$> bs)).
Proof.
  induction bs as [|b bs IH]; intros fuel pre i out Hbs Hf -> Hlt;
    (destruct fuel as [|fuel]; [simpl in Hf; lia|]); cbn [decode_blocks];
    (rewrite u64_small by (unfold is_u64; rewrite length_app in Hlt; lia)).
  - rewrite bool_decide_false by size_lia.
    cbn [concat fmap list_fmap]. by rewrite !app_nil_r.
  - apply Forall_cons in Hbs as [Hb Hbs]. pose proof Hb as [Hb8 _].
    rewrite bool_decide_true by (rewrite !length_app; simpl; rewrite length_app; lia).
    cbn [concat]. rewrite read_bytes_mid by lia.
    cbn [mbind outcome_bind]. rewrite (app_assoc pre b).
    rewrite IH; [|done|simpl in Hf; lia|rewrite length_app; lia|].
    + cbn [fmap list_fmap concat]. by rewrite <- !app_assoc.
    + cbn [concat] in Hlt. by rewrite (app_assoc pre) in Hlt.
Qed.

(** The padding of the last block. *)
Definition pad (rest : list Z) : list Z :=
  rest ++ 0x80 :: replicate (7 - length rest) 0.

Lemma pad_block rest : Bytes rest -> (length rest < 8)%nat -> is_block (pad rest).
Proof.
  intros HB Hl. unfold pad. split.
  - rewrite length_app. cbn [length]. rewrite length_replicate. lia.
  - apply Forall_app. split; [done|]. constructor; [unfold is_byte; lia|].
    apply Forall_replicate. unfold is_byte. lia.
Qed.

Lemma pad_tail_eq pre rest i bytes : (length rest < 8)%nat ->
  i = Z.of_nat (length pre) -> bytes = Z.of_nat (length rest) ->
  pad_tail (pre ++ rest) i bytes = Ret (pad rest).
Proof.
  intros Hl -> ->. unfold pad_tail. rewrite read_bytes_at by done.
  cbn [mbind outcome_bind]. f_equal.
  do 8 (destruct rest as [|? rest]; [done|]). simpl in Hl. lia.
Qed.

(** The scan passes the zeros behind the mark. *)
Lemma find_padding_mark pre rest j : forall k fuel padding,
  (k < fuel)%nat -> (length rest + 1 + k + j = 8)%nat ->
  Z.of_nat (length (pre ++ rest ++ 0x80 :: replicate (k + j) 0)) < 2 ^ 31 ->
  find_padding fuel (pre ++ rest ++ 0x80 :: replicate (k + j) 0)
    (Z.of_nat (length (pre ++ rest) + k)) padding = Ret (padding + Z.of_nat k).
Proof.
  intros k. revert j. induction k as [|k IH]; intros j fuel padding Hf Hl Hlt;
    (destruct fuel as [|fuel]; [lia|]); cbn [find_padding];
    pose proof Hlt as Hlt'; rewrite !length_app in Hlt'; cbn [length] in Hlt';
    rewrite length_replicate in Hlt';
    rewrite u64_small by (unfold is_u64; rewrite length_app; lia);
    rewrite bool_decide_true by (rewrite !length_app; cbn [length];
                                 rewrite length_replicate; lia).
  - rewrite (app_assoc pre), (read_at_app_r (pre ++ rest) _ _ 0)
      by size_lia. cbn [read_at lookup].
    change (read_at (0x80 :: replicate (0 + j) 0) 0) with (Ret 0x80).
    cbn. f_equal. lia.
  - rewrite (app_assoc pre), (read_at_app_r (pre ++ rest) _ _ (Z.of_nat (S k)))
      by size_lia.
    rewrite (read_at_Some _ (S k) 0) by (apply (lookup_replicate_2 (S k + j) 0 k); lia).
    cbn [mbind outcome_bind]. rewrite bool_decide_true by done. rewrite <- app_assoc.
    replace (Z.of_nat (length (pre ++ rest) + S k) - 1)
      with (Z.of_nat (length (pre ++ rest) + k)) by lia.
    replace (S k + j)%nat with (k + S j)%nat in * by lia.
    rewrite IH; [f_equal; lia|lia|lia|done].
Qed.

(** What the scan does on any last block. *)
Lemma find_padding_any pre blk : forall k fuel padding,
  (S k < fuel)%nat -> (k <= 8)%nat -> length blk = 8%nat ->
  Z.of_nat (length (pre ++ blk)) < 2 ^ 31 ->
  (exists f, find_padding fuel (pre ++ blk) (Z.of_nat (length pre + k) - 1) padding = Crash f)
  <-> pre = [] /\ take k blk = replicate k 0.
Proof.
  induction k as [|k IH]; intros fuel padding Hf Hk Hl Hlt;
    (destruct fuel as [|fuel]; [lia|]); cbn [find_padding];
    pose proof Hlt as Hlt'; rewrite length_app in Hlt'; rewrite length_app.
  - destruct pre as [|x pre].
    + split; [done|]. intros _. exists OutOfBounds.
      change (u64 (Z.of_nat (length (@nil Z) + 0) - 1)) with (2 ^ 64 - 1).
      rewrite bool_decide_true by (simpl; lia). done.
    + cbn [length] in *. rewrite u64_small by (unfold is_u64; lia).
      rewrite bool_decide_false by lia. by split; [intros [f ?]|intros [? _]].
  - rewrite u64_small by (unfold is_u64; lia). rewrite bool_decide_true by lia.
    destruct (lookup_lt_is_Some_2 blk k) as [b Hb]; [lia|].
    rewrite (read_at_app_r pre _ _ (Z.of_nat k)) by lia.
    rewrite (read_at_Some _ _ b) by done. cbn [mbind outcome_bind].
    rewrite (take_S_r _ _ b), replicate_S_end by done. case_bool_decide as Hz.
    + subst b. replace (Z.of_nat (length pre + S k) - 1 - 1)
        with (Z.of_nat (length pre + k) - 1) by lia.
      rewrite IH; [|lia|lia|done|rewrite length_app; lia].
      split; intros [-> He]; (split; [done|]); [by rewrite He|].
      by apply app_inj_2 in He as [? _].
    + split; [intros [f He]; by destruct (bool_decide (b = 128))|].
      intros [_ He]. apply app_inj_2 in He as [_ He]; [congruence|done].
Qed.

Lemma des_key_eq key : length key = 8%nat -> des_key key = Ret (des_main_ks key).
Proof. intros H. unfold des_key. by rewrite bool_decide_false by lia. Qed.

Lemma chunk_size n : Z.land (n + 8) (Z.lnot 7) = n / 8 * 8 + 8.
Proof.
  rewrite <- Z.ldiff_land. change 7 with (Z.ones 3). rewrite Z.ldiff_ones_r by lia.
  rewrite Z.shiftl_mul_pow2, Z.shiftr_div_pow2 by lia. dlia.
Qed.

Lemma land_7 n : Z.land n 7 = n mod 8.
Proof. exact (Z.land_ones n 3 ltac:(lia)). Qed.

Lemma crypt_blocks SK bs : Forall is_block (des_crypt SK <$> bs).
Proof. apply Forall_fmap, Forall_true. intros. apply des_crypt_block. Qed.

(** The cipher text of a text: its blocks, then the padded rest. *)
Lemma ldesencode_eq key bs rest :
  length key = 8%nat -> Forall is_block bs -> Bytes rest -> (length rest < 8)%nat ->
  Z.of_nat (length (concat bs ++ rest)) < 2 ^ 31 ->
  ldesencode key (concat bs ++ rest)
  = Ret (concat (des_crypt (des_main_ks key) <$> (bs ++ [pad rest]))).
Proof.
  intros Hk Hbs HB Hr Hlt. pose proof ((length_chunks 8) bs Hbs) as Hlb.
  unfold ldesencode. rewrite des_key_eq by done. cbn [mbind outcome_bind]. cbv zeta.
  pose proof (encode_blocks_eq (des_main_ks key) bs (S (length (concat bs ++ rest))) [] rest 0 [])
    as He.
  cbn [app] in He. rewrite He by first [done | rewrite length_app; lia]. clear He. cbn [mbind outcome_bind app].
  rewrite (pad_tail_eq (concat bs) rest);
    [|done|done|rewrite i32_small by (unfold is_i32; rewrite length_app; lia);
                rewrite length_app; lia].
  cbn [mbind outcome_bind]. rewrite fmap_app, concat_app. cbn [fmap list_fmap concat].
  rewrite app_nil_r. apply read_bytes_all. rewrite chunk_size, !length_app.
  rewrite (length_chunks 8) by apply crypt_blocks. rewrite length_fmap, Hlb.
  destruct (des_crypt_block (des_main_ks key) (pad rest)) as [-> _]. dlia.
Qed.

Lemma decode_whole SK bs : Forall is_block bs -> Z.of_nat (length (concat bs)) < 2 ^ 31 ->
  decode_blocks (S (length (concat bs))) SK (concat bs) 0 [] = Ret (concat (des_crypt SK <$> bs)).
Proof.
  intros Hbs Hlt. pose proof ((length_chunks 8) bs Hbs).
  apply (decode_blocks_eq SK bs _ [] 0 []); [done|lia|done|done].
Qed.

Lemma crypt_reverse_blocks K bs : quads K -> Forall is_block bs ->
  des_crypt (reverse_pairs K) <$> (des_crypt K <$> bs) = bs.
Proof.
  intros HK. induction 1 as [|b bs Hb _ IH]; [done|]. cbn [fmap list_fmap].
  by rewrite des_crypt_reverse, IH.
Qed.

(** C22: [desdecode] with the same 8-byte key gives back every text [desencode] took,
    of any length up to the range of an [int]; the cipher text is the padded length. *)
Theorem des_roundtrip key text :
  length key = 8%nat -> Bytes text -> Z.of_nat (length text) < 2 ^ 31 - 8 ->
  exists cipher, ldesencode key text = Ret cipher /\
    Z.of_nat (length cipher) = Z.of_nat (length text) / 8 * 8 + 8 /\
    ldesdecode key cipher = Ret text.
Proof.
  intros Hk HB Hlt. destruct (split_chunks 8 text ltac:(lia) HB) as (bs & rest & -> & Hbs & HBr & Hr).
  apply Forall_app in HB as [_ HB]. set (K := des_main_ks key).
  assert (Hall : Forall is_block (bs ++ [pad rest])).
  { apply Forall_app. split; [done|]. constructor; [by apply pad_block|done]. }
  exists (concat (des_crypt K <$> (bs ++ [pad rest]))).
  split; [apply ldesencode_eq; try done; lia|].
  pose proof ((length_chunks 8) bs Hbs) as Hlb. rewrite length_app, Hlb in Hlt.
  assert (Hlen : length (concat (des_crypt K <$> (bs ++ [pad rest]))) = (8 * length bs + 8)%nat).
  { rewrite (length_chunks 8) by apply crypt_blocks. rewrite length_fmap, length_app. simpl. lia. }
  split; [rewrite Hlen, length_app, Hlb; dlia|].
  unfold ldesdecode. rewrite des_key_eq by done. cbn [mbind outcome_bind]. cbv zeta.
  fold K. rewrite decode_whole by (try apply crypt_blocks; rewrite Hlen; lia).
  rewrite Hlen, land_7, bool_decide_false by dlia. cbn [mbind outcome_bind].
  rewrite crypt_reverse_blocks by (try done; apply quads_main_ks).
  rewrite concat_app. cbn [concat]. rewrite app_nil_r. unfold pad.
  set (z := (7 - length rest)%nat).
  rewrite i32_small by (unfold is_i32; lia).
  replace (Z.of_nat (8 * length bs + 8) - 1) with (Z.of_nat (length (concat bs ++ rest) + z))
    by (rewrite length_app, Hlb; lia).
  replace (replicate z 0) with (replicate (z + 0) 0) by (f_equal; lia).
  rewrite find_padding_mark; [|lia|lia|].
  2: { rewrite !length_app. cbn [length]. rewrite length_replicate, Hlb. lia. }
  cbn [mbind outcome_bind]. rewrite bool_decide_false by lia. rewrite app_assoc.
  apply read_prefix. rewrite length_app, Hlb. lia.
Qed.

Lemma des_roundtrip_witness :
  let key := [1; 2; 3; 4; 5; 6; 7; 8] in let text := [72; 101; 108; 108; 111; 0; 0; 0; 33] in
  exists cipher, ldesencode key text = Ret cipher /\
    Z.of_nat (length cipher) = Z.of_nat (length text) / 8 * 8 + 8 /\
    ldesdecode key cipher = Ret text.
Proof.
  apply des_roundtrip; [reflexivity| |reflexivity].
  repeat constructor; discriminate.
Defined.

Lemma find_padding_le fuel : forall buffer i p q,
  find_padding fuel buffer i p = Ret q -> p <= q.
Proof.
  induction fuel as [|fuel IH]; intros buffer i p q H; [done|]. cbn [find_padding] in H.
  case_bool_decide; [|by injection H as ->].
  destruct (read_at buffer i) as [b| |]; cbn [mbind outcome_bind] in H; try done.
  case_bool_decide; [apply IH in H; lia|]. case_bool_decide; [|done].
  by injection H as ->.
Qed.

(** Only the scan can fault. *)
Lemma crash_of_scan buf i n : n = Z.of_nat (length buf) -> 8 <= n ->
  (exists f, (padding ← find_padding 10 buf i 1;
              if bool_decide (8 < padding) then Raise "Invalid des crypt text"
              else read_bytes buf 0 (n - padding)) = Crash f)
  <-> exists f, find_padding 10 buf i 1 = Crash f.
Proof.
  intros -> Hn. destruct (find_padding 10 buf i 1) as [p| |] eqn:E; cbn [mbind outcome_bind];
    [|by split; intros [? ?]|by split; intros [x [= ->]]; exists x].
  apply find_padding_le in E. case_bool_decide; [by split; intros [? ?]|].
  rewrite read_bytes_prefix by lia. by split; intros [? ?].
Qed.

(** [desdecode] of a cipher text of one block reads the byte before its buffer
    when the block decrypts to zeros; on every other input it ends with a text or
    an error. *)
Theorem desdecode_faults_iff key text :
  length key = 8%nat -> Bytes text -> Z.of_nat (length text) < 2 ^ 31 ->
  (exists f, ldesdecode key text = Crash f) <->
  length text = 8%nat /\
  des_crypt (reverse_pairs (des_main_ks key)) text = replicate 8 0.
Proof.
  intros Hk HB Hlt. unfold ldesdecode. rewrite des_key_eq by done.
  cbn [mbind outcome_bind]. cbv zeta. case_bool_decide as Hl.
  { split; [by intros [f Hf]|]. intros [H8 _]. rewrite H8 in Hl. vm_compute in Hl. lia. }
  set (K := reverse_pairs (des_main_ks key)).
  destruct (split_chunks 8 text ltac:(lia) HB) as (bs & rest & -> & Hbs & _ & Hr).
  pose proof ((length_chunks 8) bs Hbs) as Hlb. rewrite land_7, length_app, Hlb in Hl.
  assert (rest = []) as -> by (destruct rest; [done|]; cbn [length] in *; dlia).
  rewrite app_nil_r in *. rewrite decode_whole by done. cbn [mbind outcome_bind].
  destruct bs as [|b0 bs0 _] using rev_ind; [simpl in Hl; lia|].
  rewrite fmap_app, !concat_app. cbn [fmap list_fmap concat]. rewrite !app_nil_r.
  apply Forall_app in Hbs as [Hbs0 Hb0]. apply Forall_singleton in Hb0 as [Hb8 _].
  pose proof ((length_chunks 8) _ Hbs0) as Hlb0. pose proof ((length_chunks 8) _ (crypt_blocks K bs0)) as Hlc.
  rewrite length_fmap in Hlc. rewrite !length_app, Hb8 in *.
  destruct (des_crypt_block K b0) as [Hc8 _].
  pose proof (find_padding_any (concat (des_crypt K <$> bs0)) (des_crypt K b0) 8 10 1) as Hp.
  rewrite Hlc, length_app, Hc8, Hlc in Hp. cbn [length] in *.
  rewrite i32_small by (unfold is_i32; lia).
  rewrite Hlb0. specialize (Hp ltac:(lia) ltac:(lia) eq_refl ltac:(lia)).
  rewrite (firstn_all2 _ (n := 8)) in Hp by lia.
  replace (Z.of_nat (8 * length bs0 + 8)) with (Z.of_nat (8 * length bs0 + (8 + 0))) in Hp by lia.
  set (buf := concat _ ++ _) in Hp |- *.
  assert (Hbuf : length buf = (8 * length bs0 + 8)%nat)
    by (unfold buf; rewrite length_app, Hlc; lia).
  trans (exists f, find_padding 10 buf (Z.of_nat (8 * length bs0 + (8 + 0)) - 1) 1 = Crash f).
  - apply crash_of_scan; lia.
  - rewrite Hp. destruct bs0; [|cbn [length] in *].
    + cbn [concat fmap list_fmap app]. split; intros [_ ?]; (split; [reflexivity|assumption]).
    + split; [intros [He _]|intros [? _]; lia].
      apply (f_equal length) in He. rewrite Hlc in He. simpl in He. lia.
Qed.

(** A one-block cipher text of zeros under any key meets the fault. *)
Lemma desdecode_faults_iff_witness :
  let key := [1; 2; 3; 4; 5; 6; 7; 8] in
  let text := des_crypt (des_main_ks key) (replicate 8 0) in
  (exists f, ldesdecode key text = Crash f) <->
  length text = 8%nat /\
  des_crypt (reverse_pairs (des_main_ks key)) text = replicate 8 0.
Proof.
  apply desdecode_faults_iff; [reflexivity| |reflexivity].
  apply des_crypt_block.
Defined.
