(* ===== verification/Crypt.v ===== *)
(** * Hashes, hexadecimal, key exchange and base64 (src/lualib-src/lua-crypt.c)

    The functions of the [crypt] library other than DES: [hashkey], [hexencode] and
    [hexdecode], [hmac64], the Diffie-Hellman pair [dhexchange] and [dhsecret] over
    64-bit numbers modulo the biggest 64-bit prime, and base64.  Arguments and
    results are byte lists. *)
From S2P Require Import Prelude.
From stdpp Require Import base list gmap numbers strings.
From Stdlib Require Import ZArith Zpow_facts Lia.

Local Open Scope Z_scope.

Definition SMALL_CHUNK : Z := 256.

(** The four bytes of a word, low byte first. *)
Definition word_bytes (n : Z) : list Z :=
  [Z.land n 0xff; Z.land (Z.shiftr n 8) 0xff; Z.land (Z.shiftr n 16) 0xff;
   Z.land (Z.shiftr n 24) 0xff].

(** ** Hash of a key *)

Definition hash_step (h : Z * Z) (c : Z) : Z * Z :=
  let '(djb_hash, js_hash) := h in
  (u32 (djb_hash + (u32 (Z.shiftl djb_hash 5) + c)),
   Z.lxor js_hash (u32 (u32 (Z.shiftl js_hash 5) + c + Z.shiftr js_hash 2))).

Definition Hash (str : list Z) : list Z :=
  let '(djb_hash, js_hash) := fold_left hash_step str (5381, 1315423911) in
  word_bytes djb_hash ++ word_bytes js_hash.

Definition lhashkey (key : list Z) : list Z := Hash key.

(** ** Hexadecimal *)

Definition hex : list Z :=
  [48; 49; 50; 51; 52; 53; 54; 55; 56; 57; 97; 98; 99; 100; 101; 102].

Definition ltohex (text : list Z) : list Z :=
  concat ((fun t => [hex !!! Z.to_nat (Z.shiftr t 4); hex !!! Z.to_nat (Z.land t 0xf)]) <$> text).

(** [HEX(v, c)]: the [char] is signed, [v] an [uint8_t]. *)
Definition HEX (c : Z) : Z :=
  let tmp := (c + 128) mod 256 - 128 in
  if bool_decide (48 <= tmp /\ tmp <= 57) then u8 (tmp - 48) else u8 (tmp - 97 + 10).

(** The character behind the last one of a Lua string is a NUL. *)
Fixpoint fromhex_loop (fuel : nat) (text : list Z) (i : Z) (buffer : list Z)
  : outcome (list Z) :=
  match fuel with
  | O => Crash OutOfFuel
  | S fuel =>
    if bool_decide (i < Z.of_nat (length text)) then
      c1 ← read_at (text ++ [0]) i;
      c2 ← read_at (text ++ [0]) (i + 1);
      let hi := HEX c1 in
      let low := HEX c2 in
      if bool_decide (hi > 16 \/ low > 16) then Raise "Invalid hex text"
      else fromhex_loop fuel text (i + 2) (buffer ++ [u8 (Z.lor (Z.shiftl hi 4) low)])
    else Ret buffer
  end.

Definition lfromhex (text : list Z) : outcome (list Z) :=
  let sz := Z.of_nat (length text) in
  if bool_decide (Z.land sz 2 <> 0) then Raise "Invalid hex text size"
  else fromhex_loop (S (length text)) text 0 [].

(** ** The 64-bit mac *)

Definition k : list Z := [
  0xd76aa478; 0xe8c7b756; 0x242070db; 0xc1bdceee;
  0xf57c0faf; 0x4787c62a; 0xa8304613; 0xfd469501;
  0x698098d8; 0x8b44f7af; 0xffff5bb1; 0x895cd7be;
  0x6b901122; 0xfd987193; 0xa679438e; 0x49b40821;
  0xf61e2562; 0xc040b340; 0x265e5a51; 0xe9b6c7aa;
  0xd62f105d; 0x02441453; 0xd8a1e681; 0xe7d3fbc8;
  0x21e1cde6; 0xc33707d6; 0xf4d50d87; 0x455a14ed;
  0xa9e3e905; 0xfcefa3f8; 0x676f02d9; 0x8d2a4c8a;
  0xfffa3942; 0x8771f681; 0x6d9d6122; 0xfde5380c;
  0xa4beea44; 0x4bdecfa9; 0xf6bb4b60; 0xbebfbc70;
  0x289b7ec6; 0xeaa127fa; 0xd4ef3085; 0x04881d05;
  0xd9d4d039; 0xe6db99e5; 0x1fa27cf8; 0xc4ac5665;
  0xf4292244; 0x432aff97; 0xab9423a7; 0xfc93a039;
  0x655b59c3; 0x8f0ccc92; 0xffeff47d; 0x85845dd1;
  0x6fa87e4f; 0xfe2ce6e0; 0xa3014314; 0x4e0811a1;
  0xf7537e82; 0xbd3af235; 0x2ad7d2bb; 0xeb86d391].

Definition r : list Z := [
  7; 12; 17; 22; 7; 12; 17; 22; 7; 12; 17; 22; 7; 12; 17; 22;
  5;  9; 14; 20; 5;  9; 14; 20; 5;  9; 14; 20; 5;  9; 14; 20;
  4; 11; 16; 23; 4; 11; 16; 23; 4; 11; 16; 23; 4; 11; 16; 23;
  6; 10; 15; 21; 6; 10; 15; 21; 6; 10; 15; 21; 6; 10; 15; 21].

Definition LEFTROTATE (x c : Z) : Z := Z.lor (u32 (Z.shiftl x c)) (Z.shiftr x (32 - c)).

Definition not32 (x : Z) : Z := Z.lxor x 0xffffffff.

(** One round on [(a, b, c, d)]. *)
Definition hmac_round (w : list Z) (s : Z * Z * Z * Z) (i : nat) : Z * Z * Z * Z :=
  let '(a, b, c, d) := s in
  let '(f, g) :=
    if bool_decide (i < 16)%nat then (Z.lor (Z.land b c) (Z.land (not32 b) d), i)
    else if bool_decide (i < 32)%nat then
      (Z.lor (Z.land d b) (Z.land (not32 d) c), ((5 * i + 1) mod 16)%nat)
    else if bool_decide (i < 48)%nat then
      (Z.lxor (Z.lxor b c) d, ((3 * i + 5) mod 16)%nat)
    else (Z.lxor c (Z.lor b (not32 d)), ((7 * i) mod 16)%nat) in
  (d, u32 (b + LEFTROTATE (u32 (a + f + k !!! i + w !!! g)) (r !!! i)), b, c).

(** [x], [y] and the result are pairs of words. *)
Definition hmac (x y : Z * Z) : Z * Z :=
  let q := [x.2; x.1; y.2; y.1] in
  let w := q ++ q ++ q ++ q in
  let '(a, b, c, d) :=
    fold_left (hmac_round w) (seq 0 64) (0x67452301, 0xefcdab89, 0x98badcfe, 0x10325476) in
  (Z.lxor c d, Z.lxor a b).

(** The two words of an 8-byte string. *)
Definition word_at (x : list Z) (i : nat) : Z :=
  Z.lor (Z.lor (Z.lor (x !!! i) (Z.shiftl (x !!! (i + 1)%nat) 8))
               (Z.shiftl (x !!! (i + 2)%nat) 16)) (Z.shiftl (x !!! (i + 3)%nat) 24).

Definition read64 (x y : list Z) : outcome ((Z * Z) * (Z * Z)) :=
  if bool_decide (Z.of_nat (length x) <> 8) then Raise "Invalid uint64 x"
  else if bool_decide (Z.of_nat (length y) <> 8) then Raise "Invalid uint64 y"
  else Ret ((word_at x 0, word_at x 4), (word_at y 0, word_at y 4)).

Definition lhmac64 (x y : list Z) : outcome (list Z) :=
  '(x, y) ← read64 x y;
  let result := hmac x y in
  Ret (word_bytes result.1 ++ word_bytes result.2).

(** ** Key exchange *)

Definition P : Z := 0xffffffffffffffc5.

(** The loop of [mul_mod_p]; all operands are 64-bit. *)
Fixpoint mul_mod_loop (fuel : nat) (a b m : Z) : outcome Z :=
  match fuel with
  | O => Crash OutOfFuel
  | S fuel =>
    if bool_decide (b <> 0) then
      let m :=
        if bool_decide (Z.land b 1 <> 0) then
          let t := u64 (P - a) in
          if bool_decide (m >= t) then u64 (m - t) else u64 (m + a)
        else m in
      let a := if bool_decide (a >= u64 (P - a)) then u64 (u64 (a * 2) - P) else u64 (a * 2) in
      mul_mod_loop fuel a (Z.shiftr b 1) m
    else Ret m
  end.

Definition mul_mod_p (a b : Z) : outcome Z := mul_mod_loop 65 a b 0.

(** The recursion has no case for [b = 0]. *)
Fixpoint pow_mod_p (fuel : nat) (a b : Z) : outcome Z :=
  match fuel with
  | O => Crash OutOfFuel
  | S fuel =>
    if bool_decide (b = 1) then Ret a
    else
      t ← pow_mod_p fuel a (Z.shiftr b 1);
      t ← mul_mod_p t t;
      if bool_decide (b mod 2 <> 0) then mul_mod_p t a else Ret t
  end.

Definition powmodp (fuel : nat) (a b : Z) : outcome Z :=
  let a := if bool_decide (a > P) then a mod P else a in
  pow_mod_p fuel a b.

(** [push64] *)
Definition push64 (r : Z) : list Z :=
  [Z.land r 0xff; Z.land (Z.shiftr r 8) 0xff; Z.land (Z.shiftr r 16) 0xff;
   Z.land (Z.shiftr r 24) 0xff; Z.land (Z.shiftr r 32) 0xff; Z.land (Z.shiftr r 40) 0xff;
   Z.land (Z.shiftr r 48) 0xff; Z.land (Z.shiftr r 56) 0xff].

Definition join64 (x : Z * Z) : Z := Z.lor x.1 (Z.shiftl x.2 32).

Definition ldhsecret (fuel : nat) (x y : list Z) : outcome (list Z) :=
  '(x, y) ← read64 x y;
  r ← powmodp fuel (join64 x) (join64 y);
  Ret (push64 r).

Definition G : Z := 5.

Definition ldhexchange (fuel : nat) (x : list Z) : outcome (list Z) :=
  if bool_decide (Z.of_nat (length x) <> 8) then Raise "Invalid dh uint64 key"
  else
    r ← powmodp fuel G (join64 (word_at x 0, word_at x 4));
    Ret (push64 r).

(** ** Base 64 *)

(** "A-Za-z0-9+/" *)
Definition encoding : list Z := [
  65; 66; 67; 68; 69; 70; 71; 72; 73; 74; 75; 76; 77; 78; 79; 80; 81; 82; 83; 84; 85; 86;
  87; 88; 89; 90; 97; 98; 99; 100; 101; 102; 103; 104; 105; 106; 107; 108; 109; 110; 111;
  112; 113; 114; 115; 116; 117; 118; 119; 120; 121; 122; 48; 49; 50; 51; 52; 53; 54; 55; 56;
  57; 43; 47].

(** The loop over groups of three bytes; [out] is the part of [buffer] written. *)
Fixpoint b64encode_loop (fuel : nat) (text : list Z) (i : Z) (out : list Z)
  : outcome (Z * list Z) :=
  match fuel with
  | O => Crash OutOfFuel
  | S fuel =>
    if bool_decide (i < i32 (Z.of_nat (length text)) - 2) then
      t0 ← read_at text i;
      t1 ← read_at text (i + 1);
      t2 ← read_at text (i + 2);
      let v := Z.lor (Z.lor (Z.shiftl t0 16) (Z.shiftl t1 8)) t2 in
      e0 ← read_at encoding (Z.shiftr v 18);
      e1 ← read_at encoding (Z.land (Z.shiftr v 12) 0x3f);
      e2 ← read_at encoding (Z.land (Z.shiftr v 6) 0x3f);
      e3 ← read_at encoding (Z.land v 0x3f);
      b64encode_loop fuel text (i + 3) (out ++ [e0; e1; e2; e3])
    else Ret (i, out)
  end.

(** The last one or two bytes. *)
Definition b64encode_tail (text : list Z) (i padding : Z) : outcome (list Z) :=
  if bool_decide (padding = 1) then
    v ← read_at text i;
    e0 ← read_at encoding (Z.shiftr v 2);
    e1 ← read_at encoding (Z.shiftl (Z.land v 3) 4);
    Ret [e0; e1; 61; 61]
  else if bool_decide (padding = 2) then
    t0 ← read_at text i;
    t1 ← read_at text (i + 1);
    let v := Z.lor (Z.shiftl t0 8) t1 in
    e0 ← read_at encoding (Z.shiftr v 10);
    e1 ← read_at encoding (Z.land (Z.shiftr v 4) 0x3f);
    e2 ← read_at encoding (Z.shiftl (Z.land v 0xf) 2);
    Ret [e0; e1; e2; 61]
  else Ret [].

Definition lb64encode (text : list Z) : outcome (list Z) :=
  let sz := Z.of_nat (length text) in
  let encode_sz := i32 ((sz + 2) / 3 * 4) in
  '(i, out) ← b64encode_loop (S (length text)) text 0 [];
  tail ← b64encode_tail text i (i32 (sz - i));
  read_bytes (out ++ tail) 0 encode_sz.

Definition decoding : list Z := [
  62; -1; -1; -1; 63; 52; 53; 54; 55; 56; 57; 58; 59; 60; 61; -1; -1; -1; -2; -1; -1; -1; 0;
  1; 2; 3; 4; 5; 6; 7; 8; 9; 10; 11; 12; 13; 14; 15; 16; 17; 18; 19; 20; 21; 22; 23; 24; 25;
  -1; -1; -1; -1; -1; -1; 26; 27; 28; 29; 30; 31; 32; 33; 34; 35; 36; 37; 38; 39; 40; 41;
  42; 43; 44; 45; 46; 47; 48; 49; 50; 51].

Definition b64index (c : Z) : outcome Z :=
  if bool_decide (c < 43) then Ret (-1)
  else
    let c := c - 43 in
    if bool_decide (c >= Z.of_nat (length decoding)) then Ret (-1)
    else read_at decoding c.

(** The inner loop: four characters of the alphabet, others are passed over. *)
Fixpoint b64_group (fuel : nat) (text : list Z) (i : Z) (c : list Z) (padding : Z)
  : outcome (Z * list Z * Z) :=
  if bool_decide (length c < 4)%nat then
    match fuel with
    | O => Crash OutOfFuel
    | S fuel =>
      if bool_decide (i >= Z.of_nat (length text)) then Raise "Invalid base64 text"
      else
        t ← read_at text i;
        x ← b64index t;
        if bool_decide (x = -1) then b64_group fuel text (i + 1) c padding
        else
          let padding := if bool_decide (x = -2) then padding + 1 else padding in
          b64_group fuel text (i + 1) (c ++ [x]) padding
    end
  else Ret (i, c, padding).

(** What a group adds to the output. *)
Definition b64_output (c : list Z) (padding : Z) : outcome (list Z) :=
  match c with
  | [c0; c1; c2; c3] =>
    if bool_decide (padding = 0) then
      let v := Z.lor (Z.lor (Z.lor (u32 (Z.shiftl c0 18)) (Z.shiftl c1 12)) (Z.shiftl c2 6)) c3 in
      Ret [u8 (Z.shiftr v 16); Z.land (Z.shiftr v 8) 0xff; Z.land v 0xff]
    else if bool_decide (padding = 1) then
      if bool_decide (c3 <> -2 \/ Z.land c2 3 <> 0) then Raise "Invalid base64 text"
      else
        let v := Z.lor (Z.lor (u32 (Z.shiftl c0 10)) (Z.shiftl c1 4)) (Z.shiftr c2 2) in
        Ret [u8 (Z.shiftr v 8); Z.land v 0xff]
    else if bool_decide (padding = 2) then
      if bool_decide (c3 <> -2 \/ c2 <> -2 \/ Z.land c1 0xf <> 0) then
        Raise "Invalid base64 text"
      else Ret [u8 (Z.lor (u32 (Z.shiftl c0 2)) (Z.shiftr c1 4))]
    else Raise "Invalid base64 text"
  | _ => Crash AssertFailed
  end.

(** The outer loop; the buffer holds [cap] bytes. *)
Fixpoint b64decode_loop (fuel : nat) (cap : Z) (text : list Z) (i : Z) (out : list Z)
  : outcome (list Z) :=
  match fuel with
  | O => Crash OutOfFuel
  | S fuel =>
    if bool_decide (i < Z.of_nat (length text)) then
      '(i, c, padding) ← b64_group (S (length text)) text i [] 0;
      o ← b64_output c padding;
      if bool_decide (Z.of_nat (length (out ++ o)) > cap) then Crash OutOfBounds
      else b64decode_loop fuel cap text i (out ++ o)
    else Ret out
  end.

Definition lb64decode (text : list Z) : outcome (list Z) :=
  let sz := Z.of_nat (length text) in
  let decode_sz := i32 ((sz + 3) / 4 * 3) in
  let cap := if bool_decide (decode_sz > SMALL_CHUNK) then decode_sz else SMALL_CHUNK in
  b64decode_loop (S (length text)) cap text 0 [].

Example b64_hello :
  lb64encode [104; 101; 108; 108; 111] = Ret [97; 71; 86; 115; 98; 71; 56; 61] /\
  lb64decode [97; 71; 10; 86; 115; 98; 71; 56; 61] = Ret [104; 101; 108; 108; 111] /\
  lb64decode [97; 71; 86; 115; 98; 71; 56; 61; 10] = Raise "Invalid base64 text".
Proof. vm_compute. done. Qed.

(** ** Hexadecimal: lemmas *)

Lemma HEX_hex d : 0 <= d < 16 -> HEX (hex !!! Z.to_nat d) = d.
Proof.
  apply (below_Forall 16 (fun d => HEX (hex !!! Z.to_nat d) = d)).
  apply (bool_decide_unpack _). vm_compute. exact I.
Qed.

(** The characters [hexdecode] takes for digits: '0' to '9', and all from 'W' to 'g'. *)
Lemma HEX_accepts c : is_byte c ->
  (HEX c <= 16 <-> 48 <= c <= 57 \/ 87 <= c <= 103).
Proof.
  revert c. apply (below_Forall 256 (fun c => HEX c <= 16 <-> 48 <= c <= 57 \/ 87 <= c <= 103)).
  apply (bool_decide_unpack _). vm_compute. exact I.
Qed.

Lemma byte_nibbles t : is_byte t ->
  Z.shiftr t 4 = t / 16 /\ Z.land t 0xf = t mod 16 /\
  u8 (Z.lor (Z.shiftl (t / 16) 4) (t mod 16)) = t.
Proof.
  unfold is_byte. intros Ht. split; [by rewrite Z.shiftr_div_pow2 by lia|].
  split; [exact (Z.land_ones t 4 ltac:(lia))|].
  rewrite Z.lor_comm, lor_shiftl_add by dlia. unfold u8. dlia.
Qed.

Lemma ltohex_cons t text : ltohex (t :: text) =
  [hex !!! Z.to_nat (Z.shiftr t 4); hex !!! Z.to_nat (Z.land t 0xf)] ++ ltohex text.
Proof. done. Qed.

Lemma length_ltohex text : length (ltohex text) = (2 * length text)%nat.
Proof.
  induction text as [|t text IH]; [done|]. rewrite ltohex_cons, length_app, IH. simpl. lia.
Qed.

Lemma fromhex_tohex text : forall fuel pre i buffer, Bytes text -> (length text < fuel)%nat ->
  i = Z.of_nat (length pre) ->
  fromhex_loop fuel (pre ++ ltohex text) i buffer = Ret (buffer ++ text).
Proof.
  induction text as [|t text IH]; intros fuel pre i buffer HB Hf ->;
    (destruct fuel as [|fuel]; [simpl in Hf; lia|]); cbn [fromhex_loop].
  - rewrite bool_decide_false by size_lia. by rewrite app_nil_r.
  - apply Forall_cons in HB as [Ht HB]. rewrite ltohex_cons.
    destruct (byte_nibbles t Ht) as (Hh & Hl & Hv). rewrite Hh, Hl.
    rewrite bool_decide_true by size_lia.
    rewrite <- !app_assoc. rewrite (read_at_app_r pre _ (Z.of_nat (length pre)) 0) by lia.
    rewrite (read_at_app_r pre _ _ 1) by lia.
    set (h := hex !!! Z.to_nat (t / 16)). set (l := hex !!! Z.to_nat (t mod 16)).
    cbn [app]. change (read_at (h :: ?r) 0) with (Ret h).
    change (read_at (h :: l :: ?r) 1) with (Ret l). cbn [mbind outcome_bind].
    unfold is_byte in Ht.
    replace (HEX h) with (t / 16) by (symmetry; apply HEX_hex; dlia).
    replace (HEX l) with (t mod 16) by (symmetry; apply HEX_hex; dlia).
    rewrite bool_decide_false by dlia. rewrite Hv.
    change (h :: l :: ltohex text) with ([h; l] ++ ltohex text). rewrite app_assoc.
    rewrite IH; [by rewrite <- app_assoc|done|simpl in Hf; lia|rewrite length_app; simpl; lia].
Qed.

(** [hexdecode] gives back what [hexencode] took only when that has an even
    number of bytes; the two digits per byte of an odd number are refused, since the
    size test looks at bit 1 of the size instead of bit 0. *)
Theorem hex_roundtrip_even_only text : Bytes text ->
  lfromhex (ltohex text) =
    if Nat.even (length text) then Ret text else Raise "Invalid hex text size".
Proof.
  intros HB. unfold lfromhex. rewrite length_ltohex.
  assert (Hb : Z.land (Z.of_nat (2 * length text)) 2 = 2 * (Z.of_nat (length text) mod 2)).
  { replace (Z.of_nat (2 * length text)) with (2 * Z.of_nat (length text)) by lia.
    generalize (Z.of_nat (length text)) as n. intros n. apply Z.bits_inj'. intros i Hi.
    rewrite Z.land_spec. destruct (decide (i = 1)) as [->|].
    - change 1 with (Z.succ 0). rewrite !Z.double_bits_succ, !Z.bit0_odd.
      change (Z.testbit 2 (Z.succ 0)) with true. rewrite andb_true_r.
      rewrite <- !Z.bit0_odd. rewrite <- (Z.mod_pow2_bits_low n 1 0) by lia. done.
    - change 2 with (2 ^ 1) at 2. rewrite Z.pow2_bits_false by lia. rewrite andb_false_r.
      symmetry. destruct (decide (i = 0)) as [->|]; [by rewrite Z.testbit_even_0|].
      apply (testbit_above _ 2); dlia. }
  rewrite Hb. destruct (Nat.even (length text)) eqn:He.
  - apply Nat.even_spec in He as [m Hm]. rewrite bool_decide_false by (rewrite Hm; dlia).
    by apply (fromhex_tohex text _ [] 0 []); [|lia|].
  - assert (Ho : Nat.odd (length text) = true) by (unfold Nat.odd; by rewrite He).
    apply Nat.odd_spec in Ho as [m Hm]. by rewrite bool_decide_true by (rewrite Hm; dlia).
Qed.

Lemma hex_roundtrip_even_only_witness :
  lfromhex (ltohex [1; 171]) = Ret [1; 171] /\
  lfromhex (ltohex [1; 171; 7]) = Raise "Invalid hex text size".
Proof.
  split; [apply (hex_roundtrip_even_only [1; 171])|apply (hex_roundtrip_even_only [1; 171; 7])];
    repeat constructor; discriminate.
Defined.

(** ** Key exchange: lemmas *)

Lemma P_u64 : P < 2 ^ 64.
Proof. done. Qed.

(** Doubling and adding below [P] without leaving 64 bits. *)
Lemma double_mod a : 0 <= a <= P ->
  (if bool_decide (a >= u64 (P - a)) then u64 (u64 (a * 2) - P) else u64 (a * 2))
    = (if bool_decide (P <= 2 * a) then 2 * a - P else 2 * a).
Proof.
  intros Ha. pose proof P_u64. rewrite (u64_small (P - a)) by (unfold is_u64; lia).
  case_bool_decide; case_bool_decide; try lia.
  - unfold u64. rewrite Zminus_mod_idemp_l. rewrite Z.mod_small by lia. lia.
  - rewrite u64_small by (unfold is_u64; lia). lia.
Qed.

Lemma add_mod_p a m : 0 <= a <= P -> 0 <= m < P ->
  (if bool_decide (m >= u64 (P - a)) then u64 (m - u64 (P - a)) else u64 (m + a))
    = (m + a) mod P.
Proof.
  intros Ha Hm. pose proof P_u64. rewrite (u64_small (P - a)) by (unfold is_u64; lia).
  case_bool_decide; rewrite u64_small by (unfold is_u64; lia).
  - rewrite (Z.mod_eq (m + a)) by lia. 
    replace ((m + a) / P) with 1; [lia|].
    apply Z.div_unique with (m + a - P); lia.
  - by rewrite Z.mod_small by lia.
Qed.

Lemma mul_mod_loop_S fuel a b m : mul_mod_loop (S fuel) a b m =
  if bool_decide (b <> 0) then
    mul_mod_loop fuel
      (if bool_decide (a >= u64 (P - a)) then u64 (u64 (a * 2) - P) else u64 (a * 2))
      (Z.shiftr b 1)
      (if bool_decide (Z.land b 1 <> 0)
       then if bool_decide (m >= u64 (P - a)) then u64 (m - u64 (P - a)) else u64 (m + a)
       else m)
  else Ret m.
Proof. done. Qed.

Lemma mul_mod_loop_eq n : forall a b m, 0 <= a <= P -> 0 <= b < 2 ^ Z.of_nat n -> 0 <= m < P ->
  mul_mod_loop (S n) a b m = Ret ((m + a * b) mod P).
Proof.
  induction n as [|n IH]; intros a b m Ha Hb Hm; rewrite mul_mod_loop_S.
  - rewrite bool_decide_false by (simpl in Hb; lia).
    replace b with 0 by (simpl in Hb; lia). by rewrite Z.mul_0_r, Z.add_0_r, Z.mod_small.
  - rewrite Nat2Z.inj_succ, Z.pow_succ_r in Hb by lia. case_bool_decide as Hz.
    2: { replace b with 0 by lia. by rewrite Z.mul_0_r, Z.add_0_r, Z.mod_small. }
    rewrite double_mod, add_mod_p by done.
    rewrite Z.shiftr_div_pow2 by lia. change (2 ^ 1) with 2.
    assert (Hl : Z.land b 1 = b mod 2) by exact (Z.land_ones b 1 ltac:(lia)). rewrite Hl.
    rewrite IH; [|case_bool_decide; lia|dlia|case_bool_decide; [apply Z.mod_pos_bound|]; lia].
    f_equal. pose proof (Z.div_mod b 2 ltac:(lia)) as Hd.
    pose proof (Z.mod_pos_bound b 2 ltac:(lia)).
    assert (Ha2 : forall x, (x + (if bool_decide (P <= 2 * a) then 2 * a - P else 2 * a) * (b / 2))
        mod P = (x + 2 * a * (b / 2)) mod P).
    { intros x. case_bool_decide; [|done].
      replace (x + (2 * a - P) * (b / 2)) with (x + 2 * a * (b / 2) + (- (b / 2)) * P) by lia.
      by rewrite Z.mod_add. }
    rewrite Ha2. clear Ha2. destruct (bool_decide_reflect (b mod 2 <> 0)).
    + rewrite Z.add_mod_idemp_l by done. f_equal. replace (b mod 2) with 1 in Hd by lia. lia.
    + f_equal. replace (b mod 2) with 0 in Hd by lia. lia.
Qed.

Lemma mul_mod_p_eq a b : 0 <= a <= P -> is_u64 b -> mul_mod_p a b = Ret ((a * b) mod P).
Proof.
  intros Ha [Hb Hb']. unfold mul_mod_p.
  rewrite (mul_mod_loop_eq 64) by (try done; change (2 ^ Z.of_nat 64) with (2 ^ 64); lia).
  by rewrite Z.add_0_l.
Qed.

#[local] Opaque mul_mod_p.

(** Squaring, and a factor [a] for an odd exponent. *)
Lemma pow_halves a b : 0 <= b -> a ^ b = a ^ (b / 2) * a ^ (b / 2) * (if Z.odd b then a else 1).
Proof.
  intros Hb. rewrite <- Z.pow_add_r by dlia. pose proof (Zmod_odd b) as Ho.
  destruct (Z.odd b).
  - rewrite <- (Z.pow_1_r a) at 3. rewrite <- Z.pow_add_r by dlia. f_equal. dlia.
  - rewrite Z.mul_1_r. f_equal. dlia.
Qed.

Lemma square_step t a b : 0 <= t <= P -> 0 <= a <= P -> 0 <= b ->
  t mod P = a ^ (b / 2) mod P ->
  (t ← mul_mod_p t t; if bool_decide (b mod 2 <> 0) then mul_mod_p t a else Ret t)
  = Ret (a ^ b mod P).
Proof.
  intros Ht Ha Hb Heq. pose proof P_u64 as HP.
  assert (HP0 : 0 < P) by done.
  assert (Hsq : (t * t) mod P = (a ^ (b / 2) * a ^ (b / 2)) mod P)
    by (rewrite Z.mul_mod, Heq, <- Z.mul_mod by lia; reflexivity).
  rewrite mul_mod_p_eq by (unfold is_u64; lia). cbn [mbind outcome_bind].
  pose proof (Z.mod_pos_bound (t * t) P HP0). rewrite (pow_halves a b) by done.
  rewrite Zmod_odd. destruct (Z.odd b).
  - rewrite bool_decide_true by lia. rewrite mul_mod_p_eq by (unfold is_u64; lia).
    f_equal. rewrite Hsq. apply Z.mul_mod_idemp_l. lia.
  - rewrite bool_decide_false by lia. f_equal. rewrite Z.mul_1_r. exact Hsq.
Qed.

Lemma pow_mod_p_eq n : forall a b, 0 <= a <= P -> 1 <= b < 2 ^ Z.of_nat n ->
  pow_mod_p n a b = Ret (if bool_decide (b = 1) then a else a ^ b mod P).
Proof.
  assert (HP0 : 0 < P) by done.
  induction n as [|n IH]; intros a b Ha Hb; [simpl in Hb; lia|].
  rewrite Nat2Z.inj_succ, Z.pow_succ_r in Hb by lia.
  cbn [pow_mod_p]. destruct (bool_decide_reflect (b = 1)) as [H1|H1]; [reflexivity|].
  rewrite Z.shiftr_div_pow2, Z.pow_1_r by lia.
  rewrite IH by (lia || dlia). rewrite bind_Ret.
  set (t := if bool_decide (b / 2 = 1) then a else a ^ (b / 2) mod P).
  apply square_step; [|lia|lia|]; unfold t;
    destruct (bool_decide_reflect (b / 2 = 1)) as [Hh|Hh].
  - lia.
  - pose proof (Z.mod_pos_bound (a ^ (b / 2)) P HP0). lia.
  - by rewrite Hh, Z.pow_1_r.
  - apply Z.mod_mod. lia.
Qed.

(** [powmodp] is exponentiation modulo [P]; only [P ^ 1] is left unreduced. *)
Lemma powmodp_eq a b : is_u64 a -> 1 <= b < 2 ^ 64 ->
  powmodp 64 a b = Ret (if bool_decide (b = 1 /\ a = P) then P else a ^ b mod P).
Proof.
  intros [Ha Ha'] Hb. unfold powmodp. case_bool_decide as Hgt.
  - pose proof (Z.mod_pos_bound a P ltac:(done)).
    rewrite (pow_mod_p_eq 64) by (change (Z.of_nat 64) with 64; lia).
    f_equal. rewrite (bool_decide_false (b = 1 /\ a = P)) by lia.
    case_bool_decide as H1; [by rewrite H1, Z.pow_1_r|].
    symmetry. apply Zpower_mod. done.
  - rewrite (pow_mod_p_eq 64) by (change (Z.of_nat 64) with 64; lia).
    f_equal. case_bool_decide as H1.
    + subst b. case_bool_decide; [lia|]. rewrite Z.pow_1_r, Z.mod_small by lia. done.
    + by rewrite bool_decide_false by lia.
Qed.

(** The exponent 0 exhausts every fuel. *)
Lemma pow_mod_p_zero fuel a : pow_mod_p fuel a 0 = Crash OutOfFuel.
Proof.
  induction fuel as [|fuel IH]; [done|]. cbn [pow_mod_p]. rewrite bool_decide_false by done.
  change (Z.shiftr 0 1) with 0. by rewrite IH.
Qed.

Lemma join_le_value x : length x = 8%nat -> Bytes x ->
  join64 (word_at x 0, word_at x 4) = le_value x.
Proof.
  intros Hl HB. destruct x as [|a [|b [|c [|d [|e [|f [|g [|h [|? ?]]]]]]]]]; try discriminate Hl.
  rewrite !Forall_cons in HB. unfold is_byte in HB.
  unfold join64, word_at. cbn [fst snd]. cbn [Nat.add].
  change ([a; b; c; d; e; f; g; h] !!! 0%nat) with a.
  change ([a; b; c; d; e; f; g; h] !!! 1%nat) with b.
  change ([a; b; c; d; e; f; g; h] !!! 2%nat) with c.
  change ([a; b; c; d; e; f; g; h] !!! 3%nat) with d.
  change ([a; b; c; d; e; f; g; h] !!! 4%nat) with e.
  change ([a; b; c; d; e; f; g; h] !!! 5%nat) with f.
  change ([a; b; c; d; e; f; g; h] !!! 6%nat) with g.
  change ([a; b; c; d; e; f; g; h] !!! 7%nat) with h.
  rewrite (lor_shiftl_add a b 8) by lia. rewrite (lor_shiftl_add _ c 16) by lia.
  rewrite (lor_shiftl_add _ d 24) by lia.
  rewrite (lor_shiftl_add e f 8) by lia. rewrite (lor_shiftl_add _ g 16) by lia.
  rewrite (lor_shiftl_add _ h 24) by lia. rewrite lor_shiftl_add by lia.
  cbn [le_value]. lia.
Qed.

Lemma push64_le_bytes r : push64 r = le_bytes 8 r.
Proof.
  unfold push64. rewrite !land_255, !Z.shiftr_div_pow2 by lia. cbn [le_bytes].
  rewrite !Z.div_div by lia. done.
Qed.

Lemma push64_value r : is_u64 r -> length (push64 r) = 8%nat /\ Bytes (push64 r) /\
  le_value (push64 r) = r.
Proof.
  intros [H1 H2]. rewrite push64_le_bytes. split; [by rewrite length_le_bytes|].
  split; [apply le_bytes_Bytes|]. apply le_value_le_bytes_small.
  change (256 ^ Z.of_nat 8) with (2 ^ 64). lia.
Qed.

Lemma le_value_u64 x : length x = 8%nat -> Bytes x -> is_u64 (le_value x).
Proof.
  intros Hl HB. pose proof (le_value_range x HB) as Hr. rewrite Hl in Hr.
  change (256 ^ Z.of_nat 8) with (2 ^ 64) in Hr. exact Hr.
Qed.

Lemma le_value_zero x : Bytes x -> le_value x = 0 -> x = replicate (length x) 0.
Proof.
  induction 1 as [|b x Hb HB IH]; [done|]. cbn [le_value length replicate]. intros Hz.
  pose proof (le_value_range x HB). unfold is_byte in Hb.
  rewrite <- IH by lia. f_equal. lia.
Qed.

Definition is_key (x : list Z) : Prop := length x = 8%nat /\ Bytes x.

(** The functions on keys, as arithmetic. *)
Lemma ldhexchange_eq fuel x : is_key x ->
  ldhexchange fuel x = r ← powmodp fuel 5 (le_value x); Ret (push64 r).
Proof.
  intros [Hl HB]. unfold ldhexchange. rewrite Hl, bool_decide_false by lia.
  by rewrite join_le_value.
Qed.

Lemma ldhsecret_eq fuel x y : is_key x -> is_key y ->
  ldhsecret fuel x y = r ← powmodp fuel (le_value x) (le_value y); Ret (push64 r).
Proof.
  intros [Hl HB] [Hl' HB']. unfold ldhsecret, read64. rewrite Hl, Hl'.
  rewrite !bool_decide_false by lia. rewrite bind_Ret. by rewrite !join_le_value.
Qed.

(** The secret of the two keys. *)
Lemma dhsecret_value a b : is_key a -> is_key b ->
  1 <= le_value a -> 1 <= le_value b ->
  exists A, ldhexchange 64 a = Ret A /\
    ldhsecret 64 A b = Ret (push64 (5 ^ (le_value a * le_value b) mod P)).
Proof.
  intros Ha Hb Ha1 Hb1. destruct (le_value_u64 a) as [_ Ha2]; [apply Ha..|].
  destruct (le_value_u64 b) as [_ Hb2]; [apply Hb..|].
  rewrite ldhexchange_eq by done. set (x := le_value a) in *. set (y := le_value b) in *.
  rewrite powmodp_eq by (unfold is_u64; lia).
  rewrite bool_decide_false by (unfold P; lia). rewrite bind_Ret.
  assert (HP0 : 0 < P) by done. pose proof P_u64 as HP.
  pose proof (Z.mod_pos_bound (5 ^ x) P HP0) as Hr.
  exists (push64 (5 ^ x mod P)). split; [reflexivity|].
  destruct (push64_value (5 ^ x mod P)) as (Hk1 & Hk2 & Hk3); [unfold is_u64; lia|].
  rewrite ldhsecret_eq; [|by split|done]. rewrite Hk3. fold y.
  rewrite powmodp_eq by (unfold is_u64; lia).
  rewrite bool_decide_false by lia. rewrite bind_Ret. f_equal. f_equal.
  rewrite <- Zpower_mod by lia. rewrite <- Z.pow_mul_r by lia. reflexivity.
Qed.

(** Two parties that exchange the numbers [dhexchange] makes of their keys compute
    the same secret with [dhsecret], which is [5 ^ (a b)] modulo the prime. *)
Theorem dh_agreement a b :
  is_key a -> is_key b -> 1 <= le_value a -> 1 <= le_value b ->
  exists A B, ldhexchange 64 a = Ret A /\ ldhexchange 64 b = Ret B /\
    ldhsecret 64 A b = ldhsecret 64 B a /\
    ldhsecret 64 A b = Ret (push64 (5 ^ (le_value a * le_value b) mod P)).
Proof.
  intros Ha Hb Ha1 Hb1.
  destruct (dhsecret_value a b Ha Hb Ha1 Hb1) as (A & HA & HsA).
  destruct (dhsecret_value b a Hb Ha Hb1 Ha1) as (B & HB & HsB).
  exists A, B. rewrite HsA, HsB, (Z.mul_comm (le_value b)). done.
Qed.

Lemma dh_agreement_witness :
  let a := [1; 2; 3; 4; 5; 6; 7; 8] in let b := [255; 254; 0; 0; 1; 0; 0; 200] in
  exists A B, ldhexchange 64 a = Ret A /\ ldhexchange 64 b = Ret B /\
    ldhsecret 64 A b = ldhsecret 64 B a /\
    ldhsecret 64 A b = Ret (push64 (5 ^ (le_value a * le_value b) mod P)).
Proof.
  apply dh_agreement; [split; [reflexivity|repeat constructor; discriminate]..
                      |discriminate|discriminate].
Defined.

(** [dhexchange] returns for every key but the zero key, within a recursion of
    64 levels; for the zero key the recursion of [pow_mod_p] has no end. *)
Theorem dhexchange_terminates_iff x : is_key x ->
  ((exists r, ldhexchange 64 x = Ret r) <-> x <> replicate 8 0) /\
  forall fuel, ldhexchange fuel (replicate 8 0) = Crash OutOfFuel.
Proof.
  intros Hx. pose proof Hx as [Hl HB]. destruct (le_value_u64 x Hl HB) as [H1 H2].
  assert (Hzero : forall fuel, ldhexchange fuel (replicate 8 0) = Crash OutOfFuel).
  { intros fuel. rewrite ldhexchange_eq by (split; [reflexivity|repeat constructor; discriminate]).
    unfold powmodp. rewrite bool_decide_false by (unfold P; lia).
    change (le_value (replicate 8 0)) with 0. by rewrite pow_mod_p_zero. }
  split; [|exact Hzero]. split.
  - intros [r Hr] ->. by rewrite Hzero in Hr.
  - intros Hne. rewrite ldhexchange_eq by done.
    assert (le_value x <> 0).
    { intros Hz. apply Hne. apply le_value_zero in Hz; [|done]. by rewrite Hl in Hz. }
    rewrite powmodp_eq by (unfold is_u64; lia). rewrite bind_Ret. by eexists.
Qed.

Lemma dhexchange_terminates_iff_witness :
  let x := [5; 0; 0; 0; 0; 0; 0; 0] in
  ((exists r, ldhexchange 64 x = Ret r) <-> x <> replicate 8 0) /\
  forall fuel, ldhexchange fuel (replicate 8 0) = Crash OutOfFuel.
Proof.
  apply dhexchange_terminates_iff. split; [reflexivity|repeat constructor; discriminate].
Defined.

(** ** Base 64: lemmas *)

Definition char64 (d : Z) : Z := encoding !!! Z.to_nat d.

Lemma read_encoding d : 0 <= d < 64 -> read_at encoding d = Ret (char64 d).
Proof.
  apply (below_Forall 64 (fun d => read_at encoding d = Ret (char64 d))).
  unfold seq. repeat (apply Forall_cons_2; [reflexivity|]). apply Forall_nil_2.
Qed.

Lemma b64index_char d : 0 <= d < 64 -> b64index (char64 d) = Ret d.
Proof.
  apply (below_Forall 64 (fun d => b64index (char64 d) = Ret d)).
  unfold seq. repeat (apply Forall_cons_2; [reflexivity|]). apply Forall_nil_2.
Qed.

Lemma lor3_rev a b c : Z.lor (Z.lor a b) c = Z.lor (Z.lor c b) a.
Proof. by rewrite Z.lor_comm, (Z.lor_comm a b), Z.lor_assoc. Qed.

Lemma lor4_rev a b c d : Z.lor (Z.lor (Z.lor a b) c) d = Z.lor (Z.lor (Z.lor d c) b) a.
Proof.
  apply Z.bits_inj'. intros i _. rewrite !Z.lor_spec.
  by destruct (Z.testbit a i), (Z.testbit b i), (Z.testbit c i), (Z.testbit d i).
Qed.

Lemma land_63 n : Z.land n 0x3f = n mod 64.
Proof. exact (Z.land_ones n 6 ltac:(lia)). Qed.

(** A group of three bytes as a number, and its four digits. *)
Definition value3 (t0 t1 t2 : Z) : Z := t2 + t1 * 2 ^ 8 + t0 * 2 ^ 16.

Definition digits4 (v : Z) : list Z := [v / 2 ^ 18; v / 2 ^ 12 mod 64; v / 2 ^ 6 mod 64; v mod 64].

Lemma digits4_range v : 0 <= v < 2 ^ 24 -> Forall (fun d => 0 <= d < 64) (digits4 v).
Proof. intros Hv. unfold digits4. repeat constructor; dlia. Qed.

Definition enc3 (t : Z * Z * Z) : list Z :=
  let '(t0, t1, t2) := t in char64 <$> digits4 (value3 t0 t1 t2).

Definition bytes3 (t : Z * Z * Z) : list Z := let '(t0, t1, t2) := t in [t0; t1; t2].

Lemma value3_lor t0 t1 t2 : Bytes [t0; t1; t2] ->
  Z.lor (Z.lor (Z.shiftl t0 16) (Z.shiftl t1 8)) t2 = value3 t0 t1 t2 /\
  0 <= value3 t0 t1 t2 < 2 ^ 24.
Proof.
  rewrite !Forall_cons. unfold is_byte, value3. intros (H0 & H1 & H2 & _).
  rewrite lor3_rev, (lor_shiftl_add t2 t1 8), lor_shiftl_add by lia. lia.
Qed.

(** The loop over whole groups. *)
Lemma b64encode_loop_eq gs : forall fuel pre rest i out,
  Forall (fun t => Bytes (bytes3 t)) gs -> (length rest < 3)%nat -> (length gs < fuel)%nat ->
  i = Z.of_nat (length pre) ->
  Z.of_nat (length (pre ++ concat (bytes3 <$> gs) ++ rest)) < 2 ^ 31 ->
  b64encode_loop fuel (pre ++ concat (bytes3 <$> gs) ++ rest) i out
  = Ret (Z.of_nat (length (pre ++ concat (bytes3 <$> gs))), out ++ concat (enc3 <$> gs)).
Proof.
  induction gs as [|[[t0 t1] t2] gs IH]; intros fuel pre rest i out Hgs Hr Hf -> Hlt;
    (destruct fuel as [|fuel]; [simpl in Hf; lia|]); cbn [b64encode_loop];
    rewrite i32_small by (unfold is_i32; lia).
  - rewrite bool_decide_false by size_lia.
    cbn [concat fmap list_fmap]. by rewrite !app_nil_r.
  - apply Forall_cons in Hgs as [Hb Hgs]. cbn [bytes3] in Hb.
    rewrite bool_decide_true by size_lia.
    destruct (value3_lor _ _ _ Hb) as [Hv Hr3].
    set (l := concat (bytes3 <$> (t0, t1, t2) :: gs) ++ rest) in *.
    rewrite (read_at_app_r pre l (Z.of_nat (length pre)) 0),
      (read_at_app_r pre l (Z.of_nat (length pre) + 1) 1),
      (read_at_app_r pre l (Z.of_nat (length pre) + 2) 2) by lia.
    change (read_at l 0) with (Ret t0). change (read_at l 1) with (Ret t1).
    change (read_at l 2) with (Ret t2). rewrite !bind_Ret, Hv.
    rewrite !land_63, !Z.shiftr_div_pow2 by lia.
    rewrite !read_encoding by dlia. rewrite !bind_Ret. unfold l. cbn [fmap list_fmap concat].
    rewrite <- (app_assoc (bytes3 _)), (app_assoc pre).
    rewrite IH; [|done|done|simpl in Hf; lia|rewrite length_app; simpl; lia|].
    + rewrite <- !app_assoc. done.
    + unfold l in Hlt. cbn [fmap list_fmap concat] in Hlt.
      by rewrite <- (app_assoc (bytes3 _)), (app_assoc pre) in Hlt.
Qed.

(** The characters of the last one or two bytes. *)
Definition enc_tail (rest : list Z) : list Z :=
  match rest with
  | [t0] => [char64 (t0 / 4); char64 (t0 mod 4 * 16); 61; 61]
  | [t0; t1] =>
    let v := t1 + t0 * 2 ^ 8 in
    [char64 (v / 2 ^ 10); char64 (v / 16 mod 64); char64 (v mod 16 * 4); 61]
  | _ => []
  end.

Lemma b64encode_tail_eq pre rest : Bytes rest -> (length rest < 3)%nat ->
  b64encode_tail (pre ++ rest) (Z.of_nat (length pre)) (Z.of_nat (length rest))
  = Ret (enc_tail rest).
Proof.
  intros HB Hl. unfold b64encode_tail.
  destruct rest as [|t0 [|t1 [|? ?]]]; [done| | |simpl in Hl; lia].
  - apply Forall_cons in HB as [H0 _]. unfold is_byte in H0.
    rewrite bool_decide_true by done. rewrite (read_at_app_r pre _ _ 0) by lia.
    change (read_at [t0] 0) with (Ret t0). rewrite bind_Ret.
    assert (Hl3 : Z.land t0 3 = t0 mod 4) by exact (Z.land_ones t0 2 ltac:(lia)).
    rewrite Hl3, Z.shiftr_div_pow2, Z.shiftl_mul_pow2 by lia.
    rewrite !read_encoding by dlia. done.
  - rewrite !Forall_cons in HB. destruct HB as (H0 & H1 & _). unfold is_byte in *.
    rewrite bool_decide_false, bool_decide_true by done.
    rewrite (read_at_app_r pre _ (Z.of_nat (length pre)) 0),
      (read_at_app_r pre _ (Z.of_nat (length pre) + 1) 1) by lia.
    change (read_at [t0; t1] 0) with (Ret t0). change (read_at [t0; t1] 1) with (Ret t1).
    rewrite !bind_Ret. rewrite Z.lor_comm, lor_shiftl_add by lia.
    set (v := t1 + t0 * 2 ^ 8). assert (0 <= v < 2 ^ 16) by (unfold v; lia).
    assert (Hl15 : Z.land v 0xf = v mod 16) by exact (Z.land_ones v 4 ltac:(lia)).
    rewrite Hl15, land_63, !Z.shiftr_div_pow2, Z.shiftl_mul_pow2 by lia.
    rewrite !read_encoding by dlia. done.
Qed.

Lemma b64_group_step fuel text i c p t x : (length c < 4)%nat ->
  read_at text i = Ret t -> b64index t = Ret x -> x <> -1 ->
  b64_group (S fuel) text i c p
  = b64_group fuel text (i + 1) (c ++ [x]) (if bool_decide (x = -2) then p + 1 else p).
Proof.
  intros Hc Ht Hx Hne. cbn [b64_group]. rewrite bool_decide_true by done.
  pose proof (read_at_lt _ _ _ Ht). rewrite bool_decide_false by lia.
  rewrite Ht, bind_Ret, Hx, bind_Ret. by rewrite bool_decide_false.
Qed.

Definition pads (xs : list Z) : Z :=
  fold_left (fun p x => if bool_decide (x = -2) then p + 1 else p) xs 0.

Lemma b64_group_four fuel pre post i t0 t1 t2 t3 x0 x1 x2 x3 : (4 <= fuel)%nat ->
  i = Z.of_nat (length pre) ->
  Forall2 (fun t x => b64index t = Ret x /\ x <> -1) [t0; t1; t2; t3] [x0; x1; x2; x3] ->
  b64_group fuel (pre ++ [t0; t1; t2; t3] ++ post) i [] 0
  = Ret (i + 4, [x0; x1; x2; x3], pads [x0; x1; x2; x3]).
Proof.
  intros Hf -> HF. rewrite !Forall2_cons in HF.
  destruct HF as ([H0 N0] & [H1 N1] & [H2 N2] & [H3 N3] & _).
  destruct fuel as [|[|[|[|fuel]]]]; try lia.
  set (text := pre ++ [t0; t1; t2; t3] ++ post).
  assert (Hread : forall j t, [t0; t1; t2; t3] !! j = Some t ->
    read_at text (Z.of_nat (length pre) + Z.of_nat j) = Ret t).
  { intros j t Hj. unfold text. rewrite (read_at_app_r pre _ _ (Z.of_nat j)) by lia.
    apply read_at_Some. by apply lookup_app_l_Some. }
  rewrite (b64_group_step _ _ _ [] 0 t0 x0); [|simpl; lia| |done|done].
  2: { rewrite <- (Hread 0%nat t0) by done. f_equal. lia. }
  rewrite (b64_group_step _ _ _ _ _ t1 x1); [|simpl; lia|by apply (Hread 1%nat)|done|done].
  rewrite (b64_group_step _ _ _ _ _ t2 x2); [|simpl; lia| |done|done].
  2: { rewrite <- (Hread 2%nat t2) by done. f_equal. lia. }
  rewrite (b64_group_step _ _ _ _ _ t3 x3); [|simpl; lia| |done|done].
  2: { rewrite <- (Hread 3%nat t3) by done. f_equal. lia. }
  cbn [app]. set (i' := Z.of_nat (length pre) + 1 + 1 + 1 + 1).
  replace i' with (Z.of_nat (length pre) + 4) by (unfold i'; lia).
  destruct fuel; reflexivity.
Qed.

Lemma pads_chars c0 c1 c2 c3 : Forall (fun d => 0 <= d < 64) [c0; c1; c2; c3] ->
  pads [c0; c1; c2; c3] = 0.
Proof.
  rewrite !Forall_cons. intros (? & ? & ? & ? & _). unfold pads. cbn [fold_left].
  by rewrite !bool_decide_false by lia.
Qed.

Lemma chars_index c0 c1 c2 c3 : Forall (fun d => 0 <= d < 64) [c0; c1; c2; c3] ->
  Forall2 (fun t x => b64index t = Ret x /\ x <> -1) (char64 <$> [c0; c1; c2; c3])
    [c0; c1; c2; c3].
Proof.
  rewrite !Forall_cons. intros (? & ? & ? & ? & _). cbn [fmap list_fmap].
  repeat (apply Forall2_cons_2; [split; [by apply b64index_char|lia]|]). apply Forall2_nil_2.
Qed.

(** A full group gives its three bytes back. *)
Lemma b64_output_full t0 t1 t2 : Bytes [t0; t1; t2] ->
  b64_output (digits4 (value3 t0 t1 t2)) 0 = Ret [t0; t1; t2].
Proof.
  intros Hb. destruct (value3_lor _ _ _ Hb) as [_ Hr].
  rewrite !Forall_cons in Hb. destruct Hb as (H0 & H1 & H2 & _). unfold is_byte in *.
  set (v := value3 t0 t1 t2) in *. unfold digits4, b64_output.
  rewrite bool_decide_true by done. rewrite lor4_rev.
  assert (Hd : v mod 64 + (v / 2 ^ 6 mod 64) * 2 ^ 6 + (v / 2 ^ 12 mod 64) * 2 ^ 12
    + v / 2 ^ 18 * 2 ^ 18 = v) by dlia.
  replace (u32 (Z.shiftl (v / 2 ^ 18) 18)) with (Z.shiftl (v / 2 ^ 18) 18).
  2: { symmetry. apply u32_small. unfold is_u32. rewrite Z.shiftl_mul_pow2 by lia. dlia. }
  rewrite (lor_shiftl_add _ _ 6) by dlia. rewrite (lor_shiftl_add _ _ 12) by dlia.
  rewrite (lor_shiftl_add _ _ 18) by dlia. rewrite Hd.
  rewrite !land_255, !Z.shiftr_div_pow2 by lia. unfold u8, v, value3.
  f_equal. repeat f_equal; dlia.
Qed.

(** The last group gives its one or two bytes back. *)
Lemma b64_output_tail1 t0 : is_byte t0 ->
  b64_output [t0 / 4; t0 mod 4 * 16; -2; -2] 2 = Ret [t0].
Proof.
  unfold is_byte. intros H0. unfold b64_output.
  rewrite !bool_decide_false by done. rewrite bool_decide_true by done.
  assert (Hl15 : Z.land (t0 mod 4 * 16) 0xf = (t0 mod 4 * 16) mod 16)
    by exact (Z.land_ones (t0 mod 4 * 16) 4 ltac:(lia)).
  rewrite Hl15, Z.mod_mul by lia. rewrite bool_decide_false by lia.
  replace (u32 (Z.shiftl (t0 / 4) 2)) with (Z.shiftl (t0 / 4) 2).
  2: { symmetry. apply u32_small. unfold is_u32. rewrite Z.shiftl_mul_pow2 by lia. dlia. }
  rewrite Z.lor_comm, Z.shiftr_div_pow2, lor_shiftl_add by dlia. unfold u8.
  do 2 f_equal. dlia.
Qed.

Lemma b64_output_tail2 t0 t1 : Bytes [t0; t1] ->
  let v := t1 + t0 * 2 ^ 8 in
  b64_output [v / 2 ^ 10; v / 16 mod 64; v mod 16 * 4; -2] 1 = Ret [t0; t1].
Proof.
  intros HB v. rewrite !Forall_cons in HB. destruct HB as (H0 & H1 & _). unfold is_byte in *.
  assert (Hv : 0 <= v < 2 ^ 16) by (unfold v; lia). unfold b64_output.
  rewrite !bool_decide_false by done. rewrite bool_decide_true by done.
  assert (Hl3 : Z.land (v mod 16 * 4) 3 = (v mod 16 * 4) mod 4)
    by exact (Z.land_ones (v mod 16 * 4) 2 ltac:(lia)).
  rewrite Hl3, Z.mod_mul by lia. rewrite bool_decide_false by lia.
  replace (u32 (Z.shiftl (v / 2 ^ 10) 10)) with (Z.shiftl (v / 2 ^ 10) 10).
  2: { symmetry. apply u32_small. unfold is_u32. rewrite Z.shiftl_mul_pow2 by lia. dlia. }
  rewrite lor3_rev, (Z.shiftr_div_pow2 _ 2) by lia. change (2 ^ 2) with 4. rewrite Z.div_mul by lia.
  rewrite (lor_shiftl_add _ _ 4) by dlia. rewrite (lor_shiftl_add _ _ 10) by dlia.
  replace (v mod 16 + v / 16 mod 64 * 2 ^ 4 + v / 2 ^ 10 * 2 ^ 10) with v by dlia.
  rewrite land_255, Z.shiftr_div_pow2 by lia. unfold u8, v. f_equal. repeat f_equal; dlia.
Qed.

Lemma length_bytes3 gs : length (concat (bytes3 <$> gs)) = (3 * length gs)%nat.
Proof.
  induction gs as [|[[? ?] ?] gs IH]; [done|]. cbn [fmap list_fmap concat].
  rewrite length_app, IH. cbn [bytes3 length]. lia.
Qed.

Lemma length_enc3 gs : length (concat (enc3 <$> gs)) = (4 * length gs)%nat.
Proof.
  induction gs as [|[[? ?] ?] gs IH]; [done|]. cbn [fmap list_fmap concat].
  rewrite length_app, IH. cbn [enc3 digits4 fmap list_fmap length]. lia.
Qed.

Lemma split3 l : Bytes l ->
  exists gs rest, l = concat (bytes3 <$> gs) ++ rest /\
    Forall (fun t => Bytes (bytes3 t)) gs /\ Bytes rest /\ (length rest < 3)%nat.
Proof.
  remember (length l) as n eqn:Hn. revert l Hn.
  induction n as [n IH] using lt_wf_ind. intros l -> HB.
  destruct l as [|a [|b [|c l]]]; [exists [], []|exists [], [a]|exists [], [a; b]|];
    [(split; [done|split; [constructor|split; [done|cbn; lia]]])..|].
  rewrite !Forall_cons in HB. destruct HB as (Ha & Hb & Hc & HB).
  destruct (IH (length l) ltac:(simpl; lia) l eq_refl HB) as (gs & rest & -> & Hgs & Hr).
  exists ((a, b, c) :: gs), rest. split; [done|]. split; [|done].
  constructor; [|done]. cbn [bytes3].
  repeat (apply Forall_cons_2; [done|]). apply Forall_nil_2.
Qed.

Lemma b64decode_loop_S fuel cap text i out : i < Z.of_nat (length text) ->
  b64decode_loop (S fuel) cap text i out =
    '(i, c, padding) ← b64_group (S (length text)) text i [] 0;
    o ← b64_output c padding;
    if bool_decide (Z.of_nat (length (out ++ o)) > cap) then Crash OutOfBounds
    else b64decode_loop fuel cap text i (out ++ o).
Proof. intros Hi. cbn [b64decode_loop]. by rewrite bool_decide_true. Qed.

Lemma b64decode_groups gs : forall fuel cap pre tail i out,
  Forall (fun t => Bytes (bytes3 t)) gs -> i = Z.of_nat (length pre) ->
  Z.of_nat (length out + 3 * length gs) <= cap ->
  b64decode_loop (length gs + fuel) cap (pre ++ concat (enc3 <$> gs) ++ tail) i out
  = b64decode_loop fuel cap (pre ++ concat (enc3 <$> gs) ++ tail)
      (i + Z.of_nat (4 * length gs)) (out ++ concat (bytes3 <$> gs)).
Proof.
  induction gs as [|[[t0 t1] t2] gs IH]; intros fuel cap pre tail i out Hgs -> Hcap.
  { cbn [fmap list_fmap concat app length]. rewrite app_nil_r. f_equal. lia. }
  apply Forall_cons in Hgs as [Hb Hgs]. cbn [bytes3] in Hb. cbn [length] in Hcap.
  cbn [fmap list_fmap concat length Nat.add]. rewrite <- app_assoc.
  destruct (value3_lor _ _ _ Hb) as [_ Hr]. pose proof (digits4_range _ Hr) as Hdig.
  cbn [enc3]. rewrite b64decode_loop_S by size_lia.
  set (text := pre ++ _).
  assert (Hlen : (4 <= S (length text))%nat)
    by (unfold text; rewrite !length_app; cbn [digits4 fmap list_fmap length]; lia).
  assert (Hg : b64_group (S (length text)) text (Z.of_nat (length pre)) [] 0
    = Ret (Z.of_nat (length pre) + 4, digits4 (value3 t0 t1 t2), 0)).
  { rewrite <- (pads_chars _ _ _ _ Hdig) at 2.
    apply b64_group_four; [done|done|]. exact (chars_index _ _ _ _ Hdig). }
  rewrite Hg, bind_Ret, b64_output_full, bind_Ret by done.
  rewrite bool_decide_false by size_lia.
  unfold text. rewrite (app_assoc pre).
  rewrite IH; [|done|rewrite length_app; cbn [digits4 fmap list_fmap length]; lia
              |rewrite length_app; cbn [length]; lia].
  rewrite <- !app_assoc. f_equal. lia.
Qed.

(** The end of the text: one more group, or none. *)
Lemma b64decode_tail fuel cap pre rest out : Bytes rest -> (length rest < 3)%nat ->
  (2 <= fuel)%nat -> Z.of_nat (length out + length rest) <= cap ->
  b64decode_loop fuel cap (pre ++ enc_tail rest) (Z.of_nat (length pre)) out = Ret (out ++ rest).
Proof.
  intros HB Hl Hf Hcap. destruct fuel as [|[|fuel]]; [lia|lia|].
  assert (Hend : forall out, b64decode_loop (S fuel) cap (pre ++ enc_tail rest)
    (Z.of_nat (length pre + length (enc_tail rest))) out = Ret out).
  { intros. cbn [b64decode_loop]. by rewrite bool_decide_false by size_lia. }
  destruct rest as [|t0 [|t1 [|? ?]]]; [| | |simpl in Hl; lia].
  { rewrite app_nil_r. cbn [enc_tail b64decode_loop]. rewrite app_nil_r.
    by rewrite bool_decide_false by lia. }
  all: rewrite b64decode_loop_S by size_lia.
  - apply Forall_cons in HB as [H0 _]. pose proof H0 as Hb0. unfold is_byte in Hb0.
    assert (Hg : b64_group (S (length (pre ++ enc_tail [t0]))) (pre ++ enc_tail [t0])
        (Z.of_nat (length pre)) [] 0
      = Ret (Z.of_nat (length pre) + 4, [t0 / 4; t0 mod 4 * 16; -2; -2], 2)).
    { etrans; [apply (b64_group_four _ pre [] _ (char64 (t0 / 4)) (char64 (t0 mod 4 * 16)) 61 61
                       (t0 / 4) (t0 mod 4 * 16) (-2) (-2))|].
      - rewrite length_app. cbn. lia.
      - done.
      - repeat (apply Forall2_cons_2; [split; [by (apply b64index_char; dlia)|dlia]|]).
        repeat (apply Forall2_cons_2; [done|]). constructor.
      - unfold pads. cbn [fold_left]. by rewrite (bool_decide_false (t0 / 4 = -2)),
          (bool_decide_false (t0 mod 4 * 16 = -2)) by dlia. }
    rewrite Hg, bind_Ret, b64_output_tail1, bind_Ret by done.
    rewrite bool_decide_false by (rewrite length_app; cbn [length] in *; lia).
    rewrite <- Hend. f_equal. cbn [enc_tail length]. lia.
  - rewrite !Forall_cons in HB. destruct HB as (H0 & H1 & _).
    set (v := t1 + t0 * 2 ^ 8).
    assert (Hv : 0 <= v < 2 ^ 16) by (unfold v; unfold is_byte in *; lia).
    assert (Hg : b64_group (S (length (pre ++ enc_tail [t0; t1]))) (pre ++ enc_tail [t0; t1])
        (Z.of_nat (length pre)) [] 0
      = Ret (Z.of_nat (length pre) + 4, [v / 2 ^ 10; v / 16 mod 64; v mod 16 * 4; -2], 1)).
    { etrans; [apply (b64_group_four _ pre [] _ (char64 (v / 2 ^ 10)) (char64 (v / 16 mod 64)) (char64 (v mod 16 * 4)) 61
                       (v / 2 ^ 10) (v / 16 mod 64) (v mod 16 * 4) (-2))|].
      - rewrite length_app. cbn. lia.
      - done.
      - repeat (apply Forall2_cons_2; [split; [by (apply b64index_char; dlia)|dlia]|]).
        repeat (apply Forall2_cons_2; [done|]). constructor.
      - unfold pads. cbn [fold_left]. by rewrite (bool_decide_false (v / 2 ^ 10 = -2)),
          (bool_decide_false (v / 16 mod 64 = -2)),
          (bool_decide_false (v mod 16 * 4 = -2)) by dlia. }
    rewrite Hg, bind_Ret. unfold v. rewrite b64_output_tail2, bind_Ret.
    2: { by repeat (apply Forall_cons_2; [done|]). }
    rewrite bool_decide_false by (rewrite length_app; cbn [length] in *; lia).
    rewrite <- Hend. f_equal. cbn [enc_tail length]. lia.
Qed.

(** C23: [base64decode] gives back every text that [base64encode] took; the code has
    four characters for every three bytes or part of them. *)
Theorem b64_roundtrip text : Bytes text -> Z.of_nat (length text) < 2 ^ 30 ->
  exists code, lb64encode text = Ret code /\
    Z.of_nat (length code) = (Z.of_nat (length text) + 2) / 3 * 4 /\
    lb64decode code = Ret text.
Proof.
  intros HB Hlt. destruct (split3 text HB) as (gs & rest & -> & Hgs & HBr & Hr).
  set (code := concat (enc3 <$> gs) ++ enc_tail rest). exists code.
  assert (Hlen : length (concat (bytes3 <$> gs) ++ rest) = (3 * length gs + length rest)%nat)
    by (rewrite length_app, length_bytes3; lia).
  assert (Hcode : Z.of_nat (length code) =
    (Z.of_nat (length (concat (bytes3 <$> gs) ++ rest)) + 2) / 3 * 4).
  { unfold code. rewrite Hlen, length_app, length_enc3.
    destruct rest as [|? [|? [|? ?]]]; cbn [length enc_tail] in *; try lia; dlia. }
  assert (Hlt4 : Z.of_nat (length code) < 2 ^ 31) by dlia.
  split; [|split; [done|]].
  - unfold lb64encode. rewrite i32_small by (unfold is_i32; rewrite <- Hcode; lia).
    pose proof (b64encode_loop_eq gs (S (length (concat (bytes3 <$> gs) ++ rest))) [] rest 0 [])
      as He. cbn [app] in He.
    rewrite He by (try done; lia). rewrite bind_Ret. cbn [fst snd].
    replace (i32 _) with (Z.of_nat (length rest)).
    2: { rewrite i32_small; unfold is_i32; rewrite ?length_app; lia. }
    rewrite b64encode_tail_eq by done. rewrite bind_Ret.
    rewrite <- Hcode. by apply read_bytes_all.
  - unfold lb64decode.
    set (cap := if bool_decide _ then _ else _).
    assert (Hcap : Z.of_nat (3 * length gs + length rest) <= cap).
    { rewrite Hlen in Hcode. unfold cap.
      rewrite i32_small by (unfold is_i32; dlia). unfold SMALL_CHUNK.
      case_bool_decide; dlia. }
    assert (Hfuel : exists f, S (length code) = (length gs + f)%nat /\ (2 <= f)%nat \/
      gs = [] /\ rest = [] /\ code = []).
    { unfold code. rewrite length_app, length_enc3.
      destruct gs as [|g gs']; [destruct rest as [|x rest']|].
      - exists 0%nat. right. done.
      - exists (S (length (enc_tail (x :: rest')))). left. split; [done|].
        destruct rest' as [|? [|? ?]]; cbn [length enc_tail] in *; lia.
      - exists (S (3 * length (g :: gs') + length (enc_tail rest))). left.
        cbn [length]. lia. }
    destruct Hfuel as [f [[-> Hf]|(-> & -> & Hc)]]; [|by rewrite Hc].
    unfold code.
    pose proof (b64decode_groups gs f cap [] (enc_tail rest) 0 [] Hgs eq_refl) as Hd.
    cbn [app length] in Hd. rewrite Hd by lia. rewrite <- length_enc3, Z.add_0_l.
    rewrite b64decode_tail; [done|done|done|done|rewrite length_bytes3; lia].
Qed.

Lemma b64_roundtrip_witness :
  let text := [0; 255; 62; 63; 1] in
  exists code, lb64encode text = Ret code /\
    Z.of_nat (length code) = (Z.of_nat (length text) + 2) / 3 * 4 /\
    lb64decode code = Ret text.
Proof.
  apply b64_roundtrip; [|reflexivity]. repeat constructor; discriminate.
Defined.

(** ** Decoding of any text *)

Lemma b64index_total c : exists x, b64index c = Ret x.
Proof.
  unfold b64index. case_bool_decide; [by eexists|]. case_bool_decide; [by eexists|].
  destruct (lookup_lt_is_Some_2 decoding (Z.to_nat (c - 43))) as [x Hx]; [lia|].
  exists x. apply read_at_Z; [lia|done].
Qed.

Lemma b64_group_any fuel : forall text i c p, 0 <= i <= Z.of_nat (length text) ->
  (length c <= 4)%nat -> Z.of_nat (length text) - i < Z.of_nat fuel ->
  (exists i' c' p', b64_group fuel text i c p = Ret (i', c', p') /\ length c' = 4%nat /\
     i + 4 - Z.of_nat (length c) <= i' <= Z.of_nat (length text)) \/
  b64_group fuel text i c p = Raise "Invalid base64 text".
Proof.
  induction fuel as [|fuel IH]; intros text i c p Hi Hc Hf; [lia|]. cbn [b64_group].
  destruct (bool_decide_reflect (length c < 4)%nat) as [Hlt|Hge].
  2: { left. exists i, c, p. split; [done|]. lia. }
  destruct (bool_decide_reflect (i >= Z.of_nat (length text))) as [|Hin]; [by right|].
  destruct (lookup_lt_is_Some_2 text (Z.to_nat i)) as [t Ht]; [lia|].
  rewrite (read_at_Z text i t), bind_Ret by (done || lia).
  destruct (b64index_total t) as [x ->]. rewrite bind_Ret.
  destruct (bool_decide_reflect (x = -1)).
  - destruct (IH text (i + 1) c p) as [(i' & c' & p' & He & H4 & Hr)|He];
      [lia|lia|lia| |by right]. left. exists i', c', p'. split; [done|]. lia.
  - set (q := if bool_decide _ then _ else _).
    destruct (IH text (i + 1) (c ++ [x]) q) as [(i' & c' & p' & He & H4 & Hr)|He];
      [lia|rewrite length_app; simpl; lia|lia| |by right].
    left. exists i', c', p'. split; [done|]. rewrite length_app in Hr. simpl in Hr. lia.
Qed.

Lemma b64_output_any c p : length c = 4%nat ->
  (exists o, b64_output c p = Ret o /\ (length o <= 3)%nat) \/
  b64_output c p = Raise "Invalid base64 text".
Proof.
  intros H4. destruct c as [|c0 [|c1 [|c2 [|c3 [|? ?]]]]]; try discriminate H4.
  unfold b64_output. repeat case_bool_decide; try (by right); left; eexists;
    (split; [reflexivity|simpl; lia]).
Qed.

Lemma b64decode_loop_any fuel : forall cap text i out,
  0 <= i <= Z.of_nat (length text) -> Z.of_nat (length text) - i < Z.of_nat fuel ->
  4 * Z.of_nat (length out) <= 3 * i -> 3 * Z.of_nat (length text) <= 4 * cap ->
  (exists r, b64decode_loop fuel cap text i out = Ret r /\
     4 * Z.of_nat (length r) <= 3 * Z.of_nat (length text)) \/
  b64decode_loop fuel cap text i out = Raise "Invalid base64 text".
Proof.
  induction fuel as [|fuel IH]; intros cap text i out Hi Hf Hout Hcap; [lia|].
  destruct (decide (i < Z.of_nat (length text))) as [Hin|Hin].
  2: { cbn [b64decode_loop]. rewrite bool_decide_false by done. left. exists out. split; [done|lia]. }
  rewrite b64decode_loop_S by done.
  destruct (b64_group_any (S (length text)) text i [] 0) as [(i' & c & p & -> & H4 & Hr)| ->];
    [lia|simpl; lia|lia| |by right].
  rewrite bind_Ret. destruct (b64_output_any c p H4) as [(o & -> & Ho)| ->]; [|by right].
  rewrite bind_Ret. cbn [length] in Hr.
  rewrite bool_decide_false by size_lia.
  apply IH; [lia|lia|rewrite length_app; lia|done].
Qed.

(** [base64decode] ends for every text, with a result of at most three quarters of
    its length or with its error; it never writes behind its buffer. *)
Theorem b64decode_safe text : Z.of_nat (length text) < 2 ^ 30 ->
  (exists r, lb64decode text = Ret r /\
     4 * Z.of_nat (length r) <= 3 * Z.of_nat (length text)) \/
  lb64decode text = Raise "Invalid base64 text".
Proof.
  intros Hlt. unfold lb64decode. rewrite i32_small by (unfold is_i32; dlia).
  apply b64decode_loop_any; [lia|lia|simpl; lia|].
  unfold SMALL_CHUNK. case_bool_decide; dlia.
Qed.

Lemma b64decode_safe_witness :
  (exists r, lb64decode [97; 61; 61; 61; 61] = Ret r /\ 4 * Z.of_nat (length r) <= 15) \/
  lb64decode [97; 61; 61; 61; 61] = Raise "Invalid base64 text".
Proof. apply (b64decode_safe [97; 61; 61; 61; 61]). reflexivity. Defined.
