(* ===== verification/Sha1.v ===== *)
(** * SHA-1 and its keyed form (src/lualib-src/lsha1.c)

    The streaming hash on a context (state, bit count, buffer), with the transform
    that expands the message schedule in place, and HMAC on top of it.  The
    reference is the text of the standard: pad the message, cut it into blocks, and
    fold the compression function with its 80-word schedule over them. *)
From S2P Require Import Prelude.
From stdpp Require Import base list gmap numbers strings.
From Stdlib Require Import ZArith Lia.

Local Open Scope Z_scope.

(** ** The transform *)

(** Five words. *)
Definition words5 : Type := Z * Z * Z * Z * Z.

Definition rol (value bits : Z) : Z :=
  Z.lor (u32 (Z.shiftl value bits)) (Z.shiftr value (32 - bits)).

(** The index [i & 15]. *)
Definition ix (i : nat) : nat := Z.to_nat (Z.land (Z.of_nat i) 15).

(** [blk0] and [blk] change [block.l] and give the word back. *)
Definition blk0 (l : list Z) (i : nat) : Z * list Z :=
  let x := Z.lor (Z.land (rol (l !!! i) 24) 0xFF00FF00) (Z.land (rol (l !!! i) 8) 0x00FF00FF) in
  (x, <[i := x]> l).

Definition blk (l : list Z) (i : nat) : Z * list Z :=
  let x := rol (Z.lxor (Z.lxor (Z.lxor (l !!! ix (i + 13)) (l !!! ix (i + 8)))
                               (l !!! ix (i + 2))) (l !!! ix i)) 1 in
  (x, <[ix i := x]> l).

(** A round: [z] and [w] change; the variables then move one role on. *)
Definition round (f : Z -> Z -> Z -> Z) (K : Z) (b : Z * list Z) (s : words5) : words5 * list Z :=
  let '(v, w, x, y, z) := s in
  let z := u32 (z + (f w x y + b.1 + K + rol v 5)) in
  (z, v, rol w 30, x, y, b.2).

Definition R0 (i : nat) (s : words5) (l : list Z) :=
  round (fun w x y => Z.lxor (Z.land w (Z.lxor x y)) y) 0x5A827999 (blk0 l i) s.
Definition R1 (i : nat) (s : words5) (l : list Z) :=
  round (fun w x y => Z.lxor (Z.land w (Z.lxor x y)) y) 0x5A827999 (blk l i) s.
Definition R2 (i : nat) (s : words5) (l : list Z) :=
  round (fun w x y => Z.lxor (Z.lxor w x) y) 0x6ED9EBA1 (blk l i) s.
Definition R3 (i : nat) (s : words5) (l : list Z) :=
  round (fun w x y => Z.lor (Z.land (Z.lor w x) y) (Z.land w x)) 0x8F1BBCDC (blk l i) s.
Definition R4 (i : nat) (s : words5) (l : list Z) :=
  round (fun w x y => Z.lxor (Z.lxor w x) y) 0xCA62C1D6 (blk l i) s.

Definition sha1_round (sl : words5 * list Z) (i : nat) : words5 * list Z :=
  let '(s, l) := sl in
  if bool_decide (i < 16)%nat then R0 i s l
  else if bool_decide (i < 20)%nat then R1 i s l
  else if bool_decide (i < 40)%nat then R2 i s l
  else if bool_decide (i < 60)%nat then R3 i s l
  else R4 i s l.

(** The bytes of a block read as words of the machine, low byte first. *)
Definition load_words (buffer : list Z) : list Z :=
  (fun i => le_value (take 4 (drop (4 * i) buffer))) <$> seq 0 16.

Definition add_words (s t : words5) : words5 :=
  let '(a, b, c, d, e) := s in
  let '(a', b', c', d', e') := t in
  (u32 (a + a'), u32 (b + b'), u32 (c + c'), u32 (d + d'), u32 (e + e')).

Definition SHA1_Transform (state : words5) (buffer : list Z) : words5 :=
  let '(s, _) := fold_left sha1_round (seq 0 80) (state, load_words buffer) in
  add_words state s.

(** ** The context *)

Record SHA1_CTX := mkCtx { state : words5; count0 : Z; count1 : Z; buffer : list Z }.

(** The buffer is not set; its contents are unknown. *)
Definition sat_SHA1_Init (garbage : list Z) : SHA1_CTX :=
  mkCtx (0x67452301, 0xEFCDAB89, 0x98BADCFE, 0x10325476, 0xC3D2E1F0) 0 0 garbage.

(** The bit count: [count[0]] is a 32-bit word and [len << 3] a [size_t]. *)
Definition add_count (c0 c1 len : Z) : Z * Z :=
  let bits := u64 (Z.shiftl len 3) in
  let c0 := u32 (c0 + bits) in
  let c1 := if bool_decide (c0 < bits) then u32 (c1 + 1) else c1 in
  (c0, u32 (c1 + Z.shiftr len 29)).

(** The loop over the whole blocks of [data] from [i] on. *)
Fixpoint transform_blocks (fuel : nat) (s : words5) (data : list Z) (i : Z)
  : outcome (words5 * Z) :=
  match fuel with
  | O => Crash OutOfFuel
  | S fuel =>
    if bool_decide (i + 63 < Z.of_nat (length data)) then
      b ← read_bytes data i 64;
      transform_blocks fuel (SHA1_Transform s b) data (i + 64)
    else Ret (s, i)
  end.

Definition sat_SHA1_Update (ctx : SHA1_CTX) (data : list Z) : outcome SHA1_CTX :=
  let len := Z.of_nat (length data) in
  let j := Z.land (Z.shiftr (count0 ctx) 3) 63 in
  let '(c0, c1) := add_count (count0 ctx) (count1 ctx) len in
  if bool_decide (j + len > 63) then
    let i := 64 - j in
    d ← read_bytes data 0 i;
    buf ← write_bytes (buffer ctx) j d;
    '(s, i) ← transform_blocks (S (length data)) (SHA1_Transform (state ctx) buf) data i;
    d ← read_bytes data i (len - i);
    buf ← write_bytes buf 0 d;
    Ret (mkCtx s c0 c1 buf)
  else
    buf ← write_bytes (buffer ctx) j data;
    Ret (mkCtx (state ctx) c0 c1 buf).

(** The loop that fills with zeros up to 56 bytes. *)
Fixpoint pad_zeros (fuel : nat) (ctx : SHA1_CTX) : outcome SHA1_CTX :=
  match fuel with
  | O => Crash OutOfFuel
  | S fuel =>
    if bool_decide (Z.land (count0 ctx) 504 <> 448) then
      ctx ← sat_SHA1_Update ctx [0];
      pad_zeros fuel ctx
    else Ret ctx
  end.

Definition count_bytes (c : Z) : list Z :=
  (fun i => Z.land (Z.shiftr c ((3 - i) * 8)) 255) <$> [0; 1; 2; 3].

Definition sat_SHA1_Final (ctx : SHA1_CTX) : outcome (list Z) :=
  let finalcount := count_bytes (count1 ctx) ++ count_bytes (count0 ctx) in
  ctx ← sat_SHA1_Update ctx [0x80];
  ctx ← pad_zeros 65 ctx;
  ctx ← sat_SHA1_Update ctx finalcount;
  let '(a, b, c, d, e) := state ctx in
  Ret (concat (count_bytes <$> [a; b; c; d; e])).

Definition lsha1 (garbage text : list Z) : outcome (list Z) :=
  ctx ← sat_SHA1_Update (sat_SHA1_Init garbage) text;
  sat_SHA1_Final ctx.

(** ** The keyed hash *)

Definition BLOCKSIZE : Z := 64.

(** [xor_key]: the key as 16 words. *)
Fixpoint xor_key (n : nat) (key : list Z) (x : Z) : list Z :=
  match n with
  | O => key
  | S n => le_bytes 4 (Z.lxor (le_value (take 4 key)) x) ++ xor_key n (drop 4 key) x
  end.

Definition lhmac_sha1 (garbage key text : list Z) : outcome (list Z) :=
  let zeros := replicate 64 0 in
  rkey ←
    (if bool_decide (Z.of_nat (length key) > BLOCKSIZE) then
       digest ← lsha1 garbage key;
       write_bytes zeros 0 digest
     else write_bytes zeros 0 key);
  let rkey := xor_key 16 rkey 0x5c5c5c5c in
  ctx1 ← sat_SHA1_Update (sat_SHA1_Init garbage) rkey;
  let rkey := xor_key 16 rkey (Z.lxor 0x5c5c5c5c 0x36363636) in
  ctx2 ← sat_SHA1_Update (sat_SHA1_Init garbage) rkey;
  ctx2 ← sat_SHA1_Update ctx2 text;
  digest2 ← sat_SHA1_Final ctx2;
  ctx1 ← sat_SHA1_Update ctx1 digest2;
  sat_SHA1_Final ctx1.

(** The first test vector of the standard, "abc". *)
Example sha1_abc : lsha1 (replicate 64 0) [97; 98; 99] =
  Ret [0xA9; 0x99; 0x3E; 0x36; 0x47; 0x06; 0x81; 0x6A; 0xBA; 0x3E; 0x25; 0x71; 0x78; 0x50;
       0xC2; 0x6C; 0x9C; 0xD0; 0xD8; 0x9D].
Proof. vm_compute. reflexivity. Qed.

(** ** The reference *)

(** The functions and constants of the standard; [¬b ∧ d] is [Z.ldiff d b]. *)
Definition f_ref (t : nat) (b c d : Z) : Z :=
  if bool_decide (t < 20)%nat then Z.lor (Z.land b c) (Z.ldiff d b)
  else if bool_decide (t < 40)%nat then Z.lxor (Z.lxor b c) d
  else if bool_decide (t < 60)%nat then
    Z.lor (Z.lor (Z.land b c) (Z.land b d)) (Z.land c d)
  else Z.lxor (Z.lxor b c) d.

Definition K_ref (t : nat) : Z :=
  if bool_decide (t < 20)%nat then 0x5A827999
  else if bool_decide (t < 40)%nat then 0x6ED9EBA1
  else if bool_decide (t < 60)%nat then 0x8F1BBCDC else 0xCA62C1D6.

(** The schedule: 16 words of the block, high byte first, then 64 more. *)
Definition next_word (W : list Z) : Z :=
  let t := length W in
  rol (Z.lxor (Z.lxor (Z.lxor (W !!! (t - 3)%nat) (W !!! (t - 8)%nat)) (W !!! (t - 14)%nat))
              (W !!! (t - 16)%nat)) 1.

Fixpoint extend (n : nat) (W : list Z) : list Z :=
  match n with
  | O => W
  | S n => extend n (W ++ [next_word W])
  end.

Definition block_words (block : list Z) : list Z :=
  (fun i => be_value (take 4 (drop (4 * i) block))) <$> seq 0 16.

Definition round_ref (W : list Z) (s : words5) (t : nat) : words5 :=
  let '(a, b, c, d, e) := s in
  (u32 (rol a 5 + f_ref t b c d + e + W !!! t + K_ref t), a, rol b 30, c, d).

Definition compress (H : words5) (block : list Z) : words5 :=
  add_words H (fold_left (round_ref (extend 64 (block_words block))) (seq 0 80) H).

(** Cutting a message into blocks. *)
Fixpoint chunks (fuel : nat) (l : list Z) : list (list Z) :=
  match fuel, l with
  | O, _ | _, [] => []
  | S fuel, _ => take 64 l :: chunks fuel (drop 64 l)
  end.

Definition sha1_pad (msg : list Z) : list Z :=
  msg ++ 0x80 :: replicate ((119 - length msg mod 64) mod 64) 0
      ++ be_bytes 8 (8 * Z.of_nat (length msg)).

Definition H0 : words5 := (0x67452301, 0xEFCDAB89, 0x98BADCFE, 0x10325476, 0xC3D2E1F0).

Definition sha1_ref (msg : list Z) : list Z :=
  let p := sha1_pad msg in
  let '(a, b, c, d, e) := fold_left compress (chunks (length p) p) H0 in
  concat (be_bytes 4 <$> [a; b; c; d; e]).

(** HMAC of RFC 2104 with 64-byte blocks. *)
Definition hmac_ref (key text : list Z) : list Z :=
  let k := if bool_decide (64 < length key)%nat then sha1_ref key else key in
  let k := k ++ replicate (64 - length k) 0 in
  sha1_ref ((Z.lxor 0x5c <$> k) ++ sha1_ref ((Z.lxor 0x36 <$> k) ++ text)).

(** ** The transform is the compression function *)

Lemma ix_mod i : ix i = (i mod 16)%nat.
Proof.
  unfold ix. assert (Hl : Z.land (Z.of_nat i) 15 = Z.of_nat i mod 16)
    by exact (Z.land_ones (Z.of_nat i) 4 ltac:(lia)).
  rewrite Hl. change 16 with (Z.of_nat 16). rewrite <- Nat2Z.inj_mod. lia.
Qed.

(** The round functions, bit by bit. *)
Lemma choose_eq w x y : Z.lxor (Z.land w (Z.lxor x y)) y = Z.lor (Z.land w x) (Z.ldiff y w).
Proof.
  apply Z.bits_inj'. intros i _. rewrite Z.lxor_spec, Z.lor_spec, !Z.land_spec, Z.ldiff_spec.
  rewrite Z.lxor_spec. by destruct (Z.testbit w i), (Z.testbit x i), (Z.testbit y i).
Qed.

Lemma majority_eq w x y : Z.lor (Z.land (Z.lor w x) y) (Z.land w x)
  = Z.lor (Z.lor (Z.land w x) (Z.land w y)) (Z.land x y).
Proof.
  apply Z.bits_inj'. intros i _. rewrite !Z.lor_spec, !Z.land_spec, !Z.lor_spec.
  by destruct (Z.testbit w i), (Z.testbit x i), (Z.testbit y i).
Qed.

(** Extracting one byte in place. *)
Lemma land_byte x k : 0 <= k ->
  Z.land x (Z.shiftl 255 k) = Z.shiftl ((x / 2 ^ k) mod 256) k.
Proof.
  intros Hk. rewrite <- land_255, <- Z.shiftr_div_pow2 by done.
  apply Z.bits_inj'. intros i Hi. rewrite Z.land_spec, !Z.shiftl_spec, Z.land_spec by done.
  destruct (decide (i < k)).
  - rewrite !(Z.testbit_neg_r _ (i - k)) by lia. by rewrite !andb_false_r.
  - rewrite Z.shiftr_spec by lia. by replace (i - k + k) with i by lia.
Qed.

(** The byte swap of [blk0]. *)
Lemma swap_bytes a b c d : Bytes [a; b; c; d] ->
  let x := le_value [a; b; c; d] in
  Z.lor (Z.land (rol x 24) 0xFF00FF00) (Z.land (rol x 8) 0x00FF00FF) = be_value [a; b; c; d].
Proof.
  intros HB x. rewrite !Forall_cons in HB. unfold is_byte in HB.
  destruct HB as (Ha & Hb & Hc & Hd & _).
  assert (Hx : x = a + b * 2 ^ 8 + c * 2 ^ 16 + d * 2 ^ 24) by (unfold x; cbn [le_value]; lia).
  change 0xFF00FF00 with (Z.lor (Z.shiftl 255 8) (Z.shiftl 255 24)).
  change 0x00FF00FF with (Z.lor (Z.shiftl 255 0) (Z.shiftl 255 16)).
  rewrite !Z.land_lor_distr_r, !land_byte by lia.
  assert (Hr : forall s, 0 < s < 32 -> rol x s = x / 2 ^ (32 - s) + (x * 2 ^ s) mod 2 ^ 32).
  { intros s Hs. unfold rol. rewrite Z.lor_comm, Z.shiftr_div_pow2 by lia.
    unfold u32. rewrite Z.shiftl_mul_pow2 by lia.
    replace (2 ^ 32) with (2 ^ (32 - s) * 2 ^ s) by (rewrite <- Z.pow_add_r by lia; f_equal; lia).
    rewrite Z.mul_mod_distr_r by lia. rewrite <- Z.shiftl_mul_pow2 by lia.
    rewrite lor_shiftl_add; [rewrite Z.shiftl_mul_pow2 by lia; done|lia|].
    split; [apply Z.div_pos; lia|]. apply Z.div_lt_upper_bound; [lia|].
    rewrite <- Z.pow_add_r by lia. replace (32 - s + s) with 32 by lia. lia. }
  rewrite !Hr by lia. rewrite Hx.
  replace ((_ / 2 ^ 8) mod 256) with c by dlia. replace ((_ / 2 ^ 24) mod 256) with a by dlia.
  replace ((_ / 2 ^ 0) mod 256) with d by dlia. replace ((_ / 2 ^ 16) mod 256) with b by dlia.
  rewrite Z.shiftl_0_r.
  replace (Z.lor (Z.lor (Z.shiftl c 8) (Z.shiftl a 24)) (Z.lor d (Z.shiftl b 16)))
    with (Z.lor (Z.lor (Z.lor d (Z.shiftl c 8)) (Z.shiftl b 16)) (Z.shiftl a 24)).
  - rewrite (lor_shiftl_add d c 8), (lor_shiftl_add _ b 16), lor_shiftl_add by lia.
    unfold be_value. cbn [rev app le_value]. lia.
  - apply Z.bits_inj'. intros i _. rewrite !Z.lor_spec.
    by destruct (Z.testbit d i), (Z.testbit (Z.shiftl c 8) i), (Z.testbit (Z.shiftl b 16) i),
      (Z.testbit (Z.shiftl a 24) i).
Qed.

(** The schedule grows at its end. *)
Lemma extend_spec n : forall W, (16 <= length W)%nat ->
  length (extend n W) = (length W + n)%nat /\
  (forall t, (t < length W)%nat -> extend n W !!! t = W !!! t) /\
  (forall t, (length W <= t < length W + n)%nat ->
     extend n W !!! t = rol (Z.lxor (Z.lxor (Z.lxor (extend n W !!! (t - 3)%nat)
       (extend n W !!! (t - 8)%nat)) (extend n W !!! (t - 14)%nat))
       (extend n W !!! (t - 16)%nat)) 1).
Proof.
  induction n as [|n IH]; intros W Hl; cbn [extend].
  { split; [lia|]. split; [done|]. lia. }
  destruct (IH (W ++ [next_word W])) as (H1 & H2 & H3); [size_lia|].
  rewrite length_app in H1, H2, H3. cbn [length] in *.
  assert (Hlow : forall t, (t < length W)%nat -> extend n (W ++ [next_word W]) !!! t = W !!! t).
  { intros t Ht. rewrite H2 by lia. by apply lookup_total_app_l. }
  split; [lia|]. split; [done|]. intros t Ht.
  destruct (decide (t = length W)) as [->|]; [|apply H3; lia].
  rewrite H2 by lia. rewrite !Hlow by lia. by rewrite list_lookup_total_middle.
Qed.

(** The words a round finds in the 16-word array of the code. *)
Definition sched_inv (W raw : list Z) (i : nat) (l : list Z) : Prop :=
  length l = 16%nat /\
  (forall t, (t < i)%nat -> (i <= t + 16)%nat -> l !!! (t mod 16)%nat = W !!! t) /\
  (forall j, (i <= j < 16)%nat -> l !!! j = raw !!! j).

Section transform.
Context (b : list Z) (Hlen : length b = 64%nat) (HB : Bytes b).

Abbreviation W := (extend 64 (block_words b)).
Abbreviation raw := (load_words b).

Lemma length_block_words : length (block_words b) = 16%nat.
Proof. unfold block_words. by rewrite length_fmap, length_seq. Qed.

Lemma word_bytes_of i : (i < 16)%nat -> exists a0 a1 a2 a3,
  take 4 (drop (4 * i) b) = [a0; a1; a2; a3] /\ Bytes [a0; a1; a2; a3].
Proof using Hlen HB.
  intros Hi. assert (Hl : length (take 4 (drop (4 * i) b)) = 4%nat)
    by size_lia.
  assert (HBl : Bytes (take 4 (drop (4 * i) b))) by by apply Forall_take, Forall_drop.
  destruct (take 4 _) as [|a0 [|a1 [|a2 [|a3 [|? ?]]]]]; try discriminate Hl. eauto 10.
Qed.

Lemma word_low i : (i < 16)%nat ->
  W !!! i = be_value (take 4 (drop (4 * i) b)).
Proof.
  intros Hi. destruct (extend_spec 64 (block_words b)) as (_ & -> & _);
    rewrite ?length_block_words; try lia.
  unfold block_words. apply list_lookup_total_correct.
  by rewrite list_lookup_fmap, lookup_seq_lt by done.
Qed.

Lemma raw_low i : (i < 16)%nat ->
  raw !!! i = le_value (take 4 (drop (4 * i) b)).
Proof.
  intros Hi. unfold load_words. apply list_lookup_total_correct.
  by rewrite list_lookup_fmap, lookup_seq_lt by done.
Qed.

Lemma sched_inv_0 : sched_inv W raw 0 raw.
Proof.
  split; [unfold load_words; by rewrite length_fmap, length_seq|]. split; [lia|done].
Qed.

(** Storing word [i] where the next rounds look for it. *)
Lemma sched_inv_step i l : sched_inv W raw i l ->
  sched_inv W raw (S i) (<[(i mod 16)%nat := W !!! i]> l).
Proof.
  intros (Hl & Hw & Hr). split; [by rewrite length_insert|].
  assert (Hm : (i mod 16 < 16)%nat) by (apply Nat.mod_upper_bound; lia).
  split.
  - intros t Ht Hti. destruct (decide (t = i)) as [->|Hne].
    + by rewrite list_lookup_total_insert, decide_True by lia.
    + rewrite list_lookup_total_insert_ne; [apply Hw; lia|].
      intros He. pose proof (Nat.div_mod t 16 ltac:(lia)). pose proof (Nat.div_mod i 16 ltac:(lia)).
      assert (Hd : (t / 16 <> i / 16)%nat) by (intros Hd; lia). lia.
  - intros j Hj. rewrite list_lookup_total_insert_ne; [apply Hr; lia|].
    intros He. rewrite <- He in Hj. pose proof (Nat.div_mod i 16 ltac:(lia)).
    assert (i / 16 = 0)%nat by (apply Nat.div_small; lia). lia.
Qed.

Lemma blk0_spec i l : (i < 16)%nat -> sched_inv W raw i l ->
  blk0 l i = (W !!! i, <[(i mod 16)%nat := W !!! i]> l).
Proof using Hlen HB.
  intros Hi (Hl & Hw & Hr). unfold blk0. rewrite (Nat.mod_small i) by done.
  rewrite Hr by lia. rewrite raw_low, word_low by done.
  destruct (word_bytes_of i Hi) as (a0 & a1 & a2 & a3 & -> & HBa).
  by rewrite swap_bytes.
Qed.

Lemma blk_spec i l : (16 <= i < 80)%nat -> sched_inv W raw i l ->
  blk l i = (W !!! i, <[(i mod 16)%nat := W !!! i]> l).
Proof.
  intros Hi (Hl & Hw & Hr). unfold blk. rewrite !ix_mod.
  destruct (extend_spec 64 (block_words b)) as (_ & _ & Hx);
    rewrite length_block_words in *; [lia|].
  rewrite (Hx i) by lia.
  assert (Hback : forall k, (k <= 16)%nat -> (0 < k)%nat ->
    l !!! ((i + (16 - k)) mod 16)%nat = W !!! (i - k)%nat).
  { intros k Hk Hk0. rewrite <- Hw by lia. f_equal.
    replace (i + (16 - k))%nat with (i - k + 1 * 16)%nat by lia. apply Nat.Div0.mod_add. }
  rewrite <- (Hback 3%nat), <- (Hback 8%nat), <- (Hback 14%nat), <- (Hback 16%nat) by lia.
  cbn [Nat.sub]. by rewrite Nat.add_0_r.
Qed.

Ltac solve_round :=
  repeat match goal with |- (_, _) = (_, _) => f_equal end; f_equal; lia.

(** One round of the code is one round of the reference. *)
Lemma sha1_round_eq i s l : (i < 80)%nat -> sched_inv W raw i l ->
  sha1_round (s, l) i = (round_ref W s i, <[(i mod 16)%nat := W !!! i]> l).
Proof using Hlen HB.
  intros Hi Hinv. destruct s as [[[[v w] x] y] z].
  unfold sha1_round, R0, R1, R2, R3, R4, round_ref, f_ref, K_ref.
  destruct (bool_decide_reflect (i < 16)%nat).
  { rewrite blk0_spec by done. rewrite !bool_decide_true by lia.
    unfold round. cbn [fst snd]. rewrite choose_eq. solve_round. }
  rewrite blk_spec by (done || lia).
  destruct (bool_decide_reflect (i < 20)%nat); [|destruct (bool_decide_reflect (i < 40)%nat);
    [|destruct (bool_decide_reflect (i < 60)%nat)]];
    unfold round; cbn [fst snd]; rewrite ?choose_eq, ?majority_eq; solve_round.
Qed.

Lemma sha1_rounds_eq n i s l : (i + n <= 80)%nat -> sched_inv W raw i l ->
  exists l', fold_left sha1_round (seq i n) (s, l) = (fold_left (round_ref W) (seq i n) s, l').
Proof using Hlen HB.
  revert i s l. induction n as [|n IH]; intros i s l Hi Hinv; [by eexists|].
  cbn [seq fold_left]. rewrite sha1_round_eq by (done || lia).
  apply IH; [lia|]. by apply sched_inv_step.
Qed.

Lemma transform_compress H : SHA1_Transform H b = compress H b.
Proof using Hlen HB.
  unfold SHA1_Transform, compress.
  destruct (sha1_rounds_eq 80 0 H raw) as [l' ->]; [lia|apply sched_inv_0|]. done.
Qed.
End transform.

(** ** The context is the message taken so far *)

(** A context that has been given [msg]: the whole blocks went into the state, the
    rest is in the buffer, and the count is the length in bits. *)
Definition ctx_repr (ctx : SHA1_CTX) (msg : list Z) : Prop :=
  exists bs part, msg = concat bs ++ part /\ Forall (chunk 64) bs /\ Bytes part /\
    (length part < 64)%nat /\ state ctx = fold_left compress bs H0 /\
    length (buffer ctx) = 64%nat /\ take (length part) (buffer ctx) = part /\
    count0 ctx = (8 * Z.of_nat (length msg)) mod 2 ^ 32 /\
    count1 ctx = (8 * Z.of_nat (length msg)) / 2 ^ 32 mod 2 ^ 32.

Lemma repr_init garbage : length garbage = 64%nat -> ctx_repr (sat_SHA1_Init garbage) [].
Proof.
  intros Hg. exists [], []. repeat split; try done; simpl; try lia; constructor.
Qed.

(** The buffer position. *)
Lemma repr_position bs (part msg : list Z) c0 : msg = concat bs ++ part -> Forall (chunk 64) bs ->
  (length part < 64)%nat -> c0 = (8 * Z.of_nat (length msg)) mod 2 ^ 32 ->
  Z.land (Z.shiftr c0 3) 63 = Z.of_nat (length part).
Proof.
  intros -> Hbs Hp ->. rewrite length_app, (length_chunks 64) by done.
  assert (Hl : forall x, Z.land x 63 = x mod 64) by (intros x; exact (Z.land_ones x 6 ltac:(lia))).
  rewrite Hl, Z.shiftr_div_pow2 by lia. dlia.
Qed.

(** The bit count of an update of less than 2^29 bytes. *)
Lemma add_count_eq n len : 0 <= n -> 0 <= len < 2 ^ 29 ->
  add_count ((8 * n) mod 2 ^ 32) ((8 * n) / 2 ^ 32 mod 2 ^ 32) len =
    ((8 * (n + len)) mod 2 ^ 32, (8 * (n + len)) / 2 ^ 32 mod 2 ^ 32).
Proof.
  intros Hn Hlen. unfold add_count. cbv zeta.
  rewrite Z.shiftl_mul_pow2, Z.shiftr_div_pow2, (Z.div_small len) by lia.
  rewrite (u64_small (len * 2 ^ 3)) by (unfold is_u64; lia).
  assert (Hc : u32 ((8 * n) mod 2 ^ 32 + len * 2 ^ 3) = (8 * (n + len)) mod 2 ^ 32).
  { unfold u32. rewrite Zplus_mod_idemp_l. f_equal. lia. }
  rewrite Hc. f_equal. rewrite Z.add_0_r.
  pose proof (Z.div_mod (8 * n) (2 ^ 32) ltac:(lia)) as Hd.
  pose proof (Z.mod_pos_bound (8 * n) (2 ^ 32) ltac:(lia)) as Hm.
  set (q := 8 * n / 2 ^ 32) in *. set (m := (8 * n) mod 2 ^ 32) in *.
  destruct (decide (m + 8 * len < 2 ^ 32)).
  - assert (Hq : (8 * (n + len)) / 2 ^ 32 = q)
      by (symmetry; apply Z.div_unique with (m + 8 * len); lia).
    assert (Hr : (8 * (n + len)) mod 2 ^ 32 = m + 8 * len)
      by (symmetry; apply Z.mod_unique with q; lia).
    rewrite Hq, Hr, bool_decide_false by lia. unfold u32. by rewrite Z.mod_mod.
  - assert (Hq : (8 * (n + len)) / 2 ^ 32 = q + 1)
      by (symmetry; apply Z.div_unique with (m + 8 * len - 2 ^ 32); lia).
    assert (Hr : (8 * (n + len)) mod 2 ^ 32 = m + 8 * len - 2 ^ 32)
      by (symmetry; apply Z.mod_unique with (q + 1); lia).
    rewrite Hq, Hr, bool_decide_true by lia. unfold u32.
    by rewrite Z.mod_mod, Zplus_mod_idemp_l.
Qed.

Lemma transform_blocks_eq bs : forall fuel pre part i s,
  Forall (chunk 64) bs -> (length part < 64)%nat -> (length bs < fuel)%nat ->
  i = Z.of_nat (length pre) ->
  transform_blocks fuel s (pre ++ concat bs ++ part) i
  = Ret (fold_left compress bs s, Z.of_nat (length (pre ++ concat bs))).
Proof.
  induction bs as [|b bs IH]; intros fuel pre part i s Hbs Hp Hf ->;
    (destruct fuel as [|fuel]; [simpl in Hf; lia|]); cbn [transform_blocks].
  - rewrite bool_decide_false by size_lia.
    cbn [concat fold_left]. by rewrite app_nil_r.
  - apply Forall_cons in Hbs as [[Hb HbB] Hbs].
    rewrite bool_decide_true by (rewrite !length_app; cbn [concat]; rewrite length_app; lia).
    cbn [concat]. rewrite <- (app_assoc b), read_bytes_mid, bind_Ret by lia.
    rewrite transform_compress by done. rewrite (app_assoc pre b).
    rewrite IH; [|done|done|simpl in Hf; lia|rewrite length_app; lia].
    cbn [fold_left]. by rewrite <- !app_assoc.
Qed.

(** An update with any bytes, cut anywhere. *)
Lemma update_repr ctx msg data : ctx_repr ctx msg -> Bytes data ->
  Z.of_nat (length data) < 2 ^ 29 ->
  exists ctx', sat_SHA1_Update ctx data = Ret ctx' /\ ctx_repr ctx' (msg ++ data).
Proof.
  intros (bs & part & Hmsg & Hbs & HBp & Hp & Hs & Hbl & Hbp & H0' & H1') HB Hlt.
  unfold sat_SHA1_Update. rewrite (repr_position bs part msg) by done.
  rewrite H0', H1'. rewrite add_count_eq by lia.
  destruct (bool_decide_reflect (Z.of_nat (length part) + Z.of_nat (length data) > 63)).
  - destruct (split_chunks 64 (drop (64 - length part) data) ltac:(lia))
      as (bs' & part' & Hd & Hbs' & HBp' & Hp'); [by apply Forall_drop|].
    set (d1 := take (64 - length part) data).
    assert (Hl1 : length d1 = (64 - length part)%nat) by (unfold d1; rewrite length_take; lia).
    assert (Hdata : data = d1 ++ concat bs' ++ part')
      by (unfold d1; rewrite <- Hd; by rewrite take_drop).
    rewrite read_bytes_prefix by lia. rewrite bind_Ret.
    replace (take (Z.to_nat (64 - Z.of_nat (length part))) data) with d1
      by (unfold d1; f_equal; lia).
    assert (Hbuf : buffer ctx = part ++ drop (length part) (buffer ctx))
      by (rewrite <- Hbp at 1; by rewrite take_drop).
    rewrite Hbuf, write_next, bind_Ret by size_lia.
    rewrite drop_drop. rewrite (drop_ge (buffer ctx)), app_nil_r by lia.
    assert (Hc1 : chunk 64 (part ++ d1)).
    { split; [size_lia|]. apply Forall_app. split; [done|].
      unfold d1. by apply Forall_take. }
    rewrite transform_compress by apply Hc1.
    assert (Hldata : length data = (length d1 + length (concat bs') + length part')%nat)
      by (rewrite Hdata at 1; rewrite !length_app; lia).
    pose proof (length_chunks 64 bs' Hbs') as Hlc.
    pose proof (transform_blocks_eq bs' (S (length data)) d1 part' (64 - Z.of_nat (length part))
      (compress (state ctx) (part ++ d1)) Hbs' Hp' ltac:(lia) ltac:(lia)) as Htb.
    rewrite <- Hdata in Htb. rewrite Htb, bind_Ret. cbn [fst snd].
    assert (Hrd : read_bytes data (Z.of_nat (length (d1 ++ concat bs')))
      (Z.of_nat (length data) - Z.of_nat (length (d1 ++ concat bs'))) = Ret part').
    { rewrite Hdata at 1. rewrite (app_assoc d1). apply read_bytes_at; [done|].
      rewrite length_app, Hldata. lia. }
    rewrite Hrd, bind_Ret, write_front, bind_Ret by size_lia.
    eexists. split; [reflexivity|].
    exists (bs ++ [part ++ d1] ++ bs'), part'. cbn [state buffer count0 count1].
    split; [rewrite Hmsg, !concat_app; cbn [concat]; rewrite app_nil_r, Hdata at 1;
            by rewrite <- !app_assoc|].
    split; [rewrite !Forall_app; split; [done|]; split; [by constructor|done]|].
    split; [done|]. split; [done|].
    split; [rewrite Hs, !fold_left_app; reflexivity|].
    split; [size_lia|].
    split; [by rewrite take_app_length|]. by rewrite length_app, Nat2Z.inj_add.
  - assert (Hbuf : buffer ctx = part ++ drop (length part) (buffer ctx))
      by (rewrite <- Hbp at 1; by rewrite take_drop).
    rewrite Hbuf, write_next, bind_Ret by size_lia.
    eexists. split; [reflexivity|].
    exists bs, (part ++ data). cbn [state buffer count0 count1].
    split; [by rewrite Hmsg, app_assoc|]. split; [done|].
    split; [by apply Forall_app|]. split; [size_lia|]. split; [done|].
    split; [size_lia|].
    split; [by rewrite app_assoc, take_app_length|].
    by rewrite (length_app msg), Nat2Z.inj_add.
Qed.

(** ** The end of the message *)

Lemma Bytes_app l1 l2 : Bytes (l1 ++ l2) <-> Bytes l1 /\ Bytes l2.
Proof. apply Forall_app. Qed.

Lemma land_504 x : 0 <= x -> Z.land (8 * x) 504 = 8 * (x mod 64).
Proof.
  intros Hx. replace (8 * x) with (Z.shiftl x 3) by (rewrite Z.shiftl_mul_pow2; lia).
  change 504 with (Z.shiftl 63 3). rewrite <- Z.shiftl_land.
  assert (Hl : Z.land x 63 = x mod 64) by exact (Z.land_ones x 6 ltac:(lia)).
  rewrite Hl, Z.shiftl_mul_pow2 by lia. lia.
Qed.

(** The zeros fill up to byte 56 of a block. *)
Lemma pad_zeros_repr k : forall fuel ctx msg, ctx_repr ctx msg -> (k < 64)%nat -> (k < fuel)%nat ->
  ((length msg + k) mod 64 = 56)%nat ->
  exists ctx', pad_zeros fuel ctx = Ret ctx' /\ ctx_repr ctx' (msg ++ replicate k 0).
Proof.
  induction k as [|k IH]; intros fuel ctx msg Hr Hk Hf Hm; (destruct fuel as [|fuel]; [lia|]);
    cbn [pad_zeros]; pose proof Hr as (_ & _ & _ & _ & _ & _ & _ & _ & _ & Hc & _); rewrite Hc;
    replace ((8 * Z.of_nat (length msg)) mod 2 ^ 32)
      with (8 * (Z.of_nat (length msg) mod 2 ^ 29)) by dlia;
    rewrite land_504 by dlia; replace (Z.of_nat (length msg) mod 2 ^ 29 mod 64)
      with (Z.of_nat (length msg mod 64)) by (rewrite Nat2Z.inj_mod; dlia).
  - rewrite Nat.add_0_r in Hm. rewrite Hm, bool_decide_false by lia.
    exists ctx. split; [done|]. by rewrite app_nil_r.
  - assert (Hne : (length msg mod 64 <> 56)%nat).
    { intros He. pose proof (Nat.div_mod (length msg) 64 ltac:(lia)).
      pose proof (Nat.div_mod (length msg + S k) 64 ltac:(lia)). lia. }
    rewrite bool_decide_true by lia.
    destruct (update_repr ctx msg [0] Hr) as (ctx1 & -> & Hr1);
      [constructor; [unfold is_byte; lia|constructor]|done|]. rewrite bind_Ret.
    destruct (IH fuel ctx1 (msg ++ [0]) Hr1) as (ctx2 & -> & Hr2); [lia|lia| |].
    { replace (length (msg ++ [0%Z]) + k)%nat with (length msg + S k)%nat; [done|].
      rewrite length_app. cbn [length]. lia. }
    exists ctx2. split; [done|]. by rewrite <- app_assoc in Hr2.
Qed.

Lemma count_bytes_be c : count_bytes c = be_bytes 4 c.
Proof.
  unfold count_bytes, be_bytes. cbn [fmap list_fmap le_bytes rev app].
  rewrite !land_255, !Z.shiftr_div_pow2 by lia. rewrite !Z.div_div by lia.
  rewrite Z.div_1_r. done.
Qed.

Lemma le_bytes_app n m z :
  le_bytes (n + m) z = le_bytes n z ++ le_bytes m (z / 256 ^ Z.of_nat n).
Proof.
  revert z. induction n as [|n IH]; intros z.
  - cbn [Nat.add le_bytes app]. by rewrite Z.div_1_r.
  - cbn [Nat.add le_bytes app]. f_equal. rewrite IH. do 2 f_equal.
    rewrite Nat2Z.inj_succ, Z.pow_succ_r, Z.div_div by lia. done.
Qed.

Lemma be_bytes_app n m z :
  be_bytes (m + n) z = be_bytes m (z / 256 ^ Z.of_nat n) ++ be_bytes n z.
Proof. unfold be_bytes. by rewrite Nat.add_comm, le_bytes_app, rev_app_distr. Qed.

Lemma be_bytes_mod n z : be_bytes n (z mod 256 ^ Z.of_nat n) = be_bytes n z.
Proof. unfold be_bytes. by rewrite le_bytes_mod. Qed.

Lemma chunks_concat bs : forall fuel, Forall (chunk 64) bs -> (length bs <= fuel)%nat ->
  chunks fuel (concat bs) = bs.
Proof.
  induction bs as [|b bs IH]; intros fuel Hbs Hf; [by destruct fuel|].
  destruct fuel as [|fuel]; [simpl in Hf; lia|].
  apply Forall_cons in Hbs as [[Hb HB] Hbs]. cbn [concat].
  destruct b as [|x b]; [done|]. cbn [app chunks].
  change (x :: b ++ concat bs) with ((x :: b) ++ concat bs).
  rewrite <- Hb, take_app_length, drop_app_length. f_equal. apply IH; [done|]. simpl in Hf. lia.
Qed.

Lemma length_sha1_pad msg : exists k, length (sha1_pad msg) = (64 * k)%nat.
Proof.
  unfold sha1_pad. rewrite length_app. cbn [length].
  rewrite length_app, length_replicate, length_be_bytes.
  pose proof (Nat.div_mod (length msg) 64 ltac:(lia)).
  pose proof (Nat.mod_upper_bound (length msg) 64 ltac:(lia)).
  set (r := (length msg mod 64)%nat) in *. set (q := (length msg / 64)%nat) in *.
  destruct (decide (r < 56)%nat).
  - exists (q + 1)%nat. replace (119 - r)%nat with ((55 - r) + 1 * 64)%nat by lia.
    rewrite Nat.Div0.mod_add, Nat.mod_small by lia. lia.
  - exists (q + 2)%nat. rewrite Nat.mod_small by lia. lia.
Qed.

(** Closing a context gives the digest of its message. *)
Lemma final_repr ctx msg : ctx_repr ctx msg -> Z.of_nat (length msg) < 2 ^ 61 ->
  sat_SHA1_Final ctx = Ret (sha1_ref msg).
Proof.
  intros Hr Hlt. unfold sat_SHA1_Final.
  set (finalcount := count_bytes (count1 ctx) ++ count_bytes (count0 ctx)).
  assert (Hfc : finalcount = be_bytes 8 (8 * Z.of_nat (length msg))).
  { destruct Hr as (_ & _ & _ & _ & _ & _ & _ & _ & _ & Hc0 & Hc1).
    unfold finalcount. rewrite Hc0, Hc1, !count_bytes_be.
    rewrite (be_bytes_mod 4), (be_bytes_mod 4). by rewrite <- (be_bytes_app 4 4). }
  destruct (update_repr ctx msg [0x80] Hr) as (ctx1 & -> & Hr1);
    [constructor; [unfold is_byte; lia|constructor]|done|]. rewrite bind_Ret.
  pose proof (Nat.div_mod (length msg) 64 ltac:(lia)).
  pose proof (Nat.mod_upper_bound (length msg) 64 ltac:(lia)).
  set (z := ((119 - length msg mod 64) mod 64)%nat).
  destruct (pad_zeros_repr z 65 ctx1 (msg ++ [0x80]) Hr1) as (ctx2 & -> & Hr2).
  { apply Nat.mod_upper_bound. lia. }
  { assert (z < 64)%nat by (apply Nat.mod_upper_bound; lia). lia. }
  { rewrite length_app. cbn [length]. unfold z.
    rewrite Nat.Div0.add_mod_idemp_r.
    replace (length msg + 1 + (119 - length msg mod 64))%nat
      with (56 + (length msg / 64 + 1) * 64)%nat by lia.
    by rewrite Nat.Div0.mod_add. }
  rewrite bind_Ret. rewrite Hfc.
  destruct (update_repr ctx2 _ (be_bytes 8 (8 * Z.of_nat (length msg))) Hr2)
    as (ctx3 & -> & Hr3); [apply be_bytes_Bytes|by rewrite length_be_bytes|]. rewrite bind_Ret.
  assert (Hp : ((msg ++ [0x80]) ++ replicate z 0) ++ be_bytes 8 (8 * Z.of_nat (length msg))
    = sha1_pad msg) by (unfold sha1_pad; by rewrite <- !app_assoc).
  rewrite Hp in Hr3. destruct Hr3 as (bs & part & Hm & Hbs & _ & Hlp & Hs & _).
  destruct (length_sha1_pad msg) as [k Hk].
  assert (part = []) as ->.
  { rewrite Hm, length_app, (length_chunks 64) in Hk by done. destruct part; [done|].
    cbn [length] in *. lia. }
  rewrite app_nil_r in Hm. unfold sha1_ref. cbv zeta. rewrite Hm.
  rewrite chunks_concat, Hs by (try done; rewrite (length_chunks 64) by done; lia).
  destruct (fold_left compress bs H0) as [[[[a b] c] d] e]. cbn [fmap list_fmap].
  by rewrite !count_bytes_be.
Qed.

Lemma sha1_ref_digest msg : length (sha1_ref msg) = 20%nat /\ Bytes (sha1_ref msg).
Proof.
  unfold sha1_ref. destruct (fold_left _ _ _) as [[[[a b] c] d] e]. split.
  - cbn [fmap list_fmap concat]. by rewrite !length_app, !length_be_bytes.
  - cbn [fmap list_fmap concat]. rewrite !Forall_app.
    repeat split; try apply be_bytes_Bytes; constructor.
Qed.

Lemma lsha1_eq garbage text : length garbage = 64%nat -> Bytes text ->
  Z.of_nat (length text) < 2 ^ 29 -> lsha1 garbage text = Ret (sha1_ref text).
Proof.
  intros Hg HB Hlt. unfold lsha1.
  destruct (update_repr _ [] text (repr_init garbage Hg) HB Hlt) as (ctx & -> & Hr).
  rewrite bind_Ret. apply final_repr; [done|]. cbn [app]. lia.
Qed.

(** C24: the streaming hash with its in-place schedule computes the digest the standard
    defines, for every message of less than 2^29 bytes and whatever the buffer of the
    context held. *)
Theorem sha1_standard garbage text :
  length garbage = 64%nat -> Bytes text -> Z.of_nat (length text) < 2 ^ 29 ->
  lsha1 garbage text = Ret (sha1_ref text).
Proof. apply lsha1_eq. Qed.

Lemma sha1_standard_witness :
  lsha1 (replicate 64 7) (replicate 119 97) = Ret (sha1_ref (replicate 119 97)).
Proof.
  apply sha1_standard; [reflexivity| |reflexivity].
  apply Forall_replicate. split; [discriminate|reflexivity].
Defined.

(** The bit count of one update of 2^29 bytes is 2^33 instead of 2^32: the 32-bit word
    is compared with the 64-bit [len << 3], so a carry is counted twice. *)
Lemma add_count_long : add_count 0 0 (2 ^ 29) = (0, 2).
Proof. reflexivity. Qed.

(** A message given in two parts hashes like the message in one. *)
Theorem sha1_streaming garbage m1 m2 :
  length garbage = 64%nat -> Bytes m1 -> Bytes m2 ->
  Z.of_nat (length m1) < 2 ^ 29 -> Z.of_nat (length m2) < 2 ^ 29 ->
  (ctx ← sat_SHA1_Update (sat_SHA1_Init garbage) m1;
   ctx ← sat_SHA1_Update ctx m2; sat_SHA1_Final ctx) = Ret (sha1_ref (m1 ++ m2)).
Proof.
  intros Hg HB1 HB2 Hl1 Hl2.
  destruct (update_repr _ [] m1 (repr_init garbage Hg) HB1 Hl1) as (ctx & -> & Hr).
  rewrite bind_Ret.
  destruct (update_repr ctx _ m2 Hr HB2 Hl2) as (ctx2 & -> & Hr2). rewrite bind_Ret.
  apply final_repr; [done|]. rewrite !length_app. simpl. lia.
Qed.

(** ** The keyed hash *)

Lemma le_bytes_lxor l1 : forall l2, Bytes l1 -> Bytes l2 -> length l2 = length l1 ->
  le_bytes (length l1) (Z.lxor (le_value l1) (le_value l2)) = zip_with Z.lxor l1 l2.
Proof.
  induction l1 as [|a l1 IH]; intros [|b l2] H1 H2 Hl; try discriminate Hl; [done|].
  apply Forall_cons in H1 as [Ha H1]. apply Forall_cons in H2 as [Hb H2]. unfold is_byte in *.
  cbn [length le_bytes le_value zip_with].
  rewrite <- (land_255 (Z.lxor _ _)). change 256 with (2 ^ 8).
  rewrite <- (Z.shiftr_div_pow2 (Z.lxor _ _) 8), Z.shiftr_lxor, !Z.shiftr_div_pow2 by lia.
  replace ((a + 2 ^ 8 * le_value l1) / 2 ^ 8) with (le_value l1) by dlia.
  replace ((b + 2 ^ 8 * le_value l2) / 2 ^ 8) with (le_value l2) by dlia.
  rewrite IH by (done || (simpl in Hl; lia)). f_equal.
  assert (Hd : forall x y, Z.land (Z.lxor x y) 255 = Z.lxor (Z.land x 255) (Z.land y 255)).
  { intros x y. apply Z.bits_inj'. intros i _.
    rewrite Z.land_spec, !Z.lxor_spec, !Z.land_spec.
    by destruct (Z.testbit x i), (Z.testbit y i), (Z.testbit 255 i). }
  rewrite Hd, !land_255. f_equal; dlia.
Qed.

Lemma zip_lxor_const c l : zip_with Z.lxor l (replicate (length l) c) = Z.lxor c <$> l.
Proof.
  induction l as [|x l IH]; [done|]. cbn [length replicate zip_with fmap list_fmap].
  rewrite Z.lxor_comm. f_equal. done.
Qed.

(** [xor_key] with a word of four equal bytes changes every byte alike. *)
Lemma xor_key_eq n : forall key c x, length key = (4 * n)%nat -> Bytes key -> is_byte c ->
  x = le_value (replicate 4 c) -> xor_key n key x = Z.lxor c <$> key.
Proof.
  induction n as [|n IH]; intros key c x Hl HB Hc ->; [by destruct key|]. cbn [xor_key].
  assert (Hl4 : length (take 4 key) = 4%nat) by size_lia.
  pose proof (le_bytes_lxor (take 4 key) (replicate 4 c)) as Hx.
  pose proof (zip_lxor_const c (take 4 key)) as Hz. rewrite Hl4 in Hx, Hz.
  rewrite Hx, Hz; [|by apply Forall_take|by apply Forall_replicate|done].
  rewrite (IH _ c) by first [done | rewrite length_drop; lia | by apply Forall_drop].
  by rewrite <- fmap_app, take_drop.
Qed.

Lemma xor_twice (k : list Z) : (Z.lxor 0x6a <$> (Z.lxor 0x5c <$> k)) = Z.lxor 0x36 <$> k.
Proof.
  induction k as [|b k IH]; [done|]. cbn [fmap list_fmap]. f_equal; [|done].
  by rewrite <- Z.lxor_assoc.
Qed.

Lemma Bytes_lxor c (k : list Z) : is_byte c -> Bytes k -> Bytes (Z.lxor c <$> k).
Proof.
  intros Hc. induction 1 as [|b k Hb _ IH]; [constructor|]. cbn [fmap list_fmap].
  constructor; [|done]. unfold is_byte in *.
  assert (He : Z.lxor c b = Z.lxor c b mod 2 ^ 8).
  { rewrite <- Z.land_ones by lia. apply Z.bits_inj'. intros i Hi.
    rewrite Z.land_spec, Z.testbit_ones_nonneg, Z.lxor_spec by lia.
    destruct (i <? 8) eqn:E; [by rewrite andb_true_r|]. apply Z.ltb_ge in E.
    by rewrite (testbit_above c 8), (testbit_above b 8) by (simpl; lia). }
  rewrite He. dlia.
Qed.

(** The key cut or filled to one block. *)
Lemma hmac_key garbage key : length garbage = 64%nat -> Bytes key ->
  Z.of_nat (length key) < 2 ^ 29 ->
  let k := if bool_decide (64 < length key)%nat then sha1_ref key else key in
  let k := k ++ replicate (64 - length k) 0 in
  (if bool_decide (Z.of_nat (length key) > BLOCKSIZE) then
     digest ← lsha1 garbage key; write_bytes (replicate 64 0) 0 digest
   else write_bytes (replicate 64 0) 0 key) = Ret k /\ length k = 64%nat /\ Bytes k.
Proof.
  intros Hg HB Hlt k0 k. unfold BLOCKSIZE.
  assert (Hk0 : (length k0 <= 64)%nat /\ Bytes k0).
  { unfold k0. destruct (sha1_ref_digest key) as [Hl HBd].
    destruct (bool_decide_reflect (64 < length key)%nat); [rewrite Hl|]; split; (done || lia). }
  destruct Hk0 as [Hk0 HBk0].
  assert (Hlk : length k = 64%nat) by (unfold k; rewrite length_app, length_replicate; lia).
  split.
  - trans (write_bytes (replicate 64 0) 0 k0).
    + unfold k0. destruct (bool_decide_reflect (64 < length key)%nat).
      * rewrite bool_decide_true by lia. by rewrite lsha1_eq, bind_Ret.
      * by rewrite bool_decide_false by lia.
    + rewrite write_front by size_lia.
      unfold k. by rewrite drop_replicate.
  - split; [done|]. unfold k. apply Forall_app. split; [done|].
    apply Forall_replicate. unfold is_byte. lia.
Qed.

(** C25: [hmac_sha1] is HMAC over SHA-1 with 64-byte blocks, for keys of any length up
    to the bound, longer than a block or not. *)
Theorem hmac_sha1_standard garbage key text :
  length garbage = 64%nat -> Bytes key -> Bytes text ->
  Z.of_nat (length key) < 2 ^ 29 -> Z.of_nat (length text) < 2 ^ 29 ->
  lhmac_sha1 garbage key text = Ret (hmac_ref key text).
Proof.
  intros Hg HBk HBt Hlk Hlt. unfold lhmac_sha1, hmac_ref. cbv zeta.
  destruct (hmac_key garbage key Hg HBk Hlk) as (Hkey & Hl & HB). rewrite Hkey.
  set (k0 := if bool_decide (64 < length key)%nat then sha1_ref key else key) in *.
  set (k := k0 ++ replicate (64 - length k0) 0) in *. clear Hkey. rewrite bind_Ret.
  assert (H5c : is_byte 0x5c) by (unfold is_byte; lia).
  rewrite (xor_key_eq 16 k 0x5c) by done.
  set (ko := Z.lxor 0x5c <$> k). assert (HBo : Bytes ko) by by apply Bytes_lxor.
  assert (Hlo : length ko = 64%nat) by (unfold ko; by rewrite length_fmap).
  rewrite (xor_key_eq 16 ko 0x6a) by (done || (unfold is_byte; lia)).
  assert (Hki : Z.lxor 0x6a <$> ko = Z.lxor 0x36 <$> k) by apply xor_twice. rewrite Hki.
  clear Hki. set (ki := Z.lxor 0x36 <$> k).
  assert (HBi : Bytes ki) by (apply Bytes_lxor; [unfold is_byte; lia|done]).
  assert (Hli : length ki = 64%nat) by (unfold ki; by rewrite length_fmap).
  destruct (update_repr _ [] ko (repr_init garbage Hg) HBo) as (ctx1 & -> & Hr1);
    [by rewrite Hlo|]. rewrite bind_Ret.
  destruct (update_repr _ [] ki (repr_init garbage Hg) HBi) as (ctx2 & -> & Hr2);
    [by rewrite Hli|]. rewrite bind_Ret.
  destruct (update_repr _ _ text Hr2 HBt Hlt) as (ctx3 & -> & Hr3). rewrite bind_Ret.
  cbn [app] in *. rewrite (final_repr _ _ Hr3) by size_lia. rewrite bind_Ret.
  destruct (sha1_ref_digest (ki ++ text)) as [Hld HBd].
  destruct (update_repr _ _ _ Hr1 HBd) as (ctx4 & -> & Hr4); [by rewrite Hld|].
  rewrite bind_Ret. apply final_repr; [done|]. rewrite length_app, Hlo, Hld. lia.
Qed.

Lemma hmac_sha1_standard_witness :
  lhmac_sha1 (replicate 64 0) (replicate 80 170) [84; 101; 115; 116]
  = Ret (hmac_ref (replicate 80 170) [84; 101; 115; 116]).
Proof.
  apply hmac_sha1_standard; [reflexivity| | |reflexivity|reflexivity].
  - apply Forall_replicate. split; [discriminate|reflexivity].
  - repeat constructor; discriminate.
Defined.
