(* ===== verification/CString.v ===== *)
(** * C strings

    The functions of the C library that the services use on text: reading up to the
    NUL, [memcmp], [strsep], [strtol] and [strtoul], and the decimal form that [%d]
    prints.  A buffer is a byte list and a pointer into it an offset; a read behind
    the end of the buffer is a fault. *)
From S2P Require Import Prelude.
From stdpp Require Import base list gmap numbers strings pretty.
From Stdlib Require Import ZArith Lia.

Local Open Scope Z_scope.

(** The bytes of a literal. *)
Fixpoint bytes_of (s : string) : list Z :=
  match s with
  | EmptyString => []
  | String c s => Z.of_nat (Ascii.nat_of_ascii c) :: bytes_of s
  end.

(** The string that starts at the head of [l], without its NUL. *)
Fixpoint cstr (l : list Z) : outcome (list Z) :=
  match l with
  | [] => Crash OutOfBounds
  | c :: l => if bool_decide (c = 0) then Ret [] else s ← cstr l; Ret (c :: s)
  end.

Definition cstring (buf : list Z) (p : Z) : outcome (list Z) :=
  if bool_decide (0 <= p) then cstr (drop (Z.to_nat p) buf) else Crash OutOfBounds.

(** [memcmp(a, b, n) == 0], which looks no further than the first difference. *)
Fixpoint memcmp_eq (a b : list Z) (n : nat) : outcome bool :=
  match n with
  | O => Ret true
  | S n =>
    match a, b with
    | x :: a, y :: b => if bool_decide (x = y) then memcmp_eq a b n else Ret false
    | _, _ => Crash OutOfBounds
    end
  end.

(** [strsep(&p, " ")]: the token stays at [p], its delimiter becomes a NUL, and the
    pointer moves behind it, or to NULL at the end of the string. *)
Definition strsep (buf : list Z) (p : Z) : outcome (list Z * option Z) :=
  s ← cstring buf p;
  match list_find (fun c => c = 32) s with
  | Some (i, _) =>
    buf ← write_at buf (p + Z.of_nat i) 0;
    Ret (buf, Some (p + Z.of_nat i + 1))
  | None => Ret (buf, None)
  end.

Definition isspace (c : Z) : bool := bool_decide (c = 32 \/ 9 <= c <= 13).

Fixpoint skip_space (s : list Z) : list Z :=
  match s with
  | c :: s' => if isspace c then skip_space s' else s
  | [] => []
  end.

(** The value of a digit, in a base of at most 36. *)
Definition digit (base c : Z) : option Z :=
  let v := if bool_decide (48 <= c <= 57) then c - 48
           else if bool_decide (97 <= c <= 122) then c - 87
           else if bool_decide (65 <= c <= 90) then c - 55 else base in
  if bool_decide (v < base) then Some v else None.

Fixpoint digits (base : Z) (s : list Z) (acc : Z) : Z :=
  match s with
  | c :: s => match digit base c with Some v => digits base s (acc * base + v) | None => acc end
  | [] => acc
  end.

(** The sign, and what follows it. *)
Definition take_sign (s : list Z) : Z * list Z :=
  match s with
  | 45 :: s => (-1, s)
  | 43 :: s => (1, s)
  | _ => (1, s)
  end.

(** "0x" before a digit is passed over in base 16. *)
Definition skip_0x (s : list Z) : list Z :=
  match s with
  | 48 :: x :: c :: s' =>
    if bool_decide (x = 120 \/ x = 88) then
      match digit 16 c with Some _ => c :: s' | None => s end
    else s
  | _ => s
  end.

(** [long] has 64 bits. *)
Definition strtol10 (s : list Z) : Z :=
  let '(sign, s) := take_sign (skip_space s) in
  let v := sign * digits 10 s 0 in
  Z.max (- 2 ^ 63) (Z.min (2 ^ 63 - 1) v).

Definition strtoul16 (s : list Z) : Z :=
  let '(sign, s) := take_sign (skip_space s) in
  let v := digits 16 (skip_0x s) 0 in
  if bool_decide (2 ^ 64 <= v) then 2 ^ 64 - 1 else u64 (sign * v).

(** [sscanf] conversions: a word, and a decimal [int]; each with what follows it. *)
Fixpoint take_word (s : list Z) : list Z * list Z :=
  match s with
  | c :: s' => if isspace c then ([], s) else let '(w, r) := take_word s' in (c :: w, r)
  | [] => ([], [])
  end.

Definition scan_s (s : list Z) : option (list Z * list Z) :=
  match take_word (skip_space s) with
  | ([], _) => None
  | (w, r) => Some (w, r)
  end.

Fixpoint drop_digits (s : list Z) : list Z :=
  match s with
  | c :: s' => match digit 10 c with Some _ => drop_digits s' | None => s end
  | [] => []
  end.

Definition scan_d (s : list Z) : option (Z * list Z) :=
  let '(sign, s) := take_sign (skip_space s) in
  match s with
  | c :: _ =>
    match digit 10 c with
    | Some _ => Some (i32 (sign * digits 10 s 0), drop_digits s)
    | None => None
    end
  | [] => None
  end.

(** What [%d] prints. *)
Definition print_int (n : Z) : list Z := bytes_of (pretty n).

(** What [%x] prints of a 32-bit word: at most eight digits. *)
Definition hex_char (d : Z) : Z := if bool_decide (d < 10) then 48 + d else 87 + d.

Fixpoint hex_digits (fuel : nat) (n : Z) (acc : list Z) : list Z :=
  match fuel with
  | O => acc
  | S fuel =>
    let acc := hex_char (n mod 16) :: acc in
    if bool_decide (n / 16 = 0) then acc else hex_digits fuel (n / 16) acc
  end.

Definition print_hex (n : Z) : list Z := hex_digits 8 (u32 n) [].

(** [strncmp(a, b, n) == 0]. *)
Fixpoint strncmp_eq (a b : list Z) (n : nat) : outcome bool :=
  match n with
  | O => Ret true
  | S n =>
    match a, b with
    | x :: a, y :: b =>
      if bool_decide (x = y) then
        if bool_decide (x = 0) then Ret true else strncmp_eq a b n
      else Ret false
    | _, _ => Crash OutOfBounds
    end
  end.

Example print_hex_run : print_hex 0x1000af = bytes_of "1000af" /\ print_hex 0 = [48].
Proof. vm_compute. done. Qed.

Example print_parse : print_int (-120) = [45; 49; 50; 48] /\
  strtol10 [32; 45; 49; 50; 48; 32; 55] = -120 /\ strtoul16 (bytes_of "0x1F") = 31 /\
  strtoul16 (bytes_of "ff") = 255.
Proof. vm_compute. done. Qed.

(** ** Lemmas *)

Lemma cstr_app s rest : Forall (fun c => c <> 0) s -> cstr (s ++ 0 :: rest) = Ret s.
Proof.
  induction 1 as [|c s Hc _ IH]; [done|]. cbn [app cstr]. rewrite bool_decide_false by done.
  by rewrite IH.
Qed.

Lemma cstring_at pre s rest p : p = Z.of_nat (length pre) -> Forall (fun c => c <> 0) s ->
  cstring (pre ++ s ++ 0 :: rest) p = Ret s.
Proof.
  intros -> Hs. unfold cstring. rewrite bool_decide_true by lia.
  rewrite Nat2Z.id, drop_app_length. by apply cstr_app.
Qed.

(** ** Words *)

(** The text up to the first space, and what follows that space. *)
Fixpoint split_space (s : list Z) : list Z * option (list Z) :=
  match s with
  | [] => ([], None)
  | c :: s =>
    if bool_decide (c = 32) then ([], Some s)
    else let '(w, r) := split_space s in (c :: w, r)
  end.

Definition join_space (w : list Z) (r : option (list Z)) : list Z :=
  w ++ match r with Some s => 32 :: s | None => [] end.

Lemma split_space_join s : join_space (split_space s).1 (split_space s).2 = s.
Proof.
  induction s as [|c s IH]; [done|]. cbn [split_space]. case_bool_decide; [by subst|].
  destruct (split_space s) as [w r]. cbn [fst snd] in *. unfold join_space in *. cbn [app]. by rewrite IH.
Qed.

Lemma find_space s : list_find (fun c => c = 32) s =
  match (split_space s).2 with Some _ => Some (length (split_space s).1, 32) | None => None end.
Proof.
  induction s as [|c s IH]; [done|]. cbn [split_space list_find]. case_bool_decide as Hc.
  - subst. by rewrite decide_True.
  - rewrite decide_False by done. rewrite IH. destruct (split_space s) as [w [r|]]; done.
Qed.

(** [memcmp] over the length of a word asks whether it is a prefix of the name. *)
Lemma memcmp_prefix w l name : Forall (fun c => c <> 0) w ->
  memcmp_eq (w ++ l) (name ++ [0]) (length w) = Ret (bool_decide (w `prefix_of` name)).
Proof.
  intros Hw. revert name. induction Hw as [|c w Hc _ IH]; intros name.
  { rewrite (bool_decide_true _ (prefix_nil name)). by destruct l. }
  destruct name as [|d name]; cbn [length app memcmp_eq].
  { rewrite bool_decide_false by done. by rewrite bool_decide_false by by intros [? [=]]. }
  case_bool_decide as Hcd.
  - subst d. rewrite IH. f_equal. apply bool_decide_ext. split; [apply prefix_cons|apply prefix_cons_inv_2].
  - rewrite bool_decide_false; [done|]. by intros ?%prefix_cons_inv_1.
Qed.

(** [strsep] on a string that starts behind [pre]. *)
Lemma strsep_split pre s rest : Forall (fun c => c <> 0) s ->
  strsep (pre ++ s ++ 0 :: rest) (Z.of_nat (length pre)) =
    match split_space s with
    | (w, Some s) => Ret (pre ++ w ++ 0 :: s ++ 0 :: rest,
                          Some (Z.of_nat (length pre) + Z.of_nat (length w) + 1))
    | (w, None) => Ret (pre ++ s ++ 0 :: rest, None)
    end.
Proof.
  intros Hs. unfold strsep. rewrite (cstring_at pre s rest) by done. rewrite bind_Ret, find_space.
  pose proof (split_space_join s) as Hj. destruct (split_space s) as [w [r|]]; [|done]. cbn [fst snd] in *.
  unfold join_space in Hj. rewrite <- Hj, <- Nat2Z.inj_add, <- !app_assoc. cbn [app].
  rewrite write_at_lt by (rewrite !length_app; cbn; lia). rewrite bind_Ret, insert_app_r.
  do 2 f_equal. replace (length w) with (length w + 0)%nat by lia. by rewrite insert_app_r.
Qed.

(** ** Reading a number in base 16 *)

Definition is_hex (c : Z) : Prop := is_Some (digit 16 c).

(** The value of digits, the highest first. *)
Definition hex_value (ds : list Z) (acc : Z) : Z := foldl (fun a d => a * 16 + d) acc ds.

(** A character for a digit, in lower or in upper case. *)
Definition hex_alphabet (f : Z -> Z) : Prop := forall d, 0 <= d < 16 -> digit 16 (f d) = Some d.

Lemma hex_char_alphabet : hex_alphabet hex_char.
Proof. unfold hex_alphabet. apply (below_Forall 16). by repeat apply Forall_cons_2. Qed.

Lemma digits_hex f ds acc : hex_alphabet f -> Forall (fun d => 0 <= d < 16) ds ->
  digits 16 (f <$> ds) acc = hex_value ds acc.
Proof.
  intros Hf Hds. revert acc. induction Hds as [|d ds Hd _ IH]; intros acc; [done|].
  cbn [fmap list_fmap digits]. by rewrite Hf, IH.
Qed.

Lemma is_hex_range c : is_hex c -> 48 <= c <= 57 \/ 97 <= c <= 102 \/ 65 <= c <= 70.
Proof. unfold is_hex, digit. repeat case_bool_decide; intros [? [=]]; lia. Qed.

(** Nothing of digits is taken for a blank, a sign or "0x". *)
Lemma strtoul16_hex s : Forall is_hex s -> digits 16 s 0 < 2 ^ 64 -> 0 <= digits 16 s 0 ->
  strtoul16 s = digits 16 s 0.
Proof.
  intros Hs Hv Hv0.
  assert (Htake : take_sign (skip_space s) = (1, s)).
  { destruct s as [|c s]; [done|]. apply Forall_cons in Hs as [Hc _]. apply is_hex_range in Hc.
    cbn [skip_space]. unfold isspace. rewrite bool_decide_false by lia. unfold take_sign.
    repeat case_match; done || lia. }
  assert (Hskip : skip_0x s = s).
  { unfold skip_0x. destruct s as [|c [|x [|y s]]]; try (by repeat case_match).
    apply Forall_cons in Hs as [_ [Hx%is_hex_range _]%Forall_cons].
    repeat case_match; try done. all: case_bool_decide; lia. }
  unfold strtoul16. rewrite Htake. cbv zeta. rewrite Hskip, bool_decide_false, Z.mul_1_l by lia.
  apply Z.mod_small. lia.
Qed.

Lemma hex_of_alphabet f ds : hex_alphabet f -> Forall (fun d => 0 <= d < 16) ds -> Forall is_hex (f <$> ds).
Proof. intros Hf Hds. apply Forall_fmap. eapply Forall_impl; [exact Hds|]. intros d Hd. eexists. by apply Hf. Qed.

Lemma hex_digits_spec fuel : forall n acc, 0 <= n < 16 ^ Z.of_nat (S fuel) ->
  exists ds, hex_digits (S fuel) n acc = (hex_char <$> ds) ++ acc /\
    Forall (fun d => 0 <= d < 16) ds /\ hex_value ds 0 = n.
Proof.
  induction fuel as [|fuel IH]; intros n acc Hn.
  - exists [n mod 16]. cbn [hex_digits]. rewrite bool_decide_true by (cbn in Hn; dlia).
    split; [done|]. split; [constructor; [dlia|done]|]. cbn in *. dlia.
  - assert (E : 16 ^ Z.of_nat (S (S fuel)) = 16 * 16 ^ Z.of_nat (S fuel))
      by (rewrite (Nat2Z.inj_succ (S fuel)), Z.pow_succ_r by lia; done).
    cbn [hex_digits]. case_bool_decide as H0.
    + exists [n mod 16]. split; [done|]. split; [constructor; [dlia|done]|]. cbn. dlia.
    + destruct (IH (n / 16) (hex_char (n mod 16) :: acc)) as (ds & He & Hds & Hv); [dlia|].
      exists (ds ++ [n mod 16]). split; [|split].
      * rewrite fmap_app, <- app_assoc. exact He.
      * apply Forall_app. split; [done|]. constructor; [dlia|done].
      * unfold hex_value in *. rewrite foldl_app, Hv. cbn. dlia.
Qed.

(** What [%x] prints is read back by [strtoul]. *)
Lemma strtoul16_print_hex n : is_u32 n -> strtoul16 (print_hex n) = n.
Proof.
  intros Hn. unfold print_hex. rewrite u32_small by done. unfold is_u32 in Hn.
  destruct (hex_digits_spec 7 n []) as (ds & -> & Hds & Hv); [cbn; lia|]. rewrite app_nil_r.
  rewrite strtoul16_hex; rewrite ?(digits_hex _ _ _ hex_char_alphabet Hds), ?Hv;
    [done|by apply hex_of_alphabet, Hds; apply hex_char_alphabet|lia..].
Qed.

(** ** Printing and reading a number in base 10 *)

Definition dec_value (ds : list Z) (acc : Z) : Z := foldl (fun a d => a * 10 + d) acc ds.

Lemma dec_value_snoc ds d acc : dec_value (ds ++ [d]) acc = dec_value ds acc * 10 + d.
Proof. unfold dec_value. by rewrite foldl_app. Qed.

Lemma digit_dec d : 0 <= d < 10 -> digit 10 (48 + d) = Some d.
Proof. revert d. apply (below_Forall 10). by repeat apply Forall_cons_2. Qed.

Lemma digits_dec ds acc : Forall (fun d => 0 <= d < 10) ds -> digits 10 ((fun d => 48 + d) <$> ds) acc = dec_value ds acc.
Proof.
  intros Hds. revert acc. induction Hds as [|d ds Hd _ IH]; intros acc; [done|]. cbn [fmap list_fmap digits]. by rewrite digit_dec, IH.
Qed.

Lemma pretty_char_dec d : (d < 10)%N -> Z.of_nat (Ascii.nat_of_ascii (pretty_N_char d)) = 48 + Z.of_N d.
Proof.
  intros Hd. assert (H : Z.of_nat (Ascii.nat_of_ascii (pretty_N_char (Z.to_N (Z.of_N d)))) = 48 + Z.of_N d).
  { assert (Hz : 0 <= Z.of_N d < 10) by lia. revert Hz. generalize (Z.of_N d). apply (below_Forall 10). by repeat apply Forall_cons_2. }
  by rewrite N2Z.id in H.
Qed.

Lemma pretty_digits x : forall s, exists ds, bytes_of (pretty_N_go x s) = ((fun d => 48 + d) <$> ds) ++ bytes_of s /\
  Forall (fun d => 0 <= d < 10) ds /\ dec_value ds 0 = Z.of_N x /\ ((0 < x)%N -> ds <> []).
Proof.
  induction (N.lt_wf_0 x) as [x _ IH]. intros s. destruct (decide (x = 0)%N) as [-> |Hx].
  { exists []. rewrite pretty_N_go_0. split; [done|]. split; [constructor|]. split; [done|lia]. }
  rewrite pretty_N_go_step by lia. destruct (IH (x `div` 10)%N ltac:(apply N.div_lt; lia) (String (pretty_N_char (x `mod` 10)) s))
    as (ds & He & Hd & Hv & _).
  assert (Hm : (x `mod` 10 < 10)%N) by (apply N.mod_lt; lia). exists (ds ++ [Z.of_N (x `mod` 10)]). rewrite He. cbn [bytes_of].
  rewrite pretty_char_dec by done. split; [by rewrite fmap_app, <- app_assoc|]. split; [apply Forall_app; split; [done|]; constructor; [|constructor]|].
  { rewrite N2Z.inj_mod. change (Z.of_N 10) with 10. dlia. }
  split; [|intros _; by destruct ds]. rewrite dec_value_snoc, Hv, N2Z.inj_div, N2Z.inj_mod by lia. change (Z.of_N 10) with 10. dlia.
Qed.

Lemma print_int_digits n : 0 <= n -> exists ds, print_int n = (fun d => 48 + d) <$> ds /\
  Forall (fun d => 0 <= d < 10) ds /\ dec_value ds 0 = n /\ ds <> [].
Proof.
  intros Hn. destruct n as [|p|p]; [exists [0]; split; [done|]; split; [by repeat constructor|done]| |lia].
  destruct (pretty_digits (Npos p) "") as (ds & He & Hd & Hv & Hne). exists ds. split; [|split; [done|split; [done|apply Hne; lia]]].
  unfold print_int. change (pretty (Z.pos p)) with (pretty_N_go (Npos p) ""). by rewrite He, app_nil_r.
Qed.

Lemma print_int_nonzero n : 0 <= n -> Forall (fun c => c <> 0) (print_int n).
Proof.
  intros Hn. destruct (print_int_digits n Hn) as (ds & -> & Hds & _). apply Forall_fmap. eapply Forall_impl; [exact Hds|]. cbn. lia.
Qed.

Lemma strtol10_print_int n : 0 <= n < 2 ^ 63 -> strtol10 (print_int n) = n.
Proof.
  intros Hn. destruct (print_int_digits n) as (ds & -> & Hds & Hv & Hne); [lia|]. destruct ds as [|d ds]; [done|].
  apply Forall_cons in Hds as Hd. destruct Hd as [Hd _].
  assert (Hsk : skip_space ((fun d => 48 + d) <$> d :: ds) = (fun d => 48 + d) <$> d :: ds).
  { cbn. unfold isspace. by rewrite bool_decide_false by lia. }
  unfold strtol10. rewrite Hsk. assert (Hsg : take_sign ((fun d => 48 + d) <$> d :: ds) = (1, (fun d => 48 + d) <$> d :: ds)).
  { assert (Hc : d = 0 \/ d = 1 \/ d = 2 \/ d = 3 \/ d = 4 \/ d = 5 \/ d = 6 \/ d = 7 \/ d = 8 \/ d = 9) by lia.
    repeat destruct Hc as [-> |Hc]; try done. by subst. }
  rewrite Hsg, digits_dec, Hv by done. lia.
Qed.
