(* ===== verification/Timer.v ===== *)
(** * The timer (src/src/sn_timer.cpp)

    Pending timeouts are kept in a timing wheel: 256 lists for the current block of
    256 ticks and four levels of 64 lists behind it, emptied downwards as the time
    passes block boundaries.  A list with its tail pointer is a list; what the timer
    sends is the list of its pushes.  Any thread may add a timeout between two locked
    sections of the timer thread; the theorem is about all these interleavings. *)
From S2P Require Import Prelude.
From stdpp Require Import base list gmap numbers strings sorting.
From Stdlib Require Import ZArith Lia.

Local Open Scope Z_scope.

Definition TIME_NEAR_SHIFT : Z := 8.
Definition TIME_NEAR : Z := Z.shiftl 1 TIME_NEAR_SHIFT.
Definition TIME_LEVEL_SHIFT : Z := 6.
Definition TIME_LEVEL : Z := Z.shiftl 1 TIME_LEVEL_SHIFT.
Definition TIME_NEAR_MASK : Z := TIME_NEAR - 1.
Definition TIME_LEVEL_MASK : Z := TIME_LEVEL - 1.

Record timer_event := mk_event { ev_handle : Z; ev_session : Z }.

Record timer_node := mk_node { expire : Z; node_event : timer_event }.

Record timer := mk_timer {
  near_ : list (list timer_node);
  t_ : list (list (list timer_node));
  time : Z;
  current : Z;
  starttime : Z;
  current_point : Z;
  origin_point : Z
}.

(** A message pushed to a service. *)
Record push := mk_push { p_handle : Z; p_source : Z; p_session : Z; p_sz : Z }.

Definition set_near (T : timer) (n : list (list timer_node)) : timer :=
  mk_timer n (t_ T) (time T) (current T) (starttime T) (current_point T) (origin_point T).
Definition set_levels (T : timer) (t : list (list (list timer_node))) : timer :=
  mk_timer (near_ T) t (time T) (current T) (starttime T) (current_point T) (origin_point T).
Definition set_time (T : timer) (n : Z) : timer :=
  mk_timer (near_ T) (t_ T) n (current T) (starttime T) (current_point T) (origin_point T).

(** [link] and [link_clear] on a list of the first array. *)
Definition link_near (T : timer) (j : Z) (node : timer_node) : outcome timer :=
  l ← read_at (near_ T) j;
  n ← write_at (near_ T) j (l ++ [node]);
  Ret (set_near T n).

Definition clear_near (T : timer) (j : Z) : outcome (list timer_node * timer) :=
  l ← read_at (near_ T) j;
  n ← write_at (near_ T) j [];
  Ret (l, set_near T n).

(** The same on a list of level [i]. *)
Definition link_level (T : timer) (i j : Z) (node : timer_node) : outcome timer :=
  row ← read_at (t_ T) i;
  l ← read_at row j;
  row ← write_at row j (l ++ [node]);
  t ← write_at (t_ T) i row;
  Ret (set_levels T t).

Definition clear_level (T : timer) (i j : Z) : outcome (list timer_node * timer) :=
  row ← read_at (t_ T) i;
  l ← read_at row j;
  row ← write_at row j [];
  t ← write_at (t_ T) i row;
  Ret (l, set_levels T t).

(** The loop that finds the level. *)
Fixpoint find_level (n : nat) (i mask time current_time : Z) : Z :=
  match n with
  | O => i
  | S n =>
    if bool_decide (Z.lor time (mask - 1) = Z.lor current_time (mask - 1)) then i
    else find_level n (i + 1) (u32 (Z.shiftl mask TIME_LEVEL_SHIFT)) time current_time
  end.

Definition add_node (T : timer) (node : timer_node) : outcome timer :=
  let time := expire node in
  let current_time := Timer.time T in
  if bool_decide (Z.lor time TIME_NEAR_MASK = Z.lor current_time TIME_NEAR_MASK) then
    link_near T (Z.land time TIME_NEAR_MASK) node
  else
    let i := find_level 3 0 (Z.shiftl TIME_NEAR TIME_LEVEL_SHIFT) time current_time in
    link_level T i
      (Z.land (Z.shiftr time (TIME_NEAR_SHIFT + i * TIME_LEVEL_SHIFT)) TIME_LEVEL_MASK) node.

Definition timer_add (T : timer) (ev : timer_event) (time : Z) : outcome timer :=
  add_node T (mk_node (u32 (time + Timer.time T)) ev).

Fixpoint add_nodes (T : timer) (l : list timer_node) : outcome timer :=
  match l with
  | [] => Ret T
  | node :: l => T ← add_node T node; add_nodes T l
  end.

Definition move_list (T : timer) (level idx : Z) : outcome timer :=
  '(l, T) ← clear_level T level idx;
  add_nodes T l.

(** The loop of [timer_shift]; four rounds are enough for a [ct] that is not 0. *)
Fixpoint shift_loop (fuel : nat) (T : timer) (ct mask time i : Z) : outcome timer :=
  match fuel with
  | O => Crash OutOfFuel
  | S fuel =>
    if bool_decide (Z.land ct (mask - 1) = 0) then
      let idx := Z.land time TIME_LEVEL_MASK in
      if bool_decide (idx <> 0) then move_list T i idx
      else shift_loop fuel T ct (Z.shiftl mask TIME_LEVEL_SHIFT)
             (Z.shiftr time TIME_LEVEL_SHIFT) (i + 1)
    else Ret T
  end.

Definition timer_shift (T : timer) : outcome timer :=
  let ct := u32 (time T + 1) in
  let T := set_time T ct in
  if bool_decide (ct = 0) then move_list T 3 0
  else shift_loop 5 T ct TIME_NEAR (Z.shiftr ct TIME_NEAR_SHIFT) 0.

Definition dispatch_list (l : list timer_node) : list push :=
  (fun n => mk_push (ev_handle (node_event n)) 0 (ev_session (node_event n))
              (Z.shiftl PTYPE_RESPONSE HANDLE_REMOTE_SHIFT)) <$> l.

(** The loop of [timer_execute], when no other thread runs in between: a list that was
    cleared is empty at the next test. *)
Fixpoint execute_loop (fuel : nat) (T : timer) (idx : Z) (out : list push)
  : outcome (timer * list push) :=
  match fuel with
  | O => Crash OutOfFuel
  | S fuel =>
    l ← read_at (near_ T) idx;
    match l with
    | [] => Ret (T, out)
    | _ => '(l, T) ← clear_near T idx; execute_loop fuel T idx (out ++ dispatch_list l)
    end
  end.

Definition timer_execute (T : timer) : outcome (timer * list push) :=
  execute_loop 2 T (Z.land (time T) TIME_NEAR_MASK) [].

Definition timer_update (T : timer) : outcome (timer * list push) :=
  '(T, out1) ← timer_execute T;
  T ← timer_shift T;
  '(T, out2) ← timer_execute T;
  Ret (T, out1 ++ out2).

Definition timer_create_timer : timer :=
  mk_timer (replicate 256 []) (replicate 4 (replicate 64 [])) 0 0 0 0 0.

(** [pushed] is the answer of [skynet_context_push]: true when the service is gone. *)
Definition skynet_timeout (TI : timer) (pushed : bool) (handle time session : Z)
  : outcome (Z * timer * list push) :=
  if bool_decide (time = 0) then
    let m := mk_push handle 0 session (Z.shiftl PTYPE_RESPONSE HANDLE_REMOTE_SHIFT) in
    Ret (if pushed then -1 else session, TI, [m])
  else
    T ← timer_add TI (mk_event handle session) time;
    Ret (session, T, []).

Fixpoint update_times (n : nat) (T : timer) (out : list push) : outcome (timer * list push) :=
  match n with
  | O => Ret (T, out)
  | S n => '(T, o) ← timer_update T; update_times n T (out ++ o)
  end.

(** [cp] is what [gettime] reads. *)
Definition skynet_updatetime (TI : timer) (cp : Z) : outcome (timer * list push) :=
  let set_point T c s := mk_timer (near_ T) (t_ T) (time T) c s cp (origin_point T) in
  if bool_decide (cp < current_point TI) then
    Ret (set_point TI (current TI) (starttime TI), [])
  else if bool_decide (cp <> current_point TI) then
    let diff := u32 (cp - current_point TI) in
    let oc := current TI in
    let cur := u32 (oc + diff) in
    let st := if bool_decide (cur < oc) then u32 (starttime TI + 0xffffffff / 100)
              else starttime TI in
    update_times (Z.to_nat diff) (set_point TI cur st) []
  else Ret (TI, []).

(** [sec], [cs] and [point] are read from the clocks. *)
Definition skynet_timer_init (sec cs point : Z) : timer :=
  let T := timer_create_timer in
  mk_timer (near_ T) (t_ T) (time T) cs sec point point.

Definition timer_demo_run : outcome (list Z) :=
  T ← timer_add (set_time timer_create_timer 250) (mk_event 1 11) 300;
  T ← timer_add T (mk_event 2 12) 3;
  '(_, out) ← update_times 300 T [];
  Ret (map p_session out).

Example timer_demo : timer_demo_run = Ret [12; 11].
Proof. vm_compute. done. Qed.

(** ** Where a node is kept *)

(** The level at which two times first agree: 0 for the near lists, 4 for none. *)
Definition level_of (e cur : Z) : Z :=
  if bool_decide (e / 2 ^ 8 = cur / 2 ^ 8) then 0
  else if bool_decide (e / 2 ^ 14 = cur / 2 ^ 14) then 1
  else if bool_decide (e / 2 ^ 20 = cur / 2 ^ 20) then 2
  else if bool_decide (e / 2 ^ 26 = cur / 2 ^ 26) then 3
  else 4.

(** The place of a node of expiry [e] at time [cur]: a level, and an index in it. *)
Definition slot (e cur : Z) : Z * Z :=
  let lv := level_of e cur in
  (lv, if bool_decide (lv = 0) then e mod 2 ^ 8 else (e / 2 ^ (8 + (lv - 1) * 6)) mod 2 ^ 6).

(** [a | (2^k - 1) = b | (2^k - 1)] compares the bits above [k]. *)
Lemma lor_mask_eq a b k : 0 <= k ->
  Z.lor a (2 ^ k - 1) = Z.lor b (2 ^ k - 1) <-> a / 2 ^ k = b / 2 ^ k.
Proof.
  intros Hk. rewrite <- !Z.shiftr_div_pow2 by done.
  assert (Hones : 2 ^ k - 1 = Z.ones k) by (rewrite Z.ones_equiv; lia). rewrite Hones. split.
  - intros H. apply Z.bits_inj'. intros i Hi. rewrite !Z.shiftr_spec by done.
    apply (f_equal (fun z => Z.testbit z (i + k))) in H.
    rewrite !Z.lor_spec, !Z.ones_spec_high, !orb_false_r in H by lia. done.
  - intros H. apply Z.bits_inj'. intros i Hi. rewrite !Z.lor_spec.
    destruct (decide (i < k)).
    + rewrite !Z.ones_spec_low by lia. by rewrite !orb_true_r.
    + rewrite !Z.ones_spec_high, !orb_false_r by lia.
      apply (f_equal (fun z => Z.testbit z (i - k))) in H.
      rewrite !Z.shiftr_spec in H by lia. by replace (i - k + k) with i in H by lia.
Qed.

Lemma find_level_eq e cur : e / 2 ^ 8 <> cur / 2 ^ 8 ->
  find_level 3 0 (Z.shiftl TIME_NEAR TIME_LEVEL_SHIFT) e cur + 1 = level_of e cur.
Proof.
  intros Hne. unfold level_of. rewrite (bool_decide_false (e / 2 ^ 8 = _)) by done.
  cbn [find_level]. change (Z.shiftl TIME_NEAR TIME_LEVEL_SHIFT) with (2 ^ 14).
  change (u32 (Z.shiftl (2 ^ 14) TIME_LEVEL_SHIFT)) with (2 ^ 20).
  change (u32 (Z.shiftl (2 ^ 20) TIME_LEVEL_SHIFT)) with (2 ^ 26).
  rewrite (bool_decide_ext _ _ (lor_mask_eq e cur 14 ltac:(lia))),
    (bool_decide_ext _ _ (lor_mask_eq e cur 20 ltac:(lia))),
    (bool_decide_ext _ _ (lor_mask_eq e cur 26 ltac:(lia))).
  repeat case_bool_decide; done.
Qed.

Lemma level_range e cur : 0 <= level_of e cur <= 4.
Proof. unfold level_of. repeat case_bool_decide; lia. Qed.

Lemma slot_range e cur :
  (slot e cur).1 = 0 /\ 0 <= (slot e cur).2 < 256 \/
  1 <= (slot e cur).1 <= 4 /\ 0 <= (slot e cur).2 < 64.
Proof.
  unfold slot. cbn [fst snd]. pose proof (level_range e cur). case_bool_decide.
  - left. split; [done|]. apply Z.mod_pos_bound. lia.
  - right. split; [lia|]. apply Z.mod_pos_bound. lia.
Qed.

(** ** The wheel as a map from slots to lists *)

Definition wheel_shape (T : timer) : Prop :=
  length (near_ T) = 256%nat /\ length (t_ T) = 4%nat /\
  forall i row, t_ T !! i = Some row -> length row = 64%nat.

Definition slot_list (T : timer) (s : Z * Z) : list timer_node :=
  if bool_decide (s.1 = 0) then near_ T !!! Z.to_nat s.2
  else (t_ T !!! Z.to_nat (s.1 - 1)) !!! Z.to_nat s.2.

Definition valid_slot (s : Z * Z) : Prop :=
  s.1 = 0 /\ 0 <= s.2 < 256 \/ 1 <= s.1 <= 4 /\ 0 <= s.2 < 64.

(** [T'] is [T] with the list [l] in slot [s]. *)
Record updated (T T' : timer) (s : Z * Z) (l : list timer_node) : Prop := mk_updated {
  up_shape : wheel_shape T';
  up_time : time T' = time T;
  up_here : slot_list T' s = l;
  up_other s' : valid_slot s' -> s' <> s -> slot_list T' s' = slot_list T s'
}.

Lemma near_updated T j l : wheel_shape T -> 0 <= j < 256 ->
  updated T (set_near T (<[Z.to_nat j := l]> (near_ T))) (0, j) l.
Proof.
  intros (H1 & H2 & H3) Hj. split.
  - split_and!; cbn [near_ t_ set_near]; [by rewrite length_insert|done|done].
  - done.
  - unfold slot_list. cbn [fst snd]. rewrite bool_decide_true by done. cbn [near_ set_near].
    by rewrite list_lookup_total_insert, decide_True by lia.
  - intros [lv j'] Hv Hne. unfold slot_list, valid_slot in *. cbn [fst snd near_ t_ set_near] in *.
    destruct (bool_decide_reflect (lv = 0)) as [->|]; [|done].
    apply list_lookup_total_insert_ne. intros He. apply Hne. f_equal. lia.
Qed.

Lemma level_updated T i j row l : wheel_shape T -> t_ T !! Z.to_nat i = Some row ->
  0 <= i < 4 -> 0 <= j < 64 ->
  updated T (set_levels T (<[Z.to_nat i := <[Z.to_nat j := l]> row]> (t_ T))) (i + 1, j) l.
Proof.
  intros (H1 & H2 & H3) Hrow Hi Hj. pose proof (H3 _ _ Hrow) as Hl. split.
  - split_and!; cbn [near_ t_ set_levels]; [done|by rewrite length_insert|].
    intros i' row'. destruct (decide (i' = Z.to_nat i)) as [->|Hne].
    + rewrite list_lookup_insert_eq by lia. intros [= <-]. by rewrite length_insert.
    + rewrite list_lookup_insert_ne by done. apply H3.
  - done.
  - unfold slot_list. cbn [fst snd]. rewrite bool_decide_false by lia. cbn [t_ set_levels].
    replace (Z.to_nat (i + 1 - 1)) with (Z.to_nat i) by lia.
    rewrite list_lookup_total_insert, decide_True by lia.
    by rewrite list_lookup_total_insert, decide_True by lia.
  - intros [lv j'] Hv Hne. unfold slot_list, valid_slot in *. cbn [fst snd near_ t_ set_levels] in *.
    destruct (bool_decide_reflect (lv = 0)) as [|]; [done|].
    destruct (decide (lv - 1 = i)) as [<-|].
    + rewrite list_lookup_total_insert, decide_True by lia.
      rewrite list_lookup_total_insert_ne by (intros He; apply Hne; f_equal; lia).
      by rewrite (list_lookup_total_correct _ _ _ Hrow).
    + by rewrite list_lookup_total_insert_ne by lia.
Qed.

Lemma shape_row T i : wheel_shape T -> 0 <= i < 4 ->
  exists row, t_ T !! Z.to_nat i = Some row /\ length row = 64%nat.
Proof.
  intros (_ & H2 & H3) Hi. destruct (lookup_lt_is_Some_2 (t_ T) (Z.to_nat i)) as [row Hr]; [lia|].
  exists row. split; [done|]. by eapply H3.
Qed.

Lemma link_near_spec T j n : wheel_shape T -> 0 <= j < 256 ->
  exists T', link_near T j n = Ret T' /\ updated T T' (0, j) (slot_list T (0, j) ++ [n]).
Proof.
  intros Hs Hj. pose proof Hs as (H1 & _). unfold link_near.
  destruct (lookup_lt_is_Some_2 (near_ T) (Z.to_nat j)) as [l Hl]; [lia|].
  rewrite (read_at_Z _ _ l), bind_Ret, write_at_Z, bind_Ret by (done || lia).
  eexists. split; [reflexivity|]. replace (slot_list T (0, j)) with l; [by apply near_updated|].
  unfold slot_list. cbn [fst snd]. rewrite bool_decide_true by done.
  by rewrite (list_lookup_total_correct _ _ _ Hl).
Qed.

Lemma clear_near_spec T j : wheel_shape T -> 0 <= j < 256 ->
  exists T', clear_near T j = Ret (slot_list T (0, j), T') /\ updated T T' (0, j) [].
Proof.
  intros Hs Hj. pose proof Hs as (H1 & _). unfold clear_near.
  destruct (lookup_lt_is_Some_2 (near_ T) (Z.to_nat j)) as [l Hl]; [lia|].
  rewrite (read_at_Z _ _ l), bind_Ret, write_at_Z, bind_Ret by (done || lia).
  eexists. split; [|by apply near_updated].
  unfold slot_list. cbn [fst snd]. rewrite bool_decide_true by done.
  by rewrite (list_lookup_total_correct _ _ _ Hl).
Qed.

Lemma link_level_spec T i j n : wheel_shape T -> 0 <= i < 4 -> 0 <= j < 64 ->
  exists T', link_level T i j n = Ret T' /\
    updated T T' (i + 1, j) (slot_list T (i + 1, j) ++ [n]).
Proof.
  intros Hs Hi Hj. destruct (shape_row T i Hs Hi) as (row & Hr & Hlr). unfold link_level.
  pose proof Hs as (_ & H2 & _).
  destruct (lookup_lt_is_Some_2 row (Z.to_nat j)) as [l Hl]; [lia|].
  rewrite (read_at_Z _ _ row), bind_Ret, (read_at_Z row _ l), bind_Ret by (done || lia).
  rewrite write_at_Z, bind_Ret, write_at_Z, bind_Ret by lia.
  eexists. split; [reflexivity|].
  replace (slot_list T (i + 1, j)) with l; [by apply level_updated|].
  unfold slot_list. cbn [fst snd]. rewrite bool_decide_false by lia.
  replace (Z.to_nat (i + 1 - 1)) with (Z.to_nat i) by lia.
  by rewrite (list_lookup_total_correct _ _ _ Hr), (list_lookup_total_correct _ _ _ Hl).
Qed.

Lemma clear_level_spec T i j : wheel_shape T -> 0 <= i < 4 -> 0 <= j < 64 ->
  exists T', clear_level T i j = Ret (slot_list T (i + 1, j), T') /\ updated T T' (i + 1, j) [].
Proof.
  intros Hs Hi Hj. destruct (shape_row T i Hs Hi) as (row & Hr & Hlr). unfold clear_level.
  pose proof Hs as (_ & H2 & _).
  destruct (lookup_lt_is_Some_2 row (Z.to_nat j)) as [l Hl]; [lia|].
  rewrite (read_at_Z _ _ row), bind_Ret, (read_at_Z row _ l), bind_Ret by (done || lia).
  rewrite write_at_Z, bind_Ret, write_at_Z, bind_Ret by lia.
  eexists. split; [|by apply level_updated].
  unfold slot_list. cbn [fst snd]. rewrite bool_decide_false by lia.
  replace (Z.to_nat (i + 1 - 1)) with (Z.to_nat i) by lia.
  by rewrite (list_lookup_total_correct _ _ _ Hr), (list_lookup_total_correct _ _ _ Hl).
Qed.

(** A node goes to the slot of its expiry. *)
Lemma add_node_spec T n : wheel_shape T -> exists T', add_node T n = Ret T' /\
  updated T T' (slot (expire n) (time T)) (slot_list T (slot (expire n) (time T)) ++ [n]).
Proof.
  intros Hs. unfold add_node. change TIME_NEAR_MASK with (2 ^ 8 - 1).
  pose proof (slot_range (expire n) (time T)) as Hr.
  rewrite (bool_decide_ext _ _ (lor_mask_eq (expire n) (time T) 8 ltac:(lia))).
  destruct (bool_decide_reflect (expire n / 2 ^ 8 = time T / 2 ^ 8)) as [He|He].
  - assert (Hsl : slot (expire n) (time T) = (0, expire n mod 2 ^ 8)).
    { unfold slot, level_of. by rewrite bool_decide_true. }
    rewrite Hsl in *. cbn [fst snd] in Hr. rewrite land_mask by lia.
    apply link_near_spec; [done|lia].
  - pose proof (find_level_eq _ _ He) as Hf.
    set (i := find_level _ _ _ _ _) in *.
    assert (Hlv : 1 <= level_of (expire n) (time T)).
    { unfold level_of. rewrite bool_decide_false by done. repeat case_bool_decide; lia. }
    assert (Hsl : slot (expire n) (time T)
      = (i + 1, (expire n / 2 ^ (8 + i * 6)) mod 2 ^ 6)).
    { unfold slot. rewrite <- Hf. f_equal. rewrite bool_decide_false by lia.
      by replace (i + 1 - 1) with i by lia. }
    rewrite Hsl in *. cbn [fst snd] in Hr.
    assert (Hi : 0 <= i < 4) by lia.
    change TIME_LEVEL_MASK with (2 ^ 6 - 1). rewrite land_mask by lia.
    change TIME_NEAR_SHIFT with 8. change TIME_LEVEL_SHIFT with 6.
    rewrite Z.shiftr_div_pow2 by lia. apply link_level_spec; [done|done|lia].
Qed.

(** ** Moving the time *)

(** The slot that [timer_shift] empties when the time becomes [ct]. *)
Definition moved (ct : Z) : option (Z * Z) :=
  if bool_decide (ct mod 2 ^ 8 <> 0) then None
  else if bool_decide (ct mod 2 ^ 14 <> 0) then Some (1, (ct / 2 ^ 8) mod 2 ^ 6)
  else if bool_decide (ct mod 2 ^ 20 <> 0) then Some (2, (ct / 2 ^ 14) mod 2 ^ 6)
  else if bool_decide (ct mod 2 ^ 26 <> 0) then Some (3, (ct / 2 ^ 20) mod 2 ^ 6)
  else Some (4, (ct / 2 ^ 26) mod 2 ^ 6).

Section shift.
Context (c k : Z) (Hc : 0 <= c < 2 ^ 32) (Hk : 1 <= k < 2 ^ 31).

Abbreviation ct := ((c + 1) mod 2 ^ 32).
Abbreviation e := ((c + k) mod 2 ^ 32).

(** No expiry ahead is in a block the time has just left. *)
Lemma crossed_old s : s = 8 \/ s = 14 \/ s = 20 \/ s = 26 -> ct mod 2 ^ s = 0 ->
  e / 2 ^ s <> c / 2 ^ s.
Proof using Hc Hk. intros [-> |[-> |[-> | ->]]] Hs He; dlia. Qed.

(** Blocks whose boundary was not crossed compare as before. *)
Lemma not_crossed s : s = 8 \/ s = 14 \/ s = 20 \/ s = 26 -> ct mod 2 ^ s <> 0 ->
  ct / 2 ^ s = c / 2 ^ s.
Proof using Hc. intros [-> |[-> |[-> | ->]]] Hs; dlia. Qed.

Lemma agree_up x y s s' : 0 <= s <= s' -> x / 2 ^ s = y / 2 ^ s -> x / 2 ^ s' = y / 2 ^ s'.
Proof.
  intros Hs H. replace s' with (s + (s' - s)) by lia.
  rewrite Z.pow_add_r, <- !Z.div_div by lia. by rewrite H.
Qed.

Lemma multiple_down x s s' : 0 <= s <= s' -> x mod 2 ^ s' = 0 -> x mod 2 ^ s = 0.
Proof.
  intros Hs H. replace s' with (s + (s' - s)) in H by lia.
  rewrite Z.pow_add_r, Z.rem_mul_r in H by lia.
  pose proof (Z.mod_pos_bound x (2 ^ s) ltac:(lia)).
  pose proof (Z.mod_pos_bound (x / 2 ^ s) (2 ^ (s' - s)) ltac:(lia)). nia.
Qed.

(** A level and the shift of its blocks. *)
Definition level_shift (n s : Z) : Prop :=
  (n = 1 /\ s = 8) \/ (n = 2 /\ s = 14) \/ (n = 3 /\ s = 20) \/ (n = 4 /\ s = 26).

Ltac levels H := destruct H as [[-> ->]|[[-> ->]|[[-> ->]|[-> ->]]]].

(** [s] is the highest boundary that the time has reached. *)
Definition boundary (s : Z) : Prop := ct mod 2 ^ s = 0 /\ (s = 26 \/ ct mod 2 ^ (s + 6) <> 0).

Lemma boundary_exists t : t = 8 \/ t = 14 \/ t = 20 \/ t = 26 -> ct mod 2 ^ t = 0 ->
  exists n s, level_shift n s /\ t <= s /\ boundary s.
Proof.
  intros Ht H0. unfold boundary, level_shift.
  destruct (decide (ct mod 2 ^ 26 = 0)) as [H26|H26].
  { exists 4, 26. split; [lia|]. split; [lia|]. split; [done|by left]. }
  destruct (decide (ct mod 2 ^ 20 = 0)) as [H20|H20].
  { exists 3, 20. assert (t <> 26) by congruence.
    split; [lia|]. split; [lia|]. split; [done|by right]. }
  destruct (decide (ct mod 2 ^ 14 = 0)) as [H14|H14].
  { exists 2, 14. assert (t <> 26 /\ t <> 20) by (split; congruence).
    split; [lia|]. split; [lia|]. split; [done|by right]. }
  exists 1, 8. assert (t <> 26 /\ t <> 20 /\ t <> 14) by (split_and!; congruence).
  split; [lia|]. split; [lia|]. split; [by replace 8 with t by lia|by right].
Qed.

Lemma moved_boundary n s : level_shift n s -> boundary s -> moved ct = Some (n, (ct / 2 ^ s) mod 2 ^ 6).
Proof.
  intros Hn [H0 Hnext]. assert (D : forall t, 0 <= t <= s -> ct mod 2 ^ t = 0)
    by (intros t Ht; by apply (multiple_down _ t s)).
  unfold moved. levels Hn; repeat (rewrite bool_decide_false by (rewrite D by lia; lia)); [..|done];
    (destruct Hnext as [|Hnext]; [lia|]); by rewrite bool_decide_true by exact Hnext.
Qed.

(** An expiry in the block that begins at the boundary was a level below it. *)
Lemma level_boundary n s : level_shift n s -> boundary s -> e / 2 ^ s = ct / 2 ^ s ->
  level_of e c = n.
Proof using Hc Hk.
  intros Hn [H0 Hnext] He.
  assert (D : forall t, t = 8 \/ t = 14 \/ t = 20 \/ t = 26 -> t <= s -> e / 2 ^ t <> c / 2 ^ t).
  { intros t Ht Hts. apply crossed_old; [done|]. apply (multiple_down _ t s); [lia|done]. }
  assert (U : s <> 26 -> e / 2 ^ (s + 6) = c / 2 ^ (s + 6)).
  { intros Hs. destruct Hnext as [|Hnext]; [done|].
    rewrite <- (not_crossed (s + 6)) by (unfold level_shift in Hn; lia || done).
    apply (agree_up _ _ s); [unfold level_shift in Hn; lia|done]. }
  unfold level_of. levels Hn; repeat (rewrite bool_decide_false by (apply D; lia)); [..|done];
    by rewrite bool_decide_true by (apply U; lia).
Qed.

Lemma moved_own n s : level_shift n s -> boundary s -> e / 2 ^ s = ct / 2 ^ s ->
  moved ct = Some (slot e c).
Proof using Hc Hk.
  intros Hn Hb He. rewrite (moved_boundary n s Hn Hb). unfold slot.
  rewrite (level_boundary n s Hn Hb He), <- He. by levels Hn.
Qed.

Lemma blocks_stay t : moved ct <> Some (slot e c) -> t = 8 \/ t = 14 \/ t = 20 \/ t = 26 ->
  e / 2 ^ t = ct / 2 ^ t <-> e / 2 ^ t = c / 2 ^ t.
Proof using Hc Hk.
  intros Hm Ht. destruct (decide (ct mod 2 ^ t = 0)) as [H0|H0]; [|by rewrite not_crossed].
  pose proof (crossed_old t Ht H0) as Hold. split; [|done]. intros He. exfalso. apply Hm.
  destruct (boundary_exists t Ht H0) as (n & s & Hn & Hts & Hb).
  apply (moved_own n s Hn Hb). apply (agree_up _ _ t); [lia|done].
Qed.

(** A node that is not in the slot to be moved stays where it is. *)
Lemma slot_stays : moved ct <> Some (slot e c) -> slot e ct = slot e c.
Proof using Hc Hk.
  intros Hm. assert (Hle : level_of e ct = level_of e c); [|unfold slot; by rewrite Hle].
  unfold level_of.
  by rewrite (bool_decide_ext _ _ (blocks_stay 8 Hm ltac:(lia))),
    (bool_decide_ext _ _ (blocks_stay 14 Hm ltac:(lia))),
    (bool_decide_ext _ _ (blocks_stay 20 Hm ltac:(lia))),
    (bool_decide_ext _ _ (blocks_stay 26 Hm ltac:(lia))).
Qed.
End shift.

(** ** The nodes of a wheel *)

Definition all_slots : list (Z * Z) :=
  ((fun j => (0, Z.of_nat j)) <$> seq 0 256) ++
  concat ((fun i => (fun j => (Z.of_nat i, Z.of_nat j)) <$> seq 0 64) <$> seq 1 4).

Lemma all_slots_NoDup : NoDup all_slots.
Proof. refine (bool_decide_unpack _ _). vm_compute. exact I. Qed.

Lemma all_slots_valid s : s ∈ all_slots <-> valid_slot s.
Proof.
  destruct s as [lv j]. unfold all_slots, valid_slot. cbn [fst snd].
  rewrite elem_of_app, list_elem_of_fmap. split.
  - intros [(n & [= -> ->] & Hn%elem_of_seq)|H]; [lia|].
    apply list_elem_of_In, in_concat in H as (l & Hl & Hin).
    apply list_elem_of_In, list_elem_of_fmap in Hl as (i & -> & Hi%elem_of_seq).
    apply list_elem_of_In, list_elem_of_fmap in Hin as (n & [= -> ->] & Hn%elem_of_seq). lia.
  - intros [[-> Hj]|[Hlv Hj]].
    + left. exists (Z.to_nat j). split; [f_equal; lia|]. apply elem_of_seq. lia.
    + right. apply list_elem_of_In, in_concat.
      exists ((fun n => (Z.of_nat (Z.to_nat lv), Z.of_nat n)) <$> seq 0 64).
      rewrite <- !list_elem_of_In, !list_elem_of_fmap. split.
      * exists (Z.to_nat lv). split; [done|]. apply elem_of_seq. lia.
      * exists (Z.to_nat j). split; [f_equal; lia|]. apply elem_of_seq. lia.
Qed.

Definition contents (T : timer) : list timer_node := concat (slot_list T <$> all_slots).

Lemma concat_change {A B} (f f' : A -> list B) (l : list A) s :
  NoDup l -> s ∈ l -> (forall x, x ∈ l -> x <> s -> f' x = f x) ->
  concat (f' <$> l) ++ f s ≡ₚ concat (f <$> l) ++ f' s.
Proof.
  induction 1 as [|x l Hx Hl IH]; [by intros ?%not_elem_of_nil|].
  intros [->|Hs]%elem_of_cons Hf; cbn [fmap list_fmap concat].
  - assert (He : f' <$> l = f <$> l).
    { apply list_fmap_ext. intros i y Hy. apply Hf.
      - apply elem_of_cons. right. by eapply list_elem_of_lookup_2.
      - intros ->. apply Hx. by eapply list_elem_of_lookup_2. }
    rewrite He. solve_Permutation.
  - rewrite Hf by first [by apply elem_of_cons; left | by intros ->].
    rewrite <- !app_assoc. rewrite IH; [done|done|]. intros y Hy. apply Hf. by apply elem_of_cons; right.
Qed.

Lemma updated_contents T T' s l : valid_slot s -> updated T T' s l ->
  contents T' ++ slot_list T s ≡ₚ contents T ++ l.
Proof.
  intros Hv [Hs Ht Hh Ho]. unfold contents.
  rewrite (concat_change (slot_list T) (slot_list T') all_slots s);
    [by rewrite Hh|apply all_slots_NoDup|by apply all_slots_valid|].
  intros x Hx Hne. apply Ho; [by apply all_slots_valid|done].
Qed.

Lemma elem_of_contents T n : n ∈ contents T <-> exists s, valid_slot s /\ n ∈ slot_list T s.
Proof.
  unfold contents. rewrite list_elem_of_In, in_concat. split.
  - intros (l & Hl & Hn). apply list_elem_of_In, list_elem_of_fmap in Hl as (s & -> & Hs).
    exists s. split; [by apply all_slots_valid|by apply list_elem_of_In].
  - intros (s & Hs & Hn). exists (slot_list T s). rewrite <- !list_elem_of_In, list_elem_of_fmap.
    split; [|done]. exists s. by rewrite all_slots_valid.
Qed.

(** Every node is in the slot of its expiry. *)
Definition placed (T : timer) : Prop :=
  forall s n, valid_slot s -> n ∈ slot_list T s -> slot (expire n) (time T) = s.

Definition wheel_ok (T : timer) : Prop := wheel_shape T /\ placed T.

Lemma add_node_ok T n : wheel_ok T -> exists T', add_node T n = Ret T' /\ wheel_ok T' /\
  time T' = time T /\ contents T' ≡ₚ n :: contents T.
Proof.
  intros [Hs Hp]. destruct (add_node_spec T n Hs) as (T' & -> & Hu).
  set (s := slot (expire n) (time T)) in *.
  assert (Hv : valid_slot s) by apply slot_range.
  pose proof (updated_contents _ _ _ _ Hv Hu) as Hc. destruct Hu as [Hs' Ht Hh Ho].
  exists T'. split_and!; [done| |done|].
  - split; [done|]. intros s' m Hv' Hm. rewrite Ht. destruct (decide (s' = s)) as [->|Hne].
    + rewrite Hh in Hm. apply elem_of_app in Hm as [Hm|Hm]; [by apply Hp|].
      apply list_elem_of_singleton in Hm as ->. done.
    + rewrite Ho in Hm by done. by apply Hp.
  - apply (Permutation_app_inv_r (slot_list T s)). rewrite Hc, app_assoc.
    by rewrite <- Permutation_cons_append.
Qed.

Lemma add_nodes_ok l : forall T, wheel_ok T -> exists T', add_nodes T l = Ret T' /\ wheel_ok T' /\
  time T' = time T /\ contents T' ≡ₚ l ++ contents T.
Proof.
  induction l as [|n l IH]; intros T Hok; [by exists T|]. cbn [add_nodes].
  destruct (add_node_ok T n Hok) as (T1 & -> & Hok1 & Ht1 & Hc1). rewrite bind_Ret.
  destruct (IH T1 Hok1) as (T2 & -> & Hok2 & Ht2 & Hc2).
  exists T2. split_and!; [done|done|congruence|]. rewrite Hc2, Hc1.
  by rewrite <- Permutation_middle.
Qed.

(** All nodes but those of [s] are in their slots. *)
Lemma move_list_ok T lv j : wheel_shape T -> 1 <= lv <= 4 -> 0 <= j < 64 ->
  (forall s n, valid_slot s -> s <> (lv, j) -> n ∈ slot_list T s ->
     slot (expire n) (time T) = s) ->
  exists T', move_list T (lv - 1) j = Ret T' /\ wheel_ok T' /\ time T' = time T /\
    contents T' ≡ₚ contents T.
Proof.
  intros Hs Hlv Hj Hp. unfold move_list.
  destruct (clear_level_spec T (lv - 1) j Hs ltac:(lia) Hj) as (T1 & -> & Hu).
  replace (lv - 1 + 1) with lv in * by lia. rewrite bind_Ret.
  assert (Hv : valid_slot (lv, j)) by (right; simpl; lia).
  pose proof (updated_contents _ _ _ _ Hv Hu) as Hc. destruct Hu as [Hs1 Ht1 Hh1 Ho1].
  destruct (add_nodes_ok (slot_list T (lv, j)) T1) as (T2 & -> & Hok2 & Ht2 & Hc2).
  { split; [done|]. intros s n Hvs Hn. rewrite Ht1. destruct (decide (s = (lv, j))) as [->|Hne].
    - rewrite Hh1 in Hn. by apply not_elem_of_nil in Hn.
    - rewrite Ho1 in Hn by done. by apply Hp. }
  exists T2. split_and!; [done|done|congruence|].
  rewrite Hc2, Permutation_app_comm, Hc. by rewrite app_nil_r.
Qed.

(** What [timer_shift] does is what [moved] says. *)
Lemma land_ones_mod x n : 0 <= n -> Z.land x (2 ^ n - 1) = x mod 2 ^ n.
Proof. apply land_mask. Qed.

Lemma timer_shift_eq T : 0 <= time T < 2 ^ 32 ->
  let ct := (time T + 1) mod 2 ^ 32 in
  timer_shift T = match moved ct with
                  | None => Ret (set_time T ct)
                  | Some (lv, j) => move_list (set_time T ct) (lv - 1) j
                  end.
Proof.
  intros Ht ct. unfold timer_shift. change (u32 (time T + 1)) with ct. cbv zeta.
  assert (Hct : 0 <= ct < 2 ^ 32) by (apply Z.mod_pos_bound; lia).
  destruct (bool_decide_reflect (ct = 0)) as [->|Hne]; [done|].
  change TIME_NEAR with (2 ^ 8). change TIME_NEAR_SHIFT with 8.
  unfold moved. cbn [shift_loop]. change TIME_LEVEL_MASK with (2 ^ 6 - 1).
  change TIME_LEVEL_SHIFT with 6.
  change (Z.shiftl (2 ^ 8) 6) with (2 ^ 14). change (Z.shiftl (2 ^ 14) 6) with (2 ^ 20).
  change (Z.shiftl (2 ^ 20) 6) with (2 ^ 26). change (Z.shiftl (2 ^ 26) 6) with (2 ^ 32).
  rewrite !land_mask, !Z.shiftr_shiftr, !Z.shiftr_div_pow2 by lia.
  change (8 + 6) with 14. change (14 + 6) with 20. change (20 + 6) with 26.
  change (26 + 6) with 32. change (0 + 1) with 1. change (1 + 1) with 2. change (2 + 1) with 3.
  repeat (case_bool_decide; try lia; try done); exfalso; dlia.
Qed.
#[local] Opaque contents.

(** ** The timer thread among the others *)

(** Where the timer thread is in [timer_update], between two locked sections. *)
Inductive phase := FirstExecute | BeforeShift | SecondExecute.

(** [now] counts the ticks without wrapping; [added] holds the timeouts asked for, with
    the tick they are due at, and [fired] those pushed, with the tick they were pushed at. *)
Record world := mk_world {
  w_timer : timer;
  w_phase : phase;
  w_now : Z;
  w_added : list (timer_event * Z);
  w_fired : list (timer_event * Z)
}.

Definition current_slot (T : timer) : Z := Z.land (time T) TIME_NEAR_MASK.

Inductive step : world -> world -> Prop :=
| step_timeout w ev d T :
    0 < d < 2 ^ 31 -> timer_add (w_timer w) ev d = Ret T ->
    step w (mk_world T (w_phase w) (w_now w) ((ev, w_now w + d) :: w_added w) (w_fired w))
| step_take w l T :
    w_phase w <> BeforeShift ->
    clear_near (w_timer w) (current_slot (w_timer w)) = Ret (l, T) -> l <> [] ->
    step w (mk_world T (w_phase w) (w_now w) (w_added w)
              (w_fired w ++ ((fun n => (node_event n, w_now w)) <$> l)))
| step_first_done w :
    w_phase w = FirstExecute ->
    read_at (near_ (w_timer w)) (current_slot (w_timer w)) = Ret [] ->
    step w (mk_world (w_timer w) BeforeShift (w_now w) (w_added w) (w_fired w))
| step_shift w T :
    w_phase w = BeforeShift -> timer_shift (w_timer w) = Ret T ->
    step w (mk_world T SecondExecute (w_now w + 1) (w_added w) (w_fired w))
| step_second_done w :
    w_phase w = SecondExecute ->
    read_at (near_ (w_timer w)) (current_slot (w_timer w)) = Ret [] ->
    step w (mk_world (w_timer w) FirstExecute (w_now w) (w_added w) (w_fired w)).

Definition world_init : world := mk_world timer_create_timer FirstExecute 0 [] [].

(** The node of a timeout. *)
Definition node_of (x : timer_event * Z) : timer_node := mk_node (x.2 mod 2 ^ 32) x.1.

(** A timeout that is still to fire is not overdue, and due now only while the timer
    thread is pushing what is due. *)
Definition still_due (w : world) (x : timer_event * Z) : Prop :=
  w_now w <= x.2 < w_now w + 2 ^ 31 /\ (x.2 = w_now w -> w_phase w = SecondExecute).

Record world_ok (w : world) (pending : list (timer_event * Z)) : Prop := mk_world_ok {
  wo_wheel : wheel_ok (w_timer w);
  wo_time : time (w_timer w) = w_now w mod 2 ^ 32;
  wo_nodes : contents (w_timer w) ≡ₚ node_of <$> pending;
  wo_all : w_fired w ++ pending ≡ₚ w_added w;
  wo_due : Forall (still_due w) pending
}.

Lemma current_slot_mod T : current_slot T = time T mod 2 ^ 8.
Proof. unfold current_slot. change TIME_NEAR_MASK with (2 ^ 8 - 1). by apply land_mask. Qed.

Lemma current_valid T : valid_slot (0, current_slot T).
Proof. left. cbn [fst snd]. rewrite current_slot_mod. split; [done|]. apply Z.mod_pos_bound. lia. Qed.

(** A pending timeout is in the current slot exactly when it is due. *)
Lemma due_slot w pending x : world_ok w pending -> x ∈ pending ->
  (slot (expire (node_of x)) (time (w_timer w)) = (0, current_slot (w_timer w)) <-> x.2 = w_now w).
Proof.
  intros [] Hx. rewrite Forall_forall in wo_due0. destruct (wo_due0 x Hx) as [Hd _].
  rewrite current_slot_mod, wo_time0. cbn [node_of expire].
  unfold slot, level_of. split.
  - destruct (bool_decide_reflect (x.2 mod 2 ^ 32 / 2 ^ 8 = w_now w mod 2 ^ 32 / 2 ^ 8)) as [Hb|Hb].
    + rewrite bool_decide_true by done. intros [= Hm]. dlia.
    + intros [= H _]. exfalso. revert H. repeat case_bool_decide; done.
  - intros ->. by rewrite !bool_decide_true.
Qed.

Lemma node_pending w pending n : world_ok w pending -> n ∈ contents (w_timer w) ->
  exists x, n = node_of x /\ x ∈ pending.
Proof. intros [] Hn. rewrite wo_nodes0 in Hn. by apply list_elem_of_fmap in Hn. Qed.

Lemma slot_pending w pending s n : world_ok w pending -> valid_slot s ->
  n ∈ slot_list (w_timer w) s ->
  slot (expire n) (time (w_timer w)) = s /\ exists x, n = node_of x /\ x ∈ pending.
Proof.
  intros Hw Hv Hn. pose proof (wo_wheel _ _ Hw) as [_ Hp]. split; [by apply Hp|].
  apply (node_pending w); [done|]. apply elem_of_contents. by exists s.
Qed.

Lemma near_list T l : wheel_shape T -> 
  read_at (near_ T) (current_slot T) = Ret l <-> l = slot_list T (0, current_slot T).
Proof.
  intros (H1 & _). pose proof (current_valid T) as [[_ Hr]|[? _]]; [|cbn in *; lia].
  cbn [fst snd] in Hr.
  destruct (lookup_lt_is_Some_2 (near_ T) (Z.to_nat (current_slot T))) as [l' Hl']; [lia|].
  rewrite (read_at_Z _ _ l') by (done || lia).
  unfold slot_list. cbn [fst snd]. rewrite bool_decide_true by done.
  rewrite (list_lookup_total_correct _ _ _ Hl'). split; [by intros [= ->]|by intros ->].
Qed.

(** ** Every step keeps the invariant *)

Lemma shape_create : wheel_shape timer_create_timer.
Proof.
  split_and!; [reflexivity|reflexivity|].
  intros i row [-> _]%lookup_replicate. by rewrite length_replicate.
Qed.

Lemma create_empty s : valid_slot s -> slot_list timer_create_timer s = [].
Proof.
  intros Hv. unfold slot_list. destruct Hv as [[H1 H2]|[H1 H2]].
  - rewrite bool_decide_true by done. cbn [timer_create_timer near_].
    apply lookup_total_replicate_2. lia.
  - rewrite bool_decide_false by lia. cbn [timer_create_timer t_].
    rewrite lookup_total_replicate_2 by lia. apply lookup_total_replicate_2. lia.
Qed.

Lemma world_init_ok : world_ok world_init [].
Proof.
  split; try done.
  - split; [apply shape_create|]. intros s n Hv Hn. cbn in Hn.
    rewrite create_empty in Hn by done. by apply not_elem_of_nil in Hn.
Qed.

(** A time and an expiry as the ticks behind them. *)
Lemma node_ahead w (x : timer_event * Z) : w_now w < x.2 < w_now w + 2 ^ 31 ->
  x.2 mod 2 ^ 32 = (w_now w mod 2 ^ 32 + (x.2 - w_now w)) mod 2 ^ 32.
Proof. intros _. rewrite Zplus_mod_idemp_l. f_equal. lia. Qed.

Lemma ok_timeout w pending ev d : world_ok w pending -> 0 < d < 2 ^ 31 ->
  exists T, timer_add (w_timer w) ev d = Ret T /\
    world_ok (mk_world T (w_phase w) (w_now w) ((ev, w_now w + d) :: w_added w) (w_fired w))
      ((ev, w_now w + d) :: pending).
Proof.
  intros [Hok Ht Hn Ha Hd] Hdr. unfold timer_add. rewrite Ht.
  set (n := mk_node (u32 (d + w_now w mod 2 ^ 32)) ev).
  destruct (add_node_ok (w_timer w) n Hok) as (T & He & Hok' & Ht' & Hc').
  exists T. split; [done|]. split; cbn [w_timer w_now w_added w_fired w_phase]; try done.
  - congruence.
  - rewrite Hc', Hn. cbn [fmap list_fmap]. apply Permutation_refl'. f_equal.
    unfold n, node_of, u32. cbn [fst snd]. f_equal. rewrite Zplus_mod_idemp_r. f_equal. lia.
  - rewrite <- Ha. by rewrite <- Permutation_middle.
  - constructor; [|done]. unfold still_due. cbn [fst snd w_now]. lia.
Qed.

Lemma ok_take w pending l T : world_ok w pending ->
  clear_near (w_timer w) (current_slot (w_timer w)) = Ret (l, T) ->
  exists pending', world_ok (mk_world T (w_phase w) (w_now w) (w_added w)
      (w_fired w ++ ((fun n => (node_event n, w_now w)) <$> l))) pending' /\
    l = slot_list (w_timer w) (0, current_slot (w_timer w)) /\
    slot_list T (0, current_slot (w_timer w)) = [] /\ time T = time (w_timer w).
Proof.
  intros Hw Hcl. pose proof Hw as [[Hs Hp] Ht Hn Ha Hd].
  pose proof (current_valid (w_timer w)) as Hv.
  assert (Hr : 0 <= current_slot (w_timer w) < 256) by (destruct Hv as [[_ ?]|[? _]]; cbn in *; lia).
  destruct (clear_near_spec _ _ Hs Hr) as (T' & He & Hu). rewrite He in Hcl.
  injection Hcl as <- <-. set (s := (0, current_slot (w_timer w))) in *.
  pose proof (updated_contents _ _ _ _ Hv Hu) as Hc. rewrite app_nil_r in Hc.
  rewrite <- Hc in Hn. destruct Hu as [Hs' Ht' Hh Ho].
  apply Permutation_map_inv in Hn as (pp & Hpp & Hperm).
  change (map node_of pp) with (node_of <$> pp) in Hpp. symmetry in Hpp. apply fmap_app_inv in Hpp as (pr & pl & Hpr & Hpl & ->).
  exists pr. split; [|done]. split; cbn [w_timer w_now w_added w_fired w_phase].
  - split; [done|]. intros s' n Hvs Hin. rewrite Ht'. destruct (decide (s' = s)) as [->|Hne].
    + rewrite Hh in Hin. by apply not_elem_of_nil in Hin.
    + rewrite Ho in Hin by done. by apply Hp.
  - congruence.
  - by rewrite Hpr.
  - rewrite <- Ha, Hperm, <- app_assoc. apply Permutation_app_head.
    assert (Hfire : ((fun n => (node_event n, w_now w)) <$> slot_list (w_timer w) s) = pl).
    { rewrite Hpl. rewrite <- list_fmap_compose. rewrite <- (list_fmap_id pl) at 2.
      apply list_fmap_ext. intros i x Hx. cbn [compose node_of node_event].
      apply list_elem_of_lookup_2 in Hx.
      assert (Hxp : x ∈ pending) by (rewrite Hperm; apply elem_of_app; by right).
      assert (Hxs : node_of x ∈ slot_list (w_timer w) s)
        by (rewrite Hpl; by apply list_elem_of_fmap_2).
      pose proof (Hp _ _ Hv Hxs) as Hsl. apply (due_slot w pending x Hw Hxp) in Hsl.
      rewrite <- Hsl. by destruct x. }
    rewrite Hfire. apply Permutation_app_comm.
  - rewrite Forall_forall in *. intros x Hx. apply Hd. rewrite Hperm. apply elem_of_app. by left.
Qed.

Lemma ok_empty w pending x : world_ok w pending ->
  slot_list (w_timer w) (0, current_slot (w_timer w)) = [] -> x ∈ pending -> x.2 <> w_now w.
Proof.
  intros Hw He Hx Hdue. apply (due_slot w pending x Hw Hx) in Hdue.
  pose proof (wo_wheel _ _ Hw) as [_ Hp].
  assert (Hc : node_of x ∈ contents (w_timer w))
    by (rewrite (wo_nodes _ _ Hw); by apply list_elem_of_fmap_2).
  apply elem_of_contents in Hc as (s & Hv & Hin). pose proof (Hp _ _ Hv Hin) as Hs.
  rewrite Hs in Hdue. rewrite Hdue, He in Hin. by apply not_elem_of_nil in Hin.
Qed.

(** The end of a round of pushes: nothing is due any more. *)
Lemma ok_done w pending ph : world_ok w pending ->
  slot_list (w_timer w) (0, current_slot (w_timer w)) = [] ->
  world_ok (mk_world (w_timer w) ph (w_now w) (w_added w) (w_fired w)) pending.
Proof.
  intros Hw He. pose proof Hw as [Hok Ht Hn Ha Hd]. split; try done.
  rewrite Forall_forall in *. intros x Hx. destruct (Hd x Hx) as [Hr _].
  split; [done|]. cbn [w_now w_phase]. intros Hdue. by destruct (ok_empty w pending x).
Qed.

Lemma ok_shift w pending : world_ok w pending -> w_phase w = BeforeShift ->
  exists T, timer_shift (w_timer w) = Ret T /\
    world_ok (mk_world T SecondExecute (w_now w + 1) (w_added w) (w_fired w)) pending.
Proof.
  intros Hw Hph. pose proof Hw as [[Hs Hp] Ht Hn Ha Hd].
  assert (Hahead : forall x, x ∈ pending -> w_now w < x.2 < w_now w + 2 ^ 31).
  { rewrite Forall_forall in Hd. intros x Hx. destruct (Hd x Hx) as [Hr Hne].
    rewrite Hph in Hne. assert (x.2 <> w_now w) by (intros He; by specialize (Hne He)). lia. }
  set (c := time (w_timer w)) in *. assert (Hc : 0 <= c < 2 ^ 32) by (rewrite Ht; dlia).
  set (ct := (c + 1) mod 2 ^ 32). set (T0 := set_time (w_timer w) ct).
  assert (Hs0 : wheel_shape T0) by done.
  assert (Hstay : forall s n, valid_slot s -> n ∈ slot_list T0 s -> moved ct <> Some s ->
    slot (expire n) (time T0) = s).
  { intros s n Hv Hin Hm. change (slot_list T0 s) with (slot_list (w_timer w) s) in Hin.
    destruct (slot_pending w pending s n Hw Hv Hin) as [Hsl (x & -> & Hx)]. fold c in Hsl.
    pose proof (Hahead x Hx) as Hax. cbn [node_of expire] in *.
    rewrite (node_ahead w x Hax), <- Ht in *.
    change (time T0) with ct. unfold ct. rewrite slot_stays; [done|done|lia|].
    fold ct. by rewrite Hsl. }
  assert (Hfin : forall T, wheel_ok T -> time T = ct -> contents T ≡ₚ contents (w_timer w) ->
    world_ok (mk_world T SecondExecute (w_now w + 1) (w_added w) (w_fired w)) pending).
  { intros T Hok HtT HcT. split; cbn [w_timer w_now w_added w_fired w_phase]; try done.
    - rewrite HtT. unfold ct. rewrite Ht, Zplus_mod_idemp_l. done.
    - by rewrite HcT.
    - rewrite Forall_forall. intros x Hx. pose proof (Hahead x Hx).
      split; cbn [w_now w_phase]; [lia|done]. }
  rewrite timer_shift_eq by done. fold c ct T0.
  destruct (moved ct) as [[lv j]|] eqn:Em.
  - assert (Hlv : 1 <= lv <= 4 /\ 0 <= j < 64).
    { unfold moved in Em. repeat case_bool_decide; try done; injection Em as <- <-;
        (split; [lia|apply Z.mod_pos_bound; lia]). }
    destruct (move_list_ok T0 lv j Hs0) as (T & He & Hok & HtT & HcT); [lia|lia| |].
    { intros s n Hv Hne Hin. apply Hstay; [done|done|congruence]. }
    exists T. split; [done|]. apply Hfin; [done|done|]. rewrite HcT. done.
  - exists T0. split; [done|]. apply Hfin; [|done|done]. split; [done|].
    intros s n Hv Hin. by apply Hstay.
Qed.

Lemma step_ok w w' pending : step w w' -> world_ok w pending ->
  exists pending', world_ok w' pending'.
Proof.
  intros Hstep Hw. inversion Hstep; subst.
  - destruct (ok_timeout w pending ev d Hw) as (T' & He & Hok); [done|].
    assert (T = T') as -> by congruence. by eexists.
  - destruct (ok_take w pending l T Hw) as (p' & Hok & _); [done|]. by eexists.
  - exists pending. apply ok_done; [done|]. symmetry. apply near_list; [apply Hw|done].
  - destruct (ok_shift w pending Hw) as (T' & He & Hok); [done|].
    assert (T = T') as -> by congruence. by eexists.
  - exists pending. apply ok_done; [done|]. symmetry. apply near_list; [apply Hw|done].
Qed.

Lemma steps_ok w w' : rtc step w w' -> (exists p, world_ok w p) -> exists p, world_ok w' p.
Proof. induction 1 as [|w1 w2 w3 Hs _ IH]; [done|]. intros [p Hp]. apply IH. by eapply step_ok. Qed.

(** ** Properties *)

(** C27: however other threads' timeouts interleave with the locked sections of the timer
    thread, the timeouts asked for are those that fired and those still pending; each
    one that fired did so at the tick it was due at, and none that is pending is overdue
    (one can be due now only while the timer thread is pushing the current list). *)
Theorem timers_fire_on_time w : rtc step world_init w ->
  exists pending, w_fired w ++ pending ≡ₚ w_added w /\
    contents (w_timer w) ≡ₚ node_of <$> pending /\
    (forall x, x ∈ pending -> w_now w <= x.2 /\ (x.2 = w_now w -> w_phase w = SecondExecute)).
Proof.
  intros Hr. destruct (steps_ok _ _ Hr (ex_intro _ [] world_init_ok)) as [p Hw].
  exists p. split; [apply Hw|]. split; [apply Hw|]. intros x Hx.
  pose proof (wo_due _ _ Hw) as Hd. rewrite Forall_forall in Hd. destruct (Hd x Hx). split; [lia|done].
Qed.

(** A world in which a timeout of 1 has been asked for. *)
Lemma timers_fire_on_time_witness : exists w, w_added w = [(mk_event 5 6, 1)] /\
  exists pending, w_fired w ++ pending ≡ₚ w_added w /\
    contents (w_timer w) ≡ₚ node_of <$> pending /\
    (forall x, x ∈ pending -> w_now w <= x.2 /\ (x.2 = w_now w -> w_phase w = SecondExecute)).
Proof.
  destruct (ok_timeout world_init [] (mk_event 5 6) 1 world_init_ok) as (T & He & _); [lia|].
  exists (mk_world T FirstExecute 0 [(mk_event 5 6, 1)] []). split; [reflexivity|].
  apply timers_fire_on_time. apply rtc_once.
  exact (step_timeout world_init (mk_event 5 6) 1 T ltac:(lia) He).
Defined.

Definition pushes (fired : list (timer_event * Z)) : list push :=
  (fun x => mk_push (ev_handle x.1) 0 (ev_session x.1)
              (Z.shiftl PTYPE_RESPONSE HANDLE_REMOTE_SHIFT)) <$> fired.

Lemma dispatch_pushes l now : dispatch_list l = pushes ((fun n => (node_event n, now)) <$> l).
Proof. unfold dispatch_list, pushes. by rewrite <- list_fmap_compose. Qed.

(** [timer_execute] as steps: it pushes the current list and leaves it empty. *)
Lemma execute_steps w pending : world_ok w pending -> w_phase w <> BeforeShift ->
  exists T fired pending', timer_execute (w_timer w) = Ret (T, pushes fired) /\
    let w' := mk_world T (w_phase w) (w_now w) (w_added w) (w_fired w ++ fired) in
    rtc step w w' /\ world_ok w' pending' /\
    slot_list T (0, current_slot T) = [] /\
    Forall (fun x => x.2 = w_now w) fired /\
    (slot_list (w_timer w) (0, current_slot (w_timer w)) = [] -> fired = []).
Proof.
  intros Hw Hph. pose proof Hw as [[Hs Hp] _ _ _ _]. unfold timer_execute.
  change (Z.land (time (w_timer w)) TIME_NEAR_MASK) with (current_slot (w_timer w)).
  set (s := current_slot (w_timer w)).
  pose proof (proj2 (near_list (w_timer w) _ Hs) eq_refl) as Hrd. fold s in Hrd.
  cbn [execute_loop]. rewrite Hrd, bind_Ret.
  destruct (slot_list (w_timer w) (0, s)) as [|n l] eqn:El.
  - exists (w_timer w), [], pending. split; [done|]. rewrite app_nil_r.
    split; [destruct w; apply rtc_refl|]. split; [by destruct w|]. by repeat split.
  - pose proof (current_valid (w_timer w)) as Hv. fold s in Hv.
    assert (Hr : 0 <= s < 256) by (destruct Hv as [[_ ?]|[? _]]; cbn in *; lia).
    destruct (clear_near_spec (w_timer w) s Hs Hr) as (T & Hcl & Hu). rewrite El in Hcl.
    rewrite Hcl, bind_Ret.
    destruct (ok_take w pending (n :: l) T Hw Hcl) as (p' & Hok & _ & Hemp & Ht).
    fold s in Hemp. assert (Hcur : current_slot T = s) by (unfold s, current_slot; by rewrite Ht).
    pose proof (proj2 (near_list T [] (up_shape _ _ _ _ Hu))) as Hrd2. rewrite Hcur, Hemp in Hrd2.
    rewrite Hrd2, bind_Ret by done.
    exists T, ((fun n => (node_event n, w_now w)) <$> n :: l), p'.
    split; [by rewrite (dispatch_pushes _ (w_now w))|]. cbv zeta.
    split; [apply rtc_once; by apply step_take|]. split; [done|].
    split; [by rewrite Hcur|]. split; [|done].
    apply Forall_fmap, Forall_true. done.
Qed.

(** [timer_update] in a good world: what it pushes, and the run of steps that it is. *)
Lemma update_runs w p : world_ok w p -> w_phase w = FirstExecute ->
  exists T fired p', timer_update (w_timer w) = Ret (T, pushes fired) /\
    Forall (fun x => x.2 = w_now w + 1) fired /\
    let w' := mk_world T FirstExecute (w_now w + 1) (w_added w) (w_fired w ++ fired) in
    rtc step w w' /\ world_ok w' p'.
Proof.
  intros Hw Hph.
  assert (Hemp : slot_list (w_timer w) (0, current_slot (w_timer w)) = []).
  { destruct (slot_list _ _) as [|n l] eqn:El; [done|]. exfalso.
    assert (Hin : n ∈ slot_list (w_timer w) (0, current_slot (w_timer w))) by (rewrite El; left).
    destruct (slot_pending w p _ n Hw (current_valid _) Hin) as [Hsl (x & -> & Hx)].
    apply (due_slot w p x Hw Hx) in Hsl. pose proof (wo_due _ _ Hw) as Hd.
    rewrite Forall_forall in Hd. destruct (Hd x Hx) as [_ Hne]. by rewrite Hph in Hne; specialize (Hne Hsl). }
  destruct (execute_steps w p Hw ltac:(by rewrite Hph)) as (T0 & f0 & p0 & He & Hst & Hok & Hemp0 & _ & Hf0).
  rewrite (Hf0 Hemp) in *. rewrite app_nil_r in *. cbv zeta in Hst, Hok. rewrite Hph in Hst, Hok.
  unfold timer_update. rewrite He, bind_Ret.
  set (w1 := mk_world T0 BeforeShift (w_now w) (w_added w) (w_fired w)).
  assert (Hw1 : world_ok w1 p0) by exact (ok_done _ _ BeforeShift Hok Hemp0).
  assert (Hst1 : step (mk_world T0 FirstExecute (w_now w) (w_added w) (w_fired w)) w1).
  { apply (step_first_done (mk_world T0 _ _ _ _)); [done|]. apply near_list; [apply Hw1|].
    by rewrite <- Hemp0. }
  destruct (ok_shift w1 p0 Hw1 eq_refl) as (T1 & Hsh & Hw2). cbn [w1 w_timer] in Hsh.
  rewrite Hsh, bind_Ret.
  destruct (execute_steps _ _ Hw2 ltac:(done)) as (T2 & f2 & p2 & He2 & Hst2 & Hok2 & Hemp2 & Hdue & _).
  cbn [w_timer w_now w_phase w_added w_fired w1] in *. rewrite He2, bind_Ret.
  exists T2, f2, p2. split; [done|]. split; [done|]. split; [|exact (ok_done _ _ FirstExecute Hok2 Hemp2)].
  etransitivity; [exact Hst|]. eapply rtc_l; [exact Hst1|].
  eapply rtc_l; [by apply step_shift|]. etransitivity; [exact Hst2|].
  apply rtc_once. apply (step_second_done (mk_world T2 SecondExecute _ _ _)); [done|].
  apply near_list; [apply Hok2|]. by rewrite <- Hemp2.
Qed.

(** In every reachable world in which the timer thread starts [timer_update], the call
    returns, is a run of its steps to the next tick, pushes timeouts that are due at
    that tick, and leaves only later ones pending. *)
Theorem timer_update_runs w : rtc step world_init w -> w_phase w = FirstExecute ->
  exists T fired, timer_update (w_timer w) = Ret (T, pushes fired) /\
    Forall (fun x => x.2 = w_now w + 1) fired /\
    rtc step w (mk_world T FirstExecute (w_now w + 1) (w_added w) (w_fired w ++ fired)) /\
    exists pending, (w_fired w ++ fired) ++ pending ≡ₚ w_added w /\
      Forall (fun x => w_now w + 1 < x.2) pending.
Proof.
  intros Hr Hph. destruct (steps_ok _ _ Hr (ex_intro _ [] world_init_ok)) as [p Hw].
  destruct (update_runs w p Hw Hph) as (T & fired & p' & He & Hf & Hst & Hw').
  exists T, fired. split; [done|]. split; [done|]. split; [done|].
  exists p'. split; [apply Hw'|]. eapply Forall_impl; [apply (wo_due _ _ Hw')|].
  intros x [Hd Hne]. cbn in *. destruct (decide (x.2 = w_now w + 1)) as [E|]; [by specialize (Hne E)|lia].
Qed.

Lemma timer_update_runs_witness :
  exists T fired, timer_update (w_timer world_init) = Ret (T, pushes fired) /\
    Forall (fun x => x.2 = w_now world_init + 1) fired /\
    rtc step world_init
      (mk_world T FirstExecute (w_now world_init + 1) (w_added world_init)
         (w_fired world_init ++ fired)) /\
    exists pending, (w_fired world_init ++ fired) ++ pending ≡ₚ w_added world_init /\
      Forall (fun x => w_now world_init + 1 < x.2) pending.
Proof. apply timer_update_runs; [apply rtc_refl|reflexivity]. Defined.

(** Adding a timeout does not touch the clock. *)
Lemma timer_add_point T ev d T' : timer_add T ev d = Ret T' -> current_point T' = current_point T.
Proof.
  unfold timer_add, add_node, link_near, link_level. cbv zeta. case_bool_decide.
  - destruct (read_at _ _); [|done..]. rewrite bind_Ret. by destruct (write_at _ _ _); intros [= <-].
  - destruct (read_at (t_ T) _) as [row| |]; [|done..]. rewrite bind_Ret.
    destruct (read_at row _); [|done..]. rewrite bind_Ret.
    destruct (write_at row _ _); [|done..]. rewrite bind_Ret. by destruct (write_at (t_ T) _ _); intros [= <-].
Qed.

(** ** Whole ticks *)

(** Between two calls of the timer thread, [pending] are the timeouts that are to come
    after tick [now]. *)
Definition timer_holds (T : timer) (now : Z) (pending : list (timer_event * Z)) : Prop :=
  world_ok (mk_world T FirstExecute now pending []) pending.

Lemma timer_holds_intro w p : world_ok w p -> w_phase w = FirstExecute ->
  timer_holds (w_timer w) (w_now w) p.
Proof.
  intros [] Hph. split; cbn; try done.
  eapply Forall_impl; [exact wo_due0|]. intros x [? Hne]. split; [done|]. intros E.
  specialize (Hne E). congruence.
Qed.

Lemma timer_holds_later T now p : timer_holds T now p -> Forall (fun x => now < x.2 < now + 2 ^ 31) p.
Proof.
  intros [_ _ _ _ Hd]. eapply Forall_impl; [exact Hd|]. intros x [H Hne]. cbn in *.
  destruct (decide (x.2 = now)) as [E|]; [by specialize (Hne E)|lia].
Qed.

Lemma timer_add_holds T now p ev d : timer_holds T now p -> 0 < d < 2 ^ 31 ->
  exists T', timer_add T ev d = Ret T' /\ timer_holds T' now ((ev, now + d) :: p).
Proof.
  intros Hw Hd. destruct (ok_timeout _ _ ev d Hw Hd) as (T' & He & Hok). exists T'. split; [done|].
  by apply (timer_holds_intro _ _ Hok).
Qed.

(** What has fired by [n] ticks after [now], and what is left. *)
Record due_by (now n : Z) (pending fired rest : list (timer_event * Z)) : Prop := mk_due_by {
  db_all : fired ++ rest ≡ₚ pending;
  db_fired : Forall (fun x => now < x.2 <= now + n) fired;
  db_order : StronglySorted (fun x y => x.2 <= y.2) fired;
  db_rest : Forall (fun x => now + n < x.2) rest
}.

Lemma sorted_const (l : list (timer_event * Z)) t : Forall (fun x => x.2 = t) l ->
  StronglySorted (fun x y => x.2 <= y.2) l.
Proof.
  induction l as [|x l IH]; intros Hl; [constructor|]. apply Forall_cons in Hl as [Hx Hl].
  constructor; [by apply IH|]. eapply Forall_impl; [exact Hl|]. cbn. intros y ->. lia.
Qed.

Lemma update_times_holds n : forall T now p out, timer_holds T now p ->
  exists T' fired rest, update_times n T out = Ret (T', out ++ pushes fired) /\
    timer_holds T' (now + Z.of_nat n) rest /\ due_by now (Z.of_nat n) p fired rest.
Proof.
  induction n as [|n IH]; intros T now p out Hw; cbn [update_times].
  - exists T, [], p. rewrite app_nil_r, Z.add_0_r. split; [done|]. split; [done|].
    split; [done|constructor|constructor|]. eapply Forall_impl; [by apply (timer_holds_later T)|]. cbn. lia.
  - destruct (update_runs _ _ Hw eq_refl) as (T1 & f1 & p1 & He & Hf1 & _ & Hw1).
    cbn [w_timer w_now w_added w_fired app] in *. rewrite He, bind_Ret.
    destruct (IH T1 (now + 1) p1 (out ++ pushes f1)) as (T' & f2 & rest & He2 & Hw2 & [Ha Hf Ho Hr]).
    { by apply (timer_holds_intro _ _ Hw1). }
    exists T', (f1 ++ f2), rest. rewrite He2.
    replace (now + Z.of_nat (S n)) with (now + 1 + Z.of_nat n) by lia.
    split; [by unfold pushes; rewrite fmap_app, app_assoc|]. split; [done|]. split.
    + rewrite <- app_assoc, Ha. apply (wo_all _ _ Hw1).
    + apply Forall_app. split; (eapply Forall_impl; [eassumption|]); cbn; lia.
    + apply StronglySorted_app. split_and!; [|by eapply sorted_const|done].
      intros x y Hx Hy. rewrite Forall_forall in Hf1, Hf. specialize (Hf1 x Hx). specialize (Hf y Hy). lia.
    + eapply Forall_impl; [exact Hr|]. cbn. lia.
Qed.

(** [skynet_updatetime] pushes what is due by the ticks since the last reading. *)
Lemma updatetime_holds T now p cp : timer_holds T now p -> 0 <= cp - current_point T < 2 ^ 32 ->
  exists T' fired rest, skynet_updatetime T cp = Ret (T', pushes fired) /\
    timer_holds T' (now + (cp - current_point T)) rest /\
    due_by now (cp - current_point T) p fired rest.
Proof.
  intros Hw Hcp. unfold skynet_updatetime. rewrite bool_decide_false by lia.
  case_bool_decide as Hne; cbv zeta.
  - rewrite (u32_small (cp - _)) by (unfold is_u32; lia).
    match goal with |- context [update_times _ ?t _] =>
      destruct (update_times_holds (Z.to_nat (cp - current_point T)) t now p []) as (T' & f & r & He & Hh & Hd) end.
    { by destruct Hw. }
    rewrite Z2Nat.id in Hh, Hd by lia. by exists T', f, r.
  - replace (cp - current_point T) with 0 by lia.
    exists T, [], p. rewrite Z.add_0_r. split; [done|]. split; [done|].
    split; [done|constructor|constructor|]. eapply Forall_impl; [by apply (timer_holds_later T)|]. cbn. lia.
Qed.
