(* ===== verification/Server.v ===== *)
(** * Sending, dispatching and the life of services
    (src/src/sn_server.cpp, sn_server.h, sn_harbor.cpp, sn_error.cpp, sn_monitor.cpp)

    The whole state of the process is one record, [SNServer], with the handle map of
    Handle, the queues of MessageQueue and the contexts in it; a function of the core is
    a computation [srv] on it.  This is the view of one thread that is not interrupted;
    what interleaving does to the queues is the subject of Scheduler.  The code of a
    service (its [create], [init] and message callback) is a parameter.  [freed] records
    what is given back to the allocator; the objects of contexts stay in [contexts].  [TI]
    is the timer of Timer, and what it pushes goes through [ContextPush]; [env] holds the
    globals of the Lua state of sn_env.cpp. *)
From S2P Require Import Prelude MessageQueue Handle CString Timer.
From stdpp Require Import base list gmap numbers strings.
From Stdlib Require Import ZArith Lia.

Local Open Scope Z_scope.

(** ** Data *)

(** A context; [c_queue] is NULL until [Init], [c_cb] says that a callback is set and
    [c_logfile] that the log file is open. *)
Record SNContext := mk_SNContext {
  c_handle : Z;
  c_queue : option qid;
  c_cb : bool;
  c_session_id : Z;
  c_init : bool;
  c_endless : bool;
  c_logfile : bool
}.

Definition SNContext_new : SNContext := mk_SNContext 0 None false 0 false false false.

Definition set_handle_queue (h : Z) (q : qid) (c : SNContext) : SNContext :=
  mk_SNContext h (Some q) (c_cb c) (c_session_id c) (c_init c) (c_endless c) (c_logfile c).
Definition set_cb (b : bool) (c : SNContext) : SNContext :=
  mk_SNContext (c_handle c) (c_queue c) b (c_session_id c) (c_init c) (c_endless c) (c_logfile c).
Definition set_session_id (n : Z) (c : SNContext) : SNContext :=
  mk_SNContext (c_handle c) (c_queue c) (c_cb c) n (c_init c) (c_endless c) (c_logfile c).
Definition set_init (c : SNContext) : SNContext :=
  mk_SNContext (c_handle c) (c_queue c) (c_cb c) (c_session_id c) true (c_endless c) (c_logfile c).
Definition set_endless (b : bool) (c : SNContext) : SNContext :=
  mk_SNContext (c_handle c) (c_queue c) (c_cb c) (c_session_id c) (c_init c) b (c_logfile c).
Definition set_logfile (b : bool) (c : SNContext) : SNContext :=
  mk_SNContext (c_handle c) (c_queue c) (c_cb c) (c_session_id c) (c_init c) (c_endless c) b.

(** The monitor of a worker thread. *)
Record SNMonitor := mk_SNMonitor {
  m_version : Z;
  m_check_version : Z;
  m_source : Z;
  m_destination : Z
}.

Definition SNMonitor_new : SNMonitor := mk_SNMonitor 0 0 0 0.

Definition SNMonitor_Trigger (src dst : Z) (m : SNMonitor) : SNMonitor :=
  mk_SNMonitor (u32 (m_version m + 1)) (m_check_version m) src dst.

(** A name of the handle map is a string, the text of a command a list of bytes. *)
Fixpoint string_of (l : list Z) : string :=
  match l with
  | [] => EmptyString
  | c :: l => String (Ascii.ascii_of_nat (Z.to_nat c)) (string_of l)
  end.

(** The type of a message in the top byte of its size: [type << HANDLE_REMOTE_SHIFT] is
    an [int], converted to [size_t]; and the two parts again. *)
Definition type_bits (type : Z) : Z := u64 (i32 (Z.shiftl type HANDLE_REMOTE_SHIFT)).
Definition msg_type (n : Z) : Z := i32 (Z.shiftr n HANDLE_REMOTE_SHIFT).
Definition msg_size (n : Z) : Z := Z.land n HANDLE_MASK.

(** [sizeof(remote_message)]. *)
Definition REMOTE_MESSAGE_SIZE : Z := 40.

Section SERVER.
Context {G : Type} `{GlobalQueue G}.

(** [monitor] is that of the worker thread; [logger] is the static variable of
    [skynet_error], [HARBOR] and [REMOTE] are those of sn_harbor.cpp. *)
Record SNServer := mk_SNServer {
  m_pHandleMgr : SNHandleMgr;
  contexts : gmap ctxptr SNContext;
  queues : gmap qid SNMessageQueue;
  m_pMqMgr : G;
  monitor : SNMonitor;
  m_monitor_exit : Z;
  m_bExit : bool;
  TI : timer;
  env : gmap string (list Z);
  HARBOR : Z;
  REMOTE : option ctxptr;
  logger : Z;
  freed : list mem_block
}.

Definition set_handles (x : SNHandleMgr) (s : SNServer) : SNServer :=
  mk_SNServer x (contexts s) (queues s) (m_pMqMgr s) (monitor s) (m_monitor_exit s)
    (m_bExit s) (TI s) (env s) (HARBOR s) (REMOTE s) (logger s) (freed s).
Definition set_context (p : ctxptr) (c : SNContext) (s : SNServer) : SNServer :=
  mk_SNServer (m_pHandleMgr s) (<[p := c]> (contexts s)) (queues s) (m_pMqMgr s) (monitor s)
    (m_monitor_exit s) (m_bExit s) (TI s) (env s) (HARBOR s) (REMOTE s) (logger s) (freed s).
Definition set_queues (x : gmap qid SNMessageQueue) (g : G) (s : SNServer) : SNServer :=
  mk_SNServer (m_pHandleMgr s) (contexts s) x g (monitor s) (m_monitor_exit s)
    (m_bExit s) (TI s) (env s) (HARBOR s) (REMOTE s) (logger s) (freed s).
Definition set_monitor (x : SNMonitor) (s : SNServer) : SNServer :=
  mk_SNServer (m_pHandleMgr s) (contexts s) (queues s) (m_pMqMgr s) x (m_monitor_exit s)
    (m_bExit s) (TI s) (env s) (HARBOR s) (REMOTE s) (logger s) (freed s).
Definition set_monitor_exit (x : Z) (s : SNServer) : SNServer :=
  mk_SNServer (m_pHandleMgr s) (contexts s) (queues s) (m_pMqMgr s) (monitor s) x
    (m_bExit s) (TI s) (env s) (HARBOR s) (REMOTE s) (logger s) (freed s).
Definition set_exit (s : SNServer) : SNServer :=
  mk_SNServer (m_pHandleMgr s) (contexts s) (queues s) (m_pMqMgr s) (monitor s)
    (m_monitor_exit s) true (TI s) (env s) (HARBOR s) (REMOTE s) (logger s) (freed s).
Definition set_remote (x : option ctxptr) (s : SNServer) : SNServer :=
  mk_SNServer (m_pHandleMgr s) (contexts s) (queues s) (m_pMqMgr s) (monitor s)
    (m_monitor_exit s) (m_bExit s) (TI s) (env s) (HARBOR s) x (logger s) (freed s).
Definition set_logger (x : Z) (s : SNServer) : SNServer :=
  mk_SNServer (m_pHandleMgr s) (contexts s) (queues s) (m_pMqMgr s) (monitor s)
    (m_monitor_exit s) (m_bExit s) (TI s) (env s) (HARBOR s) (REMOTE s) x (freed s).
Definition add_freed (x : list mem_block) (s : SNServer) : SNServer :=
  mk_SNServer (m_pHandleMgr s) (contexts s) (queues s) (m_pMqMgr s) (monitor s)
    (m_monitor_exit s) (m_bExit s) (TI s) (env s) (HARBOR s) (REMOTE s) (logger s) (freed s ++ x).

Definition set_TI (x : timer) (s : SNServer) : SNServer :=
  mk_SNServer (m_pHandleMgr s) (contexts s) (queues s) (m_pMqMgr s) (monitor s)
    (m_monitor_exit s) (m_bExit s) x (env s) (HARBOR s) (REMOTE s) (logger s) (freed s).

(** The state of a node before any service runs. *)
Definition set_env (x : gmap string (list Z)) (s : SNServer) : SNServer :=
  mk_SNServer (m_pHandleMgr s) (contexts s) (queues s) (m_pMqMgr s) (monitor s)
    (m_monitor_exit s) (m_bExit s) (TI s) x (HARBOR s) (REMOTE s) (logger s) (freed s).

(** The clocks are read by [skynet_timer_init]. *)
Definition SNServer_new (harbor : Z) (T : timer) (g : G) : SNServer :=
  mk_SNServer (SNHandleMgr_new harbor) ∅ ∅ g SNMonitor_new 0 false T ∅
    (u32 (Z.shiftl (u32 harbor) HANDLE_REMOTE_SHIFT)) None 0 [].

(** ** Computations on the state *)

Definition srv (A : Type) : Type := SNServer -> outcome (A * SNServer).

#[global] Instance srv_ret : MRet srv := fun A a s => Ret (a, s).
#[global] Instance srv_bind : MBind srv := fun A B f m s => '(a, s) ← m s; f a s.
#[global] Instance srv_fmap : FMap srv := fun A B f m s => '(a, s) ← m s; Ret (f a, s).

Definition get : srv SNServer := fun s => Ret (s, s).
Definition modify (f : SNServer -> SNServer) : srv unit := fun s => Ret (tt, f s).
Definition crash {A} (f : fault) : srv A := fun _ => Crash f.
Definition lift {A} (o : outcome A) : srv A := fun s => a ← o; Ret (a, s).
Definition require (b : bool) : srv unit := if b then mret tt else crash AssertFailed.

(** [sn_free]. *)
Definition sn_free (data : buffer_ptr) : srv unit :=
  match data with Some b => modify (add_freed [b]) | None => mret tt end.

(** Following a pointer to a context, or to a queue. *)
Definition context_of (p : ctxptr) : srv SNContext :=
  s ← get;
  match contexts s !! p with Some c => mret c | None => crash UseAfterFree end.

Definition queue_of (q : qid) : srv SNMessageQueue :=
  s ← get;
  match queues s !! q with Some mq => mret mq | None => crash UseAfterFree end.

Definition put_queue (q : qid) (mq : SNMessageQueue) : srv unit :=
  modify (fun s => set_queues (<[q := mq]> (queues s)) (m_pMqMgr s) s).

(** The queue of a context; the pointer is NULL before [Init]. *)
Definition SNContext_MessageQueue (p : ctxptr) : srv qid :=
  c ← context_of p;
  match c_queue c with Some q => mret q | None => crash UseAfterFree end.

(** ** Contexts *)

Definition SNContext_Push (p : ctxptr) (msg : sn_message) : srv unit :=
  q ← SNContext_MessageQueue p;
  mq ← queue_of q;
  modify (fun s =>
    let '(mq', g) := SNMessageQueue_Push q msg mq (m_pMqMgr s) in
    set_queues (<[q := mq']> (queues s)) g s).

Definition SNContext_Push_data (p : ctxptr) (msg : buffer_ptr) (n src type session : Z) : srv unit :=
  SNContext_Push p (mk_sn_message src session msg (Z.lor n (type_bits type))).

(** [++m_session_id] is an atomic increment, which wraps. *)
Definition SNContext_NewSession (p : ctxptr) : srv Z :=
  c ← context_of p;
  let session := i32 (c_session_id c + 1) in
  if bool_decide (session <= 0) then
    _ ← modify (set_context p (set_session_id 1 c)); mret 1
  else
    _ ← modify (set_context p (set_session_id session c)); mret session.

Definition skynet_callback (p : ctxptr) (cb : bool) : srv unit :=
  c ← context_of p; modify (set_context p (set_cb cb c)).

(** ** Sending *)

(** -1 when no service has the handle. *)
Definition ContextPush (handle : Z) (msg : sn_message) : srv Z :=
  s ← get;
  match SNHandleMgr_FindContext (m_pHandleMgr s) handle with
  | None => mret (-1)
  | Some p => _ ← SNContext_Push p msg; mret 0
  end.

(** The text of the message is formatted; it goes to the service of the name "logger",
    which is looked up until it is found. *)
Definition skynet_error (context : option ctxptr) (text : list Z) : srv unit :=
  s ← get;
  let logger := if bool_decide (logger s = 0)
                then SNHandleMgr_FindName (m_pHandleMgr s) "logger" else logger s in
  _ ← modify (set_logger logger);
  if bool_decide (logger = 0) then mret tt
  else
    src ← match context with None => mret 0 | Some p => c_handle <$> context_of p end;
    _ ← ContextPush logger (mk_sn_message src 0 (Some (Text (text ++ [0]))) (Z.of_nat (length text)));
    mret tt.

Definition skynet_harbor_message_isremote (handle : Z) (s : SNServer) : bool :=
  let h := Z.land handle (Z.lxor 0xffffffff HANDLE_MASK) in
  bool_decide (h <> HARBOR s) && bool_decide (h <> 0).

Definition skynet_harbor_send (name : list Z) (handle : Z) (message : option (list Z)) (n : Z)
    (src session : Z) : srv unit :=
  s ← get;
  _ ← require (bool_decide (HARBOR s <> INVALID_HANDLE));
  let type := msg_type n in
  let n := msg_size n in
  _ ← require (bool_decide (type <> PTYPE_SYSTEM) && bool_decide (type <> PTYPE_HARBOR));
  match REMOTE s with
  | None => crash AssertFailed
  | Some p => SNContext_Push_data p (Some (Rmsg name handle message n)) REMOTE_MESSAGE_SIZE src type session
  end.

Definition skynet_harbor_start (p : ctxptr) : srv unit := modify (set_remote (Some p)).
Definition skynet_harbor_exit : srv unit := modify (set_remote None).

(** The session, the data and the size that a message gets. *)
Definition _filter_args (context : option ctxptr) (type session : Z) (data : option (list Z)) (n : Z)
  : srv (Z * option (list Z) * Z) :=
  let needcopy := bool_decide (Z.land type PTYPE_TAG_DONTCOPY = 0) in
  let allocsession := bool_decide (Z.land type PTYPE_TAG_ALLOCSESSION <> 0) in
  let type := Z.land type 0xff in
  session ← (if allocsession then
               _ ← require (bool_decide (session = 0));
               match context with None => crash UseAfterFree | Some p => SNContext_NewSession p end
             else mret session);
  data ← (match data with
          | Some text =>
            if needcopy then msg ← lift (read_bytes text 0 n); mret (Some (msg ++ [0]))
            else mret (Some text)
          | None => mret None
          end);
  mret (session, data, Z.lor n (type_bits type)).

Definition the_handle (context : option ctxptr) : srv Z :=
  match context with None => crash UseAfterFree | Some p => c_handle <$> context_of p end.

Definition too_large (destination n : Z) : list Z :=
  bytes_of "The message to " ++ print_hex destination ++ bytes_of " is too large (sz = " ++
  print_int n ++ bytes_of ")".

(** [n] is the [sz] of the caller, and [data] the text it points to.  The name of a
    message to a handle is memory of [malloc], which the harbor does not read. *)
Definition skynet_send (context : option ctxptr) (source destination type session : Z)
    (data : option (list Z)) (n : Z) : srv Z :=
  if bool_decide (Z.land n HANDLE_MASK <> n) then
    _ ← skynet_error context (too_large destination n);
    _ ← sn_free (Text <$> data);
    mret (-1)
  else
    '(session, data, n) ← _filter_args context type session data n;
    source ← (if bool_decide (source = 0) then the_handle context else mret source);
    if bool_decide (destination = 0) then mret session
    else
      s ← get;
      if skynet_harbor_message_isremote destination s then
        _ ← skynet_harbor_send (replicate 16 0) destination data n source session;
        mret session
      else
        r ← ContextPush destination (mk_sn_message source session (Text <$> data) n);
        if bool_decide (r <> 0) then _ ← sn_free (Text <$> data); mret (-1)
        else mret session.

(** Up to 16 bytes of the name; the rest is filled with zeros. *)
Fixpoint copy_name (n : nat) (addr : list Z) : list Z :=
  match n with
  | O => []
  | S n => match addr with c :: addr => c :: copy_name n addr | [] => 0 :: copy_name n [] end
  end.

(** [addr] is the C string without its NUL. *)
Definition skynet_sendname (context : option ctxptr) (source : Z) (addr : list Z)
    (type session : Z) (data : option (list Z)) (n : Z) : srv Z :=
  source ← (if bool_decide (source = 0) then the_handle context else mret source);
  match addr with
  | 58 :: addr =>
    skynet_send context source (u32 (strtoul16 addr)) type session data n
  | 46 :: addr =>
    s ← get;
    let des := SNHandleMgr_FindName (m_pHandleMgr s) (string_of addr) in
    if bool_decide (des = 0) then
      _ ← (if bool_decide (Z.land type PTYPE_TAG_DONTCOPY <> 0) then sn_free (Text <$> data)
           else mret tt);
      mret (-1)
    else skynet_send context source des type session data n
  | _ =>
    '(session, data, n) ← _filter_args context type session data n;
    _ ← skynet_harbor_send (copy_name 16 addr) 0 data n source session;
    mret session
  end.

(** ** The timer *)

(** [skynet_context_push] of what the timer sends; a message without data for a service
    that is gone leaves nothing behind. *)
Fixpoint push_timeouts (l : list push) : srv unit :=
  match l with
  | [] => mret tt
  | x :: l =>
    _ ← ContextPush (p_handle x) (mk_sn_message (p_source x) (p_session x) None (p_sz x));
    push_timeouts l
  end.

(** [skynet_timeout] with the service map behind its [skynet_context_push]. *)
Definition server_timeout (handle time session : Z) : srv Z :=
  s ← get;
  let gone := bool_decide (SNHandleMgr_FindContext (m_pHandleMgr s) handle = None) in
  '(r, T, ps) ← lift (skynet_timeout (TI s) gone handle time session);
  _ ← modify (set_TI T);
  _ ← push_timeouts ps;
  mret r.

Definition time_diff_text (cp point : Z) : list Z :=
  bytes_of "time diff error: change from " ++ print_int cp ++ bytes_of " to " ++ print_int point.

(** [skynet_updatetime] at a reading of the clock. *)
Definition server_updatetime (cp : Z) : srv unit :=
  s ← get;
  let point := current_point (TI s) in
  _ ← (if bool_decide (cp < point) then skynet_error None (time_diff_text cp point) else mret tt);
  s ← get;
  '(T, ps) ← lift (skynet_updatetime (TI s) cp);
  _ ← modify (set_TI T);
  push_timeouts ps.

(** ** Dropping messages *)

(** [d] is the handle of the service whose messages are dropped. *)
Definition drop_message (d : Z) (msg : sn_message) : srv unit :=
  _ ← sn_free (data msg);
  _ ← require (bool_decide (d <> 0));
  _ ← skynet_send None d (source msg) PTYPE_ERROR 0 None 0;
  mret tt.

(** [SNMessageQueue::Release] with [drop_message]: [fuel] bounds the rounds, of which
    there is no limit in the code. *)
Fixpoint drop_queue_messages (fuel : nat) (d : Z) (q : qid) : srv unit :=
  mq ← queue_of q;
  '(m, mq) ← lift (SNMessageQueue_Pop mq false);
  _ ← put_queue q mq;
  match m with
  | None => mret tt
  | Some msg =>
    match fuel with
    | O => crash OutOfFuel
    | S fuel => _ ← drop_message d msg; drop_queue_messages fuel d q
    end
  end.

Definition delete_queue (q : qid) : srv unit :=
  modify (fun s => set_queues (delete q (queues s)) (m_pMqMgr s) s).

(** [pQueue->Release(drop_message, &d); delete pQueue;] with enough rounds for the
    messages that are there. *)
Definition release_queue (d : Z) (q : qid) : srv unit :=
  mq ← queue_of q;
  _ ← drop_queue_messages (length (m_queue mq)) d q;
  delete_queue q.

(** ** Dispatching *)

Definition PushGlobal (q : qid) : srv unit :=
  mq ← queue_of q;
  _ ← require (m_bInGlobal mq);
  modify (fun s => set_queues (queues s) (gq_push q (m_pMqMgr s)) s).

Definition PopGlobal : srv (option qid) := fun s =>
  match gq_pop (m_pMqMgr s) with
  | None => Ret (None, s)
  | Some (q, g) => Ret (Some q, set_queues (queues s) g s)
  end.

Definition Trigger (src dst : Z) : srv unit :=
  modify (fun s => set_monitor (SNMonitor_Trigger src dst (monitor s)) s).

(** A context of [SNMonitor::Check] that is called while a message is dispatched; the
    version is compared as the [int] it was stored as. *)
Definition SNServer_Endless (handle : Z) : srv unit :=
  s ← get;
  match SNHandleMgr_FindContext (m_pHandleMgr s) handle with
  | None => mret tt
  | Some p => c ← context_of p; modify (set_context p (set_endless true c))
  end.

(** "%08x" *)
Definition hex8 (n : Z) : list Z :=
  let d := print_hex n in replicate (8 - length d) 48 ++ d.

Definition endless_text (m : SNMonitor) : list Z :=
  bytes_of "A message from [ :" ++ hex8 (m_source m) ++ bytes_of " ] to [ :" ++
  hex8 (m_destination m) ++ bytes_of " ] maybe in an endless loop (version = " ++
  print_int (i32 (m_version m)) ++ bytes_of ")".

Definition SNMonitor_Check : srv unit :=
  s ← get;
  let m := monitor s in
  if bool_decide (m_version m = u32 (m_check_version m)) then
    if bool_decide (m_destination m <> 0) then
      _ ← SNServer_Endless (m_destination m);
      skynet_error None (endless_text m)
    else mret tt
  else modify (set_monitor (mk_SNMonitor (m_version m) (i32 (m_version m)) (m_source m) (m_destination m))).

Section SERVICES.

(** The message callback of a service: its state of the process and what it returns. *)
Context (callback : ctxptr -> Z -> Z -> Z -> buffer_ptr -> Z -> srv Z).

(** The log file, when there is one, is written. *)
Definition DispatchMessage (p : ctxptr) (msg : sn_message) : srv unit :=
  c ← context_of p;
  if negb (c_cb c) then sn_free (data msg)
  else
    _ ← require (c_init c);
    r ← callback p (msg_type (sz msg)) (session msg) (source msg) (data msg) (msg_size (sz msg));
    if bool_decide (r = 0) then sn_free (data msg) else mret tt.

Definition overload_text (n : Z) : list Z :=
  bytes_of "May overload, message queue length = " ++ print_int n.

(** The [for] of [DispatchMessageQueue] from round [i]; true when the queue was found
    empty.  A round takes at most the messages that are there: [fuel] bounds [n - i]. *)
Fixpoint dispatch_loop (fuel : nat) (p : ctxptr) (q : qid) (weight i n : Z) : srv bool :=
  if negb (bool_decide (i < n)) then mret false
  else
    match fuel with
    | O => crash OutOfFuel
    | S fuel =>
      mq ← queue_of q;
      '(m, mq) ← lift (SNMessageQueue_Pop mq true);
      _ ← put_queue q mq;
      match m with
      | None =>
        _ ← require (negb (m_bInGlobal mq));
        mret true
      | Some msg =>
        let n := if bool_decide (i = 0) && bool_decide (0 <= weight)
                 then Z.shiftr (SNMessageQueue_Length mq) weight else n in
        let '(overload, mq) := SNMessageQueue_Overload mq in
        _ ← put_queue q mq;
        _ ← (if bool_decide (overload <> 0) then skynet_error (Some p) (overload_text overload)
             else mret tt);
        _ ← Trigger (source msg) (m_handle mq);
        _ ← DispatchMessage p msg;
        _ ← Trigger 0 0;
        dispatch_loop fuel p q weight (i + 1) n
      end
    end.

(** The queue to serve next; [pMsgQueue] is the one the worker holds. *)
Definition DispatchMessageQueue (pMsgQueue : option qid) (weight : Z) : srv (option qid) :=
  held ← match pMsgQueue with None => PopGlobal | Some q => mret (Some q) end;
  match held with
  | None => mret None
  | Some q =>
    mq ← queue_of q;
    let handle := m_handle mq in
    s ← get;
    match SNHandleMgr_FindContext (m_pHandleMgr s) handle with
    | None => _ ← release_queue handle q; PopGlobal
    | Some p =>
      empty ← dispatch_loop (S (length (m_queue mq))) p q weight 0 1;
      if empty : bool then PopGlobal
      else
        mq ← queue_of q;
        _ ← require (m_bInGlobal mq);
        q' ← SNContext_MessageQueue p;
        _ ← require (bool_decide (q = q'));
        nq ← PopGlobal;
        match nq with
        | None => mret (Some q)
        | Some nq => _ ← PushGlobal q; mret (Some nq)
        end
    end
  end.

(** [SNContext::DispatchAll], [fuel] messages at most. *)
Fixpoint DispatchAll (fuel : nat) (p : ctxptr) : srv unit :=
  q ← SNContext_MessageQueue p;
  mq ← queue_of q;
  '(m, mq) ← lift (SNMessageQueue_Pop mq false);
  _ ← put_queue q mq;
  match m with
  | None => mret tt
  | Some msg =>
    match fuel with
    | O => crash OutOfFuel
    | S fuel => _ ← DispatchMessage p msg; DispatchAll fuel p
    end
  end.
End SERVICES.

(** ** Launching and ending services *)

Section MODULES.

(** [module_create]: the module is found and its [create] answers an instance;
    [module_init]: its [init] of a context with a parameter, 0 for success. *)
Context (module_create : list Z -> bool).
Context (module_init : list Z -> ctxptr -> option (list Z) -> srv Z).

Definition launch_text (name : list Z) (param : option (list Z)) : list Z :=
  bytes_of "LAUNCH " ++ name ++ bytes_of " " ++ default [] param.

(** The handle of a context, as [Remove] reads it. *)
Definition Handle_in (s : SNServer) (p : ctxptr) : Z :=
  match contexts s !! p with Some c => c_handle c | None => 0 end.

Definition handle_remove (handle : Z) : srv (option ctxptr) := fun s =>
  let '(r, m) := SNHandleMgr_Remove (Handle_in s) (m_pHandleMgr s) handle in
  Ret (r, set_handles m s).

Definition handle_register (p : ctxptr) : srv Z := fun s =>
  '(h, m) ← SNHandleMgr_Register (m_pHandleMgr s) p; Ret (h, set_handles m s).

(** New objects get addresses that are not in use. *)
Definition new_context : srv ctxptr := fun s =>
  let p := fresh (dom (contexts s)) in Ret (p, set_context p SNContext_new s).

Definition new_queue (handle : Z) : srv qid := fun s =>
  let q := fresh (dom (queues s)) in
  Ret (q, set_queues (<[q := SNMessageQueue_new handle]> (queues s)) (m_pMqMgr s) s).

Definition SNContext_Init (name : list Z) (p : ctxptr) (q : qid) (handle : Z) (param : option (list Z))
  : srv bool :=
  c ← context_of p;
  _ ← modify (set_context p (set_handle_queue handle q c));
  r ← module_init name p param;
  if bool_decide (r = 0) then
    c ← context_of p;
    _ ← modify (set_context p (set_init c));
    mret true
  else mret false.

Definition NewContext (name : list Z) (param : option (list Z)) : srv (option ctxptr) :=
  if negb (module_create name) then mret None
  else
    p ← new_context;
    handle ← handle_register p;
    q ← new_queue handle;
    ok ← SNContext_Init name p q handle param;
    if ok : bool then
      _ ← PushGlobal q;
      _ ← skynet_error (Some p) (launch_text name param);
      mret (Some p)
    else
      _ ← skynet_error (Some p) (bytes_of "FAILED launch " ++ name);
      _ ← handle_remove handle;
      _ ← release_queue handle q;
      mret None.
End MODULES.

Definition ForceInGlobal (p : ctxptr) : srv unit :=
  q ← SNContext_MessageQueue p;
  mq ← queue_of q;
  modify (fun s =>
    let '(mq', g) := SNMessageQueue_ForceInGlobal q mq (m_pMqMgr s) in
    set_queues (<[q := mq']> (queues s)) g s).

(** The services of [LoopAll], in the order of the map; the walk has a lock, and
    nothing it calls changes the map.  [fuel] bounds the messages dropped of one. *)
Fixpoint release_all (fuel : nat) (ps : list ctxptr) : srv unit :=
  match ps with
  | [] => mret tt
  | p :: ps =>
    q ← SNContext_MessageQueue p;
    mq ← queue_of q;
    _ ← drop_queue_messages fuel (m_handle mq) q;
    _ ← ForceInGlobal p;
    release_all fuel ps
  end.

(** The part of [Release] that works on the queues and the handle map. *)
Definition SNServer_Release (fuel : nat) : srv unit :=
  _ ← skynet_harbor_exit;
  s ← get;
  _ ← release_all fuel (snd <$> map_to_list (m_slot (m_pHandleMgr s)));
  modify (fun s => set_handles (SNHandleMgr_RemoveAll (m_pHandleMgr s)) s).

(* ------------------------------------------------------------------ *)
(** ** Lemmas *)

(** *** Steps of a computation *)

Lemma bind_step {A B} (m : srv A) (f : A -> srv B) s a s' :
  m s = Ret (a, s') -> (x ← m; f x) s = f a s'.
Proof. intros E. unfold mbind, srv_bind. by rewrite E. Qed.

Lemma bind_crash {A B} (m : srv A) (f : A -> srv B) s e :
  m s = Crash e -> (x ← m; f x) s = Crash e.
Proof. intros E. unfold mbind, srv_bind. by rewrite E. Qed.

Lemma bind_bind {A B C} (m : srv A) (f : A -> srv B) (g : B -> srv C) s :
  (y ← (x ← m; f x); g y) s = (x ← m; y ← f x; g y) s.
Proof. unfold mbind, srv_bind, outcome_bind. by destruct (m s) as [[]| |]. Qed.

Lemma bind_ext {A B} (m : srv A) (f g : A -> srv B) s :
  (forall a s', f a s' = g a s') -> (x ← m; f x) s = (x ← m; g x) s.
Proof. intros He. unfold mbind, srv_bind, outcome_bind. destruct (m s) as [[a s']| |]; [apply He|done..]. Qed.

Lemma bind_get {A} (f : SNServer -> srv A) s : (x ← get; f x) s = f s s.
Proof. reflexivity. Qed.
Lemma bind_mret {A B} (a : A) (f : A -> srv B) s : (x ← mret a; f x) s = f a s.
Proof. reflexivity. Qed.
Lemma bind_modify {A} g (f : unit -> srv A) s : (x ← modify g; f x) s = f tt (g s).
Proof. reflexivity. Qed.
Lemma bind_require {A} b (f : unit -> srv A) s :
  (x ← require b; f x) s = if b then f tt s else Crash AssertFailed.
Proof. by destruct b. Qed.
Lemma bind_lift {A B} (o : outcome A) (f : A -> srv B) s a :
  o = Ret a -> (x ← lift o; f x) s = f a s.
Proof. by intros ->. Qed.

Lemma context_of_Some p c s : contexts s !! p = Some c -> context_of p s = Ret (c, s).
Proof. intros E. unfold context_of. by rewrite bind_get, E. Qed.

Lemma queue_of_Some q mq s : queues s !! q = Some mq -> queue_of q s = Ret (mq, s).
Proof. intros E. unfold queue_of. by rewrite bind_get, E. Qed.

Lemma queue_of_None q s : queues s !! q = None -> queue_of q s = Crash UseAfterFree.
Proof. intros E. unfold queue_of. by rewrite bind_get, E. Qed.

Lemma MessageQueue_Some p c q s :
  contexts s !! p = Some c -> c_queue c = Some q -> SNContext_MessageQueue p s = Ret (q, s).
Proof.
  intros Hc Hq. unfold SNContext_MessageQueue.
  rewrite (bind_step _ _ _ _ _ (context_of_Some _ _ _ Hc)). by rewrite Hq.
Qed.

(** *** The type in the size *)

Definition i8 (n : Z) : Z := (n + 128) mod 256 - 128.

Lemma i8_small n : 0 <= n < 128 -> i8 n = n.
Proof. intros. unfold i8. rewrite Z.mod_small by lia. lia. Qed.

Lemma i32_shifted ty : i32 (ty * 2 ^ 24) = i8 ty * 2 ^ 24.
Proof.
  unfold i32, i8. replace (ty * 2 ^ 24 + 2 ^ 31) with ((ty + 128) * 2 ^ 24) by lia.
  change (2 ^ 32) with (256 * 2 ^ 24). rewrite Z.mul_mod_distr_r by lia. lia.
Qed.

Lemma type_bits_eq ty : type_bits ty = (i8 ty mod 2 ^ 40) * 2 ^ 24.
Proof.
  unfold type_bits, HANDLE_REMOTE_SHIFT, u64. rewrite Z.shiftl_mul_pow2 by lia.
  rewrite i32_shifted. change (2 ^ 64) with (2 ^ 40 * 2 ^ 24). by rewrite Z.mul_mod_distr_r by lia.
Qed.

(** What a message of size [n] and type [ty] looks like to the receiver. *)
Lemma sz_split ty n : 0 <= n < 2 ^ 24 ->
  msg_type (Z.lor n (type_bits ty)) = i8 ty /\ msg_size (Z.lor n (type_bits ty)) = n.
Proof.
  intros Hn. rewrite type_bits_eq.
  rewrite <- (Z.shiftl_mul_pow2 _ 24), lor_shiftl_add by lia.
  unfold msg_type, HANDLE_REMOTE_SHIFT. set (k := i8 ty mod 2 ^ 40).
  change (msg_size ?x) with (handle_local x). rewrite handle_local_mod, shiftr_div by lia.
  rewrite Z.div_add, Z.div_small, Z.mod_add, Z.mod_small by lia. split; [|done].
  assert (-128 <= i8 ty < 128) by (unfold i8; dlia). subst k. unfold i32. dlia.
Qed.

Lemma fits_size n : 0 <= n < 2 ^ 24 -> Z.land n HANDLE_MASK = n.
Proof. intros. change (handle_local n = n). rewrite handle_local_mod. by apply Z.mod_small. Qed.

Lemma type_byte type : 0 <= Z.land type 0xff < 256.
Proof. change 0xff with 255. rewrite land_255. dlia. Qed.

(** *** Live services *)

(** Handle [h] finds context [p] with queue [q]. *)
Record live (s : SNServer) (h : Z) (p : ctxptr) (c : SNContext) (q : qid) (mq : SNMessageQueue) : Prop := {
  live_find : SNHandleMgr_FindContext (m_pHandleMgr s) h = Some p;
  live_context : contexts s !! p = Some c;
  live_queue : c_queue c = Some q;
  live_mq : queues s !! q = Some mq
}.

Definition push_to (q : qid) (mq : SNMessageQueue) (msg : sn_message) (s : SNServer) : SNServer :=
  let '(mq', g) := SNMessageQueue_Push q msg mq (m_pMqMgr s) in
  set_queues (<[q := mq']> (queues s)) g s.

Lemma SNContext_Push_live s h p c q mq msg :
  live s h p c q mq -> SNContext_Push p msg s = Ret (tt, push_to q mq msg s).
Proof.
  intros [_ Hc Hq Hmq]. unfold SNContext_Push.
  rewrite (bind_step _ _ _ _ _ (MessageQueue_Some _ _ _ _ Hc Hq)).
  by rewrite (bind_step _ _ _ _ _ (queue_of_Some _ _ _ Hmq)).
Qed.

Lemma ContextPush_live s h p c q mq msg :
  live s h p c q mq -> ContextPush h msg s = Ret (0, push_to q mq msg s).
Proof.
  intros Hl. unfold ContextPush. rewrite bind_get, (live_find _ _ _ _ _ _ Hl).
  by rewrite (bind_step _ _ _ _ _ (SNContext_Push_live _ _ _ _ _ _ _ Hl)).
Qed.

Lemma ContextPush_gone s h msg :
  SNHandleMgr_FindContext (m_pHandleMgr s) h = None -> ContextPush h msg s = Ret (-1, s).
Proof. intros E. unfold ContextPush. by rewrite bind_get, E. Qed.

(** What the push of a message changes. *)
Lemma push_to_spec q mq msg s : queues s !! q = Some mq ->
  exists mq', queues (push_to q mq msg s) = <[q := mq']> (queues s) /\
    m_queue mq' = m_queue mq ++ [msg] /\ m_bInGlobal mq' = true /\ m_handle mq' = m_handle mq /\
    m_overload_threshold mq' = m_overload_threshold mq.
Proof.
  intros Hmq. unfold push_to, SNMessageQueue_Push, enqueue. cbn [m_bInGlobal].
  destruct (m_bInGlobal mq) eqn:E; eexists; cbn; done.
Qed.

(** The rest of the state is kept: the frame of a push. *)
Lemma push_to_frame q mq msg s : exists x g, push_to q mq msg s = set_queues x g s.
Proof. unfold push_to. destruct (SNMessageQueue_Push _ _ _ _). eauto. Qed.

(** *** What a message is sent with *)

Definition next_session (n : Z) : Z :=
  if bool_decide (i32 (n + 1) <= 0) then 1 else i32 (n + 1).

Definition allocates (type : Z) : bool := bool_decide (Z.land type PTYPE_TAG_ALLOCSESSION <> 0).

Definition sent_session (type session : Z) (c : SNContext) : Z :=
  if allocates type then next_session (c_session_id c) else session.

Definition sent_context (type : Z) (p : ctxptr) (c : SNContext) (s : SNServer) : SNServer :=
  if allocates type then set_context p (set_session_id (next_session (c_session_id c)) c) s else s.

(** A copy has a NUL behind it. *)
Definition sent_text (type : Z) (text : list Z) : list Z :=
  if bool_decide (Z.land type PTYPE_TAG_DONTCOPY = 0) then text ++ [0] else text.

Definition sent_source (source : Z) (c : SNContext) : Z :=
  if bool_decide (source = 0) then c_handle c else source.

Lemma NewSession_spec s p c : contexts s !! p = Some c ->
  SNContext_NewSession p s =
    Ret (next_session (c_session_id c), set_context p (set_session_id (next_session (c_session_id c)) c) s).
Proof.
  intros Hc. unfold SNContext_NewSession, next_session.
  rewrite (bind_step _ _ _ _ _ (context_of_Some _ _ _ Hc)). by case_bool_decide.
Qed.

Lemma copy_step type text s :
  (if bool_decide (Z.land type PTYPE_TAG_DONTCOPY = 0)
   then msg ← lift (read_bytes text 0 (Z.of_nat (length text))); mret (Some (msg ++ [0]))
   else mret (Some text)) s = Ret (Some (sent_text type text), s).
Proof.
  unfold sent_text. case_bool_decide; [|done].
  by rewrite (bind_lift _ _ _ _ (read_bytes_all _ _ eq_refl)).
Qed.

Lemma filter_args_text s p c type session text :
  contexts s !! p = Some c -> (allocates type = true -> session = 0) ->
  _filter_args (Some p) type session (Some text) (Z.of_nat (length text)) s =
    Ret (sent_session type session c, Some (sent_text type text),
         Z.lor (Z.of_nat (length text)) (type_bits (Z.land type 0xff)), sent_context type p c s).
Proof.
  intros Hc Hs. unfold _filter_args, sent_session, sent_context. fold (allocates type).
  destruct (allocates type).
  - rewrite bind_bind, bind_require, bool_decide_true by auto.
    rewrite (bind_step _ _ _ _ _ (NewSession_spec _ _ _ Hc)).
    by rewrite (bind_step _ _ _ _ _ (copy_step _ _ _)).
  - by rewrite bind_mret, (bind_step _ _ _ _ _ (copy_step _ _ _)).
Qed.

(** A message without text and without a new session, as the replies on errors. *)
Lemma filter_args_null s context type session : allocates type = false ->
  _filter_args context type session None 0 s =
    Ret (session, None, Z.lor 0 (type_bits (Z.land type 0xff)), s).
Proof. intros Ha. unfold _filter_args. fold (allocates type). by rewrite Ha. Qed.

Lemma source_step s p c source : contexts s !! p = Some c ->
  (if bool_decide (source = 0) then the_handle (Some p) else mret source) s =
    Ret (sent_source source c, s).
Proof.
  intros Hc. unfold sent_source. case_bool_decide; [|done].
  unfold the_handle, fmap, srv_fmap. by rewrite (context_of_Some _ _ _ Hc).
Qed.

(** [skynet_send] after its arguments are made. *)
Lemma skynet_send_step s s1 context source src dest type session session1 data data1 n m :
  0 <= n < 2 ^ 24 ->
  _filter_args context type session data n s = Ret (session1, data1, m, s1) ->
  (if bool_decide (source = 0) then the_handle context else mret source) s1 = Ret (src, s1) ->
  dest <> 0 ->
  skynet_send context source dest type session data n s =
    (if skynet_harbor_message_isremote dest s1 then
       _ ← skynet_harbor_send (replicate 16 0) dest data1 m src session1; mret session1
     else
       r ← ContextPush dest (mk_sn_message src session1 (Text <$> data1) m);
       if bool_decide (r <> 0) then _ ← sn_free (Text <$> data1); mret (-1) else mret session1) s1.
Proof.
  intros Hn Hf Hs Hd. unfold skynet_send. rewrite bool_decide_false by (by rewrite fits_size; auto).
  rewrite (bind_step _ _ _ _ _ Hf), (bind_step _ _ _ _ _ Hs), bool_decide_false by done.
  by rewrite bind_get.
Qed.

Lemma isremote_sent dest type p c s :
  skynet_harbor_message_isremote dest (sent_context type p c s) = skynet_harbor_message_isremote dest s.
Proof. unfold sent_context. by destruct (allocates type). Qed.

Lemma sent_context_Some type p c s : contexts s !! p = Some c ->
  exists c', contexts (sent_context type p c s) !! p = Some c' /\ c_handle c' = c_handle c.
Proof.
  intros Hc. unfold sent_context. destruct (allocates type); [|by eauto].
  cbn. rewrite lookup_insert_eq. by eauto.
Qed.

Lemma live_sent type p c s h t ct q mq : contexts s !! p = Some c -> live s h t ct q mq ->
  exists ct', live (sent_context type p c s) h t ct' q mq.
Proof.
  intros Hc [Hf Ht Hq Hmq]. unfold sent_context. destruct (allocates type); [|by exists ct].
  destruct (decide (t = p)) as [->|].
  - eexists. split; cbn; [done|apply lookup_insert_eq| |done]. simpl. congruence.
  - exists ct. split; cbn; [done|by rewrite lookup_insert_ne|done|done].
Qed.

(** The text is as long as the message says. *)
Definition text_fits (text : list Z) : Prop := Z.of_nat (length text) < 2 ^ 24.

Definition the_message (source type session : Z) (text : list Z) (c : SNContext) : sn_message :=
  mk_sn_message (sent_source source c) (sent_session type session c)
    (Some (Text (sent_text type text)))
    (Z.lor (Z.of_nat (length text)) (type_bits (Z.land type 0xff))).

Lemma skynet_send_text s p c source dest type session text :
  contexts s !! p = Some c -> (allocates type = true -> session = 0) -> text_fits text -> dest <> 0 ->
  let session1 := sent_session type session c in
  let data1 := Some (sent_text type text) in
  let m := Z.lor (Z.of_nat (length text)) (type_bits (Z.land type 0xff)) in
  skynet_send (Some p) source dest type session (Some text) (Z.of_nat (length text)) s =
    (if skynet_harbor_message_isremote dest s then
       _ ← skynet_harbor_send (replicate 16 0) dest data1 m (sent_source source c) session1; mret session1
     else
       r ← ContextPush dest (the_message source type session text c);
       if bool_decide (r <> 0) then _ ← sn_free (Text <$> data1); mret (-1) else mret session1)
    (sent_context type p c s).
Proof.
  intros Hc Hs Ht Hd session1 data1 m.
  destruct (sent_context_Some type p c s Hc) as (c' & Hc' & Hh).
  rewrite (skynet_send_step s (sent_context type p c s) (Some p) source (sent_source source c)
    dest type session session1 (Some text) data1 (Z.of_nat (length text)) m).
  - by rewrite isremote_sent.
  - unfold text_fits in Ht. lia.
  - by apply filter_args_text.
  - rewrite (source_step _ _ _ _ Hc'). unfold sent_source. by rewrite Hh.
  - done.
Qed.

(** *** Dispatching *)

Lemma DispatchMessage_calls callback s p c msg :
  contexts s !! p = Some c -> c_cb c = true -> c_init c = true ->
  DispatchMessage callback p msg s =
    (r ← callback p (msg_type (sz msg)) (session msg) (source msg) (data msg) (msg_size (sz msg));
     if bool_decide (r = 0) then sn_free (data msg) else mret tt) s.
Proof.
  intros Hc Hcb Hi. unfold DispatchMessage.
  rewrite (bind_step _ _ _ _ _ (context_of_Some _ _ _ Hc)), Hcb. cbn [negb].
  by rewrite bind_require, Hi.
Qed.

(* ------------------------------------------------------------------ *)
(** ** Properties *)

Context `{!GlobalQueueLaws G}.

Lemma push_to_elems q mq msg s :
  gq_elems (m_pMqMgr (push_to q mq msg s)) ≡ₚ
    if m_bInGlobal mq then gq_elems (m_pMqMgr s) else q :: gq_elems (m_pMqMgr s).
Proof.
  unfold push_to, SNMessageQueue_Push, enqueue. cbn [m_bInGlobal].
  destruct (m_bInGlobal mq); cbn; [done|]. apply gq_push_elems.
Qed.

(** C2: a message to a service of the node arrives: it goes behind the messages of
    exactly that service, whose queue is in the global queue or becomes so; nothing is
    freed; the answer is its session.  When the service takes it, its callback gets the
    type of the sender read as a signed byte, the session, the source and the text, of
    the sender's length, with a NUL behind a copy. *)
Theorem send_delivers s p c source dest t ct q mq type session text :
  contexts s !! p = Some c -> live s dest t ct q mq -> dest <> 0 ->
  skynet_harbor_message_isremote dest s = false -> text_fits text ->
  (allocates type = true -> session = 0) ->
  exists s' msg mq',
    skynet_send (Some p) source dest type session (Some text) (Z.of_nat (length text)) s =
      Ret (sent_session type session c, s') /\
    queues s' = <[q := mq']> (queues s) /\
    m_queue mq' = m_queue mq ++ [msg] /\ m_bInGlobal mq' = true /\
    gq_elems (m_pMqMgr s') ≡ₚ
      (if m_bInGlobal mq then gq_elems (m_pMqMgr s) else q :: gq_elems (m_pMqMgr s)) /\
    freed s' = freed s /\ m_pHandleMgr s' = m_pHandleMgr s /\
    (forall callback r ct', contexts r !! t = Some ct' -> c_cb ct' = true -> c_init ct' = true ->
       DispatchMessage callback t msg r =
         (answer ← callback t (i8 (Z.land type 0xff)) (sent_session type session c)
                     (sent_source source c) (Some (Text (sent_text type text))) (Z.of_nat (length text));
          if bool_decide (answer = 0) then sn_free (Some (Text (sent_text type text))) else mret tt) r).
Proof.
  intros Hc Hl Hd Hr Ht Hs. destruct (live_sent type p c s dest t ct q mq Hc Hl) as (ct' & Hl').
  rewrite (skynet_send_text s p c) by done. cbv zeta. rewrite Hr.
  rewrite (bind_step _ _ _ _ _ (ContextPush_live _ _ _ _ _ _ _ Hl')), bool_decide_false by auto.
  set (msg := the_message source type session text c).
  set (s1 := sent_context type p c s) in *.
  destruct (push_to_spec q mq msg s1 (live_mq _ _ _ _ _ _ Hl')) as (mq' & Hq & Hm & Hg & _).
  pose proof (push_to_elems q mq msg s1) as He.
  destruct (push_to_frame q mq msg s1) as (x & g & Hx).
  assert (Hs1 : queues s1 = queues s /\ m_pMqMgr s1 = m_pMqMgr s /\ freed s1 = freed s /\
                m_pHandleMgr s1 = m_pHandleMgr s)
    by (unfold s1, sent_context; destruct (allocates type); done).
  destruct Hs1 as (Hs1 & Hs2 & Hs3 & Hs4). rewrite Hs1 in Hq. rewrite Hs2 in He.
  eexists _, msg, mq'. split; [done|]. split_and!; try done.
  - by rewrite Hx.
  - by rewrite Hx.
  - intros callback r cr Hcr Hcb Hi. rewrite (DispatchMessage_calls callback r t cr) by done.
    destruct (sz_split (Z.land type 0xff) (Z.of_nat (length text))) as [E1 E2];
      [unfold text_fits in Ht; lia|].
    unfold msg, the_message. cbn. by rewrite E1, E2.
Qed.

(** Sending fails in two ways.  When no service has the handle the answer is -1 and
    exactly the text that was to be sent is freed, the copy when the text was copied.
    When the text is longer than 24 bits can say the answer is -1 as well, but the
    caller's own text is freed, also when the caller keeps it (no PTYPE_TAG_DONTCOPY). *)
Theorem send_fails s p c source dest type session text :
  contexts s !! p = Some c -> dest <> 0 -> logger s = 0 ->
  SNHandleMgr_FindName (m_pHandleMgr s) "logger" = 0 ->
  skynet_harbor_message_isremote dest s = false ->
  SNHandleMgr_FindContext (m_pHandleMgr s) dest = None ->
  (allocates type = true -> session = 0) ->
  exists s',
    skynet_send (Some p) source dest type session (Some text) (Z.of_nat (length text)) s = Ret (-1, s') /\
    queues s' = queues s /\ m_pMqMgr s' = m_pMqMgr s /\
    freed s' = freed s ++
      [Text (if bool_decide (text_fits text) then sent_text type text else text)].
Proof.
  intros Hc Hd Hlog Hname Hr Hf Hs. case_bool_decide as Ht.
  - rewrite (skynet_send_text s p c) by done. cbv zeta. rewrite Hr.
    assert (Hf' : SNHandleMgr_FindContext (m_pHandleMgr (sent_context type p c s)) dest = None)
      by (unfold sent_context; by destruct (allocates type)).
    rewrite (bind_step _ _ _ _ _ (ContextPush_gone _ _ _ Hf')), bool_decide_true by done.
    eexists. split; [reflexivity|]. unfold sent_context. destruct (allocates type); done.
  - unfold skynet_send. rewrite bool_decide_true.
    + assert (He : skynet_error (Some p) (too_large dest (Z.of_nat (length text))) s =
                   Ret (tt, set_logger 0 s)).
      { unfold skynet_error. rewrite bind_get, Hlog, bool_decide_true, Hname by done. done. }
      rewrite (bind_step _ _ _ _ _ He). eexists. split; [reflexivity|]. done.
    + change (handle_local (Z.of_nat (length text)) <> Z.of_nat (length text)).
      unfold text_fits in Ht. rewrite handle_local_mod. dlia.
Qed.

(** *** Sessions *)

Fixpoint sessions (n : nat) (p : ctxptr) : srv (list Z) :=
  match n with
  | O => mret []
  | S n => a ← SNContext_NewSession p; l ← sessions n p; mret (a :: l)
  end.

Lemma next_session_eq n : 0 <= n < 2 ^ 31 -> next_session n = n mod (2 ^ 31 - 1) + 1.
Proof.
  intros Hn. unfold next_session. destruct (decide (n = 2 ^ 31 - 1)) as [->|]; [done|].
  rewrite i32_small by (unfold is_i32; lia). rewrite bool_decide_false by lia.
  by rewrite Z.mod_small by lia.
Qed.

Lemma sessions_spec n : forall s p c, contexts s !! p = Some c -> 0 <= c_session_id c < 2 ^ 31 ->
  exists s', sessions n p s =
    Ret ((fun k => (c_session_id c + Z.of_nat k) mod (2 ^ 31 - 1) + 1) <$> seq 0 n, s').
Proof.
  induction n as [|n IH]; intros s p c Hc Hid; [by exists s|]. cbn [sessions].
  rewrite (bind_step _ _ _ _ _ (NewSession_spec _ _ _ Hc)), next_session_eq by done.
  set (a := c_session_id c mod (2 ^ 31 - 1) + 1).
  destruct (IH (set_context p (set_session_id a c) s) p (set_session_id a c)) as (s' & Hs').
  { apply lookup_insert_eq. } { cbn. unfold a. dlia. }
  rewrite (bind_step _ _ _ _ _ Hs'). exists s'. cbn [seq fmap list_fmap c_session_id set_session_id].
  rewrite <- (fmap_S_seq 0 n), <- list_fmap_compose. unfold mret, srv_ret. do 3 f_equal.
  - unfold a. by rewrite Z.add_0_r.
  - apply list_fmap_ext. intros i x _. unfold compose, a. f_equal.
    rewrite <- Z.add_assoc, Z.add_mod_idemp_l by lia. f_equal. lia.
Qed.

(** C11: the sessions of a context are positive, and 2^31 - 1 requests in a row get
    different ones, wherever the counter stands; the request after that repeats. *)
Theorem sessions_distinct s p c n :
  contexts s !! p = Some c -> 0 <= c_session_id c < 2 ^ 31 -> Z.of_nat n <= 2 ^ 31 - 1 ->
  exists s' l, sessions n p s = Ret (l, s') /\ length l = n /\ NoDup l /\
    Forall (fun x => 0 < x < 2 ^ 31) l.
Proof.
  intros Hc Hid Hn. destruct (sessions_spec n s p c Hc Hid) as (s' & Hs').
  eexists s', _. split; [exact Hs'|]. split_and!.
  - by rewrite length_fmap, length_seq.
  - apply NoDup_fmap_2_strong; [|apply NoDup_seq].
    intros x y Hx%elem_of_seq Hy%elem_of_seq Heq. dlia.
  - apply Forall_fmap, Forall_forall. intros k _. cbn. dlia.
Qed.

End SERVER.

(* ------------------------------------------------------------------ *)
(** ** A small node *)

(** Node [k] with two services, and the harbor service in slot 3. *)
Definition demo_context (h q : Z) : SNContext := mk_SNContext h (Some q) true 0 true false false.

Definition demo_node (k : Z) : SNServer (G := debug_mgr) :=
  let h := k * 2 ^ 24 in
  mk_SNServer (mk_SNHandleMgr h 4 {[1 := 11; 2 := 12; 3 := 13]} ∅)
    {[11 := demo_context (h + 1) 21; 12 := demo_context (h + 2) 22; 13 := demo_context (h + 3) 23]}
    {[21 := SNMessageQueue_new (h + 1); 22 := SNMessageQueue_new (h + 2);
      23 := SNMessageQueue_new (h + 3)]}
    [21; 22; 23] SNMonitor_new 0 false timer_create_timer ∅ h (Some 13) 0 [].

Lemma demo_live k i : 0 <= k < 256 -> i = 1 \/ i = 2 \/ i = 3 ->
  live (demo_node k) (k * 2 ^ 24 + i) (10 + i) (demo_context (k * 2 ^ 24 + i) (20 + i)) (20 + i)
    (SNMessageQueue_new (k * 2 ^ 24 + i)).
Proof.
  intros Hk Hi.
  assert (E : handle_local (k * 2 ^ 24 + i) = i) by (rewrite handle_local_mod; dlia).
  split; unfold SNHandleMgr_FindContext, demo_node; cbn [m_pHandleMgr m_slot contexts queues];
    rewrite ?E; destruct Hi as [->|[->| ->]]; reflexivity.
Qed.

Definition demo_send (s : SNServer (G := debug_mgr)) (dest : Z) :=
  skynet_send (Some 11) 0 dest PTYPE_TAG_ALLOCSESSION 0 (Some [65; 66]) 2 s.

Lemma send_delivers_witness :
  exists (s' : SNServer (G := debug_mgr)) msg mq',
    demo_send (demo_node 1) (2 ^ 24 + 2) = Ret (1, s') /\
    queues s' = <[22 := mq']> (queues (demo_node 1)) /\
    m_queue mq' = [] ++ [msg] /\ m_bInGlobal mq' = true /\
    gq_elems (m_pMqMgr s') ≡ₚ [21; 22; 23] /\
    freed s' = [] /\ m_pHandleMgr s' = m_pHandleMgr (demo_node 1) /\
    (forall callback (r : SNServer (G := debug_mgr)) ct', contexts r !! 12 = Some ct' -> c_cb ct' = true -> c_init ct' = true ->
       DispatchMessage callback 12 msg r =
         (answer ← callback 12 0 1 (2 ^ 24 + 1) (Some (Text [65; 66; 0])) 2;
          if bool_decide (answer = 0) then sn_free (G := debug_mgr) (Some (Text [65; 66; 0])) else mret tt) r).
Proof.
  pose proof (send_delivers (demo_node 1) 11 (demo_context (2 ^ 24 + 1) 21) 0 (2 ^ 24 + 2) 12
    (demo_context (2 ^ 24 + 2) 22) 22 (SNMessageQueue_new (2 ^ 24 + 2)) PTYPE_TAG_ALLOCSESSION 0 [65; 66]
    eq_refl (demo_live 1 2 ltac:(lia) ltac:(lia)) ltac:(lia) eq_refl eq_refl ltac:(done)) as Hd.
  exact Hd.
Defined.

Lemma send_fails_witness :
  exists (s' : SNServer (G := debug_mgr)),
    demo_send (demo_node 0) 7 = Ret (-1, s') /\
    queues s' = queues (demo_node 0) /\ m_pMqMgr s' = m_pMqMgr (demo_node 0) /\
    freed s' = [] ++ [Text [65; 66; 0]].
Proof.
  apply (send_fails (demo_node 0) 11 (demo_context 1 21) 0 7 PTYPE_TAG_ALLOCSESSION 0 [65; 66]);
    try reflexivity; try done; lia.
Defined.

Lemma sessions_distinct_witness :
  exists (s' : SNServer (G := debug_mgr)) l, sessions 5 11 (demo_node 0) = Ret (l, s') /\ length l = 5%nat /\ NoDup l /\
    Forall (fun x => 0 < x < 2 ^ 31) l.
Proof. apply (sessions_distinct (demo_node 0) 11 (demo_context 1 21) 5); [reflexivity|cbn; lia|lia]. Defined.
