(* ===== verification/Command.v ===== *)
(** * The commands of services (src/src/sn_server.cpp: skynet_command and the cmd_
    functions; src/src/sn_env.cpp; src/src/sn_log.cpp: sn_log_open,
    sn_log_close)

    A service asks the core by the name of a command and a text; the answer is a text or
    NULL ([None]).  The answer is a copy of [context->result], which the next command of
    the same context overwrites.  The open of a log file succeeds or not by a parameter. *)
From S2P Require Import Prelude MessageQueue Handle CString Timer Server.
From stdpp Require Import base list gmap numbers strings.
From Stdlib Require Import ZArith Lia.

Local Open Scope Z_scope.

(** ":" and eight upper case digits. *)
Definition upper_hex (d : Z) : Z := if bool_decide (d < 10) then 48 + d else 55 + d.

Definition id_to_hex (id : Z) : list Z :=
  58 :: ((fun i => upper_hex (Z.land (Z.shiftr id ((7 - Z.of_nat i) * 4)) 0xf)) <$> seq 0 8).

(** The token before the first character that [delim] accepts, and what follows it. *)
Fixpoint split_at (delim : Z -> bool) (s : list Z) : list Z * option (list Z) :=
  match s with
  | [] => ([], None)
  | c :: s' =>
    if delim c then ([], Some s')
    else let '(a, b) := split_at delim s' in (c :: a, b)
  end.

Definition is_blank (c : Z) : bool := bool_decide (c = 32 \/ c = 9 \/ c = 13 \/ c = 10).
Definition is_newline (c : Z) : bool := bool_decide (c = 13 \/ c = 10).

Section COMMAND.
Context {G : Type} `{GlobalQueue G}.

Abbreviation srv := (srv (G := G)).

Definition handle_text (h : Z) : list Z := 58 :: print_hex h.

(** ** Handles and names *)

Definition find_name (name : list Z) : srv Z :=
  s ← get; mret (SNHandleMgr_FindName (m_pHandleMgr s) (string_of name)).

Definition name_handle (handle : Z) (name : list Z) : srv (option (list Z)) := fun s =>
  let '(r, m) := SNHandleMgr_NameHandle (m_pHandleMgr s) handle (string_of name) in
  Ret (bytes_of <$> r, set_handles m s).

Definition cmd_timeout (p : ctxptr) (param : list Z) : srv (option (list Z)) :=
  let ti := i32 (strtol10 param) in
  session ← SNContext_NewSession p;
  c ← context_of p;
  _ ← server_timeout (c_handle c) ti session;
  mret (Some (print_int session)).

Definition cmd_reg (p : ctxptr) (param : option (list Z)) : srv (option (list Z)) :=
  c ← context_of p;
  match param with
  | None | Some [] => mret (Some (handle_text (c_handle c)))
  | Some (46 :: name) => name_handle (c_handle c) name
  | Some name =>
    _ ← skynet_error (Some p) (bytes_of "Can't register global name " ++ name ++ bytes_of " in C");
    mret None
  end.

Definition cmd_query (param : list Z) : srv (option (list Z)) :=
  match param with
  | 46 :: name =>
    handle ← find_name name;
    if bool_decide (handle <> 0) then mret (Some (handle_text handle)) else mret None
  | _ => mret None
  end.

(** [sscanf(param, "%s %s", name, handle)]: a word that is not there leaves its buffer
    without a value, and [handle[0]] is read. *)
Definition cmd_name (p : ctxptr) (param : list Z) : srv (option (list Z)) :=
  match scan_s param with
  | None => crash OutOfBounds
  | Some (name, rest) =>
    match scan_s rest with
    | None => crash OutOfBounds
    | Some (handle, _) =>
      match handle with
      | 58 :: digits =>
        let handle_id := u32 (strtoul16 digits) in
        if bool_decide (handle_id = 0) then mret None
        else
          match name with
          | 46 :: name => name_handle handle_id name
          | _ =>
            _ ← skynet_error (Some p) (bytes_of "Can't set global name " ++ name ++ bytes_of " in C");
            mret None
          end
      | _ => mret None
      end
    end
  end.

Definition tohandle (p : ctxptr) (param : list Z) : srv Z :=
  match param with
  | 58 :: digits => mret (u32 (strtoul16 digits))
  | 46 :: name => find_name name
  | _ =>
    _ ← skynet_error (Some p) (bytes_of "Can't convert " ++ param ++ bytes_of " to handle");
    mret 0
  end.

Definition skynet_queryname (p : ctxptr) (name : list Z) : srv Z :=
  match name with
  | 58 :: digits => mret (u32 (strtoul16 digits))
  | 46 :: name => find_name name
  | _ =>
    _ ← skynet_error (Some p) (bytes_of "Don't support query global name " ++ name);
    mret 0
  end.

Definition skynet_isremote (handle : Z) : srv (bool * Z) :=
  s ← get;
  mret (skynet_harbor_message_isremote handle s, i32 (Z.shiftr handle HANDLE_REMOTE_SHIFT)).

(** ** Ending services *)

Definition handle_exit (p : ctxptr) (handle : Z) : srv unit :=
  handle ← (if bool_decide (handle = 0) then
              c ← context_of p;
              _ ← skynet_error (Some p) (bytes_of "KILL self");
              mret (c_handle c)
            else
              _ ← skynet_error (Some p) (bytes_of "KILL :" ++ print_hex handle);
              mret handle);
  s ← get;
  _ ← (if bool_decide (m_monitor_exit s <> 0) then
         _ ← skynet_send (Some p) handle (m_monitor_exit s) PTYPE_CLIENT 0 None 0; mret tt
       else mret tt);
  r ← handle_remove handle;
  match r with Some c => ForceInGlobal c | None => mret tt end.

Definition cmd_exit (p : ctxptr) : srv (option (list Z)) := _ ← handle_exit p 0; mret None.

Definition cmd_kill (p : ctxptr) (param : list Z) : srv (option (list Z)) :=
  handle ← tohandle p param;
  _ ← (if bool_decide (handle <> 0) then handle_exit p handle else mret tt);
  mret None.

(** ** Environment and clock *)

Definition skynet_getenv (key : list Z) : srv (option (list Z)) :=
  s ← get; mret (env s !! string_of key).

Definition skynet_setenv (key value : list Z) : srv unit :=
  s ← get;
  _ ← require (bool_decide (env s !! string_of key = None));
  modify (set_env (<[string_of key := value]> (env s))).

Definition cmd_setenv (param : list Z) : srv (option (list Z)) :=
  match split_at (fun c => bool_decide (c = 32)) param with
  | (_, None) => mret None
  | (key, Some value) => _ ← skynet_setenv key value; mret None
  end.

Definition cmd_now : srv (option (list Z)) := s ← get; mret (Some (print_int (current (TI s)))).
Definition cmd_starttime : srv (option (list Z)) := s ← get; mret (Some (print_int (starttime (TI s)))).

(** ** The context's own state *)

Definition cmd_endless (p : ctxptr) : srv (option (list Z)) :=
  c ← context_of p;
  if c_endless c then
    _ ← modify (set_context p (set_endless false c)); mret (Some (bytes_of "1"))
  else mret None.

Definition cmd_abort : srv (option (list Z)) := _ ← modify set_exit; mret None.

Definition cmd_monitor (p : ctxptr) (param : option (list Z)) : srv (option (list Z)) :=
  s ← get;
  match param with
  | None | Some [] =>
    mret (if bool_decide (m_monitor_exit s <> 0) then Some (handle_text (m_monitor_exit s)) else None)
  | Some param =>
    handle ← tohandle p param;
    _ ← modify (set_monitor_exit handle);
    mret None
  end.

Definition cmd_mqlen (p : ctxptr) : srv (option (list Z)) :=
  q ← SNContext_MessageQueue p;
  mq ← queue_of q;
  mret (Some (print_int (SNMessageQueue_Length mq))).

(** [fopen]: a file of this name can be opened.  What is written to it has no part here. *)
Definition sn_log_open (fopen : list Z -> bool) (p : ctxptr) (handle : Z) : srv bool :=
  s ← get;
  match env s !! "logpath"%string with
  | None => mret false
  | Some logpath =>
    let tmp := logpath ++ bytes_of "/" ++ hex8 handle ++ bytes_of ".log" in
    if fopen tmp then _ ← skynet_error (Some p) (bytes_of "Open log file " ++ tmp); mret true
    else _ ← skynet_error (Some p) (bytes_of "Open log file " ++ tmp ++ bytes_of " fail"); mret false
  end.

Definition sn_log_close (p : ctxptr) (handle : Z) : srv unit :=
  skynet_error (Some p) (bytes_of "Close log file :" ++ hex8 handle).

Definition cmd_logon (fopen : list Z -> bool) (p : ctxptr) (param : list Z) : srv (option (list Z)) :=
  handle ← tohandle p param;
  if bool_decide (handle = 0) then mret None
  else
    s ← get;
    match SNHandleMgr_FindContext (m_pHandleMgr s) handle with
    | None => mret None
    | Some t =>
      c ← context_of t;
      _ ← (if c_logfile c then mret tt
           else
             f ← sn_log_open fopen p handle;
             if f : bool then modify (set_context t (set_logfile true c)) else mret tt);
      mret None
    end.

Definition cmd_logoff (p : ctxptr) (param : list Z) : srv (option (list Z)) :=
  handle ← tohandle p param;
  if bool_decide (handle = 0) then mret None
  else
    s ← get;
    match SNHandleMgr_FindContext (m_pHandleMgr s) handle with
    | None => mret None
    | Some t =>
      c ← context_of t;
      _ ← (if c_logfile c then
             _ ← modify (set_context t (set_logfile false c));
             sn_log_close p handle
           else mret tt);
      mret None
    end.

(** ** Launching, and the table of commands *)

Section SERVICES.
Context (module_create : list Z -> bool).
Context (module_init : list Z -> ctxptr -> option (list Z) -> srv Z).
Context (fopen : list Z -> bool).

Definition cmd_launch (param : list Z) : srv (option (list Z)) :=
  let '(mod_, args) := split_at is_blank param in
  let args := (fun a => fst (split_at is_newline a)) <$> args in
  inst ← NewContext module_create module_init mod_ args;
  match inst with
  | None => mret None
  | Some p => c ← context_of p; mret (Some (id_to_hex (c_handle c)))
  end.

(** A command that follows its parameter. *)
Definition with_param (param : option (list Z)) (f : list Z -> srv (option (list Z)))
  : srv (option (list Z)) :=
  match param with Some param => f param | None => crash OutOfBounds end.

Definition cmd_funcs (p : ctxptr) (param : option (list Z)) : list (list Z * srv (option (list Z))) := [
  (bytes_of "TIMEOUT", with_param param (cmd_timeout p));
  (bytes_of "REG", cmd_reg p param);
  (bytes_of "QUERY", with_param param cmd_query);
  (bytes_of "NAME", with_param param (cmd_name p));
  (bytes_of "NOW", cmd_now);
  (bytes_of "EXIT", cmd_exit p);
  (bytes_of "KILL", with_param param (cmd_kill p));
  (bytes_of "LAUNCH", with_param param cmd_launch);
  (bytes_of "GETENV", with_param param skynet_getenv);
  (bytes_of "SETENV", with_param param cmd_setenv);
  (bytes_of "STARTTIME", cmd_starttime);
  (bytes_of "ENDLESS", cmd_endless p);
  (bytes_of "ABORT", cmd_abort);
  (bytes_of "MONITOR", cmd_monitor p param);
  (bytes_of "MQLEN", cmd_mqlen p);
  (bytes_of "LOGON", with_param param (cmd_logon fopen p));
  (bytes_of "LOGOFF", with_param param (cmd_logoff p))
].

Fixpoint find_command (l : list (list Z * srv (option (list Z)))) (cmd : list Z) : srv (option (list Z)) :=
  match l with
  | [] => mret None
  | (name, func) :: l => if bool_decide (cmd = name) then func else find_command l cmd
  end.

Definition skynet_command (p : ctxptr) (cmd : list Z) (param : option (list Z))
  : srv (option (list Z)) := find_command (cmd_funcs p param) cmd.
End SERVICES.
End COMMAND.
