(* ===== verification/Safety.v ===== *)
(** * The core never follows a dangling pointer

    The state invariant of the process, and that the functions of Server and Command
    keep it: every registered service has its queue, the queues that have messages are
    those the scheduler knows of, and the harbor service that [REMOTE] names is there.
    It is proved with weakest preconditions over the computations of Server; the
    scheduling part of the invariant is [core], that of Scheduler, with the queues that
    are held by the caller as its tokens. *)
From S2P Require Import Prelude MessageQueue Scheduler Handle CString Timer Server Command.
From stdpp Require Import base list gmap numbers strings.
From Stdlib Require Import ZArith Lia.

Local Open Scope Z_scope.

Section SAFETY.
Context {G : Type} {GQ : GlobalQueue G} {GL : GlobalQueueLaws G}.

Abbreviation server := (SNServer (G := G)).
Abbreviation srv := (srv (G := G)).

(** ** Weakest preconditions *)

(** [m] does not follow a dangling pointer, and [Q] holds when it returns. *)
Definition wp {A} (m : srv A) (s : server) (Q : A -> server -> Prop) : Prop :=
  match m s with
  | Ret (a, s') => Q a s'
  | Crash UseAfterFree => False
  | _ => True
  end.

Lemma wp_mono {A} (m : srv A) s (Q R : A -> server -> Prop) :
  wp m s Q -> (forall a s', Q a s' -> R a s') -> wp m s R.
Proof. unfold wp. intros Hw HQ. destruct (m s) as [[a s']|?|[]]; auto. Qed.

Lemma wp_bind {A B} (m : srv A) (f : A -> srv B) s Q :
  wp m s (fun a s' => wp (f a) s' Q) -> wp (x ← m; f x) s Q.
Proof. unfold wp, mbind, srv_bind, outcome_bind. by destruct (m s) as [[a s']|?|[]]. Qed.

Lemma wp_fmap {A B} (m : srv A) (f : A -> B) s Q :
  wp m s (fun a s' => Q (f a) s') -> wp (f <$> m) s Q.
Proof.
  unfold wp, fmap, srv_fmap, mbind, outcome_bind. by destruct (m s) as [[a s']|?|[]].
Qed.

Lemma wp_ret {A} (a : A) s (Q : A -> server -> Prop) : Q a s -> wp (mret a) s Q.
Proof. exact (fun HQ => HQ). Qed.
Lemma wp_get s (Q : server -> server -> Prop) : Q s s -> wp get s Q.
Proof. exact (fun HQ => HQ). Qed.
Lemma wp_modify f s (Q : unit -> server -> Prop) : Q tt (f s) -> wp (modify f) s Q.
Proof. exact (fun HQ => HQ). Qed.
Lemma wp_require b s (Q : unit -> server -> Prop) : (b = true -> Q tt s) -> wp (Server.require b) s Q.
Proof. unfold wp. destruct b; [intros HQ; by apply HQ|done]. Qed.

(** An error of the kind that cannot be [UseAfterFree]. *)
Definition no_uaf {A} (o : outcome A) : Prop := o <> Crash UseAfterFree.

Lemma wp_lift {A} (o : outcome A) s (Q : A -> server -> Prop) :
  no_uaf o -> (forall a, o = Ret a -> Q a s) -> wp (lift o) s Q.
Proof.
  intros Ho HQ. unfold wp, lift, mbind, outcome_bind. destruct o as [a|?|[]]; auto.
Qed.

(** ** The invariant *)

(** The context at slot [l] has its queue, and both have the handle of the slot. *)
Definition registered (s : server) (l : Z) (p : ctxptr) : Prop :=
  exists c q mq, contexts s !! p = Some c /\ c_queue c = Some q /\ queues s !! q = Some mq /\
    m_handle mq = c_handle c /\ c_handle c = Z.lor l (m_harbor (m_pHandleMgr s)).

(** [H]: the queues that the caller holds. *)
Record wf (H : list qid) (s : server) : Prop := mk_wf {
  wf_core : core (H ++ gq_elems (m_pMqMgr s)) (queues s);
  wf_gq : gq_wf (m_pMqMgr s);
  wf_hm : hm_wf (m_pHandleMgr s);
  wf_harbor : HARBOR s = m_harbor (m_pHandleMgr s);
  wf_slot l p : m_slot (m_pHandleMgr s) !! l = Some p -> registered s l p;
  wf_remote p : HARBOR s <> 0 -> REMOTE s = Some p ->
    exists l, m_slot (m_pHandleMgr s) !! l = Some p
}.

(** A context keeps its queue and its handle, a queue is not deleted and keeps its
    handle, and the node keeps its number; with a number it keeps its services. *)
Record stable (s s' : server) : Prop := mk_stable {
  stable_harbor : HARBOR s' = HARBOR s;
  stable_queue q mq : queues s !! q = Some mq ->
    exists mq', queues s' !! q = Some mq' /\ m_handle mq' = m_handle mq;
  stable_context p c : contexts s !! p = Some c ->
    exists c', contexts s' !! p = Some c' /\ c_queue c' = c_queue c /\ c_handle c' = c_handle c;
  stable_slot l p : HARBOR s <> 0 -> m_slot (m_pHandleMgr s) !! l = Some p ->
    m_slot (m_pHandleMgr s') !! l = Some p
}.

(** No service comes or goes. *)
Record quiet (s s' : server) : Prop := mk_quiet {
  quiet_stable : stable s s';
  quiet_handles : m_pHandleMgr s' = m_pHandleMgr s;
  quiet_remote : REMOTE s' = REMOTE s
}.

#[export] Instance stable_preorder : PreOrder stable.
Proof.
  split.
  - intros s. split; eauto.
  - intros s1 s2 s3 [H1 Q1 C1 S1] [H2 Q2 C2 S2]. split; [congruence| | |].
    3: { intros l p Hz Hl. apply S2; [congruence|by apply S1]. }
    { intros q mq Hq. destruct (Q1 q mq Hq) as (mq' & Hq' & ?).
      destruct (Q2 q mq' Hq') as (mq'' & ? & ?). exists mq''. split; congruence. }
    intros p c Hc.
    destruct (C1 p c Hc) as (c' & Hc' & ? & ?). destruct (C2 p c' Hc') as (c'' & ? & ? & ?).
    exists c''. split_and!; congruence.
Qed.

#[export] Instance quiet_preorder : PreOrder quiet.
Proof.
  split.
  - intros s. split; reflexivity.
  - intros s1 s2 s3 [H1 C1 R1] [H2 C2 R2]. split; [by transitivity s2|congruence..].
Qed.

(** A pointer to a context that exists; one whose queue exists as well. *)
Definition exists_context (s : server) (p : ctxptr) : Prop := is_Some (contexts s !! p).

Definition caller (s : server) (p : ctxptr) : Prop :=
  exists c q mq, contexts s !! p = Some c /\ c_queue c = Some q /\ queues s !! q = Some mq.

Lemma exists_stable s s' p : stable s s' -> exists_context s p -> exists_context s' p.
Proof. intros Hs [c Hc]. destruct (stable_context _ _ Hs p c Hc) as (c' & ? & _). by exists c'. Qed.

Lemma caller_stable s s' p : stable s s' -> caller s p -> caller s' p.
Proof.
  intros Hs (c & q & mq & Hc & Hq & Hmq). destruct (stable_context _ _ Hs p c Hc) as (c' & ? & ? & _).
  destruct (stable_queue _ _ Hs q mq Hmq) as (mq' & ? & _).
  exists c', q, mq'. split_and!; congruence.
Qed.

Lemma caller_exists s p : caller s p -> exists_context s p.
Proof. intros (c & ? & ? & Hc & _). by exists c. Qed.

Lemma registered_caller s l p : registered s l p -> caller s p.
Proof. intros (c & q & mq & Hc & Hq & Hmq & _). by exists c, q, mq. Qed.

Definition opt_exists (s : server) (context : option ctxptr) : Prop :=
  forall p, context = Some p -> exists_context s p.

Lemma opt_exists_stable s s' o : stable s s' -> opt_exists s o -> opt_exists s' o.
Proof. intros Hs Ho p E. eapply exists_stable; eauto. Qed.

Lemma find_registered H0 s h p :
  wf H0 s -> SNHandleMgr_FindContext (m_pHandleMgr s) h = Some p -> registered s (handle_local h) p.
Proof. intros Hw. apply (wf_slot _ _ Hw). Qed.

Lemma registered_exists s l p : registered s l p -> exists_context s p.
Proof. intros (c & ? & ? & Hc & _). by exists c. Qed.

(** *** Changes that the invariant does not see *)

(** The fields that the invariant reads, contexts apart. *)
Lemma wf_ext H0 s s' :
  wf H0 s -> m_pMqMgr s' = m_pMqMgr s -> queues s' = queues s ->
  m_pHandleMgr s' = m_pHandleMgr s -> REMOTE s' = REMOTE s -> stable s s' -> wf H0 s'.
Proof.
  intros [Hc Hg Hh Hha Hs Hr] E1 E2 E3 E4 Hst.
  pose proof (stable_harbor _ _ Hst) as E5. split; rewrite ?E1, ?E2, ?E3, ?E4, ?E5; try done.
  intros l p Hp. destruct (Hs l p Hp) as (c & q & mq & Hcx & Hq & Hmq & Hm & Hl).
  destruct (stable_context _ _ Hst p c Hcx) as (c' & ? & ? & ?).
  exists c', q, mq. rewrite E2, E3. split_and!; congruence.
Qed.

(** A context that changes neither its queue nor its handle. *)
Lemma set_context_stable s p c c' :
  contexts s !! p = Some c -> c_queue c' = c_queue c -> c_handle c' = c_handle c ->
  stable s (set_context p c' s).
Proof.
  intros Hc Hq Hh. split; [done|by eauto| |done]. intros p' x Hx. cbn. destruct (decide (p' = p)) as [->|].
  - rewrite lookup_insert_eq. exists c'. split_and!; congruence.
  - rewrite lookup_insert_ne by done. by exists x.
Qed.

Lemma wf_set_context H0 s p c c' :
  wf H0 s -> contexts s !! p = Some c -> c_queue c' = c_queue c -> c_handle c' = c_handle c ->
  wf H0 (set_context p c' s) /\ quiet s (set_context p c' s).
Proof.
  intros Hw Hc Hq Hh. pose proof (set_context_stable s p c c' Hc Hq Hh) as Hst.
  split; [by eapply wf_ext|by split].
Qed.

(** The queues and the global queue: the queues of the registered contexts stay. *)
Lemma wf_set_queues H0 H1 s m g :
  wf H0 s -> core (H1 ++ gq_elems g) m -> gq_wf g ->
  (forall l p, m_slot (m_pHandleMgr s) !! l = Some p -> forall c q mq,
     contexts s !! p = Some c -> c_queue c = Some q -> queues s !! q = Some mq ->
     exists mq', m !! q = Some mq' /\ m_handle mq' = m_handle mq) ->
  wf H1 (set_queues m g s).
Proof.
  intros Hw Hc Hg Hm. split; cbn; [done|done|apply (wf_hm _ _ Hw)|apply (wf_harbor _ _ Hw)| |
    apply (wf_remote _ _ Hw)].
  intros l p Hp. destruct (wf_slot _ _ Hw l p Hp) as (c & q & mq & Hcx & Hq & Hmq & Hh & Hl).
  destruct (Hm l p Hp c q mq Hcx Hq Hmq) as (mq' & ? & ?).
  exists c, q, mq'. cbn. split_and!; congruence.
Qed.

Lemma quiet_set_queues s m g :
  (forall q mq, queues s !! q = Some mq ->
     exists mq', m !! q = Some mq' /\ m_handle mq' = m_handle mq) ->
  quiet s (set_queues m g s).
Proof. intros Hm. split; [split; [done|done|by eauto|done]|done|done]. Qed.

(** One queue changes and keeps its handle. *)
Lemma wf_set_queue H0 H1 s q mq mq' g :
  wf H0 s -> queues s !! q = Some mq -> m_handle mq' = m_handle mq ->
  core (H1 ++ gq_elems g) (<[q := mq']> (queues s)) -> gq_wf g ->
  wf H1 (set_queues (<[q := mq']> (queues s)) g s) /\
  quiet s (set_queues (<[q := mq']> (queues s)) g s).
Proof.
  intros Hw Hq Hh Hc Hg.
  assert (Hkeep : forall q1 x, queues s !! q1 = Some x ->
    exists y, <[q := mq']> (queues s) !! q1 = Some y /\ m_handle y = m_handle x).
  { intros q1 x Hx. destruct (decide (q1 = q)) as [->|].
    - rewrite lookup_insert_eq. exists mq'. split; congruence.
    - rewrite lookup_insert_ne by done. eauto. }
  split; [by eapply wf_set_queues; eauto|]. apply quiet_set_queues. eauto.
Qed.

(** ** No dangling pointers in the pure parts *)

Lemma no_uaf_bind {A B} (o : outcome A) (f : A -> outcome B) :
  no_uaf o -> (forall a, no_uaf (f a)) -> no_uaf (x ← o; f x).
Proof. intros Ho Hf. destruct o as [a|?|[]]; first [apply Hf | done]. Qed.

Lemma no_uaf_ret {A} (a : A) : no_uaf (Ret a).
Proof. done. Qed.
Lemma no_uaf_read {A} (l : list A) i : no_uaf (read_at l i).
Proof. unfold read_at. case_decide; [|done]. by case_match. Qed.
Lemma no_uaf_write {A} (l : list A) i x : no_uaf (write_at l i x).
Proof. unfold write_at. by case_decide. Qed.
Lemma no_uaf_bytes l i n : no_uaf (read_bytes l i n).
Proof. unfold read_bytes. by case_decide. Qed.

(** A computation made of reads and writes, its cases and the lemmas in the context. *)
Ltac no_uaf := repeat first
  [ done
  | apply no_uaf_ret | apply no_uaf_read | apply no_uaf_write
  | match goal with IH : forall _, _ |- no_uaf _ => apply IH end
  | apply no_uaf_bind; [|intros ?]
  | case_match ].

Lemma overload_no_uaf fuel len ov t : no_uaf (overload_loop fuel len ov t).
Proof. revert len ov t. induction fuel; intros; unfold overload_loop; fold overload_loop; no_uaf. Qed.

Lemma Pop_no_uaf q b : no_uaf (SNMessageQueue_Pop q b).
Proof.
  unfold SNMessageQueue_Pop. case_match; [done|].
  apply no_uaf_bind; [apply overload_no_uaf|]. intros []. done.
Qed.

Lemma add_node_no_uaf T node : no_uaf (add_node T node).
Proof. unfold add_node, link_near, link_level. no_uaf. Qed.

Lemma add_nodes_no_uaf l T : no_uaf (add_nodes T l).
Proof.
  revert T. induction l as [|n l IH]; intros T; [done|]. cbn [add_nodes].
  apply no_uaf_bind; [apply add_node_no_uaf|]. apply IH.
Qed.

Lemma move_list_no_uaf T lv idx : no_uaf (move_list T lv idx).
Proof.
  unfold move_list, clear_level. apply no_uaf_bind; [no_uaf|]. intros []. apply add_nodes_no_uaf.
Qed.

Lemma timer_shift_no_uaf T : no_uaf (timer_shift T).
Proof.
  unfold timer_shift. case_bool_decide; [apply move_list_no_uaf|].
  generalize 5%nat, TIME_NEAR, (Z.shiftr (u32 (time T + 1)) TIME_NEAR_SHIFT), 0.
  generalize (u32 (time T + 1)) at 2 as ct. generalize (set_time T (u32 (time T + 1))) as T'.
  intros T' ct fuel. revert T'.
  induction fuel as [|fuel IH]; intros T' mask t i; [done|]. cbn [shift_loop].
  case_bool_decide; [|done]. case_bool_decide; [apply move_list_no_uaf|apply IH].
Qed.

Lemma timer_execute_no_uaf T : no_uaf (timer_execute T).
Proof.
  unfold timer_execute. generalize 2%nat, (Z.land (time T) TIME_NEAR_MASK), (@nil push).
  intros fuel idx. revert T. induction fuel as [|fuel IH]; intros T out; [done|].
  cbn [execute_loop]. apply no_uaf_bind; [apply no_uaf_read|]. intros l. case_match; [done|].
  apply no_uaf_bind; [unfold clear_near; no_uaf|]. intros []. apply IH.
Qed.

Lemma updatetime_no_uaf T cp : no_uaf (skynet_updatetime T cp).
Proof.
  unfold skynet_updatetime. case_bool_decide; [done|]. case_bool_decide; [|done]. cbv zeta.
  generalize (Z.to_nat (u32 (cp - current_point T))), (@nil push).
  match goal with |- forall _ _, no_uaf (update_times _ ?t _) => generalize t end.
  intros T' n. revert T'. induction n as [|n IH]; intros T' out; [done|]. cbn [update_times].
  apply no_uaf_bind; [|intros []; apply IH]. unfold timer_update.
  apply no_uaf_bind; [apply timer_execute_no_uaf|]. intros [].
  apply no_uaf_bind; [apply timer_shift_no_uaf|]. intros ?.
  apply no_uaf_bind; [apply timer_execute_no_uaf|]. by intros [].
Qed.

Lemma timeout_no_uaf T b h t se : no_uaf (skynet_timeout T b h t se).
Proof.
  unfold skynet_timeout. case_bool_decide; [done|].
  apply no_uaf_bind; [apply add_node_no_uaf|done].
Qed.

(** ** Following pointers *)

Lemma wp_context s p c (Q : SNContext -> server -> Prop) :
  contexts s !! p = Some c -> Q c s -> wp (context_of p) s Q.
Proof. intros E HQ. unfold wp. by rewrite (context_of_Some _ _ _ E). Qed.

Lemma wp_queue s q mq (Q : SNMessageQueue -> server -> Prop) :
  queues s !! q = Some mq -> Q mq s -> wp (queue_of q) s Q.
Proof. intros E HQ. unfold wp. by rewrite (queue_of_Some _ _ _ E). Qed.

Lemma wp_MessageQueue s p c q (Q : qid -> server -> Prop) :
  contexts s !! p = Some c -> c_queue c = Some q -> Q q s -> wp (SNContext_MessageQueue p) s Q.
Proof. intros Hc Hq HQ. unfold wp. by rewrite (MessageQueue_Some _ _ _ _ Hc Hq). Qed.

Lemma wp_handle s p (Q : Z -> server -> Prop) : exists_context s p ->
  (forall h, Q h s) -> wp (c_handle <$> context_of p) s Q.
Proof. intros [c Hc] HQ. apply wp_fmap, (wp_context _ _ c); auto. Qed.

(** What the lemmas below say of a computation that no service comes or goes in. *)
Definition tame {A} (held : list qid) (m : srv A) (s : server) : Prop :=
  wp m s (fun _ s' => wf held s' /\ quiet s s').

Lemma tame_bind {A B} held (m : srv A) (f : A -> srv B) s :
  tame held m s -> (forall a s', wf held s' -> quiet s s' -> tame held (f a) s') ->
  tame held (x ← m; f x) s.
Proof.
  intros Hm Hf. apply wp_bind. eapply wp_mono; [exact Hm|]. intros a s' [Hw Hq].
  eapply wp_mono; [by apply Hf|]. intros b s'' [? ?]. split; [done|by transitivity s'].
Qed.

Lemma tame_ret {A} held (a : A) s : wf held s -> tame held (mret a) s.
Proof. intros Hw. by apply wp_ret. Qed.

Lemma tame_handle held s p : wf held s -> exists_context s p -> tame held (c_handle <$> context_of p) s.
Proof. intros Hw Hp. by apply wp_handle. Qed.

Lemma tame_free held s d : wf held s -> tame held (sn_free d) s.
Proof.
  intros Hw. destruct d; [|by apply tame_ret]. apply wp_modify.
  assert (stable s (add_freed [m] s)) by (split; by eauto).
  split; [by eapply wf_ext|by split].
Qed.

Lemma tame_logger held s x : wf held s -> tame held (modify (set_logger x)) s.
Proof.
  intros Hw. apply wp_modify. assert (stable s (set_logger x s)) by (split; by eauto).
  split; [by eapply wf_ext|by split].
Qed.

Lemma tame_require held s b : wf held s -> tame held (Server.require b) s.
Proof. intros Hw. apply wp_require. done. Qed.

(** ** Sending *)

Lemma tame_push held s p c q mq msg : wf held s -> contexts s !! p = Some c ->
  c_queue c = Some q -> queues s !! q = Some mq -> tame held (SNContext_Push p msg) s.
Proof.
  intros Hw Hc Hq Hmq. apply wp_bind, (wp_MessageQueue _ _ c q); [done..|].
  apply wp_bind, (wp_queue _ _ mq); [done|]. apply wp_modify.
  assert (Hset : forall m g, core (held ++ gq_elems g) (<[q := m]> (queues s)) -> gq_wf g ->
    m_handle m = m_handle mq -> wf held (set_queues (<[q := m]> (queues s)) g s) /\
    quiet s (set_queues (<[q := m]> (queues s)) g s)).
  { intros m g Hco Hg Hh. destruct (wf_set_queue held held s q mq m g); auto. }
  destruct (Push_cases q msg mq (m_pMqMgr s)) as [[Hb ->]|[Hb ->]]; apply Hset; try done.
  - apply (core_update _ _ q mq); [done..| |apply (wf_core _ _ Hw)]. cbn. congruence.
  - apply (wf_gq _ _ Hw).
  - apply (core_perm (q :: held ++ gq_elems (m_pMqMgr s))).
    { rewrite gq_push_elems. by rewrite Permutation_middle. }
    apply core_raise; [|done|apply (wf_core _ _ Hw)]. intros x Hx. congruence.
  - by apply gq_push_wf, (wf_gq _ _ Hw).
Qed.

Lemma tame_push_registered held s l p msg : wf held s -> registered s l p ->
  tame held (SNContext_Push p msg) s.
Proof. intros Hw (c & q & mq & Hc & Hq & Hmq & _). by apply (tame_push held s p c q mq). Qed.

Lemma tame_ContextPush held s h msg : wf held s -> tame held (ContextPush h msg) s.
Proof.
  intros Hw. apply wp_bind, wp_get. destruct (SNHandleMgr_FindContext _ _) as [p|] eqn:E.
  - apply tame_bind; [|by auto using tame_ret].
    eapply tame_push_registered; [done|by eapply find_registered].
  - by apply tame_ret.
Qed.

Lemma tame_error held s o text : wf held s -> opt_exists s o -> tame held (skynet_error o text) s.
Proof.
  intros Hw Ho. apply wp_bind, wp_get. cbv zeta. apply tame_bind; [by apply tame_logger|].
  intros _ s1 Hw1 Hq1. case_bool_decide; [by apply tame_ret|]. apply tame_bind.
  - destruct o as [p|]; [|by apply tame_ret]. apply tame_handle; [done|].
    eapply exists_stable; [apply Hq1|by apply Ho].
  - intros src s2 Hw2 _. apply tame_bind; [by apply tame_ContextPush|]. auto using tame_ret.
Qed.

Lemma tame_harbor_send held s name h d n src se :
  wf held s -> tame held (skynet_harbor_send name h d n src se) s.
Proof.
  intros Hw. apply wp_bind, wp_get. apply wp_bind, wp_require. intros Hb.
  apply bool_decide_eq_true in Hb. cbv zeta. apply wp_bind, wp_require. intros _.
  destruct (REMOTE s) as [p|] eqn:E; [|done].
  destruct (wf_remote _ _ Hw p Hb E) as [l Hl].
  by eapply tame_push_registered, wf_slot.
Qed.

Lemma tame_NewSession held s p : wf held s -> exists_context s p -> tame held (SNContext_NewSession p) s.
Proof.
  intros Hw [c Hc]. unfold tame, wp. rewrite (NewSession_spec _ _ _ Hc).
  by apply (wf_set_context held s p c).
Qed.

Lemma tame_filter_args held s o type session data n :
  wf held s -> opt_exists s o -> (allocates type = true -> o <> None) ->
  tame held (_filter_args o type session data n) s.
Proof.
  intros Hw Ho Ha. unfold _filter_args. fold (allocates type). cbv zeta.
  apply tame_bind; [|intros se s1 Hw1 _; apply tame_bind; [|by auto using tame_ret]].
  - destruct (allocates type); [|by apply tame_ret]. apply tame_bind; [by apply tame_require|].
    intros _ s1 Hw1 Hq1. destruct o as [p|]; [|by destruct Ha].
    apply tame_NewSession; [done|]. eapply exists_stable; [apply Hq1|by apply Ho].
  - destruct data as [text|]; [|by apply tame_ret]. case_bool_decide; [|by apply tame_ret].
    apply wp_bind, wp_lift; [apply no_uaf_bytes|]. intros a _. by apply wp_ret.
Qed.

Lemma tame_source held s o source : wf held s -> opt_exists s o -> (source = 0 -> o <> None) ->
  tame held (if bool_decide (source = 0) then the_handle o else mret source) s.
Proof.
  intros Hw Ho Hs. case_bool_decide; [|by apply tame_ret].
  destruct o as [p|]; [|by destruct Hs]. apply tame_handle; [done|by apply Ho].
Qed.

Lemma tame_send held s o source dest type session data n :
  wf held s -> opt_exists s o -> (o = None -> source <> 0 /\ allocates type = false) ->
  tame held (skynet_send o source dest type session data n) s.
Proof.
  intros Hw Ho Hn. unfold skynet_send. case_bool_decide.
  { apply tame_bind; [by apply tame_error|]. intros _ s1 Hw1 _.
    apply tame_bind; [by apply tame_free|]. auto using tame_ret. }
  apply tame_bind.
  { apply tame_filter_args; [done..|]. intros Ha ->. destruct Hn; congruence. }
  intros [[se d] m] s1 Hw1 Hq1. apply tame_bind.
  { apply tame_source; [done| |]. { eapply opt_exists_stable; [apply Hq1|done]. }
    intros -> ->. by destruct Hn. }
  intros src s2 Hw2 Hq2. case_bool_decide; [by apply tame_ret|].
  apply wp_bind, wp_get. destruct (skynet_harbor_message_isremote dest s2).
  - apply tame_bind; [by apply tame_harbor_send|]. auto using tame_ret.
  - apply tame_bind; [by apply tame_ContextPush|]. intros r s3 Hw3 _. case_bool_decide.
    + apply tame_bind; [by apply tame_free|]. auto using tame_ret.
    + by apply tame_ret.
Qed.

Lemma tame_send_from held s p source dest type session data n :
  wf held s -> exists_context s p ->
  tame held (skynet_send (Some p) source dest type session data n) s.
Proof. intros Hw Hp. apply tame_send; [done| |done]. by intros ? [= <-]. Qed.

Lemma tame_sendname held s p source addr type session data n :
  wf held s -> exists_context s p ->
  tame held (skynet_sendname (Some p) source addr type session data n) s.
Proof.
  intros Hw Hp. assert (Ho : opt_exists s (Some p)) by (by intros ? [= <-]).
  unfold skynet_sendname. apply tame_bind; [by apply tame_source|]. intros src s1 Hw1 Hq1.
  assert (Hp1 : exists_context s1 p) by (eapply exists_stable; [apply Hq1|done]).
  assert (Hglobal : tame held ('(session, data, n) ← _filter_args (Some p) type session data n;
    _ ← skynet_harbor_send (copy_name 16 addr) 0 data n src session; mret session) s1).
  { apply tame_bind.
    { apply tame_filter_args; [done| |done]. by intros ? [= <-]. }
    intros [[se d] m] s2 Hw2 _. apply tame_bind; [by apply tame_harbor_send|]. auto using tame_ret. }
  destruct addr as [|[|c|c] addr]; try exact Hglobal.
  repeat (destruct c as [c|c|]; try exact Hglobal).
  - apply wp_bind, wp_get. cbv zeta. case_bool_decide; [|by apply tame_send_from].
    apply tame_bind; [|by auto using tame_ret]. case_bool_decide; [by apply tame_free|by apply tame_ret].
  - by apply tame_send_from.
Qed.

(** ** The timer *)

Lemma tame_pushes held l s : wf held s -> tame held (push_timeouts l) s.
Proof.
  revert s. induction l as [|x l IH]; intros s Hw; cbn [push_timeouts]; [by apply tame_ret|].
  apply tame_bind; [by apply tame_ContextPush|]. auto.
Qed.

Lemma tame_TI held s T : wf held s -> tame held (modify (set_TI T)) s.
Proof.
  intros Hw. apply wp_modify. assert (stable s (set_TI T s)) by (split; by eauto).
  split; [by eapply wf_ext|by split].
Qed.

Lemma tame_timeout held s h t se : wf held s -> tame held (server_timeout h t se) s.
Proof.
  intros Hw. apply wp_bind, wp_get. apply wp_bind, wp_lift; [apply timeout_no_uaf|].
  intros [[r T] ps] _. apply tame_bind; [by apply tame_TI|]. intros _ s1 Hw1 _.
  apply tame_bind; [by apply tame_pushes|]. auto using tame_ret.
Qed.

Lemma tame_updatetime held s cp : wf held s -> tame held (server_updatetime cp) s.
Proof.
  intros Hw. apply wp_bind, wp_get. cbv zeta. apply tame_bind.
  - case_bool_decide; [by apply tame_error|by apply tame_ret].
  - intros _ s1 Hw1 _. apply wp_bind, wp_get. apply wp_bind, wp_lift; [apply updatetime_no_uaf|].
    intros [T ps] _. apply tame_bind; [by apply tame_TI|]. intros _ s2 Hw2 _. by apply tame_pushes.
Qed.

(** ** Popping, dropping and deleting a queue that is held *)

(** A held queue is there and flagged. *)
Lemma held_queue H0 s q : wf H0 s -> q ∈ H0 -> exists mq, queues s !! q = Some mq /\ m_bInGlobal mq = true.
Proof. intros Hw Hin. eapply core_token; [apply (wf_core _ _ Hw)|]. set_solver. Qed.

(** A flagged queue after a pop that keeps the flag, or that takes a message. *)
Lemma wf_pop_keep held s q mq mq' b m : wf held s -> m_bInGlobal mq = true ->
  queues s !! q = Some mq -> SNMessageQueue_Pop mq b = Ret (m, mq') -> (b = false \/ m <> None) ->
  m_handle mq' = m_handle mq /\ m_bInGlobal mq' = true /\
  wf held (set_queues (<[q := mq']> (queues s)) (m_pMqMgr s) s) /\
  quiet s (set_queues (<[q := mq']> (queues s)) (m_pMqMgr s) s).
Proof.
  intros Hw Hflag Hq Hp Hb. destruct (Pop_ret _ _ _ _ Hp) as (Hm & Ht & Hh & Hf).
  assert (m_bInGlobal mq' = true).
  { destruct (m_queue mq); simpl in Hm; destruct b, Hb; congruence. }
  split; [done|]. split; [done|].
  destruct (wf_set_queue held held s q mq mq' (m_pMqMgr s)) as [? Hqu]; try done.
  - apply (core_update _ _ q mq); try done; [congruence|by congruence|apply (wf_core _ _ Hw)].
  - apply (wf_gq _ _ Hw).
Qed.

(** Changes of a queue that neither flag nor messages are touched by. *)
Lemma wf_overload held s q mq : wf held s -> queues s !! q = Some mq ->
  let mq' := snd (SNMessageQueue_Overload mq) in
  m_handle mq' = m_handle mq /\
  wf held (set_queues (<[q := mq']> (queues s)) (m_pMqMgr s) s) /\
  quiet s (set_queues (<[q := mq']> (queues s)) (m_pMqMgr s) s).
Proof.
  intros Hw Hq mq'.
  assert (Hmq' : m_handle mq' = m_handle mq /\ m_bInGlobal mq' = m_bInGlobal mq /\ m_queue mq' = m_queue mq)
    by (unfold mq', SNMessageQueue_Overload; by case_bool_decide).
  destruct Hmq' as (Hh & Hb & Hl). split; [done|].
  destruct (wf_set_queue held held s q mq mq' (m_pMqMgr s)) as [? Hqu]; try done.
  - apply (core_update _ _ q mq); [done..| |apply (wf_core _ _ Hw)].
    rewrite Hb, Hl. intros Hfl. by eapply core_empty, Hfl; [apply (wf_core _ _ Hw)|].
  - apply (wf_gq _ _ Hw).
Qed.

Lemma tame_drop_message held s d msg : wf held s -> tame held (drop_message d msg) s.
Proof.
  intros Hw. apply tame_bind; [by apply tame_free|]. intros _ s1 Hw1 _.
  apply wp_bind, wp_require. intros Hd%bool_decide_eq_true.
  apply tame_bind; [|by auto using tame_ret]. by apply tame_send.
Qed.

Lemma tame_drop fuel held d q : q ∈ held -> forall s, wf held s ->
  tame held (drop_queue_messages fuel d q) s.
Proof.
  intros Hin. induction fuel as [|fuel IH]; intros s Hw; cbn [drop_queue_messages];
    destruct (held_queue _ _ _ Hw Hin) as (mq & Hq & Hfl);
    apply wp_bind, (wp_queue _ _ mq); [done| |done|];
    apply wp_bind, wp_lift; try apply Pop_no_uaf; intros [m mq'] Hp;
    destruct (wf_pop_keep held s q mq mq' false m) as (_ & _ & Hw1 & Hq1); auto;
    apply tame_bind; try (by apply wp_modify); intros _ s2 Hw2 _;
    destruct m; try (by apply tame_ret); [done|].
  apply tame_bind; [by apply tame_drop_message|]. auto.
Qed.

(** No registered context has this queue. *)
Definition unowned (s : server) (q : qid) : Prop :=
  forall l p c, m_slot (m_pHandleMgr s) !! l = Some p -> contexts s !! p = Some c ->
    c_queue c <> Some q.

(** Two registered services do not share a queue. *)
Lemma slot_queue held s l1 l2 p1 p2 c1 c2 q :
  wf held s -> m_slot (m_pHandleMgr s) !! l1 = Some p1 -> m_slot (m_pHandleMgr s) !! l2 = Some p2 ->
  contexts s !! p1 = Some c1 -> contexts s !! p2 = Some c2 ->
  c_queue c1 = Some q -> c_queue c2 = Some q -> l1 = l2.
Proof.
  intros Hw H1 H2 Hc1 Hc2 Hq1 Hq2.
  destruct (wf_slot _ _ Hw l1 p1 H1) as (? & ? & mq1 & ? & ? & ? & ? & E1).
  destruct (wf_slot _ _ Hw l2 p2 H2) as (? & ? & mq2 & ? & ? & ? & ? & E2).
  destruct (wf_hm _ _ Hw) as ((k & Hk & Hhb) & _ & Hs). simplify_eq.
  assert (E : Z.lor l1 (k * 2 ^ 24) = Z.lor l2 (k * 2 ^ 24)) by (rewrite <- Hhb; congruence).
  apply (f_equal handle_local) in E. by rewrite !lor_harbor_local in E by eauto.
Qed.

(** What the push to a handle does to every registered service: the one of the handle gets
    the message, and no other changes. *)
Lemma ContextPush_each held s h msg : wf held s ->
  exists r s', ContextPush h msg s = Ret (r, s') /\ wf held s' /\ quiet s s' /\
    (exists x g, s' = set_queues x g s) /\
    (forall q, unowned s q -> queues s' !! q = queues s !! q) /\
    forall l p c q mq, m_slot (m_pHandleMgr s) !! l = Some p -> contexts s !! p = Some c ->
      c_queue c = Some q -> queues s !! q = Some mq -> exists mq', queues s' !! q = Some mq' /\
      m_queue mq' = m_queue mq ++ (if decide (handle_local h = l) then [msg] else []) /\
      m_overload_threshold mq' = m_overload_threshold mq.
Proof.
  intros Hw. pose proof (tame_ContextPush held s h msg Hw) as Ht. unfold tame, wp in Ht.
  destruct (SNHandleMgr_FindContext (m_pHandleMgr s) h) as [t|] eqn:Hf.
  - pose proof (find_registered _ _ _ _ Hw Hf) as (ct & qt & mt & Hct & Hqt & Hmt & _ & _).
    assert (Hl : live s h t ct qt mt) by done.
    pose proof (ContextPush_live _ _ _ _ _ _ msg Hl) as Hp. rewrite Hp in Ht. destruct Ht as [Hw' Hq'].
    exists 0, (push_to qt mt msg s). split; [done|]. split; [done|]. split; [done|].
    destruct (push_to_spec qt mt msg s Hmt) as (mq' & Hqs & Hmq' & _ & _ & Hth).
    split; [apply push_to_frame|]. split.
    { intros q Hu. rewrite Hqs, lookup_insert_ne; [done|]. intros ->. by apply (Hu _ t ct Hf). }
    intros l p c q mq Hlp Hc Hq Hmq. rewrite Hqs. destruct (decide (q = qt)) as [->|Hne].
    + assert (handle_local h = l) by by eapply (slot_queue held s (handle_local h)).
      rewrite decide_True by done. exists mq'. rewrite lookup_insert_eq. simplify_eq. done.
    + rewrite lookup_insert_ne by done. exists mq. split; [done|].
      rewrite decide_False; [by rewrite app_nil_r|]. intros <-.
      unfold SNHandleMgr_FindContext in Hf. congruence.
  - exists (-1), s. split; [by apply ContextPush_gone|]. do 2 (split; [done|]).
    split; [exists (queues s), (m_pMqMgr s); by destruct s|]. split; [done|].
    intros l p c q mq Hlp Hc Hq Hmq. exists mq. split; [done|].
    rewrite decide_False; [by rewrite app_nil_r|]. intros <-.
    unfold SNHandleMgr_FindContext in Hf. congruence.
Qed.

Lemma unowned_quiet (held : list qid) s s' q : wf held s -> quiet s s' -> unowned s q -> unowned s' q.
Proof.
  intros Hw [Hst Hh _] Hu l p c Hl Hc. rewrite Hh in Hl.
  destruct (wf_slot _ _ Hw l p Hl) as (c0 & q0 & mq0 & Hc0 & Hq0 & _).
  destruct (stable_context _ _ Hst p c0 Hc0) as (c' & Hc' & Hq' & _).
  specialize (Hu l p c0 Hl Hc0). congruence.
Qed.

(** The release of a queue: only that queue goes. *)
Record released (q : qid) (s s' : server) : Prop := mk_released {
  released_harbor : HARBOR s' = HARBOR s;
  released_queue q1 mq : q1 <> q -> queues s !! q1 = Some mq ->
    exists mq', queues s' !! q1 = Some mq' /\ m_handle mq' = m_handle mq;
  released_context p c : contexts s !! p = Some c ->
    exists c', contexts s' !! p = Some c' /\ c_queue c' = c_queue c /\ c_handle c' = c_handle c
}.

Lemma wp_release held s d q : wf (q :: held) s -> unowned s q ->
  wp (Server.release_queue d q) s (fun _ s' => wf held s' /\ released q s s').
Proof.
  intros Hw Hu. unfold Server.release_queue.
  destruct (held_queue _ _ q Hw) as (mq & Hq & _); [set_solver|].
  apply wp_bind, (wp_queue _ _ mq); [done|]. apply wp_bind.
  eapply wp_mono; [apply (tame_drop _ (q :: held) d q); [set_solver|done]|].
  intros _ s1 [Hw1 Hq1]. apply wp_modify.
  pose proof (unowned_quiet _ _ _ _ Hw Hq1 Hu) as Hu1. split.
  - eapply wf_set_queues; [done| |apply (wf_gq _ _ Hw1)|].
    + apply core_delete, (wf_core _ _ Hw1).
    + intros l p Hl c q1 x Hc Hq1' Hx. exists x. split; [|done].
      rewrite lookup_delete_ne; [done|]. intros ->. by apply (Hu1 l p c Hl Hc).
  - destruct Hq1 as [[Hha Hsq Hcx _] _ _]. split; cbn; [done| |done].
    intros q1 x Hne Hx. rewrite lookup_delete_ne by done. by apply Hsq.
Qed.

(** ** Commands *)

(** Services may come and go. *)
Definition safe {A} (held : list qid) (m : srv A) (s : server) : Prop :=
  wp m s (fun _ s' => wf held s' /\ stable s s').

Lemma tame_safe {A} held (m : srv A) s : tame held m s -> safe held m s.
Proof. intros Ht. eapply wp_mono; [exact Ht|]. intros a s' [? [? _ _]]. done. Qed.

Lemma safe_seq {A B} held (m : srv A) (f : A -> srv B) s :
  safe held m s -> (forall a s', wf held s' -> stable s s' -> safe held (f a) s') ->
  safe held (x ← m; f x) s.
Proof.
  intros Hm Hf. apply wp_bind. eapply wp_mono; [exact Hm|]. intros a s' [Hw Hq].
  eapply wp_mono; [by apply Hf|]. intros b s'' [? ?]. split; [done|by transitivity s'].
Qed.

Lemma safe_ret {A} held (a : A) s : wf held s -> safe held (mret a) s.
Proof. intros Hw. by apply wp_ret. Qed.

Lemma wf_set_handles held s m :
  wf held s -> hm_wf m -> m_harbor m = m_harbor (m_pHandleMgr s) ->
  (forall l p, m_slot m !! l = Some p -> m_slot (m_pHandleMgr s) !! l = Some p) ->
  (HARBOR s <> 0 -> m_slot m = m_slot (m_pHandleMgr s)) ->
  wf held (set_handles m s) /\ stable s (set_handles m s).
Proof.
  intros Hw Hm Hh Hsub Hsame.
  split; [|split; [done|by eauto|by eauto|]; intros l p Hz; cbn; by rewrite Hsame].
  split; cbn; [apply (wf_core _ _ Hw)|apply (wf_gq _ _ Hw)|done|by rewrite Hh, (wf_harbor _ _ Hw)| |].
  - intros l p Hl. destruct (wf_slot _ _ Hw l p (Hsub l p Hl)) as (c & q & mq & ? & ? & ? & ? & Hc).
    exists c, q, mq. cbn. rewrite Hh. done.
  - intros p Hne Hr. rewrite Hsame by done. by apply (wf_remote _ _ Hw).
Qed.

Lemma Handle_in_slot held s : wf held s ->
  forall l c, m_slot (m_pHandleMgr s) !! l = Some c -> Handle_in s c = Z.lor l (m_harbor (m_pHandleMgr s)).
Proof.
  intros Hw l p Hl. destruct (wf_slot _ _ Hw l p Hl) as (c & ? & ? & Hc & _ & _ & _ & ?).
  unfold Handle_in. by rewrite Hc.
Qed.

(** The slot of a handle is empty afterwards on a node without a number. *)
Lemma wp_remove held s h : wf held s ->
  wp (handle_remove h) s (fun r s' => wf held s' /\ stable s s' /\
    (HARBOR s = 0 -> m_slot (m_pHandleMgr s') = delete (handle_local h) (m_slot (m_pHandleMgr s))) /\
    forall p, r = Some p -> exists c q mq,
      contexts s' !! p = Some c /\ c_queue c = Some q /\ queues s' !! q = Some mq).
Proof.
  intros Hw. unfold handle_remove, wp. pose proof (Handle_in_slot _ _ Hw) as HH.
  destruct (decide (HARBOR s = 0)) as [Hz|Hz].
  - rewrite Remove_without_harbor by (try done; by rewrite <- (wf_harbor _ _ Hw)).
    destruct (SNHandleMgr_FindContext _ _) as [p|] eqn:E.
    + destruct (wf_slot _ _ Hw _ _ E) as (c & q & mq & Hc & Hq & Hmq & _).
      match goal with |- context [set_handles ?m s] =>
        destruct (wf_set_handles held s m) as [Hw' Hst] end; try done.
      * destruct (wf_hm _ _ Hw) as (Hk & Hi & Hs). split_and!; [done..|]. cbn.
        intros l p' [_ Hl]%lookup_delete_Some. eauto.
      * cbn. by intros l p' [_ Hl]%lookup_delete_Some.
      * split_and!; [done|done|done|]. intros ? [= <-]. by exists c, q, mq.
    + replace (set_handles (m_pHandleMgr s) s) with s by by destruct s.
      split_and!; [done|done| |done]. intros _. by rewrite delete_id.
  - rewrite (Remove_with_harbor (Handle_in s)) by
      (first [done | apply (wf_hm _ _ Hw) | by rewrite <- (wf_harbor _ _ Hw)]).
    replace (set_handles (m_pHandleMgr s) s) with s by by destruct s.
    split_and!; done.
Qed.

Lemma tame_force held s p c q mq : wf held s -> contexts s !! p = Some c -> c_queue c = Some q ->
  queues s !! q = Some mq -> tame held (ForceInGlobal p) s.
Proof.
  intros Hw Hc Hq Hmq. apply wp_bind, (wp_MessageQueue _ _ c q); [done..|].
  apply wp_bind, (wp_queue _ _ mq); [done|]. apply wp_modify.
  assert (Hset : forall m g, core (held ++ gq_elems g) (<[q := m]> (queues s)) -> gq_wf g ->
    m_handle m = m_handle mq -> wf held (set_queues (<[q := m]> (queues s)) g s) /\
    quiet s (set_queues (<[q := m]> (queues s)) g s)).
  { intros m g Hco Hg Hh. destruct (wf_set_queue held held s q mq m g); auto. }
  destruct (Force_cases q mq (m_pMqMgr s)) as [[Hb ->]|[Hb ->]]; apply Hset; try done.
  - rewrite insert_id by done. apply (wf_core _ _ Hw).
  - apply (wf_gq _ _ Hw).
  - apply (core_perm (q :: held ++ gq_elems (m_pMqMgr s))).
    { rewrite gq_push_elems. by rewrite Permutation_middle. }
    apply core_raise; [|done|apply (wf_core _ _ Hw)]. intros x Hx. congruence.
  - by apply gq_push_wf, (wf_gq _ _ Hw).
Qed.

Lemma safe_handle_exit held s p h : wf held s -> exists_context s p -> safe held (handle_exit p h) s.
Proof.
  intros Hw Hp. assert (Ho : opt_exists s (Some p)) by (by intros ? [= <-]).
  apply safe_seq.
  { apply tame_safe. case_bool_decide.
    - destruct Hp as [c Hc]. apply wp_bind, (wp_context _ _ c); [done|].
      apply tame_bind; [by apply tame_error|]. auto using tame_ret.
    - apply tame_bind; [by apply tame_error|]. auto using tame_ret. }
  intros h' s1 Hw1 Hst1. apply wp_bind, wp_get. apply safe_seq.
  { apply tame_safe. case_bool_decide; [|by apply tame_ret].
    apply tame_bind; [|by auto using tame_ret]. apply tame_send_from; [done|].
    by eapply exists_stable. }
  intros _ s2 Hw2 Hst2. apply wp_bind. eapply wp_mono; [by apply (wp_remove held)|].
  intros [t|] s3 (Hw3 & Hst3 & _ & Hlive).
  - destruct (Hlive t eq_refl) as (c & q & mq & Hc & Hq & Hmq).
    eapply wp_mono; [by eapply (tame_force held)|]. intros _ s4 [Hw4 [Hst4 _ _]].
    split; [done|by transitivity s3].
  - by apply wp_ret.
Qed.

Lemma safe_name_handle held s h name : wf held s -> safe held (name_handle h name) s.
Proof.
  intros Hw. unfold name_handle, safe, wp, SNHandleMgr_NameHandle.
  destruct (m_nameMap _ !! _).
  - replace (set_handles (m_pHandleMgr s) s) with s by by destruct s. done.
  - apply wf_set_handles; try done. apply (wf_hm _ _ Hw).
Qed.

Lemma tame_tohandle held s p param : wf held s -> exists_context s p -> tame held (tohandle p param) s.
Proof.
  intros Hw Hp. assert (He : forall text, tame held (_ ← skynet_error (Some p) text; mret 0) s).
  { intros text. apply tame_bind; [|by auto using tame_ret]. apply tame_error; [done|].
    by intros ? [= <-]. }
  unfold tohandle. destruct param as [|[|c|c] param]; try apply He.
  repeat (destruct c as [c|c|]; try apply He);
    first [by apply (tame_ret held) | unfold find_name; apply wp_bind, wp_get; by apply wp_ret].
Qed.

(** A context changes, and keeps its queue and its handle. *)
Lemma tame_update held s p c c' : wf held s -> contexts s !! p = Some c ->
  c_queue c' = c_queue c -> c_handle c' = c_handle c -> tame held (modify (set_context p c')) s.
Proof. intros Hw Hc Hq Hh. apply wp_modify. by apply (wf_set_context held s p c). Qed.

(** ** Launching *)

Lemma wp_PushGlobal held s q : wf (q :: held) s ->
  wp (Server.PushGlobal q) s (fun _ s' => wf held s' /\ quiet s s').
Proof.
  intros Hw. destruct (held_queue _ _ q Hw) as (mq & Hq & Hb); [set_solver|].
  apply wp_bind, (wp_queue _ _ mq); [done|]. apply wp_bind, wp_require. intros _. apply wp_modify.
  split.
  - eapply wf_set_queues; [done| |by apply gq_push_wf, (wf_gq _ _ Hw)|eauto].
    eapply core_perm; [|apply (wf_core _ _ Hw)]. rewrite gq_push_elems. simpl.
    by rewrite Permutation_middle.
  - apply quiet_set_queues. eauto.
Qed.

Lemma register_no_uaf m p : no_uaf (SNHandleMgr_Register m p).
Proof.
  unfold SNHandleMgr_Register. apply no_uaf_bind; [|done].
  generalize (register_fuel (m_slot m)) as fuel, 0. induction fuel as [|fuel IH]; intros i; [done|].
  cbn [register_search]. case_match; [apply IH|done].
Qed.

(** The state in which the [init] of a new service runs. *)
Record launching (held : list qid) (s s' : server) (p : ctxptr) (q : qid) (handle : Z) : Prop := {
  ln_wf : wf (q :: held) s';
  ln_stable : stable s s';
  ln_caller : exists c mq, contexts s' !! p = Some c /\ c_queue c = Some q /\
    queues s' !! q = Some mq /\ m_handle mq = handle;
  ln_handle : handle = Z.lor (handle_local handle) (HARBOR s);
  ln_slot : m_slot (m_pHandleMgr s') !! handle_local handle = Some p
}.

Lemma wf_launching held s p q h m c :
  wf held s -> contexts s !! p = None -> queues s !! q = None ->
  SNHandleMgr_Register (m_pHandleMgr s) p = Ret (h, m) -> c_queue c = Some q -> c_handle c = h ->
  launching held s (set_context p c (set_queues (<[q := SNMessageQueue_new h]> (queues s))
    (m_pMqMgr s) (set_handles m s))) p q h.
Proof.
  intros Hw Hp Hq Hreg Hcq Hch.
  destruct (Register_Ret _ _ _ _ (wf_hm _ _ Hw) Hreg) as (l & Hh & Hl & Hfree & Hslot & Hhb & Hm & _).
  set (s' := set_context _ _ _).
  assert (Hst : stable s s').
  { split; [done| | |]; cbn.
    3: { intros l1 p1 _ H1. rewrite Hslot, lookup_insert_ne; [done|congruence]. }
    - intros q1 mq1 Hq1. exists mq1. rewrite lookup_insert_ne by congruence. done.
    - intros p1 c1 Hp1. exists c1. rewrite lookup_insert_ne by congruence. done. }
  split.
  - split; cbn; [|apply (wf_gq _ _ Hw)|done|by rewrite Hhb, (wf_harbor _ _ Hw)| |].
    + apply core_raise; [|done|apply (wf_core _ _ Hw)]. congruence.
    + intros l1 p1. rewrite Hslot. destruct (decide (l1 = l)) as [->|Hne].
      * rewrite lookup_insert_eq. intros [= <-]. exists c, q, (SNMessageQueue_new h).
        cbn. rewrite !lookup_insert_eq, Hhb. cbn. split_and!; congruence.
      * rewrite lookup_insert_ne by done. intros H1.
        destruct (wf_slot _ _ Hw l1 p1 H1) as (c1 & q1 & mq1 & ? & ? & ? & ? & ?).
        exists c1, q1, mq1. cbn. rewrite !lookup_insert_ne by congruence.
        rewrite Hhb. done.
    + intros p1 Hne Hr. destruct (wf_remote _ _ Hw p1 Hne Hr) as (l1 & H1). exists l1.
      rewrite Hslot, lookup_insert_ne; [done|]. congruence.
  - done.
  - exists c. eexists. cbn. by rewrite !lookup_insert_eq.
  - rewrite Hl, (wf_harbor _ _ Hw). done.
  - cbn. by rewrite Hl, Hslot, lookup_insert_eq.
Qed.

(** A failed launch: what the removal leaves of the queue. *)
Lemma removed_unowned held (s s' : server) q h mq :
  wf (q :: held) s' -> HARBOR s' = 0 -> h = handle_local h ->
  queues s' !! q = Some mq -> m_handle mq = h ->
  m_slot (m_pHandleMgr s') = delete (handle_local h) (m_slot (m_pHandleMgr s)) -> unowned s' q.
Proof.
  intros Hw Hz Hh Hq Hmh Hd l p c Hl Hc Hcq.
  destruct (wf_slot _ _ Hw l p Hl) as (c1 & q1 & mq1 & Hc1 & Hq1 & Hmq1 & Hm1 & Hc1').
  rewrite <- (wf_harbor _ _ Hw), Hz, Z.lor_0_r in Hc1'.
  assert (l = handle_local h) as -> by congruence. by rewrite Hd, lookup_delete_eq in Hl.
Qed.

Section LAUNCH.
Context (node : Z).
Context (module_create : list Z -> bool).
Context (module_init : list Z -> ctxptr -> option (list Z) -> srv Z).

(** [init] of a service on this node: it keeps the invariant, and succeeds when the node
    has a number. *)
Definition init_safe : Prop := forall held (s : server) name p param,
  wf held s -> HARBOR s = node -> caller s p ->
  wp (module_init name p param) s (fun r s' =>
    wf held s' /\ stable s s' /\ (node <> 0 -> r = 0)).

Context (Hinit : init_safe).

Lemma wp_launched held s p q name param : wf (q :: held) s -> exists_context s p ->
  wp (_ ← Server.PushGlobal q; _ ← skynet_error (Some p) (launch_text name param); mret (Some p)) s
    (fun r s' => wf held s' /\ stable s s' /\ forall p, r = Some p -> exists_context s' p).
Proof.
  intros Hw Hp. apply wp_bind. eapply wp_mono; [by apply (wp_PushGlobal held)|].
  intros _ s1 [Hw1 [Hst1 _ _]]. apply wp_bind.
  assert (Hp1 : exists_context s1 p) by by eapply exists_stable.
  eapply wp_mono; [apply (tame_error held); [done|by intros ? [= <-]]|].
  intros _ s2 [Hw2 [Hst2 _ _]]. apply wp_ret. split_and!; [done|by transitivity s1|].
  intros ? [= <-]. by eapply exists_stable.
Qed.

Lemma wp_failed held s p q handle name : wf (q :: held) s -> exists_context s p -> HARBOR s = 0 ->
  handle = handle_local handle -> (exists mq, queues s !! q = Some mq /\ m_handle mq = handle) ->
  wp (_ ← skynet_error (Some p) (bytes_of "FAILED launch " ++ name);
      _ ← handle_remove handle; _ ← Server.release_queue handle q; mret (@None ctxptr)) s
    (fun r s' => wf held s' /\ released q s s' /\ r = None).
Proof.
  intros Hw Hp Hz Hh (mq & Hmq & Hmh). apply wp_bind.
  eapply wp_mono; [apply (tame_error (q :: held)); [done|by intros ? [= <-]]|].
  intros _ s1 [Hw1 [Hst1 _ _]]. apply wp_bind.
  eapply wp_mono; [by apply (wp_remove (q :: held))|]. intros r s2 (Hw2 & Hst2 & Hd & _).
  assert (Hst : stable s s2) by by transitivity s1.
  assert (Hz1 : HARBOR s1 = 0) by by rewrite (stable_harbor _ _ Hst1).
  assert (Hz2 : HARBOR s2 = 0) by by rewrite (stable_harbor _ _ Hst).
  destruct (stable_queue _ _ Hst q mq) as (mq2 & Hmq2 & Hmh2); [done|].
  apply wp_bind. eapply wp_mono.
  { apply (wp_release held); [done|].
    eapply (removed_unowned held s1); [done|done|exact Hh|done|congruence|by apply Hd]. }
  intros _ s3 [Hw3 [Hha Hqs Hcx]]. apply wp_ret. split_and!; [done| |done].
  split.
  - by rewrite Hha, (stable_harbor _ _ Hst).
  - intros q1 x Hne Hx. destruct (stable_queue _ _ Hst q1 x Hx) as (y & Hy & ?).
    destruct (Hqs q1 y Hne Hy) as (z & ? & ?). exists z. split; congruence.
  - intros p1 c Hc. destruct (stable_context _ _ Hst p1 c Hc) as (c1 & Hc1 & ? & ?).
    destruct (Hcx p1 c1 Hc1) as (c2 & ? & ? & ?). exists c2. split_and!; congruence.
Qed.

(** The first part of [NewContext]: everything before the [init] of the module. *)
Lemma NewContext_init name param s h m :
  module_create name = true ->
  let p := fresh (dom (contexts s)) in
  let q := fresh (dom (queues s)) in
  SNHandleMgr_Register (m_pHandleMgr s) p = Ret (h, m) ->
  NewContext module_create module_init name param s =
    (r ← module_init name p param;
     if bool_decide (r = 0) then
       c ← context_of p;
       _ ← modify (set_context p (set_init c));
       _ ← Server.PushGlobal q; _ ← skynet_error (Some p) (launch_text name param); mret (Some p)
     else
       _ ← skynet_error (Some p) (bytes_of "FAILED launch " ++ name);
       _ ← handle_remove h; _ ← Server.release_queue h q; mret None)
    (set_context p (set_handle_queue h q SNContext_new)
       (set_queues (<[q := SNMessageQueue_new h]> (queues s)) (m_pMqMgr s) (set_handles m s))).
Proof.
  intros Hc p q Hreg. unfold NewContext. rewrite Hc. cbn [negb].
  rewrite (bind_step new_context _ _ p (set_context p SNContext_new s)) by done.
  rewrite (bind_step _ _ _ h (set_handles m (set_context p SNContext_new s)))
    by (unfold handle_register; cbn [m_pHandleMgr set_context]; by rewrite Hreg).
  rewrite (bind_step (new_queue h) _ _ q (set_queues (<[q := SNMessageQueue_new h]> (queues s))
    (m_pMqMgr s) (set_handles m (set_context p SNContext_new s)))) by done.
  unfold SNContext_Init. rewrite !bind_bind.
  rewrite (bind_step _ _ _ _ _ (context_of_Some p SNContext_new _ (lookup_insert_eq _ _ _))).
  rewrite !bind_bind, bind_modify, bind_bind.
  match goal with |- _ ?x = _ ?y => replace y with x end.
  2: { unfold set_context, set_queues, set_handles. cbn. by rewrite insert_insert_eq. }
  apply bind_ext. intros r s'. case_bool_decide; [|done]. rewrite bind_bind.
  apply bind_ext. intros c s1. by rewrite bind_bind.
Qed.

Lemma wp_NewContext held s name param : wf held s -> HARBOR s = node ->
  wp (NewContext module_create module_init name param) s
    (fun r s' => wf held s' /\ stable s s' /\ forall p, r = Some p -> exists_context s' p).
Proof.
  intros Hw Hnode. destruct (module_create name) eqn:Hcr.
  2: { unfold NewContext. rewrite Hcr. apply wp_ret. by split_and!. }
  destruct (SNHandleMgr_Register (m_pHandleMgr s) (fresh (dom (contexts s)))) as [[h m]| |] eqn:Hreg.
  2,3: pose proof (register_no_uaf (m_pHandleMgr s) (fresh (dom (contexts s)))) as Hno;
    unfold NewContext; rewrite Hcr; apply wp_bind; unfold new_context, wp at 1;
    apply wp_bind; unfold handle_register, wp at 1; cbn [m_pHandleMgr set_context];
    rewrite Hreg in Hno |- *; first [done | by destruct f].
  unfold wp. rewrite (NewContext_init name param s h m) by done. cbv zeta.
  set (p := fresh (dom (contexts s))) in *. set (q := fresh (dom (queues s))).
  assert (Hp : contexts s !! p = None) by apply not_elem_of_dom, is_fresh.
  assert (Hq : queues s !! q = None) by apply not_elem_of_dom, is_fresh.
  pose proof (wf_launching held s p q h m (set_handle_queue h q SNContext_new) Hw Hp Hq Hreg
    eq_refl eq_refl) as [Hw1 Hst1 (c1 & mq1 & Hc1 & Hcq1 & Hmq1 & Hmh1) Hhandle Hslot].
  set (s1 := set_context p _ _) in *.
  match goal with |- match ?m ?st with _ => _ end => change (wp m st (fun r s' =>
    wf held s' /\ stable s s' /\ forall p, r = Some p -> exists_context s' p)) end.
  apply wp_bind. eapply wp_mono.
  { apply (Hinit (q :: held)); [done|by rewrite (stable_harbor _ _ Hst1)|]. by exists c1, q, mq1. }
  intros r s2 (Hw2 & Hst2 & Hr).
  assert (Hst : stable s s2) by by transitivity s1.
  assert (Hp2 : exists_context s2 p) by (eapply exists_stable; [exact Hst2|by exists c1]).
  case_bool_decide as Hz.
  - destruct Hp2 as [c2 Hc2]. apply wp_bind, (wp_context _ _ c2); [done|].
    apply wp_bind. eapply wp_mono; [by apply (tame_update (q :: held) s2 p c2)|].
    intros _ s3 [Hw3 [Hst3 _ _]].
    assert (Hp3 : exists_context s3 p) by (eapply exists_stable; [exact Hst3|by eexists]).
    eapply wp_mono; [by apply (wp_launched held)|].
    intros o s4 (Hw4 & Hst4 & Ho). split_and!; [done| |done].
    transitivity s2; [done|]. by transitivity s3.
  - assert (Hz0 : HARBOR s = 0).
    { rewrite Hnode. destruct (decide (node = 0)); [done|exfalso; auto]. }
    assert (Hz2 : HARBOR s2 = 0) by (by rewrite (stable_harbor _ _ Hst)).
    eapply wp_mono.
    { apply (wp_failed held); [done|done|done| |].
      - rewrite Hhandle at 1. by rewrite Hz0, Z.lor_0_r.
      - destruct (stable_queue _ _ Hst2 q mq1 Hmq1) as (mq' & ? & ?).
        exists mq'. split; [done|congruence]. }
    intros o s3 (Hw3 & [Hha Hqs Hcx] & ->). split_and!; [done| |done]. split; [..|by intros].
    + by rewrite Hha, (stable_harbor _ _ Hst).
    + intros q1 x Hx. destruct (stable_queue _ _ Hst q1 x Hx) as (y & Hy & ?).
      destruct (Hqs q1 y) as (z & ? & ?); [congruence|done|]. exists z. split; congruence.
    + intros p1 c Hc. destruct (stable_context _ _ Hst p1 c Hc) as (c2 & Hc2 & ? & ?).
      destruct (Hcx p1 c2 Hc2) as (c3 & ? & ? & ?). exists c3. split_and!; congruence.
Qed.

(** *** The commands, one by one *)

Lemma tame_env held s e : wf held s -> tame held (modify (set_env e)) s.
Proof.
  intros Hw. apply wp_modify. assert (stable s (set_env e s)) by (split; by eauto).
  split; [by eapply wf_ext|by split].
Qed.

Lemma tame_monitor_exit held s x : wf held s -> tame held (modify (set_monitor_exit x)) s.
Proof.
  intros Hw. apply wp_modify. assert (stable s (set_monitor_exit x s)) by (split; by eauto).
  split; [by eapply wf_ext|by split].
Qed.

Lemma tame_exit held s : wf held s -> tame held (modify set_exit) s.
Proof.
  intros Hw. apply wp_modify. assert (stable s (set_exit s)) by (split; by eauto).
  split; [by eapply wf_ext|by split].
Qed.

Lemma tame_cmd_timeout held s p param : wf held s -> exists_context s p -> tame held (cmd_timeout p param) s.
Proof.
  intros Hw Hp. unfold cmd_timeout. cbv zeta. apply tame_bind; [by apply tame_NewSession|].
  intros se s1 Hw1 [Hst1 _ _]. destruct (exists_stable _ _ _ Hst1 Hp) as [c Hc].
  apply wp_bind, (wp_context _ _ c); [done|]. apply tame_bind; [by apply tame_timeout|].
  auto using tame_ret.
Qed.

Lemma safe_cmd_reg held s p param : wf held s -> exists_context s p -> safe held (cmd_reg p param) s.
Proof.
  intros Hw [c Hc]. unfold cmd_reg. apply wp_bind, (wp_context _ _ c); [done|].
  assert (He : forall text, safe held (_ ← skynet_error (Some p) text; mret (@None (list Z))) s).
  { intros text. apply tame_safe, tame_bind; [|by auto using tame_ret].
    apply tame_error; [done|]. intros ? [= <-]. by exists c. }
  destruct param as [[|[|x|x] name]|]; try apply He; try by apply safe_ret.
  repeat (destruct x as [x|x|]; try apply He). by apply safe_name_handle.
Qed.

Lemma tame_cmd_query held s param : wf held s -> tame held (cmd_query param) s.
Proof.
  intros Hw. unfold cmd_query. destruct param as [|[|x|x] name]; try by apply tame_ret.
  repeat (destruct x as [x|x|]; try by apply tame_ret). apply wp_bind, wp_bind, wp_get, wp_ret.
  case_bool_decide; by apply wp_ret.
Qed.

Lemma safe_cmd_name held s p param : wf held s -> exists_context s p -> safe held (cmd_name p param) s.
Proof.
  intros Hw Hp. unfold cmd_name.
  assert (He : forall text, safe held (_ ← skynet_error (Some p) text; mret (@None (list Z))) s).
  { intros text. apply tame_safe, tame_bind; [|by auto using tame_ret].
    apply tame_error; [done|]. by intros ? [= <-]. }
  destruct (scan_s param) as [[name rest]|]; [|done]. destruct (scan_s rest) as [[handle ?]|]; [|done].
  destruct handle as [|[|x|x] digits]; try by apply safe_ret.
  repeat (destruct x as [x|x|]; try by apply safe_ret). cbv zeta.
  case_bool_decide; [by apply safe_ret|].
  destruct name as [|[|y|y] name]; try apply He.
  repeat (destruct y as [y|y|]; try apply He). by apply safe_name_handle.
Qed.

Lemma safe_cmd_kill held s p param : wf held s -> exists_context s p -> safe held (cmd_kill p param) s.
Proof.
  intros Hw Hp. apply safe_seq; [by apply tame_safe, tame_tohandle|]. intros h s1 Hw1 Hst1.
  apply safe_seq; [|by auto using safe_ret]. case_bool_decide; [|by apply safe_ret].
  apply safe_handle_exit; [done|]. by eapply exists_stable.
Qed.

Lemma safe_cmd_launch held s param : wf held s -> HARBOR s = node -> safe held (cmd_launch module_create module_init param) s.
Proof.
  intros Hw Hnode. unfold cmd_launch. destruct (split_at is_blank param) as [name args]. cbv zeta.
  apply wp_bind. eapply wp_mono; [by apply (wp_NewContext held)|].
  intros [p|] s1 (Hw1 & Hst1 & Hp); [|by apply wp_ret].
  destruct (Hp p eq_refl) as [c Hc]. apply wp_bind, (wp_context _ _ c); [done|]. by apply wp_ret.
Qed.

Lemma tame_cmd_setenv held s param : wf held s -> tame held (cmd_setenv param) s.
Proof.
  intros Hw. unfold cmd_setenv. destruct (split_at _ _) as [key [value|]]; [|by apply tame_ret].
  apply tame_bind; [|by auto using tame_ret]. apply wp_bind, wp_get. apply wp_bind, wp_require.
  intros _. by apply tame_env.
Qed.

Lemma tame_cmd_endless held s p : wf held s -> exists_context s p -> tame held (cmd_endless p) s.
Proof.
  intros Hw [c Hc]. apply wp_bind, (wp_context _ _ c); [done|].
  destruct (c_endless c); [|by apply tame_ret]. apply tame_bind; [by eapply tame_update|].
  auto using tame_ret.
Qed.

Lemma tame_cmd_monitor held s p param : wf held s -> exists_context s p -> tame held (cmd_monitor p param) s.
Proof.
  intros Hw Hp. apply wp_bind, wp_get. destruct param as [[|x param]|]; [by apply wp_ret| |by apply wp_ret].
  apply tame_bind; [by apply tame_tohandle|]. intros h s1 Hw1 _.
  apply tame_bind; [by apply tame_monitor_exit|]. auto using tame_ret.
Qed.

Lemma tame_cmd_mqlen held s p : wf held s -> caller s p -> tame held (cmd_mqlen p) s.
Proof.
  intros Hw (c & q & mq & Hc & Hq & Hmq). apply wp_bind, (wp_MessageQueue _ _ c q); [done..|].
  apply wp_bind, (wp_queue _ _ mq); [done|]. by apply wp_ret.
Qed.

Lemma tame_log_open held s fopen p h : wf held s -> exists_context s p -> tame held (sn_log_open fopen p h) s.
Proof.
  intros Hw Hp. assert (Ho : opt_exists s (Some p)) by (by intros ? [= <-]).
  apply wp_bind, wp_get. destruct (env s !! _); [|by apply wp_ret]. cbv zeta.
  destruct (fopen _); (apply tame_bind; [by apply tame_error|auto using tame_ret]).
Qed.

Lemma tame_cmd_logon held s fopen p param : wf held s -> exists_context s p ->
  tame held (cmd_logon fopen p param) s.
Proof.
  intros Hw Hp. apply tame_bind; [by apply tame_tohandle|]. intros h s1 Hw1 [Hst1 _ _].
  case_bool_decide; [by apply tame_ret|]. apply wp_bind, wp_get.
  destruct (SNHandleMgr_FindContext _ h) as [t|] eqn:Ht; [|by apply tame_ret].
  destruct (registered_exists _ _ _ (find_registered _ _ _ _ Hw1 Ht)) as [c Hc].
  apply wp_bind, (wp_context _ _ c); [done|]. apply tame_bind; [|by auto using tame_ret].
  destruct (c_logfile c); [by apply tame_ret|].
  apply tame_bind; [apply tame_log_open; [done|by eapply exists_stable]|].
  intros [] s2 Hw2 [Hst2 _ _]; [|by apply tame_ret].
  destruct (stable_context _ _ Hst2 t c Hc) as (c2 & Hc2 & ? & ?).
  eapply tame_update; [done|done|..]; cbn; congruence.
Qed.

Lemma tame_cmd_logoff held s p param : wf held s -> exists_context s p -> tame held (cmd_logoff p param) s.
Proof.
  intros Hw Hp. apply tame_bind; [by apply tame_tohandle|]. intros h s1 Hw1 [Hst1 _ _].
  case_bool_decide; [by apply tame_ret|]. apply wp_bind, wp_get.
  destruct (SNHandleMgr_FindContext _ h) as [t|] eqn:Ht; [|by apply tame_ret].
  destruct (registered_exists _ _ _ (find_registered _ _ _ _ Hw1 Ht)) as [c Hc].
  apply wp_bind, (wp_context _ _ c); [done|]. apply tame_bind; [|by auto using tame_ret].
  destruct (c_logfile c); [|by apply tame_ret].
  apply tame_bind; [by eapply tame_update|]. intros _ s2 Hw2 [Hst2 _ _].
  apply tame_error; [done|]. intros ? [= <-].
  eapply exists_stable; [exact Hst2|]. by eapply exists_stable.
Qed.

Lemma safe_find held s l cmd : wf held s -> Forall (fun x => safe held (snd x) s) l ->
  safe held (find_command l cmd) s.
Proof.
  intros Hw. induction 1 as [|[name f] l Hf _ IH]; cbn [find_command]; [by apply safe_ret|].
  by case_bool_decide.
Qed.

Lemma safe_param held s param f : (forall x, safe held (f x) s) -> safe held (with_param param f) s.
Proof. intros Hf. destruct param; [apply Hf|done]. Qed.

Lemma safe_command held s fopen p cmd param : wf held s -> HARBOR s = node -> caller s p ->
  safe held (skynet_command module_create module_init fopen p cmd param) s.
Proof.
  intros Hw Hnode Hc. pose proof (caller_exists _ _ Hc) as Hp. apply safe_find; [done|].
  unfold cmd_funcs. repeat apply Forall_cons_2; cbn [snd]; try apply Forall_nil_2;
    try (apply safe_param; intros x).
  - by apply tame_safe, tame_cmd_timeout.
  - by apply safe_cmd_reg.
  - by apply tame_safe, tame_cmd_query.
  - by apply safe_cmd_name.
  - apply wp_bind, wp_get. by apply wp_ret.
  - apply safe_seq; [by apply safe_handle_exit|auto using safe_ret].
  - by apply safe_cmd_kill.
  - by apply safe_cmd_launch.
  - apply wp_bind, wp_get. by apply wp_ret.
  - by apply tame_safe, tame_cmd_setenv.
  - apply wp_bind, wp_get. by apply wp_ret.
  - by apply tame_safe, tame_cmd_endless.
  - apply tame_safe, tame_bind; [by apply tame_exit|auto using tame_ret].
  - by apply tame_safe, tame_cmd_monitor.
  - by apply tame_safe, tame_cmd_mqlen.
  - by apply tame_safe, tame_cmd_logon.
  - by apply tame_safe, tame_cmd_logoff.
Qed.
End LAUNCH.

(** ** Dispatching *)

Lemma wf_perm held held' s : held ≡ₚ held' -> wf held s -> wf held' s.
Proof.
  intros Hp [Hc Hg Hh Hha Hs Hr]. split; try done.
  eapply core_perm; [|exact Hc]. by rewrite Hp.
Qed.

Lemma tame_set_monitor held s x : wf held s -> tame held (modify (set_monitor x)) s.
Proof.
  intros Hw. apply wp_modify. assert (stable s (set_monitor x s)) by (split; by eauto).
  split; [by eapply wf_ext|by split].
Qed.

Lemma tame_Trigger held s a b : wf held s -> tame held (Trigger a b) s.
Proof. intros Hw. apply (tame_set_monitor held s (SNMonitor_Trigger a b (monitor s)) Hw). Qed.

Lemma tame_Check held s : wf held s -> tame held SNMonitor_Check s.
Proof.
  intros Hw. apply wp_bind, wp_get. cbv zeta. case_bool_decide; [|by apply tame_set_monitor].
  case_bool_decide; [|by apply wp_ret]. apply tame_bind.
  - apply wp_bind, wp_get.
    destruct (SNHandleMgr_FindContext _ _) as [t|] eqn:Ht; [|by apply wp_ret].
    destruct (registered_exists _ _ _ (find_registered _ _ _ _ Hw Ht)) as [c Hc].
    apply wp_bind, (wp_context _ _ c); [done|]. by eapply tame_update.
  - intros _ s1 Hw1 _. by apply tame_error.
Qed.

Lemma wp_PopGlobal held s : wf held s ->
  wp PopGlobal s (fun r s' => wf (option_list r ++ held) s' /\ quiet s s').
Proof.
  intros Hw. unfold wp, PopGlobal. destruct (gq_pop (m_pMqMgr s)) as [[q g]|] eqn:E; [|done].
  split; [|apply quiet_set_queues; eauto].
  eapply wf_set_queues; [done| |by eapply gq_pop_wf; [apply (wf_gq _ _ Hw)|]|eauto].
  eapply core_perm; [|apply (wf_core _ _ Hw)].
  rewrite (gq_pop_elems _ _ _ (wf_gq _ _ Hw) E). simpl. by rewrite Permutation_middle.
Qed.

Section DISPATCH.
Context (node : Z).
Context (callback : ctxptr -> Z -> Z -> Z -> buffer_ptr -> Z -> srv Z).

(** A message callback keeps the invariant. *)
Definition callback_safe : Prop := forall held s p type session src msg n,
  wf held s -> HARBOR s = node -> caller s p -> safe held (callback p type session src msg n) s.

Context (Hcallback : callback_safe).

Lemma safe_DispatchMessage held s p msg : wf held s -> HARBOR s = node -> caller s p ->
  safe held (DispatchMessage callback p msg) s.
Proof.
  intros Hw Hnode Hp. destruct (caller_exists _ _ Hp) as [c Hc].
  apply wp_bind, (wp_context _ _ c); [done|]. destruct (c_cb c); cbn [negb].
  - apply safe_seq; [by apply tame_safe, tame_require|]. intros _ s1 Hw1 Hst1.
    apply safe_seq.
    { apply Hcallback; [done|by rewrite (stable_harbor _ _ Hst1)|by eapply caller_stable]. }
    intros r s2 Hw2 _. case_bool_decide; [by apply tame_safe, tame_free|by apply safe_ret].
  - by apply tame_safe, tame_free.
Qed.

(** The queue that a worker found empty is no longer its. *)
Lemma wf_pop_empty held s q mq mq' : wf (q :: held) s -> queues s !! q = Some mq ->
  SNMessageQueue_Pop mq true = Ret (None, mq') ->
  m_bInGlobal mq' = false /\ wf held (set_queues (<[q := mq']> (queues s)) (m_pMqMgr s) s) /\
  stable s (set_queues (<[q := mq']> (queues s)) (m_pMqMgr s) s).
Proof.
  intros Hw Hq Hp. destruct (Pop_ret _ _ _ _ Hp) as (Hm & Ht & Hh & Hf).
  destruct (m_queue mq); [|done]. split; [done|].
  destruct (wf_set_queue (q :: held) held s q mq mq' (m_pMqMgr s)) as [? [? _ _]]; try done.
  - by apply core_lower, (wf_core _ _ Hw).
  - apply (wf_gq _ _ Hw).
Qed.

Lemma wp_dispatch_loop fuel held p q weight : forall s i n,
  wf (q :: held) s -> HARBOR s = node -> caller s p ->
  wp (dispatch_loop callback fuel p q weight i n) s (fun empty s' =>
    wf (if empty then held else q :: held) s' /\ stable s s').
Proof.
  induction fuel as [|fuel IH]; intros s i n Hw Hnode Hp; cbn [dispatch_loop];
    case_bool_decide; cbn [negb]; try (by apply wp_ret); [done|].
  destruct (held_queue _ _ q Hw) as (mq & Hq & Hflag); [set_solver|].
  apply wp_bind, (wp_queue _ _ mq); [done|]. apply wp_bind, wp_lift; [apply Pop_no_uaf|].
  intros [[msg|] mq1] Hpop; apply wp_bind, wp_modify.
  2: { destruct (wf_pop_empty _ _ _ _ _ Hw Hq Hpop) as (Hf & Hw1 & Hst1).
       apply wp_bind, wp_require. intros _. by apply wp_ret. }
  destruct (wf_pop_keep (q :: held) s q mq mq1 true (Some msg)) as (_ & Hf1 & Hw1 & [Hst1 _ _]);
    [done|done|done|done|by right|].
  set (s1 := set_queues _ _ s) in *. cbv zeta.
  destruct (wf_overload (q :: held) s1 q mq1) as (_ & Hw2 & [Hst2 _ _]); [done|apply lookup_insert_eq|].
  destruct (SNMessageQueue_Overload mq1) as [overload mq2] eqn:Eo. cbn [snd] in Hw2, Hst2.
  apply wp_bind, wp_modify. set (s2 := set_queues _ _ s1) in *.
  assert (Hst : stable s s2) by by transitivity s1.
  assert (Hn2 : HARBOR s2 = node) by (by rewrite (stable_harbor _ _ Hst)). assert (Hp2 := caller_stable _ _ _ Hst Hp).
  eapply wp_mono with (Q := fun empty s' => wf (if empty : bool then held else q :: held) s' /\ stable s2 s').
  2: { intros empty s' [? ?]. split; [done|by transitivity s2]. }
  clearbody s2. apply wp_bind. eapply wp_mono.
  { apply (tame_safe (q :: held)). case_bool_decide; [|by apply tame_ret].
    apply tame_error; [done|]. intros ? [= <-]. by eapply caller_exists. }
  intros _ s3 [Hw3 Hst3]. assert (Hp3 := caller_stable _ _ _ Hst3 Hp2).
  assert (Hn3 : HARBOR s3 = node) by (by rewrite (stable_harbor _ _ Hst3)).
  apply wp_bind. eapply wp_mono; [by apply (tame_safe (q :: held)), tame_Trigger|].
  intros _ s4 [Hw4 Hst4]. assert (Hp4 := caller_stable _ _ _ Hst4 Hp3).
  assert (Hn4 : HARBOR s4 = node) by (by rewrite (stable_harbor _ _ Hst4)).
  apply wp_bind. eapply wp_mono; [by apply (safe_DispatchMessage (q :: held))|].
  intros _ s5 [Hw5 Hst5]. assert (Hp5 := caller_stable _ _ _ Hst5 Hp4).
  assert (Hn5 : HARBOR s5 = node) by (by rewrite (stable_harbor _ _ Hst5)).
  apply wp_bind. eapply wp_mono; [by apply (tame_safe (q :: held)), tame_Trigger|].
  intros _ s6 [Hw6 Hst6]. assert (Hp6 := caller_stable _ _ _ Hst6 Hp5).
  assert (Hn6 : HARBOR s6 = node) by (by rewrite (stable_harbor _ _ Hst6)).
  eapply wp_mono; [by apply IH|]. intros empty s7 [Hw7 Hst7]. split; [done|].
  transitivity s3; [done|]. transitivity s4; [done|]. transitivity s5; [done|]. by transitivity s6.
Qed.

(** The queue of a service that is gone belongs to nobody. *)
Lemma gone_unowned held s q mq : wf held s -> queues s !! q = Some mq ->
  SNHandleMgr_FindContext (m_pHandleMgr s) (m_handle mq) = None -> unowned s q.
Proof.
  intros Hw Hq Hf l p c Hl Hc Hcq.
  destruct (wf_slot _ _ Hw l p Hl) as (c1 & q1 & mq1 & Hc1 & Hq1 & Hmq1 & Hm1 & Hh1).
  assert (Hmm : m_handle mq = Z.lor l (m_harbor (m_pHandleMgr s))) by congruence.
  destruct (wf_hm _ _ Hw) as ((k & Hk & Hhb) & _ & Hs).
  unfold SNHandleMgr_FindContext in Hf.
  rewrite Hmm, Hhb, lor_harbor_local in Hf by exact (Hs _ _ Hl). congruence.
Qed.

Lemma wp_next held s : wf held s -> HARBOR s = node ->
  wp PopGlobal s (fun r s' => wf (option_list r ++ held) s' /\ HARBOR s' = node).
Proof.
  intros Hw Hnode. eapply wp_mono; [by apply (wp_PopGlobal held)|]. intros r s' [? [Hst _ _]].
  split; [done|by rewrite (stable_harbor _ _ Hst)].
Qed.

Lemma wp_DispatchMessageQueue held s pq weight : wf (option_list pq ++ held) s -> HARBOR s = node ->
  wp (DispatchMessageQueue callback pq weight) s
    (fun r s' => wf (option_list r ++ held) s' /\ HARBOR s' = node).
Proof.
  intros Hw Hnode. apply wp_bind.
  eapply wp_mono with (Q := fun r s' => wf (option_list r ++ held) s' /\ HARBOR s' = node).
  { destruct pq; [by apply wp_ret|]. by apply wp_next. }
  clear s Hw Hnode. intros [q|] s1 [Hw Hnode]; [|by apply wp_ret]. change (wf (q :: held) s1) in Hw.
  destruct (held_queue _ _ q Hw) as (mq & Hq & _); [set_solver|].
  apply wp_bind, (wp_queue _ _ mq); [done|]. cbv zeta. apply wp_bind, wp_get.
  destruct (SNHandleMgr_FindContext _ _) as [p|] eqn:Hf.
  - pose proof (registered_caller _ _ _ (find_registered _ _ _ _ Hw Hf)) as Hp.
    apply wp_bind. eapply wp_mono; [by eapply wp_dispatch_loop|]. intros empty s2 [Hw2 Hst2].
    assert (Hn2 : HARBOR s2 = node) by (by rewrite (stable_harbor _ _ Hst2)).
    destruct empty; [by apply wp_next|].
    destruct (held_queue _ _ q Hw2) as (mq2 & Hq2 & _); [set_solver|].
    apply wp_bind, (wp_queue _ _ mq2); [done|]. apply wp_bind, wp_require. intros _.
    destruct (caller_stable _ _ _ Hst2 Hp) as (c & q' & mq' & Hc & Hcq & _).
    apply wp_bind, (wp_MessageQueue _ _ c q'); [done..|]. apply wp_bind, wp_require. intros _.
    apply wp_bind. eapply wp_mono; [by apply (wp_next (q :: held))|].
    intros [nq|] s3 [Hw3 Hn3]; [|by apply wp_ret]. apply wp_bind.
    eapply wp_mono; [apply (wp_PushGlobal (nq :: held))|].
    { eapply wf_perm; [|exact Hw3]. cbn. by constructor. }
    intros _ s4 [Hw4 [Hst4 _ _]]. apply wp_ret. split; [done|by rewrite (stable_harbor _ _ Hst4)].
  - apply wp_bind. eapply wp_mono.
    { apply (wp_release held); [done|]. by eapply gone_unowned. }
    intros _ s2 [Hw2 Hrel]. apply wp_next; [done|]. by rewrite (released_harbor _ _ _ Hrel).
Qed.
End DISPATCH.

End SAFETY.

Lemma demo_slot k l p : m_slot (m_pHandleMgr (demo_node k)) !! l = Some p ->
  p = 10 + l /\ (l = 1 \/ l = 2 \/ l = 3).
Proof.
  cbn [demo_node m_pHandleMgr m_slot].
  intros [[<- <-]|[_ [[<- <-]|[_ [<- <-]%lookup_singleton_Some]]%lookup_insert_Some]]%lookup_insert_Some; lia.
Qed.

(** The small node of Server keeps the invariant. *)
Lemma demo_wf k : 0 <= k < 256 -> wf [] (demo_node k).
Proof.
  intros Hk. split.
  - apply core_all; [by apply (bool_decide_unpack _)|by apply (bool_decide_unpack _); vm_compute|].
    by repeat (apply map_Forall_insert_2; [done|]); apply map_Forall_empty.
  - done.
  - split_and!; [by exists k|unfold is_u32; cbn; lia|]. intros h c Hh%demo_slot. lia.
  - done.
  - intros l p [-> Hi]%demo_slot. destruct (demo_live k l Hk Hi) as [_ Hc Hq Hmq].
    exists (demo_context (k * 2 ^ 24 + l) (20 + l)). eexists _, _. split_and!; try done.
    cbn. rewrite <- (Z.shiftl_mul_pow2 k 24), lor_shiftl_add, (Z.shiftl_mul_pow2 k 24) by lia. lia.
  - intros p _ [= <-]. by exists 3.
Qed.
