(* ===== verification/Process.v ===== *)
(** * A process and the programs of its services

    What a service can do to the core is a program over the calls of src/include/skynet.h
    and skynet_harbor.h; a process is a sequence of events: services that are launched,
    rounds of a worker thread, readings of the clock and checks of the monitor.  Every
    event may bring other programs, so that services with a state of their own are
    covered.  The process never follows a dangling pointer, with one exception. *)
From S2P Require Import Prelude MessageQueue Scheduler Handle CString Timer Server Command Safety.
From stdpp Require Import base list gmap numbers strings.
From Stdlib Require Import ZArith Lia.

Local Open Scope Z_scope.

(** A program of a service, with the answers of its calls. *)
Inductive prog :=
| Done (r : Z)
| Callback (cb : bool) (k : prog)
| Send (src dst type session : Z) (text : option (list Z)) (n : Z) (k : Z -> prog)
| SendName (src : Z) (addr : list Z) (type session : Z) (text : option (list Z)) (n : Z) (k : Z -> prog)
| Cmd (cmd : list Z) (param : option (list Z)) (k : option (list Z) -> prog)
| QueryName (name : list Z) (k : Z -> prog)
| IsRemote (handle : Z) (k : bool * Z -> prog)
| Log (text : list Z) (k : prog)
| StartHarbor (k : prog).

(** The program ends with 0, whatever its calls answer. *)
Inductive succeeds : prog -> Prop :=
| s_done : succeeds (Done 0)
| s_callback cb k : succeeds k -> succeeds (Callback cb k)
| s_send a b c d e f k : (forall r, succeeds (k r)) -> succeeds (Send a b c d e f k)
| s_sendname a b c d e f k : (forall r, succeeds (k r)) -> succeeds (SendName a b c d e f k)
| s_cmd a b k : (forall r, succeeds (k r)) -> succeeds (Cmd a b k)
| s_query a k : (forall r, succeeds (k r)) -> succeeds (QueryName a k)
| s_remote a k : (forall r, succeeds (k r)) -> succeeds (IsRemote a k)
| s_log a k : succeeds k -> succeeds (Log a k)
| s_harbor k : succeeds k -> succeeds (StartHarbor k).

(** What the modules of a process are: which exist, the programs of their [init] and of
    their message callbacks, and the files that can be opened. *)
Record modules := mk_modules {
  create : list Z -> bool;
  init : list Z -> option (list Z) -> prog;
  handler : ctxptr -> Z -> Z -> Z -> buffer_ptr -> Z -> prog;
  fopen : list Z -> bool
}.

Section PROCESS.
Context {G : Type} `{GlobalQueue G}.

Abbreviation server := (SNServer (G := G)).
Abbreviation srv := (srv (G := G)).

(** The program of the service [p].  Only a service that is registered starts the
    harbor: the node does so in its [init]. *)
Definition start_harbor (p : ctxptr) : srv unit :=
  s ← get;
  _ ← Server.require (bool_decide (Exists (fun x => snd x = p) (map_to_list (m_slot (m_pHandleMgr s)))));
  skynet_harbor_start p.

Fixpoint interp (M : modules) (module_init : list Z -> ctxptr -> option (list Z) -> srv Z)
    (p : ctxptr) (g : prog) : srv Z :=
  let go := interp M module_init p in
  match g with
  | Done r => mret r
  | Callback cb k => _ ← skynet_callback p cb; go k
  | Send src dst type session text n k =>
    r ← skynet_send (Some p) src dst type session text n; go (k r)
  | SendName src addr type session text n k =>
    r ← skynet_sendname (Some p) src addr type session text n; go (k r)
  | Cmd cmd param k =>
    r ← skynet_command (create M) module_init (fopen M) p cmd param; go (k r)
  | QueryName name k => r ← skynet_queryname p name; go (k r)
  | IsRemote handle k => r ← skynet_isremote handle; go (k r)
  | Log text k => _ ← skynet_error (Some p) text; go k
  | StartHarbor k => _ ← start_harbor p; go k
  end.

(** [init] programs launch services whose [init] may launch others: [fuel] bounds the
    depth. *)
Fixpoint run_init (M : modules) (fuel : nat) (name : list Z) (p : ctxptr) (param : option (list Z)) : srv Z :=
  match fuel with
  | O => crash OutOfFuel
  | S fuel => interp M (run_init M fuel) p (init M name param)
  end.

Definition run_handler (M : modules) (fuel : nat)
    (p : ctxptr) (type session src : Z) (msg : buffer_ptr) (n : Z) : srv Z :=
  interp M (run_init M fuel) p (handler M p type session src msg n).

Inductive event :=
| Boot (M : modules) (name : list Z) (param : option (list Z))
| Round (M : modules) (weight : Z)
| Tick (cp : Z)
| MonitorCheck.

(** The worker thread holds a queue between two rounds. *)
Definition process_step (fuel : nat) (e : event) (q : option qid) : srv (option qid) :=
  match e with
  | Boot M name param => _ ← NewContext (create M) (run_init M fuel) name param; mret q
  | Round M weight => DispatchMessageQueue (run_handler M fuel) q weight
  | Tick cp => _ ← server_updatetime cp; mret q
  | MonitorCheck => _ ← SNMonitor_Check; mret q
  end.

Fixpoint process (fuel : nat) (es : list event) (q : option qid) : srv (option qid) :=
  match es with
  | [] => mret q
  | e :: es => q ← process_step fuel e q; process fuel es q
  end.

(** ** Every program keeps the invariant *)

Context `{!GlobalQueueLaws G}.

(** The [init] of every module succeeds, as a node with a number needs. *)
Definition modules_ok (harbor : Z) (M : modules) : Prop :=
  harbor = 0 \/ forall name param, succeeds (init M name param).

Lemma tame_callback held s p cb : wf held s -> exists_context s p -> tame held (skynet_callback p cb) s.
Proof.
  intros Hw [c Hc]. apply wp_bind, (wp_context _ _ c); [done|]. by eapply tame_update.
Qed.

Lemma tame_queryname held s p name : wf held s -> exists_context s p -> tame held (skynet_queryname p name) s.
Proof.
  intros Hw Hp. assert (He : forall text, tame held (_ ← skynet_error (Some p) text; mret 0) s).
  { intros text. apply tame_bind; [|by auto using tame_ret]. apply tame_error; [done|].
    by intros ? [= <-]. }
  unfold skynet_queryname. destruct name as [|[|c|c] name]; try apply He.
  repeat (destruct c as [c|c|]; try apply He);
    first [by apply (tame_ret held) | unfold find_name; apply wp_bind, wp_get; by apply wp_ret].
Qed.

Lemma safe_start_harbor held s p : wf held s -> safe held (start_harbor p) s.
Proof.
  intros Hw. apply wp_bind, wp_get. apply wp_bind, wp_require.
  intros (x & Hx & <-)%bool_decide_eq_true%Exists_exists. apply wp_modify. destruct x as [l p].
  apply elem_of_map_to_list in Hx. cbn.
  assert (stable s (set_remote (Some p) s)) by (split; by eauto). split; [|done].
  destruct Hw as [H1 H2 H3 H4 H5 H6]. split; try done.
  intros p' _ [= <-]. by exists l.
Qed.

Section PROGRAMS.
Context (M : modules).

Lemma safe_interp node module_init (Hinit : init_safe node module_init) held p g : forall s,
  wf held s -> HARBOR s = node -> caller s p ->
  wp (interp M module_init p g) s (fun r s' =>
    wf held s' /\ stable s s' /\ (succeeds g -> r = 0)).
Proof.
  induction g as [r|cb k IH|a b c d e f k IH|a b c d e f k IH|a b k IH|a k IH|a k IH|a k IH|k IH];
    intros s Hw Hnode Hp; cbn [interp].
  { apply wp_ret. split_and!; [done|done|]. by inversion 1. }
  all: pose proof (caller_exists _ _ Hp) as Hx; apply wp_bind; eapply wp_mono.
  1: by apply tame_safe, tame_callback.
  2: by apply tame_safe, tame_send_from.
  3: by apply tame_safe, tame_sendname.
  4: by eapply safe_command.
  5: by apply tame_safe, tame_queryname.
  6: { apply (tame_safe held). apply wp_bind, wp_get. by apply wp_ret. }
  7: { apply (tame_safe held), tame_error; [done|]. by intros ? [= <-]. }
  8: by apply (safe_start_harbor held).
  all: intros r1 s1 [Hw1 Hst1]; eapply wp_mono; [apply IH; [done|by rewrite (stable_harbor _ _ Hst1)|by eapply caller_stable]|];
    intros r s2 (Hw2 & Hst2 & Hr); split_and!; [done|by transitivity s1|];
    inversion 1; subst; auto.
Qed.
End PROGRAMS.

Lemma init_safe_run node M fuel : modules_ok node M -> init_safe node (run_init M fuel).
Proof.
  intros HM. induction fuel as [|fuel IH]; intros held s name p param Hw Hnode Hp; [done|].
  cbn [run_init]. eapply wp_mono; [by apply (safe_interp M node (run_init M fuel))|].
  intros r s' (Hw' & Hst & Hr). split_and!; [done|done|]. intros Hne. apply Hr.
  by destruct HM as [?|HM].
Qed.

Lemma callback_safe_run node M fuel : modules_ok node M -> callback_safe node (run_handler M fuel).
Proof.
  intros HM held s p type session src msg n Hw Hnode Hp. eapply wp_mono.
  - eapply safe_interp; [by apply (init_safe_run node)|done..].
  - intros r s' (? & ? & _). done.
Qed.

Definition event_ok (node : Z) (e : event) : Prop :=
  match e with Boot M _ _ | Round M _ => modules_ok node M | _ => True end.

Lemma wp_process_step node fuel e q s : event_ok node e -> wf (option_list q) s -> HARBOR s = node ->
  wp (process_step fuel e q) s (fun q' s' => wf (option_list q') s' /\ HARBOR s' = node).
Proof.
  intros He Hw Hnode. destruct e as [M name param|M weight|cp|]; cbn [process_step].
  - apply wp_bind. eapply wp_mono.
    { apply (wp_NewContext node); [by apply init_safe_run|exact Hw|done]. }
    intros r s' (Hw' & Hst & _). apply wp_ret. split; [done|by rewrite (stable_harbor _ _ Hst)].
  - eapply wp_mono.
    { apply (wp_DispatchMessageQueue node _ (callback_safe_run node M fuel He) []); [|done].
      by rewrite app_nil_r. }
    intros r s' [Hw' ?]. by rewrite app_nil_r in Hw'.
  - apply wp_bind. eapply wp_mono; [by apply (tame_updatetime (option_list q))|].
    intros _ s' [Hw' [Hst _ _]]. apply wp_ret. split; [done|by rewrite (stable_harbor _ _ Hst)].
  - apply wp_bind. eapply wp_mono; [by apply (tame_Check (option_list q))|].
    intros _ s' [Hw' [Hst _ _]]. apply wp_ret. split; [done|by rewrite (stable_harbor _ _ Hst)].
Qed.

Lemma wp_process node fuel es : forall q s, Forall (event_ok node) es -> wf (option_list q) s ->
  HARBOR s = node -> wp (process fuel es q) s (fun q' s' => wf (option_list q') s').
Proof.
  induction es as [|e es IH]; intros q s He Hw Hnode; cbn [process]; [by apply wp_ret|].
  apply Forall_cons in He as [He Hes]. apply wp_bind.
  eapply wp_mono; [by apply (wp_process_step node)|]. intros q' s' [? ?]. by apply IH.
Qed.

(** The number of a node in its handles: [SNHandleMgr] and [skynet_harbor_init] agree. *)
Definition node_of (harbor : Z) : Z := u32 (Z.shiftl (u32 harbor) HANDLE_REMOTE_SHIFT).

Lemma node_of_harbor harbor : node_of harbor = m_harbor (SNHandleMgr_new harbor).
Proof.
  unfold node_of. cbn [m_harbor SNHandleMgr_new]. change 0xff with 255. rewrite land_255.
  unfold HANDLE_REMOTE_SHIFT, u32. rewrite !Z.shiftl_mul_pow2 by lia.
  change (2 ^ 32) with (256 * 2 ^ 24). rewrite !Z.mul_mod_distr_r by lia.
  f_equal. rewrite Z.mod_mod by lia. dlia.
Qed.

Lemma wf_new harbor T g : gq_wf g -> gq_elems g = [] -> wf [] (SNServer_new harbor T g).
Proof.
  intros Hg He. split; cbn; [|done|apply SNHandleMgr_new_wf|apply node_of_harbor|done|done].
  rewrite He. split; [constructor| |done]. intros q. split; [by intros ?%not_elem_of_nil|].
  by intros (mq & ? & _).
Qed.

(** C1: A process never follows a dangling context or queue, whatever its services do, as
    long as no [init] fails on a node that has a number ([event_ok]; [failed_launch_dangles]
    is such an [init], a node without a number is free of this condition): from the start,
    through any sequence of launches, worker rounds, clock readings and monitor checks, with
    any programs for the handlers, every context and queue that is reached is there; and
    where the run ends, every registered service has its queue, the queues with messages
    are the ones in the global queue or held, each once, and the harbor service is
    registered. *)
Theorem process_safe fuel harbor T g es :
  gq_wf g -> gq_elems g = [] -> Forall (event_ok (node_of harbor)) es ->
  process fuel es None (SNServer_new harbor T g) <> Crash UseAfterFree /\
  forall q s, process fuel es None (SNServer_new harbor T g) = Ret (q, s) -> wf (option_list q) s.
Proof.
  intros Hg He Hes.
  pose proof (wp_process (node_of harbor) fuel es None (SNServer_new harbor T g) Hes
    (wf_new harbor T g Hg He) eq_refl) as Hwp.
  unfold wp in Hwp. destruct (process fuel es None (SNServer_new harbor T g)) as [[q s]| |[]];
    (split; [done|]); intros q' s' Heq; simplify_eq; done.
Qed.
End PROCESS.

(** A program that sends to a service and launches another one. *)
Definition demo_modules : modules := mk_modules
  (fun _ => true)
  (fun name _ => Callback true
     (if bool_decide (name = bytes_of "b") then Done 0
      else Cmd (bytes_of "LAUNCH") (Some (bytes_of "b")) (fun _ => Done 0)))
  (fun _ _ _ _ _ _ => Send 0 (2 ^ 24 + 2) 0 7 (Some [65]) 1 (fun _ => Done 0))
  (fun _ => false).

Definition demo_events : list event :=
  [Boot demo_modules (bytes_of "a") None; Boot demo_modules (bytes_of "b") None;
   Round demo_modules (-1); Tick 0; Round demo_modules 0; MonitorCheck].

Lemma process_safe_witness :
  process 3 demo_events None (SNServer_new 1 timer_create_timer ([] : debug_mgr)) <> Crash UseAfterFree /\
  forall q s, process 3 demo_events None (SNServer_new 1 timer_create_timer ([] : debug_mgr)) = Ret (q, s) ->
    wf (option_list q) s.
Proof.
  apply (process_safe 3 1 timer_create_timer ([] : debug_mgr) demo_events).
  - exact I.
  - reflexivity.
  - assert (Hm : modules_ok (node_of 1) demo_modules).
    { right. intros name param. apply s_callback. cbn. case_bool_decide; [apply s_done|].
      apply s_cmd. intros _. apply s_done. }
    by repeat apply Forall_cons_2.
Defined.

(** The events run to their end. *)
Example demo_process_runs :
  match process 3 demo_events None (SNServer_new 1 timer_create_timer ([] : debug_mgr)) with
  | Ret (q, s) => (q, m_pMqMgr s)
  | _ => (None, [])
  end = (Some 2, []).
Proof. vm_compute. reflexivity. Qed.
