(* ===== verification/Drop.v ===== *)
(** * The messages of a service that has ended

    A worker that holds the queue of a service that is gone answers the messages in it
    with errors and deletes the queue.  The drop has no end when the service is still
    registered and a message in its queue is its own, as it is at the exit of the
    process. *)
From S2P Require Import Prelude MessageQueue Scheduler Handle CString Timer Server Command Safety Process.
From stdpp Require Import base list gmap numbers strings.
From Stdlib Require Import ZArith Lia.

Local Open Scope Z_scope.

Section DROP.
Context {G : Type} `{GlobalQueueLaws G}.

Abbreviation server := (SNServer (G := G)).
Abbreviation srv := (srv (G := G)).

(** The answer to the sender of a dropped message, from the service [d]. *)
Definition error_message (d : Z) : sn_message :=
  mk_sn_message d 0 None (Z.lor 0 (type_bits (Z.land PTYPE_ERROR 0xff))).

(** The sender of [m] is the service at slot [l]. *)
Definition sent_by (l : Z) (m : sn_message) : Prop := source m <> 0 /\ handle_local (source m) = l.

#[export] Instance sent_by_dec l m : Decision (sent_by l m).
Proof. unfold sent_by. apply _. Defined.

(** The messages for slot [l] that dropping [ms] of service [d] makes. *)
Definition answers (d l : Z) (ms : list sn_message) : list sn_message :=
  (fun _ => error_message d) <$> filter (sent_by l) ms.

(** From [s] to [s'] every registered service gets its answers, and [bs] is freed. *)
Record answered (d : Z) (ms : list sn_message) (s s' : server) : Prop := mk_answered {
  an_queues l p c q mq : m_slot (m_pHandleMgr s) !! l = Some p -> contexts s !! p = Some c ->
    c_queue c = Some q -> queues s !! q = Some mq ->
    exists mq', queues s' !! q = Some mq' /\ m_queue mq' = m_queue mq ++ answers d l ms;
  an_freed : freed s' = freed s ++ omap data ms
}.

Lemma answers_cons d l m ms :
  answers d l (m :: ms) = (if decide (sent_by l m) then [error_message d] else []) ++ answers d l ms.
Proof. unfold answers. rewrite filter_cons. by case_decide. Qed.

(** The error for one sender. *)
Lemma send_error held s d m : wf held s -> d <> 0 ->
  (source m = 0 \/ skynet_harbor_message_isremote (source m) s = false) ->
  exists r s', skynet_send None d (source m) PTYPE_ERROR 0 None 0 s = Ret (r, s') /\
    wf held s' /\ quiet s s' /\ freed s' = freed s /\
    (forall q, unowned s q -> queues s' !! q = queues s !! q) /\
    forall l p c q mq, m_slot (m_pHandleMgr s) !! l = Some p -> contexts s !! p = Some c ->
      c_queue c = Some q -> queues s !! q = Some mq -> exists mq', queues s' !! q = Some mq' /\
      m_queue mq' = m_queue mq ++ answers d l [m] /\
      m_overload_threshold mq' = m_overload_threshold mq.
Proof.
  intros Hw Hd Hm. destruct (decide (source m = 0)) as [Hz|Hz].
  - exists 0, s. split; [|split; [done|split; [done|split; [done|split; [done|]]]]].
    + unfold skynet_send. rewrite bool_decide_false by auto.
      rewrite (bind_step _ _ _ _ _ (filter_args_null s None PTYPE_ERROR 0 eq_refl)).
      rewrite (bool_decide_false (d = 0)), bind_mret by done. by rewrite bool_decide_true.
    + intros l p c q mq _ _ _ Hq. exists mq. rewrite answers_cons.
      rewrite decide_False by by intros [? _]. by rewrite !app_nil_r.
  - destruct Hm as [?|Hr]; [done|].
    destruct (ContextPush_each held s (source m) (error_message d) Hw)
      as (r & s' & Hp & Hw' & Hq' & (x & g & Hx) & Hu' & Hall).
    exists (if bool_decide (r <> 0) then -1 else 0), s'. split; [|split_and!; [done|done|by rewrite Hx|done|]].
    + rewrite (skynet_send_step s s None d d (source m) PTYPE_ERROR 0 0 None None 0
        (Z.lor 0 (type_bits (Z.land PTYPE_ERROR 0xff)))); [|lia|done|by rewrite bool_decide_false|done].
      rewrite Hr. rewrite (bind_step _ _ _ _ _ Hp). by case_bool_decide.
    + intros l p c q mq Hl Hc Hq Hmq. destruct (Hall l p c q mq) as (mq' & ? & E & ?); [done..|].
      exists mq'. split; [done|]. split; [|done]. rewrite E, answers_cons, app_nil_r. f_equal.
      unfold sent_by. repeat case_decide; naive_solver.
Qed.

Lemma answered_nil d s : answered d [] s s.
Proof.
  split; [|by rewrite app_nil_r]. intros l p c q mq _ _ _ Hq. exists mq. by rewrite app_nil_r.
Qed.

Lemma answered_cons held d m ms s s' s'' : wf held s -> quiet s s' ->
  answered d [m] s s' -> answered d ms s' s'' -> answered d (m :: ms) s s''.
Proof.
  intros Hw [Hst Hh _] [Hq1 Hf1] [Hq2 Hf2]. split.
  - intros l p c q mq Hl Hc Hcq Hq. destruct (Hq1 l p c q mq Hl Hc Hcq Hq) as (mq1 & Hmq1 & E1).
    destruct (stable_context _ _ Hst p c Hc) as (c1 & Hc1 & Hcq1 & _).
    destruct (Hq2 l p c1 q mq1) as (mq2 & Hmq2 & E2); [by rewrite Hh|done|congruence|done|].
    exists mq2. split; [done|]. rewrite E2, E1, (answers_cons d l m ms), (answers_cons d l m []).
    by rewrite app_nil_r, app_assoc.
  - rewrite Hf2, Hf1, <- app_assoc. f_equal. cbn [omap list_omap]. by destruct (data m).
Qed.

(** The messages can be answered: their senders are services of the node. *)
Definition local_senders (s : server) (ms : list sn_message) : Prop :=
  Forall (fun m => source m = 0 \/ skynet_harbor_message_isremote (source m) s = false) ms.

Lemma free_step (s : server) b : sn_free b s = Ret (tt, add_freed (option_list b) s).
Proof. destruct b; cbn; [done|]. unfold add_freed. rewrite app_nil_r. by destruct s. Qed.

(** A round of the drop, with the steps of the code. *)
Lemma drop_round s q d mq m mq1 r s' : d <> 0 -> queues s !! q = Some mq ->
  SNMessageQueue_Pop mq false = Ret (Some m, mq1) ->
  skynet_send None d (source m) PTYPE_ERROR 0 None 0
    (add_freed (option_list (data m)) (set_queues (<[q := mq1]> (queues s)) (m_pMqMgr s) s)) = Ret (r, s') ->
  forall fuel, drop_queue_messages fuel d q s =
    match fuel with O => Crash OutOfFuel | S fuel => drop_queue_messages fuel d q s' end.
Proof.
  intros Hd Hq Hpop Hsend fuel.
  destruct fuel as [|fuel]; cbn [drop_queue_messages];
    rewrite (bind_step _ _ _ _ _ (queue_of_Some _ _ _ Hq)), (bind_lift _ _ _ _ Hpop);
    unfold put_queue; rewrite bind_modify; [done|].
  unfold drop_message. rewrite !bind_bind, (bind_step _ _ _ _ _ (free_step _ (data m))).
  rewrite bind_bind, bind_require, bool_decide_true, bind_bind by done.
  by rewrite (bind_step _ _ _ _ _ Hsend), bind_mret.
Qed.

(** One message is taken out of the queue and answered. *)
Lemma drop_step held s d q mq m ms : wf held s -> m_bInGlobal mq = true -> d <> 0 -> unowned s q ->
  queues s !! q = Some mq -> mq_wf mq -> Z.of_nat (length (m_queue mq)) <= mq_max ->
  m_queue mq = m :: ms -> local_senders s [m] ->
  exists s' mq', wf held s' /\ quiet s s' /\ answered d [m] s s' /\
    queues s' !! q = Some mq' /\ m_queue mq' = ms /\ mq_wf mq' /\ m_bInGlobal mq' = true /\
    forall fuel, drop_queue_messages (S fuel) d q s = drop_queue_messages fuel d q s'.
Proof.
  intros Hw Hin Hd Hu Hq Hmw Hlen Hms Hloc. apply Forall_cons in Hloc as [Hloc _].
  destruct (SNMessageQueue_Pop_spec mq false Hmw Hlen) as (mq1 & Hpop & Hmw1 & Ht1 & Hh1 & _).
  rewrite Hms in Hpop, Ht1. cbn [head tail] in Hpop, Ht1.
  destruct (wf_pop_keep held s q mq mq1 false (Some m)) as (_ & Hfl1 & Hw1 & Hq1); [done..|by left|].
  set (s1 := set_queues (<[q := mq1]> (queues s)) (m_pMqMgr s) s) in *.
  pose proof (tame_free held s1 (data m) Hw1) as Ht. unfold tame, wp in Ht.
  rewrite free_step in Ht. destruct Ht as [Hw2 Hq2].
  set (s2 := add_freed (option_list (data m)) s1) in *.
  destruct (send_error held s2 d m Hw2 Hd Hloc) as (r & s3 & Hsend & Hw3 & Hq3 & Hfr & Huo & Han).
  assert (Hq02 : quiet s s2) by by transitivity s1.
  exists s3, mq1. split; [done|]. split; [by transitivity s2|]. split; [|split_and!; [|done|done|done|]].
  - split.
    + intros l p c q0 mq0 Hl Hc Hcq Hmq0.
      destruct (Han l p c q0 mq0) as (x & ? & ? & _); [done|done|done| |by exists x]. cbn.
      rewrite lookup_insert_ne; [done|]. intros <-. by apply (Hu l p c).
    + rewrite Hfr. cbn. f_equal.
  - rewrite Huo; [apply lookup_insert_eq|]. by eapply (unowned_quiet held s).
  - intros fuel. by rewrite (drop_round s q d mq m mq1 r s3).
Qed.

Lemma drop_all held d q : d <> 0 -> forall ms s mq, wf held s -> m_bInGlobal mq = true -> unowned s q ->
  queues s !! q = Some mq -> mq_wf mq -> Z.of_nat (length (m_queue mq)) <= mq_max ->
  m_queue mq = ms -> local_senders s ms ->
  exists s', drop_queue_messages (length ms) d q s = Ret (tt, s') /\
    wf held s' /\ quiet s s' /\ answered d ms s s'.
Proof.
  intros Hd. induction ms as [|m ms IH]; intros s mq Hw Hfl Hu Hq Hmw Hlen Hms Hloc; cbn [length].
  - destruct (SNMessageQueue_Pop_spec mq false Hmw Hlen) as (mq1 & Hpop & _).
    rewrite Hms in Hpop. cbn [head] in Hpop.
    destruct (wf_pop_keep held s q mq mq1 false None) as (_ & _ & Hw1 & Hq1); [done..|by left|].
    eexists. cbn [drop_queue_messages].
    rewrite (bind_step _ _ _ _ _ (queue_of_Some _ _ _ Hq)), (bind_lift _ _ _ _ Hpop).
    split; [reflexivity|]. split; [done|]. split; [done|]. split; cbn; [|by rewrite app_nil_r].
    intros l p c q0 mq0 Hl Hc Hcq Hmq0. exists mq0. rewrite lookup_insert_ne, app_nil_r; [done|].
    intros <-. by apply (Hu l p c).
  - apply Forall_cons in Hloc as [Hm Hloc].
    destruct (drop_step held s d q mq m ms) as (s1 & mq1 & Hw1 & Hq1 & Ha1 & Hmq1 & Hms1 & Hmw1 & Hfl1 & He);
      try done; [by apply Forall_cons_2|].
    destruct (IH s1 mq1) as (s2 & Hr & Hw2 & Hq2 & Ha2); try done.
    + by eapply (unowned_quiet held s).
    + rewrite Hms in Hlen. cbn [length] in Hlen. rewrite Hms1. lia.
    + eapply Forall_impl; [exact Hloc|]. intros x [?|Hx]; [by left|right].
      rewrite <- Hx. unfold skynet_harbor_message_isremote. by rewrite (stable_harbor _ _ (quiet_stable _ _ Hq1)).
    + exists s2. rewrite He. split; [done|]. split; [done|]. split; [by transitivity s1|].
      by eapply answered_cons.
Qed.

(** C3: when the worker that holds the queue of a service finds that the service is gone,
    the drop ends, each message that waited is answered to its sender by exactly one
    PTYPE_ERROR from the dead service's handle, in the order they waited in, no other
    service gets anything, the data of the messages is freed, and the queue is deleted. *)
Theorem dead_service_answers callback weight s q mq :
  wf [q] s -> queues s !! q = Some mq -> mq_wf mq -> Z.of_nat (length (m_queue mq)) <= mq_max ->
  SNHandleMgr_FindContext (m_pHandleMgr s) (m_handle mq) = None -> m_handle mq <> 0 ->
  local_senders s (m_queue mq) ->
  exists next s',
    DispatchMessageQueue callback (Some q) weight s = Ret (next, s') /\
    queues s' !! q = None /\ m_pHandleMgr s' = m_pHandleMgr s /\
    answered (m_handle mq) (m_queue mq) s s'.
Proof.
  intros Hw Hq Hmw Hlen Hf Hd Hloc.
  pose proof (gone_unowned [q] s q mq Hw Hq Hf) as Hu.
  destruct (drop_all [q] (m_handle mq) q) with (ms := m_queue mq) (s := s) (mq := mq)
    as (s1 & Hdrop & Hw1 & Hq1 & Ha); try done.
  { destruct (held_queue _ _ q Hw) as (x & ? & ?); [set_solver|congruence]. }
  unfold DispatchMessageQueue. rewrite bind_mret. cbv zeta.
  rewrite (bind_step _ _ _ _ _ (queue_of_Some _ _ _ Hq)), bind_get, Hf.
  unfold Server.release_queue. rewrite !bind_bind.
  rewrite (bind_step _ _ _ _ _ (queue_of_Some _ _ _ Hq)), bind_bind, (bind_step _ _ _ _ _ Hdrop).
  unfold delete_queue. rewrite bind_modify. unfold PopGlobal.
  assert (Hrest : forall g, let s2 := set_queues (delete q (queues s1)) g s1 in
    queues s2 !! q = None /\ m_pHandleMgr s2 = m_pHandleMgr s /\
    answered (m_handle mq) (m_queue mq) s s2).
  { intros g. cbn. split_and!; [apply lookup_delete_eq|apply (quiet_handles _ _ Hq1)|].
    destruct Ha as [Ha1 Ha2]. split; [|done]. intros l p c q0 mq0 Hl Hc Hcq Hmq0. cbn.
    rewrite lookup_delete_ne; [by eapply Ha1|]. intros <-. by apply (Hu l p c). }
  cbn [m_pMqMgr set_queues]. destruct (gq_pop (m_pMqMgr s1)) as [[nq g]|].
  - exists (Some nq). eexists. split; [reflexivity|]. apply (Hrest g).
  - exists None. eexists. split; [reflexivity|]. apply (Hrest (m_pMqMgr s1)).
Qed.
(** ** A service that is still registered *)

(** Service handles of the node are not remote. *)
Lemma own_handle_local held s l p : wf held s -> m_slot (m_pHandleMgr s) !! l = Some p ->
  skynet_harbor_message_isremote (Z.lor l (m_harbor (m_pHandleMgr s))) s = false.
Proof.
  intros Hw Hl. unfold skynet_harbor_message_isremote.
  destruct (wf_hm _ _ Hw) as ((k & Hk & Hh) & _ & Hs). specialize (Hs _ _ Hl).
  rewrite bool_decide_false; [done|]. rewrite (wf_harbor _ _ Hw), Hh. intros Hne. apply Hne.
  rewrite <- (Z.shiftl_mul_pow2 k 24) by lia. rewrite Z.land_lor_distr_l.
  change (Z.lxor 0xffffffff HANDLE_MASK) with (Z.shiftl 255 24).
  replace (Z.land l (Z.shiftl 255 24)) with 0.
  - rewrite Z.lor_0_l, <- Z.shiftl_land. f_equal. rewrite land_255. apply Z.mod_small. lia.
  - apply Z.bits_inj'. intros i Hi. rewrite Z.bits_0, Z.land_spec. destruct (decide (i < 24)).
    + rewrite Z.shiftl_spec_low by lia. by rewrite andb_false_r.
    + by rewrite (testbit_above l 24) by lia.
Qed.

(** The queue of a registered service [p] of handle [d], and a message that is its own. *)
Record self_sent (s : server) (d : Z) (p : ctxptr) (q : qid) (mq : SNMessageQueue) : Prop := {
  ss_slot : m_slot (m_pHandleMgr s) !! handle_local d = Some p;
  ss_context : exists c, contexts s !! p = Some c /\ c_queue c = Some q;
  ss_queue : queues s !! q = Some mq;
  ss_wf : mq_wf mq;
  ss_length : Z.of_nat (length (m_queue mq)) <= mq_max;
  ss_local : local_senders s (m_queue mq);
  ss_self : Exists (fun m => source m = d) (m_queue mq)
}.

Lemma local_senders_quiet s s' ms : quiet s s' -> local_senders s ms -> local_senders s' ms.
Proof.
  intros Hq Hl. eapply Forall_impl; [exact Hl|]. intros x [?|Hx]; [by left|right]. rewrite <- Hx.
  unfold skynet_harbor_message_isremote. by rewrite (stable_harbor _ _ (quiet_stable _ _ Hq)).
Qed.

(** A round of the drop leaves a message of its own in the queue. *)
Lemma self_round held s d p q mq : wf held s -> d <> 0 -> m_handle mq = d ->
  self_sent s d p q mq ->
  exists s' mq', wf held s' /\ m_handle mq' = d /\ self_sent s' d p q mq' /\
    forall fuel, drop_queue_messages fuel d q s =
      match fuel with O => Crash OutOfFuel | S fuel => drop_queue_messages fuel d q s' end.
Proof.
  intros Hw Hd Hmh [Hslot (c & Hc & Hcq) Hq Hmw Hlen Hloc Hself].
  assert (Hfl : m_bInGlobal mq = true).
  { destruct (m_bInGlobal mq) eqn:E; [done|].
    rewrite (core_empty _ _ (wf_core _ _ Hw) _ _ Hq E) in Hself. by apply Exists_nil in Hself. }
  destruct (SNMessageQueue_Pop_spec mq false Hmw Hlen) as (mq1 & Hpop & Hmw1 & Ht1 & Hh1 & _).
  destruct (m_queue mq) as [|m ms] eqn:Hms; [by apply Exists_nil in Hself|].
  cbn [head tail] in Hpop, Ht1. pose proof (Forall_inv Hloc) as Hm.
  destruct (wf_pop_keep held s q mq mq1 false (Some m)) as (_ & _ & Hw1 & Hq1); [done..|by left|].
  set (s1 := set_queues (<[q := mq1]> (queues s)) (m_pMqMgr s) s) in *.
  pose proof (tame_free held s1 (data m) Hw1) as Ht. unfold tame, wp in Ht.
  rewrite free_step in Ht. destruct Ht as [Hw2 Hq2].
  set (s2 := add_freed (option_list (data m)) s1) in *.
  destruct (send_error held s2 d m Hw2 Hd Hm) as (r & s3 & Hsend & Hw3 & Hq3 & _ & _ & Han).
  assert (Hq03 : quiet s s3) by (transitivity s2; [by transitivity s1|done]).
  destruct (Han (handle_local d) p c q mq1) as (mq3 & Hmq3 & Hms3 & Hth3); [done|done|done|cbn; apply lookup_insert_eq|].
  destruct (stable_queue _ _ (quiet_stable _ _ Hq3) q mq1) as (mq3' & Hmq3' & Hmh3);
    [cbn; apply lookup_insert_eq|].
  assert (Hmw3 : mq_wf mq3) by (destruct Hmw1 as (k & ? & ?); exists k; by rewrite Hth3).
  assert (Hown : skynet_harbor_message_isremote d s3 = false).
  { destruct (wf_slot _ _ Hw _ _ Hslot) as (c0 & q0 & mq0 & Hc0 & Hcq0 & Hmq0 & Hm0 & Hh0).
    pose proof (own_handle_local held s _ p Hw Hslot) as Hown.
    assert (d = Z.lor (handle_local d) (m_harbor (m_pHandleMgr s))) as E by congruence.
    rewrite <- E in Hown. rewrite <- Hown. unfold skynet_harbor_message_isremote.
    by rewrite (stable_harbor _ _ (quiet_stable _ _ Hq03)). }
  assert (Hself3 : local_senders s3 (m_queue mq3) /\ Exists (fun m => source m = d) (m_queue mq3) /\
    Z.of_nat (length (m_queue mq3)) <= mq_max).
  { rewrite Hms3, Ht1, answers_cons, app_nil_r. cbn [length] in Hlen.
    pose proof (Forall_inv_tail Hloc) as Hloc'.
    case_decide as Hby.
    - split_and!.
      + apply Forall_app. split; [by eapply local_senders_quiet|]. apply Forall_singleton. right.
        by cbn [source error_message].
      + apply Exists_app. right. by constructor.
      + rewrite length_app. cbn [length]. lia.
    - rewrite app_nil_r. split_and!; [by eapply local_senders_quiet| |lia].
      apply Exists_cons in Hself as [<-|?]; [|done]. by destruct Hby. }
  destruct Hself3 as (Hl3 & He3 & Hn3).
  destruct (stable_context _ _ (quiet_stable _ _ Hq03) p c Hc) as (c3 & Hc3 & Hcq3 & _).
  exists s3, mq3. split; [done|]. split; [simplify_eq; congruence|]. split.
  - split; try done; [by rewrite (quiet_handles _ _ Hq03)|]. exists c3. split; [done|congruence].
  - intros fuel. by apply (drop_round s q d mq m mq1 r s3).
Qed.

(** Dropping the messages of a service that is still registered does not end when one
    of them is its own: the error goes into the queue that is emptied, and so on, for any
    number of rounds.  [SNServer::Release] drops the messages of every service while all
    are registered, so the exit of the process can hang. *)
Theorem exit_hangs_on_own_message held s d p q mq :
  wf held s -> m_handle mq = d -> d <> 0 -> self_sent s d p q mq ->
  forall fuel, drop_queue_messages fuel d q s = Crash OutOfFuel.
Proof.
  intros Hw Hmh Hd Hself fuel. revert s mq Hw Hmh Hself.
  induction fuel as [|fuel IH]; intros s mq Hw Hmh Hself;
    destruct (self_round held s d p q mq) as (s' & mq' & Hw' & Hmh' & Hself' & He); try done;
    rewrite He; [done|]. by eapply IH.
Qed.
(** ** A launch that fails *)

Lemma error_without_logger s o text : logger s = 0 ->
  SNHandleMgr_FindName (m_pHandleMgr s) "logger" = 0 -> skynet_error o text s = Ret (tt, set_logger 0 s).
Proof. intros Hl Hn. unfold skynet_error. by rewrite bind_get, Hl, bool_decide_true, Hn. Qed.

(** On a node with a number a launch whose [init] fails leaves a dangling pointer: the
    new context stays in the handle map, since nothing can be removed there, but its queue
    is deleted, and the next message to the handle uses it. *)
Theorem failed_launch_dangles held s module_create name param h m msg :
  wf held s -> HARBOR s <> 0 -> module_create name = true ->
  SNHandleMgr_Register (m_pHandleMgr s) (fresh (dom (contexts s))) = Ret (h, m) ->
  logger s = 0 -> SNHandleMgr_FindName (m_pHandleMgr s) "logger" = 0 ->
  exists s', NewContext module_create (fun _ _ _ => mret 1) name param s = Ret (None, s') /\
    ContextPush h msg s' = Crash UseAfterFree.
Proof.
  intros Hw Hne Hcr Hreg Hlog Hname.
  destruct (Register_Ret _ _ _ _ (wf_hm _ _ Hw) Hreg) as (l & Hh & Hl & Hfree & Hslot & Hhb & Hm & Hnm).
  rewrite (NewContext_init _ _ name param s h m Hcr Hreg), bind_mret, bool_decide_false by done.
  set (p := fresh (dom (contexts s))) in *. set (q := fresh (dom (queues s))).
  assert (Hp : contexts s !! p = None) by apply not_elem_of_dom, is_fresh.
  assert (Hq : queues s !! q = None) by apply not_elem_of_dom, is_fresh.
  destruct (wf_launching held s p q h m (set_handle_queue h q SNContext_new) Hw Hp Hq Hreg
    eq_refl eq_refl) as [Hw1 _ _ _ _].
  set (s1 := set_context p _ _) in *.
  assert (He : forall text, skynet_error (Some p) text s1 = Ret (tt, set_logger 0 s1)).
  { intros text. apply error_without_logger; [done|]. cbn. unfold SNHandleMgr_FindName.
    rewrite Hnm. exact Hname. }
  rewrite (bind_step _ _ _ _ _ (He _)).
  assert (Hrm : handle_remove h (set_logger 0 s1) = Ret (None, set_logger 0 s1)).
  { unfold handle_remove. rewrite Remove_with_harbor; [by cbn|exact Hm| |].
    - cbn. by rewrite Hhb, <- (wf_harbor _ _ Hw).
    - intros l1 c1 H1. by apply (Handle_in_slot _ s1 Hw1). }
  rewrite (bind_step _ _ _ _ _ Hrm).
  assert (Hqs : queues (set_logger 0 s1) !! q = Some (SNMessageQueue_new h)) by apply lookup_insert_eq.
  unfold Server.release_queue. rewrite !bind_bind, (bind_step _ _ _ _ _ (queue_of_Some _ _ _ Hqs)).
  cbn [m_queue SNMessageQueue_new length drop_queue_messages]. rewrite !bind_bind.
  rewrite (bind_step _ _ _ _ _ (queue_of_Some _ _ _ Hqs)), bind_bind.
  rewrite (bind_lift _ _ _ (None, SNMessageQueue_new h)) by done. rewrite !bind_bind.
  unfold put_queue, delete_queue. rewrite bind_modify, bind_mret, bind_modify.
  eexists. split; [reflexivity|]. match goal with |- ContextPush _ _ ?x = _ => set (s' := x) end.
  unfold ContextPush. rewrite bind_get.
  assert (SNHandleMgr_FindContext (m_pHandleMgr s') h = Some p) as ->.
  { unfold SNHandleMgr_FindContext. cbn. by rewrite Hl, Hslot, lookup_insert_eq. }
  apply bind_crash. unfold SNContext_Push.
  assert (HM : SNContext_MessageQueue p s' = Ret (q, s')).
  { eapply MessageQueue_Some; [apply lookup_insert_eq|done]. }
  rewrite (bind_step _ _ _ _ _ HM). apply bind_crash, queue_of_None. apply lookup_delete_eq.
Qed.
End DROP.

(* ------------------------------------------------------------------ *)
(** ** Witnesses *)

Definition demo_m (src : Z) : sn_message := mk_sn_message src 5 (Some (Text [65; 66; 0])) 2.

(** What [m] makes of a state. *)
Definition result {A} (m : srv (G := debug_mgr) A) (s : SNServer (G := debug_mgr)) :=
  match m s with Ret (_, s') => s' | _ => s end.

(** A message of service 2 waits for service 1, which is removed; a worker takes its queue. *)
Definition demo_end : srv (G := debug_mgr) (option qid) :=
  _ ← ContextPush 1 (demo_m 2); _ ← handle_remove 1; PopGlobal.

Definition demo_ended := result demo_end (demo_node 0).

Lemma demo_ended_wf : wf [21] demo_ended.
Proof.
  assert (Hw : wp demo_end (demo_node 0) (fun r s => wf (option_list r) s)).
  { apply wp_bind. eapply wp_mono; [apply tame_ContextPush, demo_wf; lia|]. intros _ s1 [Hw1 _].
    apply wp_bind. eapply wp_mono; [by apply (wp_remove [])|]. intros _ s2 (Hw2 & _).
    eapply wp_mono; [by apply (wp_PopGlobal [])|]. intros r s3 [Hw3 _]. by rewrite app_nil_r in Hw3. }
  assert (E : demo_end (demo_node 0) = Ret (Some 21, demo_ended)) by (vm_compute; reflexivity).
  unfold wp in Hw. by rewrite E in Hw.
Qed.

Definition demo_waiting (src : Z) : SNMessageQueue := mk_SNMessageQueue true 0 1024 [demo_m src] 1.

Lemma demo_waiting_wf src : mq_wf (demo_waiting src).
Proof. exists 0. split; [lia|reflexivity]. Qed.

Definition no_callback : ctxptr -> Z -> Z -> Z -> buffer_ptr -> Z -> srv (G := debug_mgr) Z :=
  fun _ _ _ _ _ _ => mret 0.

Lemma dead_service_answers_witness :
  exists next (s' : SNServer (G := debug_mgr)),
    DispatchMessageQueue no_callback (Some 21) (-1) demo_ended = Ret (next, s') /\
    queues s' !! 21 = None /\ m_pHandleMgr s' = m_pHandleMgr demo_ended /\
    answered 1 [demo_m 2] demo_ended s'.
Proof.
  apply (dead_service_answers no_callback (-1) demo_ended 21 (demo_waiting 2)).
  - apply demo_ended_wf.
  - vm_compute. reflexivity.
  - apply demo_waiting_wf.
  - vm_compute. discriminate.
  - vm_compute. reflexivity.
  - discriminate.
  - apply Forall_singleton. right. vm_compute. reflexivity.
Defined.

(** Service 1 has a message of its own. *)
Definition demo_self := result (ContextPush 1 (demo_m 1)) (demo_node 0).

Lemma demo_self_wf : wf [] demo_self.
Proof.
  assert (Hw : tame [] (ContextPush 1 (demo_m 1)) (demo_node 0)) by (apply tame_ContextPush, demo_wf; lia).
  assert (E : ContextPush 1 (demo_m 1) (demo_node 0) = Ret (0, demo_self)) by (vm_compute; reflexivity).
  unfold tame, wp in Hw. rewrite E in Hw. apply Hw.
Qed.

Lemma exit_hangs_on_own_message_witness :
  drop_queue_messages 1000 1 21 demo_self = Crash OutOfFuel.
Proof.
  apply (exit_hangs_on_own_message [] demo_self 1 11 21 (demo_waiting 1)).
  - apply demo_self_wf.
  - reflexivity.
  - discriminate.
  - split.
    + vm_compute. reflexivity.
    + exists (demo_context 1 21). split; vm_compute; reflexivity.
    + vm_compute. reflexivity.
    + apply demo_waiting_wf.
    + vm_compute. discriminate.
    + apply Forall_singleton. right. vm_compute. reflexivity.
    + constructor. reflexivity.
Defined.

Lemma failed_launch_dangles_witness :
  exists s', NewContext (fun _ => true) (fun _ _ _ => mret 1) (bytes_of "a") None (demo_node 1) = Ret (None, s') /\
    ContextPush (2 ^ 24 + 4) (demo_m 2) s' = Crash UseAfterFree.
Proof.
  apply (failed_launch_dangles [] (demo_node 1) (fun _ => true) (bytes_of "a") None (2 ^ 24 + 4)
    (mk_SNHandleMgr (2 ^ 24) 5 {[4 := 14; 1 := 11; 2 := 12; 3 := 13]} ∅) (demo_m 2)).
  - apply demo_wf. lia.
  - discriminate.
  - reflexivity.
  - vm_compute. reflexivity.
  - reflexivity.
  - reflexivity.
Defined.
