(* ===== verification/Requests.v ===== *)
(** * What the commands of services are for

    The handles that commands answer are read back by commands; a name that is
    registered is found; a service that is killed is gone from the map and its queue is
    left to a worker; a timeout that is asked for comes when it is due. *)
From S2P Require Import Prelude MessageQueue Scheduler Handle CString Timer Server Command Safety.
From stdpp Require Import base list gmap numbers strings sorting.
From Stdlib Require Import ZArith Lia.

Local Open Scope Z_scope.

(** ** Handles as text *)

Lemma upper_hex_alphabet : hex_alphabet upper_hex.
Proof. unfold hex_alphabet. apply (below_Forall 16). by repeat apply Forall_cons_2. Qed.

(** The eight digits of a handle. *)
Definition nibbles (id : Z) : list Z :=
  (fun i => Z.land (Z.shiftr id ((7 - Z.of_nat i) * 4)) 0xf) <$> seq 0 8.

Lemma nibbles_value id : is_u32 id -> hex_value (nibbles id) 0 = id.
Proof.
  intros Hid. unfold is_u32 in Hid. unfold nibbles. cbn [seq fmap list_fmap hex_value foldl].
  change 0xf with (2 ^ 4 - 1). rewrite !land_ones_mod by lia.
  rewrite !shiftr_div by lia. cbn [Z.of_nat Pos.of_succ_nat Pos.succ].
  change ((7 - 0) * 4) with 28; change ((7 - 1) * 4) with 24; change ((7 - 2) * 4) with 20;
  change ((7 - 3) * 4) with 16; change ((7 - 4) * 4) with 12; change ((7 - 5) * 4) with 8;
  change ((7 - 6) * 4) with 4; change ((7 - 7) * 4) with 0. cbn. dlia.
Qed.

Lemma nibbles_range id : Forall (fun d => 0 <= d < 16) (nibbles id).
Proof.
  apply Forall_fmap, Forall_true. intros i. cbn. change 0xf with (2 ^ 4 - 1).
  rewrite land_ones_mod by lia. dlia.
Qed.

(** What LAUNCH answers is read back. *)
Lemma strtoul16_id_to_hex id : is_u32 id -> exists digits, id_to_hex id = 58 :: digits /\ strtoul16 digits = id.
Proof.
  intros Hid. exists (upper_hex <$> nibbles id). split.
  - unfold id_to_hex, nibbles. by rewrite <- list_fmap_compose.
  - pose proof (nibbles_value id Hid) as Hv. pose proof (nibbles_range id) as Hr. unfold is_u32 in Hid.
    rewrite strtoul16_hex; rewrite ?(digits_hex _ _ _ upper_hex_alphabet Hr), ?Hv;
      [done|by apply hex_of_alphabet, Hr; apply upper_hex_alphabet|lia..].
Qed.

(** A name as bytes, and as the string of the map. *)
Lemma bytes_string l : Bytes l -> bytes_of (string_of l) = l.
Proof.
  induction 1 as [|c l Hc _ IH]; [done|]. cbn [string_of bytes_of]. rewrite IH. f_equal.
  rewrite Ascii.nat_ascii_embedding by (unfold is_byte in *; lia). unfold is_byte in *. lia.
Qed.

Section REQUESTS.
Context {G : Type} `{GlobalQueueLaws G}.

Abbreviation server := (SNServer (G := G)).
Abbreviation srv := (srv (G := G)).

(** Every text of a handle that the core gives to a service, ":" and the digits of
    [%x] (REG, QUERY, MONITOR) or eight upper case digits (LAUNCH), is read back as that
    handle by the commands that take one, by [skynet_queryname] and by [skynet_sendname]. *)
Theorem handle_text_reads p h (s : server) text : is_u32 h ->
  text = handle_text h \/ text = id_to_hex h ->
  tohandle p text s = Ret (h, s) /\ skynet_queryname p text s = Ret (h, s) /\
  forall context source type session data n, source <> 0 ->
    skynet_sendname context source text type session data n s =
      skynet_send context source h type session data n s.
Proof.
  intros Hh Ht.
  assert (exists digits, text = 58 :: digits /\ strtoul16 digits = h) as (digits & -> & Hd).
  { destruct Ht as [->| ->]; [|by apply strtoul16_id_to_hex].
    exists (print_hex h). split; [done|]. by apply strtoul16_print_hex. }
  cbn [tohandle skynet_queryname]. rewrite Hd, u32_small by done.
  split; [done|]. split; [done|]. intros context source type session data n Hs.
  unfold skynet_sendname. rewrite bool_decide_false by done. by rewrite bind_mret, Hd, u32_small.
Qed.

(** ** What the registered services get *)

(** From [s] to [s'] the service of slot [l] gets [f l]. *)
Definition gets (s s' : server) (f : Z -> list sn_message) : Prop :=
  forall l p c q mq, m_slot (m_pHandleMgr s) !! l = Some p -> contexts s !! p = Some c ->
    c_queue c = Some q -> queues s !! q = Some mq ->
    exists mq', queues s' !! q = Some mq' /\ m_queue mq' = m_queue mq ++ f l.

Definition to (h : Z) (msg : sn_message) (l : Z) : list sn_message :=
  if decide (handle_local h = l) then [msg] else [].

Lemma gets_none s s' : queues s' = queues s -> gets s s' (fun _ => []).
Proof. intros E l p c q mq _ _ _ Hq. exists mq. by rewrite E, app_nil_r. Qed.

Lemma gets_trans s s' s'' f g : quiet s s' -> gets s s' f -> gets s' s'' g ->
  gets s s'' (fun l => f l ++ g l).
Proof.
  intros [Hst Hh _] H1 H2 l p c q mq Hl Hc Hcq Hq. destruct (H1 l p c q mq) as (mq1 & Hq1 & E1); [done..|].
  destruct (stable_context _ _ Hst p c Hc) as (c1 & Hc1 & Hcq1 & _).
  destruct (H2 l p c1 q mq1) as (mq2 & Hq2 & E2); [by rewrite Hh|done|congruence|done|].
  exists mq2. split; [done|]. by rewrite E2, E1, app_assoc.
Qed.

Lemma gets_ext s s' f g : (forall l, f l = g l) -> gets s s' f -> gets s s' g.
Proof. intros He Hf l p c q mq Hl Hc Hcq Hq. rewrite <- He. by eapply Hf. Qed.

(** A computation that ends with [r], keeps the invariant and gives [f]. *)
Definition gives {A} (held : list qid) (m : srv A) (s : server) (r : A) (s' : server)
    (f : Z -> list sn_message) : Prop :=
  m s = Ret (r, s') /\ wf held s' /\ quiet s s' /\ gets s s' f.

Lemma gives_push held s h msg : wf held s ->
  exists r s', gives held (ContextPush h msg) s r s' (to h msg) /\ exists x g, s' = set_queues x g s.
Proof.
  intros Hw. destruct (ContextPush_each held s h msg Hw) as (r & s' & Hp & Hw' & Hq & Hx & _ & Hall).
  exists r, s'. split; [|done]. split; [done|]. split; [done|]. split; [done|].
  intros l p c q mq Hl Hc Hcq Hmq. destruct (Hall l p c q mq) as (mq' & ? & ? & _); [done..|]. by exists mq'.
Qed.

Lemma gives_bind {A B} held (m : srv A) (f : A -> srv B) s r s' r2 s'' g g2 :
  gives held m s r s' g -> gives held (f r) s' r2 s'' g2 ->
  gives held (x ← m; f x) s r2 s'' (fun l => g l ++ g2 l).
Proof.
  intros (E1 & Hw1 & Hq1 & Hg1) (E2 & Hw2 & Hq2 & Hg2).
  split; [by rewrite (bind_step _ _ _ _ _ E1)|]. split; [done|]. split; [by transitivity s'|].
  by eapply gets_trans.
Qed.

(** ** Ending a service *)

(** What [skynet_error] gives to the logger. *)
Definition the_logger (s : server) : Z :=
  if bool_decide (logger s = 0) then SNHandleMgr_FindName (m_pHandleMgr s) "logger" else logger s.

Definition log_message (src : Z) (text : list Z) : sn_message :=
  mk_sn_message src 0 (Some (Text (text ++ [0]))) (Z.of_nat (length text)).

Definition logs (s : server) (src : Z) (text : list Z) (l : Z) : list sn_message :=
  if bool_decide (the_logger s = 0) then [] else to (the_logger s) (log_message src text) l.

Lemma gives_error held s p c text : wf held s -> contexts s !! p = Some c ->
  exists s', gives held (skynet_error (Some p) text) s tt s' (logs s (c_handle c) text) /\
    exists x g, s' = set_queues x g (set_logger (the_logger s) s).
Proof.
  intros Hw Hc. unfold skynet_error, logs. fold (the_logger s).
  pose proof (tame_logger held s (the_logger s) Hw) as [Hw1 Hq1]. cbn in Hw1, Hq1.
  unfold gives. case_bool_decide as Hl.
  - exists (set_logger (the_logger s) s). split; [|by exists (queues s), (m_pMqMgr s)].
    split_and!; [|done|done|by apply gets_none].
    rewrite bind_get. cbv zeta. fold (the_logger s). by rewrite bind_modify, bool_decide_true.
  - destruct (gives_push held (set_logger (the_logger s) s) (the_logger s)
      (log_message (c_handle c) text) Hw1) as (r & s' & (Hp & Hw' & Hq' & Hg) & x & g & Hx).
    exists s'. split; [|by exists x, g]. split_and!; [|done|by transitivity (set_logger (the_logger s) s)|].
    + rewrite bind_get. cbv zeta. fold (the_logger s). rewrite bind_modify, bool_decide_false by done.
      assert (Hh : (c_handle <$> context_of p) (set_logger (the_logger s) s) =
        Ret (c_handle c, set_logger (the_logger s) s)).
      { unfold fmap, srv_fmap. by rewrite (context_of_Some p c). }
      rewrite (bind_step _ _ _ _ _ Hh). by rewrite (bind_step _ _ _ _ _ Hp).
    + eapply gets_ext; [|eapply gets_trans; [exact Hq1|by apply gets_none|exact Hg]]. done.
Qed.

(** What the monitor of exits gets. *)
Definition exit_message (h : Z) : sn_message :=
  mk_sn_message h 0 None (Z.lor 0 (type_bits (Z.land PTYPE_CLIENT 0xff))).

Definition reports (s : server) (h l : Z) : list sn_message :=
  if bool_decide (m_monitor_exit s = 0) then [] else to (m_monitor_exit s) (exit_message h) l.

Lemma gives_report held s p h : wf held s -> h <> 0 ->
  skynet_harbor_message_isremote (m_monitor_exit s) s = false ->
  exists s', gives held (x ← get;
      if bool_decide (m_monitor_exit x <> 0) then
        _ ← skynet_send (Some p) h (m_monitor_exit x) PTYPE_CLIENT 0 None 0; mret tt
      else mret tt) s tt s' (reports s h) /\ exists x g, s' = set_queues x g s.
Proof.
  intros Hw Hh Hr. unfold gives, reports. rewrite bind_get.
  destruct (decide (m_monitor_exit s = 0)) as [Hm|Hm].
  - exists s. rewrite bool_decide_false, bool_decide_true by auto.
    split; [|exists (queues s), (m_pMqMgr s); by destruct s].
    split; [done|]. split; [done|]. split; [done|]. by apply gets_none.
  - rewrite bool_decide_true, bool_decide_false by done.
    destruct (gives_push held s (m_monitor_exit s) (exit_message h) Hw)
      as (r & s' & (Hp & Hw' & Hq' & Hg) & Hx).
    exists s'. split; [|done]. split; [|done].
    rewrite (bind_step _ _ s (if bool_decide (r <> 0) then -1 else 0) s'); [done|].
    rewrite (skynet_send_step s s (Some p) h h (m_monitor_exit s) PTYPE_CLIENT 0 0 None None 0
      (Z.lor 0 (type_bits (Z.land PTYPE_CLIENT 0xff)))); [|lia|by apply filter_args_null|by rewrite bool_decide_false|done].
    rewrite Hr. rewrite (bind_step _ _ _ _ _ Hp). by case_bool_decide.
Qed.

(** Removing a service, and leaving its queue to the workers. *)
Lemma remove_force held s h t ct q mq : wf held s -> HARBOR s = 0 -> live s h t ct q mq ->
  exists s' mq',
    (r ← handle_remove h; match r with Some c => ForceInGlobal c | None => mret tt end) s = Ret (tt, s') /\
    wf held s' /\ m_pHandleMgr s' = without (m_pHandleMgr s) (handle_local h) /\
    gets s s' (fun _ => []) /\ queues s' !! q = Some mq' /\ m_bInGlobal mq' = true /\
    m_queue mq' = m_queue mq /\ m_handle mq' = m_handle mq.
Proof.
  intros Hw Hz Hl. pose proof (wp_remove held s h Hw) as Hrem.
  assert (E : handle_remove h s = Ret (Some t, set_handles (without (m_pHandleMgr s) (handle_local h)) s)).
  { unfold handle_remove. rewrite Remove_without_harbor; [by rewrite (live_find _ _ _ _ _ _ Hl)| |by apply (Handle_in_slot held)].
    by rewrite <- (wf_harbor _ _ Hw). }
  unfold wp in Hrem. rewrite E in Hrem. destruct Hrem as (Hw1 & _).
  set (s1 := set_handles _ s) in *. destruct Hl as [Hf Ht Hq Hmq].
  pose proof (tame_force held s1 t ct q mq Hw1 Ht Hq Hmq) as Hforce. unfold tame, wp in Hforce.
  assert (EF : ForceInGlobal t s1 = Ret (tt, let '(mq', g) := SNMessageQueue_ForceInGlobal q mq (m_pMqMgr s1) in
    set_queues (<[q := mq']> (queues s1)) g s1)).
  { unfold ForceInGlobal. rewrite (bind_step _ _ s1 _ _ (MessageQueue_Some t ct q s1 Ht Hq)).
    by rewrite (bind_step _ _ s1 _ _ (queue_of_Some q mq s1 Hmq)). }
  rewrite EF in Hforce. rewrite (bind_step _ _ _ _ _ E), EF. destruct Hforce as [Hw2 Hq2].
  destruct (SNMessageQueue_ForceInGlobal q mq (m_pMqMgr s1)) as [mq' g] eqn:EG.
  assert (Hmq' : m_bInGlobal mq' = true /\ m_queue mq' = m_queue mq /\ m_handle mq' = m_handle mq).
  { unfold SNMessageQueue_ForceInGlobal in EG. destruct (m_bInGlobal mq) eqn:Eb; injection EG as <- _; done. }
  destruct Hmq' as (Hb & Hm & Hh). eexists _, mq'. split; [reflexivity|].
  split; [done|]. split; [done|]. split; [|split; [apply lookup_insert_eq|done]].
  intros l p c q0 mq0 _ _ _ Hmq0. cbn. destruct (decide (q0 = q)) as [->|].
  - exists mq'. rewrite lookup_insert_eq, app_nil_r. split; [done|congruence].
  - exists mq0. by rewrite lookup_insert_ne, app_nil_r.
Qed.

(** A service stays live while nothing but messages comes. *)
Lemma live_gets s s' h t ct q mq f : live s h t ct q mq -> quiet s s' -> gets s s' f ->
  exists ct' mq', live s' h t ct' q mq' /\ m_queue mq' = m_queue mq ++ f (handle_local h).
Proof.
  intros [Hf Ht Hq Hmq] [Hst Hh _] Hg.
  destruct (Hg (handle_local h) t ct q mq) as (mq' & Hmq' & E); [exact Hf|done|done|done|].
  destruct (stable_context _ _ Hst t ct Ht) as (ct' & Ht' & Hq' & _).
  exists ct', mq'. split; [|done]. split; [by rewrite Hh|done|congruence|done].
Qed.

Lemma tohandle_text p h s : is_u32 h -> tohandle p (handle_text h) s = Ret (h, s).
Proof. intros Hh. cbn [tohandle handle_text]. by rewrite strtoul16_print_hex, u32_small. Qed.

(** C8: on a node without a number KILL ends the service of the handle: it and its names
    are gone from the map, and nothing else is; the logger gets one line and the monitor
    of exits one message from the service, behind what they had; the messages of the
    service are kept, and its queue is one that a worker will take, which then answers
    their senders. *)
Theorem kill_ends_service held s p c h t ct q mq :
  wf held s -> HARBOR s = 0 -> contexts s !! p = Some c -> live s h t ct q mq -> h <> 0 -> is_u32 h ->
  skynet_harbor_message_isremote (m_monitor_exit s) s = false ->
  let text := bytes_of "KILL :" ++ print_hex h in
  exists s' mq',
    cmd_kill p (handle_text h) s = Ret (None, s') /\ wf held s' /\
    (forall h', SNHandleMgr_FindContext (m_pHandleMgr s') h' =
       if decide (handle_local h' = handle_local h) then None
       else SNHandleMgr_FindContext (m_pHandleMgr s) h') /\
    (forall name, SNHandleMgr_FindName (m_pHandleMgr s') name =
       if decide (SNHandleMgr_FindName (m_pHandleMgr s) name = handle_local h) then INVALID_HANDLE
       else SNHandleMgr_FindName (m_pHandleMgr s) name) /\
    gets s s' (fun l => logs s (c_handle c) text l ++ reports s h l) /\
    queues s' !! q = Some mq' /\ m_bInGlobal mq' = true /\ q ∈ held ++ gq_elems (m_pMqMgr s').
Proof.
  intros Hw Hz Hc Hl Hh Hu Hr text.
  destruct (gives_error held s p c text Hw Hc) as (s1 & (E1 & Hw1 & Hq1 & Hg1) & x1 & g1 & Hx1).
  destruct (gives_report held s1 p h Hw1 Hh) as (s2 & (E2 & Hw2 & Hq2 & Hg2) & x2 & g2 & Hx2).
  { by rewrite Hx1. }
  pose proof (gets_trans _ _ _ _ _ Hq1 Hg1 Hg2) as Hg.
  assert (Hq02 : quiet s s2) by by transitivity s1.
  destruct (live_gets _ _ _ _ _ _ _ _ Hl Hq02 Hg) as (ct2 & mq2 & Hl2 & Hm2).
  destruct (remove_force held s2 h t ct2 q mq2 Hw2) as (s3 & mq3 & E3 & Hw3 & Hm3 & Hg3 & Hq3 & Hb3 & _).
  { by rewrite (stable_harbor _ _ (quiet_stable _ _ Hq02)). }
  { done. }
  pose proof (quiet_handles _ _ Hq02) as Hm.
  exists s3, mq3. split; [|split; [done|]].
  - unfold cmd_kill. rewrite (bind_step _ _ _ _ _ (tohandle_text p h s Hu)), bool_decide_true by done.
    rewrite (bind_step _ _ s tt s3); [done|]. unfold handle_exit. rewrite bool_decide_false by done.
    fold text. rewrite bind_bind, (bind_step _ _ _ _ _ E1), bind_mret.
    rewrite bind_get in E2 |- *. rewrite (bind_step _ _ _ _ _ E2). exact E3.
  - rewrite Hm3, Hm. split; [apply without_find|]. split; [apply without_name|].
    split; [|split; [done|split; [done|]]].
    + eapply gets_ext; [|eapply gets_trans; [exact Hq02|exact Hg|exact Hg3]]. intros l. cbn.
      rewrite app_nil_r. f_equal. unfold reports. by rewrite Hx1.
    + apply (core_flag _ _ (wf_core _ _ Hw3)). by exists mq3.
Qed.

(** ** Names *)

(** The name that a service registers with REG is found from then on: QUERY answers
    its handle, [skynet_queryname] too, and a message to the name goes to it; no other
    name changes, and nobody can register the name again. *)
Theorem registered_name_found p c (s : server) name :
  contexts s !! p = Some c -> c_handle c <> 0 -> Bytes name ->
  m_nameMap (m_pHandleMgr s) !! string_of name = None ->
  exists s', cmd_reg p (Some (46 :: name)) s = Ret (Some name, s') /\
    cmd_query (46 :: name) s' = Ret (Some (handle_text (c_handle c)), s') /\
    skynet_queryname p (46 :: name) s' = Ret (c_handle c, s') /\
    (forall context source type session data n, source <> 0 ->
       skynet_sendname context source (46 :: name) type session data n s' =
         skynet_send context source (c_handle c) type session data n s') /\
    (forall other, other <> string_of name ->
       SNHandleMgr_FindName (m_pHandleMgr s') other = SNHandleMgr_FindName (m_pHandleMgr s) other) /\
    forall p2 c2, contexts s !! p2 = Some c2 -> cmd_reg p2 (Some (46 :: name)) s' = Ret (None, s').
Proof.
  intros Hc Hh Hb Hn.
  set (m := {| m_harbor := m_harbor (m_pHandleMgr s); m_handle_index := m_handle_index (m_pHandleMgr s);
     m_slot := m_slot (m_pHandleMgr s);
     m_nameMap := <[string_of name := c_handle c]> (m_nameMap (m_pHandleMgr s)) |}).
  exists (set_handles m s).
  assert (Hf : SNHandleMgr_FindName m (string_of name) = c_handle c).
  { unfold SNHandleMgr_FindName. cbn. by rewrite lookup_insert_eq. }
  split; [|split; [|split; [|split; [|split]]]].
  - unfold cmd_reg. rewrite (bind_step _ _ _ _ _ (context_of_Some _ _ _ Hc)).
    unfold name_handle, SNHandleMgr_NameHandle. rewrite Hn. cbn. by rewrite bytes_string.
  - unfold cmd_query, find_name. rewrite bind_bind, bind_get, bind_mret. cbn [m_pHandleMgr set_handles].
    by rewrite Hf, bool_decide_true.
  - unfold skynet_queryname, find_name. rewrite bind_get. cbn [m_pHandleMgr set_handles]. by rewrite Hf.
  - intros context source type session data n Hs. unfold skynet_sendname.
    rewrite (bool_decide_false (source = 0)), bind_mret, bind_get by done. cbv zeta.
    cbn [m_pHandleMgr set_handles]. by rewrite Hf, bool_decide_false.
  - intros other Ho. unfold SNHandleMgr_FindName. cbn. by rewrite lookup_insert_ne.
  - intros p2 c2 Hc2. unfold cmd_reg.
    rewrite (bind_step _ _ _ _ _ (context_of_Some p2 c2 (set_handles m s) Hc2)).
    unfold name_handle, SNHandleMgr_NameHandle. cbn [m_pHandleMgr set_handles].
    cbn [m m_nameMap]. rewrite lookup_insert_eq. done.
Qed.

(** ** Timeouts *)

Definition push_message (x : push) : sn_message :=
  mk_sn_message (p_source x) (p_session x) None (p_sz x).

Lemma gives_pushes held ps : forall s, wf held s ->
  exists s', gives held (push_timeouts ps) s tt s' (fun l => x ← ps; to (p_handle x) (push_message x) l).
Proof.
  induction ps as [|x ps IH]; intros s Hw.
  - exists s. split; [done|]. split; [done|]. split; [done|]. by apply gets_none.
  - destruct (gives_push held s (p_handle x) (push_message x) Hw) as (r & s1 & Hg1 & _).
    destruct (IH s1) as (s2 & Hg2); [by destruct Hg1 as (_ & ? & _)|].
    exists s2. exact (gives_bind held _ _ _ _ _ _ _ _ _ Hg1 Hg2).
Qed.

(** The answer to a timeout of session [session]. *)
Definition response (session : Z) : sn_message :=
  mk_sn_message 0 session None (Z.shiftl PTYPE_RESPONSE HANDLE_REMOTE_SHIFT).

Definition responses (fired : list (timer_event * Z)) (l : Z) : list sn_message :=
  x ← fired; to (ev_handle x.1) (response (ev_session x.1)) l.

Lemma pushes_responses fired l :
  (x ← pushes fired; to (p_handle x) (push_message x) l) = responses fired l.
Proof.
  unfold responses, pushes. induction fired as [|x fired IH]; [done|].
  cbn [fmap list_fmap mbind list_bind]. cbn [mbind list_bind] in IH. by rewrite IH.
Qed.

Lemma timeout_step s h n session now pending : timer_holds (TI s) now pending -> 0 < n < 2 ^ 31 ->
  exists T, server_timeout h n session s = Ret (session, set_TI T s) /\
    current_point T = current_point (TI s) /\
    timer_holds T now ((mk_event h session, now + n) :: pending).
Proof.
  intros Ht Hn. destruct (timer_add_holds _ _ _ (mk_event h session) n Ht Hn) as (T & He & HT).
  exists T. split; [|split; [by eapply timer_add_point|done]].
  unfold server_timeout. rewrite bind_get. cbv zeta.
  rewrite (bind_lift _ _ _ (session, T, [])); [done|].
  unfold skynet_timeout. rewrite bool_decide_false by lia. by rewrite He.
Qed.

(** C5: TIMEOUT answers a session, and nothing comes at once; when the clock is read [d]
    ticks after its last reading, every service gets exactly the responses of its
    timeouts that are due by then, in the order of their times, the new one among them
    when [d] is its number of ticks or more, and not before. *)
Theorem timeout_answered held s p c now pending param :
  wf held s -> contexts s !! p = Some c -> timer_holds (TI s) now pending ->
  let n := i32 (strtol10 param) in 0 < n ->
  let session := next_session (c_session_id c) in
  exists s1, cmd_timeout p param s = Ret (Some (print_int session), s1) /\ wf held s1 /\
    gets s s1 (fun _ => []) /\
    forall cp, let d := cp - current_point (TI s) in 0 <= d < 2 ^ 32 ->
      exists s2 fired rest, server_updatetime cp s1 = Ret (tt, s2) /\ wf held s2 /\
        gets s1 s2 (responses fired) /\
        due_by now d ((mk_event (c_handle c) session, now + n) :: pending) fired rest.
Proof.
  intros Hw Hc Ht n Hn session.
  assert (Hn' : 0 < n < 2 ^ 31) by (pose proof (i32_range (strtol10 param)); unfold is_i32 in *; lia).
  set (s0 := set_context p (set_session_id session c) s).
  destruct (timeout_step s0 (c_handle c) n session now pending Ht Hn') as (T & He & Hpt & HT).
  assert (E : cmd_timeout p param s = Ret (Some (print_int session), set_TI T s0)).
  { unfold cmd_timeout. cbv zeta. fold n. rewrite (bind_step _ _ _ _ _ (NewSession_spec _ _ _ Hc)).
    fold session s0.
    assert (Hc0 : contexts s0 !! p = Some (set_session_id session c)) by apply lookup_insert_eq.
    rewrite (bind_step _ _ _ _ _ (context_of_Some _ _ _ Hc0)). cbn [c_handle set_session_id].
    by rewrite (bind_step _ _ _ _ _ He). }
  assert (Hp : exists_context s p) by by exists c.
  pose proof (tame_cmd_timeout held s p param Hw Hp) as Htame. unfold tame, wp in Htame.
  rewrite E in Htame. destruct Htame as [Hw1 Hq1].
  exists (set_TI T s0). split; [done|]. split; [done|]. split; [by apply gets_none|].
  intros cp d Hd. destruct (updatetime_holds T now _ cp HT) as (T' & fired & rest & Hup & _ & Hdue).
  { rewrite Hpt. exact Hd. }
  set (s1 := set_TI T' (set_TI T s0)).
  pose proof (tame_TI held _ T' Hw1) as [Hw1' _]. cbn in Hw1'. fold s1 in Hw1'.
  destruct (gives_pushes held (pushes fired) s1 Hw1') as (s2 & Hg & Hw2 & _ & Hall).
  exists s2, fired, rest. split; [|split; [done|split]].
  - unfold server_updatetime. rewrite bind_get. cbv zeta. cbn [TI set_TI].
    assert (Hcp : ~ cp < current_point (TI s)) by lia.
    rewrite Hpt, (bool_decide_false _ Hcp), bind_mret, bind_get.
    by rewrite (bind_lift _ _ _ (T', pushes fired)).
  - eapply gets_ext; [|exact Hall]. intros l. apply pushes_responses.
  - by rewrite Hpt in Hdue.
Qed.
End REQUESTS.

(* ------------------------------------------------------------------ *)
(** ** Witnesses *)

Lemma handle_text_reads_witness :
  let s := demo_node 0 in
  tohandle 11 (bytes_of ":100000a") s = Ret (0x100000a, s) /\
  skynet_queryname 11 (bytes_of ":100000a") s = Ret (0x100000a, s) /\
  forall context source type session data n, source <> 0 ->
    skynet_sendname context source (bytes_of ":100000a") type session data n s =
      skynet_send context source 0x100000a type session data n s.
Proof. apply (handle_text_reads 11 0x100000a (demo_node 0)); [done|]. left. reflexivity. Defined.

Lemma kill_ends_service_witness :
  let s := demo_node 0 in
  exists (s' : SNServer (G := debug_mgr)) mq',
    cmd_kill 11 (handle_text 2) s = Ret (None, s') /\ wf [] s' /\
    (forall h', SNHandleMgr_FindContext (m_pHandleMgr s') h' =
       if decide (handle_local h' = handle_local 2) then None
       else SNHandleMgr_FindContext (m_pHandleMgr s) h') /\
    (forall name, SNHandleMgr_FindName (m_pHandleMgr s') name =
       if decide (SNHandleMgr_FindName (m_pHandleMgr s) name = handle_local 2) then INVALID_HANDLE
       else SNHandleMgr_FindName (m_pHandleMgr s) name) /\
    gets s s' (fun l => logs s 1 (bytes_of "KILL :" ++ print_hex 2) l ++ reports s 2 l) /\
    queues s' !! 22 = Some mq' /\ m_bInGlobal mq' = true /\ 22 ∈ [] ++ gq_elems (m_pMqMgr s').
Proof.
  apply (kill_ends_service [] (demo_node 0) 11 (demo_context 1 21) 2 12 (demo_context 2 22) 22
    (SNMessageQueue_new 2)).
  - apply demo_wf. lia.
  - reflexivity.
  - reflexivity.
  - apply (demo_live 0 2); lia.
  - discriminate.
  - done.
  - reflexivity.
Defined.

Lemma registered_name_found_witness :
  let s := demo_node 0 in
  let name := bytes_of "db" in
  exists (s' : SNServer (G := debug_mgr)), cmd_reg 11 (Some (46 :: name)) s = Ret (Some name, s') /\
    cmd_query (46 :: name) s' = Ret (Some (handle_text 1), s') /\
    skynet_queryname 11 (46 :: name) s' = Ret (1, s') /\
    (forall context source type session data n, source <> 0 ->
       skynet_sendname context source (46 :: name) type session data n s' =
         skynet_send context source 1 type session data n s') /\
    (forall other, other <> string_of name ->
       SNHandleMgr_FindName (m_pHandleMgr s') other = SNHandleMgr_FindName (m_pHandleMgr s) other) /\
    forall p2 c2, contexts s !! p2 = Some c2 -> cmd_reg p2 (Some (46 :: name)) s' = Ret (None, s').
Proof.
  apply (registered_name_found 11 (demo_context 1 21) (demo_node 0) (bytes_of "db")).
  - reflexivity.
  - discriminate.
  - repeat constructor; done.
  - reflexivity.
Defined.

Lemma timeout_answered_witness :
  let s := demo_node 0 in
  exists s1, cmd_timeout 11 (bytes_of "3") s = Ret (Some (print_int 1), s1) /\ wf [] s1 /\
    gets s s1 (fun _ => []) /\
    forall cp, let d := cp - 0 in 0 <= d < 2 ^ 32 ->
      exists s2 fired rest, server_updatetime cp s1 = Ret (tt, s2) /\ wf [] s2 /\
        gets s1 s2 (responses fired) /\
        due_by 0 d [(mk_event 1 1, 0 + 3)] fired rest.
Proof.
  apply (timeout_answered [] (demo_node 0) 11 (demo_context 1 21) 0 [] (bytes_of "3")).
  - apply demo_wf. lia.
  - reflexivity.
  - apply world_init_ok.
  - done.
Defined.

(** The response comes with the third tick. *)
Example timeout_run :
  match (_ ← cmd_timeout 11 (bytes_of "3"); _ ← server_updatetime 2; get) (demo_node 0) with
  | Ret (s, _) => (m_queue <$> queues s !! 21,
      match server_updatetime 3 s with Ret (_, s') => m_queue <$> queues s' !! 21 | _ => None end)
  | _ => (None, None)
  end = (Some [], Some [response 1]).
Proof. vm_compute. reflexivity. Qed.
