(* ===== verification/Gate.v ===== *)
(** * The gate service (src/service-src/service_gate.c)

    A gate accepts connections, cuts the byte stream of each into packets and sends
    these to an agent, a broker or the watchdog.  Its state is the connection array,
    the table from socket ids to indices ([HashId]) and the receive buffers over one
    message pool ([DataBuffer]).  What a handler does to the rest of the program is
    the list of its calls, in order.  [skynet_queryname] and [skynet_socket_listen]
    are calls that answer the gate; they are parameters. *)
From S2P Require Import Prelude HashId DataBuffer CString.
From stdpp Require Import base list gmap numbers strings.
From Stdlib Require Import ZArith Lia.

Local Open Scope Z_scope.

(** ** State *)

(** [remote_name] is the string in the array. *)
Record connection := mk_connection {
  c_id : Z;
  c_agent : Z;
  c_client : Z;
  c_remote_name : list Z;
  c_buffer : databuffer
}.

Record gate := mk_gate {
  listen_id : Z;
  watchdog : Z;
  broker : Z;
  client_tag : Z;
  header_size : nat;
  max_connection : Z;
  g_hash : hashid;
  g_conn : list connection;
  g_mp : messagepool
}.

(** The calls of the gate. *)
Inductive action :=
| Send (source dest type session : Z) (data : list Z)
| SocketClose (id : Z)
| SocketStart (id : Z)
| SocketSend (id : Z) (data : list Z)
| SocketListen (host : list Z) (port backlog : Z)
| LogError (text : list Z)
| SetCallback.

Definition set_listen (g : gate) (n : Z) : gate :=
  mk_gate n (watchdog g) (broker g) (client_tag g) (header_size g) (max_connection g)
    (g_hash g) (g_conn g) (g_mp g).
Definition set_broker (g : gate) (n : Z) : gate :=
  mk_gate (listen_id g) (watchdog g) n (client_tag g) (header_size g) (max_connection g)
    (g_hash g) (g_conn g) (g_mp g).
Definition set_hash (g : gate) (h : hashid) : gate :=
  mk_gate (listen_id g) (watchdog g) (broker g) (client_tag g) (header_size g) (max_connection g)
    h (g_conn g) (g_mp g).
Definition set_conn (g : gate) (c : list connection) (mp : messagepool) : gate :=
  mk_gate (listen_id g) (watchdog g) (broker g) (client_tag g) (header_size g) (max_connection g)
    (g_hash g) c mp.
Definition set_buffer (c : connection) (db : databuffer) : connection :=
  mk_connection (c_id c) (c_agent c) (c_client c) (c_remote_name c) db.

Definition connection_zero : connection := mk_connection 0 0 0 [] databuffer_zero.

Definition gate_create : gate :=
  mk_gate (-1) 0 0 0 0 0 (mk_hashid 0 0 0 [] []) [] messagepool_zero.

(** The sockets [gate_release] closes; the memory is given back. *)
Definition gate_release (g : gate) : list action :=
  ((fun c => SocketClose (c_id c)) <$> filter (fun c => 0 <= c_id c) (g_conn g)) ++
  (if bool_decide (0 <= listen_id g) then [SocketClose (listen_id g)] else []).

(** ** Control commands *)

(** The number of spaces at the head. *)
Fixpoint count_spaces (l : list Z) : nat :=
  match l with
  | c :: l => if bool_decide (c = 32) then S (count_spaces l) else O
  | [] => O
  end.

(** [_parm]: the text behind the command and its spaces moves to the front. *)
Definition _parm (msg : list Z) (sz command_sz : nat) : list Z :=
  let command_sz := (command_sz + count_spaces (drop command_sz (take sz msg)))%nat in
  drop command_sz (take sz msg) ++ 0 :: drop (sz - command_sz + 1) msg.

Definition _forward_agent (g : gate) (fd agentaddr clientaddr : Z) : outcome gate :=
  id ← hashid_lookup (g_hash g) fd;
  if bool_decide (id >= 0) then
    agent ← read_at (g_conn g) id;
    conn ← write_at (g_conn g) id
      (mk_connection (c_id agent) agentaddr clientaddr (c_remote_name agent) (c_buffer agent));
    Ret (set_conn g conn (g_mp g))
  else Ret g.

(** [memcmp(command, name, i) == 0] against the literal and its NUL. *)
Definition is_command (command : list Z) (name : string) (i : nat) : outcome bool :=
  memcmp_eq command (bytes_of name ++ [0]) i.

Section control.
Context (skynet_queryname : list Z -> Z).

Definition cmd_kick (g : gate) (tmp : list Z) : outcome (gate * list action) :=
  s ← cstring tmp 0;
  let uid := i32 (strtol10 s) in
  id ← hashid_lookup (g_hash g) uid;
  Ret (g, if bool_decide (id >= 0) then [SocketClose uid] else []).

Definition cmd_forward (g : gate) (tmp : list Z) : outcome (gate * list action) :=
  '(tmp, client) ← strsep tmp 0;
  match client with
  | None => Ret (g, [])
  | Some agent =>
    idstr ← cstring tmp 0;
    let id := i32 (strtol10 idstr) in
    '(tmp, client) ← strsep tmp agent;
    match client with
    | None => Ret (g, [])
    | Some client =>
      agentstr ← cstring tmp (agent + 1);
      clientstr ← cstring tmp (client + 1);
      g ← _forward_agent g id (u32 (strtoul16 agentstr)) (u32 (strtoul16 clientstr));
      Ret (g, [])
    end
  end.

(** [rest] is what the memory of [tmp] holds behind the text and its NUL. *)
Definition _ctrl_ (g : gate) (msg rest : list Z) : outcome (gate * list action) :=
  let sz := length msg in
  let tmp := msg ++ 0 :: rest in
  if bool_decide (sz = 0%nat) then Ret (g, [])
  else
    let i := match list_find (fun c => c = 32) msg with Some (i, _) => i | None => sz end in
    kick ← is_command tmp "kick" i;
    if kick : bool then cmd_kick g (_parm tmp sz i)
    else
    forward ← is_command tmp "forward" i;
    if forward : bool then cmd_forward g (_parm tmp sz i)
    else
    broker ← is_command tmp "broker" i;
    if broker : bool then
      command ← cstring (_parm tmp sz i) 0;
      Ret (set_broker g (skynet_queryname command), [])
    else
    start ← is_command tmp "start" i;
    if start : bool then Ret (g, [SocketStart (listen_id g)])
    else
    close ← is_command tmp "close" i;
    if close : bool then
      if bool_decide (listen_id g >= 0) then
        Ret (set_listen g (-1), [SocketClose (listen_id g)])
      else Ret (g, [])
    else
      command ← cstring tmp 0;
      Ret (g, [LogError (bytes_of "[gate] Unkown command : " ++ command)]).

(** The buffer is freed whether it came from the heap or not. *)
Definition _ctrl (g : gate) (msg rest : list Z) : outcome (gate * list action) :=
  '(g, acts) ← _ctrl_ g msg rest;
  if bool_decide (Z.of_nat (length msg) > 1023) then Ret (g, acts) else Crash BadFree.
End control.

(** ** Socket messages *)

Definition _report (g : gate) (data : list Z) : list action :=
  if bool_decide (watchdog g = 0) then []
  else [Send 0 (watchdog g) PTYPE_TEXT 0 data].

(** What is left of the buffer and the pool, and the packet sent. *)
Definition _forward (g : gate) (c : connection) (db : databuffer) (mp : messagepool) (size : Z)
  : outcome (databuffer * messagepool * list action) :=
  if bool_decide (broker g <> 0) then
    '(temp, db, mp) ← databuffer_read db mp size;
    Ret (db, mp, [Send 0 (broker g) (Z.lor (client_tag g) PTYPE_TAG_DONTCOPY) 0 temp])
  else if bool_decide (c_agent c <> 0) then
    '(temp, db, mp) ← databuffer_read db mp size;
    Ret (db, mp, [Send (c_client c) (c_agent c) (Z.lor (client_tag g) PTYPE_TAG_DONTCOPY) 0 temp])
  else if bool_decide (watchdog g <> 0) then
    '(temp, db, mp) ← databuffer_read db mp size;
    Ret (db, mp, [Send 0 (watchdog g) (Z.lor PTYPE_TEXT PTYPE_TAG_DONTCOPY) 0
                    (print_int (c_id c) ++ bytes_of " data " ++ temp)])
  else Ret (db, mp, []).

(** The [for (;;)] of [dispatch_message]; a round takes at least a header. *)
Fixpoint dispatch_loop (fuel : nat) (g : gate) (c : connection) (id : Z)
    (db : databuffer) (mp : messagepool) (acts : list action)
  : outcome (databuffer * messagepool * list action) :=
  match fuel with
  | O => Crash OutOfFuel
  | S fuel =>
    '(size, db, mp) ← databuffer_readheader db mp (Z.of_nat (header_size g));
    if bool_decide (size < 0) then Ret (db, mp, acts)
    else if bool_decide (size > 0) then
      if bool_decide (size >= 0x1000000) then
        '(db, mp) ← databuffer_clear db mp;
        Ret (db, mp, acts ++ [SocketClose id; LogError (bytes_of "Recv socket message > 16M")])
      else
        '(db, mp, a) ← _forward g c db mp size;
        dispatch_loop fuel g c id (databuffer_reset db) mp (acts ++ a)
    else dispatch_loop fuel g c id db mp acts
  end.

Definition dispatch_message (g : gate) (index : Z) (id : Z) (data : list Z)
  : outcome (gate * list action) :=
  c ← read_at (g_conn g) index;
  '(db, mp) ← databuffer_push (c_buffer c) (g_mp g) data;
  '(db, mp, acts) ← dispatch_loop (S (S (Z.to_nat (db_size db)))) g c id db mp [];
  conn ← write_at (g_conn g) index (set_buffer c db);
  Ret (set_conn g conn mp, acts).

(** [sm_padding] is the text behind the message: the address of a new peer. *)
Definition dispatch_socket_message (g : gate) (m : socket_message) (sz : Z)
  : outcome (gate * list action) :=
  if bool_decide (sm_type m = SKYNET_SOCKET_TYPE_DATA) then
    id ← hashid_lookup (g_hash g) (sm_id m);
    if bool_decide (id >= 0) then
      data ← read_bytes (default [] (sm_buffer m)) 0 (sm_ud m);
      dispatch_message g id (sm_id m) data
    else
      Ret (g, [LogError (bytes_of "Drop unknown connection " ++ print_int (sm_id m) ++
                         bytes_of " message"); SocketClose (sm_id m)])
  else if bool_decide (sm_type m = SKYNET_SOCKET_TYPE_CONNECT) then
    if bool_decide (sm_id m = listen_id g) then Ret (g, [])
    else
      id ← hashid_lookup (g_hash g) (sm_id m);
      if bool_decide (id >= 0) then
        c ← read_at (g_conn g) id;
        Ret (g, _report g (print_int (sm_id m) ++ bytes_of " open " ++ print_int (sm_id m) ++
                           [32] ++ c_remote_name c ++ bytes_of ":0"))
      else
        Ret (g, [LogError (bytes_of "Close unknown connection " ++ print_int (sm_id m));
                 SocketClose (sm_id m)])
  else if bool_decide (sm_type m = SKYNET_SOCKET_TYPE_CLOSE \/
                       sm_type m = SKYNET_SOCKET_TYPE_ERROR) then
    '(id, h) ← hashid_remove (g_hash g) (sm_id m);
    let g := set_hash g h in
    if bool_decide (id >= 0) then
      c ← read_at (g_conn g) id;
      '(_, mp) ← databuffer_clear (c_buffer c) (g_mp g);
      conn ← write_at (g_conn g) id (mk_connection (-1) 0 0 [] databuffer_zero);
      Ret (set_conn g conn mp, _report g (print_int (sm_id m) ++ bytes_of " close"))
    else Ret (g, [])
  else if bool_decide (sm_type m = SKYNET_SOCKET_TYPE_ACCEPT) then
    if bool_decide (listen_id g = sm_id m) then
      if hashid_full (g_hash g) then Ret (g, [SocketClose (sm_ud m)])
      else
        '(id, h) ← hashid_insert (g_hash g) (sm_ud m);
        let g := set_hash g h in
        c ← read_at (g_conn g) id;
        let sz := if bool_decide (u64 sz >= 32) then 31 else sz in
        name ← read_bytes (sm_padding m) 0 sz;
        name ← cstr (name ++ [0]);
        conn ← write_at (g_conn g) id
          (mk_connection (sm_ud m) (c_agent c) (c_client c) name (c_buffer c));
        Ret (set_conn g conn (g_mp g), [SocketStart (sm_ud m)])
    else Crash AssertFailed
  else Ret (g, []).

(** ** The callback *)

Definition client_uid (msg : list Z) : Z :=
  let idbuf := drop (length msg - 4) msg in
  i32 (Z.lor (Z.lor (Z.lor (idbuf !!! 0%nat) (Z.shiftl (idbuf !!! 1%nat) 8))
                    (Z.shiftl (idbuf !!! 2%nat) 16)) (Z.shiftl (idbuf !!! 3%nat) 24)).

(** The result tells the caller not to free the message. *)
Definition cb_client (g : gate) (msg : list Z) : outcome (Z * list action) :=
  if bool_decide (Z.of_nat (length msg) <= 4) then
    Ret (0, [LogError (bytes_of "Invalid client message")])
  else
    let uid := client_uid msg in
    id ← hashid_lookup (g_hash g) uid;
    if bool_decide (id >= 0) then
      Ret (1, [SocketSend uid (take (length msg - 4) msg)])
    else Ret (0, [LogError (bytes_of "Invalid client id")]).

(** What arrives: a text, a message for a client, or a message of the socket thread
    with the size of its padding. *)
Inductive gate_message :=
| MsgText (msg rest : list Z)
| MsgClient (msg : list Z)
| MsgSocket (source : Z) (m : socket_message) (sz : Z)
| MsgOther.

Definition _cb (queryname : list Z -> Z) (g : gate) (msg : gate_message)
  : outcome (Z * gate * list action) :=
  match msg with
  | MsgText msg rest => '(g, acts) ← _ctrl queryname g msg rest; Ret (0, g, acts)
  | MsgClient msg => '(r, acts) ← cb_client g msg; Ret (r, g, acts)
  | MsgSocket source m sz =>
    if bool_decide (source = 0) then
      '(g, acts) ← dispatch_socket_message g m sz; Ret (0, g, acts)
    else Crash AssertFailed
  | MsgOther => Ret (0, g, [])
  end.

(** ** Start *)

Definition BACKLOG : Z := 32.

Section start.
Context (skynet_queryname : list Z -> Z).
Context (skynet_socket_listen : list Z -> Z -> Z).

Definition start_listen (g : gate) (listen_addr : list Z) : Z * gate * list action :=
  let invalid := [LogError (bytes_of "Invalid gate address " ++ listen_addr)] in
  let listen host port :=
    let id := skynet_socket_listen host port in
    (if bool_decide (id < 0) then 1 else 0, set_listen g id, [SocketListen host port BACKLOG]) in
  match list_find (fun c => c = 58) listen_addr with
  | None =>
    let port := i32 (strtol10 listen_addr) in
    if bool_decide (port <= 0) then (1, g, invalid) else listen [] port
  | Some (i, _) =>
    let port := i32 (strtol10 (drop (S i) listen_addr)) in
    if bool_decide (port <= 0) then (1, g, invalid) else listen (take i listen_addr) port
  end.

(** [sscanf(parm, "%c %s %s %d %d %d", ...)]: the fields, and how many were set.
    The integers keep 0 when they are missing. *)
Definition scan_parm (parm : list Z) : Z * Z * list Z * list Z * Z * Z * Z :=
  match parm with
  | [] => (-1, 0, [], [], 0, 0, 0)
  | header :: s =>
    match scan_s s with
    | None => (1, header, [], [], 0, 0, 0)
    | Some (watchdog, s) =>
      match scan_s s with
      | None => (2, header, watchdog, [], 0, 0, 0)
      | Some (binding, s) =>
        match scan_d s with
        | None => (3, header, watchdog, binding, 0, 0, 0)
        | Some (tag, s) =>
          match scan_d s with
          | None => (4, header, watchdog, binding, tag, 0, 0)
          | Some (max, s) =>
            match scan_d s with
            | None => (5, header, watchdog, binding, tag, max, 0)
            | Some (buffer, _) => (6, header, watchdog, binding, tag, max, buffer)
            end
          end
        end
      end
    end
  end.

Definition gate_init (g : gate) (parm : list Z) : outcome (Z * gate * list action) :=
  let '(n, header, watchdog_, binding, client_tag_, max, _) := scan_parm parm in
  if bool_decide (n < 4) then Ret (1, g, [LogError (bytes_of "Invalid gate parm " ++ parm)])
  else if bool_decide (max <= 0) then Ret (1, g, [LogError (bytes_of "Need max connection")])
  else if bool_decide (header <> 83 /\ header <> 76) then
    Ret (1, g, [LogError (bytes_of "Invalid data header style")])
  else
    let client_tag_ := if bool_decide (client_tag_ = 0) then PTYPE_CLIENT else client_tag_ in
    let wd := if bool_decide (head watchdog_ = Some 33) then Some 0
              else let w := skynet_queryname watchdog_ in
                   if bool_decide (w = 0) then None else Some w in
    match wd with
    | None => Ret (1, g, [LogError (bytes_of "Invalid watchdog " ++ watchdog_)])
    | Some wd =>
      h ← hashid_init max;
      let conn := replicate (Z.to_nat max) (mk_connection (-1) 0 0 [] databuffer_zero) in
      let g := mk_gate (listen_id g) wd (broker g) client_tag_
                 (if bool_decide (header = 83) then 2 else 4) max h conn (g_mp g) in
      let '(r, g, acts) := start_listen g binding in
      Ret (r, g, SetCallback :: acts)
    end.
End start.

Example gate_starts :
  match gate_init (fun _ => 7) (fun _ _ => 3) gate_create (bytes_of "S :7 0.0.0.0:8888 0 4") with
  | Ret (r, g, acts) => r = 0 /\ listen_id g = 3 /\ watchdog g = 7 /\ client_tag g = 3 /\
      acts = [SetCallback; SocketListen (bytes_of "0.0.0.0") 8888 32]
  | _ => False
  end.
Proof. vm_compute. done. Qed.

(** ** The specification *)

(** A session: where its packets go, the name of the peer, and the byte queue with
    the length read ahead (0 for none). *)
Record session := mk_session {
  s_agent : Z;
  s_client : Z;
  s_name : list Z;
  s_queue : Z * list Z
}.

Record gate_spec := mk_spec {
  a_listen : Z;
  a_watchdog : Z;
  a_broker : Z;
  a_tag : Z;
  a_hs : nat;
  a_max : Z;
  a_sessions : gmap Z session
}.

Definition a_set (a : gate_spec) (ss : gmap Z session) : gate_spec :=
  mk_spec (a_listen a) (a_watchdog a) (a_broker a) (a_tag a) (a_hs a) (a_max a) ss.
Definition a_set_listen (a : gate_spec) (n : Z) : gate_spec :=
  mk_spec n (a_watchdog a) (a_broker a) (a_tag a) (a_hs a) (a_max a) (a_sessions a).
Definition a_set_broker (a : gate_spec) (n : Z) : gate_spec :=
  mk_spec (a_listen a) (a_watchdog a) n (a_tag a) (a_hs a) (a_max a) (a_sessions a).

(** Where a packet of session [id] goes; without any receiver it stays queued. *)
Definition packet_to (a : gate_spec) (id : Z) (s : session) (p : list Z) : option action :=
  if bool_decide (a_broker a <> 0) then
    Some (Send 0 (a_broker a) (Z.lor (a_tag a) PTYPE_TAG_DONTCOPY) 0 p)
  else if bool_decide (s_agent s <> 0) then
    Some (Send (s_client s) (s_agent s) (Z.lor (a_tag a) PTYPE_TAG_DONTCOPY) 0 p)
  else if bool_decide (a_watchdog a <> 0) then
    Some (Send 0 (a_watchdog a) (Z.lor PTYPE_TEXT PTYPE_TAG_DONTCOPY) 0
            (print_int id ++ bytes_of " data " ++ p))
  else None.

Fixpoint spec_packets (fuel : nat) (a : gate_spec) (id : Z) (s : session) (q : Z * list Z)
  : list action * (Z * list Z) :=
  match fuel with
  | O => ([], q)
  | S fuel =>
    let '(n, h, bs) := spec_readheader q.1 q.2 (a_hs a) in
    if bool_decide (n < 0) then ([], (h, bs))
    else if bool_decide (n > 0) then
      if bool_decide (n >= 0x1000000) then
        ([SocketClose id; LogError (bytes_of "Recv socket message > 16M")], (0, []))
      else
        match packet_to a id s (take (Z.to_nat n) bs) with
        | Some act =>
          let '(acts, q) := spec_packets fuel a id s (0, drop (Z.to_nat n) bs) in
          (act :: acts, q)
        | None => spec_packets fuel a id s (0, bs)
        end
    else spec_packets fuel a id s (h, bs)
  end.

Definition spec_data (a : gate_spec) (id : Z) (data : list Z) : gate_spec * list action :=
  match a_sessions a !! id with
  | Some s =>
    let q := (s_queue s).2 ++ data in
    let '(acts, q') := spec_packets (S (S (length q))) a id s ((s_queue s).1, q) in
    (a_set a (<[id := mk_session (s_agent s) (s_client s) (s_name s) q']> (a_sessions a)), acts)
  | None =>
    (a, [LogError (bytes_of "Drop unknown connection " ++ print_int id ++ bytes_of " message");
         SocketClose id])
  end.

Definition a_report (a : gate_spec) (data : list Z) : list action :=
  if bool_decide (a_watchdog a = 0) then [] else [Send 0 (a_watchdog a) PTYPE_TEXT 0 data].

(** What happens to a gate: messages of the socket thread, and those of other services.
    Behind a text and its NUL the memory holds [rest]. *)
Inductive gate_event :=
| EvData (id : Z) (data : list Z)
| EvConnect (id : Z)
| EvClose (error : bool) (id : Z)
| EvAccept (listen ud : Z) (name : list Z)
| EvText (msg rest : list Z)
| EvClient (msg : list Z).

(** The events as messages of the code. *)
Definition gate_msg (e : gate_event) : gate_message :=
  let socket_message ty id ud buf pad :=
    MsgSocket 0 (mk_socket_message ty id ud buf pad) (Z.of_nat (length pad)) in
  match e with
  | EvData id data =>
    socket_message SKYNET_SOCKET_TYPE_DATA id (Z.of_nat (length data)) (Some data) []
  | EvConnect id => socket_message SKYNET_SOCKET_TYPE_CONNECT id 0 None []
  | EvClose error id =>
    socket_message (if error : bool then SKYNET_SOCKET_TYPE_ERROR else SKYNET_SOCKET_TYPE_CLOSE)
      id 0 None []
  | EvAccept listen ud name => socket_message SKYNET_SOCKET_TYPE_ACCEPT listen ud None name
  | EvText msg rest => MsgText msg rest
  | EvClient msg => MsgClient msg
  end.

(** What a text orders. *)
Inductive order :=
| OrderKick (id : Z)
| OrderForward (id agent client : Z)
| OrderBroker (name : list Z)
| OrderStart
| OrderClose
| OrderNothing
| OrderUnknown.

Fixpoint after_spaces (s : list Z) : list Z :=
  match s with
  | c :: s' => if bool_decide (c = 32) then after_spaces s' else s
  | [] => []
  end.

(** The three fields of a forward order, one space between each. *)
Definition forward_fields (arg : list Z) : option (list Z * list Z * list Z) :=
  match split_space arg with
  | (id, Some s) => match split_space s with
                    | (agent, Some client) => Some (id, agent, client)
                    | _ => None
                    end
  | _ => None
  end.

(** A command may be cut short: its word is any prefix of the name, and the first name
    it is a prefix of counts.  An address is hexadecimal behind its first character. *)
Definition parse_order (msg : list Z) : order :=
  let word := (split_space msg).1 in
  let arg := after_spaces (drop (length word) msg) in
  let short name := bool_decide (word `prefix_of` bytes_of name) in
  if short "kick"%string then OrderKick (i32 (strtol10 arg))
  else if short "forward"%string then
    match forward_fields arg with
    | Some (id, agent, client) =>
      OrderForward (i32 (strtol10 id)) (u32 (strtoul16 (tail agent))) (u32 (strtoul16 (tail client)))
    | None => OrderNothing
    end
  else if short "broker"%string then OrderBroker arg
  else if short "start"%string then OrderStart
  else if short "close"%string then OrderClose
  else OrderUnknown.

Section events.
(** The names of the node, as [skynet_queryname] answers. *)
Context (queryname : list Z -> Z).

Definition gate_call (g : gate) (e : gate_event) : outcome (gate * list action) :=
  '(_, g, acts) ← _cb queryname g (gate_msg e); Ret (g, acts).

Definition spec_order (a : gate_spec) (msg : list Z) (o : order) : gate_spec * list action :=
  match o with
  | OrderKick id =>
    (a, match a_sessions a !! id with Some _ => [SocketClose id] | None => [] end)
  | OrderForward id agent client =>
    match a_sessions a !! id with
    | Some s => (a_set a (<[id := mk_session agent client (s_name s) (s_queue s)]> (a_sessions a)),
                 [])
    | None => (a, [])
    end
  | OrderBroker name => (a_set_broker a (queryname name), [])
  | OrderStart => (a, [SocketStart (a_listen a)])
  | OrderClose =>
    if bool_decide (0 <= a_listen a) then (a_set_listen a (-1), [SocketClose (a_listen a)])
    else (a, [])
  | OrderNothing => (a, [])
  | OrderUnknown => (a, [LogError (bytes_of "[gate] Unkown command : " ++ msg)])
  end.

(** The events as the specification takes them. *)
Definition spec_call (a : gate_spec) (e : gate_event) : gate_spec * list action :=
  match e with
  | EvData id data => spec_data a id data
  | EvConnect id =>
    if bool_decide (id = a_listen a) then (a, [])
    else match a_sessions a !! id with
         | Some s => (a, a_report a (print_int id ++ bytes_of " open " ++ print_int id ++
                                     [32] ++ s_name s ++ bytes_of ":0"))
         | None => (a, [LogError (bytes_of "Close unknown connection " ++ print_int id);
                        SocketClose id])
         end
  | EvClose _ id =>
    match a_sessions a !! id with
    | Some _ => (a_set a (delete id (a_sessions a)),
                 a_report a (print_int id ++ bytes_of " close"))
    | None => (a, [])
    end
  | EvAccept _ ud name =>
    if bool_decide (Z.of_nat (size (a_sessions a)) = a_max a) then (a, [SocketClose ud])
    else (a_set a (<[ud := mk_session 0 0 (take 31 name) (0, [])]> (a_sessions a)),
          [SocketStart ud])
  | EvText msg _ => spec_order a msg (parse_order msg)
  | EvClient msg =>
    if bool_decide (Z.of_nat (length msg) <= 4) then
      (a, [LogError (bytes_of "Invalid client message")])
    else match a_sessions a !! client_uid msg with
         | Some _ => (a, [SocketSend (client_uid msg) (take (length msg - 4) msg)])
         | None => (a, [LogError (bytes_of "Invalid client id")])
         end
  end.

(** A text is a C string of more than 1023 bytes: the buffer of a shorter one is on the
    stack, and [_ctrl] frees it.  The address fields of a forward order are not empty. *)
Definition text_legal (msg : list Z) : Prop :=
  Forall (fun c => c <> 0) msg /\ 1023 < Z.of_nat (length msg) < 2 ^ 31 /\
  match forward_fields (after_spaces (drop (length (split_space msg).1) msg)) with
  | Some (_, agent, client) => agent <> [] /\ client <> []
  | None => True
  end.

(** What the socket layer promises: data are bytes, a new connection is one of the
    listening socket, its id is not in use, and a peer's name has no NUL. *)
Definition event_legal (a : gate_spec) (e : gate_event) : Prop :=
  match e with
  | EvData _ data => Bytes data
  | EvAccept listen ud name => listen = a_listen a /\
      0 <= ud /\ ud + a_max a <= 2 ^ 31 /\ a_sessions a !! ud = None /\
      Forall (fun c => c <> 0) name /\ Z.of_nat (length name) < 2 ^ 31
  | EvText msg _ => text_legal msg
  | _ => True
  end.

Fixpoint events_legal (a : gate_spec) (es : list gate_event) : Prop :=
  match es with
  | [] => True
  | e :: es => event_legal a e /\ events_legal (spec_call a e).1 es
  end.

Fixpoint gate_run (g : gate) (es : list gate_event) : outcome (gate * list action) :=
  match es with
  | [] => Ret (g, [])
  | e :: es =>
    '(g, acts) ← gate_call g e;
    '(g, acts') ← gate_run g es;
    Ret (g, acts ++ acts')
  end.

Fixpoint spec_gate_run (a : gate_spec) (es : list gate_event) : gate_spec * list action :=
  match es with
  | [] => (a, [])
  | e :: es =>
    let '(a, acts) := spec_call a e in
    let '(a, acts') := spec_gate_run a es in
    (a, acts ++ acts')
  end.

End events.

(** How many bytes arrive. *)
Definition arrived1 (e : gate_event) : Z :=
  match e with EvData _ data => Z.of_nat (length data) | _ => 0 end.
Definition arrived (es : list gate_event) : Z := foldr (fun e n => arrived1 e + n) 0 es.

(** ** The gate against its specification *)

(** The fields of a connection that the table knows. *)
Definition conn_repr (c : connection) (id : Z) (s : session) : Prop :=
  c_id c = id /\ c_agent c = s_agent s /\ c_client c = s_client s /\ c_remote_name c = s_name s.

(** [m] is the id table, [ls] the pool nodes of each buffer, [qs] their queues. *)
Record gate_repr (M : Z) (g : gate) (a : gate_spec) (m : gmap Z nat) (ls : list (list nat))
    (fl : list nat) (qs : list (Z * list Z)) : Prop := mk_gate_repr {
  gr_listen : listen_id g = a_listen a;
  gr_watchdog : watchdog g = a_watchdog a;
  gr_broker : broker g = a_broker a;
  gr_tag : client_tag g = a_tag a;
  gr_hs : header_size g = a_hs a;
  gr_hs24 : a_hs a = 2%nat \/ a_hs a = 4%nat;
  gr_hash : repr (g_hash g) m;
  gr_cap : cap (g_hash g) = a_max a;
  gr_len : Z.of_nat (length (g_conn g)) = a_max a;
  gr_store : store_repr M (g_mp g) (c_buffer <$> g_conn g) ls fl qs;
  gr_dom : dom m = dom (a_sessions a);
  gr_used id i s : m !! id = Some i -> a_sessions a !! id = Some s ->
    exists c, g_conn g !! i = Some c /\ conn_repr c id s /\ qs !! i = Some (s_queue s);
  gr_free i c : g_conn g !! i = Some c -> (forall id, m !! id <> Some i) ->
    c_agent c = 0 /\ c_client c = 0 /\ qs !! i = Some (0, [])
}.

(** The same with the pool hidden. *)
Definition gate_refines_spec (M : Z) (g : gate) (a : gate_spec) : Prop :=
  exists m ls fl qs, gate_repr M g a m ls fl qs.

(** A header that was not read before takes its bytes off the queue. *)
Definition weight (q : Z * list Z) : nat := (length q.2 + (if bool_decide (q.1 = 0%Z) then 0 else 1))%nat.

Lemma readheader_progress hs h bs n h' bs' : hs = 2%nat \/ hs = 4%nat ->
  spec_readheader h bs hs = (n, h', bs') -> 0 <= n ->
  (S (length bs') <= weight (h, bs))%nat /\ (length bs' <= length bs)%nat /\ n = h' /\
  n <= Z.of_nat (length bs').
Proof.
  intros Hhs. unfold spec_readheader, ready, weight. cbn [fst snd].
  destruct (bool_decide_reflect (h = 0)) as [->|Hh].
  - destruct (bool_decide_reflect (length bs < hs)%nat); [intros [= <- <- <-]; lia|].
    intros [= Hn <- <-] Hn0. rewrite length_drop.
    destruct (bool_decide _) eqn:E in Hn; [lia|]. apply bool_decide_eq_false in E.
    rewrite length_drop in E. lia.
  - intros [= Hn <- <-] Hn0. destruct (bool_decide _) eqn:E in Hn; [lia|].
    apply bool_decide_eq_false in E. lia.
Qed.

(** [_forward] sends what the specification sends, and takes the packet off the buffer. *)
Lemma forward_spec M g a c id s db mp fl l r h bs n :
  watchdog g = a_watchdog a -> broker g = a_broker a -> client_tag g = a_tag a ->
  conn_repr c id s -> M < 2 ^ 31 -> 0 <= M -> buf_repr M (nodes mp) db l (h, bs) ->
  pool_repr mp fl l r -> 0 < n <= Z.of_nat (length bs) -> a_hs a = 2%nat \/ a_hs a = 4%nat ->
  exists db' mp' fl' l' acts bs', _forward g c db mp n = Ret (db', mp', acts) /\
    (acts, bs') = match packet_to a id s (take (Z.to_nat n) bs) with
                  | Some act => ([act], drop (Z.to_nat n) bs)
                  | None => ([], bs)
                  end /\
    buf_repr M (nodes mp') db' l' (h, bs') /\ pool_repr mp' fl' l' r /\
    forall i, i ∈ r -> nodes mp' !! i = nodes mp !! i.
Proof.
  intros Hw Hb Ht (Hid & Hag & Hcl & _) HM HM0 Hr Hp Hn Hhs.
  unfold _forward, packet_to. rewrite Hw, Hb, Ht, Hag, Hcl, Hid.
  destruct (db_call1_spec M (a_hs a) (OpRead 0 n) db mp fl l r (h, bs) (RBytes (take (Z.to_nat n) bs))
    (h, drop (Z.to_nat n) bs)) as (db' & mp' & fl' & l' & He & Hr' & Hp' & Hf);
    [done|simpl; lia|done|done|done|simpl; by rewrite bool_decide_true|].
  cbn [db_call1 pushed1] in He, Hr'. rewrite Z.add_0_r in Hr'.
  destruct (databuffer_read db mp n) as [[[bs0 db0] mp0]| |] eqn:Er; try done.
  rewrite bind_Ret in He. injection He as -> -> ->.
  destruct (bool_decide_reflect (a_broker a <> 0)) as [|_];
    [|destruct (bool_decide_reflect (s_agent s <> 0)) as [|_];
      [|destruct (bool_decide_reflect (a_watchdog a <> 0)) as [|_]]].
  1-3: rewrite bind_Ret; do 6 eexists; split_and!; try reflexivity; eassumption.
  exists db, mp, fl, l, [], bs. by split_and!.
Qed.

Lemma header_size_spec M db mp fl l r q a :
  M < 2 ^ 31 -> 0 <= M -> a_hs a = 2%nat \/ a_hs a = 4%nat ->
  buf_repr M (nodes mp) db l q -> pool_repr mp fl l r ->
  exists n h' bs' db' mp' fl' l', spec_readheader q.1 q.2 (a_hs a) = (n, h', bs') /\
    databuffer_readheader db mp (Z.of_nat (a_hs a)) = Ret (n, db', mp') /\
    buf_repr M (nodes mp') db' l' (h', bs') /\ pool_repr mp' fl' l' r /\
    forall i, i ∈ r -> nodes mp' !! i = nodes mp !! i.
Proof.
  intros HM HM0 Hhs Hr Hp. destruct q as [h bs]. cbn [fst snd].
  destruct (spec_readheader h bs (a_hs a)) as [[n h'] bs'] eqn:E.
  destruct (db_call1_spec M (a_hs a) (OpHeader 0) db mp fl l r (h, bs) (RInt n) (h', bs'))
    as (db' & mp' & fl' & l' & He & Hr' & Hp' & Hf);
    [done|simpl; lia|done|done|done|simpl; by rewrite E|].
  cbn [db_call1 pushed1] in He, Hr'. rewrite Z.add_0_r in Hr'.
  destruct (databuffer_readheader db mp _) as [[[n0 db0] mp0]| |]; try done.
  rewrite bind_Ret in He. injection He as -> -> ->. eauto 15.
Qed.

(** The packet loop. *)
Lemma dispatch_loop_spec M g a c id s r : 
  watchdog g = a_watchdog a -> broker g = a_broker a -> client_tag g = a_tag a ->
  header_size g = a_hs a -> a_hs a = 2%nat \/ a_hs a = 4%nat ->
  conn_repr c id s -> M < 2 ^ 31 -> 0 <= M ->
  forall fuel db mp fl l q acts, buf_repr M (nodes mp) db l q -> pool_repr mp fl l r ->
  (weight q < fuel)%nat ->
  exists db' mp' fl' l',
    dispatch_loop fuel g c id db mp acts =
      Ret (db', mp', acts ++ (spec_packets fuel a id s q).1) /\
    buf_repr M (nodes mp') db' l' (spec_packets fuel a id s q).2 /\ pool_repr mp' fl' l' r /\
    forall i, i ∈ r -> nodes mp' !! i = nodes mp !! i.
Proof.
  intros Hw Hb Ht Hgh Hhs Hc HM HM0. induction fuel as [|fuel IH];
    intros db mp fl l q acts Hr Hp Hfuel; [lia|].
  destruct (header_size_spec M db mp fl l r q a HM HM0 Hhs Hr Hp)
    as (n & h' & bs' & db1 & mp1 & fl1 & l1 & Hs & He & Hr1 & Hp1 & Hf1).
  cbn [dispatch_loop spec_packets]. rewrite Hgh, He, bind_Ret, Hs.
  destruct (bool_decide_reflect (n < 0)).
  { exists db1, mp1, fl1, l1. cbn [fst snd]. by rewrite app_nil_r. }
  destruct q as [h bs]. cbn [fst snd] in *.
  destruct (readheader_progress _ _ _ _ _ _ Hhs Hs ltac:(lia)) as (Hlt & Hle & Hnh & Hnl).
  destruct (bool_decide_reflect (n > 0)) as [Hn0|Hn0].
  2: { destruct (IH db1 mp1 fl1 l1 (h', bs') acts Hr1 Hp1) as (db2 & mp2 & fl2 & l2 & He2 & Hr2 & Hp2 & Hf2).
       { unfold weight in *. cbn [fst snd] in *. rewrite (bool_decide_true (h' = 0)) by lia. lia. }
       exists db2, mp2, fl2, l2. split_and!; [done|done|done|]. intros i Hi. by rewrite Hf2, Hf1. }
  destruct (bool_decide_reflect (n >= 0x1000000)).
  { destruct (db_call1_spec M (a_hs a) (OpClear 0) db1 mp1 fl1 l1 r (h', bs') RUnit (0, []))
      as (db2 & mp2 & fl2 & l2 & He2 & Hr2 & Hp2 & Hf2); [done|simpl; lia|done|done|done|done|].
    cbn [db_call1 pushed1] in He2, Hr2. rewrite Z.add_0_r in Hr2.
    destruct (databuffer_clear db1 mp1) as [[db0 mp0]| |]; try done.
    rewrite bind_Ret in He2. injection He2 as -> ->. rewrite bind_Ret.
    exists db2, mp2, fl2, l2. split_and!; [done|done|done|]. intros i Hi. by rewrite Hf2, Hf1. }
  destruct (forward_spec M g a c id s db1 mp1 fl1 l1 r h' bs' n)
    as (db2 & mp2 & fl2 & l2 & acts2 & bs2 & He2 & Hpk & Hr2 & Hp2 & Hf2); [done..|lia|done|].
  rewrite He2, bind_Ret.
  assert (Hr3 : buf_repr M (nodes mp2) (databuffer_reset db2) l2 (0, bs2)).
  { destruct Hr2 as (Hd & _ & HB). split_and!; [by apply db_repr_set_header|done|done]. }
  assert (Hl2 : (length bs2 <= length bs')%nat).
  { destruct (packet_to _ _ _ _); injection Hpk as -> ->; [rewrite length_drop|]; lia. }
  destruct (IH (databuffer_reset db2) mp2 fl2 l2 (0, bs2) (acts ++ acts2) Hr3 Hp2)
    as (db3 & mp3 & fl3 & l3 & He3 & Hr4 & Hp4 & Hf4).
  { unfold weight in *. cbn [fst snd] in *. rewrite (bool_decide_true (0 = 0)) by done. lia. }
  exists db3, mp3, fl3, l3. rewrite He3.
  destruct (packet_to a id s (take (Z.to_nat n) bs')) as [act|]; injection Hpk as -> ->.
  - destruct (spec_packets fuel a id s _) as [acts3 q3] eqn:E3. cbn [fst snd] in *.
    split_and!; [by rewrite <- app_assoc|done|done|]. intros i Hi. by rewrite Hf4, Hf2, Hf1.
  - rewrite app_nil_r. split_and!; [done|done|done|]. intros i Hi. by rewrite Hf4, Hf2, Hf1.
Qed.

(** *** Sessions and their indices *)

Lemma repr_inj hi m id id' i : repr hi m -> m !! id = Some i -> m !! id' = Some i -> id = id'.
Proof. intros (_ & _ & Hm) [_ H1]%Hm [_ H2]%Hm. congruence. Qed.

Lemma lookup_session M g a m ls fl qs id : gate_repr M g a m ls fl qs ->
  (exists i s c, m !! id = Some i /\ a_sessions a !! id = Some s /\ g_conn g !! i = Some c /\
     conn_repr c id s /\ qs !! i = Some (s_queue s) /\
     hashid_lookup (g_hash g) id = Ret (Z.of_nat i)) \/
  (m !! id = None /\ a_sessions a !! id = None /\ hashid_lookup (g_hash g) id = Ret (-1)).
Proof.
  intros []. rewrite (call_lookup _ _ id gr_hash0). unfold index_of.
  destruct (m !! id) as [i|] eqn:Em.
  - assert (Hd : id ∈ dom (a_sessions a)) by (rewrite <- gr_dom0; by eapply elem_of_dom_2).
    apply elem_of_dom in Hd as [s Hs]. destruct (gr_used0 _ _ _ Em Hs) as (c & Hc & Hcr & Hq).
    left. exists i, s, c. done.
  - right. split_and!; [done| |done]. apply not_elem_of_dom. rewrite <- gr_dom0.
    by apply not_elem_of_dom.
Qed.

(** Changing the connection of a session. *)
Lemma session_update M M' g a m ls fl qs id i l c' s' mp' fl' l' :
  gate_repr M g a m ls fl qs -> M <= M' -> m !! id = Some i -> ls !! i = Some l ->
  conn_repr c' id s' -> buf_repr M' (nodes mp') (c_buffer c') l' (s_queue s') ->
  pool_repr mp' fl' l' (concat (delete i ls)) ->
  (forall j, j ∈ concat (delete i ls) -> nodes mp' !! j = nodes (g_mp g) !! j) ->
  gate_repr M' (set_conn g (<[i := c']> (g_conn g)) mp') (a_set a (<[id := s']> (a_sessions a))) m
    (<[i := l']> ls) fl' (<[i := s_queue s']> qs).
Proof.
  intros [] HM Hi Hl Hc Hb Hp Hf. pose proof gr_store0 as (_ & Hls & Hqs & _).
  rewrite length_fmap in Hls, Hqs. pose proof (lookup_lt_Some _ _ _ Hl) as Hlt.
  assert (Hid : id ∈ dom (a_sessions a)) by (rewrite <- gr_dom0; by eapply elem_of_dom_2).
  constructor; cbn [set_conn a_set listen_id watchdog broker client_tag header_size g_hash g_conn
    g_mp a_listen a_watchdog a_broker a_tag a_hs a_max a_sessions]; try done.
  - by rewrite length_insert.
  - rewrite list_fmap_insert. by eapply store_update.
  - rewrite dom_insert_L, gr_dom0. set_solver.
  - intros id' i' s Hi' Hs'. destruct (decide (id' = id)) as [->|Hne].
    + rewrite lookup_insert_eq in Hs'. assert (i' = i) as -> by congruence.
      injection Hs' as <-. exists c'. rewrite !list_lookup_insert_eq by lia. done.
    + rewrite lookup_insert_ne in Hs' by done.
      assert (i' <> i) by (intros ->; apply Hne; by eapply repr_inj).
      rewrite !list_lookup_insert_ne by done. by apply gr_used0 with (id := id').
  - intros j c Hj Hno. assert (j <> i) by (intros ->; by apply (Hno id)).
    rewrite list_lookup_insert_ne in Hj by done. rewrite list_lookup_insert_ne by done. by apply gr_free0 with (c := c).
Qed.

Lemma session_parts M g a m ls fl qs i c : gate_repr M g a m ls fl qs -> g_conn g !! i = Some c ->
  exists l q, ls !! i = Some l /\ qs !! i = Some q /\
    buf_repr M (nodes (g_mp g)) (c_buffer c) l q /\
    pool_repr (g_mp g) fl l (concat (delete i ls)).
Proof.
  intros [] Hc. pose proof gr_store0 as (Hp & Hls & Hqs & Hall).
  rewrite length_fmap in Hls, Hqs. pose proof (lookup_lt_Some _ _ _ Hc).
  destruct (lookup_lt_is_Some_2 ls i) as [l Hl]; [lia|].
  destruct (lookup_lt_is_Some_2 qs i) as [q Hq]; [lia|].
  exists l, q. split_and!; [done|done| |by apply pool_repr_focus].
  apply (Hall i); [by rewrite list_lookup_fmap, Hc|done|done].
Qed.

(** *** The events *)

Section events_repr.
Context (qn : list Z -> Z).

(** A message of the socket thread goes to its handler. *)
Lemma gate_call_socket g e m sz : gate_msg e = MsgSocket 0 m sz ->
  gate_call qn g e = dispatch_socket_message g m sz.
Proof.
  intros He. unfold gate_call. rewrite He. cbn [_cb]. rewrite bool_decide_true by done.
  by destruct (dispatch_socket_message g m sz) as [[]| |].
Qed.

Lemma data_event M g a m ls fl qs id data : gate_repr M g a m ls fl qs -> 0 <= M ->
  Bytes data -> M + Z.of_nat (length data) < 2 ^ 31 ->
  exists g', gate_call qn g (EvData id data) = Ret (g', (spec_data a id data).2) /\
    gate_refines_spec (M + Z.of_nat (length data)) g' (spec_data a id data).1.
Proof.
  intros Hg HM HB Hlt. erewrite gate_call_socket by reflexivity.
  unfold dispatch_socket_message, spec_data.
  cbn [sm_type sm_id sm_ud sm_buffer]. rewrite bool_decide_true by done.
  destruct (lookup_session _ _ _ _ _ _ _ id Hg)
    as [(i & s & c & Hi & Hs & Hc & Hcr & Hq & ->)|(_ & Hs & ->)]; rewrite bind_Ret, Hs.
  2: { rewrite bool_decide_false by lia. exists g. split; [done|].
       destruct Hg. exists m, ls, fl, qs. constructor; try done.
       destruct gr_store0 as (Hp & H1 & H2 & Hall). split_and!; [done..|].
       intros k db l q Hdb Hl Hq. destruct (Hall k db l q Hdb Hl Hq) as (Hr & ? & ?).
       split_and!; [eapply db_repr_mono; [|exact Hr]; lia|done|done]. }
  rewrite bool_decide_true by lia. change (default [] (Some data)) with data.
  rewrite read_bytes_all by done.
  rewrite bind_Ret. unfold dispatch_message. step_with (read_at_Some _ _ _ Hc).
  destruct (session_parts _ _ _ _ _ _ _ _ _ Hg Hc) as (l & q & Hl & Hq' & Hb & Hp).
  assert (q = s_queue s) as -> by congruence. destruct (s_queue s) as [h bs] eqn:Esq.
  destruct (db_call1_spec M (a_hs a) (OpPush 0 data) (c_buffer c) (g_mp g) fl l
    (concat (delete i ls)) (h, bs) RUnit (h, bs ++ data))
    as (db1 & mp1 & fl1 & l1 & He & Hb1 & Hp1 & Hf1);
    [apply Hg|simpl; lia|done|done|done|simpl; by rewrite bool_decide_true|].
  cbn [db_call1 pushed1] in He, Hb1.
  destruct (databuffer_push (c_buffer c) (g_mp g) data) as [[db0 mp0]| |]; try done.
  rewrite bind_Ret in He. injection He as -> ->. rewrite bind_Ret.
  set (M' := M + Z.of_nat (length data)) in *.
  destruct (dispatch_loop_spec M' g a c id s (concat (delete i ls)) (gr_watchdog _ _ _ _ _ _ _ Hg)
    (gr_broker _ _ _ _ _ _ _ Hg) (gr_tag _ _ _ _ _ _ _ Hg) (gr_hs _ _ _ _ _ _ _ Hg)
    (gr_hs24 _ _ _ _ _ _ _ Hg) Hcr Hlt ltac:(lia) (S (S (length (bs ++ data)))) db1 mp1 fl1 l1
    (h, bs ++ data) [] Hb1 Hp1) as (db2 & mp2 & fl2 & l2 & He2 & Hb2 & Hp2 & Hf2).
  { unfold weight. cbn [fst snd]. case_bool_decide; lia. }
  assert (Hsz : Z.to_nat (db_size db1) = length (bs ++ data)).
  { destruct Hb1 as ([_ Hsz] & _). rewrite Hsz. cbn [snd]. lia. }
  rewrite Hsz, He2, bind_Ret. cbn [app].
  rewrite write_at_lt by by eapply lookup_lt_Some. rewrite bind_Ret. cbn [fst snd].
  destruct (spec_packets _ a id s (h, bs ++ data)) as [acts q2]. cbn [fst snd] in *.
  eexists. split; [reflexivity|]. exists m. do 3 eexists.
  eapply session_update; [exact Hg|lia|exact Hi|exact Hl| |exact Hb2|exact Hp2|].
  - by destruct Hcr as (? & ? & ? & ?).
  - intros j Hj. by rewrite Hf2, Hf1.
Qed.

Lemma connect_event M g a m ls fl qs id : gate_repr M g a m ls fl qs ->
  gate_call qn g (EvConnect id) = Ret (g, (spec_call qn a (EvConnect id)).2) /\
  (spec_call qn a (EvConnect id)).1 = a.
Proof.
  intros Hg. erewrite gate_call_socket by reflexivity.
  cbn [spec_call]. unfold dispatch_socket_message. cbn [sm_type sm_id].
  rewrite (bool_decide_false (_ = SKYNET_SOCKET_TYPE_DATA)) by done.
  rewrite (bool_decide_true (SKYNET_SOCKET_TYPE_CONNECT = _)) by done.
  rewrite (gr_listen _ _ _ _ _ _ _ Hg).
  destruct (bool_decide_reflect (id = a_listen a)); [done|].
  destruct (lookup_session _ _ _ _ _ _ _ id Hg)
    as [(i & s & c & Hi & Hs & Hc & Hcr & Hq & ->)|(_ & Hs & ->)]; rewrite bind_Ret, Hs.
  - rewrite bool_decide_true by lia. step_with (read_at_Some _ _ _ Hc).
    destruct Hcr as (_ & _ & _ & ->). unfold _report, a_report.
    by rewrite (gr_watchdog _ _ _ _ _ _ _ Hg).
  - by rewrite bool_decide_false by lia.
Qed.

Lemma client_event M g a m ls fl qs msg : gate_repr M g a m ls fl qs ->
  gate_call qn g (EvClient msg) = Ret (g, (spec_call qn a (EvClient msg)).2) /\
  (spec_call qn a (EvClient msg)).1 = a.
Proof.
  intros Hg. unfold gate_call. cbn [gate_msg _cb spec_call]. unfold cb_client.
  destruct (bool_decide_reflect (Z.of_nat (length msg) <= 4)); [done|].
  destruct (lookup_session _ _ _ _ _ _ _ (client_uid msg) Hg)
    as [(i & s & c & Hi & Hs & Hc & Hcr & Hq & ->)|(_ & Hs & ->)]; rewrite bind_Ret, Hs.
  - by rewrite bool_decide_true by lia.
  - by rewrite bool_decide_false by lia.
Qed.

(** *** Text commands *)

(** What [_parm] leaves in front is the argument. *)
Lemma parm_arg msg rest i : exists x,
  _parm (msg ++ 0 :: rest) (length msg) i = after_spaces (drop i msg) ++ 0 :: x.
Proof.
  unfold _parm. rewrite take_app_length, <- drop_drop.
  set (d := drop i msg). assert (drop (count_spaces d) d = after_spaces d) as ->; [|eauto].
  induction d as [|c d IH]; [done|]. cbn [count_spaces after_spaces]. by case_bool_decide.
Qed.

Lemma after_spaces_Forall (P : Z -> Prop) s : Forall P s -> Forall P (after_spaces s).
Proof. induction 1; cbn [after_spaces]; [constructor|]. case_bool_decide; [done|by constructor]. Qed.

Lemma split_space_Forall (P : Z -> Prop) s : Forall P s ->
  Forall P (split_space s).1 /\ forall r, (split_space s).2 = Some r -> Forall P r.
Proof.
  intros Hs. rewrite <- (split_space_join s) in Hs. unfold join_space in Hs.
  apply Forall_app in Hs as [Hw Hr]. split; [done|]. intros r Hsome. rewrite Hsome in Hr.
  by apply Forall_cons in Hr as [_ Hr].
Qed.

(** The word of a command. *)
Lemma command_word msg :
  match list_find (fun c => c = 32) msg with Some (i, _) => i | None => length msg end =
  length (split_space msg).1.
Proof.
  rewrite find_space. pose proof (split_space_join msg) as Hj.
  destruct (split_space msg) as [w [r|]]; [done|]. cbn [fst snd] in *. unfold join_space in Hj.
  by rewrite <- Hj, app_nil_r.
Qed.

Lemma is_command_prefix msg rest name : Forall (fun c => c <> 0) msg ->
  is_command (msg ++ 0 :: rest) name (length (split_space msg).1) =
    Ret (bool_decide ((split_space msg).1 `prefix_of` bytes_of name)).
Proof.
  intros Hm. unfold is_command. rewrite <- (split_space_join msg) at 1. unfold join_space.
  rewrite <- app_assoc. by apply memcmp_prefix, split_space_Forall.
Qed.

Lemma forward_agent_spec M g a m ls fl qs id agent client : gate_repr M g a m ls fl qs ->
  let a' := (spec_order qn a [] (OrderForward id agent client)).1 in
  exists g', _forward_agent g id agent client = Ret g' /\ gate_refines_spec M g' a'.
Proof.
  intros Hg. cbn [spec_order]. unfold _forward_agent.
  destruct (lookup_session _ _ _ _ _ _ _ id Hg)
    as [(i & s & c & Hi & Hs & Hc & Hcr & Hq & ->)|(_ & Hs & ->)]; rewrite bind_Ret, Hs.
  - rewrite bool_decide_true by lia. step_with (read_at_Some _ _ _ Hc).
    rewrite write_at_lt, !bind_Ret by by eapply lookup_lt_Some.
    destruct (session_parts _ _ _ _ _ _ _ _ _ Hg Hc) as (l & q & Hl & Hq' & Hb & Hp).
    assert (q = s_queue s) as -> by congruence.
    eexists. split; [reflexivity|]. exists m. do 3 eexists.
    eapply session_update; [exact Hg|lia|exact Hi|exact Hl| |exact Hb|exact Hp|done].
    by destruct Hcr as (? & ? & ? & ?).
  - rewrite bool_decide_false by lia. exists g. split; [done|]. by exists m, ls, fl, qs.
Qed.

(** The two [strsep] find the fields. *)
Lemma cmd_forward_spec g arg x : Forall (fun c => c <> 0) arg ->
  match forward_fields arg with
  | Some (_, agent, client) => agent <> [] /\ client <> []
  | None => True
  end ->
  cmd_forward g (arg ++ 0 :: x) =
    match forward_fields arg with
    | Some (id, agent, client) =>
      g ← _forward_agent g (i32 (strtol10 id)) (u32 (strtoul16 (tail agent)))
            (u32 (strtoul16 (tail client)));
      Ret (g, [])
    | None => Ret (g, [])
    end.
Proof.
  intros Harg Hf. unfold cmd_forward, forward_fields in *.
  pose proof (strsep_split [] arg x Harg) as H1. cbn [app length] in H1. change (Z.of_nat 0) with 0 in H1.
  rewrite H1. clear H1. destruct (split_space_Forall _ _ Harg) as [Hw1 Hr1].
  destruct (split_space arg) as [w1 [r1|]]; [|done]. cbn [fst snd] in *.
  specialize (Hr1 _ eq_refl). rewrite bind_Ret. rewrite Z.add_0_l.
  pose proof (cstring_at [] w1 (r1 ++ 0 :: x) 0 eq_refl Hw1) as Hc. cbn [app] in Hc. rewrite Hc, bind_Ret. clear Hc.
  pose proof (strsep_split (w1 ++ [0]) r1 x Hr1) as H2. rewrite <- app_assoc in H2. cbn [app] in H2.
  rewrite length_app, Nat2Z.inj_add in H2. cbn [length] in H2. change (Z.of_nat 1) with 1 in H2.
  rewrite H2. clear H2. destruct (split_space_Forall _ _ Hr1) as [Hw2 Hr2].
  destruct (split_space r1) as [w2 [r2|]]; [|done]. cbn [fst snd] in *.
  specialize (Hr2 _ eq_refl). rewrite bind_Ret, <- app_assoc. cbn [app].
  destruct Hf as [Hne2 Hne3]. destruct w2 as [|c2 w2]; [done|]. destruct r2 as [|c3 r2]; [done|].
  apply Forall_cons in Hw2 as [_ Hw2]. apply Forall_cons in Hr2 as [_ Hr2]. cbn [tail].
  pose proof (cstring_at (w1 ++ 0 :: [c2]) w2 ((c3 :: r2) ++ 0 :: x) (Z.of_nat (length w1) + 1 + 1)) as H3.
  rewrite <- app_assoc in H3. cbn [app] in H3 |- *. rewrite H3; [|rewrite length_app; cbn; lia|done].
  rewrite bind_Ret. clear H3.
  pose proof (cstring_at (w1 ++ 0 :: (c2 :: w2) ++ [0; c3]) r2 x
    (Z.of_nat (length w1) + 1 + Z.of_nat (length (c2 :: w2)) + 1 + 1)) as H4.
  rewrite <- !app_assoc in H4. cbn [app] in H4. rewrite <- app_assoc in H4. cbn [app] in H4 |- *.
  rewrite H4; [by rewrite bind_Ret| |done]. rewrite !length_app. cbn [length]. rewrite length_app. cbn [length]. lia.
Qed.

Lemma kick_spec M g a m ls fl qs msg arg x id : gate_repr M g a m ls fl qs ->
  Forall (fun c => c <> 0) arg -> id = i32 (strtol10 arg) ->
  cmd_kick g (arg ++ 0 :: x) = Ret (g, (spec_order qn a msg (OrderKick id)).2).
Proof.
  intros Hg Harg ->. unfold cmd_kick. pose proof (cstring_at [] arg x 0 eq_refl Harg) as Hc. cbn [app] in Hc.
  rewrite Hc, bind_Ret. cbv zeta. cbn [spec_order snd].
  destruct (lookup_session _ _ _ _ _ _ _ (i32 (strtol10 arg)) Hg)
    as [(i & s & c & _ & Hs & _ & _ & _ & ->)|(_ & Hs & ->)]; rewrite bind_Ret, Hs.
  - by rewrite bool_decide_true by lia.
  - by rewrite bool_decide_false by lia.
Qed.

(** Every text is carried out as the order it is read as. *)
Lemma ctrl_spec M g a m ls fl qs msg rest : gate_repr M g a m ls fl qs -> text_legal msg ->
  exists g', _ctrl_ qn g msg rest = Ret (g', (spec_order qn a msg (parse_order msg)).2) /\
    gate_refines_spec M g' (spec_order qn a msg (parse_order msg)).1.
Proof.
  intros Hg (Hm & Hlen & Hf). assert (Hsame : gate_refines_spec M g a) by by exists m, ls, fl, qs.
  unfold _ctrl_, parse_order. cbv zeta. rewrite (bool_decide_false (length msg = 0%nat)) by lia.
  rewrite command_word. destruct (parm_arg msg rest (length (split_space msg).1)) as [x Hx]. rewrite Hx.
  set (w := (split_space msg).1) in *. set (arg := after_spaces (drop (length w) msg)) in *.
  assert (Harg : Forall (fun c => c <> 0) arg) by by apply after_spaces_Forall, Forall_drop.
  pose proof (cstring_at [] arg x 0 eq_refl Harg) as Hc. cbn [app] in Hc.
  assert (Hcmd : forall name, is_command (msg ++ 0 :: rest) name (length w) = Ret (bool_decide (w `prefix_of` bytes_of name))).
  { intros name. by apply is_command_prefix. }
  rewrite (Hcmd "kick"%string), bind_Ret.
  destruct (bool_decide (w `prefix_of` bytes_of "kick")).
  { exists g. split; [by eapply kick_spec|done]. }
  rewrite (Hcmd "forward"%string), bind_Ret. destruct (bool_decide (w `prefix_of` bytes_of "forward")).
  { rewrite cmd_forward_spec by done. destruct (forward_fields arg) as [[[id agent] client]|]; [|by exists g].
    destruct (forward_agent_spec M g a m ls fl qs (i32 (strtol10 id)) (u32 (strtoul16 (tail agent)))
      (u32 (strtoul16 (tail client))) Hg) as (g' & -> & Hg'). rewrite bind_Ret. exists g'.
    cbn [spec_order] in *. by destruct (a_sessions a !! _). }
  rewrite (Hcmd "broker"%string), bind_Ret. destruct (bool_decide (w `prefix_of` bytes_of "broker")).
  { rewrite Hc, bind_Ret. eexists. split; [reflexivity|]. exists m, ls, fl, qs. destruct Hg. by constructor. }
  rewrite (Hcmd "start"%string), bind_Ret. destruct (bool_decide (w `prefix_of` bytes_of "start")).
  { exists g. by rewrite (gr_listen _ _ _ _ _ _ _ Hg). }
  rewrite (Hcmd "close"%string), bind_Ret. destruct (bool_decide (w `prefix_of` bytes_of "close")).
  { cbn [spec_order]. rewrite (gr_listen _ _ _ _ _ _ _ Hg), (bool_decide_ext (a_listen a >= 0) (0 <= a_listen a)) by lia.
    case_bool_decide; [|by exists g]. eexists. split; [reflexivity|].
    exists m, ls, fl, qs. destruct Hg. by constructor. }
  pose proof (cstring_at [] msg rest 0 eq_refl Hm) as Hcm. cbn [app] in Hcm. rewrite Hcm, bind_Ret. by exists g.
Qed.

Lemma text_event M g a m ls fl qs msg rest : gate_repr M g a m ls fl qs ->
  event_legal a (EvText msg rest) ->
  exists g', gate_call qn g (EvText msg rest) = Ret (g', (spec_call qn a (EvText msg rest)).2) /\
    gate_refines_spec M g' (spec_call qn a (EvText msg rest)).1.
Proof.
  intros Hg Hl. destruct (ctrl_spec M g a m ls fl qs msg rest Hg Hl) as (g' & He & Hg').
  destruct Hl as (_ & Hlen & _). exists g'. split; [|done].
  unfold gate_call. cbn [gate_msg _cb spec_call]. unfold _ctrl. rewrite He, bind_Ret.
  by rewrite bool_decide_true by lia.
Qed.
(** A closed session leaves its connection as it was before the session. *)
Lemma session_delete M g a m ls fl qs id i l h mp' fl' :
  gate_repr M g a m ls fl qs -> 0 <= M -> m !! id = Some i -> ls !! i = Some l ->
  repr h (delete id m) -> cap h = cap (g_hash g) ->
  pool_repr mp' fl' [] (concat (delete i ls)) ->
  (forall j, j ∈ concat (delete i ls) -> nodes mp' !! j = nodes (g_mp g) !! j) ->
  gate_repr M
    (set_conn (set_hash g h) (<[i := mk_connection (-1) 0 0 [] databuffer_zero]> (g_conn g)) mp')
    (a_set a (delete id (a_sessions a))) (delete id m)
    (<[i := []]> ls) fl' (<[i := (0, [])]> qs).
Proof.
  intros [] HM Hi Hl Hh Hcap Hp Hf. pose proof gr_store0 as (_ & Hls & Hqs & _).
  rewrite length_fmap in Hls, Hqs. pose proof (lookup_lt_Some _ _ _ Hl) as Hlt.
  constructor; cbn [set_conn set_hash a_set listen_id watchdog broker client_tag header_size g_hash
    g_conn g_mp a_listen a_watchdog a_broker a_tag a_hs a_max a_sessions]; try done.
  - by rewrite Hcap.
  - by rewrite length_insert.
  - rewrite list_fmap_insert. eapply store_update; [apply Z.le_refl|done|done| |done|done].
    split_and!; [|done|constructor].
    split; [split; cbn; [constructor|done|constructor|done|done|lia]|done].
  - by rewrite !dom_delete_L, gr_dom0.
  - intros id' i' s Hi' Hs'. apply lookup_delete_Some in Hi' as [Hne Hi'].
    rewrite lookup_delete_ne in Hs' by done.
    assert (i' <> i) by (intros ->; apply Hne; symmetry; exact (repr_inj _ _ _ _ _ gr_hash0 Hi' Hi)).
    rewrite !list_lookup_insert_ne by done. by apply gr_used0 with (id := id').
  - intros j c Hj Hno. destruct (decide (j = i)) as [->|Hne].
    + rewrite list_lookup_insert_eq in Hj by lia. injection Hj as <-.
      by rewrite list_lookup_insert_eq by lia.
    + rewrite list_lookup_insert_ne in Hj by done. rewrite list_lookup_insert_ne by done.
      apply gr_free0 with (c := c); [done|]. intros id' Hid'. apply (Hno id').
      rewrite lookup_delete_ne; [done|]. intros <-. congruence.
Qed.

Lemma close_event M g a m ls fl qs error id : gate_repr M g a m ls fl qs -> 0 <= M ->
  exists g', gate_call qn g (EvClose error id) = Ret (g', (spec_call qn a (EvClose error id)).2) /\
    gate_refines_spec M g' (spec_call qn a (EvClose error id)).1.
Proof.
  intros Hg HM. erewrite gate_call_socket by reflexivity.
  cbn [spec_call]. unfold dispatch_socket_message. cbn [sm_type sm_id].
  rewrite (bool_decide_false (_ = SKYNET_SOCKET_TYPE_DATA)) by by destruct error.
  rewrite (bool_decide_false (_ = SKYNET_SOCKET_TYPE_CONNECT)) by by destruct error.
  rewrite (bool_decide_true (_ \/ _)) by (destruct error; [by right|by left]).
  destruct (call_remove (g_hash g) m id) as (h & He & Hh & Hcap); [apply Hg|].
  rewrite He, bind_Ret. unfold index_of.
  destruct (lookup_session _ _ _ _ _ _ _ id Hg)
    as [(i & s & c & Hi & Hs & Hc & Hcr & Hq & _)|(Hi & Hs & _)]; rewrite Hi, Hs.
  - rewrite bool_decide_true by lia. cbn [g_conn set_hash g_mp].
    step_with (read_at_Some _ _ _ Hc).
    destruct (session_parts _ _ _ _ _ _ _ _ _ Hg Hc) as (l & [hd bs] & Hl & Hq' & Hb & Hp).
    destruct Hb as (Hb & _ & _).
    destruct (clear_spec _ _ _ _ _ _ _ Hb Hp) as (mp' & fl' & -> & Hp' & Hf).
    rewrite bind_Ret. rewrite write_at_lt, bind_Ret by by eapply lookup_lt_Some.
    eexists. split; [unfold _report, a_report; cbn [watchdog set_hash]; 
                     by rewrite (gr_watchdog _ _ _ _ _ _ _ Hg)|].
    exists (delete id m). do 3 eexists. by eapply session_delete.
  - rewrite bool_decide_false by lia. eexists. split; [reflexivity|].
    exists m, ls, fl, qs. rewrite delete_id in Hh by done.
    destruct Hg. constructor; try done. simpl. congruence.
Qed.

(** A new session in a free connection. *)
Lemma session_insert M g a m ls fl qs id i c h name :
  gate_repr M g a m ls fl qs -> m !! id = None -> g_conn g !! i = Some c ->
  (forall id', m !! id' <> Some i) ->
  repr h (<[id := i]> m) -> cap h = cap (g_hash g) ->
  gate_repr M
    (set_conn (set_hash g h)
       (<[i := mk_connection id (c_agent c) (c_client c) name (c_buffer c)]> (g_conn g)) (g_mp g))
    (a_set a (<[id := mk_session 0 0 name (0, [])]> (a_sessions a))) (<[id := i]> m) ls fl qs.
Proof.
  intros Hg Hm Hc Hfree Hh Hcap. destruct (session_parts _ _ _ _ _ _ _ _ _ Hg Hc) as (l & q & Hl & Hq & Hb & Hp).
  destruct Hg. destruct (gr_free0 _ _ Hc Hfree) as (Hag & Hcl & Hq0).
  pose proof (lookup_lt_Some _ _ _ Hc) as Hlt.
  constructor; cbn [set_conn set_hash a_set listen_id watchdog broker client_tag header_size g_hash
    g_conn g_mp a_listen a_watchdog a_broker a_tag a_hs a_max a_sessions]; try done.
  - by rewrite Hcap.
  - by rewrite length_insert.
  - rewrite list_fmap_insert. cbn [c_buffer]. rewrite list_insert_id; [done|].
    by rewrite list_lookup_fmap, Hc.
  - by rewrite !dom_insert_L, gr_dom0.
  - intros id' i' s Hi' Hs'. destruct (decide (id' = id)) as [->|Hne].
    + rewrite lookup_insert_eq in Hi'. rewrite lookup_insert_eq in Hs'. injection Hi' as <-. injection Hs' as <-.
      eexists. rewrite list_lookup_insert_eq by done. split; [reflexivity|].
      by rewrite Hag, Hcl.
    + rewrite lookup_insert_ne in Hi' by done. rewrite lookup_insert_ne in Hs' by done.
      assert (i' <> i) by (intros ->; by apply (Hfree id')).
      rewrite !list_lookup_insert_ne by done. by apply gr_used0 with (id := id').
  - intros j c' Hj Hno. assert (j <> i) by (intros ->; apply (Hno id); by rewrite lookup_insert_eq).
    rewrite list_lookup_insert_ne in Hj by done. apply gr_free0 with (c := c'); [done|].
    intros id' Hid'. apply (Hno id'). rewrite lookup_insert_ne; [done|]. intros <-. congruence.
Qed.

Lemma peer_name (name : list Z) : Forall (fun c => c <> 0) name ->
  Z.of_nat (length name) < 2 ^ 31 ->
  (n ← read_bytes name 0 (if bool_decide (u64 (Z.of_nat (length name)) >= 32) then 31
                          else Z.of_nat (length name)); cstr (n ++ [0])) = Ret (take 31 name).
Proof.
  intros Hn Hlt. rewrite u64_small by (unfold is_u64; lia).
  assert (Hr : read_bytes name 0 (if bool_decide (Z.of_nat (length name) >= 32) then 31
    else Z.of_nat (length name)) = Ret (take 31 name)).
  { destruct (bool_decide_reflect (Z.of_nat (length name) >= 32)).
    - by rewrite read_bytes_prefix by lia.
    - rewrite read_bytes_all by done. by rewrite firstn_all2 by lia. }
  rewrite Hr, bind_Ret. apply cstr_app. by apply Forall_take.
Qed.

Lemma accept_event M g a m ls fl qs ud name : gate_repr M g a m ls fl qs -> 
  event_legal a (EvAccept (a_listen a) ud name) ->
  exists g', gate_call qn g (EvAccept (a_listen a) ud name) = Ret (g', (spec_call qn a (EvAccept (a_listen a) ud name)).2) /\
    gate_refines_spec M g' (spec_call qn a (EvAccept (a_listen a) ud name)).1.
Proof.
  intros Hg (_ & Hud & Hmax & Hs & Hname & Hlt). erewrite gate_call_socket by reflexivity.
  cbn [spec_call]. unfold dispatch_socket_message. cbn [sm_type sm_id sm_ud sm_padding].
  rewrite (bool_decide_false (_ = SKYNET_SOCKET_TYPE_DATA)) by done.
  rewrite (bool_decide_false (_ = SKYNET_SOCKET_TYPE_CONNECT)) by done.
  rewrite (bool_decide_false (_ \/ _)) by (by intros [|]).
  rewrite (bool_decide_true (SKYNET_SOCKET_TYPE_ACCEPT = _)) by done.
  rewrite (bool_decide_true (listen_id g = _)) by apply (gr_listen _ _ _ _ _ _ _ Hg).
  pose proof (gr_hash _ _ _ _ _ _ _ Hg) as (Hwf & Hcnt & _).
  pose proof (gr_dom _ _ _ _ _ _ _ Hg) as Hdom.
  assert (Hsize : size m = size (a_sessions a)) by (by rewrite <- !size_dom, Hdom).
  assert (Hle : count (g_hash g) <= cap (g_hash g)).
  { rewrite (wf_count _ Hwf), <- (wf_cap _ Hwf).
    pose proof (length_filter used (nid <$> ids (g_hash g))) as Hf.
    rewrite length_fmap in Hf. lia. }
  unfold hashid_full. pose proof (gr_cap _ _ _ _ _ _ _ Hg) as Hcap.
  rewrite Hcnt, Hsize, Hcap.
  destruct (bool_decide_reflect (Z.of_nat (size (a_sessions a)) = a_max a)).
  { exists g. split; [done|]. by exists m, ls, fl, qs. }
  assert (Hm : m !! ud = None).
  { apply not_elem_of_dom. rewrite Hdom. by apply not_elem_of_dom. }
  destruct (call_insert (g_hash g) m ud) as (i & h & -> & Hi & Hfree & Hh & Hcaph);
    [apply Hg|done|lia|done|lia|].
  rewrite bind_Ret. cbn [set_hash g_conn].
  destruct (lookup_lt_is_Some_2 (g_conn g) i) as [c Hc].
  { pose proof (gr_len _ _ _ _ _ _ _ Hg). lia. }
  step_with (read_at_Some _ _ _ Hc).
  pose proof (peer_name name Hname Hlt) as Hpn. cbv zeta.
  destruct (read_bytes name 0 _) as [nm| |] eqn:En in Hpn; [|done|done].
  rewrite bind_Ret in Hpn. rewrite En, bind_Ret, Hpn, bind_Ret.
  rewrite write_at_lt by (cbn [set_hash g_conn]; by eapply lookup_lt_Some).
  rewrite bind_Ret.
  eexists. split; [reflexivity|]. exists (<[ud := i]> m), ls, fl, qs.
  exact (session_insert M g a m ls fl qs ud i c h (take 31 name) Hg Hm Hc Hfree Hh Hcaph).
Qed.

(** One event. *)
Lemma gate_call_spec M g a e : gate_refines_spec M g a -> 0 <= M -> event_legal a e ->
  M + arrived1 e < 2 ^ 31 ->
  exists g', gate_call qn g e = Ret (g', (spec_call qn a e).2) /\
    gate_refines_spec (M + arrived1 e) g' (spec_call qn a e).1.
Proof.
  intros (m & ls & fl & qs & Hg) HM Hl Hlt.
  destruct e as [id data|id|error id|listen ud name|msg rest|msg]; cbn [arrived1] in *;
    rewrite ?Z.add_0_r.
  - by apply (data_event M g a m ls fl qs).
  - destruct (connect_event _ _ _ _ _ _ _ id Hg) as [-> ->]. exists g. split; [done|].
    by exists m, ls, fl, qs.
  - by apply (close_event M g a m ls fl qs).
  - pose proof Hl as [-> _]. by apply (accept_event M g a m ls fl qs).
  - by apply (text_event M g a m ls fl qs).
  - destruct (client_event _ _ _ _ _ _ _ msg Hg) as [-> ->]. exists g. split; [done|].
    by exists m, ls, fl, qs.
Qed.

Lemma arrived_nonneg es : 0 <= arrived es.
Proof. induction es as [|[] es IH]; simpl; lia. Qed.

Lemma gate_run_spec es : forall M g a, gate_refines_spec M g a -> 0 <= M -> events_legal qn a es ->
  M + arrived es < 2 ^ 31 ->
  exists g', gate_run qn g es = Ret (g', (spec_gate_run qn a es).2) /\
    gate_refines_spec (M + arrived es) g' (spec_gate_run qn a es).1.
Proof.
  induction es as [|e es IH]; intros M g a Hg HM Hl Hlt.
  { exists g. cbn. rewrite Z.add_0_r. by split. }
  destruct Hl as [Hl1 Hl2]. pose proof (arrived_nonneg es).
  change (arrived (e :: es)) with (arrived1 e + arrived es) in *.
  assert (0 <= arrived1 e) by (destruct e; simpl; lia).
  destruct (gate_call_spec M g a e Hg HM Hl1 ltac:(lia)) as (g1 & He & Hg1).
  cbn [gate_run spec_gate_run]. rewrite He, bind_Ret.
  destruct (spec_call qn a e) as [a1 acts1]. cbn [fst snd] in *.
  destruct (IH (M + arrived1 e) g1 a1 Hg1 ltac:(lia) Hl2 ltac:(lia)) as (g2 & He2 & Hg2).
  rewrite He2, bind_Ret. destruct (spec_gate_run qn a1 es) as [a2 acts2]. cbn [fst snd] in *.
  exists g2. split; [done|]. by rewrite Z.add_assoc.
Qed.

End events_repr.

(** *** The start *)

(** A gate without sessions, as its fields say. *)
Definition spec_of (g : gate) : gate_spec :=
  mk_spec (listen_id g) (watchdog g) (broker g) (client_tag g) (header_size g)
    (max_connection g) ∅.

Lemma start_listen_fields li g addr r g' acts : start_listen li g addr = (r, g', acts) ->
  exists n, g' = set_listen g n.
Proof.
  unfold start_listen.
  assert (Hg : g = set_listen g (listen_id g)) by by destruct g.
  destruct (list_find _ addr) as [[i x]|]; case_bool_decide; intros [= _ <- _]; eauto.
Qed.

Lemma fresh_gate_repr wd br tag hs max h n : hs = 2%nat \/ hs = 4%nat -> 0 <= max ->
  repr h ∅ -> cap h = max ->
  let conn := replicate (Z.to_nat max) (mk_connection (-1) 0 0 [] databuffer_zero) in
  let g := mk_gate n wd br tag hs max h conn messagepool_zero in
  gate_refines_spec 0 g (spec_of g).
Proof.
  intros Hhs Hmax Hh Hcap conn g. unfold conn in g.
  exists ∅, (replicate (Z.to_nat max) []), [], (replicate (Z.to_nat max) (0, [])).
  constructor; try done.
  - cbn [g g_conn spec_of a_max max_connection]. rewrite length_replicate. lia.
  - cbn [g g_conn g_mp]. rewrite fmap_replicate. apply store_init.
  - intros i c Hc _. cbn [g g_conn] in Hc. apply lookup_replicate in Hc as [-> Hi].
    split_and!; [done|done|]. by apply lookup_replicate_2.
Qed.

Lemma gate_init_repr qn li parm g acts :
  gate_init qn li gate_create parm = Ret (0, g, acts) -> max_connection g <= 2 ^ 30 ->
  gate_refines_spec 0 g (spec_of g).
Proof.
  unfold gate_init.
  destruct (scan_parm parm) as [[[[[[n header] wdn] binding] tag] max] buf].
  destruct (bool_decide_reflect (n < 4)); [done|].
  destruct (bool_decide_reflect (max <= 0)); [done|].
  destruct (bool_decide_reflect (header <> 83 /\ header <> 76)); [done|].
  set (tag' := if bool_decide (tag = 0) then PTYPE_CLIENT else tag).
  destruct (if bool_decide (head wdn = Some 33) then Some 0 else _) as [wd|]; [|done].
  destruct (hashid_init max) as [h| |] eqn:Eh; [|done|done]. rewrite bind_Ret.
  set (g0 := mk_gate _ _ _ _ _ _ _ _ _).
  destruct (start_listen li g0 binding) as [[r g1] acts1] eqn:Es. intros [= -> -> <-] Hmax.
  apply start_listen_fields in Es as [n' ->]. cbn [set_listen max_connection g0] in Hmax.
  destruct (init_repr max) as (h' & Hi & Hh & Hcap); [lia|]. rewrite Eh in Hi.
  injection Hi as <-. unfold g0, set_listen.
  cbn [listen_id watchdog broker client_tag header_size max_connection g_hash g_conn g_mp].
  apply fresh_gate_repr; [|lia|done|done]. case_bool_decide; auto.
Qed.

(** ** Properties *)

(** A text command of at most 1023 bytes frees the buffer on the stack. *)
Example short_command_frees_stack :
  gate_call (fun _ => 7) gate_create (EvText (bytes_of "start") []) = Crash BadFree.
Proof. vm_compute. done. Qed.

(** C26: The gate implements its specification, which has a byte queue per session in
    place of the id table, the connection array and the pool of buffers, and parsed
    orders in place of the text commands.  From a start that succeeds, with at most 2^30
    connections, on every sequence of messages to its callback - data, connects, closes and accepts of the socket
    thread, text commands, client messages - that keeps the socket layer's promises, with
    less than 2^31 bytes received and text commands of more than 1023 bytes without a NUL
    ([_ctrl] frees the stack buffer of a shorter one, [short_command_frees_stack]) whose
    forward orders have non-empty addresses, no call faults and the calls the gate makes
    are, in their order, those of the specification. *)
Theorem gate_refines qn li parm g acts0 es :
  gate_init qn li gate_create parm = Ret (0, g, acts0) -> max_connection g <= 2 ^ 30 ->
  events_legal qn (spec_of g) es -> arrived es < 2 ^ 31 ->
  exists g', gate_run qn g es = Ret (g', (spec_gate_run qn (spec_of g) es).2) /\
    gate_refines_spec (arrived es) g' (spec_gate_run qn (spec_of g) es).1.
Proof.
  intros Hinit Hmax Hl Hlt.
  exact (gate_run_spec qn es 0 g (spec_of g) (gate_init_repr _ _ _ _ _ Hinit Hmax)
    (Z.le_refl 0) Hl Hlt).
Qed.

(** A started gate with the watchdog 7 and the listening socket 3. *)
Definition demo_gate : outcome gate :=
  '(_, g, _) ← gate_init (fun _ => 7) (fun _ _ => 3) gate_create
    (bytes_of "S :7 0.0.0.0:8888 0 4");
  Ret g.

Definition long_forward : list Z :=
  bytes_of "forward" ++ replicate 1020 32 ++ bytes_of "10 :64 :c8".

Definition demo_events : list gate_event :=
  [EvAccept 3 10 (bytes_of "1.2.3.4:5"); EvConnect 10; EvData 10 [0; 2; 65];
   EvText long_forward []; EvAccept 3 11 []; EvData 10 [66; 0; 0; 0; 1; 67]; EvData 11 [0; 1];
   EvClient [1; 2; 11; 0; 0; 0]; EvClose false 10; EvData 10 [1]; EvData 11 [9]].

Lemma gate_refines_witness : exists g,
  demo_gate = Ret g /\ exists g',
    gate_run (fun _ => 7) g demo_events = Ret (g', (spec_gate_run (fun _ => 7) (spec_of g) demo_events).2) /\
    gate_refines_spec (arrived demo_events) g' (spec_gate_run (fun _ => 7) (spec_of g) demo_events).1.
Proof.
  eexists. split; [reflexivity|].
  eapply (gate_refines (fun _ => 7) (fun _ _ => 3) (bytes_of "S :7 0.0.0.0:8888 0 4"));
    [reflexivity|discriminate| |reflexivity].
  vm_compute. repeat split; try reflexivity; try (intros ?; discriminate);
    repeat constructor; try (intros ?; discriminate).
Defined.

(** ** The stream of a session *)

(** A packet on the wire: its length, high byte first, then its bytes. *)
Definition frame (hs : nat) (p : list Z) : list Z :=
  be_bytes hs (Z.of_nat (length p)) ++ p.

Definition packet_ok (hs : nat) (p : list Z) : Prop :=
  Bytes p /\ 0 < Z.of_nat (length p) < 2 ^ 24 /\ Z.of_nat (length p) < 256 ^ Z.of_nat hs.

Section stream.
Context (a : gate_spec) (id : Z) (s : session).
Context (Hhs : a_hs a = 2%nat \/ a_hs a = 4%nat).
Context (Hto : forall p, exists act, packet_to a id s p = Some act).

Abbreviation framed := (fmap (M := list) (frame (a_hs a))).

(** The bytes that are to come before packet list [ps] is over, when the length of its
    first packet has been read ([h]) or has not ([h = 0]). *)
Definition pending (h : Z) (ps : list (list Z)) : list Z :=
  if bool_decide (h = 0) then concat (framed ps)
  else match ps with p :: ps => p ++ concat (framed ps) | [] => [] end.

Definition head_read (h : Z) (ps : list (list Z)) : Prop :=
  h = 0 \/ exists p ps', ps = p :: ps' /\ h = Z.of_nat (length p).

Definition quiet (h : Z) (bs : list Z) : Prop :=
  if bool_decide (h = 0) then (length bs < a_hs a)%nat else Z.of_nat (length bs) < h.

Lemma decode_frame p rest : packet_ok (a_hs a) p ->
  decode_header (take (a_hs a) (frame (a_hs a) p ++ rest)) = Z.of_nat (length p).
Proof using Hhs.
  intros (_ & H24 & H256). unfold frame. rewrite <- app_assoc.
  rewrite take_app_length' by by rewrite length_be_bytes.
  unfold decode_header. rewrite be_value_be_bytes, Z.mod_small by lia.
  apply i32_small. unfold is_i32. lia.
Qed.

(** After a header has been read. *)
Lemma packets_ready fuel p ps bs fut :
  (forall q h, packet_ok (a_hs a) p -> Forall (packet_ok (a_hs a)) ps ->
    (weight (0%Z, q) < fuel)%nat -> h = 0 -> q ++ fut = pending h ps ->
    exists ps1 ps2 h' bs', ps = ps1 ++ ps2 /\
      spec_packets fuel a id s (h, q) = (omap (packet_to a id s) ps1, (h', bs')) /\
      head_read h' ps2 /\ bs' ++ fut = pending h' ps2 /\ quiet h' bs') ->
  packet_ok (a_hs a) p -> Forall (packet_ok (a_hs a)) ps -> (length bs <= fuel)%nat ->
  bs ++ fut = p ++ concat (framed ps) ->
  let n := Z.of_nat (length p) in
  exists ps1 ps2 h' bs', p :: ps = ps1 ++ ps2 /\
    (if bool_decide (ready n bs < 0) then ([], (n, bs))
     else if bool_decide (ready n bs > 0) then
       if bool_decide (ready n bs >= 0x1000000) then
         ([SocketClose id; LogError (bytes_of "Recv socket message > 16M")], (0, []))
       else match packet_to a id s (take (Z.to_nat (ready n bs)) bs) with
            | Some act => let '(acts, q) := spec_packets fuel a id s (0, drop (Z.to_nat (ready n bs)) bs)
                          in (act :: acts, q)
            | None => spec_packets fuel a id s (0, bs)
            end
     else spec_packets fuel a id s (n, bs)) = (omap (packet_to a id s) ps1, (h', bs')) /\
    head_read h' ps2 /\ bs' ++ fut = pending h' ps2 /\ quiet h' bs'.
Proof using Hhs Hto.
  intros IH Hp Hps Hf Hbs n. pose proof Hp as (_ & H24 & _). unfold ready.
  destruct (bool_decide_reflect (Z.of_nat (length bs) < n)) as [Hn|Hn].
  - exists [], (p :: ps), n, bs. split; [done|]. split; [done|].
    split; [right; by exists p, ps|]. unfold pending, quiet.
    rewrite (bool_decide_false (n = 0)) by lia. done.
  - rewrite (bool_decide_false (n < 0)), (bool_decide_true (n > 0)),
      (bool_decide_false (n >= 0x1000000)) by lia.
    assert (Htk : take (length p) bs = p).
    { rewrite <- (take_app_le bs fut) by lia. by rewrite Hbs, take_app_length. }
    assert (Hdr : drop (length p) bs ++ fut = concat (framed ps)).
    { rewrite <- (drop_app_le bs fut) by lia. by rewrite Hbs, drop_app_length. }
    unfold n. rewrite Nat2Z.id, Htk. destruct (Hto p) as [act Hact]. rewrite Hact.
    destruct (IH (drop (length p) bs) 0 Hp Hps) as (ps1 & ps2 & h' & bs' & Hpe & He & Hh & Hb & Hq).
    { unfold weight. cbn [fst snd]. rewrite bool_decide_true, length_drop by done. lia. }
    { done. } { done. }
    rewrite He. exists (p :: ps1), ps2, h', bs'. split; [by rewrite Hpe|].
    split; [cbn [omap list_omap]; by rewrite Hact|]. done.
Qed.

Lemma packets_stream fuel : forall ps h bs fut,
  Forall (packet_ok (a_hs a)) ps -> (weight (h, bs) < fuel)%nat -> head_read h ps ->
  bs ++ fut = pending h ps ->
  exists ps1 ps2 h' bs', ps = ps1 ++ ps2 /\
    spec_packets fuel a id s (h, bs) = (omap (packet_to a id s) ps1, (h', bs')) /\
    head_read h' ps2 /\ bs' ++ fut = pending h' ps2 /\ quiet h' bs'.
Proof using Hhs Hto.
  induction fuel as [|fuel IH]; intros ps h bs fut Hps Hf Hh Hbs; [lia|].
  cbn [spec_packets fst snd]. unfold spec_readheader, weight in *. cbn [fst snd] in *.
  destruct (bool_decide_reflect (h = 0)) as [->|Hh0].
  - destruct (bool_decide_reflect (length bs < a_hs a)%nat) as [Hlt|Hge].
    { exists [], ps, 0, bs. split_and!; try done. }
    unfold pending in Hbs. rewrite bool_decide_true in Hbs by done.
    destruct ps as [|p ps].
    { cbn in Hbs. destruct bs; [|done]. simpl in Hge. lia. }
    apply Forall_cons in Hps as [Hp Hps]. cbn [fmap list_fmap concat] in Hbs.
    assert (Hdec : decode_header (take (a_hs a) bs) = Z.of_nat (length p)).
    { rewrite <- (take_app_le bs fut) by lia. rewrite Hbs. by apply decode_frame. }
    rewrite Hdec. apply packets_ready; [|done|done|rewrite length_drop; lia|].
    + intros q h _ Hps' Hw -> Hq. by apply IH; [..|left|].
    + rewrite <- (drop_app_le bs fut) by lia. rewrite Hbs. unfold frame. rewrite <- app_assoc.
      by rewrite drop_app_length' by by rewrite length_be_bytes.
  - destruct Hh as [|(p & ps' & -> & ->)]; [done|].
    apply Forall_cons in Hps as [Hp Hps]. unfold pending in Hbs.
    rewrite bool_decide_false in Hbs by done.
    apply packets_ready; [|done|done|lia|done].
    intros q h _ Hps' Hw -> Hq. by apply IH; [..|left|].
Qed.
End stream.

Lemma quiet_end a h bs ps : quiet a h bs -> head_read h ps -> bs = pending a h ps -> ps = [].
Proof.
  unfold quiet, pending. intros Hq Hh ->. destruct ps as [|p ps]; [done|].
  destruct (bool_decide_reflect (h = 0)) as [->|Hne].
  - cbn [fmap list_fmap concat] in Hq. unfold frame in Hq.
    rewrite !length_app, length_be_bytes in Hq. lia.
  - destruct Hh as [|(p' & ps' & [= <- <-] & ->)]; [done|].
    rewrite length_app in Hq. lia.
Qed.

(** The chunks in which the stream of a session arrives. *)
Lemma stream_run qn ds : forall a id s ps h bs,
  a_hs a = 2%nat \/ a_hs a = 4%nat ->
  (forall p, exists act, packet_to a id s p = Some act) ->
  Forall (packet_ok (a_hs a)) ps -> a_sessions a !! id = Some s -> s_queue s = (h, bs) ->
  head_read h ps -> quiet a h bs -> bs ++ concat ds = pending a h ps ->
  (spec_gate_run qn a (EvData id <$> ds)).2 = omap (packet_to a id s) ps.
Proof.
  induction ds as [|d ds IH]; intros a id s ps h bs Hhs Hto Hps Hs Hq Hh Hquiet Hbs.
  { cbn [concat] in Hbs. rewrite app_nil_r in Hbs.
    by rewrite (quiet_end a h bs ps Hquiet Hh Hbs). }
  cbn [fmap list_fmap spec_gate_run spec_call]. unfold spec_data. rewrite Hs, Hq. cbn [fst snd].
  cbn [concat] in Hbs. rewrite app_assoc in Hbs.
  destruct (packets_stream a id s Hhs Hto (S (S (length (bs ++ d)))) ps h (bs ++ d) (concat ds))
    as (ps1 & ps2 & h' & bs' & -> & He & Hh' & Hb' & Hq'); [done| |done|done|].
  { unfold weight. cbn [fst snd]. case_bool_decide; lia. }
  rewrite He. apply Forall_app in Hps as [_ Hps2].
  set (s' := mk_session (s_agent s) (s_client s) (s_name s) (h', bs')).
  set (a' := a_set a (<[id := s']> (a_sessions a))).
  pose proof (IH a' id s' ps2 h' bs' Hhs Hto Hps2 ltac:(by apply lookup_insert_eq) eq_refl
    Hh' Hq' Hb') as Hrest.
  destruct (spec_gate_run qn a' (EvData id <$> ds)) as [a2 acts2]. cbn [fst snd] in *.
  rewrite Hrest. by rewrite omap_app.
Qed.

Lemma data_legal qn a id ds : Forall Bytes ds -> events_legal qn a (EvData id <$> ds).
Proof. intros H. revert a. induction H; intros a; [done|]. split; [done|]. apply IHForall. Qed.

Lemma arrived_data id ds : arrived (EvData id <$> ds) = Z.of_nat (length (concat ds)).
Proof.
  induction ds as [|d ds IH]; [done|]. cbn [fmap list_fmap concat]. rewrite length_app.
  change (arrived (EvData id d :: (EvData id <$> ds)))
    with (Z.of_nat (length d) + arrived (EvData id <$> ds)). lia.
Qed.

(** The packets of a session are forwarded, each one once and in order, however the
    byte stream they were framed into is cut into chunks: if a session of a gate in a
    good state has an empty queue and somewhere to send to, and the chunks make up
    the frames of [ps], then the calls of the gate are the sends of [ps], and no more. *)
Theorem gate_forwards_packets qn M g a id s ps ds :
  gate_refines_spec M g a -> 0 <= M -> a_sessions a !! id = Some s -> s_queue s = (0, []) ->
  (exists act, packet_to a id s [] = Some act) ->
  Forall (packet_ok (a_hs a)) ps -> Forall Bytes ds ->
  concat ds = concat (frame (a_hs a) <$> ps) -> M + Z.of_nat (length (concat ds)) < 2 ^ 31 ->
  exists g', gate_run qn g (EvData id <$> ds) = Ret (g', omap (packet_to a id s) ps).
Proof.
  intros Hg HM Hs Hq [act0 Hto] Hps Hds Hcat Hlt.
  pose proof Hg as (m & ls & fl & qs & Hg'). pose proof (gr_hs24 _ _ _ _ _ _ _ Hg') as Hhs.
  destruct (gate_run_spec qn (EvData id <$> ds) M g a Hg HM (data_legal qn a id ds Hds))
    as (g' & He & _); [by rewrite arrived_data|].
  exists g'. rewrite He. do 2 f_equal.
  apply (stream_run qn ds a id s ps 0 []); try done.
  - intros p. unfold packet_to in *. repeat case_bool_decide; eauto.
  - by left.
  - unfold quiet. rewrite bool_decide_true by done. cbn [length]. destruct Hhs as [-> | ->]; lia.
Qed.

Lemma gate_forwards_packets_witness : exists g,
  demo_gate = Ret g /\ exists g1 acts,
    gate_run (fun _ => 7) g [EvAccept 3 10 []] = Ret (g1, acts) /\
    exists g', gate_run (fun _ => 7) g1 (EvData 10 <$> [[0]; [2; 65; 66; 0]; [1; 67]]) =
      Ret (g', omap (packet_to (spec_gate_run (fun _ => 7) (spec_of g) [EvAccept 3 10 []]).1 10
                       (mk_session 0 0 [] (0, []))) [[65; 66]; [67]]).
Proof.
  eexists. split; [reflexivity|].
  destruct (gate_run_spec (fun _ => 7) [EvAccept 3 10 []] 0 _ _
    (gate_init_repr (fun _ => 7) (fun _ _ => 3) (bytes_of "S :7 0.0.0.0:8888 0 4") _ _
       eq_refl ltac:(discriminate))) as (g1 & He & Hg1).
  { discriminate. }
  { vm_compute. repeat split; try reflexivity; try (intros ?; discriminate); constructor. }
  { reflexivity. }
  exists g1. eexists. split; [exact He|].
  eapply (gate_forwards_packets (fun _ => 7) _ g1 _ 10 (mk_session 0 0 [] (0, [])) [[65; 66]; [67]]
    [[0]; [2; 65; 66; 0]; [1; 67]] Hg1).
  - discriminate.
  - reflexivity.
  - reflexivity.
  - eexists. reflexivity.
  - repeat constructor; try (intros ?; discriminate).
  - repeat constructor; intros ?; discriminate.
  - reflexivity.
  - reflexivity.
Defined.
