(* ===== verification/Harbor.v ===== *)
(** * The harbor service (src/service-src/service_harbor.c)

    The harbor of a node sends the messages for other nodes over one connection per
    node, and gives those that arrive to the local services.  Messages for a node that
    is not connected, and for a global name that is not known, wait in a growing ring.
    What a handler does to the rest of the program is the list of its calls, in order,
    with the message memory it gives back.  [skynet_send] answers the harbor when it
    forwards a message; its answer is a parameter. *)
From S2P Require Import Prelude CString.
From stdpp Require Import base list gmap numbers strings.
From Stdlib Require Import ZArith Lia.

Local Open Scope Z_scope.

(** ** Data *)

Definition HASH_SIZE : Z := 4096.
Definition DEFAULT_QUEUE_SIZE : nat := Z.to_nat 1024.
Definition HEADER_COOKIE_LENGTH : Z := 12.

Record remote_message_header := mk_header {
  rh_source : Z;
  rh_destination : Z;
  rh_session : Z
}.

(** The size is the length of the buffer. *)
Record harbor_msg := mk_harbor_msg {
  hm_header : remote_message_header;
  hm_buffer : list Z
}.

Record harbor_msg_queue := mk_queue {
  q_size : nat;
  q_head : nat;
  q_tail : nat;
  q_data : list harbor_msg
}.

(** A pointer to a node is its index in [map_pool], in which the nodes are allocated. *)
Record keyvalue := mk_keyvalue {
  kv_next : option nat;
  kv_key : list Z;
  kv_hash : Z;
  kv_value : Z;
  kv_queue : option harbor_msg_queue
}.

Record hashmap := mk_hashmap {
  map_node : list (option nat);
  map_pool : list keyvalue
}.

Definition STATUS_WAIT : Z := 0.
Definition STATUS_HANDSHAKE : Z := 1.
Definition STATUS_HEADER : Z := 2.
Definition STATUS_CONTENT : Z := 3.
Definition STATUS_DOWN : Z := 4.

Record slave := mk_slave {
  s_fd : Z;
  s_queue : option harbor_msg_queue;
  s_status : Z;
  s_length : Z;
  s_read : Z;
  s_size : list Z;
  s_recv_buffer : option (list Z)
}.

Record harbor := mk_harbor {
  h_id : Z;
  h_slave : Z;
  h_map : hashmap;
  h_s : list slave
}.

Inductive action :=
| Send (source dest type session : Z) (data : list Z)
| SocketClose (id : Z)
| SocketStart (id : Z)
| SocketSend (id : Z) (data : list Z)
| LogError (text : list Z)
| Free (buffer : list Z)
| SetCallback
| HarborStart.

(** Memory from [malloc] holds zero here; the rings are only read where they were
    written. *)
#[export] Instance harbor_msg_inhabited : Inhabited harbor_msg :=
  populate (mk_harbor_msg (mk_header 0 0 0) []).

Definition slave_zero : slave := mk_slave 0 None STATUS_WAIT 0 0 [0; 0; 0; 0] None.

Definition set_fd (s : slave) (fd : Z) : slave :=
  mk_slave fd (s_queue s) (s_status s) (s_length s) (s_read s) (s_size s) (s_recv_buffer s).
Definition set_queue (s : slave) (q : option harbor_msg_queue) : slave :=
  mk_slave (s_fd s) q (s_status s) (s_length s) (s_read s) (s_size s) (s_recv_buffer s).
Definition set_status (s : slave) (st : Z) : slave :=
  mk_slave (s_fd s) (s_queue s) st (s_length s) (s_read s) (s_size s) (s_recv_buffer s).
Definition set_link (s : slave) (st length read : Z) (size : list Z) (recv : option (list Z)) : slave :=
  mk_slave (s_fd s) (s_queue s) st length read size recv.
Definition set_kv_queue (kv : keyvalue) (q : option harbor_msg_queue) : keyvalue :=
  mk_keyvalue (kv_next kv) (kv_key kv) (kv_hash kv) (kv_value kv) q.
Definition set_kv_value (kv : keyvalue) (v : Z) : keyvalue :=
  mk_keyvalue (kv_next kv) (kv_key kv) (kv_hash kv) v (kv_queue kv).
Definition set_map (h : harbor) (m : hashmap) : harbor :=
  mk_harbor (h_id h) (h_slave h) m (h_s h).
Definition set_slaves (h : harbor) (s : list slave) : harbor :=
  mk_harbor (h_id h) (h_slave h) (h_map h) s.

(** ** Queues *)

(** The new size is computed in [int]; past it the allocation has no sense. *)
Definition push_queue_msg (q : harbor_msg_queue) (m : harbor_msg) : outcome harbor_msg_queue :=
  q ← (if bool_decide (((q_tail q + 1) mod q_size q)%nat = q_head q) then
         if bool_decide (Z.of_nat (q_size q) * 2 < 2 ^ 31) then
           let old := ring_items (q_data q) (q_head q) (q_size q - 1) in
           let new_buffer := old ++ replicate (q_size q * 2 - (q_size q - 1)) inhabitant in
           Ret (mk_queue (q_size q * 2) 0 (q_size q - 1) new_buffer)
         else Crash OutOfBounds
       else Ret q);
  data ← write_at (q_data q) (Z.of_nat (q_tail q)) m;
  Ret (mk_queue (q_size q) (q_head q) ((q_tail q + 1) mod q_size q) data).

Definition push_queue (q : harbor_msg_queue) (buffer : list Z) (header : remote_message_header)
  : outcome harbor_msg_queue :=
  push_queue_msg q (mk_harbor_msg header buffer).

Definition pop_queue (q : harbor_msg_queue) : outcome (option harbor_msg * harbor_msg_queue) :=
  if bool_decide (q_head q = q_tail q) then Ret (None, q)
  else
    slot ← read_at (q_data q) (Z.of_nat (q_head q));
    Ret (Some slot, mk_queue (q_size q) ((q_head q + 1) mod q_size q) (q_tail q) (q_data q)).

Definition new_queue : harbor_msg_queue :=
  mk_queue DEFAULT_QUEUE_SIZE 0 0 (replicate DEFAULT_QUEUE_SIZE inhabitant).

(** [while ((m = pop_queue(queue)) != NULL)]: the messages, in order; a ring holds fewer
    than its size. *)
Fixpoint drain_loop (fuel : nat) (q : harbor_msg_queue) : outcome (list harbor_msg * harbor_msg_queue) :=
  match fuel with
  | O => Crash OutOfFuel
  | S fuel =>
    '(m, q) ← pop_queue q;
    match m with
    | None => Ret ([], q)
    | Some m => '(l, q) ← drain_loop fuel q; Ret (m :: l, q)
    end
  end.

Definition drain (q : harbor_msg_queue) : outcome (list harbor_msg * harbor_msg_queue) :=
  drain_loop (q_size q) q.

Definition release_queue (queue : option harbor_msg_queue) : outcome (list action) :=
  match queue with
  | None => Ret []
  | Some q => '(ms, _) ← drain q; Ret (map (fun m => Free (hm_buffer m)) ms)
  end.

(** ** Names *)

Definition name_word (name : list Z) (i : nat) : Z := le_value (take 4 (drop (4 * i) name)).

Definition name_hash (name : list Z) : Z :=
  Z.lxor (Z.lxor (Z.lxor (name_word name 0) (name_word name 1)) (name_word name 2))
    (name_word name 3).

Fixpoint search_loop (fuel : nat) (pool : list keyvalue) (node : option nat) (h : Z)
    (name : list Z) : outcome (option nat) :=
  match node with
  | None => Ret None
  | Some p =>
    match fuel with
    | O => Crash OutOfFuel
    | S fuel =>
      kv ← read_at pool (Z.of_nat p);
      same ← (if bool_decide (kv_hash kv = h)
              then strncmp_eq (kv_key kv) name (Z.to_nat GLOBALNAME_LENGTH) else Ret false);
      if same : bool then Ret (Some p) else search_loop fuel pool (kv_next kv) h name
    end
  end.

Definition hash_search (hash : hashmap) (name : list Z) : outcome (option nat) :=
  let h := name_hash name in
  node ← read_at (map_node hash) (h mod HASH_SIZE);
  search_loop (length (map_pool hash)) (map_pool hash) node h name.

Definition hash_insert (hash : hashmap) (name : list Z) : outcome (nat * hashmap) :=
  let h := name_hash name in
  pkv ← read_at (map_node hash) (h mod HASH_SIZE);
  key ← read_bytes name 0 GLOBALNAME_LENGTH;
  let p := length (map_pool hash) in
  node ← write_at (map_node hash) (h mod HASH_SIZE) (Some p);
  Ret (p, mk_hashmap node (map_pool hash ++ [mk_keyvalue pkv key h 0 None])).

Definition hash_new : hashmap := mk_hashmap (replicate (Z.to_nat HASH_SIZE) None) [].

Fixpoint delete_chain (fuel : nat) (pool : list keyvalue) (node : option nat)
  : outcome (list action) :=
  match node with
  | None => Ret []
  | Some p =>
    match fuel with
    | O => Crash OutOfFuel
    | S fuel =>
      kv ← read_at pool (Z.of_nat p);
      a ← release_queue (kv_queue kv);
      rest ← delete_chain fuel pool (kv_next kv);
      Ret (a ++ rest)
    end
  end.

Fixpoint delete_buckets (nodes : list (option nat)) (pool : list keyvalue) : outcome (list action) :=
  match nodes with
  | [] => Ret []
  | node :: nodes =>
    a ← delete_chain (length pool) pool node;
    rest ← delete_buckets nodes pool;
    Ret (a ++ rest)
  end.

Definition hash_delete (hash : hashmap) : outcome (list action) :=
  delete_buckets (map_node hash) (map_pool hash).

(** ** Connections *)

Definition set_slave (h : harbor) (id : Z) (s : slave) : outcome harbor :=
  l ← write_at (h_s h) id s;
  Ret (set_slaves h l).

(** The socket id stays in the slot. *)
Definition close_harbor (h : harbor) (id : Z) : outcome (harbor * list action) :=
  s ← read_at (h_s h) id;
  freed ← release_queue (s_queue s);
  h ← set_slave h id (set_queue (set_status s STATUS_DOWN) None);
  Ret (h, (if bool_decide (s_fd s = 0) then [] else [SocketClose (s_fd s)]) ++ freed).

Definition report_harbor_down (h : harbor) (id : Z) : list action :=
  [Send 0 (h_slave h) PTYPE_TEXT 0 (bytes_of "D " ++ print_int id)].

Definition harbor_create : harbor :=
  mk_harbor 0 0 hash_new (replicate (Z.to_nat REMOTE_MAX) slave_zero).

Fixpoint release_slaves (h : harbor) (ids : list Z) : outcome (harbor * list action) :=
  match ids with
  | [] => Ret (h, [])
  | id :: ids =>
    s ← read_at (h_s h) id;
    '(h, a) ← (if bool_decide (s_fd s <> 0 /\ s_status s <> STATUS_DOWN)
               then close_harbor h id else Ret (h, []));
    '(h, rest) ← release_slaves h ids;
    Ret (h, a ++ rest)
  end.

Definition harbor_release (h : harbor) : outcome (list action) :=
  '(h, a) ← release_slaves h (seqZ 1 (REMOTE_MAX - 1));
  freed ← hash_delete (h_map h);
  Ret (a ++ freed).

(** ** The wire *)

Definition to_bigendian (n : Z) : list Z :=
  [Z.land (Z.shiftr n 24) 0xff; Z.land (Z.shiftr n 16) 0xff; Z.land (Z.shiftr n 8) 0xff;
   Z.land n 0xff].

Definition header_to_message (header : remote_message_header) : list Z :=
  to_bigendian (rh_source header) ++ to_bigendian (rh_destination header) ++
  to_bigendian (rh_session header).

(** [n] is the word that lies in memory as the bytes [bytes]. *)
Definition from_bigendian (bytes : list Z) : Z :=
  Z.lor (Z.lor (Z.lor (Z.shiftl (bytes !!! 0%nat) 24) (Z.shiftl (bytes !!! 1%nat) 16))
               (Z.shiftl (bytes !!! 2%nat) 8)) (bytes !!! 3%nat).

Definition message_to_header (message : list Z) : remote_message_header :=
  mk_header (from_bigendian (take 4 message)) (from_bigendian (take 4 (drop 4 message)))
    (from_bigendian (take 4 (drop 8 message))).

(** The buffer has [sz_header + 4] bytes, computed in [uint32_t]. *)
Definition send_remote (fd : Z) (buffer : list Z) (cookie : remote_message_header)
  : outcome (list action) :=
  let sz := Z.of_nat (length buffer) in
  let sz_header := u32 (sz + HEADER_COOKIE_LENGTH) in
  let sendbuf := replicate (Z.to_nat (u32 (sz_header + 4))) 0 in
  sendbuf ← write_bytes sendbuf 0 (to_bigendian sz_header);
  sendbuf ← write_bytes sendbuf 4 buffer;
  sendbuf ← write_bytes sendbuf (4 + sz) (header_to_message cookie);
  Ret [SocketSend fd sendbuf].

(** The body of a [while ((m = pop_queue(queue)) != NULL)] that sends. *)
Fixpoint send_all (fd : Z) (ms : list harbor_msg) : outcome (list action) :=
  match ms with
  | [] => Ret []
  | m :: ms =>
    a ← send_remote fd (hm_buffer m) (hm_header m);
    rest ← send_all fd ms;
    Ret (a ++ rest)
  end.

(** [m->header.destination |= (handle & HANDLE_MASK)]. *)
Definition or_destination (handle : Z) (m : harbor_msg) : harbor_msg :=
  let hd := hm_header m in
  mk_harbor_msg
    (mk_header (rh_source hd) (Z.lor (rh_destination hd) (Z.land handle HANDLE_MASK))
       (rh_session hd)) (hm_buffer m).

Fixpoint push_all (q : harbor_msg_queue) (ms : list harbor_msg) : outcome harbor_msg_queue :=
  match ms with
  | [] => Ret q
  | m :: ms => q ← push_queue_msg q m; push_all q ms
  end.

(** The messages of a name that has become known; the queue of the name afterwards. *)
Definition dispatch_name_queue (h : harbor) (node : keyvalue) (queue : harbor_msg_queue)
  : outcome (harbor * option harbor_msg_queue * list action) :=
  let handle := kv_value node in
  let harbor_id := Z.shiftr handle HANDLE_REMOTE_SHIFT in
  if bool_decide (harbor_id = 0) then Crash AssertFailed
  else
    s ← read_at (h_s h) harbor_id;
    if bool_decide (s_fd s = 0) then
      if bool_decide (s_status s = STATUS_DOWN) then
        tmp ← cstr (kv_key node ++ [0]);
        Ret (h, Some queue, [LogError (bytes_of "Drop message to " ++ tmp ++
               bytes_of " (in harbor " ++ print_int harbor_id ++ bytes_of ")")])
      else
        match s_queue s with
        | None =>
          h ← set_slave h harbor_id (set_queue s (Some queue));
          Ret (h, None, [])
        | Some sq =>
          '(ms, queue) ← drain queue;
          sq ← push_all sq ms;
          h ← set_slave h harbor_id (set_queue s (Some sq));
          Ret (h, Some queue, [])
        end
    else
      '(ms, queue) ← drain queue;
      acts ← send_all (s_fd s) (map (or_destination handle) ms);
      Ret (h, Some queue, acts).

(** The buffers of the messages are not given back here. *)
Definition dispatch_queue (h : harbor) (id : Z) : outcome (harbor * list action) :=
  s ← read_at (h_s h) id;
  if bool_decide (s_fd s = 0) then Crash AssertFailed
  else
    match s_queue s with
    | None => Ret (h, [])
    | Some queue =>
      '(ms, queue) ← drain queue;
      acts ← send_all (s_fd s) ms;
      freed ← release_queue (Some queue);
      h ← set_slave h id (set_queue s None);
      Ret (h, acts ++ freed)
    end.

(** ** Arriving bytes *)

Section harbor.
Context (skynet_send : Z -> Z -> Z -> Z -> list Z -> Z).

Definition forward_local_messsage (h : harbor) (msg : list Z) (sz : Z) : outcome (list action) :=
  cookie ← read_bytes msg (sz - HEADER_COOKIE_LENGTH) HEADER_COOKIE_LENGTH;
  let header := message_to_header cookie in
  let type := Z.lor (Z.shiftr (rh_destination header) HANDLE_REMOTE_SHIFT) PTYPE_TAG_DONTCOPY in
  let destination := Z.lor (Z.land (rh_destination header) HANDLE_MASK)
                           (u32 (Z.shiftl (u32 (h_id h)) HANDLE_REMOTE_SHIFT)) in
  let session := i32 (rh_session header) in
  data ← read_bytes msg 0 (sz - HEADER_COOKIE_LENGTH);
  let sent := Send (rh_source header) destination type session data in
  if bool_decide (skynet_send (rh_source header) destination type session data < 0) then
    Ret [sent; Send destination (rh_source header) PTYPE_ERROR session [];
         LogError (bytes_of "Unknown destination :" ++ print_hex destination ++
                   bytes_of " from :" ++ print_hex (rh_source header))]
  else Ret [sent].

(** What a case of the [switch] ends with: a [return], or the next case or round with
    the bytes that are left. *)
Inductive next := Return | Go (buffer : list Z).

Definition handshake_case (h : harbor) (fd id : Z) (buffer : list Z)
  : outcome (next * harbor * list action) :=
  s ← read_at (h_s h) id;
  remote_id ← read_at buffer 0;
  if bool_decide (remote_id <> id) then
    '(h, a) ← close_harbor h id;
    Ret (Return, h, LogError (bytes_of "Invalid shakehand id (" ++ print_int id ++
      bytes_of ") from fd = " ++ print_int fd ++ bytes_of " , harbor = " ++
      print_int remote_id) :: a)
  else
    h ← set_slave h id (set_status s STATUS_HEADER);
    '(h, a) ← dispatch_queue h id;
    Ret (Go (drop 1 buffer), h, a).

Definition header_case (h : harbor) (id : Z) (buffer : list Z)
  : outcome (next * harbor * list action) :=
  s ← read_at (h_s h) id;
  let need := 4 - s_read s in
  let size := Z.of_nat (length buffer) in
  if bool_decide (size < need) then
    bs ← write_bytes (s_size s) (s_read s) buffer;
    h ← set_slave h id (set_link s (s_status s) (s_length s) (s_read s + size) bs (s_recv_buffer s));
    Ret (Return, h, [])
  else
    bs ← write_bytes (s_size s) (s_read s) (take (Z.to_nat need) buffer);
    let buffer := drop (Z.to_nat need) buffer in
    if bool_decide (bs !!! 0%nat <> 0) then
      h ← set_slave h id (set_link s (s_status s) (s_length s) (s_read s) bs (s_recv_buffer s));
      '(h, a) ← close_harbor h id;
      Ret (Return, h,
           LogError (bytes_of "Message is too long from harbor " ++ print_int id) :: a)
    else
      let len := Z.lor (Z.lor (Z.shiftl (bs !!! 1%nat) 16) (Z.shiftl (bs !!! 2%nat) 8))
                       (bs !!! 3%nat) in
      h ← set_slave h id
        (set_link s STATUS_CONTENT len 0 bs (Some (replicate (Z.to_nat len) 0)));
      Ret (if bool_decide (length buffer = 0%nat) then Return else Go buffer, h, []).

Definition content_case (h : harbor) (id : Z) (buffer : list Z)
  : outcome (next * harbor * list action) :=
  s ← read_at (h_s h) id;
  let need := s_length s - s_read s in
  let size := Z.of_nat (length buffer) in
  let recv := default [] (s_recv_buffer s) in
  if bool_decide (size < need) then
    recv ← write_bytes recv (s_read s) buffer;
    h ← set_slave h id
      (set_link s (s_status s) (s_length s) (s_read s + size) (s_size s) (Some recv));
    Ret (Return, h, [])
  else
    recv ← write_bytes recv (s_read s) (take (Z.to_nat need) buffer);
    a ← forward_local_messsage h recv (s_length s);
    let buffer := drop (Z.to_nat need) buffer in
    h ← set_slave h id (set_link s STATUS_HEADER 0 0 (s_size s) None);
    Ret (if bool_decide (length buffer = 0%nat) then Return else Go buffer, h, a).

(** A case, and what comes after it. *)
Definition and_then (r : next * harbor * list action)
    (k : harbor -> list Z -> outcome (harbor * list action)) : outcome (harbor * list action) :=
  let '(n, h, a) := r in
  match n with
  | Return => Ret (h, a)
  | Go buffer => '(h, rest) ← k h buffer; Ret (h, a ++ rest)
  end.

(** The [for (;;)]: HANDSHAKE goes through to HEADER when bytes are left, and HEADER to
    CONTENT.  A round that is not the last takes a byte, or leaves HANDSHAKE. *)
Fixpoint push_loop (fuel : nat) (h : harbor) (fd id : Z) (buffer : list Z)
  : outcome (harbor * list action) :=
  match fuel with
  | O => Crash OutOfFuel
  | S fuel =>
    let again h buffer := push_loop fuel h fd id buffer in
    let content h buffer := r ← content_case h id buffer; and_then r again in
    let header h buffer := r ← header_case h id buffer; and_then r content in
    s ← read_at (h_s h) id;
    if bool_decide (s_status s = STATUS_HANDSHAKE) then
      r ← handshake_case h fd id buffer;
      and_then r (fun h buffer => if bool_decide (length buffer = 0%nat) then again h buffer
                                  else header h buffer)
    else if bool_decide (s_status s = STATUS_HEADER) then header h buffer
    else if bool_decide (s_status s = STATUS_CONTENT) then content h buffer
    else Ret (h, [])
  end.

(** The first slot from 1 on with this socket. *)
Definition find_fd (h : harbor) (fd : Z) : option nat :=
  match list_find (fun s => s_fd s = fd) (drop 1 (h_s h)) with
  | Some (i, _) => Some (S i)
  | None => None
  end.

(** The flag says that the buffer of the message has been given back. *)
Definition push_socket_data (h : harbor) (m : socket_message) : outcome (harbor * bool * list action) :=
  if bool_decide (sm_type m <> SKYNET_SOCKET_TYPE_DATA) then Crash AssertFailed
  else
    match find_fd h (sm_id m) with
    | None =>
      Ret (h, true, [Free (default [] (sm_buffer m));
                     LogError (bytes_of "Invalid socket fd (" ++ print_int (sm_id m) ++
                               bytes_of ") data")])
    | Some id =>
      buffer ← read_bytes (default [] (sm_buffer m)) 0 (sm_ud m);
      '(h, a) ← push_loop (S (S (length buffer))) h (sm_id m) (Z.of_nat id) buffer;
      Ret (h, false, a)
    end.

(** ** Messages to other nodes *)

Definition find_or_insert (map : hashmap) (name : list Z) : outcome (nat * hashmap) :=
  r ← hash_search map name;
  match r with
  | Some p => Ret (p, map)
  | None => hash_insert map name
  end.

Definition set_node (map : hashmap) (p : nat) (kv : keyvalue) : hashmap :=
  mk_hashmap (map_node map) (<[p := kv]> (map_pool map)).

Definition update_name (h : harbor) (name : list Z) (handle : Z) : outcome (harbor * list action) :=
  '(p, map) ← find_or_insert (h_map h) name;
  kv ← read_at (map_pool map) (Z.of_nat p);
  let kv := set_kv_value kv handle in
  match kv_queue kv with
  | None => Ret (set_map h (set_node map p kv), [])
  | Some queue =>
    '(h, rest, a) ← dispatch_name_queue h kv queue;
    freed ← release_queue rest;
    Ret (set_map h (set_node map p (set_kv_queue kv None)), a ++ freed)
  end.

(** The result says that the message has been taken. *)
Definition remote_send_handle (h : harbor) (source destination type session : Z) (msg : list Z)
  : outcome (Z * harbor * list action) :=
  let harbor_id := Z.shiftr destination HANDLE_REMOTE_SHIFT in
  if bool_decide (harbor_id = h_id h) then
    Ret (1, h, [Send source destination (Z.lor type PTYPE_TAG_DONTCOPY) session msg])
  else
    s ← read_at (h_s h) harbor_id;
    let cookie := mk_header source
      (Z.lor (Z.land destination HANDLE_MASK) (u32 (Z.shiftl type HANDLE_REMOTE_SHIFT)))
      (u32 session) in
    if bool_decide (s_fd s = 0 \/ s_status s = STATUS_HANDSHAKE) then
      if bool_decide (s_status s = STATUS_DOWN) then
        Ret (0, h, [Send destination source PTYPE_ERROR 0 [];
          LogError (bytes_of "Drop message to harbor " ++ print_int harbor_id ++
            bytes_of " from " ++ print_hex source ++ bytes_of " to " ++ print_hex destination ++
            bytes_of " (session = " ++ print_int session ++ bytes_of ", msgsz = " ++
            print_int (i32 (Z.of_nat (length msg))) ++ bytes_of ")")])
      else
        let q := default new_queue (s_queue s) in
        q ← push_queue q msg cookie;
        h ← set_slave h harbor_id (set_queue s (Some q));
        Ret (1, h, [])
    else
      a ← send_remote (s_fd s) msg cookie;
      Ret (0, h, a).

Definition remote_send_name (h : harbor) (source : Z) (name : list Z) (type session : Z)
    (msg : list Z) : outcome (Z * harbor * list action) :=
  '(p, map) ← find_or_insert (h_map h) name;
  let h := set_map h map in
  kv ← read_at (map_pool map) (Z.of_nat p);
  if bool_decide (kv_value kv = 0) then
    let q := default new_queue (kv_queue kv) in
    let header := mk_header source (u32 (Z.shiftl type HANDLE_REMOTE_SHIFT)) (u32 session) in
    q ← push_queue q msg header;
    key ← read_bytes name 0 GLOBALNAME_LENGTH;
    query ← cstr (bytes_of "Q " ++ key ++ [0]);
    Ret (1, set_map h (set_node map p (set_kv_queue kv (Some q))),
         [Send 0 (h_slave h) PTYPE_TEXT 0 query])
  else remote_send_handle h source (kv_value kv) type session msg.

(** ** Commands and the callback *)

Definition handshake (h : harbor) (id : Z) : outcome (list action) :=
  s ← read_at (h_s h) id;
  Ret [SocketSend (s_fd s) [u8 (h_id h)]].

(** [sscanf(buffer, "%d %d", &fd, &id)] over zeros. *)
Definition scan_two (s : list Z) : Z * Z :=
  match scan_d s with
  | None => (0, 0)
  | Some (a, s) => (a, match scan_d s with Some (b, _) => b | None => 0 end)
  end.

Definition command_name (h : harbor) (mem : list Z) (s source : Z) : outcome (harbor * list action) :=
  if bool_decide (s <= 0 \/ s >= GLOBALNAME_LENGTH) then
    name ← cstring mem 2;
    Ret (h, [LogError (bytes_of "Invalid global name " ++ name)])
  else
    name ← read_bytes mem 2 s;
    update_name h (name ++ replicate (Z.to_nat (GLOBALNAME_LENGTH - s)) 0) source.

Definition command_connect (h : harbor) (mem : list Z) (s : Z) : outcome (harbor * list action) :=
  c ← read_at mem 0;
  text ← read_bytes mem 2 s;
  buffer ← cstr (text ++ [0]);
  let '(fd, id) := scan_two buffer in
  if bool_decide (fd = 0 \/ id <= 0 \/ id >= REMOTE_MAX) then
    Ret (h, [LogError (bytes_of "Invalid command " ++ [c; 32] ++ buffer)])
  else
    slave ← read_at (h_s h) id;
    if bool_decide (s_fd slave <> 0) then
      Ret (h, [LogError (bytes_of "Harbor " ++ print_int id ++ bytes_of " alreay exist")])
    else
      h ← set_slave h id (set_fd slave fd);
      a ← handshake h id;
      if bool_decide (c = 83) then
        h ← set_slave h id (set_status (set_fd slave fd) STATUS_HANDSHAKE);
        Ret (h, SocketStart fd :: a)
      else
        h ← set_slave h id (set_status (set_fd slave fd) STATUS_HEADER);
        '(h, sent) ← dispatch_queue h id;
        Ret (h, SocketStart fd :: a ++ sent).

(** [mem] is the memory from the message on, of which [sz] bytes are the message. *)
Definition harbor_command (h : harbor) (mem : list Z) (sz : Z) (source : Z)
  : outcome (harbor * list action) :=
  let s := i32 sz - 2 in
  c ← read_at mem 0;
  if bool_decide (c = 78) then command_name h mem s source
  else if bool_decide (c = 83 \/ c = 65) then command_connect h mem s
  else
    text ← cstring mem 0;
    Ret (h, [LogError (bytes_of "Unknown command " ++ text)]).

(** 0 when no slot has this socket. *)
Definition harbor_id (h : harbor) (fd : Z) : Z :=
  match find_fd h fd with Some i => Z.of_nat i | None => 0 end.

(** [struct remote_message], of src/include/skynet_harbor.h. *)
Record remote_message := mk_remote_message {
  rm_name : list Z;
  rm_handle : Z;
  rm_message : list Z
}.

Inductive harbor_message :=
| MsgSocket (m : socket_message)
| MsgCommand (mem : list Z) (sz source : Z)
| MsgRemote (source type session : Z) (rmsg : remote_message).

Definition mainloop_socket (h : harbor) (m : socket_message) : outcome (harbor * list action) :=
  if bool_decide (sm_type m = SKYNET_SOCKET_TYPE_DATA) then
    '(h, freed, a) ← push_socket_data h m;
    if freed : bool then Crash BadFree
    else Ret (h, a ++ [Free (default [] (sm_buffer m))])
  else if bool_decide (sm_type m = SKYNET_SOCKET_TYPE_ERROR \/
                       sm_type m = SKYNET_SOCKET_TYPE_CLOSE) then
    let id := harbor_id h (sm_id m) in
    if bool_decide (id <> 0) then Ret (h, report_harbor_down h id)
    else Ret (h, [LogError (bytes_of "Unkown fd (" ++ print_int (sm_id m) ++ bytes_of ") closed")])
  else if bool_decide (sm_type m = SKYNET_SOCKET_TYPE_CONNECT) then Ret (h, [])
  else Ret (h, [LogError (bytes_of "recv invalid socket message type " ++ print_int PTYPE_SOCKET)]).

Definition mainloop_remote (h : harbor) (source type session : Z) (rmsg : remote_message)
  : outcome (harbor * list action) :=
  '(taken, h, a) ←
    (if bool_decide (rm_handle rmsg = 0)
     then remote_send_name h source (rm_name rmsg) type session (rm_message rmsg)
     else remote_send_handle h source (rm_handle rmsg) type session (rm_message rmsg));
  if bool_decide (taken <> 0) then Ret (h, a) else Ret (h, a ++ [Free (rm_message rmsg)]).

Definition mainloop (h : harbor) (msg : harbor_message) : outcome (harbor * list action) :=
  match msg with
  | MsgSocket m => mainloop_socket h m
  | MsgCommand mem sz source => harbor_command h mem sz source
  | MsgRemote source type session rmsg => mainloop_remote h source type session rmsg
  end.

(** [sscanf(args, "%d %u", ...)]; the result 1 is a failure. *)
Definition harbor_init (h : harbor) (args : list Z) : Z * harbor * list action :=
  let '(id, slave) := scan_two args in
  let slave := u32 slave in
  if bool_decide (slave = 0) then (1, h, [])
  else (0, mk_harbor id slave (h_map h) (h_s h), [SetCallback; HarborStart]).

(** A run of messages. *)
Fixpoint harbor_run (h : harbor) (msgs : list harbor_message) : outcome (harbor * list action) :=
  match msgs with
  | [] => Ret (h, [])
  | m :: msgs =>
    '(h, a) ← mainloop h m;
    '(h, rest) ← harbor_run h msgs;
    Ret (h, a ++ rest)
  end.
End harbor.

Definition yes : Z -> Z -> Z -> Z -> list Z -> Z := fun _ _ _ _ _ => 0.
Definition demo_harbor : harbor := snd (fst (harbor_init harbor_create (bytes_of "1 16777218"))).
(** A chunk [d] of what arrives on socket [fd]. *)
Definition data_message (fd : Z) (d : list Z) : harbor_message :=
  MsgSocket (mk_socket_message SKYNET_SOCKET_TYPE_DATA fd (Z.of_nat (length d)) (Some d) []).
Definition demo_name : list Z := bytes_of "NAME" ++ replicate 12 0.

(** The message that waited for its name goes out without the service part. *)
Example demo_run :
  match harbor_run yes demo_harbor
    [MsgRemote 5 10 7 (mk_remote_message demo_name 0 [65]);
     MsgCommand (bytes_of "N NAME") 6 (0x2000005);
     MsgCommand (bytes_of "A 9 2") 5 3;
     MsgRemote 5 10 7 (mk_remote_message demo_name 0 [65]);
     data_message 9 [0; 0; 0; 13; 66; 0; 0; 0; 1; 10]; data_message 9 [0; 0; 9; 0; 0; 0; 3]]
  with Ret (_, acts) => acts | _ => [] end =
  [Send 0 16777218 PTYPE_TEXT 0 (bytes_of "Q NAME"); SocketStart 9; SocketSend 9 [1];
   SocketSend 9 [0; 0; 0; 13; 65; 0; 0; 0; 5; 10; 0; 0; 0; 0; 0; 0; 7];
   SocketSend 9 [0; 0; 0; 13; 65; 0; 0; 0; 5; 10; 0; 0; 5; 0; 0; 0; 7]; Free [65];
   Free [0; 0; 0; 13; 66; 0; 0; 0; 1; 10];
   Send 1 16777225 65546 3 [66]; Free [0; 0; 9; 0; 0; 0; 3]].
Proof. vm_compute. done. Qed.

Lemma DEFAULT_pos : (0 < DEFAULT_QUEUE_SIZE)%nat.
Proof. unfold DEFAULT_QUEUE_SIZE. lia. Qed.

#[global] Opaque DEFAULT_QUEUE_SIZE.

(** ** Queues: a ring that grows *)

(** [q] holds [l]; one slot stays free. *)
Record queue_repr (q : harbor_msg_queue) (l : list harbor_msg) : Prop := {
  qr_data : length (q_data q) = q_size q;
  qr_head : (q_head q < q_size q)%nat;
  qr_len : (length l < q_size q)%nat;
  qr_tail : q_tail q = ((q_head q + length l) mod q_size q)%nat;
  qr_items : ring_items (q_data q) (q_head q) (length l) = l
}.

Definition opt_repr (q : option harbor_msg_queue) (l : list harbor_msg) : Prop :=
  match q with Some q => queue_repr q l | None => l = [] end.

Lemma new_queue_repr : queue_repr new_queue [].
Proof.
  pose proof DEFAULT_pos. split; cbn [q_data q_size q_head q_tail new_queue length]; try done.
Qed.

Lemma opt_repr_new q l : opt_repr q l -> queue_repr (default new_queue q) l.
Proof. destruct q as [q|]; [done|]. intros ->. apply new_queue_repr. Qed.

(** Writing the slot at the tail of a ring with two slots free. *)
Lemma push_slot q l m : queue_repr q l -> (S (length l) < q_size q)%nat ->
  exists data : list harbor_msg, write_at (q_data q) (Z.of_nat (q_tail q)) m = Ret data /\
    queue_repr (mk_queue (q_size q) (q_head q) ((q_tail q + 1) mod q_size q) data) (l ++ [m]).
Proof.
  intros [Hd Hh Hl Ht Hi] Hroom.
  assert (Htl : (q_tail q < q_size q)%nat) by (rewrite Ht; apply Nat.mod_upper_bound; lia).
  exists (<[q_tail q := m]> (q_data q)). split; [by rewrite write_at_lt by lia|].
  split; cbn [q_data q_size q_head q_tail].
  - by rewrite length_insert.
  - done.
  - rewrite length_app. simpl. lia.
  - rewrite Ht, length_app, Nat.Div0.add_mod_idemp_l. simpl. f_equal. lia.
  - rewrite length_app. simpl length. rewrite Nat.add_1_r, Ht, <- Hd, ring_items_push by lia.
    by rewrite Hi.
Qed.

Lemma full_iff q l : queue_repr q l ->
  ((q_tail q + 1) mod q_size q)%nat = q_head q <-> S (length l) = q_size q.
Proof.
  intros [_ Hh Hl Ht _]. rewrite Ht, Nat.Div0.add_mod_idemp_l.
  replace (q_head q + length l + 1)%nat with (q_head q + S (length l))%nat by lia. split.
  - intros Heq. destruct (decide (S (length l) = q_size q)) as [|Hne]; [done|].
    exfalso. apply (ring_pos_ne (q_head q) 0 (S (length l)) (q_size q)); [lia|lia|].
    by rewrite Nat.add_0_r, (Nat.mod_small (q_head q)) by done.
  - intros ->. replace (q_head q + q_size q)%nat with (q_head q + 1 * q_size q)%nat by lia.
    rewrite Nat.Div0.mod_add. by apply Nat.mod_small.
Qed.

Lemma push_queue_msg_repr q l m : queue_repr q l -> Z.of_nat (length l) + 1 < 2 ^ 30 ->
  exists q', push_queue_msg q m = Ret q' /\ queue_repr q' (l ++ [m]).
Proof.
  intros Hq Hlt. unfold push_queue_msg. pose proof (full_iff q l Hq) as Hfull.
  destruct (bool_decide_reflect (((q_tail q + 1) mod q_size q)%nat = q_head q)) as [Hf|Hf].
  - apply Hfull in Hf. rewrite bool_decide_true by lia. rewrite bind_Ret.
    destruct Hq as [Hd Hh Hl Ht Hi].
    replace (q_size q - 1)%nat with (length l) by lia. rewrite Hi.
    set (q2 := mk_queue (q_size q * 2) 0 (length l) (l ++ replicate (q_size q * 2 - length l) inhabitant)).
    assert (Hq2 : queue_repr q2 l).
    { unfold q2. split; cbn [q_data q_size q_head q_tail]; [|lia|lia| |apply ring_items_flat].
      - rewrite length_app, length_replicate. lia.
      - by rewrite Nat.mod_small by lia. }
    destruct (push_slot q2 l m Hq2) as (data & Hw & Hr); [unfold q2; simpl; lia|].
    rewrite Hw, bind_Ret. eauto.
  - rewrite bind_Ret. destruct (push_slot q l m Hq) as (data & Hw & Hr).
    { destruct Hq as [? ? ? ? ?]. lia. }
    rewrite Hw, bind_Ret. eauto.
Qed.

Lemma pop_queue_nil q : queue_repr q [] -> pop_queue q = Ret (None, q).
Proof.
  intros [_ Hh _ Ht _]. unfold pop_queue. rewrite bool_decide_true; [done|].
  rewrite Ht, Nat.add_0_r. by rewrite Nat.mod_small.
Qed.

Lemma pop_queue_cons q m l : queue_repr q (m :: l) ->
  exists q', pop_queue q = Ret (Some m, q') /\ queue_repr q' l /\ q_size q' = q_size q.
Proof.
  intros [Hd Hh Hl Ht Hi]. cbn [length] in *. unfold pop_queue.
  rewrite bool_decide_false.
  2:{ rewrite Ht. intros Heq. apply (ring_pos_ne (q_head q) 0 (S (length l)) (q_size q)); [lia|lia|].
      by rewrite Nat.add_0_r, (Nat.mod_small (q_head q)) by done. }
  rewrite ring_items_cons in Hi by lia. injection Hi as Hm Hr.
  rewrite (read_at_Some _ _ m).
  2:{ rewrite <- Hm. apply list_lookup_lookup_total_lt. lia. }
  rewrite bind_Ret. eexists. split; [done|]. split; [|done].
  split; cbn [q_data q_size q_head q_tail]; [done|apply Nat.mod_upper_bound; lia|lia| |].
  - rewrite Ht, Nat.Div0.add_mod_idemp_l. f_equal. lia.
  - by rewrite <- Hd.
Qed.

Lemma drain_loop_repr l : forall fuel q, queue_repr q l -> (length l < fuel)%nat ->
  exists q', drain_loop fuel q = Ret (l, q') /\ queue_repr q' [].
Proof.
  induction l as [|m l IH]; intros fuel q Hq Hf; (destruct fuel as [|fuel]; [lia|]); cbn [drain_loop].
  - step_with (pop_queue_nil q Hq). eauto.
  - destruct (pop_queue_cons q m l Hq) as (q1 & He & Hq1 & _). rewrite He, bind_Ret.
    destruct (IH fuel q1 Hq1) as (q' & Hd & Hq'); [simpl in Hf; lia|].
    rewrite Hd, bind_Ret. eauto.
Qed.

Lemma drain_repr q l : queue_repr q l -> exists q', drain q = Ret (l, q') /\ queue_repr q' [].
Proof. intros Hq. apply drain_loop_repr; [done|]. by destruct Hq. Qed.

Lemma release_queue_repr q l : opt_repr q l ->
  release_queue q = Ret (map (fun m => Free (hm_buffer m)) l).
Proof.
  destruct q as [q|]; cbn [opt_repr release_queue]; [|by intros ->].
  intros Hq. destruct (drain_repr q l Hq) as (q' & He & _). by rewrite He, bind_Ret.
Qed.

Lemma push_all_repr ms : forall q l, queue_repr q l ->
  Z.of_nat (length l + length ms) < 2 ^ 30 ->
  exists q', push_all q ms = Ret q' /\ queue_repr q' (l ++ ms).
Proof.
  induction ms as [|m ms IH]; intros q l Hq Hlt; cbn [push_all].
  - rewrite app_nil_r. eauto.
  - destruct (push_queue_msg_repr q l m Hq) as (q1 & He & Hq1); [simpl in Hlt; lia|].
    rewrite He, bind_Ret. destruct (IH q1 (l ++ [m]) Hq1) as (q' & He' & Hq').
    { rewrite length_app. simpl in *. lia. }
    rewrite <- app_assoc in Hq'. eauto.
Qed.

(** ** The wire *)

Definition header_ok (hd : remote_message_header) : Prop :=
  is_u32 (rh_source hd) /\ is_u32 (rh_destination hd) /\ is_u32 (rh_session hd).

(** A message that fits the 24 bits of the length. *)
Definition msg_ok (m : harbor_msg) : Prop :=
  header_ok (hm_header m) /\ Bytes (hm_buffer m) /\ Z.of_nat (length (hm_buffer m)) + 12 < 2 ^ 24.

Definition header_bytes (hd : remote_message_header) : list Z :=
  be_bytes 4 (rh_source hd) ++ be_bytes 4 (rh_destination hd) ++ be_bytes 4 (rh_session hd).

Definition payload (m : harbor_msg) : list Z := hm_buffer m ++ header_bytes (hm_header m).

Definition frame (m : harbor_msg) : list Z :=
  be_bytes 4 (Z.of_nat (length (payload m))) ++ payload m.

Lemma to_bigendian_be n : to_bigendian n = be_bytes 4 n.
Proof.
  unfold to_bigendian, be_bytes. change 0xff with 255. rewrite !land_255, !shiftr_div by lia.
  cbn [le_bytes rev app]. rewrite !Z.div_div by lia. done.
Qed.

Lemma header_to_message_be hd : header_to_message hd = header_bytes hd.
Proof. unfold header_to_message. by rewrite !to_bigendian_be. Qed.

Lemma length_header_bytes hd : length (header_bytes hd) = 12%nat.
Proof. unfold header_bytes. by rewrite !length_app, !length_be_bytes. Qed.

Lemma length_payload m : length (payload m) = (length (hm_buffer m) + 12)%nat.
Proof. unfold payload. by rewrite length_app, length_header_bytes. Qed.

(** Four bytes put together by shifts. *)
Lemma be_word a b c d : is_byte a -> is_byte b -> is_byte c -> is_byte d ->
  Z.lor (Z.lor (Z.lor (Z.shiftl a 24) (Z.shiftl b 16)) (Z.shiftl c 8)) d = be_value [a; b; c; d].
Proof.
  unfold is_byte. intros Ha Hb Hc Hd. cbn [be_value rev app le_value].
  change (be_value [a; b; c; d]) with (d + 256 * (c + 256 * (b + 256 * (a + 256 * 0)))).
  assert (E1 : Z.lor (Z.shiftl a 24) (Z.shiftl b 16) = (b + 256 * a) * 2 ^ 16).
  { change 24 with (8 + 16). rewrite <- Z.shiftl_shiftl, <- Z.shiftl_lor, Z.lor_comm by lia.
    rewrite lor_shiftl_add by lia. rewrite Z.shiftl_mul_pow2 by lia. lia. }
  assert (E2 : Z.lor (Z.lor (Z.shiftl a 24) (Z.shiftl b 16)) (Z.shiftl c 8) =
               (c + 256 * (b + 256 * a)) * 2 ^ 8).
  { rewrite E1. replace ((b + 256 * a) * 2 ^ 16) with (Z.shiftl (Z.shiftl (b + 256 * a) 8) 8)
      by (rewrite !Z.shiftl_mul_pow2 by lia; lia).
    rewrite <- Z.shiftl_lor, Z.lor_comm, lor_shiftl_add, Z.shiftl_mul_pow2 by lia. lia. }
  rewrite E2, <- Z.shiftl_mul_pow2, Z.lor_comm, lor_shiftl_add by lia. lia.
Qed.

(** A list of four bytes, by name. *)
Lemma four_bytes l : length l = 4%nat -> Bytes l ->
  exists a b c d, l = [a; b; c; d] /\ is_byte a /\ is_byte b /\ is_byte c /\ is_byte d.
Proof.
  intros Hl HB. destruct l as [|a [|b [|c [|d [|]]]]]; try done.
  apply Forall_cons in HB as [Ha HB]. apply Forall_cons in HB as [Hb HB].
  apply Forall_cons in HB as [Hc HB]. apply Forall_cons in HB as [Hd _]. eauto 10.
Qed.

#[export] Hint Rewrite length_header_bytes length_payload : sizes.

Lemma from_bigendian_be n : is_u32 n -> from_bigendian (be_bytes 4 n) = n.
Proof.
  intros Hn. pose proof (be_value_be_bytes 4 n) as Hv.
  destruct (four_bytes (be_bytes 4 n)) as (a & b & c & d & He & Ha & Hb & Hc & Hd);
    [apply length_be_bytes|apply be_bytes_Bytes|].
  rewrite He in *. unfold from_bigendian. cbn [lookup_total list_lookup_total].
  rewrite be_word, Hv by done. apply Z.mod_small. exact Hn.
Qed.

Lemma message_to_header_bytes hd : header_ok hd -> message_to_header (header_bytes hd) = hd.
Proof.
  intros (Hs & Hd & Hn). unfold message_to_header, header_bytes.
  rewrite (take_app_length' (be_bytes 4 (rh_source hd))) by by rewrite length_be_bytes.
  rewrite (drop_app_length' (be_bytes 4 (rh_source hd))) by by rewrite length_be_bytes.
  rewrite (take_app_length' (be_bytes 4 (rh_destination hd))) by by rewrite length_be_bytes.
  rewrite app_assoc, drop_app_length' by by rewrite length_app, !length_be_bytes.
  rewrite take_ge by by rewrite length_be_bytes.
  rewrite !from_bigendian_be by done. by destruct hd.
Qed.

(** What [send_remote] sends, whenever the size fits [uint32_t]. *)
Lemma send_remote_frame fd buf hd : Z.of_nat (length buf) + 16 < 2 ^ 32 ->
  send_remote fd buf hd = Ret [SocketSend fd (frame (mk_harbor_msg hd buf))].
Proof.
  intros Hl. unfold send_remote, HEADER_COOKIE_LENGTH.
  rewrite (u32_small (Z.of_nat (length buf) + 12)) by (unfold is_u32; lia).
  rewrite (u32_small (Z.of_nat (length buf) + 12 + 4)) by (unfold is_u32; lia).
  rewrite to_bigendian_be, header_to_message_be.
  set (z := replicate _ 0). assert (Hz : length z = (length buf + 16)%nat)
    by (unfold z; size_lia).
  rewrite write_front, bind_Ret by size_lia. rewrite length_be_bytes.
  rewrite write_append, bind_Ret by size_lia.
  rewrite write_append, bind_Ret by size_lia.
  rewrite (drop_ge (drop (length buf) _)) by size_lia.
  rewrite app_nil_r. unfold frame. rewrite length_payload. unfold payload. cbn [hm_buffer hm_header].
  rewrite <- app_assoc. do 4 f_equal. f_equal. lia.
Qed.

Lemma msg_ok_fits m : msg_ok m -> Z.of_nat (length (hm_buffer m)) + 16 < 2 ^ 32.
Proof. intros (_ & _ & H). lia. Qed.

Lemma send_all_frames fd ms : Forall msg_ok ms ->
  send_all fd ms = Ret (map (fun m => SocketSend fd (frame m)) ms).
Proof.
  induction 1 as [|m ms Hm _ IH]; [done|]. cbn [send_all map].
  rewrite send_remote_frame, bind_Ret, IH by by apply msg_ok_fits. by destruct m.
Qed.

Lemma payload_range m : msg_ok m -> 12 <= Z.of_nat (length (payload m)) < 2 ^ 24.
Proof. intros (_ & _ & H). rewrite length_payload. lia. Qed.

(** The length of a frame that fits is put together again. *)
Lemma frame_length m : msg_ok m ->
  let bs := be_bytes 4 (Z.of_nat (length (payload m))) in
  bs !!! 0%nat = 0 /\
  Z.lor (Z.lor (Z.shiftl (bs !!! 1%nat) 16) (Z.shiftl (bs !!! 2%nat) 8)) (bs !!! 3%nat) =
    Z.of_nat (length (payload m)).
Proof.
  intros Hm. pose proof (payload_range m Hm) as Hr. cbv zeta.
  set (n := Z.of_nat (length (payload m))) in *. pose proof (be_value_be_bytes 4 n) as Hv.
  destruct (four_bytes (be_bytes 4 n)) as (a & b & c & d & He & Ha & Hb & Hc & Hd);
    [apply length_be_bytes|apply be_bytes_Bytes|].
  rewrite He in *. cbn [lookup_total list_lookup_total].
  rewrite Z.mod_small in Hv by (simpl; lia).
  assert (Ha0 : a = 0).
  { change (be_value [a; b; c; d]) with (d + 256 * (c + 256 * (b + 256 * (a + 256 * 0)))) in Hv.
    unfold is_byte in *. lia. }
  subst a. split; [done|]. rewrite <- Hv, <- be_word by done.
  by rewrite Z.shiftl_0_l, Z.lor_0_l.
Qed.

(** ** A connection *)

(** Filling a buffer from its start. *)
Lemma write_fill (buf bs : list Z) (k : nat) : (k + length bs <= length buf)%nat ->
  exists buf', write_bytes buf (Z.of_nat k) bs = Ret buf' /\ length buf' = length buf /\
    take (k + length bs) buf' = take k buf ++ bs.
Proof.
  intros Hk. unfold write_bytes. rewrite decide_True by lia. rewrite Nat2Z.id.
  eexists. split; [done|]. split.
  - rewrite !length_app, length_take, length_drop. lia.
  - rewrite app_assoc, take_app_length'; [done|]. rewrite length_app, length_take. lia.
Qed.

Abbreviation framed ms := (concat (map frame ms)).

(** Slot [s] has read so much of a stream of frames that [todo] is to come, of which
    [ms] are the messages that are not complete. *)
Inductive link_state (s : slave) : list harbor_msg -> list Z -> Prop :=
| link_header ms k todo : s_status s = STATUS_HEADER -> s_read s = Z.of_nat k -> (k < 4)%nat ->
    length (s_size s) = 4%nat -> take k (s_size s) ++ todo = framed ms -> link_state s ms todo
| link_content m ms k recv rest : s_status s = STATUS_CONTENT -> s_read s = Z.of_nat k ->
    (k < length (payload m))%nat -> s_length s = Z.of_nat (length (payload m)) ->
    s_recv_buffer s = Some recv -> length recv = length (payload m) ->
    length (s_size s) = 4%nat -> take k recv ++ rest = payload m ->
    link_state s (m :: ms) (rest ++ framed ms).

(** What a slot keeps whatever arrives. *)
Definition same_link (s s' : slave) : Prop := s_fd s' = s_fd s /\ s_queue s' = s_queue s.

#[export] Instance same_link_preorder : PreOrder same_link.
Proof.
  split; [by intros s|]. intros s1 s2 s3 [H1 H2] [H3 H4]. split; congruence.
Qed.

Section link.
Context (skynet_send : Z -> Z -> Z -> Z -> list Z -> Z).

(** The call for a message that has arrived at [h], and what follows when there is no
    such service. *)
Definition delivery (h : harbor) (m : harbor_msg) : list action :=
  let hd := hm_header m in
  let dest := Z.lor (handle_local (rh_destination hd)) (u32 (Z.shiftl (u32 (h_id h)) 24)) in
  let type := Z.lor (handle_harbor (rh_destination hd)) PTYPE_TAG_DONTCOPY in
  let session := i32 (rh_session hd) in
  Send (rh_source hd) dest type session (hm_buffer m) ::
  (if bool_decide (skynet_send (rh_source hd) dest type session (hm_buffer m) < 0)
   then [Send dest (rh_source hd) PTYPE_ERROR session [];
         LogError (bytes_of "Unknown destination :" ++ print_hex dest ++
                   bytes_of " from :" ++ print_hex (rh_source hd))]
   else []).

Lemma forward_delivers h m : msg_ok m ->
  forward_local_messsage skynet_send h (payload m) (Z.of_nat (length (payload m))) =
    Ret (delivery h m).
Proof.
  intros Hm. pose proof Hm as (Hh & _ & _). unfold forward_local_messsage, HEADER_COOKIE_LENGTH.
  rewrite length_payload. unfold payload.
  replace (Z.of_nat (length (hm_buffer m) + 12) - 12) with (Z.of_nat (length (hm_buffer m))) by lia.
  rewrite (read_bytes_at (hm_buffer m) (header_bytes (hm_header m)) _ 12)
    by (rewrite ?length_header_bytes; done).
  rewrite bind_Ret, message_to_header_bytes by done.
  rewrite read_prefix, bind_Ret by done. unfold delivery, handle_local, handle_harbor, HANDLE_REMOTE_SHIFT.
  by destruct (bool_decide _).
Qed.

Lemma set_slave_eq h id s s' : h_s h !! id = Some s ->
  set_slave h (Z.of_nat id) s' = Ret (set_slaves h (<[id := s']> (h_s h))).
Proof.
  intros Hs. unfold set_slave. apply lookup_lt_Some in Hs. by rewrite write_at_lt, bind_Ret.
Qed.

Lemma content_step h id s m ms k recv rest buffer fut :
  h_s h !! id = Some s -> msg_ok m ->
  s_status s = STATUS_CONTENT -> s_read s = Z.of_nat k ->
  (k < length (payload m))%nat -> s_length s = Z.of_nat (length (payload m)) ->
  s_recv_buffer s = Some recv -> length recv = length (payload m) ->
  length (s_size s) = 4%nat -> take k recv ++ rest = payload m ->
  buffer ++ fut = rest ++ framed ms ->
  exists n s' acts ms',
    content_case skynet_send h (Z.of_nat id) buffer =
      Ret (n, set_slaves h (<[id := s']> (h_s h)), acts) /\ same_link s s' /\
    ((n = Return /\ ms' = m :: ms /\ acts = [] /\ link_state s' ms' fut) \/
     (n = Return /\ ms' = ms /\ acts = delivery h m /\ link_state s' ms' fut) \/
     (exists buffer', n = Go buffer' /\ (length buffer' < length buffer)%nat /\
        ms' = ms /\ acts = delivery h m /\ s_status s' = STATUS_HEADER /\
        link_state s' ms' (buffer' ++ fut))).
Proof.
  intros Hs Hm Hst Hrd Hk Hlen Hrecv Hrl Hsz Hpay Hbuf.
  assert (Hrest : length rest = (length (payload m) - k)%nat).
  { rewrite <- Hpay, length_app, length_take. lia. }
  unfold content_case. rewrite (read_at_Some _ _ s Hs), bind_Ret, Hlen, Hrd, Hrecv.
  change (default [] (Some recv)) with recv.
  destruct (bool_decide_reflect (Z.of_nat (length buffer) <
    Z.of_nat (length (payload m)) - Z.of_nat k)) as [Hlt|Hge].
  - destruct (write_fill recv buffer k) as (recv' & Hw & Hl' & Ht'); [lia|].
    rewrite Hw, bind_Ret, (set_slave_eq _ _ _ _ Hs), bind_Ret.
    exists Return. do 3 eexists. split; [done|]. split; [done|]. left. split_and!; [done..|].
    assert (Hb : buffer ++ drop (length buffer) rest = rest).
    { replace buffer with (take (length buffer) rest) at 1; [apply take_drop|].
      rewrite <- (take_app_le rest (framed ms)) by lia. by rewrite <- Hbuf, take_app_length. }
    assert (Hfut : fut = drop (length buffer) rest ++ framed ms).
    { rewrite <- Hb in Hbuf at 1. rewrite <- app_assoc in Hbuf. by apply app_inv_head in Hbuf. }
    rewrite Hfut. apply (link_content _ m ms (k + length buffer) recv'); cbn; try done; try lia.
    by rewrite Ht', <- app_assoc, Hb.
  - replace (Z.to_nat _) with (length rest) by lia.
    assert (Htk : take (length rest) buffer = rest).
    { rewrite <- (take_app_le buffer fut) by lia. by rewrite Hbuf, take_app_length. }
    assert (Hdr : drop (length rest) buffer ++ fut = framed ms).
    { rewrite <- (drop_app_le buffer fut) by lia. by rewrite Hbuf, drop_app_length. }
    rewrite Htk. destruct (write_fill recv rest k) as (recv' & Hw & Hl' & Ht'); [lia|].
    rewrite Hw, bind_Ret. rewrite take_ge in Ht' by lia. rewrite Ht', Hpay.
    rewrite forward_delivers, bind_Ret, (set_slave_eq _ _ _ _ Hs), bind_Ret by done.
    set (s' := set_link s STATUS_HEADER 0 0 (s_size s) None).
    assert (Hl : link_state s' ms (drop (length rest) buffer ++ fut)).
    { apply (link_header _ _ 0); cbn; try done; try lia. }
    do 4 eexists. split; [done|]. split; [done|]. right.
    destruct (bool_decide_reflect (length (drop (length rest) buffer) = 0%nat)) as [H0|H0].
    + left. split_and!; [done..|]. apply nil_length_inv in H0. by rewrite H0 in Hl.
    + right. eexists. split_and!; try done. rewrite length_drop. lia.
Qed.
Lemma framed_head ms pre rest : pre ++ rest = framed ms -> Forall msg_ok ms -> length pre = 4%nat ->
  exists m ms', ms = m :: ms' /\ pre = be_bytes 4 (Z.of_nat (length (payload m))) /\
    rest = payload m ++ framed ms'.
Proof.
  intros He Hms Hp. destruct ms as [|m ms].
  { cbn in He. apply app_eq_nil in He as [-> _]. done. }
  cbn [map concat] in He. unfold frame in He. rewrite <- app_assoc in He.
  apply app_inj_1 in He as [-> ->]; [eauto|]. by rewrite length_be_bytes.
Qed.

Lemma header_step h id s ms k todo buffer fut :
  h_s h !! id = Some s -> Forall msg_ok ms ->
  s_status s = STATUS_HEADER -> s_read s = Z.of_nat k -> (k < 4)%nat ->
  length (s_size s) = 4%nat -> take k (s_size s) ++ todo = framed ms -> buffer ++ fut = todo ->
  exists n s',
    header_case h (Z.of_nat id) buffer = Ret (n, set_slaves h (<[id := s']> (h_s h)), []) /\
    same_link s s' /\
    ((n = Return /\ link_state s' ms fut) \/
     (exists buffer', n = Go buffer' /\ (length buffer' < length buffer)%nat /\
        s_status s' = STATUS_CONTENT /\ link_state s' ms (buffer' ++ fut))).
Proof.
  intros Hs Hms Hst Hrd Hk Hsz Htake <-.
  unfold header_case. rewrite (read_at_Some _ _ s Hs), bind_Ret, Hrd. cbv zeta.
  destruct (bool_decide_reflect (Z.of_nat (length buffer) < 4 - Z.of_nat k)) as [Hlt|Hge].
  - destruct (write_fill (s_size s) buffer k) as (bs & Hw & Hl & Ht); [lia|].
    rewrite Hw, bind_Ret, (set_slave_eq _ _ _ _ Hs), bind_Ret.
    do 2 eexists. split; [done|]. split; [done|]. left. split; [done|].
    apply (link_header _ _ (k + length buffer)); cbn; try done; try lia.
    by rewrite Ht, <- app_assoc.
  - replace (Z.to_nat (4 - Z.of_nat k)) with (4 - k)%nat by lia.
    destruct (write_fill (s_size s) (take (4 - k) buffer) k) as (bs & Hw & Hl & Ht);
      [size_lia|].
    rewrite Hw, bind_Ret. rewrite take_ge in Ht by size_lia.
    assert (Hall : bs ++ (drop (4 - k) buffer ++ fut) = framed ms).
    { rewrite Ht, <- Htake, <- app_assoc. f_equal. rewrite app_assoc. by rewrite take_drop. }
    destruct (framed_head ms bs _ Hall Hms) as (m & ms' & -> & Hbs & Hrest); [lia|].
    apply Forall_cons in Hms as [Hm Hms]. destruct (frame_length m Hm) as [H0 Hlen].
    rewrite Hbs, H0, Hlen, bool_decide_false by congruence.
    rewrite (set_slave_eq _ _ _ _ Hs), bind_Ret, Nat2Z.id.
    match goal with |- context [<[id := ?x]> _] => set (s' := x) end.
    assert (Hp : (0 < length (payload m))%nat) by size_lia.
    assert (Hl' : link_state s' (m :: ms') (drop (4 - k) buffer ++ fut)).
    { rewrite Hrest. apply (link_content _ m ms' 0 (replicate (length (payload m)) 0));
        cbn; try done; try lia. apply length_replicate. }
    do 2 eexists. split; [done|]. split; [done|].
    destruct (bool_decide_reflect (length (drop (4 - k) buffer) = 0%nat)) as [Hz|Hz].
    + left. apply nil_length_inv in Hz. by rewrite Hz in Hl'.
    + right. eexists. split_and!; try done. rewrite length_drop in *. lia.
Qed.

(** What a round and its successors do to a connection. *)
Definition delivers (h : harbor) (id : nat) (s : slave) (ms : list harbor_msg) (fut : list Z)
    (r : outcome (harbor * list action)) : Prop :=
  exists ms1 ms2 s', ms = ms1 ++ ms2 /\
    r = Ret (set_slaves h (<[id := s']> (h_s h)), concat (map (delivery h) ms1)) /\
    same_link s s' /\ link_state s' ms2 fut.

Lemma delivers_step h id s s1 ms1 ms fut r :
  same_link s s1 ->
  delivers (set_slaves h (<[id := s1]> (h_s h))) id s1 ms fut r ->
  delivers h id s (ms1 ++ ms) fut
    ('(h1, rest) ← r; Ret (h1, concat (map (delivery h) ms1) ++ rest)).
Proof.
  intros H1 (msa & msb & s' & -> & -> & H2 & Hl). exists (ms1 ++ msa), msb, s'.
  split; [by rewrite app_assoc|]. split; [|split; [by transitivity s1|done]].
  rewrite bind_Ret. cbn [h_s set_slaves]. rewrite list_insert_insert_eq, map_app, concat_app. done.
Qed.

Lemma content_round (again : harbor -> list Z -> outcome (harbor * list action)) h id s ms buffer fut :
  h_s h !! id = Some s -> Forall msg_ok ms -> s_status s = STATUS_CONTENT ->
  link_state s ms (buffer ++ fut) ->
  (forall h1 s1 ms1 b1, h_s h1 !! id = Some s1 -> Forall msg_ok ms1 ->
    s_status s1 = STATUS_HEADER -> (length b1 < length buffer)%nat ->
    link_state s1 ms1 (b1 ++ fut) -> delivers h1 id s1 ms1 fut (again h1 b1)) ->
  delivers h id s ms fut (r ← content_case skynet_send h (Z.of_nat id) buffer; and_then r again).
Proof.
  intros Hs Hms Hst Hl Hagain. pose proof (lookup_lt_Some _ _ _ Hs) as Hid.
  remember (buffer ++ fut) as todo eqn:Htodo.
  destruct Hl as [ms k todo Hst'|m ms k recv rest Hst' Hrd Hk Hlen Hrecv Hrl Hsz Hpay];
    [by rewrite Hst in Hst'|].
  apply Forall_cons in Hms as [Hm Hms].
  destruct (content_step h id s m ms k recv rest buffer fut Hs Hm Hst Hrd Hk Hlen Hrecv Hrl Hsz
    Hpay (eq_sym Htodo)) as (n & s' & acts & ms' & He & Hsame & Hc).
  rewrite He, bind_Ret. destruct Hc as [(-> & -> & -> & Hl)|[(-> & -> & -> & Hl)|
    (b' & -> & Hb & -> & -> & Hst1 & Hl)]]; cbn [and_then].
  - exists [], (m :: ms), s'. done.
  - exists [m], ms, s'. cbn [map concat]. rewrite app_nil_r. done.
  - change (m :: ms) with ([m] ++ ms).
    replace (delivery h m) with (concat (map (delivery h) [m])) by apply app_nil_r.
    apply (delivers_step h id s s' [m]); [done|]. apply Hagain; try done.
    by apply list_lookup_insert_eq.
Qed.

Lemma header_round (content : harbor -> list Z -> outcome (harbor * list action)) h id s ms buffer fut :
  h_s h !! id = Some s -> Forall msg_ok ms -> s_status s = STATUS_HEADER ->
  link_state s ms (buffer ++ fut) ->
  (forall h1 s1 b1, h_s h1 !! id = Some s1 -> s_status s1 = STATUS_CONTENT ->
    (length b1 < length buffer)%nat ->
    link_state s1 ms (b1 ++ fut) -> delivers h1 id s1 ms fut (content h1 b1)) ->
  delivers h id s ms fut (r ← header_case h (Z.of_nat id) buffer; and_then r content).
Proof.
  intros Hs Hms Hst Hl Hcont. pose proof (lookup_lt_Some _ _ _ Hs) as Hid.
  remember (buffer ++ fut) as todo eqn:Htodo.
  destruct Hl as [ms k todo Hst' Hrd Hk Hsz Htake|????? Hst']; [|by rewrite Hst in Hst'].
  destruct (header_step h id s ms k todo buffer fut Hs Hms Hst Hrd Hk Hsz Htake (eq_sym Htodo))
    as (n & s' & He & Hsame & Hc).
  rewrite He, bind_Ret. destruct Hc as [(-> & Hl)|(b' & -> & Hb & Hst1 & Hl)]; cbn [and_then].
  - exists [], ms, s'. done.
  - apply (delivers_step h id s s' []); [done|]. apply Hcont; try done.
    by apply list_lookup_insert_eq.
Qed.

Lemma push_loop_delivers fd id : forall fuel h s ms buffer fut,
  (length buffer < fuel)%nat -> h_s h !! id = Some s -> Forall msg_ok ms ->
  link_state s ms (buffer ++ fut) ->
  delivers h id s ms fut (push_loop skynet_send fuel h fd (Z.of_nat id) buffer).
Proof.
  induction fuel as [|fuel IH]; intros h s ms buffer fut Hf Hs Hms Hl; [lia|].
  cbn [push_loop]. step_with (read_at_Some _ _ s Hs).
  assert (Hst : s_status s = STATUS_HEADER \/ s_status s = STATUS_CONTENT) by (destruct Hl; auto).
  assert (Hcont : forall h1 s1 b1, h_s h1 !! id = Some s1 -> s_status s1 = STATUS_CONTENT ->
    (length b1 <= length buffer)%nat -> link_state s1 ms (b1 ++ fut) ->
    delivers h1 id s1 ms fut (r ← content_case skynet_send h1 (Z.of_nat id) b1;
      and_then r (fun h b => push_loop skynet_send fuel h fd (Z.of_nat id) b))).
  { intros h1 s1 b1 Hs1 Hst1 Hb1 Hl1. apply content_round; try done.
    intros. apply IH; try done. lia. }
  destruct Hst as [Hst|Hst]; rewrite Hst.
  - apply header_round; try done. intros. apply Hcont; try done. lia.
  - by apply Hcont.
Qed.

(** ** Runs of a connection *)

Lemma find_fd_spec h fd id : find_fd h fd = Some id <->
  (0 < id)%nat /\ (exists s, h_s h !! id = Some s /\ s_fd s = fd) /\
  forall j s, (0 < j < id)%nat -> h_s h !! j = Some s -> s_fd s <> fd.
Proof.
  unfold find_fd. split.
  - destruct (list_find _ _) as [[i s]|] eqn:E; [|done]. intros [= <-].
    apply list_find_Some in E as (Hi & Hs & Hbefore). rewrite lookup_drop in Hi.
    split; [lia|]. split; [eauto|]. intros j s' Hj Hs'.
    apply (Hbefore (j - 1)%nat); [|lia]. rewrite lookup_drop.
    by replace (1 + (j - 1))%nat with j by lia.
  - intros (Hid & (s & Hs & Hfd) & Hbefore).
    destruct id as [|id]; [lia|].
    assert (E : list_find (fun s => s_fd s = fd) (drop 1 (h_s h)) = Some (id, s)).
    { apply list_find_Some. rewrite lookup_drop. split_and!; [done..|].
      intros j s' Hs' Hj. rewrite lookup_drop in Hs'. apply (Hbefore (S j) s'); [lia|done]. }
    by rewrite E.
Qed.

Lemma find_fd_same h fd id s s' : find_fd h fd = Some id -> h_s h !! id = Some s ->
  s_fd s' = s_fd s -> find_fd (set_slaves h (<[id := s']> (h_s h))) fd = Some id.
Proof.
  intros (Hid & (s0 & Hs0 & Hfd) & Hb)%find_fd_spec Hs Hs'. apply find_fd_spec.
  rewrite Hs in Hs0. injection Hs0 as <-.
  cbn [h_s set_slaves]. pose proof (lookup_lt_Some _ _ _ Hs). split_and!; [done| |].
  - exists s'. rewrite list_lookup_insert_eq by done. split; [done|congruence].
  - intros j s1 Hj. rewrite list_lookup_insert_ne by lia. by apply Hb.
Qed.

Lemma mainloop_data h fd id d r acts : find_fd h fd = Some id ->
  push_loop skynet_send (S (S (length d))) h fd (Z.of_nat id) d = Ret (r, acts) ->
  mainloop skynet_send h (data_message fd d) = Ret (r, acts ++ [Free d]).
Proof.
  intros Hf Hp. cbn [mainloop data_message]. unfold mainloop_socket, push_socket_data.
  cbn [sm_type sm_id sm_ud sm_buffer]. rewrite bool_decide_true by done.
  rewrite bool_decide_false by (intros Hn; by apply Hn). rewrite Hf.
  change (default [] (Some d)) with d. rewrite read_bytes_all, bind_Ret by done.
  by rewrite Hp.
Qed.

Lemma link_done s ms : link_state s ms [] -> Forall msg_ok ms ->
  ms = [] /\ s_status s = STATUS_HEADER /\ s_read s = 0.
Proof.
  intros Hl. remember (@nil Z) as todo eqn:E. revert E.
  destruct Hl as [ms' k todo' Hst Hrd Hk Hsz Ht|m ms' k recv rest]; intros E ?.
  - rewrite E, app_nil_r in Ht. destruct ms' as [|m ms'].
    + assert (Hl : length (take k (s_size s)) = 0%nat) by by rewrite Ht.
      rewrite length_take in Hl. split_and!; [done|done|lia].
    + assert (Hl : length (take k (s_size s)) = length (framed (m :: ms'))) by by rewrite Ht.
      cbn [map concat] in Hl. unfold frame in Hl.
      rewrite length_take, !length_app, length_be_bytes in Hl. lia.
  - apply app_eq_nil in E as [-> _]. rewrite app_nil_r in *.
    assert (Hl : length (take k recv) = length (payload m)) by congruence.
    rewrite length_take in Hl. lia.
Qed.

Definition is_call (a : action) : bool := match a with Free _ => false | _ => true end.

(** The calls of a run, without the memory given back. *)
Definition calls (acts : list action) : list action := List.filter is_call acts.

Lemma calls_app a b : calls (a ++ b) = calls a ++ calls b.
Proof. apply List.filter_app. Qed.

Lemma calls_all acts : Forall is_call acts -> calls acts = acts.
Proof.
  induction 1 as [|a acts Ha _ IH]; [done|]. unfold calls in *. cbn [List.filter].
  apply Is_true_eq_true in Ha. by rewrite Ha, IH.
Qed.

Lemma calls_deliveries h ms : calls (concat (map (delivery h) ms)) = concat (map (delivery h) ms).
Proof.
  apply calls_all. induction ms as [|m ms IH]; [constructor|]. cbn [map concat].
  apply Forall_app. split; [|done]. unfold delivery. cbv zeta.
  destruct (bool_decide _); repeat constructor.
Qed.

Lemma chunks_run fd id ds : forall h s ms,
  find_fd h fd = Some id -> h_s h !! id = Some s -> Forall msg_ok ms ->
  link_state s ms (concat ds) ->
  exists s' acts, harbor_run skynet_send h (data_message fd <$> ds) =
      Ret (set_slaves h (<[id := s']> (h_s h)), acts) /\
    calls acts = concat (map (delivery h) ms) /\ same_link s s' /\
    s_status s' = STATUS_HEADER /\ s_read s' = 0.
Proof.
  induction ds as [|d ds IH]; intros h s ms Hf Hs Hms Hl.
  - destruct (link_done s ms Hl Hms) as (-> & Hst & Hrd). exists s, [].
    rewrite list_insert_id by done. split; [by destruct h|done].
  - cbn [concat] in Hl. cbn [fmap list_fmap harbor_run].
    destruct (push_loop_delivers fd id (S (S (length d))) h s ms d (concat ds))
      as (ms1 & ms2 & s1 & -> & Hp & [H1 H2] & Hl1); [lia|done..|].
    step_with (mainloop_data _ _ _ _ _ _ Hf Hp). apply Forall_app in Hms as [_ Hms2].
    pose proof (lookup_lt_Some _ _ _ Hs) as Hid.
    destruct (IH (set_slaves h (<[id := s1]> (h_s h))) s1 ms2) as (s' & acts & Hr & Hc & Hsame & Hst & Hrd).
    { by apply (find_fd_same h fd id s). } { by apply list_lookup_insert_eq. } { done. } { done. }
    rewrite Hr, bind_Ret. cbn [h_s set_slaves]. rewrite list_insert_insert_eq.
    do 2 eexists. split; [done|]. rewrite !calls_app, calls_deliveries, Hc, map_app, concat_app.
    cbn. rewrite app_nil_r. split_and!; try done. by transitivity s1.
Qed.

(** A known connection sends what waited for it, in order. *)
Lemma dispatch_queue_sends h id s q : h_s h !! id = Some s -> s_fd s <> 0 ->
  opt_repr (s_queue s) q -> Forall msg_ok q ->
  dispatch_queue h (Z.of_nat id) = Ret (set_slaves h (<[id := set_queue s None]> (h_s h)),
    map (fun m => SocketSend (s_fd s) (frame m)) q).
Proof.
  intros Hs Hfd Hq Hok. unfold dispatch_queue.
  rewrite (read_at_Some _ _ s Hs), bind_Ret, bool_decide_false by done.
  destruct (s_queue s) as [queue|] eqn:Eq; cbn [opt_repr] in Hq.
  - destruct (drain_repr queue q Hq) as (queue' & He & Hq'). rewrite He, bind_Ret.
    rewrite send_all_frames, bind_Ret by done.
    step_with (release_queue_repr (Some queue') []) by done.
    step_with (set_slave_eq _ _ _ _ Hs). cbn [map]. by rewrite app_nil_r.
  - subst. replace (set_queue s None) with s by (destruct s; cbn in *; by subst).
    rewrite list_insert_id by done. by destruct h.
Qed.

Lemma push_loop_unfold fuel h fd id buffer :
  push_loop skynet_send (S fuel) h fd id buffer =
    let again h buffer := push_loop skynet_send fuel h fd id buffer in
    let content h buffer := r ← content_case skynet_send h id buffer; and_then r again in
    let header h buffer := r ← header_case h id buffer; and_then r content in
    s ← read_at (h_s h) id;
    if bool_decide (s_status s = STATUS_HANDSHAKE) then
      r ← handshake_case h fd id buffer;
      and_then r (fun h buffer => if bool_decide (length buffer = 0%nat) then again h buffer
                                  else header h buffer)
    else if bool_decide (s_status s = STATUS_HEADER) then header h buffer
    else if bool_decide (s_status s = STATUS_CONTENT) then content h buffer
    else Ret (h, []).
Proof. reflexivity. Qed.

Lemma handshake_round h fd id s q ms b fut :
  h_s h !! id = Some s -> s_status s = STATUS_HANDSHAKE -> s_fd s <> 0 -> s_read s = 0 ->
  length (s_size s) = 4%nat -> opt_repr (s_queue s) q -> Forall msg_ok q -> Forall msg_ok ms ->
  b ++ fut = framed ms ->
  exists ms1 ms2 s', ms = ms1 ++ ms2 /\
    push_loop skynet_send (S (S (S (length b)))) h fd (Z.of_nat id) (Z.of_nat id :: b) =
      Ret (set_slaves h (<[id := s']> (h_s h)),
           map (fun m => SocketSend (s_fd s) (frame m)) q ++ concat (map (delivery h) ms1)) /\
    s_fd s' = s_fd s /\ link_state s' ms2 fut.
Proof.
  intros Hs Hst Hfd Hrd Hsz Hq Hqok Hms Hb. pose proof (lookup_lt_Some _ _ _ Hs) as Hid.
  set (s1 := set_queue (set_status s STATUS_HEADER) None).
  set (h1 := set_slaves h (<[id := s1]> (h_s h))).
  assert (Hs1 : h_s h1 !! id = Some s1) by by apply list_lookup_insert_eq.
  assert (Hl1 : link_state s1 ms (b ++ fut))
    by (rewrite Hb; apply (link_header _ _ 0); cbn; try done; lia).
  assert (Hd : forall n, (length b < n)%nat ->
    delivers h1 id s1 ms fut (push_loop skynet_send n h1 fd (Z.of_nat id) b))
    by (intros n Hn; by apply push_loop_delivers).
  destruct (Hd (if bool_decide (length b = 0%nat) then S (S (length b)) else S (S (S (length b))))
    ltac:(destruct (bool_decide _); lia)) as (ms1 & ms2 & s' & Hmse & Hp & [Hs' _] & Hl').
  exists ms1, ms2, s'. split; [done|]. split; [|done].
  cbn [h_s set_slaves h1] in Hp. rewrite list_insert_insert_eq in Hp.
  assert (Hr : forall (r : outcome (harbor * list action)) out acts,
    r = Ret (out, acts) -> ('(h', rest) ← r; Ret (h', map (fun m => SocketSend (s_fd s) (frame m)) q ++ rest))
      = Ret (out, map (fun m => SocketSend (s_fd s) (frame m)) q ++ acts)) by (by intros ? ? ? ->).
  rewrite push_loop_unfold, (read_at_Some _ _ s Hs), bind_Ret, bool_decide_true by done.
  unfold handshake_case at 1. step_with (read_at_Some _ _ s Hs).
  change (read_at (Z.of_nat id :: b) 0) with (Ret (Z.of_nat id)).
  rewrite bind_Ret, bool_decide_false by (intros Hne; by apply Hne).
  step_with (set_slave_eq _ _ _ _ Hs).
  rewrite (dispatch_queue_sends _ id (set_status s STATUS_HEADER) q)
    by (try done; by apply list_lookup_insert_eq).
  rewrite bind_Ret. cbn [h_s set_slaves]. rewrite list_insert_insert_eq. fold s1. fold h1.
  change (drop 1 (Z.of_nat id :: b)) with b. rewrite bind_Ret. cbn [and_then s_fd set_status].
  apply Hr. destruct (bool_decide_reflect (length b = 0%nat)) as [H0|H0]; [exact Hp|].
  rewrite push_loop_unfold, (read_at_Some _ _ s1 Hs1), bind_Ret in Hp. exact Hp.
Qed.

(** Slot [id] waits for the handshake of socket [fd], with [q] to be sent. *)
Record link_waiting (h : harbor) (id : nat) (fd : Z) (s : slave) (q : list harbor_msg) : Prop := {
  lw_slot : h_s h !! id = Some s;
  lw_find : find_fd h fd = Some id;
  lw_fd : fd <> 0;
  lw_status : s_status s = STATUS_HANDSHAKE;
  lw_read : s_read s = 0;
  lw_size : length (s_size s) = 4%nat;
  lw_queue : opt_repr (s_queue s) q;
  lw_ok : Forall msg_ok q
}.

Lemma waiting_fd h id fd s q : link_waiting h id fd s q -> s_fd s = fd.
Proof.
  intros Hw. pose proof (lw_slot _ _ _ _ _ Hw) as Hs.
  apply lw_find, find_fd_spec in Hw as (_ & (s' & Hs' & Hfd) & _). congruence.
Qed.

(** What the peer's [send_remote] puts on the wire for messages that fit. *)
Lemma sent_frames pfd ms fs : Forall msg_ok ms ->
  Forall2 (fun m f => send_remote pfd (hm_buffer m) (hm_header m) = Ret [SocketSend pfd f]) ms fs ->
  fs = map frame ms.
Proof.
  intros Hms H. induction H as [|m f ms fs Hf _ IH]; [done|]. apply Forall_cons in Hms as [Hm Hms].
  cbn [map]. rewrite <- IH by done. f_equal.
  rewrite send_remote_frame in Hf by by apply msg_ok_fits. destruct m. by injection Hf as <-.
Qed.

Lemma waiting_run h id fd s q ms ds :
  link_waiting h id fd s q -> Forall msg_ok ms -> Forall (fun d => d <> []) ds ->
  concat ds = Z.of_nat id :: framed ms ->
  exists s' acts,
    harbor_run skynet_send h (data_message fd <$> ds) =
      Ret (set_slaves h (<[id := s']> (h_s h)), acts) /\
    calls acts = map (fun m => SocketSend fd (frame m)) q ++ concat (map (delivery h) ms) /\
    s_fd s' = fd /\ s_status s' = STATUS_HEADER /\ s_read s' = 0.
Proof.
  intros Hw Hms Hds Hcat. pose proof (waiting_fd _ _ _ _ _ Hw) as Hsfd.
  destruct Hw as [Hs Hf Hfd Hst Hrd Hsz Hq Hqok].
  pose proof (lookup_lt_Some _ _ _ Hs) as Hid.
  destruct ds as [|[|x b] ds]; [done|by apply Forall_cons in Hds as [? _]|].
  cbn [concat app] in Hcat. injection Hcat as -> Hb.
  destruct (handshake_round h fd id s q ms b (concat ds)) as (ms1 & ms2 & s1 & -> & Hp & H1 & Hl);
    try done; [by rewrite Hsfd|].
  apply Forall_app in Hms as [Hms1 Hms2].
  cbn [fmap list_fmap harbor_run].
  step_with (mainloop_data h fd id (Z.of_nat id :: b) _ _ Hf Hp).
  destruct (chunks_run fd id ds (set_slaves h (<[id := s1]> (h_s h))) s1 ms2)
    as (s' & acts & Hr & Hc & [Hsame _] & Hst' & Hrd').
  { by apply (find_fd_same h fd id s). } { by apply list_lookup_insert_eq. } { done. } { done. }
  rewrite Hr, bind_Ret. cbn [h_s set_slaves]. rewrite list_insert_insert_eq.
  do 2 eexists. split; [done|]. rewrite !calls_app, calls_deliveries, Hc, map_app, concat_app, Hsfd.
  rewrite calls_all by (apply Forall_map, Forall_true; done). cbn. rewrite app_nil_r, <- !app_assoc.
  split_and!; try done. congruence.
Qed.

(** C12: a connection between two harbors delivers: the slot that waits for the handshake
    takes the peer's id, sends what was queued for the peer, and then passes every
    message that the peer gave to [send_remote] to its local destination, with type,
    session and text unchanged, each one once and in order, however the stream is cut
    into chunks. *)
Theorem harbor_link_delivers h id fd s q pfd ms fs ds :
  link_waiting h id fd s q -> Forall msg_ok ms ->
  Forall2 (fun m f => send_remote pfd (hm_buffer m) (hm_header m) = Ret [SocketSend pfd f]) ms fs ->
  Forall (fun d => d <> []) ds -> concat ds = Z.of_nat id :: concat fs ->
  exists s' acts,
    harbor_run skynet_send h (data_message fd <$> ds) =
      Ret (set_slaves h (<[id := s']> (h_s h)), acts) /\
    calls acts = map (fun m => SocketSend fd (frame m)) q ++ concat (map (delivery h) ms) /\
    s_fd s' = fd /\ s_status s' = STATUS_HEADER /\ s_read s' = 0.
Proof.
  intros Hw Hms Hfs Hds Hcat. rewrite (sent_frames pfd ms fs Hms Hfs) in Hcat.
  by apply (waiting_run h id fd s q ms ds).
Qed.
End link.

Definition demo_connected (status : Z) : harbor :=
  set_slaves demo_harbor
    (<[2%nat := mk_slave 9 None status 0 0 [0; 0; 0; 0] None]> (h_s demo_harbor)).

Lemma harbor_link_delivers_witness :
  let m := mk_harbor_msg (mk_header 0x2000007 0x1000005 9) [72; 105] in
  exists h, harbor_run yes demo_harbor [MsgCommand (bytes_of "S 9 2") 5 3] =
              Ret (h, [SocketStart 9; SocketSend 9 [1]]) /\
    exists s' acts,
      harbor_run yes h (data_message 9 <$> [[2; 0]; [0; 0; 14; 72]; drop 5 (frame m)]) =
        Ret (set_slaves h (<[2%nat := s']> (h_s h)), acts) /\
      calls acts = map (fun m => SocketSend 9 (frame m)) [] ++ concat (map (delivery yes h) [m]) /\
      s_fd s' = 9 /\ s_status s' = STATUS_HEADER /\ s_read s' = 0.
Proof.
  intros m. exists (demo_connected STATUS_HANDSHAKE). split; [vm_compute; reflexivity|].
  eapply (harbor_link_delivers yes _ 2 9 _ [] 4 [m] [frame m]).
  - split; try reflexivity; [discriminate|constructor].
  - repeat constructor; intros ?; discriminate.
  - repeat constructor.
  - repeat constructor; discriminate.
  - reflexivity.
Defined.

(** ** The rings are queues *)

Inductive queue_op := Push (m : harbor_msg) | Pop.

(** The answers of the pops in a run. *)
Fixpoint queue_run (q : harbor_msg_queue) (ops : list queue_op) : outcome (list (option harbor_msg)) :=
  match ops with
  | [] => Ret []
  | Push m :: ops => q ← push_queue q (hm_buffer m) (hm_header m); queue_run q ops
  | Pop :: ops => '(r, q) ← pop_queue q; rs ← queue_run q ops; Ret (r :: rs)
  end.

Fixpoint fifo_run (l : list harbor_msg) (ops : list queue_op) : list (option harbor_msg) :=
  match ops with
  | [] => []
  | Push m :: ops => fifo_run (l ++ [m]) ops
  | Pop :: ops => head l :: fifo_run (tail l) ops
  end.

Lemma queue_run_fifo ops : forall q l, queue_repr q l ->
  Z.of_nat (length l + length ops) < 2 ^ 30 -> queue_run q ops = Ret (fifo_run l ops).
Proof.
  induction ops as [|[m|] ops IH]; intros q l Hq Hlt; cbn [queue_run fifo_run]; [done| |].
  - unfold push_queue. destruct (push_queue_msg_repr q l m Hq) as (q' & He & Hq');
      [simpl in Hlt; lia|].
    replace (mk_harbor_msg (hm_header m) (hm_buffer m)) with m by by destruct m.
    rewrite He, bind_Ret. apply IH; [done|]. rewrite length_app. simpl in *. lia.
  - destruct l as [|m l].
    + rewrite (pop_queue_nil q Hq), bind_Ret, (IH q []); [done|done|]. simpl in *. lia.
    + destruct (pop_queue_cons q m l Hq) as (q' & He & Hq' & _).
      rewrite He, bind_Ret, (IH q' l); [done|done|]. simpl in *. lia.
Qed.

(** A message queue is a FIFO whatever it is given: for every run of fewer than
    [2^30] pushes and pops on a new queue, with the wrap-around and the doublings of the
    ring, the pops answer what those of a list do, and nothing is read or written outside
    the array. *)
Theorem harbor_queue_fifo ops : Z.of_nat (length ops) < 2 ^ 30 ->
  queue_run new_queue ops = Ret (fifo_run [] ops).
Proof. intros H. by apply queue_run_fifo; [apply new_queue_repr|]. Qed.

Lemma harbor_queue_fifo_witness :
  let m n := mk_harbor_msg (mk_header n 0 0) [n] in
  let ops := [Push (m 1); Push (m 2); Pop; Push (m 3); Pop; Pop; Pop] in
  queue_run new_queue ops = Ret [Some (m 1); Some (m 2); Some (m 3); None].
Proof. intros m ops. by rewrite (harbor_queue_fifo ops). Defined.

(** ** Names *)

(** A name as the callers pass it: 16 bytes, with zeros behind the text. *)
Fixpoint padded (l : list Z) : Prop :=
  match l with
  | [] => True
  | c :: l => if bool_decide (c = 0) then Forall (fun x => x = 0) l else padded l
  end.

Definition name_ok (name : list Z) : Prop := length name = 16%nat /\ padded name.

Lemma zeros_eq a b : length a = length b -> Forall (fun x => x = 0) a -> Forall (fun x => x = 0) b ->
  a = b.
Proof.
  intros Hl Ha. revert b Hl. induction Ha as [|x a -> _ IH]; intros [|y b] Hl Hb; try done.
  apply Forall_cons in Hb as [-> Hb]. f_equal. apply IH; [by injection Hl|done].
Qed.

Lemma strncmp_padded n : forall a b, length a = n -> length b = n -> padded a -> padded b ->
  strncmp_eq a b n = Ret (bool_decide (a = b)).
Proof.
  induction n as [|n IH]; intros [|x a] [|y b] Ha Hb Hpa Hpb; try done; cbn [strncmp_eq].
  injection Ha as Ha. injection Hb as Hb. cbn [padded] in *.
  destruct (bool_decide_reflect (x = y)) as [<-|Hne].
  2:{ rewrite bool_decide_false; [done|]. congruence. }
  destruct (bool_decide_reflect (x = 0)) as [->|Hx].
  - rewrite bool_decide_true; [done|]. f_equal. apply zeros_eq; congruence.
  - rewrite IH by done. f_equal. apply bool_decide_ext. split; congruence.
Qed.

Lemma padded_app s k : Forall (fun c => c <> 0) s -> padded (s ++ replicate k 0).
Proof.
  induction 1 as [|c s Hc _ IH]; cbn [app padded].
  - destruct k as [|k]; [done|]. cbn [replicate padded]. rewrite bool_decide_true by done.
    by apply Forall_replicate.
  - by rewrite bool_decide_false.
Qed.

(** The node of [name] in chain [l]. *)
Fixpoint find_node (pool : list keyvalue) (l : list nat) (name : list Z) : option nat :=
  match l with
  | [] => None
  | p :: l =>
    match pool !! p with
    | Some kv => if bool_decide (kv_key kv = name) then Some p else find_node pool l name
    | None => None
    end
  end.

(** The chains of the table: every node is in the chain of its hash. *)
Record map_inv (m : hashmap) (chains : nat -> list nat) : Prop := {
  mi_len : length (map_node m) = Z.to_nat HASH_SIZE;
  mi_linked b : (b < Z.to_nat HASH_SIZE)%nat ->
    exists c, map_node m !! b = Some c /\ linked kv_next (map_pool m) c (chains b);
  mi_nodup b : NoDup (chains b);
  mi_key b p kv : p ∈ chains b -> map_pool m !! p = Some kv ->
    name_ok (kv_key kv) /\ kv_hash kv = name_hash (kv_key kv)
}.

Definition bucket (name : list Z) : nat := Z.to_nat (name_hash name mod HASH_SIZE).

Lemma bucket_lt name : (bucket name < Z.to_nat HASH_SIZE)%nat /\
  name_hash name mod HASH_SIZE = Z.of_nat (bucket name).
Proof. unfold bucket, HASH_SIZE. dlia. Qed.

Lemma search_loop_finds pool name : name_ok name ->
  forall l fuel c, linked kv_next pool c l -> (length l <= fuel)%nat ->
  (forall p kv, p ∈ l -> pool !! p = Some kv -> name_ok (kv_key kv) /\ kv_hash kv = name_hash (kv_key kv)) ->
  search_loop fuel pool c (name_hash name) name = Ret (find_node pool l name).
Proof.
  intros [Hn Hp]. induction l as [|p l IH]; intros fuel c Hc Hf Hk.
  { inversion Hc; subst. by destruct fuel. }
  inversion Hc as [|? kv ? Hkv Hrest]; subst. destruct fuel as [|fuel]; [simpl in Hf; lia|].
  cbn [search_loop find_node]. rewrite (read_at_Some _ _ _ Hkv), bind_Ret, Hkv.
  destruct (Hk p kv ltac:(set_solver) Hkv) as [[Hl Hpk] Hh].
  assert (Hrec : search_loop fuel pool (kv_next kv) (name_hash name) name =
                 Ret (find_node pool l name)).
  { apply IH; [done|simpl in Hf; lia|]. intros p' kv' Hp'. apply Hk. set_solver. }
  destruct (bool_decide_reflect (kv_hash kv = name_hash name)) as [He|He].
  - change (Z.to_nat GLOBALNAME_LENGTH) with 16%nat. rewrite strncmp_padded, bind_Ret by done.
    by destruct (bool_decide_reflect (kv_key kv = name)).
  - rewrite bind_Ret. rewrite (bool_decide_false (kv_key kv = name)) by congruence. done.
Qed.

Lemma hash_search_finds m chains name : map_inv m chains -> name_ok name ->
  hash_search m name = Ret (find_node (map_pool m) (chains (bucket name)) name).
Proof.
  intros Hm Hn. unfold hash_search. destruct (bucket_lt name) as [Hb He]. rewrite He.
  destruct (mi_linked _ _ Hm _ Hb) as (c & Hc & Hl).
  step_with (read_at_Some _ _ _ Hc).
  apply search_loop_finds; [done|done| |apply (mi_key _ _ Hm)].
  eapply linked_length; [done|]. by apply (mi_nodup _ _ Hm).
Qed.

Lemma find_node_ext pool pool' l name :
  (forall p, p ∈ l -> kv_key <$> pool' !! p = kv_key <$> pool !! p) ->
  find_node pool' l name = find_node pool l name.
Proof.
  induction l as [|p l IH]; intros H; [done|]. cbn [find_node].
  pose proof (H p ltac:(set_solver)) as Hp.
  destruct (pool' !! p), (pool !! p); cbn in Hp; try done. injection Hp as ->.
  rewrite IH; [done|]. intros q Hq. apply H. set_solver.
Qed.

Lemma find_node_Some pool l name p : find_node pool l name = Some p ->
  p ∈ l /\ exists kv, pool !! p = Some kv /\ kv_key kv = name.
Proof.
  induction l as [|q l IH]; cbn [find_node]; [done|].
  destruct (pool !! q) as [kv|] eqn:Ek; [|done].
  destruct (bool_decide_reflect (kv_key kv = name)) as [He|He].
  - intros [= <-]. split; [set_solver|eauto].
  - intros [Hin Hkv]%IH. split; [set_solver|done].
Qed.

(** *** The table as a map from names *)

Definition names_ok (m : hashmap) : Prop := exists chains, map_inv m chains.

Definition node_of (m : hashmap) (name : list Z) : option keyvalue :=
  match hash_search m name with Ret (Some p) => map_pool m !! p | _ => None end.

Lemma hash_new_ok : names_ok hash_new.
Proof.
  exists (fun _ => []). split; cbn [hash_new map_node map_pool].
  - by rewrite length_replicate.
  - intros b Hb. exists None. split; [by apply lookup_replicate|constructor].
  - intros b. constructor.
  - intros b p kv Hp. by apply not_elem_of_nil in Hp.
Qed.

Lemma name_read name : name_ok name -> read_bytes name 0 GLOBALNAME_LENGTH = Ret name.
Proof. intros [Hl _]. apply read_bytes_all. by rewrite Hl. Qed.

Definition insert_chain (chains : nat -> list nat) (b p : nat) : nat -> list nat :=
  fun i => if decide (i = b) then p :: chains i else chains i.

Lemma linked_grow (pool : list keyvalue) kv c l :
  linked kv_next pool c l -> linked kv_next (pool ++ [kv]) c l.
Proof.
  intros H. eapply linked_ext; [done|]. intros i Hi.
  destruct (linked_lookup _ _ _ _ _ H Hi) as [nd Hnd].
  apply lookup_app_l. by eapply lookup_lt_Some.
Qed.

Lemma chain_below m chains b p : map_inv m chains -> (b < Z.to_nat HASH_SIZE)%nat ->
  p ∈ chains b -> (p < length (map_pool m))%nat.
Proof.
  intros Hm Hb Hp. destruct (mi_linked _ _ Hm b Hb) as (c & _ & Hl).
  destruct (linked_lookup _ _ _ _ _ Hl Hp) as [nd Hnd]. by eapply lookup_lt_Some.
Qed.

(** Chains are empty from the end of the array on. *)
Definition chains_end (chains : nat -> list nat) : Prop :=
  forall b, ~ (b < Z.to_nat HASH_SIZE)%nat -> chains b = [].

Lemma trim_chains m chains : map_inv m chains ->
  exists chains', map_inv m chains' /\ chains_end chains'.
Proof.
  intros [Hl Hk Hn Hkey].
  exists (fun b => if decide (b < Z.to_nat HASH_SIZE)%nat then chains b else []).
  split; [split|].
  - done.
  - intros b Hb. rewrite decide_True by done. by apply Hk.
  - intros b. destruct (decide _); [done|constructor].
  - intros b p kv. destruct (decide _); [apply Hkey|]. intros Hp. by apply not_elem_of_nil in Hp.
  - intros b Hb. by rewrite decide_False.
Qed.

Lemma hash_insert_spec m chains name : map_inv m chains -> chains_end chains -> name_ok name ->
  let p := length (map_pool m) in
  exists node kv,
    hash_insert m name = Ret (p, mk_hashmap node (map_pool m ++ [kv])) /\
    kv_key kv = name /\ kv_value kv = 0 /\ kv_queue kv = None /\
    map_inv (mk_hashmap node (map_pool m ++ [kv])) (insert_chain chains (bucket name) p).
Proof.
  intros Hm Hend Hn p. unfold hash_insert. destruct (bucket_lt name) as [Hb He]. rewrite He.
  destruct (mi_linked _ _ Hm _ Hb) as (c & Hc & Hl).
  rewrite (read_at_Some _ _ _ Hc), bind_Ret, (name_read name Hn), bind_Ret.
  rewrite write_at_lt, bind_Ret by by rewrite (mi_len _ _ Hm).
  do 2 eexists. split; [done|]. split_and!; [done..|].
  assert (Hlt : forall b q, q ∈ chains b -> (q < p)%nat).
  { intros b q Hq. destruct (decide (b < Z.to_nat HASH_SIZE)%nat) as [Hb'|Hb'].
    - by apply (chain_below m chains b).
    - rewrite (Hend b Hb') in Hq. by apply not_elem_of_nil in Hq. }
  split; cbn [map_node map_pool].
  - rewrite length_insert. apply Hm.
  - intros b Hb'. unfold insert_chain. destruct (decide (b = bucket name)) as [->|Hne].
    + exists (Some p). split; [apply list_lookup_insert_eq; by rewrite (mi_len _ _ Hm)|].
      econstructor; [apply list_lookup_middle; done|]. cbn [kv_next]. by apply linked_grow.
    + destruct (mi_linked _ _ Hm b Hb') as (c' & Hc' & Hl'). exists c'.
      split; [by rewrite list_lookup_insert_ne|]. by apply linked_grow.
  - intros b. unfold insert_chain. destruct (decide _); [|apply Hm].
    constructor; [|apply Hm]. intros Hp%Hlt. lia.
  - intros b q kv Hq Hkv.
    assert (Hcase : q = p \/ q ∈ chains b)
      by (unfold insert_chain in Hq; destruct (decide _); set_solver).
    destruct Hcase as [-> |Hq'].
    + rewrite list_lookup_middle in Hkv by done. injection Hkv as <-. done.
    + rewrite lookup_app_l in Hkv by by apply (Hlt b). by apply (mi_key _ _ Hm b q).
Qed.

Lemma find_node_grow pool kv l name : (forall p, p ∈ l -> (p < length pool)%nat) ->
  find_node (pool ++ [kv]) l name = find_node pool l name.
Proof. intros H. apply find_node_ext. intros p Hp. rewrite lookup_app_l; auto. Qed.

Lemma find_or_insert_spec m name : names_ok m -> name_ok name ->
  exists p m' kv, find_or_insert m name = Ret (p, m') /\ names_ok m' /\
    map_pool m' !! p = Some kv /\ hash_search m' name = Ret (Some p) /\
    (node_of m name = Some kv \/
     node_of m name = None /\ kv_value kv = 0 /\ kv_queue kv = None) /\
    forall name', name_ok name' -> name' <> name -> node_of m' name' = node_of m name'.
Proof.
  intros [chains0 Hm0] Hn. destruct (trim_chains m chains0 Hm0) as (chains & Hm & Hend).
  unfold find_or_insert. unfold node_of at 1 2.
  pose proof (hash_search_finds m chains name Hm Hn) as Hsr. rewrite Hsr, bind_Ret.
  destruct (find_node _ _ _) as [p|] eqn:Ef.
  - destruct (find_node_Some _ _ _ _ Ef) as (Hp & kv & Hkv & Hk).
    exists p, m, kv. split_and!; try done; [by exists chains|by left].
  - destruct (hash_insert_spec m chains name Hm Hend Hn) as (node & kv & He & Hk & Hv & Hq & Hm').
    rewrite He. do 3 eexists. split; [done|]. split; [by eexists|].
    cbn [map_pool]. split; [by apply list_lookup_middle|]. split; [|split; [by right|]].
    + rewrite (hash_search_finds _ _ name Hm' Hn). cbn [map_pool]. unfold insert_chain.
      rewrite decide_True by done. cbn [find_node]. rewrite list_lookup_middle by done.
      by rewrite bool_decide_true.
    + intros name' Hn' Hne. unfold node_of.
      rewrite (hash_search_finds _ _ name' Hm' Hn'), (hash_search_finds _ _ name' Hm Hn').
      cbn [map_pool].
      assert (Hb : forall q, q ∈ chains (bucket name') -> (q < length (map_pool m))%nat)
        by (intros q; apply (chain_below m chains (bucket name') q Hm (proj1 (bucket_lt name')))).
      assert (Hfind : find_node (map_pool m ++ [kv])
                (insert_chain chains (bucket name) (length (map_pool m)) (bucket name')) name' =
              find_node (map_pool m) (chains (bucket name')) name').
      { unfold insert_chain. destruct (decide _); [|by apply find_node_grow].
        cbn [find_node]. rewrite list_lookup_middle by done.
        rewrite bool_decide_false by congruence. by apply find_node_grow. }
      rewrite Hfind. destruct (find_node (map_pool m) _ name') as [q|] eqn:Eq; [|done].
      apply find_node_Some in Eq as [Hq' _]. apply lookup_app_l. by apply Hb.
Qed.

Lemma set_node_spec m p kv kv' name : names_ok m -> name_ok name ->
  map_pool m !! p = Some kv -> hash_search m name = Ret (Some p) ->
  kv_next kv' = kv_next kv -> kv_key kv' = kv_key kv -> kv_hash kv' = kv_hash kv ->
  names_ok (set_node m p kv') /\ node_of (set_node m p kv') name = Some kv' /\
  forall name', name_ok name' -> name' <> name -> node_of (set_node m p kv') name' = node_of m name'.
Proof.
  intros [chains Hm] Hn Hkv Hs Hnx Hk Hh. pose proof (lookup_lt_Some _ _ _ Hkv) as Hp.
  assert (Hlook : forall q, map_pool (set_node m p kv') !! q =
    if decide (q = p) then Some kv' else map_pool m !! q).
  { intros q. cbn [map_pool set_node]. destruct (decide (q = p)) as [->|Hne].
    - by apply list_lookup_insert_eq. - by apply list_lookup_insert_ne. }
  assert (Hm' : map_inv (set_node m p kv') chains).
  { split; [apply Hm| |apply Hm|].
    - intros b Hb. destruct (mi_linked _ _ Hm b Hb) as (c & Hc & Hl). exists c. split; [done|].
      clear -Hl Hlook Hkv Hnx. induction Hl as [|c nd l Hnd _ IH]; [constructor|].
      destruct (decide (c = p)) as [->|Hne].
      + replace nd with kv in IH by congruence. rewrite <- Hnx in IH.
        econstructor; [rewrite Hlook, decide_True by done; reflexivity|done].
      + econstructor; [rewrite Hlook, decide_False by done; done|done].
    - intros b q kv1 Hq. rewrite Hlook. destruct (decide (q = p)) as [->|]; [|by apply (mi_key _ _ Hm b q)].
      intros [= <-]. rewrite Hk, Hh. by apply (mi_key _ _ Hm b p). }
  assert (Hfind : forall l n, find_node (map_pool (set_node m p kv')) l n = find_node (map_pool m) l n).
  { intros l n. apply find_node_ext. intros q _. rewrite Hlook.
    destruct (decide (q = p)) as [->|]; [|done]. rewrite Hkv. cbn. by rewrite Hk. }
  split; [by exists chains|]. unfold node_of.
  rewrite (hash_search_finds _ _ name Hm Hn) in Hs. injection Hs as Hs. split.
  - rewrite (hash_search_finds _ _ name Hm' Hn), Hfind, Hs, Hlook. by rewrite decide_True.
  - intros name' Hn' Hne.
    rewrite (hash_search_finds _ _ name' Hm' Hn'), Hfind, (hash_search_finds _ _ name' Hm Hn').
    destruct (find_node (map_pool m) (chains (bucket name')) name') as [q|] eqn:Eq; [|done].
    rewrite Hlook, decide_False; [done|]. intros ->.
    apply find_node_Some in Eq as (_ & kv1 & Hkv1 & Hk1).
    apply find_node_Some in Hs as (_ & kv2 & Hkv2 & Hk2). congruence.
Qed.

(** *** Messages to a name *)

(** A message that a local service sends to a name. *)
Record post := mk_post {
  po_source : Z;
  po_type : Z;
  po_session : Z;
  po_data : list Z
}.

Definition name_of (text : list Z) : list Z := text ++ replicate (16 - length text) 0.

(** The text of a global name: up to 15 bytes and no NUL. *)
Definition text_ok (text : list Z) : Prop :=
  (0 < length text < 16)%nat /\ Forall (fun c => c <> 0) text.

Definition to_name (text : list Z) (x : post) : harbor_message :=
  MsgRemote (po_source x) (po_type x) (po_session x)
    (mk_remote_message (name_of text) 0 (po_data x)).

(** The slave service tells the harbor the handle of a name. *)
Definition learn (text : list Z) (handle : Z) : harbor_message :=
  MsgCommand (bytes_of "N " ++ text) (Z.of_nat (length text) + 2) handle.

(** The wire form of a post to a handle, and what is queued when the handle is not known. *)
Definition addressed (local : Z) (x : post) : harbor_msg :=
  mk_harbor_msg
    (mk_header (po_source x) (Z.lor (u32 (Z.shiftl (po_type x) 24)) local) (u32 (po_session x)))
    (po_data x).

Definition post_fits (x : post) : Prop := Z.of_nat (length (po_data x)) + 16 < 2 ^ 32.

Definition query (h : harbor) (text : list Z) : action :=
  Send 0 (h_slave h) PTYPE_TEXT 0 (bytes_of "Q " ++ text).

(** The handle and the queue of a name. *)
Definition name_state (m : hashmap) (name : list Z) (v : Z) (q : list harbor_msg) : Prop :=
  match node_of m name with
  | Some kv => kv_value kv = v /\ opt_repr (kv_queue kv) q
  | None => v = 0 /\ q = []
  end.

Lemma name_of_ok text : text_ok text -> name_ok (name_of text).
Proof.
  intros [Hl Ht]. split; [|by apply padded_app].
  unfold name_of. rewrite length_app, length_replicate. lia.
Qed.

Lemma find_state m name v q : names_ok m -> name_ok name -> name_state m name v q ->
  exists p m' kv, find_or_insert m name = Ret (p, m') /\ names_ok m' /\
    map_pool m' !! p = Some kv /\ hash_search m' name = Ret (Some p) /\
    kv_value kv = v /\ opt_repr (kv_queue kv) q /\ name_state m' name v q.
Proof.
  intros Hm Hn Hs. destruct (find_or_insert_spec m name Hm Hn)
    as (p & m' & kv & He & Hm' & Hkv & Hsr & Hcase & _).
  assert (Hkvs : kv_value kv = v /\ opt_repr (kv_queue kv) q).
  { unfold name_state in Hs. destruct Hcase as [E|(E & Hv & Hq)]; rewrite E in Hs; [done|].
    destruct Hs as [-> ->]. by rewrite Hq. }
  exists p, m', kv. split_and!; try done; try apply Hkvs.
  unfold name_state, node_of. by rewrite Hsr, Hkv.
Qed.

Section names.
Context (skynet_send : Z -> Z -> Z -> Z -> list Z -> Z).

Lemma query_text text : text_ok text ->
  cstr (bytes_of "Q " ++ name_of text ++ [0]) = Ret (bytes_of "Q " ++ text).
Proof.
  intros [_ Ht]. unfold name_of. rewrite <- (app_assoc text), <- replicate_cons_app, app_assoc.
  apply cstr_app. apply Forall_app. split; [|done].
  repeat (apply Forall_cons_2; [done|]). apply Forall_nil_2.
Qed.

Lemma post_waits h text x q : names_ok (h_map h) -> text_ok text ->
  name_state (h_map h) (name_of text) 0 q -> Z.of_nat (length q) + 1 < 2 ^ 30 ->
  exists m', mainloop skynet_send h (to_name text x) = Ret (set_map h m', [query h text]) /\
    names_ok m' /\ name_state m' (name_of text) 0 (q ++ [addressed 0 x]).
Proof.
  intros Hm Ht Hs Hlt. pose proof (name_of_ok text Ht) as Hn.
  destruct (find_state _ _ _ _ Hm Hn Hs) as (p & m' & kv & He & Hm' & Hkv & Hsr & Hv & Hq & _).
  cbn [mainloop to_name]. unfold mainloop_remote, remote_send_name. cbn [rm_handle rm_name rm_message].
  rewrite bool_decide_true by done. rewrite He, bind_Ret. cbn [h_map set_map].
  rewrite (read_at_Some _ _ _ Hkv), bind_Ret, Hv, bool_decide_true by done. unfold push_queue.
  destruct (push_queue_msg_repr (default new_queue (kv_queue kv)) q (addressed 0 x)
    (opt_repr_new _ _ Hq) Hlt) as (q' & Hp & Hq').
  unfold addressed in Hp at 1. rewrite Z.lor_0_r in Hp. unfold HANDLE_REMOTE_SHIFT.
  rewrite Hp, bind_Ret, (name_read _ Hn), bind_Ret, query_text, bind_Ret by done.
  rewrite bind_Ret, bool_decide_true by done. eexists. split; [done|].
  destruct (set_node_spec m' p kv (set_kv_queue kv (Some q')) (name_of text) Hm' Hn Hkv Hsr)
    as (Hok & Hnode & _); [done..|].
  split; [done|]. unfold name_state. by rewrite Hnode.
Qed.

Lemma posts_wait text xs : text_ok text -> forall h q, names_ok (h_map h) ->
  name_state (h_map h) (name_of text) 0 q -> Z.of_nat (length q + length xs) < 2 ^ 30 ->
  exists m', harbor_run skynet_send h (map (to_name text) xs) =
      Ret (set_map h m', map (fun _ => query h text) xs) /\
    names_ok m' /\ name_state m' (name_of text) 0 (q ++ map (addressed 0) xs).
Proof.
  intros Ht. induction xs as [|x xs IH]; intros h q Hm Hs Hlt; cbn [map harbor_run].
  - exists (h_map h). rewrite app_nil_r. by destruct h.
  - destruct (post_waits h text x q Hm Ht Hs) as (m1 & He & Hm1 & Hs1); [simpl in Hlt; lia|].
    rewrite He, bind_Ret. destruct (IH (set_map h m1) (q ++ [addressed 0 x]) Hm1 Hs1)
      as (m' & Hr & Hm' & Hs'); [rewrite length_app; simpl in *; lia|].
    rewrite Hr, bind_Ret. exists m'. rewrite <- app_assoc in Hs'. done.
Qed.

Lemma learn_updates h text handle : text_ok text ->
  mainloop skynet_send h (learn text handle) = update_name h (name_of text) handle.
Proof.
  intros [Hl _]. cbn [mainloop learn]. unfold harbor_command.
  rewrite i32_small by (unfold is_i32; lia).
  replace (Z.of_nat (length text) + 2 - 2) with (Z.of_nat (length text)) by lia.
  change (read_at (bytes_of "N " ++ text) 0) with (Ret (A := Z) 78).
  rewrite bind_Ret, bool_decide_true by done. unfold command_name, GLOBALNAME_LENGTH.
  rewrite bool_decide_false by lia. step_with (read_bytes_at (bytes_of "N ") text) by done.
  unfold name_of. do 3 f_equal. lia.
Qed.

Lemma or_addressed handle x : or_destination handle (addressed 0 x) = addressed (handle_local handle) x.
Proof.
  unfold or_destination, addressed. cbn [hm_header hm_buffer rh_source rh_destination rh_session].
  by rewrite Z.lor_0_r.
Qed.

Lemma send_all_posts fd local xs : Forall post_fits xs ->
  send_all fd (map (addressed local) xs) =
    Ret (map (fun x => SocketSend fd (frame (addressed local x))) xs).
Proof.
  induction 1 as [|x xs Hx _ IH]; [done|]. cbn [map send_all].
  rewrite send_remote_frame, bind_Ret, IH by done. done.
Qed.

(** What the harbor does with the queue of a name, by the state of the connection. *)
Lemma update_name_connected h text handle s xs :
  names_ok (h_map h) -> text_ok text -> handle_harbor handle <> 0 ->
  read_at (h_s h) (handle_harbor handle) = Ret s -> s_fd s <> 0 ->
  name_state (h_map h) (name_of text) 0 (map (addressed 0) xs) -> Forall post_fits xs ->
  exists m', update_name h (name_of text) handle =
      Ret (set_map h m', map (fun x => SocketSend (s_fd s) (frame (addressed (handle_local handle) x))) xs) /\
    names_ok m' /\ name_state m' (name_of text) handle [].
Proof.
  intros Hm Ht Hh Hs Hfd Hst Hxs. pose proof (name_of_ok text Ht) as Hn.
  destruct (find_state _ _ _ _ Hm Hn Hst) as (p & m1 & kv & He & Hm1 & Hkv & Hsr & Hv & Hq & _).
  unfold update_name. rewrite He, bind_Ret, (read_at_Some _ _ _ Hkv), bind_Ret.
  assert (Hdone : forall kv', kv_next kv' = kv_next kv -> kv_key kv' = kv_key kv ->
    kv_hash kv' = kv_hash kv -> kv_value kv' = handle -> kv_queue kv' = None ->
    names_ok (set_node m1 p kv') /\ name_state (set_node m1 p kv') (name_of text) handle []).
  { intros kv' H1 H2 H3 H4 H5.
    destruct (set_node_spec m1 p kv kv' (name_of text) Hm1 Hn Hkv Hsr H1 H2 H3) as (Hok & Hnode & _).
    split; [done|]. unfold name_state. by rewrite Hnode, H5. }
  cbn [kv_queue set_kv_value]. destruct (kv_queue kv) as [queue|] eqn:Eq; cbn [opt_repr] in Hq.
  - unfold dispatch_name_queue. cbn [kv_value set_kv_value]. fold (handle_harbor handle).
    rewrite bool_decide_false, Hs, bind_Ret, bool_decide_false by done.
    destruct (drain_repr _ _ Hq) as (queue' & Hd & Hq'). rewrite Hd, bind_Ret.
    rewrite map_map, (map_ext _ _ (or_addressed handle)), send_all_posts, bind_Ret, bind_Ret by done.
    step_with (release_queue_repr (Some queue') []) by done.
    cbn [map]. rewrite app_nil_r. eexists. split; [done|]. by apply Hdone.
  - destruct xs; [|done]. eexists. split; [done|]. by apply Hdone.
Qed.

Lemma post_known h text x handle s :
  names_ok (h_map h) -> text_ok text -> handle_harbor handle <> 0 ->
  handle_harbor handle <> h_id h ->
  read_at (h_s h) (handle_harbor handle) = Ret s -> s_fd s <> 0 ->
  s_status s <> STATUS_HANDSHAKE -> post_fits x ->
  name_state (h_map h) (name_of text) handle [] ->
  exists m', mainloop skynet_send h (to_name text x) =
      Ret (set_map h m', [SocketSend (s_fd s) (frame (addressed (handle_local handle) x));
                          Free (po_data x)]) /\
    names_ok m' /\ name_state m' (name_of text) handle [].
Proof.
  intros Hm Ht Hh Hid Hs Hfd Hst Hx Hns. pose proof (name_of_ok text Ht) as Hn.
  destruct (find_state _ _ _ _ Hm Hn Hns) as (p & m' & kv & He & Hm' & Hkv & Hsr & Hv & _ & Hns').
  cbn [mainloop to_name]. unfold mainloop_remote, remote_send_name. cbn [rm_handle rm_name rm_message].
  rewrite bool_decide_true by done. rewrite He, bind_Ret. cbn [h_map set_map].
  rewrite (read_at_Some _ _ _ Hkv), bind_Ret, Hv.
  rewrite bool_decide_false by (intros ->; by apply Hh).
  unfold remote_send_handle. fold (handle_harbor handle). cbn [h_id h_s set_map].
  rewrite bool_decide_false, Hs, bind_Ret by done. cbv zeta.
  rewrite (bool_decide_false (_ \/ _)) by (intros [?|?]; done).
  rewrite send_remote_frame, bind_Ret, bind_Ret, bool_decide_false by (try done; by intros H; apply H).
  unfold addressed. rewrite (Z.lor_comm (u32 _)). eauto.
Qed.

Lemma posts_known text handle s xs : text_ok text -> handle_harbor handle <> 0 -> s_fd s <> 0 ->
  s_status s <> STATUS_HANDSHAKE -> Forall post_fits xs -> forall h,
  names_ok (h_map h) -> handle_harbor handle <> h_id h ->
  read_at (h_s h) (handle_harbor handle) = Ret s ->
  name_state (h_map h) (name_of text) handle [] ->
  exists h' acts, harbor_run skynet_send h (map (to_name text) xs) = Ret (h', acts) /\
    calls acts = map (fun x => SocketSend (s_fd s) (frame (addressed (handle_local handle) x))) xs.
Proof.
  intros Ht Hh Hfd Hst Hxs. induction Hxs as [|x xs Hx _ IH]; intros h Hm Hid Hs Hns;
    cbn [map harbor_run]; [eauto|].
  destruct (post_known h text x handle s) as (m' & He & Hm' & Hns'); try done.
  rewrite He, bind_Ret. destruct (IH (set_map h m')) as (h' & acts & Hr & Hc); try done.
  rewrite Hr, bind_Ret. do 2 eexists. split; [done|]. rewrite calls_app, Hc. done.
Qed.

Lemma harbor_run_app ms1 ms2 h : harbor_run skynet_send h (ms1 ++ ms2) =
  ('(h1, a) ← harbor_run skynet_send h ms1;
   '(h2, b) ← harbor_run skynet_send h1 ms2; Ret (h2, a ++ b)).
Proof.
  revert h. induction ms1 as [|m ms1 IH]; intros h; cbn [app harbor_run].
  - rewrite bind_Ret. destruct (harbor_run skynet_send h ms2) as [[]| |]; done.
  - destruct (mainloop skynet_send h m) as [[h1 a]| |]; try done. rewrite !bind_Ret, IH.
    destruct (harbor_run skynet_send h1 ms1) as [[h2 b]| |]; try done. rewrite !bind_Ret.
    destruct (harbor_run skynet_send h2 ms2) as [[h3 c]| |]; try done. rewrite !bind_Ret.
    by rewrite app_assoc.
Qed.

Lemma run_one h m : harbor_run skynet_send h [m] = mainloop skynet_send h m.
Proof.
  cbn [harbor_run]. destruct (mainloop skynet_send h m) as [[h1 a]| |]; try done.
  rewrite !bind_Ret. by rewrite app_nil_r.
Qed.

Lemma calls_map {A} (f : A -> action) l : (forall x, is_call (f x)) -> calls (map f l) = map f l.
Proof. intros H. apply calls_all, Forall_map, Forall_forall. intros x _. apply H. Qed.

(** C13: a name is resolved once and nothing sent to it is lost or reordered: the posts
    to an unknown name each ask the slave service for it, and when its handle becomes
    known, on a node that is connected, the waiting posts and then every later one go
    out on the connection of that node, in order, addressed to the handle. *)
Theorem name_waits_then_delivers h text handle s before after :
  names_ok (h_map h) -> name_state (h_map h) (name_of text) 0 [] -> text_ok text ->
  handle_harbor handle <> 0 -> handle_harbor handle <> h_id h ->
  read_at (h_s h) (handle_harbor handle) = Ret s -> s_fd s <> 0 ->
  s_status s <> STATUS_HANDSHAKE ->
  Forall post_fits before -> Forall post_fits after -> Z.of_nat (length before) < 2 ^ 30 ->
  exists h' acts,
    harbor_run skynet_send h
      (map (to_name text) before ++ [learn text handle] ++ map (to_name text) after) =
      Ret (h', acts) /\
    calls acts = map (fun _ => query h text) before ++
      map (fun x => SocketSend (s_fd s) (frame (addressed (handle_local handle) x)))
        (before ++ after).
Proof.
  intros Hm Hns Ht Hh Hid Hs Hfd Hst Hb Ha Hlt.
  destruct (posts_wait text before Ht h [] Hm Hns Hlt) as (m1 & H1 & Hm1 & Hns1).
  destruct (update_name_connected (set_map h m1) text handle s before)
    as (m2 & H2 & Hm2 & Hns2); try done.
  destruct (posts_known text handle s after Ht Hh Hfd Hst Ha (set_map (set_map h m1) m2))
    as (h' & acts & H3 & Hc); try done.
  exists h'. eexists. split.
  - rewrite harbor_run_app, H1, bind_Ret, harbor_run_app, run_one, learn_updates, H2, bind_Ret by done.
    rewrite H3, !bind_Ret. reflexivity.
  - by rewrite !calls_app, Hc, !calls_map, map_app.
Qed.

Lemma handle_local_type t : handle_local (u32 (Z.shiftl t 24)) = 0.
Proof. rewrite handle_local_mod, Z.shiftl_mul_pow2 by lia. unfold u32. dlia. Qed.

Lemma update_name_waiting h text handle s q0 xs :
  names_ok (h_map h) -> text_ok text -> handle_harbor handle <> 0 ->
  read_at (h_s h) (handle_harbor handle) = Ret s -> s_fd s = 0 -> s_status s <> STATUS_DOWN ->
  opt_repr (s_queue s) q0 ->
  name_state (h_map h) (name_of text) 0 (map (addressed 0) xs) ->
  Z.of_nat (length q0 + length xs) < 2 ^ 30 ->
  exists h' s', update_name h (name_of text) handle = Ret (h', []) /\
    read_at (h_s h') (handle_harbor handle) = Ret s' /\
    opt_repr (s_queue s') (q0 ++ map (addressed 0) xs).
Proof.
  intros Hm Ht Hh Hs Hfd Hst Hq0 Hns Hlt. pose proof (name_of_ok text Ht) as Hn.
  destruct (find_state _ _ _ _ Hm Hn Hns) as (p & m1 & kv & He & Hm1 & Hkv & Hsr & Hv & Hq & _).
  unfold update_name. rewrite He, bind_Ret, (read_at_Some _ _ _ Hkv), bind_Ret.
  cbn [kv_queue set_kv_value]. destruct (kv_queue kv) as [queue|] eqn:Eq; cbn [opt_repr] in Hq.
  2:{ destruct xs; [|done]. cbn [map]. rewrite app_nil_r. eexists _, s. by split_and!. }
  unfold dispatch_name_queue. cbn [kv_value set_kv_value]. fold (handle_harbor handle).
  rewrite bool_decide_false, Hs, bind_Ret, bool_decide_true, bool_decide_false by done.
  pose proof (read_at_lt _ _ _ Hs) as Hk.
  assert (Hset : forall s', set_slave h (handle_harbor handle) s' =
      Ret (set_slaves h (<[Z.to_nat (handle_harbor handle) := s']> (h_s h))))
    by (intros s'; unfold set_slave; by rewrite write_at_Z, bind_Ret).
  assert (Hget : forall s', read_at (<[Z.to_nat (handle_harbor handle) := s']> (h_s h))
      (handle_harbor handle) = Ret s')
    by (intros s'; apply read_at_Z; [lia|apply list_lookup_insert_eq; lia]).
  destruct (s_queue s) as [sq|] eqn:Esq; cbn [opt_repr] in Hq0.
  - destruct (drain_repr _ _ Hq) as (queue' & Hd & Hq'). rewrite Hd, bind_Ret.
    destruct (push_all_repr (map (addressed 0) xs) sq q0 Hq0) as (sq' & Hp & Hsq');
      [by rewrite length_map|].
    rewrite Hp, bind_Ret, Hset, !bind_Ret, (release_queue_repr (Some queue') []), bind_Ret by done.
    do 2 eexists. split; [done|]. split; [apply Hget|]. done.
  - rewrite Hset, !bind_Ret. cbn [release_queue]. rewrite bind_Ret. subst q0.
    do 2 eexists. split; [done|]. split; [apply Hget|]. done.
Qed.

(** A name that becomes known before its node is connected loses its handle: the
    posts that waited for the name move to the queue of the node as they are, with a
    destination whose service part is 0, although the same posts would have carried the
    handle had the node been connected. *)
Theorem name_queue_loses_handle h text handle s q0 before :
  names_ok (h_map h) -> name_state (h_map h) (name_of text) 0 [] -> text_ok text ->
  handle_harbor handle <> 0 -> read_at (h_s h) (handle_harbor handle) = Ret s ->
  s_fd s = 0 -> s_status s <> STATUS_DOWN -> opt_repr (s_queue s) q0 ->
  Z.of_nat (length q0 + length before) < 2 ^ 30 ->
  exists h' s' ms,
    harbor_run skynet_send h (map (to_name text) before ++ [learn text handle]) =
      Ret (h', map (fun _ => query h text) before) /\
    read_at (h_s h') (handle_harbor handle) = Ret s' /\
    opt_repr (s_queue s') (q0 ++ ms) /\ map hm_buffer ms = map po_data before /\
    Forall (fun m => handle_local (rh_destination (hm_header m)) = 0) ms.
Proof.
  intros Hm Hns Ht Hh Hs Hfd Hst Hq0 Hlt.
  destruct (posts_wait text before Ht h [] Hm Hns) as (m1 & H1 & Hm1 & Hns1); [simpl; lia|].
  destruct (update_name_waiting (set_map h m1) text handle s q0 before)
    as (h' & s' & H2 & Hs' & Hq'); try done.
  exists h', s', (map (addressed 0) before). split; [|split; [done|split; [done|split]]].
  - rewrite harbor_run_app, H1, bind_Ret, run_one, learn_updates, H2, bind_Ret by done.
    by rewrite app_nil_r.
  - by rewrite map_map.
  - apply Forall_map, Forall_forall. intros x _. cbn. rewrite Z.lor_0_r. apply handle_local_type.
Qed.
End names.

Lemma demo_names : names_ok (h_map demo_harbor) /\
  name_state (h_map demo_harbor) (name_of (bytes_of "NAME")) 0 [].
Proof. split; [exact hash_new_ok|]. vm_compute. split; reflexivity. Qed.

Lemma name_waits_then_delivers_witness :
  let text := bytes_of "NAME" in
  exists h, harbor_run yes demo_harbor [MsgCommand (bytes_of "A 9 2") 5 3] =
              Ret (h, [SocketStart 9; SocketSend 9 [1]]) /\
    exists h' acts,
      harbor_run yes h (map (to_name text) [mk_post 5 10 7 [65]] ++ [learn text 0x2000005] ++
                        map (to_name text) [mk_post 6 10 8 [66]]) = Ret (h', acts) /\
      calls acts = map (fun _ => query h text) [mk_post 5 10 7 [65]] ++
        map (fun x => SocketSend 9 (frame (addressed (handle_local 0x2000005) x)))
          ([mk_post 5 10 7 [65]] ++ [mk_post 6 10 8 [66]]).
Proof.
  intros text. exists (demo_connected STATUS_HEADER). split; [vm_compute; reflexivity|].
  eapply (name_waits_then_delivers yes _ text 0x2000005 (mk_slave 9 None STATUS_HEADER 0 0 [0; 0; 0; 0] None));
    try reflexivity; try discriminate; try (by repeat constructor).
  - exact (proj1 demo_names).
Defined.

Lemma name_queue_loses_handle_witness :
  let text := bytes_of "NAME" in
  exists h' s' ms,
    harbor_run yes demo_harbor (map (to_name text) [mk_post 5 10 7 [65]] ++ [learn text 0x2000005]) =
      Ret (h', map (fun _ => query demo_harbor text) [mk_post 5 10 7 [65]]) /\
    read_at (h_s h') (handle_harbor 0x2000005) = Ret s' /\
    opt_repr (s_queue s') ([] ++ ms) /\ map hm_buffer ms = [[65]] /\
    Forall (fun m => handle_local (rh_destination (hm_header m)) = 0) ms.
Proof.
  intros text.
  apply (name_queue_loses_handle yes demo_harbor text 0x2000005 slave_zero []);
    try reflexivity; try discriminate.
  - exact (proj1 demo_names).
  - exact (proj2 demo_names).
  - split; [cbn; lia|]. repeat constructor; discriminate.
Defined.
