(* ===== verification/Node.v ===== *)
(** * Two nodes

    The harbor service of a node, of Harbor, as a service of the core of Server: what the
    core puts into its queue is what its message loop takes, and the calls it makes are
    the core's.  A message that a service sends to a handle of another node then arrives
    in the queue of that service, as if both were on one node. *)
From S2P Require Import Prelude MessageQueue Handle CString Timer Server Harbor.
From stdpp Require Import base list gmap numbers strings.
From Stdlib Require Import ZArith Lia.

Local Open Scope Z_scope.

(** The message of the core's queue as the message loop of the harbor reads it: a message
    to another node, whose text is as long as the size says. *)
Definition harbor_message_of (m : sn_message) : option harbor_message :=
  match data m with
  | Some (Rmsg name handle message size) =>
    if bool_decide (msg_type (sz m) = PTYPE_SOCKET \/ msg_type (sz m) = PTYPE_HARBOR) then None
    else Some (MsgRemote (source m) (msg_type (sz m)) (session m)
                 (mk_remote_message name handle (take (Z.to_nat size) (default [] message))))
  | _ => None
  end.

Section NODE.
Context {G : Type} `{GlobalQueue G}.

Abbreviation srv := (srv (G := G)).

(** The calls of the harbor service [p], one after the other; those of the socket layer
    do not touch the state of the core. *)
Definition perform_one (p : ctxptr) (a : action) : srv unit :=
  match a with
  | Send src dest type session text =>
    _ ← skynet_send (Some p) src dest type session (Some text) (Z.of_nat (length text)); mret tt
  | LogError text => skynet_error (Some p) text
  | Free buffer => sn_free (Some (Text buffer))
  | SetCallback => skynet_callback p true
  | HarborStart => skynet_harbor_start p
  | SocketClose _ | SocketStart _ | SocketSend _ _ => mret tt
  end.

Fixpoint perform (p : ctxptr) (acts : list action) : srv unit :=
  match acts with
  | [] => mret tt
  | a :: acts => _ ← perform_one p a; perform p acts
  end.

(** The answer of [skynet_send] that the harbor service [p] gets in state [s]. *)
Definition answer (p : ctxptr) (s : SNServer) (src dest type session : Z) (text : list Z) : Z :=
  match skynet_send (Some p) src dest type session (Some text) (Z.of_nat (length text)) s with
  | Ret (r, _) => r
  | _ => -1
  end.

(** ** Sending to the harbor *)

(** A type that the harbor takes for a message to another node; a type from 128 on is
    negative here, and arrives as it was. *)
Definition remote_type (type : Z) : Prop :=
  0 <= Z.land type 0xff < 128 /\ Z.land type 0xff <> PTYPE_SYSTEM /\
  Z.land type 0xff <> PTYPE_HARBOR /\ Z.land type 0xff <> PTYPE_SOCKET.

(** What the core gives to the harbor for a text to handle [dest]. *)
Definition remote_post (dest type session : Z) (text : list Z) (source : Z) (c : SNContext) : sn_message :=
  mk_sn_message (sent_source source c) (sent_session type session c)
    (Some (Rmsg (replicate 16 0) dest (Some (sent_text type text)) (Z.of_nat (length text))))
    (Z.lor REMOTE_MESSAGE_SIZE (type_bits (Z.land type 0xff))).

Lemma sent_text_take type text : take (length text) (sent_text type text) = text.
Proof. unfold sent_text. case_bool_decide; [apply take_app_length|apply firstn_all]. Qed.

Lemma harbor_message_remote dest type session text source c : remote_type type ->
  harbor_message_of (remote_post dest type session text source c) =
    Some (MsgRemote (sent_source source c) (Z.land type 0xff) (sent_session type session c)
            (mk_remote_message (replicate 16 0) dest text)).
Proof.
  intros (Ht & Hs & Hh & Hso). unfold harbor_message_of, remote_post. cbn.
  destruct (sz_split (Z.land type 0xff) REMOTE_MESSAGE_SIZE) as [E _]; [unfold REMOTE_MESSAGE_SIZE; lia|].
  change (Z.lor 40) with (Z.lor REMOTE_MESSAGE_SIZE). rewrite E, i8_small by done.
  rewrite bool_decide_false by (intros [?|?]; done). do 3 f_equal.
  rewrite Nat2Z.id. apply sent_text_take.
Qed.

Lemma send_to_harbor s p c hp hc hq hmq source dest type session text :
  contexts s !! p = Some c -> contexts s !! hp = Some hc -> c_queue hc = Some hq ->
  queues s !! hq = Some hmq -> REMOTE s = Some hp -> HARBOR s <> 0 ->
  skynet_harbor_message_isremote dest s = true -> dest <> 0 -> text_fits text ->
  (allocates type = true -> session = 0) -> remote_type type ->
  exists s' hmq',
    skynet_send (Some p) source dest type session (Some text) (Z.of_nat (length text)) s =
      Ret (sent_session type session c, s') /\
    queues s' = <[hq := hmq']> (queues s) /\
    m_queue hmq' = m_queue hmq ++ [remote_post dest type session text source c].
Proof.
  intros Hc Hhc Hhq Hhmq Hr Hn Hrem Hd Ht Hs (Hty & Hsys & Hhar & _).
  rewrite (skynet_send_text s p c) by done. cbv zeta. rewrite Hrem.
  set (s1 := sent_context type p c s).
  assert (Hs1 : queues s1 = queues s /\ REMOTE s1 = REMOTE s /\ HARBOR s1 = HARBOR s /\
    exists hc1, contexts s1 !! hp = Some hc1 /\ c_queue hc1 = Some hq).
  { unfold s1, sent_context. destruct (allocates type); [|by split_and!; [..|exists hc]]. split_and!; [done..|]. cbn.
    destruct (decide (hp = p)) as [->|Hne].
    - rewrite lookup_insert_eq. eexists. split; [done|]. cbn. congruence.
    - rewrite lookup_insert_ne by done. by exists hc. }
  destruct Hs1 as (Hq1 & Hr1 & Hn1 & hc1 & Hhc1 & Hhq1).
  destruct (sz_split (Z.land type 0xff) (Z.of_nat (length text))) as [E1 E2];
    [unfold text_fits in Ht; lia|].
  assert (Hhs : skynet_harbor_send (replicate 16 0) dest (Some (sent_text type text))
      (Z.lor (Z.of_nat (length text)) (type_bits (Z.land type 0xff)))
      (sent_source source c) (sent_session type session c) s1 =
    SNContext_Push hp (remote_post dest type session text source c) s1).
  { unfold skynet_harbor_send. rewrite bind_get, Hn1, bind_require, bool_decide_true by done.
    cbv zeta. rewrite E1, E2, bind_require, i8_small, !bool_decide_true by done. cbn [andb].
    rewrite Hr1, Hr. done. }
  rewrite <- Hq1 in Hhmq.
  assert (Hpush : SNContext_Push hp (remote_post dest type session text source c) s1 =
    Ret (tt, push_to hq hmq (remote_post dest type session text source c) s1)).
  { unfold SNContext_Push. rewrite (bind_step _ _ _ _ _ (MessageQueue_Some _ _ _ _ Hhc1 Hhq1)).
    by rewrite (bind_step _ _ _ _ _ (queue_of_Some _ _ _ Hhmq)). }
  destruct (push_to_spec hq hmq (remote_post dest type session text source c) s1 Hhmq)
    as (hmq' & Hqs & Hmm & _).
  eexists _, hmq'. split; [|split].
  - rewrite (bind_step _ _ _ _ _ (eq_trans Hhs Hpush)). reflexivity.
  - by rewrite Hqs, Hq1.
  - done.
Qed.

(** ** The harbor of the sender *)

Lemma mainloop_connected (sk : Z -> Z -> Z -> Z -> list Z -> Z) h dest sl src type session text :
  handle_harbor dest <> h_id h -> read_at (h_s h) (handle_harbor dest) = Ret sl ->
  s_fd sl <> 0 -> s_status sl <> STATUS_HANDSHAKE -> dest <> 0 ->
  Z.of_nat (length text) + 16 < 2 ^ 32 ->
  mainloop sk h (MsgRemote src type session (mk_remote_message (replicate 16 0) dest text)) =
    Ret (h, [SocketSend (s_fd sl) (frame (addressed (handle_local dest) (mk_post src type session text)));
             Free text]).
Proof.
  intros Hid Hs Hfd Hst Hd Hl. cbn [mainloop]. unfold mainloop_remote. cbn [rm_handle rm_name rm_message].
  rewrite bool_decide_false by done. unfold remote_send_handle. fold (handle_harbor dest).
  rewrite bool_decide_false, Hs, bind_Ret by done. cbv zeta.
  rewrite (bool_decide_false (_ \/ _)) by (intros [?|?]; done).
  rewrite send_remote_frame, bind_Ret, bind_Ret, bool_decide_false by (try done; by intros H0; apply H0).
  unfold addressed. by rewrite (Z.lor_comm (u32 _)).
Qed.
(** ** The harbor of the receiver *)

(** A connection between two frames. *)
Definition link_idle (h : harbor) (id : nat) (fd : Z) (s : slave) : Prop :=
  h_s h !! id = Some s /\ find_fd h fd = Some id /\ s_status s = STATUS_HEADER /\
  s_read s = 0 /\ length (s_size s) = 4%nat.

Lemma idle_run sk h id fd s m ds : link_idle h id fd s -> msg_ok m -> concat ds = frame m ->
  exists h' acts, harbor_run sk h (data_message fd <$> ds) = Ret (h', acts) /\
    calls acts = delivery sk h m.
Proof.
  intros (Hs & Hf & Hst & Hrd & Hsz) Hm Hcat.
  destruct (chunks_run sk fd id ds h s [m]) as (s' & acts & Hr & Hc & _); try done.
  - by apply Forall_singleton.
  - apply (link_header _ _ 0); [done|done|lia|done|]. cbn [map concat take app].
    by rewrite app_nil_r.
  - eexists _, acts. split; [done|]. rewrite Hc. cbn [map concat]. apply app_nil_r.
Qed.

(** The post of a message of 24-bit length on the wire. *)
Lemma addressed_ok local src type session text : is_u32 src -> 0 <= local < 2 ^ 24 ->
  0 <= type < 256 -> Bytes text -> Z.of_nat (length text) + 12 < 2 ^ 24 ->
  msg_ok (addressed local (mk_post src type session text)).
Proof.
  intros Hs Hl Ht Hb Hn. split; [|by split]. split; [done|]. split; [|apply u32_range].
  cbn [addressed hm_header rh_destination po_type]. rewrite Z.lor_comm, Z.shiftl_mul_pow2 by lia.
  rewrite u32_small by (unfold is_u32; lia).
  rewrite <- (Z.shiftl_mul_pow2 type 24), lor_shiftl_add by lia. unfold is_u32. lia.
Qed.

(** The type that the header of a frame gives to [skynet_send]. *)
Lemma delivered_type type local : 0 <= type < 256 -> 0 <= local < 2 ^ 24 ->
  handle_harbor (Z.lor (u32 (Z.shiftl type 24)) local) = type /\
  handle_local (Z.lor (u32 (Z.shiftl type 24)) local) = local.
Proof.
  intros Ht Hl. rewrite Z.lor_comm, Z.shiftl_mul_pow2 by lia.
  rewrite u32_small by (unfold is_u32; lia). split; [|by apply lor_harbor_local].
  rewrite <- (Z.shiftl_mul_pow2 type 24), lor_shiftl_add by lia.
  unfold handle_harbor, HANDLE_REMOTE_SHIFT. rewrite shiftr_div by lia. dlia.
Qed.

Lemma dontcopy_type : forall type, 0 <= type < 256 ->
  let t := Z.lor type PTYPE_TAG_DONTCOPY in
  allocates t = false /\ bool_decide (Z.land t PTYPE_TAG_DONTCOPY = 0) = false /\ Z.land t 0xff = type.
Proof.
  apply (below_Forall 256). apply Forall_forall.
  assert (Hall : forallb (fun i => let t := Z.lor (Z.of_nat i) PTYPE_TAG_DONTCOPY in
    negb (allocates t) && negb (bool_decide (Z.land t PTYPE_TAG_DONTCOPY = 0)) &&
    bool_decide (Z.land t 0xff = Z.of_nat i)) (seq 0 256) = true) by (vm_compute; reflexivity).
  rewrite List.forallb_forall in Hall. intros i Hi%list_elem_of_In. specialize (Hall i Hi). cbv zeta in *.
  apply andb_true_iff in Hall as [[H1%negb_true_iff H2%negb_true_iff]%andb_true_iff H3%bool_decide_eq_true].
  done.
Qed.

(** The handle of a node and a service, put together again. *)
Lemma same_handle dest id : is_u32 dest -> handle_harbor dest = id ->
  Z.lor (handle_local dest) (u32 (Z.shiftl (u32 id) 24)) = dest.
Proof.
  intros Hd <-. unfold handle_harbor, HANDLE_REMOTE_SHIFT, is_u32 in *. rewrite shiftr_div by lia.
  rewrite (u32_small (dest / _)) by (unfold is_u32; dlia).
  rewrite Z.shiftl_mul_pow2 by lia. rewrite u32_small by (unfold is_u32; dlia).
  rewrite handle_local_mod, <- (Z.shiftl_mul_pow2 _ 24), lor_shiftl_add by (try lia; dlia). dlia.
Qed.

(** The receiving node gives the message to its service. *)
Lemma deliver_local s p c dest t ct q mq src type session text :
  contexts s !! p = Some c -> live s dest t ct q mq -> dest <> 0 ->
  skynet_harbor_message_isremote dest s = false -> text_fits text -> src <> 0 -> 0 <= type < 256 ->
  let m := mk_sn_message src session (Some (Text text)) (Z.lor (Z.of_nat (length text)) (type_bits type)) in
  skynet_send (Some p) src dest (Z.lor type PTYPE_TAG_DONTCOPY) session (Some text)
    (Z.of_nat (length text)) s = Ret (session, push_to q mq m s).
Proof.
  intros Hc Hl Hd Hr Ht Hsrc Hty m. destruct (dontcopy_type type Hty) as (Ha & Hdc & Hb).
  rewrite (skynet_send_text s p c) by (try done; by rewrite Ha). cbv zeta. rewrite Hr.
  unfold sent_context, sent_session, the_message, sent_source, sent_session, sent_text.
  rewrite Ha, Hb, Hdc, (bool_decide_false (src = 0)) by done.
  by rewrite (bind_step _ _ _ _ _ (ContextPush_live _ _ _ _ _ _ _ Hl)), bool_decide_false by auto.
Qed.

(** C4: a message crosses nodes unchanged.  When a service sends a text to a handle of
    another node, its own harbor service gets it and writes one frame to the connection
    of that node; the other node's harbor, fed the bytes of the frame in any pieces,
    makes the one call that puts the message behind those of the addressed service, whose
    callback then gets the sender's type, session, handle and text. *)
Theorem send_crosses_nodes
    (sA : SNServer (G := G)) p c hp hc hq hmq source dest type session text
    hA sl (sB : SNServer (G := G)) pB cB hB id fdB slB t ct q mq :
  (* the sending node *)
  contexts sA !! p = Some c -> contexts sA !! hp = Some hc -> c_queue hc = Some hq ->
  queues sA !! hq = Some hmq -> REMOTE sA = Some hp -> HARBOR sA <> 0 ->
  skynet_harbor_message_isremote dest sA = true -> dest <> 0 ->
  (allocates type = true -> session = 0) -> remote_type type ->
  Bytes text -> Z.of_nat (length text) + 12 < 2 ^ 24 ->
  is_u32 (sent_source source c) -> sent_source source c <> 0 -> is_i32 (sent_session type session c) ->
  is_u32 dest -> 0 <= sent_session type session c ->
  (* its harbor is connected to the node of [dest] *)
  handle_harbor dest <> h_id hA -> read_at (h_s hA) (handle_harbor dest) = Ret sl ->
  s_fd sl <> 0 -> s_status sl <> STATUS_HANDSHAKE ->
  (* the receiving node *)
  h_id hB = handle_harbor dest -> link_idle hB id fdB slB ->
  contexts sB !! pB = Some cB -> live sB dest t ct q mq ->
  skynet_harbor_message_isremote dest sB = false ->
  exists (sA' : SNServer (G := G)) hmq' m post hA' fr,
    skynet_send (Some p) source dest type session (Some text) (Z.of_nat (length text)) sA =
      Ret (sent_session type session c, sA') /\
    queues sA' = <[hq := hmq']> (queues sA) /\ m_queue hmq' = m_queue hmq ++ [m] /\
    harbor_message_of m = Some post /\
    (forall sk, mainloop sk hA post = Ret (hA', [SocketSend (s_fd sl) fr; Free text])) /\
    forall ds, concat ds = fr ->
      exists hB' acts (sB' : SNServer (G := G)) mq' m',
        harbor_run (answer pB sB) hB (data_message fdB <$> ds) = Ret (hB', acts) /\
        perform pB (calls acts) sB = Ret (tt, sB') /\
        queues sB' = <[q := mq']> (queues sB) /\ m_queue mq' = m_queue mq ++ [m'] /\
        forall (callback : ctxptr -> Z -> Z -> Z -> buffer_ptr -> Z -> srv Z) (r : SNServer (G := G)) ct', contexts r !! t = Some ct' -> c_cb ct' = true -> c_init ct' = true ->
          DispatchMessage callback t m' r =
            (answer ← callback t (Z.land type 0xff) (sent_session type session c)
                        (sent_source source c) (Some (Text text)) (Z.of_nat (length text));
             if bool_decide (answer = 0) then sn_free (G := G) (Some (Text text)) else mret tt) r.
Proof.
  intros Hc Hhc Hhq Hhmq Hrem HharA HrA Hd Hs Hty Hbytes Hlen Hsrc Hsrc0 Hse Hdest Hse0
    HidA HslA Hfd Hst HidB Hlink HcB Hl HrB.
  assert (Hfit : text_fits text) by (unfold text_fits; lia).
  pose proof (type_byte type) as Htb. pose proof Hty as (Ht & _).
  destruct (send_to_harbor sA p c hp hc hq hmq source dest type session text)
    as (sA' & hmq' & Hsend & HqA & HmA); [done..|].
  set (src := sent_source source c) in *. set (se := sent_session type session c) in *.
  set (ty := Z.land type 0xff) in *.
  set (w := addressed (handle_local dest) (mk_post src ty se text)).
  exists sA', hmq', (remote_post dest type session text source c).
  exists (MsgRemote src ty se (mk_remote_message (replicate 16 0) dest text)), hA, (frame w).
  split; [done|]. split; [done|]. split; [done|]. split; [by apply harbor_message_remote|].
  split; [intros sk; apply mainloop_connected; try done; lia|].
  intros ds Hds.
  assert (Hw : msg_ok w).
  { apply addressed_ok; [done| |done|done|done]. rewrite handle_local_mod. dlia. }
  set (m' := mk_sn_message src se (Some (Text text)) (Z.lor (Z.of_nat (length text)) (type_bits ty))).
  pose proof (deliver_local sB pB cB dest t ct q mq src ty se text HcB Hl Hd HrB Hfit Hsrc0 Htb) as Hdel.
  fold m' in Hdel.
  destruct (idle_run (answer pB sB) hB id fdB slB w ds Hlink Hw Hds) as (hB' & acts & Hrun & Hcalls).
  assert (Hdelivery : delivery (answer pB sB) hB w =
    [Harbor.Send src dest (Z.lor ty PTYPE_TAG_DONTCOPY) se text]).
  { unfold delivery, w, addressed. cbn [hm_header hm_buffer rh_source rh_destination rh_session
      po_source po_type po_session po_data]. cbv zeta.
    destruct (delivered_type ty (handle_local dest)) as [-> ->]; [done|rewrite handle_local_mod; dlia|].
    rewrite i32_u32, i32_small, HidB, same_handle by done.
    unfold answer. rewrite Hdel. by rewrite bool_decide_false by lia. }
  destruct (push_to_spec q mq m' sB (live_mq _ _ _ _ _ _ Hl)) as (mq' & HqB & HmB & _).
  exists hB', acts, (push_to q mq m' sB), mq', m'. split; [done|]. split.
  - rewrite Hcalls, Hdelivery. cbn [perform perform_one]. rewrite bind_bind.
    by rewrite (bind_step _ _ _ _ _ Hdel), bind_mret.
  - split; [done|]. split; [done|]. intros callback r cr Hcr Hcb Hi.
    rewrite (DispatchMessage_calls callback r t cr) by done.
    destruct (sz_split ty (Z.of_nat (length text))) as [E1 E2]; [unfold text_fits in Hfit; lia|].
    unfold m'. cbn [sz MessageQueue.session MessageQueue.source data]. by rewrite E1, E2, i8_small.
Qed.
End NODE.

(** Node 1 connected to node 2, and node 2 to node 1. *)
Definition demo_link (id other : nat) : harbor :=
  let h := snd (fst (harbor_init harbor_create (print_int (Z.of_nat id) ++ bytes_of " 16777218"))) in
  set_slaves h (<[other := mk_slave 9 None STATUS_HEADER 0 0 [0; 0; 0; 0] None]> (h_s h)).

Lemma send_crosses_nodes_witness :
  let demo1 := demo_node 1 in
  let demo2 := demo_node 2 in
  exists (sA' : SNServer (G := debug_mgr)) hmq' m post hA' fr,
    demo_send demo1 (2 * 2 ^ 24 + 2) = Ret (1, sA') /\
    queues sA' = <[23 := hmq']> (queues demo1) /\ m_queue hmq' = [] ++ [m] /\
    harbor_message_of m = Some post /\
    (forall sk, mainloop sk (demo_link 1 2) post = Ret (hA', [SocketSend 9 fr; Free [65; 66]])) /\
    forall ds, concat ds = fr ->
      exists hB' acts (sB' : SNServer (G := debug_mgr)) mq' m',
        harbor_run (answer 13 demo2) (demo_link 2 1) (data_message 9 <$> ds) = Ret (hB', acts) /\
        perform 13 (calls acts) demo2 = Ret (tt, sB') /\
        queues sB' = <[22 := mq']> (queues demo2) /\ m_queue mq' = [] ++ [m'] /\
        forall (callback : ctxptr -> Z -> Z -> Z -> buffer_ptr -> Z -> srv (G := debug_mgr) Z)
          (r : SNServer (G := debug_mgr)) ct', contexts r !! 12 = Some ct' -> c_cb ct' = true -> c_init ct' = true ->
          DispatchMessage callback 12 m' r =
            (answer ← callback 12 0 1 (2 ^ 24 + 1) (Some (Text [65; 66])) 2;
             if bool_decide (answer = 0) then sn_free (G := debug_mgr) (Some (Text [65; 66])) else mret tt) r.
Proof.
  intros demo1 demo2.
  pose proof (send_crosses_nodes demo1 11 (demo_context (2 ^ 24 + 1) 21) 13 (demo_context (2 ^ 24 + 3) 23) 23
    (SNMessageQueue_new (2 ^ 24 + 3)) 0 (2 * 2 ^ 24 + 2) PTYPE_TAG_ALLOCSESSION 0 [65; 66]
    (demo_link 1 2) (mk_slave 9 None STATUS_HEADER 0 0 [0; 0; 0; 0] None)
    demo2 13 (demo_context (2 * 2 ^ 24 + 3) 23) (demo_link 2 1) 1 9
    (mk_slave 9 None STATUS_HEADER 0 0 [0; 0; 0; 0] None) 12 (demo_context (2 * 2 ^ 24 + 2) 22) 22
    (SNMessageQueue_new (2 * 2 ^ 24 + 2))) as Hs.
  apply Hs; clear Hs; try reflexivity; try (vm_compute; discriminate).
  - by split_and!.
  - repeat constructor; lia.
  - vm_compute. by split.
  - vm_compute. by split.
  - vm_compute. by split.
  - split_and!; reflexivity.
  - apply (demo_live 2 2); lia.
Defined.
