(* ===== verification/SprotoPack.v ===== *)
(** * Zero packing (src/lualib-src/sproto/sproto.c: sproto_pack, sproto_unpack;
    lsproto.c: pack, unpack)

    Messages are packed in segments of eight bytes: a header byte with a bit for each
    byte that is not zero, and these bytes.  Segments without zeros, and the ones behind
    them with at most two zeros, are copied as they are under an 0xff and a count of up
    to 256 segments.  The packer writes segments first and comes back to a run of copied
    ones when it knows its length. *)
From S2P Require Import Prelude.
From stdpp Require Import base list gmap numbers strings.
From Stdlib Require Import ZArith Lia Bool.

Local Open Scope Z_scope.

(** ** Packing *)

(** The [for] of [pack_seg] over the bytes of a segment from bit [i] on; nothing is
    written behind the end of the buffer. *)
Fixpoint seg_loop (src : list Z) (i : Z) (buf : list Z) (pos sz header notzero : Z)
  : outcome (list Z * Z * Z) :=
  match src with
  | [] => Ret (buf, header, notzero)
  | b :: src =>
    if bool_decide (b <> 0) then
      let notzero := notzero + 1 in
      let header := Z.lor header (Z.shiftl 1 i) in
      if bool_decide (sz > 0) then
        buf ← write_at buf pos b;
        seg_loop src (i + 1) buf (pos + 1) (sz - 1) header notzero
      else seg_loop src (i + 1) buf pos sz header notzero
    else seg_loop src (i + 1) buf pos sz header notzero
  end.

(** [buf] is the memory and [pos] the output pointer, behind which [sz] bytes are left. *)
Definition pack_seg (src buf : list Z) (pos sz n : Z) : outcome (list Z * Z) :=
  '(buf, header, notzero) ← seg_loop src 0 buf (pos + 1) (sz - 1) 0 0;
  let notzero := if bool_decide ((notzero = 7 \/ notzero = 6) /\ n > 0) then 8 else notzero in
  if bool_decide (notzero = 8) then
    Ret (buf, if bool_decide (n > 0) then 8 else 10)
  else
    buf ← (if bool_decide (sz - 1 < 0) then Ret buf else write_at buf pos (u8 header));
    Ret (buf, notzero + 1).

(** [src] is the memory from the source pointer on. *)
Definition write_ff (src buf : list Z) (des n : Z) : outcome (list Z) :=
  let align8_n := Z.land (n + 7) (Z.lnot 7) in
  buf ← write_at buf des 0xff;
  buf ← write_at buf (des + 1) (u8 (align8_n / 8 - 1));
  body ← read_bytes src 0 n;
  buf ← write_bytes buf (des + 2) body;
  write_bytes buf (des + n + 2) (replicate (Z.to_nat (align8_n - n)) 0).

(** A pointer into the message or to the local copy of the last segment. *)
Inductive src_ptr := InSrc (off : Z) | InTmp.

Record pack_state := mk_pack {
  p_buf : list Z;
  p_pos : Z;
  p_bufsz : Z;
  p_ff_src : src_ptr;
  p_ff_des : Z;
  p_ff_n : Z;
  p_size : Z;
  p_tmp : list Z
}.

Definition memory_at (srcv tmp : list Z) (p : src_ptr) : list Z :=
  match p with
  | InSrc off => drop (Z.to_nat off) srcv
  | InTmp => tmp
  end.

(** [ff_srcstart] and [ff_desstart] are pending when [ff_n > 0]. *)
Definition flush_ff (srcv tmp buf : list Z) (p : src_ptr) (des ff_n bufsz : Z)
  : outcome (list Z) :=
  if bool_decide (bufsz >= 0) then write_ff (memory_at srcv tmp p) buf des (ff_n * 8) else Ret buf.

(** What [sproto_pack] does with the answer [n] of [pack_seg]. *)
Definition track_run (srcv tmp : list Z) (src : src_ptr) (st : pack_state) (buf : list Z) (n : Z)
  : outcome (list Z * src_ptr * Z * Z) :=
  let bufsz := p_bufsz st - n in
  if bool_decide (n = 10) then Ret (buf, src, p_pos st, 1)
  else if bool_decide (n = 8 /\ p_ff_n st > 0) then
    let ff_n := p_ff_n st + 1 in
    if bool_decide (ff_n = 256) then
      buf ← flush_ff srcv tmp buf (p_ff_src st) (p_ff_des st) 256 bufsz;
      Ret (buf, p_ff_src st, p_ff_des st, 0)
    else Ret (buf, p_ff_src st, p_ff_des st, ff_n)
  else if bool_decide (p_ff_n st > 0) then
    buf ← flush_ff srcv tmp buf (p_ff_src st) (p_ff_des st) (p_ff_n st) bufsz;
    Ret (buf, p_ff_src st, p_ff_des st, 0)
  else Ret (buf, p_ff_src st, p_ff_des st, p_ff_n st).

Definition pack_round (srcv : list Z) (i : Z) (st : pack_state) : outcome pack_state :=
  let srcsz := Z.of_nat (length srcv) in
  let padding := i + 8 - srcsz in
  '(src, tmp, seg) ←
    (if bool_decide (padding > 0) then
       part ← read_bytes srcv i (8 - padding);
       let tmp := part ++ replicate (Z.to_nat padding) 0 in
       Ret (InTmp, tmp, tmp)
     else seg ← read_bytes srcv i 8; Ret (InSrc i, p_tmp st, seg));
  '(buf, n) ← pack_seg seg (p_buf st) (p_pos st) (p_bufsz st) (p_ff_n st);
  '(buf, p, des, ff_n) ← track_run srcv tmp src st buf n;
  Ret (mk_pack buf (p_pos st + n) (p_bufsz st - n) p des ff_n (p_size st + n) tmp).

Fixpoint pack_loop (fuel : nat) (srcv : list Z) (i : Z) (st : pack_state) : outcome pack_state :=
  if bool_decide (i < Z.of_nat (length srcv)) then
    match fuel with
    | O => Crash OutOfFuel
    | S fuel => st ← pack_round srcv i st; pack_loop fuel srcv (i + 8) st
    end
  else Ret st.

(** The size that is needed, and the buffer; it is complete when the size fits [bufsz].
    The difference of pointers to two objects has no meaning. *)
Definition sproto_pack (srcv bufferv : list Z) (bufsz : Z) : outcome (Z * list Z) :=
  st ← pack_loop (length srcv) srcv 0
         (mk_pack bufferv 0 bufsz (InSrc 0) 0 0 0 (replicate 8 0));
  if bool_decide (p_bufsz st >= 0) then
    if bool_decide (p_ff_n st = 1) then
      buf ← write_ff (memory_at srcv (p_tmp st) (p_ff_src st)) (p_buf st) (p_ff_des st) 8;
      Ret (p_size st, buf)
    else if bool_decide (p_ff_n st > 1) then
      match p_ff_src st with
      | InSrc off =>
        buf ← write_ff (memory_at srcv (p_tmp st) (InSrc off)) (p_buf st) (p_ff_des st)
                (Z.of_nat (length srcv) - off);
        Ret (p_size st, buf)
      | InTmp => Crash OutOfBounds
      end
    else Ret (p_size st, p_buf st)
  else Ret (p_size st, p_buf st).

(** ** Unpacking *)

(** The [for] over the bits of a header from [i] on, with [k] of them left: the source
    that is left, the buffer, its pointer and the bytes left there. *)
Fixpoint unpack_seg (k : nat) (header i : Z) (src : list Z) (srcsz : Z) (buf : list Z) (pos bufsz : Z)
  : outcome (option (list Z * Z * list Z * Z * Z)) :=
  match k with
  | O => Ret (Some (src, srcsz, buf, pos, bufsz))
  | S k =>
    if Z.testbit header i then
      if bool_decide (srcsz < 0) then Ret None
      else
        b ← read_at src 0;
        if bool_decide (bufsz > 0) then
          buf ← write_at buf pos b;
          unpack_seg k header (i + 1) (drop 1 src) (srcsz - 1) buf (pos + 1) (bufsz - 1)
        else unpack_seg k header (i + 1) (drop 1 src) (srcsz - 1) buf pos bufsz
    else if bool_decide (bufsz > 0) then
      buf ← write_at buf pos 0;
      unpack_seg k header (i + 1) src srcsz buf (pos + 1) (bufsz - 1)
    else unpack_seg k header (i + 1) src srcsz buf pos bufsz
  end.

Fixpoint unpack_loop (fuel : nat) (src : list Z) (srcsz : Z) (buf : list Z) (pos bufsz size : Z)
  : outcome (Z * list Z) :=
  if bool_decide (srcsz > 0) then
    match fuel with
    | O => Crash OutOfFuel
    | S fuel =>
      header ← read_at src 0;
      let srcsz := srcsz - 1 in
      let src := drop 1 src in
      if bool_decide (header = 0xff) then
        if bool_decide (srcsz < 0) then Ret (-1, buf)
        else
          c ← read_at src 0;
          let n := (c + 1) * 8 in
          if bool_decide (srcsz < n + 1) then Ret (-1, buf)
          else
            let srcsz := srcsz - (n + 1) in
            let src := drop 1 src in
            body ← read_bytes src 0 n;
            buf ← (if bool_decide (bufsz >= n) then write_bytes buf pos body else Ret buf);
            unpack_loop fuel (drop (Z.to_nat n) src) srcsz buf (pos + n) (bufsz - n) (size + n)
      else
        r ← unpack_seg 8 header 0 src srcsz buf pos bufsz;
        match r with
        | None => Ret (-1, buf)
        | Some (src, srcsz, buf, pos, bufsz) =>
          unpack_loop fuel src srcsz buf pos bufsz (size + 8)
        end
    end
  else Ret (size, buf).

(** A round takes a byte of the source. *)
Definition sproto_unpack (srcv bufferv : list Z) (bufsz : Z) : outcome (Z * list Z) :=
  unpack_loop (length srcv) srcv (Z.of_nat (length srcv)) bufferv 0 bufsz 0.

(** ** The functions of the library *)

Definition ENCODE_BUFFERSIZE : Z := 2050.
Definition ENCODE_MAXSIZE : Z := 0x1000000.

(** [do osz *= 2; while (osz < nsz)]; the size is below [2^24] or an error. *)
Fixpoint expand_loop (fuel : nat) (osz nsz : Z) : outcome Z :=
  let osz := i32 (osz * 2) in
  if bool_decide (osz < nsz) then
    match fuel with O => Crash OutOfFuel | S fuel => expand_loop fuel osz nsz end
  else Ret osz.

(** The new buffer and its size. *)
Definition expand_buffer (osz nsz : Z) : outcome (list Z * Z) :=
  osz ← expand_loop 31 osz nsz;
  if bool_decide (osz > ENCODE_MAXSIZE) then Raise "object is too large (>%d)"
  else Ret (replicate (Z.to_nat osz) 0, osz).

Definition pack_maxsz (sz : Z) : Z := (sz + 2047) / 2048 * 2 + sz.

(** [output] and [osz] are the buffer that the function keeps between its calls. *)
Definition lpack (output : list Z) (osz : Z) (src : list Z) : outcome (list Z * list Z * Z) :=
  let maxsz := pack_maxsz (Z.of_nat (length src)) in
  '(output, osz) ← (if bool_decide (osz < maxsz) then expand_buffer osz (i32 maxsz)
                    else Ret (output, osz));
  '(bytes, output) ← sproto_pack src output (i32 maxsz);
  if bool_decide (u64 bytes > maxsz) then Raise "packing error, return size = %d"
  else r ← read_bytes output 0 bytes; Ret (r, output, osz).

Definition lunpack (output : list Z) (osz : Z) (src : list Z) : outcome (list Z * list Z * Z) :=
  '(r, output) ← sproto_unpack src output osz;
  if bool_decide (r < 0) then Raise "Invalid unpack stream"
  else
    '(output, osz) ← (if bool_decide (r > osz) then expand_buffer osz r else Ret (output, osz));
    '(r, output) ← sproto_unpack src output r;
    if bool_decide (r < 0) then Raise "Invalid unpack stream"
    else s ← read_bytes output 0 r; Ret (s, output, osz).

(** The example of the sproto documentation. *)
Example pack_example :
  sproto_pack [8; 0; 0; 0; 3; 0; 2; 0; 0x19; 0; 0; 0; 0xaa; 1; 0; 0] (replicate 9 7) 9 =
    Ret (8, [0x51; 8; 3; 2; 0x31; 0x19; 0xaa; 1; 7]).
Proof. vm_compute. done. Qed.

(** A run of 256 segments that ends in the copy of an incomplete one is read from the
    message and not from the copy; the header of the last segment of a packed text may
    ask for bytes that are not there. *)
Example pack_overreads :
  sproto_pack (replicate 2046 1) (replicate 3000 0) 3000 = Crash OutOfBounds /\
  sproto_unpack [1] (replicate 8 0) 8 = Crash OutOfBounds.
Proof. vm_compute. done. Qed.

(** Fourteen bytes without a zero need eighteen; the buffer has sixteen. *)
Example lpack_too_small :
  lpack (replicate 2050 0) 2050 (replicate 14 1) = Raise "packing error, return size = %d".
Proof. vm_compute. done. Qed.

(** ** What packing means *)

Abbreviation seg := (list Z).
Definition nonzeros (s : seg) : list Z := filter (fun b => b <> 0) s.
Definition count (s : seg) : nat := length (nonzeros s).

(** A bit for each byte that is not zero, from bit [i] on. *)
Fixpoint mask (s : seg) (i acc : Z) : Z :=
  match s with
  | [] => acc
  | b :: s => mask s (i + 1) (if bool_decide (b <> 0) then Z.lor acc (Z.shiftl 1 i) else acc)
  end.

Definition small_code (s : seg) : list Z := mask s 0 0 :: nonzeros s.

Definition ff_code (run : list seg) : list Z :=
  match run with
  | [] => []
  | _ => 0xff :: Z.of_nat (length run) - 1 :: concat run
  end.

(** A segment that starts, or goes on with, the run of copied segments. *)
Definition copied (run : list seg) (s : seg) : bool :=
  bool_decide (count s = 8%nat \/ (run <> [] /\ (6 <= count s)%nat)).

Definition spec_step (st : list Z * list seg) (s : seg) : list Z * list seg :=
  let '(out, run) := st in
  if copied run s then
    if bool_decide (S (length run) = 256%nat) then (out ++ ff_code (run ++ [s]), [])
    else (out, run ++ [s])
  else (out ++ ff_code run ++ small_code s, []).

Definition spec_state (segs : list seg) : list Z * list seg := foldl spec_step ([], []) segs.

Definition pack_spec (segs : list seg) : list Z :=
  let '(out, run) := spec_state segs in out ++ ff_code run.

(** The segments of a message: the last one is filled up with zeros. *)
Definition nsegs (src : list Z) : nat := ((length src + 7) / 8)%nat.
Definition pad8 (src : list Z) : list Z := src ++ replicate (8 * nsegs src - length src) 0.
Definition seg_at (src : list Z) (j : nat) : seg := take 8 (drop (8 * j) (pad8 src)).
Definition segments (src : list Z) : list seg := seg_at src <$> seq 0 (nsegs src).

(** The last segment is incomplete and closes a run of 256. *)
Definition overreads (src : list Z) : Prop :=
  (length src mod 8 <> 0)%nat /\
  exists init s, segments src = init ++ [s] /\
    length (spec_state init).2 = 255%nat /\ copied (spec_state init).2 s.

(** ** Lemmas *)

Lemma nsegs_range src : (length src <= 8 * nsegs src < length src + 8)%nat.
Proof.
  unfold nsegs. pose proof (Nat.div_mod (length src + 7) 8 ltac:(lia)).
  pose proof (Nat.mod_upper_bound (length src + 7) 8 ltac:(lia)). lia.
Qed.

Lemma length_pad8 src : length (pad8 src) = (8 * nsegs src)%nat.
Proof. unfold pad8. pose proof (nsegs_range src). size_lia. Qed.

Lemma length_seg_at src j : (j < nsegs src)%nat -> length (seg_at src j) = 8%nat.
Proof. intros. unfold seg_at. rewrite length_take, length_drop, length_pad8. lia. Qed.

Lemma concat_segs src j k : (j + k <= nsegs src)%nat ->
  concat (seg_at src <$> seq j k) = take (8 * k) (drop (8 * j) (pad8 src)).
Proof.
  revert j. induction k as [|k IH]; intros j Hjk; [by rewrite Nat.mul_0_r|].
  cbn [seq fmap list_fmap concat]. rewrite (IH (S j)) by lia. unfold seg_at.
  replace (8 * S k)%nat with (8 + 8 * k)%nat by lia.
  replace (8 * S j)%nat with (8 * j + 8)%nat by lia.
  by rewrite <- take_take_drop, drop_drop.
Qed.

Lemma concat_segments src : concat (segments src) = pad8 src.
Proof.
  unfold segments. rewrite concat_segs by lia. rewrite Nat.mul_0_r, drop_0.
  apply take_ge. by rewrite length_pad8.
Qed.

Lemma pad8_words src : (length src mod 8 = 0)%nat -> pad8 src = src.
Proof.
  intros H. unfold pad8. pose proof (nsegs_range src).
  pose proof (Nat.div_mod (length src) 8 ltac:(lia)).
  replace (8 * nsegs src - length src)%nat with 0%nat by lia. by rewrite app_nil_r.
Qed.

(** *** Segments *)

Lemma mask_range s : forall i acc, 0 <= i -> 0 <= acc < 2 ^ i ->
  0 <= mask s i acc < 2 ^ (i + Z.of_nat (length s)).
Proof.
  induction s as [|b s IH]; intros i acc Hi Ha; cbn [mask length]; [by rewrite Z.add_0_r|].
  replace (i + Z.of_nat (S (length s))) with (i + 1 + Z.of_nat (length s)) by lia.
  assert (H2 : 2 ^ (i + 1) = 2 ^ i + 2 ^ i) by (rewrite Z.pow_add_r by lia; lia).
  apply IH; [lia|]. destruct (bool_decide (b <> 0)); [|lia].
  rewrite lor_shiftl_add by lia. lia.
Qed.

Lemma mask_bits s : forall i acc k b, 0 <= i -> 0 <= acc < 2 ^ i -> s !! k = Some b ->
  Z.testbit (mask s i acc) (i + Z.of_nat k) = bool_decide (b <> 0).
Proof.
  assert (Hlow : forall s i acc j, 0 <= j < i -> Z.testbit (mask s i acc) j = Z.testbit acc j).
  { clear s. induction s as [|b s IH]; intros i acc j Hj; cbn [mask]; [done|].
    rewrite IH by lia. destruct (bool_decide (b <> 0)); [|done].
    rewrite Z.lor_spec, Z.shiftl_spec_low by lia. by rewrite orb_false_r. }
  induction s as [|c s IH]; intros i acc k b Hi Ha Hk; [done|]. cbn [mask].
  assert (H2 : 2 ^ (i + 1) = 2 ^ i + 2 ^ i) by (rewrite Z.pow_add_r by lia; lia).
  destruct k as [|k]; cbn in Hk.
  - injection Hk as ->. rewrite Z.add_0_r, Hlow by lia.
    destruct (bool_decide_reflect (b <> 0)); [|by apply testbit_above with i].
    rewrite Z.lor_spec, Z.shiftl_spec, Z.sub_diag by lia. apply orb_true_r.
  - replace (i + Z.of_nat (S k)) with (i + 1 + Z.of_nat k) by lia. apply IH; [lia| |done].
    destruct (bool_decide (c <> 0)); [|lia]. rewrite lor_shiftl_add by lia. lia.
Qed.

Lemma count_le s : (count s <= length s)%nat.
Proof. unfold count, nonzeros. apply length_filter. Qed.

(** The header of a segment that is not copied is not the mark of a run. *)
Lemma mask_not_ff s : length s = 8%nat -> (count s < 8)%nat -> mask s 0 0 <> 0xff.
Proof.
  intros Hl Hc He.
  assert (Hall : Forall (fun b => b <> 0) s).
  { apply Forall_lookup. intros k b Hk. pose proof (lookup_lt_Some _ _ _ Hk) as Hlt.
    pose proof (mask_bits s 0 0 k b ltac:(lia) ltac:(lia) Hk) as Hb. rewrite He in Hb.
    assert (Ht : Z.testbit 0xff (0 + Z.of_nat k) = true).
    { rewrite Hl in Hlt. by do 8 (destruct k as [|k]; [done|]); lia. }
    rewrite Ht in Hb. symmetry in Hb. by apply bool_decide_eq_true in Hb. }
  unfold count, nonzeros in Hc. rewrite filter_all in Hc by done. lia.
Qed.

(** *** The packer *)

Lemma write_at_mid (pre post : list Z) o b i : i = Z.of_nat (length pre) ->
  write_at (pre ++ o :: post) i b = Ret (pre ++ b :: post).
Proof.
  intros ->. rewrite write_at_lt by size_lia.
  by rewrite insert_app_r_alt, Nat.sub_diag by lia.
Qed.

Lemma seg_loop_full src : forall i buf pos sz header nz, sz <= 0 ->
  seg_loop src i buf pos sz header nz = Ret (buf, mask src i header, nz + Z.of_nat (count src)).
Proof.
  induction src as [|b src IH]; intros i buf pos sz header nz Hsz; cbn [seg_loop mask].
  { unfold count, nonzeros. cbn. by rewrite Z.add_0_r. }
  unfold count, nonzeros. rewrite filter_cons. destruct (decide (b <> 0)) as [Hb|Hb].
  - rewrite !bool_decide_true, bool_decide_false, IH by (done || lia). cbn [length].
    do 2 f_equal. unfold count, nonzeros. lia.
  - rewrite bool_decide_false by done. by apply IH.
Qed.

Lemma seg_loop_spec src : forall i pre old pos sz header nz,
  pos = Z.of_nat (length pre) -> sz <= Z.of_nat (length old) ->
  exists x, seg_loop src i (pre ++ old) pos sz header nz =
      Ret (pre ++ x, mask src i header, nz + Z.of_nat (count src)) /\
    length x = length old /\ (Z.of_nat (count src) <= sz -> exists y, x = nonzeros src ++ y).
Proof.
  induction src as [|b src IH]; intros i pre old pos sz header nz -> Hsz; cbn [seg_loop mask].
  { exists old. unfold count, nonzeros. cbn. rewrite Z.add_0_r. eauto. }
  destruct (decide (sz <= 0)) as [Hfull|Hs].
  { rewrite (bool_decide_false (sz > 0)) by lia. pose proof (seg_loop_full (b :: src) i (pre ++ old)
      (Z.of_nat (length pre)) sz header nz Hfull) as He. cbn [seg_loop mask] in He.
    rewrite (bool_decide_false (sz > 0)) in He by lia. rewrite He. exists old.
    split_and!; [done|done|]. intros H0. exists old.
    replace (nonzeros (b :: src)) with (@nil Z); [done|]. symmetry. apply nil_length_inv.
    unfold count in H0. lia. }
  unfold count, nonzeros. rewrite filter_cons.
  destruct (decide (b <> 0)) as [Hb|Hb].
  2:{ rewrite bool_decide_false by done. by apply IH. }
  rewrite !bool_decide_true by (done || lia). cbn [length].
  destruct old as [|o old]; [simpl in Hsz; lia|]. rewrite write_at_mid, bind_Ret by done.
  replace (pre ++ b :: old) with ((pre ++ [b]) ++ old) by by rewrite <- app_assoc.
  destruct (IH (i + 1) (pre ++ [b]) old (Z.of_nat (length pre) + 1) (sz - 1)
    (Z.lor header (Z.shiftl 1 i)) (nz + 1)) as (x & He & Hl & Hc); [size_lia|simpl in Hsz; lia|].
  rewrite He. exists (b :: x). split.
  - rewrite <- app_assoc. do 2 f_equal. unfold count, nonzeros. lia.
  - split; [simpl; lia|]. intros Hfit. destruct Hc as [y ->]; [unfold count, nonzeros; lia|].
    by exists y.
Qed.

(** The decision of [pack_seg]. *)
Lemma copied_count (s : seg) (run : list seg) : (count s <= 8)%nat ->
  (if bool_decide ((Z.of_nat (count s) = 7 \/ Z.of_nat (count s) = 6) /\ Z.of_nat (length run) > 0)
   then 8 else Z.of_nat (count s)) = if copied run s then 8 else Z.of_nat (count s).
Proof.
  intros Hc. unfold copied.
  assert (Hrun : run <> [] <-> (0 < length run)%nat) by (destruct run; simpl; split; (done || lia)).
  destruct (bool_decide_reflect ((Z.of_nat (count s) = 7 \/ Z.of_nat (count s) = 6) /\
    Z.of_nat (length run) > 0)) as [H1|H1].
  - rewrite bool_decide_true; [done|]. right. rewrite Hrun. lia.
  - destruct (bool_decide_reflect (count s = 8%nat \/ run <> [] /\ (6 <= count s)%nat)) as [H2|H2];
      [|done].
    rewrite Hrun in H2. lia.
Qed.

Lemma length_small_code s : length (small_code s) = S (count s).
Proof. done. Qed.

(** What [pack_seg] answers and writes behind [pre], where [sz] bytes are left. *)
Lemma pack_seg_spec s pre old pos sz (run : list seg) :
  length s = 8%nat -> pos = Z.of_nat (length pre) -> sz <= Z.of_nat (length old) ->
  exists x, pack_seg s (pre ++ old) pos sz (Z.of_nat (length run)) =
      Ret (pre ++ x, if copied run s then if decide (run = []) then 10 else 8
                     else Z.of_nat (length (small_code s))) /\
    length x = length old /\
    (copied run s = false -> Z.of_nat (length (small_code s)) <= sz -> exists y, x = small_code s ++ y).
Proof.
  intros Hs -> Hsz. unfold pack_seg. pose proof (count_le s) as Hcl. rewrite Hs in Hcl.
  assert (Hloop : exists x, seg_loop s 0 (pre ++ old) (Z.of_nat (length pre) + 1) (sz - 1) 0 0 =
      Ret (pre ++ x, mask s 0 0, Z.of_nat (count s)) /\ length x = length old /\
      (Z.of_nat (count s) <= sz - 1 -> exists o y, x = o :: nonzeros s ++ y)).
  { destruct (decide (sz <= 0)) as [H0|H0].
    - exists old. rewrite seg_loop_full by lia. split_and!; [done|done|lia].
    - destruct old as [|o old]; [simpl in Hsz; lia|].
      replace (pre ++ o :: old) with ((pre ++ [o]) ++ old) by by rewrite <- app_assoc.
      destruct (seg_loop_spec s 0 (pre ++ [o]) old (Z.of_nat (length pre) + 1) (sz - 1) 0 0)
        as (x & He & Hl & Hc); [size_lia|simpl in Hsz; lia|].
      exists (o :: x). rewrite He, <- app_assoc. split_and!; [done|simpl; lia|].
      intros Hfit. destruct (Hc Hfit) as [y ->]. eauto. }
  destruct Hloop as (x & He & Hl & Hc). rewrite He, bind_Ret, copied_count by done.
  destruct (copied run s) eqn:Ec.
  { rewrite bool_decide_true by done. exists x. split_and!; [|done|done].
    do 2 f_equal. destruct run; [done|]. by rewrite bool_decide_true by (simpl; lia). }
  assert (Hc8 : count s <> 8%nat) by (apply bool_decide_eq_false in Ec; tauto).
  rewrite bool_decide_false by lia. rewrite length_small_code.
  replace (Z.of_nat (count s) + 1) with (Z.of_nat (S (count s))) by lia.
  destruct (bool_decide_reflect (sz - 1 < 0)) as [Hneg|Hpos].
  { rewrite bind_Ret. exists x. split_and!; [done..|lia]. }
  pose proof (mask_range s 0 0 ltac:(lia) ltac:(lia)) as Hm. rewrite Hs in Hm.
  unfold u8. rewrite Z.mod_small by (simpl in Hm; lia).
  destruct x as [|o x]; [simpl in Hl; lia|]. rewrite write_at_mid, bind_Ret by done.
  exists (mask s 0 0 :: x). split_and!; [done|done|].
  intros _ Hfit. destruct (Hc ltac:(lia)) as (o' & y & [= -> ->]). by exists y.
Qed.

Lemma align8 n : Z.land (n + 7) (Z.lnot 7) = 8 * ((n + 7) / 8).
Proof.
  rewrite <- Z.ldiff_land. change 7 with (Z.ones 3) at 2. rewrite Z.ldiff_ones_r by lia.
  rewrite Z.shiftl_mul_pow2, Z.shiftr_div_pow2 by lia. change (2 ^ 3) with 8. lia.
Qed.

(** Copying [k] segments, of which the memory may hold less. *)
Lemma write_ff_spec (src pre old post : list Z) des (k n : nat) :
  des = Z.of_nat (length pre) -> (0 < k <= 256)%nat -> length old = (2 + 8 * k)%nat ->
  (8 * k - 8 < n <= 8 * k)%nat -> (n <= length src)%nat ->
  write_ff src (pre ++ old ++ post) des (Z.of_nat n) =
    Ret (pre ++ (0xff :: Z.of_nat k - 1 :: take n src ++ replicate (8 * k - n) 0) ++ post).
Proof.
  intros -> Hk Hold Hn Hsrc. unfold write_ff. rewrite align8.
  replace ((Z.of_nat n + 7) / 8) with (Z.of_nat k) by dlia. cbv zeta.
  replace (8 * Z.of_nat k / 8 - 1) with (Z.of_nat k - 1) by dlia.
  destruct old as [|o1 [|o2 old]]; [simpl in Hold; lia..|]. cbn [app].
  rewrite write_at_mid, bind_Ret by done.
  replace (pre ++ 0xff :: o2 :: old ++ post) with ((pre ++ [0xff]) ++ o2 :: old ++ post)
    by by rewrite <- app_assoc.
  rewrite write_at_mid, bind_Ret by size_lia.
  unfold u8. rewrite Z.mod_small by lia.
  rewrite read_bytes_prefix, bind_Ret by lia. rewrite Nat2Z.id.
  set (hd := pre ++ [0xff; Z.of_nat k - 1]).
  replace ((pre ++ [0xff]) ++ Z.of_nat k - 1 :: old ++ post) with (hd ++ old ++ post)
    by (unfold hd; by rewrite <- !app_assoc).
  assert (Hhd : length hd = (length pre + 2)%nat) by (unfold hd; size_lia).
  simpl in Hold. rewrite write_append, bind_Ret by size_lia.
  rewrite write_append by size_lia. f_equal. unfold hd. rewrite <- !app_assoc. f_equal.
  cbn [app]. do 3 f_equal.
  replace (Z.to_nat (8 * Z.of_nat k - Z.of_nat n)) with (8 * k - n)%nat by lia.
  f_equal. rewrite drop_drop, drop_app_length'; [done|]. size_lia.
Qed.

Lemma pack_seg_full s buf pos sz (run : list seg) : length s = 8%nat -> sz <= 0 ->
  pack_seg s buf pos sz (Z.of_nat (length run)) =
    Ret (buf, if copied run s then if decide (run = []) then 10 else 8
              else Z.of_nat (length (small_code s))).
Proof.
  intros Hs Hsz. unfold pack_seg. pose proof (count_le s) as Hcl. rewrite Hs in Hcl.
  rewrite seg_loop_full, bind_Ret by lia. rewrite Z.add_0_l, copied_count by done.
  destruct (copied run s) eqn:Ec.
  - rewrite bool_decide_true by done. do 2 f_equal. destruct run; [done|].
    by rewrite bool_decide_true by (simpl; lia).
  - assert (Hc8 : count s <> 8%nat) by (apply bool_decide_eq_false in Ec; tauto).
    rewrite bool_decide_false, bool_decide_true, bind_Ret by lia.
    rewrite length_small_code. do 2 f_equal. lia.
Qed.

(** *** The segments of a message in memory *)

Lemma seg_at_full src j : (8 * j + 8 <= length src)%nat ->
  seg_at src j = take 8 (drop (8 * j) src).
Proof.
  intros H. unfold seg_at, pad8. rewrite drop_app_le by lia. rewrite take_app_le; [done|].
  rewrite length_drop. lia.
Qed.

Lemma seg_at_last src j : (8 * j < length src < 8 * j + 8)%nat ->
  seg_at src j = drop (8 * j) src ++ replicate (8 * j + 8 - length src) 0 /\ nsegs src = S j.
Proof.
  intros H. pose proof (nsegs_range src) as Hn. assert (HS : nsegs src = S j) by lia.
  split; [|done]. unfold seg_at, pad8. rewrite drop_app_le by lia. rewrite HS, take_ge.
  - do 2 f_equal. lia.
  - size_lia.
Qed.

Lemma below_nsegs src j : (j < nsegs src)%nat <-> (8 * j < length src)%nat.
Proof. pose proof (nsegs_range src). lia. Qed.

(** Segments that lie in the message. *)
Lemma concat_in_src src a k : (8 * (a + k) <= length src)%nat ->
  concat (seg_at src <$> seq a k) = take (8 * k) (drop (8 * a) src).
Proof.
  intros H. pose proof (nsegs_range src). rewrite concat_segs by lia. unfold pad8.
  rewrite drop_app_le by lia. rewrite take_app_le; [done|]. rewrite length_drop. lia.
Qed.

Lemma spec_state_S src j : (j < nsegs src)%nat ->
  spec_state (take (S j) (segments src)) = spec_step (spec_state (take j (segments src))) (seg_at src j).
Proof.
  intros Hj. unfold spec_state. rewrite (take_S_r _ _ (seg_at src j)).
  - by rewrite foldl_app.
  - unfold segments. rewrite list_lookup_fmap, lookup_seq_lt by done. done.
Qed.

Lemma length_ff_code (run : list seg) : run <> [] ->
  length (ff_code run) = (2 + length (concat run))%nat.
Proof. by destruct run. Qed.

Lemma length_concat_segs src a k : (a + k <= nsegs src)%nat ->
  length (concat (seg_at src <$> seq a k)) = (8 * k)%nat.
Proof.
  intros H. rewrite concat_segs, length_take, length_drop, length_pad8 by done. lia.
Qed.

Definition run_cost (run : list seg) : nat := match run with [] => 0 | _ => 2 + 8 * length run end.

Lemma run_cost_ne (run : list seg) : run <> [] -> run_cost run = (2 + 8 * length run)%nat.
Proof. by destruct run. Qed.

(** The state of the packer behind [j] segments: what is written for good, and the room
    left for the run. *)
Record pack_inv (src : list Z) (len : nat) (T : Z) (j : nat) (out : list Z) (run : list seg)
    (st : pack_state) : Prop := {
  pi_state : spec_state (take j (segments src)) = (out, run);
  pi_run : run = seg_at src <$> seq (j - length run) (length run);
  pi_lt : (length run <= j /\ length run < 256)%nat;
  pi_pos : p_pos st = Z.of_nat (length out + run_cost run);
  pi_bufsz : p_bufsz st = T - p_pos st;
  pi_size : p_size st = p_pos st;
  pi_n : p_ff_n st = Z.of_nat (length run);
  pi_len : length (p_buf st) = len;
  pi_buf : 0 <= p_bufsz st -> exists mid post, p_buf st = out ++ mid ++ post /\ length mid = run_cost run;
  pi_des : run <> [] -> p_ff_des st = Z.of_nat (length out);
  pi_src : run <> [] -> p_ff_src st =
    if decide (length run = 1 /\ length src < 8 * j)%nat then InTmp
    else InSrc (8 * Z.of_nat (j - length run));
  pi_tmp : (length src < 8 * j)%nat -> p_tmp st = seg_at src (j - 1)
}.

Lemma flush_spec src tmp run out mid post a k des bufsz : bufsz >= 0 ->
  run = seg_at src <$> seq a k -> (0 < k <= 256)%nat -> (8 * (a + k) <= length src)%nat ->
  length mid = (2 + 8 * k)%nat -> des = Z.of_nat (length out) ->
  flush_ff src tmp (out ++ mid ++ post) (InSrc (8 * Z.of_nat a)) des (Z.of_nat k) bufsz =
    Ret (out ++ ff_code run ++ post).
Proof.
  intros Hb Hrun Hk Hin Hmid Hdes. unfold flush_ff. rewrite bool_decide_true by done.
  replace (Z.of_nat k * 8) with (Z.of_nat (8 * k)) by lia. cbn [memory_at].
  replace (Z.to_nat (8 * Z.of_nat a)) with (8 * a)%nat by lia.
  rewrite (write_ff_spec _ out mid post des k) by (try done; try lia; rewrite length_drop; lia).
  rewrite Nat.sub_diag, app_nil_r. do 2 f_equal.
  rewrite <- concat_in_src, <- Hrun by lia.
  assert (Hl : length run = k) by by rewrite Hrun, length_fmap, length_seq.
  destruct run as [|s run]; [simpl in Hl; lia|]. cbn [ff_code]. by rewrite Hl.
Qed.

Lemma run_snoc src j (run : list seg) : (length run <= j)%nat ->
  run = seg_at src <$> seq (j - length run) (length run) ->
  run ++ [seg_at src j] =
    seg_at src <$> seq (S j - length (run ++ [seg_at src j])) (length (run ++ [seg_at src j])).
Proof.
  intros Hl Hrun. rewrite length_app. cbn [length]. rewrite Nat.add_1_r, seq_S, fmap_app.
  replace (S j - S (length run))%nat with (j - length run)%nat by lia.
  rewrite <- Hrun. by replace (j - length run + length run)%nat with j by lia.
Qed.

(** The segment that a round reads. *)
Lemma round_source src j (tmp0 : list Z) : (j < nsegs src)%nat ->
  let padding := 8 * Z.of_nat j + 8 - Z.of_nat (length src) in
  exists p tmp,
    (if bool_decide (padding > 0) then
       part ← read_bytes src (8 * Z.of_nat j) (8 - padding);
       let tmp := part ++ replicate (Z.to_nat padding) 0 in
       Ret (InTmp, tmp, tmp)
     else seg ← read_bytes src (8 * Z.of_nat j) 8; Ret (InSrc (8 * Z.of_nat j), tmp0, seg)) =
      Ret (p, tmp, seg_at src j) /\
    p = (if decide (length src < 8 * S j)%nat then InTmp else InSrc (8 * Z.of_nat j)) /\
    ((length src < 8 * S j)%nat -> tmp = seg_at src j).
Proof.
  intros Hj padding. apply below_nsegs in Hj. unfold read_bytes.
  destruct (bool_decide_reflect (padding > 0)) as [Hp|Hp]; unfold padding in *.
  - destruct (seg_at_last src j) as [Hs _]; [lia|]. rewrite decide_True, bind_Ret by lia.
    replace (Z.to_nat (8 * Z.of_nat j)) with (8 * j)%nat by lia.
    rewrite take_ge by (rewrite length_drop; lia).
    replace (Z.to_nat (8 * Z.of_nat j + 8 - Z.of_nat (length src)))
      with (8 * j + 8 - length src)%nat by lia.
    cbv zeta. rewrite <- Hs. do 2 eexists. split; [done|]. by rewrite decide_True by lia.
  - rewrite decide_True, bind_Ret by lia.
    replace (Z.to_nat (8 * Z.of_nat j)) with (8 * j)%nat by lia.
    change (Z.to_nat 8) with 8%nat. rewrite <- seg_at_full by lia.
    do 2 eexists. split; [done|]. rewrite decide_False by lia. split; [done|lia].
Qed.

Lemma split_front {A} (x : list A) (k : nat) (n : Z) : n <= Z.of_nat (length x) -> 0 <= n - Z.of_nat k ->
  exists a b, x = a ++ b /\ length a = k.
Proof.
  intros Hx Hn. exists (take k x), (drop k x). rewrite take_drop, length_take. split; [done|lia].
Qed.

Lemma small_code_short run s : copied run s = false -> (count s <= 8)%nat ->
  (length (small_code s) <= 8)%nat /\ (run <> [] -> (length (small_code s) <= 6)%nat).
Proof.
  unfold copied. intros H%bool_decide_eq_false Hc. rewrite length_small_code. split; [lia|].
  intros Hr. destruct (decide (6 <= count s)%nat); [tauto|lia].
Qed.

Section rounds.
Context (src : list Z) (len : nat) (T : Z).
Context (HT : T <= Z.of_nat len).

Lemma round_seg j out run st : pack_inv src len T j out run st -> (j < nsegs src)%nat ->
  let s := seg_at src j in
  exists buf, pack_seg s (p_buf st) (p_pos st) (p_bufsz st) (p_ff_n st) =
      Ret (buf, if copied run s then if decide (run = []) then 10 else 8
                else Z.of_nat (length (small_code s))) /\
    length buf = len /\
    (0 <= p_bufsz st -> exists mid x, buf = out ++ mid ++ x /\ length mid = run_cost run /\
       p_bufsz st <= Z.of_nat (length x) /\
       (copied run s = false -> Z.of_nat (length (small_code s)) <= p_bufsz st ->
        exists y, x = small_code s ++ y)).
Proof.
  intros [_ _ _ Hpos Hbsz _ Hn Hlen Hbuf _ _ _] Hj s. rewrite Hn.
  assert (Hs : length s = 8%nat) by by apply length_seg_at.
  destruct (decide (0 <= p_bufsz st)) as [Hb|Hb].
  - destruct (Hbuf Hb) as (mid & post & He & Hm). rewrite He in *. rewrite app_assoc in *.
    assert (Hfit : p_bufsz st <= Z.of_nat (length post)) by (rewrite !length_app in Hlen; lia).
    destruct (pack_seg_spec s (out ++ mid) post (p_pos st) (p_bufsz st) run Hs)
      as (x & Hp & Hx & Hc); [size_lia|done|].
    exists ((out ++ mid) ++ x). split; [done|]. split; [rewrite length_app, Hx, <- length_app; done|].
    intros _. exists mid, x. rewrite <- app_assoc. split_and!; try done. lia.
  - rewrite pack_seg_full by (done || lia). eexists. split; [done|]. split; [done|]. lia.
Qed.

(** A round behind [pack_seg]: the state [st], the buffer written, and where the segment
    was read from. *)
Section track.
Context (j : nat) (out : list Z) (run : list seg) (st : pack_state).
Context (Hinv : pack_inv src len T j out run st) (Hj : (j < nsegs src)%nat).
Abbreviation s := (seg_at src j).
Context (buf : list Z) (Hbl : length buf = len).
Context (Hbuf : 0 <= p_bufsz st -> exists mid x, buf = out ++ mid ++ x /\
  length mid = run_cost run /\ p_bufsz st <= Z.of_nat (length x) /\
  (copied run s = false -> Z.of_nat (length (small_code s)) <= p_bufsz st ->
   exists y, x = small_code s ++ y)).
Context (p : src_ptr) (tmp : list Z).
Context (Hp : p = if decide (length src < 8 * S j)%nat then InTmp else InSrc (8 * Z.of_nat j)).
Context (Htmp : (length src < 8 * S j)%nat -> tmp = s).

(** The state behind the round. *)
Definition tracks (n : Z) (out' : list Z) (run' : list seg) : Prop :=
  exists buf' p' des k, track_run src tmp p st buf n = Ret (buf', p', des, k) /\
    pack_inv src len T (S j) out' run'
      (mk_pack buf' (p_pos st + n) (p_bufsz st - n) p' des k (p_size st + n) tmp).

Lemma next_tmp : (length src < 8 * S j)%nat -> tmp = seg_at src (S j - 1).
Proof. intros H. replace (S j - 1)%nat with j by lia. by apply Htmp. Qed.

Lemma next_state : spec_state (take (S j) (segments src)) = spec_step (out, run) s.
Proof. rewrite (spec_state_S src j Hj). by rewrite (pi_state _ _ _ _ _ _ _ Hinv). Qed.

Lemma run_source : run <> [] -> p_ff_src st = InSrc (8 * Z.of_nat (j - length run)).
Proof.
  intros Hne. rewrite (pi_src _ _ _ _ _ _ _ Hinv Hne).
  apply below_nsegs in Hj. by rewrite decide_False by lia.
Qed.

Lemma track_start : copied run s -> run = [] -> tracks 10 out [s].
Proof.
  intros Hc Hr. pose proof next_state as HS. cbn [spec_step] in HS.
  destruct (copied run s) eqn:Ec; [|done]. subst run. rewrite bool_decide_false in HS by done.
  destruct Hinv as [_ _ _ Hpos Hbsz Hsize Hn _ _ _ _ _]. cbn [run_cost length] in *.
  unfold tracks, track_run. rewrite bool_decide_true by done. do 4 eexists. split; [done|].
  split; cbn [p_buf p_pos p_bufsz p_ff_src p_ff_des p_ff_n p_size p_tmp length run_cost]; try lia.
  - exact HS.
  - cbn. by replace (j - 0)%nat with j by lia.
  - intros Hb. destruct (Hbuf ltac:(lia)) as (mid & x & He & Hm & Hx & _).
    apply nil_length_inv in Hm. subst mid.
    destruct (split_front x 10 (p_bufsz st) Hx ltac:(lia)) as (a & b & -> & Ha). by exists a, b.
  - intros _. rewrite Hp. replace (S j - 1)%nat with j by lia.
    destruct (decide (length src < 8 * S j)%nat); [by rewrite decide_True|by rewrite decide_False by lia].
  - exact next_tmp.
Qed.

Lemma track_more : copied run s -> run <> [] -> S (length run) <> 256%nat -> tracks 8 out (run ++ [s]).
Proof.
  intros Hc Hne Hmore. pose proof next_state as HS. cbn [spec_step] in HS.
  destruct (copied run s) eqn:Ec; [|done]. rewrite bool_decide_false in HS by done.
  pose proof (run_source Hne) as Hsrc.
  destruct Hinv as [_ Hrun [Hrj Hlt] Hpos Hbsz Hsize Hn _ _ Hdes _ _].
  assert (Hcost : run_cost run = (2 + 8 * length run)%nat) by by destruct run.
  assert (Hcost' : run_cost (run ++ [s]) = (2 + 8 * length run + 8)%nat) by (rewrite run_cost_ne by (by destruct run); size_lia).
  assert (Hl' : length (run ++ [s]) = S (length run)) by size_lia.
  assert (0 < length run)%nat by (destruct run; [done|simpl; lia]).
  unfold tracks, track_run. rewrite bool_decide_false, bool_decide_true, bool_decide_false by lia.
  do 4 eexists. split; [done|].
  split; cbn [p_buf p_pos p_bufsz p_ff_src p_ff_des p_ff_n p_size p_tmp]; try lia.
  - exact HS.
  - by apply run_snoc.
  - intros Hb. destruct (Hbuf ltac:(lia)) as (mid & x & He & Hm & Hx & _).
    destruct (split_front x 8 (p_bufsz st) Hx ltac:(lia)) as (a & b & -> & Ha).
    exists (mid ++ a), b. rewrite He, <- !app_assoc. split; [done|size_lia].
  - intros _. by apply Hdes.
  - intros _. rewrite Hsrc, Hl', decide_False by lia.
    by replace (S j - S (length run))%nat with (j - length run)%nat by lia.
  - exact next_tmp.
Qed.

(** Writing the run that has ended: [r] is the run and [x] what is behind it. *)
Lemma track_flush (r : list seg) mid x n k : run <> [] -> 0 <= p_bufsz st - n ->
  r = seg_at src <$> seq (j - length run) k -> (0 < k <= 256)%nat ->
  (8 * (j - length run + k) <= length src)%nat -> length mid = (2 + 8 * k)%nat ->
  flush_ff src tmp (out ++ mid ++ x) (p_ff_src st) (p_ff_des st) (Z.of_nat k) (p_bufsz st - n) =
    Ret ((out ++ ff_code r) ++ [] ++ x) /\ length ((out ++ ff_code r) ++ [] ++ x) = length (out ++ mid ++ x).
Proof.
  intros Hne Hb Hr Hk Hin Hmid. pose proof (run_source Hne) as Hsrc.
  rewrite Hsrc, (pi_des _ _ _ _ _ _ _ Hinv Hne), <- app_assoc. split.
  - apply flush_spec; try done; lia.
  - assert (Hrl : length r = k) by by rewrite Hr, length_fmap, length_seq.
    rewrite !length_app, length_ff_code by (intros ->; simpl in Hrl; lia).
    pose proof (nsegs_range src). rewrite Hr, length_concat_segs by lia. simpl. lia.
Qed.

Lemma track_full : copied run s -> run <> [] -> S (length run) = 256%nat ->
  (8 * S j <= length src)%nat -> tracks 8 (out ++ ff_code (run ++ [s])) [].
Proof.
  intros Hc Hne Hfull Hin. pose proof next_state as HS. cbn [spec_step] in HS.
  destruct (copied run s) eqn:Ec; [|done]. rewrite bool_decide_true in HS by done.
  pose proof Hinv as [_ Hrun [Hrj Hlt] Hpos Hbsz Hsize Hn _ _ Hdes _ _].
  assert (Hcost : run_cost run = (2 + 8 * length run)%nat) by by destruct run.
  pose proof (run_snoc src j run Hrj Hrun) as Hrun'.
  replace (length (run ++ [s])) with 256%nat in Hrun' by size_lia.
  replace (S j - 256)%nat with (j - length run)%nat in Hrun' by lia.
  assert (Hlc : length (ff_code (run ++ [s])) = (2 + 8 * 256)%nat).
  { rewrite length_ff_code by by destruct run. rewrite Hrun', length_concat_segs; [done|].
    pose proof (nsegs_range src). lia. }
  unfold tracks, track_run.
  rewrite bool_decide_false, bool_decide_true, bool_decide_true by lia.
  assert (Hf : exists buf', flush_ff src tmp buf (p_ff_src st) (p_ff_des st) 256 (p_bufsz st - 8) = Ret buf' /\
    length buf' = len /\ (0 <= p_bufsz st - 8 -> exists x, buf' = (out ++ ff_code (run ++ [s])) ++ [] ++ x)).
  { destruct (decide (0 <= p_bufsz st - 8)) as [Hb|Hb].
    - destruct (Hbuf ltac:(lia)) as (mid & x & Hbe & Hm & Hx & _).
      destruct (split_front x 8 (p_bufsz st) Hx ltac:(lia)) as (a & b & -> & Ha).
      rewrite (app_assoc mid) in Hbe.
      destruct (track_flush (run ++ [s]) (mid ++ a) b 8 256) as [He Hl]; try done; try lia; [size_lia|].
      change (Z.of_nat 256) with 256 in He. rewrite <- Hbe in He, Hl. eexists.
      split; [exact He|]. split; [congruence|eauto].
    - unfold flush_ff. rewrite bool_decide_false by lia. eexists. split; [done|]. split; [done|lia]. }
  destruct Hf as (buf' & He & Hl & Hb). step_with He. do 4 eexists. split; [done|].
  split; cbn [p_buf p_pos p_bufsz p_ff_src p_ff_des p_ff_n p_size p_tmp length run_cost]; try lia; try done.
  - rewrite length_app. lia.
  - intros H0. destruct (Hb H0) as [x ->]. by exists [], x.
Qed.

Lemma track_small : copied run s = false ->
  tracks (Z.of_nat (length (small_code s))) (out ++ ff_code run ++ small_code s) [].
Proof.
  intros Ec. pose proof next_state as HS. cbn [spec_step] in HS. rewrite Ec in HS.
  pose proof Hinv as [_ Hrun [Hrj Hlt] Hpos Hbsz Hsize Hn _ _ Hdes _ _].
  pose proof (count_le s) as Hc8. rewrite length_seg_at in Hc8 by done.
  destruct (small_code_short run s Ec Hc8) as [Hk8 Hk6]. set (n := Z.of_nat (length (small_code s))) in *.
  assert (Hlc : length (ff_code run) = run_cost run).
  { destruct (decide (run = [])) as [->|Hne]; [done|]. rewrite length_ff_code by done.
    rewrite Hrun at 1. pose proof (nsegs_range src).
    rewrite length_concat_segs by (apply below_nsegs in Hj; lia). by destruct run. }
  assert (Hf : exists buf' p' des, track_run src tmp p st buf n = Ret (buf', p', des, 0) /\
    length buf' = len /\
    (0 <= p_bufsz st - n -> exists y, buf' = (out ++ ff_code run ++ small_code s) ++ [] ++ y)).
  { unfold track_run. rewrite bool_decide_false by lia.
    destruct (decide (run = [])) as [->|Hne].
    - cbn [length] in Hn. rewrite !bool_decide_false by lia. rewrite Hn. do 3 eexists.
      split; [done|]. split; [done|]. intros Hb. destruct (Hbuf ltac:(lia)) as (mid & x & Hbe & Hm & _ & Hy).
      apply nil_length_inv in Hm. subst mid. destruct (Hy Ec ltac:(lia)) as [y ->].
      exists y. rewrite Hbe. cbn [ff_code app]. by rewrite <- app_assoc.
    - specialize (Hk6 Hne). assert (0 < length run)%nat by (destruct run; [done|simpl; lia]).
      rewrite bool_decide_false, bool_decide_true by lia. rewrite Hn.
      destruct (decide (0 <= p_bufsz st - n)) as [Hb|Hb].
      + destruct (Hbuf ltac:(lia)) as (mid & x & Hbe & Hm & _ & Hy). destruct (Hy Ec ltac:(lia)) as [y ->].
        destruct (track_flush run mid (small_code s ++ y) n (length run)) as [He Hl]; try done; try lia.
        { apply below_nsegs in Hj. lia. } { rewrite Hm. by destruct run. }
        rewrite <- Hbe in He, Hl. step_with He. do 3 eexists. split; [done|]. split; [congruence|]. intros _. exists y.
        cbn [app]. by rewrite <- !app_assoc.
      + unfold flush_ff. rewrite bool_decide_false, bind_Ret by lia. do 3 eexists.
        split; [done|]. split; [done|lia]. }
  destruct Hf as (buf' & p' & des & He & Hl & Hb). exists buf', p', des, 0. split; [exact He|].
  split; cbn [p_buf p_pos p_bufsz p_ff_src p_ff_des p_ff_n p_size p_tmp length run_cost]; try lia; try done.
  - rewrite !length_app. lia.
  - intros H0. destruct (Hb H0) as [x ->]. by exists [], x.
  - exact next_tmp.
Qed.
End track.

Lemma pack_round_inv j out run st :
  pack_inv src len T j out run st -> (j < nsegs src)%nat ->
  ~ ((length src < 8 * S j)%nat /\ length run = 255%nat /\ copied run (seg_at src j)) ->
  exists st' out' run', pack_round src (8 * Z.of_nat j) st = Ret st' /\
    pack_inv src len T (S j) out' run' st'.
Proof.
  intros Hinv Hj Hok. destruct (round_seg j out run st Hinv Hj) as (buf & Hseg & Hbl & Hbuf).
  destruct (round_source src j (p_tmp st) Hj) as (p & tmp & Hsrce & Hp & Htmp). cbv zeta in Hsrce.
  assert (Ht : exists out' run', tracks j st buf p tmp
    (if copied run (seg_at src j) then if decide (run = []) then 10 else 8
     else Z.of_nat (length (small_code (seg_at src j)))) out' run').
  { destruct (bool_dec (copied run (seg_at src j)) true) as [Ec|Ec%not_true_is_false].
    - pose proof (Is_true_eq_left _ Ec) as Hc. destruct (decide (run = [])) as [Hr|Hr].
      + do 2 eexists. rewrite Ec. by apply (track_start j out run st Hinv Hj buf Hbl Hbuf p tmp Hp Htmp).
      + destruct (decide (S (length run) = 256%nat)) as [Hf|Hf].
        * do 2 eexists. rewrite Ec. apply (track_full j out run st Hinv Hj buf Hbl Hbuf p tmp Htmp); try done.
          destruct (decide (length src < 8 * S j)%nat); [|lia]. exfalso. apply Hok. split_and!; [done|lia|done].
        * do 2 eexists. rewrite Ec. by apply (track_more j out run st Hinv Hj buf Hbl Hbuf p tmp Htmp).
    - do 2 eexists. rewrite Ec. by apply (track_small j out run st Hinv Hj buf Hbl Hbuf p tmp Htmp). }
  destruct Ht as (out' & run' & buf' & p' & des & k & He & Hi).
  unfold pack_round. cbv zeta. rewrite Hsrce, bind_Ret, Hseg, bind_Ret, He, bind_Ret. eauto.
Qed.
End rounds.

(** *** The whole message *)

Lemma never_overreads src j out run : ~ overreads src -> (j < nsegs src)%nat ->
  spec_state (take j (segments src)) = (out, run) ->
  ~ ((length src < 8 * S j)%nat /\ length run = 255%nat /\ copied run (seg_at src j)).
Proof.
  intros Hok Hj Hst (Hlt & Hrun & Hc). apply Hok.
  pose proof (proj1 (below_nsegs src j) Hj) as Hin.
  destruct (seg_at_last src j) as [_ Hn]; [lia|]. split.
  - intros H0. pose proof (Nat.div_mod (length src) 8 ltac:(lia)). lia.
  - exists (take j (segments src)), (seg_at src j). rewrite Hst. split_and!; [|done|done].
    rewrite <- (take_S_r _ _ (seg_at src j)).
    + rewrite take_ge; [done|]. unfold segments. rewrite length_fmap, length_seq. lia.
    + unfold segments. by rewrite list_lookup_fmap, lookup_seq_lt.
Qed.

Lemma pack_loop_inv src len T fuel : T <= Z.of_nat len -> ~ overreads src -> forall j out run st,
  pack_inv src len T j out run st -> (j <= nsegs src)%nat -> (nsegs src - j <= fuel)%nat ->
  exists st' out' run', pack_loop fuel src (8 * Z.of_nat j) st = Ret st' /\
    pack_inv src len T (nsegs src) out' run' st'.
Proof.
  intros HT Hok. pose proof (nsegs_range src) as Hn.
  induction fuel as [|fuel IH]; intros j out run st Hinv Hj Hf; cbn [pack_loop].
  - assert (j = nsegs src) as -> by lia. rewrite bool_decide_false by lia. eauto.
  - destruct (decide (j = nsegs src)) as [->|Hne]; [rewrite bool_decide_false by lia; eauto|].
    rewrite bool_decide_true by (pose proof (proj1 (below_nsegs src j)); lia).
    destruct (pack_round_inv src len T HT j out run st Hinv) as (st1 & out1 & run1 & He & Hinv1); [lia| |].
    { apply (never_overreads src j out run Hok); [lia|]. by apply Hinv. }
    step_with He. replace (8 * Z.of_nat j + 8) with (8 * Z.of_nat (S j)) by lia.
    apply (IH (S j) out1 run1 st1 Hinv1); lia.
Qed.

Lemma length_run_code src a k : (a + k <= nsegs src)%nat ->
  length (ff_code (seg_at src <$> seq a k)) = run_cost (seg_at src <$> seq a k).
Proof.
  intros H. destruct k as [|k]; [done|].
  rewrite length_ff_code, run_cost_ne, length_concat_segs, length_fmap, length_seq by done. done.
Qed.

(** The run that is pending at the end of the message. *)
Lemma last_run src k n : (1 < k <= nsegs src)%nat -> n = (length src - 8 * (nsegs src - k))%nat ->
  take n (drop (8 * (nsegs src - k)) src) ++ replicate (8 * k - n) 0 =
    concat (seg_at src <$> seq (nsegs src - k) k).
Proof.
  intros Hk ->. pose proof (nsegs_range src) as Hn. rewrite concat_segs by lia.
  rewrite take_ge by (rewrite length_drop; lia). rewrite (take_ge (drop _ (pad8 src)))
    by (rewrite length_drop, length_pad8; lia).
  unfold pad8. rewrite drop_app_le by lia. do 2 f_equal. lia.
Qed.

Lemma sproto_pack_spec src bufferv bufsz : bufsz <= Z.of_nat (length bufferv) -> ~ overreads src ->
  let p := pack_spec (segments src) in
  exists buf, sproto_pack src bufferv bufsz = Ret (Z.of_nat (length p), buf) /\
    length buf = length bufferv /\ (Z.of_nat (length p) <= bufsz -> exists rest, buf = p ++ rest).
Proof.
  intros HT Hok p. pose proof (nsegs_range src) as Hn.
  destruct (pack_loop_inv src (length bufferv) bufsz (length src) HT Hok 0 [] []
    (mk_pack bufferv 0 bufsz (InSrc 0) 0 0 0 (replicate 8 0))) as (st & out & run & He & Hinv); [|lia|lia|].
  { split; cbn; try done; try lia. intros _. by exists [], bufferv. }
  unfold sproto_pack. change (8 * Z.of_nat 0) with 0 in He. step_with He. clear He.
  pose proof Hinv as [Hst Hrun [Hrn Hlt] Hpos Hbsz Hsize Hffn Hlen Hbuf Hdes Hsrc Htmp].
  assert (Hall : take (nsegs src) (segments src) = segments src).
  { apply take_ge. unfold segments. by rewrite length_fmap, length_seq. }
  rewrite Hall in Hst. assert (Hp : p = out ++ ff_code run) by (unfold p, pack_spec; by rewrite Hst).
  assert (Hcode : length (ff_code run) = run_cost run) by (rewrite Hrun; apply length_run_code; lia).
  assert (Hlp : p_size st = Z.of_nat (length p)) by (rewrite Hp, length_app; lia).
  rewrite Hlp. destruct (bool_decide_reflect (p_bufsz st >= 0)) as [Hb|Hb].
  2:{ eexists. split; [done|]. split; [done|lia]. }
  destruct (Hbuf ltac:(lia)) as (mid & post & Hbe & Hm). rewrite Hbe in *.
  assert (Hdone : forall x, x = out ++ ff_code run ++ post ->
    exists buf, Ret (Z.of_nat (length p), x) = Ret (Z.of_nat (length p), buf) /\
      length buf = length bufferv /\ (Z.of_nat (length p) <= bufsz -> exists rest, buf = p ++ rest)).
  { intros x ->. eexists. split; [done|]. split; [rewrite !length_app in *; lia|].
    intros _. exists post. by rewrite Hp, <- app_assoc. }
  rewrite Hffn. destruct (decide (run = [])) as [Hnil|Hne].
  { rewrite Hnil in *. cbn [length]. rewrite !bool_decide_false by lia. apply Hdone.
    apply nil_length_inv in Hm. by rewrite Hm. }
  specialize (Hdes Hne). specialize (Hsrc Hne).
  rewrite run_cost_ne in Hm by done. assert (0 < length run)%nat by (destruct run; [done|simpl; lia]).
  assert (Hff : ff_code run = 0xff :: Z.of_nat (length run) - 1 :: concat run) by by destruct run.
  destruct (decide (length run = 1%nat)) as [H1|H1].
  - rewrite bool_decide_true by lia. change 8 with (Z.of_nat 8).
    assert (Hmem : (8 <= length (memory_at src (p_tmp st) (p_ff_src st)))%nat /\
      take 8 (memory_at src (p_tmp st) (p_ff_src st)) = concat run).
    { rewrite Hrun, H1. cbn [seq fmap list_fmap concat]. rewrite app_nil_r, Hsrc, H1.
      destruct (decide (1 = 1 /\ length src < 8 * nsegs src)%nat) as [[_ Hs]|Hs]; cbn [memory_at].
      - rewrite Htmp by done. rewrite take_ge, length_seg_at by (rewrite ?length_seg_at; lia). done.
      - replace (Z.to_nat (8 * Z.of_nat (nsegs src - 1))) with (8 * (nsegs src - 1))%nat by lia.
        rewrite length_drop, seg_at_full by lia. split; [lia|done]. }
    destruct Hmem as [Hm8 Hcat]. rewrite H1 in *.
    step_with (write_ff_spec (memory_at src (p_tmp st) (p_ff_src st)) out mid post (p_ff_des st) 1 8
      Hdes ltac:(lia) Hm ltac:(lia) Hm8).
    apply Hdone. rewrite Hcat, Hff. cbn. by rewrite app_nil_r.
  - rewrite bool_decide_false, bool_decide_true by lia. rewrite Hsrc, decide_False by lia.
    cbn [memory_at]. set (k := length run) in *.
    replace (Z.to_nat (8 * Z.of_nat (nsegs src - k))) with (8 * (nsegs src - k))%nat by lia.
    replace (Z.of_nat (length src) - 8 * Z.of_nat (nsegs src - k))
      with (Z.of_nat (length src - 8 * (nsegs src - k))) by lia.
    rewrite (write_ff_spec _ out mid post (p_ff_des st) k) by (try done; rewrite ?length_drop; lia).
    rewrite bind_Ret. apply Hdone. rewrite (last_run src k) by lia. by rewrite <- Hrun, Hff.
Qed.

(** *** The unpacker *)

Lemma read_at_0 (b : Z) l : read_at (b :: l) 0 = Ret b.
Proof. reflexivity. Qed.

(** [p] is a sequence of coded segments and runs, of the bytes [x]. *)
Inductive coded : list Z -> list Z -> Prop :=
| coded_nil : coded [] []
| coded_small p x s : coded p x -> length s = 8%nat -> (count s < 8)%nat ->
    coded (p ++ small_code s) (x ++ s)
| coded_run p x run : coded p x -> run <> [] -> (length run <= 256)%nat ->
    Forall (fun s => length s = 8%nat) run -> coded (p ++ ff_code run) (x ++ concat run).

Lemma spec_state_snoc segs s : spec_state (segs ++ [s]) = spec_step (spec_state segs) s.
Proof. unfold spec_state. by rewrite foldl_app. Qed.

(** What is coded for good, and the run that is not. *)
Lemma spec_state_coded segs : Forall (fun s => length s = 8%nat) segs ->
  exists x, coded (spec_state segs).1 x /\ x ++ concat (spec_state segs).2 = concat segs /\
    (length (spec_state segs).2 < 256)%nat /\ Forall (fun s => length s = 8%nat) (spec_state segs).2.
Proof.
  induction segs as [|s segs IH] using rev_ind; intros Hs.
  { exists []. split_and!; [constructor|done|simpl; lia|constructor]. }
  apply Forall_app in Hs as [Hs Hs8]. rewrite Forall_singleton in Hs8.
  destruct (IH Hs) as (x & Hc & Hx & Hl & Hr). rewrite spec_state_snoc.
  destruct (spec_state segs) as [out run]. cbn [fst snd] in *. cbn [spec_step].
  rewrite concat_app. cbn [concat]. rewrite app_nil_r, <- Hx.
  destruct (copied run s) eqn:Ec.
  - assert (Hrs : Forall (fun s => length s = 8%nat) (run ++ [s])) by (apply Forall_app; split; [done|by apply Forall_singleton]).
    destruct (bool_decide_reflect (S (length run) = 256%nat)) as [Hf|Hf]; cbn [fst snd].
    + exists (x ++ concat (run ++ [s])). split; [|split; [|split; [simpl; lia|constructor]]].
      * apply coded_run; [done|by destruct run|size_lia|done].
      * rewrite concat_app. cbn [concat]. by rewrite !app_nil_r, app_assoc.
    + exists x. split_and!; [done| |size_lia|done].
      rewrite concat_app. cbn [concat]. by rewrite app_nil_r, app_assoc.
  - assert (Hcnt : (count s < 8)%nat).
    { apply bool_decide_eq_false in Ec. pose proof (count_le s).
      assert (count s <> 8%nat) by tauto. lia. }
    exists ((x ++ concat run) ++ s). cbn [fst snd]. split; [|split; [by rewrite app_nil_r|split; [simpl; lia|constructor]]].
    rewrite app_assoc. apply coded_small; [|done|done].
    destruct run as [|r run]; [cbn; by rewrite !app_nil_r|]. apply coded_run; [done|done|lia|done].
Qed.

Lemma pack_spec_coded segs : Forall (fun s => length s = 8%nat) segs ->
  coded (pack_spec segs) (concat segs).
Proof.
  intros Hs. destruct (spec_state_coded segs Hs) as (x & Hc & Hx & Hl & Hr). unfold pack_spec.
  destruct (spec_state segs) as [out run]. cbn [fst snd] in *. rewrite <- Hx.
  destruct run as [|r run]; [cbn; by rewrite !app_nil_r|]. apply coded_run; [done|done|lia|done].
Qed.

(** The output of the unpacker behind the bytes [x]: they are there when they fit [T]. *)
Definition unpacked (len : nat) (T : Z) (x buf : list Z) (pos bufsz : Z) : Prop :=
  length buf = len /\
  if decide (Z.of_nat (length x) <= T)
  then (exists post, buf = x ++ post) /\ pos = Z.of_nat (length x) /\ bufsz = T - pos
  else bufsz <= 0.

Section unpack.
Context (len : nat) (T : Z) (HT : T <= Z.of_nat len).

(** One more byte: written when there is room. *)
Lemma unpacked_byte x buf pos bufsz b : unpacked len T x buf pos bufsz ->
  exists buf', (if bool_decide (bufsz > 0) then write_at buf pos b else Ret buf) = Ret buf' /\
    unpacked len T (x ++ [b]) buf' (if bool_decide (bufsz > 0) then pos + 1 else pos)
      (if bool_decide (bufsz > 0) then bufsz - 1 else bufsz).
Proof.
  unfold unpacked. intros [Hl Hu]. rewrite length_app. cbn [length].
  destruct (bool_decide_reflect (bufsz > 0)) as [Hb|Hb].
  - destruct (decide (Z.of_nat (length x) <= T)) as [Hx|Hx]; [|lia].
    destruct Hu as ((post & ->) & -> & ->).
    destruct post as [|o post]; [rewrite length_app in Hl; simpl in Hl; lia|].
    exists (x ++ b :: post). rewrite write_at_mid by done. split; [done|].
    split; [rewrite length_app in *; simpl in *; lia|]. rewrite decide_True by lia.
    split; [|lia]. exists post. by rewrite <- app_assoc.
  - exists buf. split; [done|]. split; [done|].
    destruct (decide (Z.of_nat (length x) <= T)) as [Hx|Hx].
    + destruct Hu as (_ & -> & ->). by rewrite decide_False by lia.
    + by rewrite decide_False by lia.
Qed.

Lemma unpack_seg_spec s : forall header i rest x buf pos bufsz,
  (forall k b, s !! k = Some b -> Z.testbit header (i + Z.of_nat k) = bool_decide (b <> 0)) ->
  unpacked len T x buf pos bufsz ->
  exists buf' pos' bufsz',
    unpack_seg (length s) header i (nonzeros s ++ rest) (Z.of_nat (length (nonzeros s ++ rest)))
      buf pos bufsz = Ret (Some (rest, Z.of_nat (length rest), buf', pos', bufsz')) /\
    unpacked len T (x ++ s) buf' pos' bufsz'.
Proof.
  induction s as [|b s IH]; intros header i rest x buf pos bufsz Hbits Hu; cbn [length unpack_seg].
  { rewrite app_nil_r. eauto. }
  pose proof (Hbits 0%nat b eq_refl) as H0. rewrite Z.add_0_r in H0. rewrite H0.
  assert (Hbits' : forall k c, s !! k = Some c -> Z.testbit header (i + 1 + Z.of_nat k) = bool_decide (c <> 0)).
  { intros k c Hk. rewrite <- (Hbits (S k) c Hk). f_equal. lia. }
  destruct (unpacked_byte x buf pos bufsz b Hu) as (buf1 & Hw & Hu1).
  replace (x ++ b :: s) with ((x ++ [b]) ++ s) by by rewrite <- app_assoc.
  unfold nonzeros. rewrite filter_cons.
  destruct (decide (b <> 0)) as [Hb|Hb].
  - rewrite bool_decide_true by done. cbn [app length]. rewrite bool_decide_false by lia.
    rewrite read_at_0, bind_Ret. cbn [drop].
    replace (Z.of_nat (S _) - 1) with (Z.of_nat (length (nonzeros s ++ rest))) by (unfold nonzeros; lia).
    destruct (bool_decide (bufsz > 0)); [step_with Hw|injection Hw as ->]; by apply IH.
  - rewrite bool_decide_false by done. assert (b = 0) as -> by lia.
    destruct (bool_decide (bufsz > 0)); [step_with Hw|injection Hw as ->]; by apply IH.
Qed.

Lemma unpacked_block x y buf pos bufsz : unpacked len T x buf pos bufsz ->
  let n := Z.of_nat (length y) in 0 < n ->
  exists buf', (if bool_decide (bufsz >= n) then write_bytes buf pos y else Ret buf) = Ret buf' /\
    unpacked len T (x ++ y) buf' (pos + n) (bufsz - n).
Proof.
  intros H n Hn. revert H. unfold unpacked. intros [Hl Hu]. rewrite length_app.
  destruct (bool_decide_reflect (bufsz >= n)) as [Hb|Hb].
  - destruct (decide (Z.of_nat (length x) <= T)) as [Hx|Hx]; [|lia].
    destruct Hu as ((post & ->) & -> & ->). rewrite length_app in Hl.
    rewrite write_next by lia. eexists. split; [done|]. split; [size_lia|].
    rewrite decide_True by lia. split; [|lia]. rewrite app_assoc. eauto.
  - exists buf. split; [done|]. split; [done|].
    destruct (decide (Z.of_nat (length x) <= T)) as [Hx|Hx].
    + destruct Hu as (_ & -> & ->). rewrite decide_False by lia. lia.
    + rewrite decide_False by lia. lia.
Qed.

Lemma unpack_loop_coded buf0 p x : unpacked len T [] buf0 0 T -> coded p x ->
  forall fuel rest, (length (p ++ rest) <= fuel)%nat ->
  exists fuel' buf pos bufsz, (length rest <= fuel')%nat /\
    unpack_loop fuel (p ++ rest) (Z.of_nat (length (p ++ rest))) buf0 0 T 0 =
      unpack_loop fuel' rest (Z.of_nat (length rest)) buf pos bufsz (Z.of_nat (length x)) /\
    unpacked len T x buf pos bufsz.
Proof.
  intros H0 Hc. induction Hc as [|p x s Hc IH Hs8 Hcnt|p x run Hc IH Hne H256 Hrun]; intros fuel rest Hf.
  - exists fuel, buf0, 0, T. done.
  - rewrite <- app_assoc in *. destruct (IH fuel (small_code s ++ rest) Hf)
      as (f1 & b1 & p1 & z1 & Hf1 & He & Hu). rewrite He. unfold small_code in *. cbn [app length] in *.
    destruct f1 as [|f1]; [lia|]. cbn [unpack_loop]. rewrite bool_decide_true by lia.
    rewrite read_at_0, bind_Ret.
    rewrite bool_decide_false by by apply mask_not_ff. cbn [drop]; rewrite ?drop_0.
    replace (Z.of_nat (S (length (nonzeros s ++ rest))) - 1)
      with (Z.of_nat (length (nonzeros s ++ rest))) by lia.
    destruct (unpack_seg_spec s (mask s 0 0) 0 rest x b1 p1 z1) as (b2 & p2 & z2 & Hseg & Hu2);
      [intros k b Hk; by apply mask_bits|done|].
    rewrite Hs8 in Hseg. step_with Hseg.
    exists f1, b2, p2, z2. rewrite length_app in Hf1. split; [lia|]. split; [|done].
    rewrite length_app, Hs8. f_equal. lia.
  - rewrite <- app_assoc in *. destruct (IH fuel (ff_code run ++ rest) Hf)
      as (f1 & b1 & p1 & z1 & Hf1 & He & Hu). rewrite He.
    assert (Hlc : length (concat run) = (8 * length run)%nat).
    { clear -Hrun. induction Hrun as [|s run Hs _ IH]; [done|]. cbn [concat length].
      rewrite length_app. lia. }
    assert (Hff : ff_code run = 0xff :: Z.of_nat (length run) - 1 :: concat run) by by destruct run.
    assert (Hpos : (0 < length run)%nat) by (destruct run; [done|simpl; lia]).
    rewrite Hff in *. cbn [app length] in *. destruct f1 as [|f1]; [lia|]. cbn [unpack_loop].
    rewrite bool_decide_true by lia. rewrite read_at_0, bind_Ret.
    rewrite bool_decide_true by done. cbn [drop]; rewrite ?drop_0. rewrite bool_decide_false by lia.
    rewrite read_at_0, bind_Ret. cbn [drop]; rewrite ?drop_0.
    replace ((Z.of_nat (length run) - 1 + 1) * 8) with (Z.of_nat (length (concat run))) by lia.
    rewrite bool_decide_false by size_lia.
    rewrite (read_prefix (concat run) rest), bind_Ret by done.
    destruct (unpacked_block x (concat run) b1 p1 z1 Hu) as (b2 & Hw & Hu2); [lia|].
    step_with Hw. rewrite Nat2Z.id, drop_app_length.
    do 4 eexists. split; [|split; [|exact Hu2]]; [rewrite length_app in Hf1; instantiate (1 := f1); lia|].
    f_equal; [size_lia|rewrite length_app; lia].
Qed.

Lemma sproto_unpack_coded bufferv p x : length bufferv = len -> 0 <= T -> coded p x ->
  exists buf, sproto_unpack p bufferv T = Ret (Z.of_nat (length x), buf) /\ length buf = len /\
    (Z.of_nat (length x) <= T -> exists rest, buf = x ++ rest).
Proof.
  intros Hl HT0 Hc. unfold sproto_unpack.
  destruct (unpack_loop_coded bufferv p x) with (fuel := length p) (rest := @nil Z)
    as (f & buf & pos & bufsz & _ & He & Hlen & Hu); [|done|by rewrite app_nil_r|].
  { split; [done|]. rewrite decide_True by (simpl; lia). split; [by exists bufferv|simpl; lia]. }
  rewrite app_nil_r in He. rewrite He. exists buf. split; [by destruct f|]. split; [done|].
  intros Hx. rewrite decide_True in Hu by done. tauto.
Qed.
End unpack.

(** ** Sizes *)

Lemma segments_8 src : Forall (fun s => length s = 8%nat) (segments src).
Proof.
  unfold segments. apply Forall_fmap, Forall_forall. intros j Hj%elem_of_seq.
  apply length_seg_at. lia.
Qed.

Lemma length_segments src : length (segments src) = nsegs src.
Proof. unfold segments. by rewrite length_fmap, length_seq. Qed.

Lemma length_concat_8 (run : list seg) : Forall (fun s => length s = 8%nat) run ->
  length (concat run) = (8 * length run)%nat.
Proof. induction 1 as [|s run Hs _ IH]; [done|]. cbn [concat length]. rewrite length_app. lia. Qed.

Lemma code_cost (run : list seg) : Forall (fun s => length s = 8%nat) run ->
  length (ff_code run) = run_cost run.
Proof.
  intros H. destruct (decide (run = [])) as [->|Hne]; [done|].
  by rewrite length_ff_code, run_cost_ne, length_concat_8.
Qed.

(** Two bytes for each full run, and nothing else so far. *)
Lemma state_size segs : Forall (fun s => length s = 8%nat) segs ->
  let '(out, run) := spec_state segs in
  Forall (fun s => length s = 8%nat) run /\
  exists c, (length out + 8 * length run <= 8 * length segs + 2 * c)%nat /\
    (256 * c + length run <= length segs)%nat.
Proof.
  induction segs as [|s segs IH] using rev_ind; intros Hs; [split; [constructor|by exists 0%nat]|].
  apply Forall_app in Hs as [Hs Hs8]. rewrite Forall_singleton in Hs8.
  rewrite spec_state_snoc. specialize (IH Hs). destruct (spec_state segs) as [out run].
  destruct IH as (Hr & c & H1 & H2). cbn [spec_step]. rewrite length_app. cbn [length].
  assert (Hrs : Forall (fun s => length s = 8%nat) (run ++ [s]))
    by (apply Forall_app; split; [done|by apply Forall_singleton]).
  destruct (copied run s) eqn:Ec.
  - destruct (bool_decide_reflect (S (length run) = 256%nat)) as [Hf|Hf]; cbn.
    + split; [constructor|]. exists (S c). rewrite length_app, code_cost by done.
      rewrite run_cost_ne, length_app by by destruct run. simpl. lia.
    + split; [done|]. exists c. size_lia.
  - split; [constructor|]. exists c. pose proof (count_le s) as Hc. rewrite Hs8 in Hc.
    destruct (small_code_short run s Ec Hc) as [Hk8 Hk6].
    rewrite !length_app, code_cost by done. cbn [length].
    destruct (decide (run = [])) as [->|Hne]; [simpl in *; lia|].
    specialize (Hk6 Hne). rewrite run_cost_ne by done. lia.
Qed.

(** A complete message grows by two bytes for 256 segments at most. *)
Lemma pack_size_words src : (length src mod 8 = 0)%nat ->
  Z.of_nat (length (pack_spec (segments src))) <= pack_maxsz (Z.of_nat (length src)).
Proof.
  intros H8. pose proof (state_size _ (segments_8 src)) as H. unfold pack_spec.
  destruct (spec_state (segments src)) as [out run]. destruct H as (Hr & c & H1 & H2).
  rewrite length_segments in *. pose proof (nsegs_range src).
  pose proof (Nat.div_mod (length src) 8 ltac:(lia)).
  rewrite length_app, code_cost by done. unfold pack_maxsz.
  destruct (decide (run = [])) as [->|Hne]; [cbn in *; dlia|].
  rewrite run_cost_ne by done. assert (0 < length run)%nat by (destruct run; [done|simpl; lia]). dlia.
Qed.

(** The zeros behind an incomplete message do not count. *)
Lemma count_last src j : (8 * j < length src)%nat ->
  (count (seg_at src j) + (8 * S j - length src) <= 8)%nat.
Proof.
  intros Hj. destruct (decide (8 * j + 8 <= length src)%nat) as [Hf|Hf].
  - pose proof (count_le (seg_at src j)). rewrite length_seg_at in * by (apply below_nsegs; lia). lia.
  - destruct (seg_at_last src j) as [-> _]; [lia|]. unfold count, nonzeros.
    rewrite filter_app, length_app.
    assert (Hz : filter (fun b => b <> 0) (replicate (8 * j + 8 - length src) 0) = []).
    { induction (8 * j + 8 - length src)%nat as [|n IH]; [done|]. cbn [replicate].
      rewrite filter_cons, decide_False by (intros Hz; by apply Hz). exact IH. }
    rewrite Hz. pose proof (count_le (drop (8 * j) src)) as Hfl. unfold count, nonzeros in Hfl.
    rewrite length_drop in Hfl. cbn [length]. lia.
Qed.

(** Any message needs two bytes more at most. *)
Lemma pack_size src :
  Z.of_nat (length (pack_spec (segments src))) <= pack_maxsz (Z.of_nat (length src)) + 2.
Proof.
  pose proof (nsegs_range src) as Hn. destruct (decide (nsegs src = 0%nat)) as [H0|H0].
  { unfold segments. rewrite H0. cbn. unfold pack_maxsz. dlia. }
  set (j := (nsegs src - 1)%nat). assert (Hj : nsegs src = S j) by (unfold j; lia).
  assert (Hin : (8 * j < length src)%nat) by (apply below_nsegs; lia).
  assert (Hsegs : segments src = take j (segments src) ++ [seg_at src j]).
  { rewrite <- (take_S_r _ _ (seg_at src j)).
    - rewrite take_ge; [done|]. rewrite length_segments. lia.
    - unfold segments. rewrite list_lookup_fmap, lookup_seq_lt by lia. done. }
  pose proof (count_last src j Hin) as Hcnt. set (s := seg_at src j) in *.
  assert (Hs8 : length s = 8%nat) by (apply length_seg_at; lia).
  pose proof (state_size (take j (segments src)) ltac:(apply Forall_take, segments_8)) as H.
  unfold pack_spec. rewrite Hsegs, spec_state_snoc.
  destruct (spec_state (take j (segments src))) as [out run]. destruct H as (Hr & c & H1 & H2).
  rewrite length_take, length_segments, Nat.min_l in H1, H2 by lia.
  assert (Hbound : forall n, (n <= length src + 4 + 2 * c)%nat ->
    Z.of_nat n <= pack_maxsz (Z.of_nat (length src)) + 2) by (unfold pack_maxsz; intros; dlia).
  assert (Hrs : Forall (fun s => length s = 8%nat) (run ++ [s]))
    by (apply Forall_app; split; [done|by apply Forall_singleton]).
  cbn [spec_step]. destruct (copied run s) eqn:Ec.
  - apply bool_decide_eq_true in Ec. assert (Hc6 : (6 <= count s)%nat) by (destruct Ec as [?|[_ ?]]; lia).
    assert (Hrl : length (run ++ [s]) = S (length run)) by size_lia.
    destruct (bool_decide_reflect (S (length run) = 256%nat)) as [Hf|Hf];
      apply Hbound; rewrite ?length_app, ?code_cost, ?run_cost_ne, ?Hrl by (try done; by destruct run);
      simpl; lia.
  - apply Hbound. rewrite !length_app, code_cost, length_small_code by done. cbn [ff_code length].
    destruct (decide (run = [])) as [->|Hne]; [simpl in *; lia|].
    pose proof (count_le s) as Hc8. rewrite Hs8 in Hc8.
    destruct (small_code_short run s Ec Hc8) as [_ Hk6]. rewrite length_small_code in Hk6.
    specialize (Hk6 Hne). rewrite run_cost_ne by done. lia.
Qed.

Lemma expand_spec fuel : forall osz nsz, 0 < osz < nsz -> nsz <= 2 ^ 23 ->
  nsz <= osz * 2 ^ Z.of_nat (S fuel) ->
  exists o, expand_loop fuel osz nsz = Ret o /\ nsz <= o <= 2 ^ 24.
Proof.
  induction fuel as [|fuel IH]; intros osz nsz Ho Hn Hf; cbn [expand_loop];
    rewrite i32_small by (unfold is_i32; lia).
  - change (2 ^ Z.of_nat 1) with 2 in Hf. rewrite bool_decide_false by lia.
    exists (osz * 2). split; [done|lia].
  - destruct (bool_decide_reflect (osz * 2 < nsz)) as [Hlt|Hge].
    + apply IH; [lia|done|]. rewrite (Nat2Z.inj_succ (S fuel)), Z.pow_succ_r in Hf by lia. lia.
    + exists (osz * 2). split; [done|lia].
Qed.

Lemma expand_buffer_spec osz nsz : 0 < osz < nsz -> nsz <= 2 ^ 23 ->
  exists o, expand_buffer osz nsz = Ret (replicate (Z.to_nat o) 0, o) /\ nsz <= o <= 2 ^ 24.
Proof.
  intros Ho Hn. unfold expand_buffer. destruct (expand_spec 31 osz nsz Ho Hn) as (o & He & Hr).
  { change (2 ^ Z.of_nat 32) with 4294967296. lia. }
  step_with He. unfold ENCODE_MAXSIZE. rewrite bool_decide_false by lia. eauto.
Qed.

(** A buffer that a function keeps: its memory and its size. *)
Definition kept (output : list Z) (osz : Z) : Prop := 0 < osz /\ osz = Z.of_nat (length output).

(** The buffer is large enough, or it is replaced. *)
Lemma enough_buffer output osz n : kept output osz -> 0 <= n <= 2 ^ 23 ->
  exists output' osz', (if bool_decide (osz < n) then expand_buffer osz n else Ret (output, osz)) =
      Ret (output', osz') /\ kept output' osz' /\ n <= osz'.
Proof.
  intros [H0 Hl] Hn. destruct (bool_decide_reflect (osz < n)) as [Hlt|Hge].
  - destruct (expand_buffer_spec osz n) as (o & He & Ho); [lia|lia|]. rewrite He.
    do 2 eexists. split; [done|]. split; [|lia]. split; [lia|]. rewrite length_replicate. lia.
  - exists output, osz. split; [done|]. split; [done|lia].
Qed.

Lemma sproto_unpack_spec segs bufferv bufsz : Forall (fun s => length s = 8%nat) segs ->
  0 <= bufsz <= Z.of_nat (length bufferv) ->
  exists buf, sproto_unpack (pack_spec segs) bufferv bufsz = Ret (Z.of_nat (length (concat segs)), buf) /\
    length buf = length bufferv /\
    (Z.of_nat (length (concat segs)) <= bufsz -> exists rest, buf = concat segs ++ rest).
Proof.
  intros Hs [H0 Hb]. apply (sproto_unpack_coded (length bufferv) bufsz Hb bufferv); [done|done|].
  by apply pack_spec_coded.
Qed.

(** Up to 255 segments no run is full. *)
Lemma few_segments src : (nsegs src <= 255)%nat -> ~ overreads src.
Proof.
  intros Hn (_ & init & s & He & Hl & _).
  assert (Hi : Forall (fun s => length s = 8%nat) init).
  { pose proof (segments_8 src) as H. rewrite He in H. by apply Forall_app in H as [H _]. }
  apply (f_equal length) in He. rewrite length_segments, length_app in He. cbn [length] in He.
  pose proof (state_size init Hi) as H. destruct (spec_state init) as [out run].
  destruct H as (_ & c & _ & H). cbn in Hl. lia.
Qed.

(** ** Theorems *)

(** [sproto_pack] computes the code of the message's segments, which is defined
    without the buffer: whatever the size of the buffer the result is the size of the code,
    nothing is written outside the buffer, and the code is there when it fits; unless
    the message [overreads]. *)
Theorem sproto_pack_refines src bufferv bufsz :
  bufsz <= Z.of_nat (length bufferv) -> ~ overreads src ->
  exists buf, sproto_pack src bufferv bufsz = Ret (Z.of_nat (length (pack_spec (segments src))), buf) /\
    length buf = length bufferv /\
    (Z.of_nat (length (pack_spec (segments src))) <= bufsz ->
     exists rest, buf = pack_spec (segments src) ++ rest).
Proof. apply sproto_pack_spec. Qed.

Lemma sproto_pack_refines_witness :
  exists buf, sproto_pack (replicate 14 9) (replicate 20 0) 20 =
      Ret (Z.of_nat (length (pack_spec (segments (replicate 14 9)))), buf) /\
    length buf = 20%nat /\
    (Z.of_nat (length (pack_spec (segments (replicate 14 9)))) <= 20 ->
     exists rest, buf = pack_spec (segments (replicate 14 9)) ++ rest).
Proof.
  apply (sproto_pack_refines (replicate 14 9) (replicate 20 0) 20); [done|].
  by apply few_segments, Nat.leb_le.
Defined.

(** C20: For a message on which the packer does not read behind its end ([overreads]:
    the last segment is incomplete and the 256th of a run, [pack_overreads]) and a buffer of
    two bytes more than [pack_maxsz] ([lpack] allocates two less, [lpack_too_small]),
    unpacking gives back what was packed, filled up with zeros to whole segments; the
    code is at most two bytes for 2 KiB and two more longer than the message, and the
    unpacker may be given any buffer: it answers the size that is needed. *)
Theorem sproto_roundtrip src bufferv :
  pack_maxsz (Z.of_nat (length src)) + 2 <= Z.of_nat (length bufferv) -> ~ overreads src ->
  exists n buf, sproto_pack src bufferv (Z.of_nat (length bufferv)) = Ret (Z.of_nat n, buf) /\
    Z.of_nat n <= pack_maxsz (Z.of_nat (length src)) + 2 /\
    forall buffer2 bufsz, 0 <= bufsz <= Z.of_nat (length buffer2) ->
      exists out, sproto_unpack (take n buf) buffer2 bufsz = Ret (Z.of_nat (length (pad8 src)), out) /\
        (Z.of_nat (length (pad8 src)) <= bufsz -> exists rest, out = pad8 src ++ rest).
Proof.
  intros Hfit Hok. pose proof (pack_size src) as Hsz.
  destruct (sproto_pack_spec src bufferv (Z.of_nat (length bufferv)) ltac:(lia) Hok)
    as (buf & He & Hl & Hb). destruct (Hb ltac:(lia)) as [rest ->].
  do 2 eexists. split; [exact He|]. split; [lia|]. intros buffer2 bufsz Hb2.
  rewrite take_app_length.
  destruct (sproto_unpack_spec (segments src) buffer2 bufsz (segments_8 src) Hb2) as (out & Hu & _ & Hr).
  rewrite concat_segments in Hu, Hr. eauto.
Qed.

Lemma sproto_roundtrip_witness : exists n buf,
  sproto_pack [1; 0; 3] (replicate 16 0) 16 = Ret (Z.of_nat n, buf) /\
  Z.of_nat n <= pack_maxsz 3 + 2 /\
  forall buffer2 bufsz, 0 <= bufsz <= Z.of_nat (length buffer2) ->
    exists out, sproto_unpack (take n buf) buffer2 bufsz = Ret (8, out) /\
      (8 <= bufsz -> exists rest, out = [1; 0; 3; 0; 0; 0; 0; 0] ++ rest).
Proof.
  apply (sproto_roundtrip [1; 0; 3] (replicate 16 0)); [vm_compute; discriminate|].
  by apply few_segments, Nat.leb_le.
Defined.

(** The pack and unpack functions of the library are inverse on messages of whole
    segments of up to 4 MiB, whatever buffers they have kept from earlier calls: the size
    that [lpack] allows is enough for these, and neither raises an error. *)
Theorem lpack_lunpack output osz output2 osz2 src :
  kept output osz -> kept output2 osz2 ->
  (length src mod 8 = 0)%nat -> Z.of_nat (length src) <= 2 ^ 22 ->
  exists p o1 n1 o2 n2,
    lpack output osz src = Ret (p, o1, n1) /\ kept o1 n1 /\
    lunpack output2 osz2 p = Ret (src, o2, n2) /\ kept o2 n2.
Proof.
  intros Hk1 Hk2 H8 H22. pose proof (pack_size_words src H8) as Hsz.
  assert (Hmax : 0 <= pack_maxsz (Z.of_nat (length src)) <= 2 ^ 23)
    by (unfold pack_maxsz; dlia).
  assert (Hok : ~ overreads src) by (by intros [H _]).
  set (m := pack_maxsz (Z.of_nat (length src))) in *.
  destruct (enough_buffer output osz m Hk1 Hmax) as (o1 & n1 & He1 & [Hn1 Hl1] & Hm1).
  destruct (sproto_pack_spec src o1 m ltac:(lia) Hok) as (buf & Hp & Hlb & Hb).
  destruct (Hb Hsz) as [rest ->]. set (p := pack_spec (segments src)) in *.
  assert (Hcs : concat (segments src) = src) by by rewrite concat_segments, pad8_words.
  destruct (sproto_unpack_spec (segments src) output2 osz2 (segments_8 src)) as (b1 & Hu1 & Hlb1 & _);
    [destruct Hk2; lia|].
  assert (Hk2' : kept b1 osz2) by (destruct Hk2; split; [done|congruence]).
  destruct (enough_buffer b1 osz2 (Z.of_nat (length src)) Hk2' ltac:(lia))
    as (o2 & n2 & He2 & [Hn2 Hl2] & Hm2).
  destruct (sproto_unpack_spec (segments src) o2 (Z.of_nat (length src)) (segments_8 src))
    as (b2 & Hu2 & Hlb2 & Hr2); [lia|].
  rewrite Hcs in *. fold p in Hu1, Hu2. destruct (Hr2 ltac:(lia)) as [rest2 ->].
  exists p, (p ++ rest), n1, (src ++ rest2), n2. split_and!.
  - unfold lpack. fold m. rewrite i32_small by (unfold is_i32; lia). cbv zeta.
    step_with He1. step_with Hp. rewrite u64_small by (unfold is_u64; lia).
    rewrite bool_decide_false by lia. by rewrite read_prefix, bind_Ret.
  - split; [lia|]. congruence.
  - unfold lunpack. step_with Hu1. rewrite bool_decide_false by lia.
    rewrite (bool_decide_ext (Z.of_nat (length src) > osz2) (osz2 < Z.of_nat (length src))) by lia.
    step_with He2. step_with Hu2. rewrite bool_decide_false by lia. by rewrite read_prefix, bind_Ret.
  - split; [lia|]. congruence.
Qed.

Lemma lpack_lunpack_witness :
  exists p o1 n1 o2 n2,
    lpack (replicate 4 0) 4 (replicate 64 5) = Ret (p, o1, n1) /\ kept o1 n1 /\
    lunpack (replicate 2 0) 2 p = Ret (replicate 64 5, o2, n2) /\ kept o2 n2.
Proof. apply lpack_lunpack; [done|done|done|vm_compute; discriminate]. Defined.
