(* ===== verification/SprotoCode.v ===== *)
(** * Sproto messages: encoding and decoding
    (src/lualib-src/sproto/sproto.c: findtag to sproto_encode, sproto_decode)

    Both walk a type of the schema and give or ask for the values by a callback with a
    state [U].  Memory is one list of bytes, a pointer an offset into it; the [size] of
    the code is a number of its own, and what it lets through is written or read in the
    memory, where an offset that is not there is a fault.  The callback of the encoder
    gets the bytes at [args->value] and gives them back as it leaves them. *)
From S2P Require Import Prelude.
From stdpp Require Import base list gmap numbers strings.
From Stdlib Require Import ZArith Lia.

Local Open Scope Z_scope.

Definition SPROTO_TINTEGER : Z := 0.
Definition SPROTO_TBOOLEAN : Z := 1.
Definition SPROTO_TSTRING : Z := 2.
Definition SPROTO_TSTRUCT : Z := 3.
Definition SPROTO_TARRAY : Z := 0x80.

Definition SIZEOF_LENGTH : Z := 4.
Definition SIZEOF_HEADER : Z := 2.
Definition SIZEOF_FIELD : Z := 2.

(** A string of the schema: its address, which the callbacks compare, and its text. *)
Record sname := mk_sname { n_at : Z; n_text : list Z }.

(** [f_st] is the index of the type in the schema. *)
Record field := mk_field {
  f_tag : Z;
  f_type : Z;
  f_name : sname;
  f_st : option nat;
  f_key : Z
}.

Record sproto_type := mk_type {
  t_name : sname;
  t_n : Z;
  t_base : Z;
  t_maxn : Z;
  t_f : list field
}.

(** What a callback is told; [ud] is its state and [value] another argument. *)
Record sproto_arg := mk_arg {
  a_tagname : sname;
  a_tagid : Z;
  a_type : Z;
  a_subtype : option nat;
  a_length : Z;
  a_index : Z;
  a_mainindex : Z
}.

Definition set_length (n : Z) (a : sproto_arg) : sproto_arg :=
  mk_arg (a_tagname a) (a_tagid a) (a_type a) (a_subtype a) n (a_index a) (a_mainindex a).
Definition set_index (i : Z) (a : sproto_arg) : sproto_arg :=
  mk_arg (a_tagname a) (a_tagid a) (a_type a) (a_subtype a) (a_length a) i (a_mainindex a).

Definition toword (m : list Z) (p : Z) : outcome Z := b ← read_bytes m p 2; Ret (le_value b).
Definition todword (m : list Z) (p : Z) : outcome Z := b ← read_bytes m p 4; Ret (le_value b).

(** The binary search of [findtag]; [fuel] bounds [end - begin]. *)
Fixpoint findtag_loop (fuel : nat) (fs : list field) (tag begin end_ : Z) : outcome (option field) :=
  if bool_decide (begin < end_) then
    match fuel with
    | O => Crash OutOfFuel
    | S fuel =>
      let mid := (begin + end_) / 2 in
      f ← read_at fs mid;
      if bool_decide (f_tag f = tag) then Ret (Some f)
      else if bool_decide (tag > f_tag f) then findtag_loop fuel fs tag (mid + 1) end_
      else findtag_loop fuel fs tag begin mid
    end
  else Ret None.

Definition findtag (st : sproto_type) (tag : Z) : outcome (option field) :=
  if bool_decide (0 <= t_base st) then
    let tag := tag - t_base st in
    if bool_decide (tag < 0 \/ tag >= t_n st) then Ret None
    else f ← read_at (t_f st) tag; Ret (Some f)
  else findtag_loop (Z.to_nat (t_n st)) (t_f st) tag 0 (t_n st).

(** ** Encoding *)

Definition fill_size (m : list Z) (data sz : Z) : outcome (Z * list Z) :=
  m ← write_bytes m data (le_bytes 4 sz); Ret (sz + SIZEOF_LENGTH, m).

(** [size] is an [int] that is compared with a [size_t]. *)
Definition below_size_t (size n : Z) : bool := bool_decide (u64 size < n).

Definition encode_integer (v : Z) (m : list Z) (data size : Z) : outcome (Z * list Z) :=
  if below_size_t size 8 then Ret (-1, m)
  else m ← write_bytes m (data + 4) (le_bytes 4 v); fill_size m data 4.

Definition encode_uint64 (v : Z) (m : list Z) (data size : Z) : outcome (Z * list Z) :=
  if below_size_t size 12 then Ret (-1, m)
  else m ← write_bytes m (data + 4) (le_bytes 8 v); fill_size m data 8.

Section ENCODE.
Context {U : Type} (cb : sproto_arg -> U -> list Z -> outcome (Z * U * list Z)).

(** A call with [args->value] at [p]. *)
Definition call_at (args : sproto_arg) (u : U) (m : list Z) (p : Z) : outcome (Z * U * list Z) :=
  region ← read_bytes m p (a_length args);
  '(sz, u, region) ← cb args u region;
  m ← write_bytes m p region;
  Ret (sz, u, m).

Definition encode_object (args : sproto_arg) (u : U) (m : list Z) (data size : Z) : outcome (Z * U * list Z) :=
  if bool_decide (size < SIZEOF_LENGTH) then Ret (-1, u, m)
  else
    let args := set_length (size - SIZEOF_LENGTH) args in
    '(sz, u, m) ← call_at args u m (data + SIZEOF_LENGTH);
    if bool_decide (sz <= 0) then Ret (sz, u, m)
    else
      let sz := if bool_decide (a_type args = SPROTO_TSTRING) then sz - 1 else sz in
      '(r, m) ← fill_size m data sz;
      Ret (r, u, m).

Definition uint32_to_uint64 (negative : bool) (m : list Z) (buffer : Z) : outcome (list Z) :=
  write_bytes m (buffer + 4) (replicate 4 (if negative then 0xff else 0)).

(** The rearrangement of the first [n] elements behind [header], the last one first. *)
Fixpoint rearrange (n : nat) (m : list Z) (header : Z) : outcome (list Z) :=
  match n with
  | O => Ret m
  | S i =>
    v ← read_bytes m (header + 1 + Z.of_nat i * 4) 4;
    m ← write_bytes m (header + 1 + Z.of_nat i * 8) v;
    b ← read_at m (header + 1 + Z.of_nat i * 8 + 3);
    m ← uint32_to_uint64 (bool_decide (Z.land b 0x80 <> 0)) m (header + 1 + Z.of_nat i * 8);
    rearrange i m header
  end.

(** The loop of [encode_integer_array]: [None] for NULL, or the end of the elements and
    their width.  Every round takes at least four bytes of the memory: [fuel] is more
    than its length. *)
Fixpoint integer_loop (fuel : nat) (args : sproto_arg) (u : U) (m : list Z)
    (header buffer size intlen index : Z) : outcome (option (Z * Z) * U * list Z) :=
  match fuel with
  | O => Crash OutOfFuel
  | S fuel =>
    '(sz, u, v) ← cb (set_index index (set_length 8 args)) u (replicate 8 0);
    if bool_decide (sz < 0) then Ret (None, u, m)
    else if bool_decide (sz = 0) then Ret (Some (buffer, intlen), u, m)
    else if below_size_t size 8 then Ret (None, u, m)
    else if bool_decide (sz = 4) then
      let v := le_value (take 4 v) in
      m ← write_bytes m buffer (le_bytes 4 v);
      m ← (if bool_decide (intlen = 8) then uint32_to_uint64 (bool_decide (Z.land v 0x80000000 <> 0)) m buffer
           else Ret m);
      integer_loop fuel args u m header (buffer + intlen) (i32 (size - intlen)) intlen (index + 1)
    else if bool_decide (sz <> 8) then Ret (None, u, m)
    else
      let v := le_value v in
      let wide := bool_decide (intlen = 4) in
      let size := if wide then i32 (size - (index - 1) * 4) else size in
      if wide && below_size_t size 8 then Ret (None, u, m)
      else
        let buffer := if wide then buffer + (index - 1) * 4 else buffer in
        m ← (if wide then rearrange (Z.to_nat (index - 1)) m header else Ret m);
        m ← write_bytes m buffer (le_bytes 8 v);
        integer_loop fuel args u m header (buffer + 8) (i32 (size - 8)) 8 (index + 1)
  end.

Definition encode_integer_array (args : sproto_arg) (u : U) (m : list Z) (buffer size : Z)
  : outcome (option Z * U * list Z) :=
  let header := buffer in
  if bool_decide (size < 1) then Ret (None, u, m)
  else
    '(r, u, m) ← integer_loop (S (length m)) args u m header (buffer + 1) (size - 1) 4 1;
    match r with
    | None => Ret (None, u, m)
    | Some (buffer, intlen) =>
      if bool_decide (buffer = header + 1) then Ret (Some header, u, m)
      else m ← write_at m header intlen; Ret (Some buffer, u, m)
    end.

(** The loops of the other arrays. *)
Fixpoint boolean_loop (fuel : nat) (args : sproto_arg) (u : U) (m : list Z) (buffer size index : Z)
  : outcome (option Z * U * list Z) :=
  match fuel with
  | O => Crash OutOfFuel
  | S fuel =>
    '(sz, u, v) ← cb (set_index index (set_length 4 args)) u (replicate 4 0);
    if bool_decide (sz < 0) then Ret (None, u, m)
    else if bool_decide (sz = 0) then Ret (Some buffer, u, m)
    else if bool_decide (size < 1) then Ret (None, u, m)
    else
      m ← write_at m buffer (if bool_decide (le_value v = 0) then 0 else 1);
      boolean_loop fuel args u m (buffer + 1) (size - 1) (index + 1)
  end.

Fixpoint object_loop (fuel : nat) (args : sproto_arg) (u : U) (m : list Z) (buffer size index : Z)
  : outcome (option Z * U * list Z) :=
  match fuel with
  | O => Crash OutOfFuel
  | S fuel =>
    if bool_decide (size < SIZEOF_LENGTH) then Ret (None, u, m)
    else
      let size := size - SIZEOF_LENGTH in
      '(sz, u, m) ← call_at (set_index index (set_length size args)) u m (buffer + SIZEOF_LENGTH);
      if bool_decide (sz = 0) then Ret (Some buffer, u, m)
      else if bool_decide (sz < 0) then Ret (None, u, m)
      else
        let sz := if bool_decide (a_type args = SPROTO_TSTRING) then sz - 1 else sz in
        '(_, m) ← fill_size m buffer sz;
        object_loop fuel args u m (buffer + SIZEOF_LENGTH + sz) (size - sz) (index + 1)
  end.

Definition encode_array (args : sproto_arg) (u : U) (m : list Z) (data size : Z) : outcome (Z * U * list Z) :=
  if bool_decide (size < SIZEOF_LENGTH) then Ret (-1, u, m)
  else
    let size := size - SIZEOF_LENGTH in
    let buffer := data + SIZEOF_LENGTH in
    '(r, u, m) ←
      (if bool_decide (a_type args = SPROTO_TINTEGER) then encode_integer_array args u m buffer size
       else if bool_decide (a_type args = SPROTO_TBOOLEAN) then
         boolean_loop (S (length m)) args u m buffer size 1
       else object_loop (S (length m)) args u m buffer size 1);
    match r with
    | None => Ret (-1, u, m)
    | Some buffer =>
      let sz := buffer - (data + SIZEOF_LENGTH) in
      if bool_decide (sz = 0) then Ret (0, u, m)
      else '(r, m) ← fill_size m data sz; Ret (r, u, m)
    end.

(** The body of the loop of [sproto_encode] up to the record: [value] and [sz]. *)
Definition encode_field (f : field) (u : U) (m : list Z) (data size : Z) : outcome (Z * Z * U * list Z) :=
  let args := mk_arg (f_name f) (f_tag f) (Z.land (f_type f) (Z.lnot SPROTO_TARRAY)) (f_st f) 0 0 (f_key f) in
  if bool_decide (Z.land (f_type f) SPROTO_TARRAY <> 0) then
    '(sz, u, m) ← encode_array args u m data size; Ret (0, sz, u, m)
  else if bool_decide (f_type f = SPROTO_TINTEGER \/ f_type f = SPROTO_TBOOLEAN) then
    '(sz, u, v) ← cb (set_length 8 args) u (replicate 8 0);
    if bool_decide (sz < 0) then Ret (0, -1, u, m)
    else if bool_decide (sz = 0) then Ret (0, 0, u, m)
    else if bool_decide (sz = 4) then
      let v := le_value (take 4 v) in
      if bool_decide (v < 0x7fff) then Ret ((v + 1) * 2, 2, u, m)
      else '(sz, m) ← encode_integer v m data size; Ret (0, sz, u, m)
    else if bool_decide (sz = 8) then
      '(sz, m) ← encode_uint64 (le_value v) m data size; Ret (0, sz, u, m)
    else Ret (0, -1, u, m)
  else if bool_decide (f_type f = SPROTO_TSTRUCT \/ f_type f = SPROTO_TSTRING) then
    '(sz, u, m) ← encode_object args u m data size; Ret (0, sz, u, m)
  else Ret (0, -1, u, m).

Definition write_word (m : list Z) (p v : Z) : outcome (list Z) := write_bytes m p (le_bytes 2 v).

(** The rest of the loop: the records from [record] on; [None] for -1. *)
Fixpoint encode_fields (fs : list field) (u : U) (m : list Z) (header data size index lasttag : Z)
  : outcome (option (Z * Z) * U * list Z) :=
  match fs with
  | [] => Ret (Some (index, data), u, m)
  | f :: fs =>
    '(value, sz, u, m) ← encode_field f u m data size;
    if bool_decide (sz < 0) then Ret (None, u, m)
    else if bool_decide (sz > 0) then
      let inline := bool_decide (value <> 0) in
      let data := if inline then data else data + sz in
      let size := if inline then size else size - sz in
      let tag := f_tag f - lasttag - 1 in
      let skip := (tag - 1) * 2 + 1 in
      if bool_decide (tag > 0) then
        if bool_decide (skip > 0xffff) then Ret (None, u, m)
        else
          m ← write_word m (header + SIZEOF_HEADER + SIZEOF_FIELD * index) skip;
          m ← write_word m (header + SIZEOF_HEADER + SIZEOF_FIELD * (index + 1)) value;
          encode_fields fs u m header data size (index + 2) (f_tag f)
      else
        m ← write_word m (header + SIZEOF_HEADER + SIZEOF_FIELD * index) value;
        encode_fields fs u m header data size (index + 1) (f_tag f)
    else encode_fields fs u m header data size index lasttag
  end.

(** The message is at [header] in [m], [size] bytes are there for it; -1 when they are
    not enough. *)
Definition sproto_encode (st : sproto_type) (u : U) (m : list Z) (header size : Z) : outcome (Z * U * list Z) :=
  let header_sz := SIZEOF_HEADER + t_maxn st * SIZEOF_FIELD in
  if bool_decide (size < header_sz) then Ret (-1, u, m)
  else
    '(r, u, m) ← encode_fields (t_f st) u m header (header + header_sz) (size - header_sz) 0 (-1);
    match r with
    | None => Ret (-1, u, m)
    | Some (index, data) =>
      m ← write_word m header index;
      let datasz := data - (header + header_sz) in
      m ← (if bool_decide (index <> t_maxn st) then
             d ← read_bytes m (header + header_sz) datasz;
             write_bytes m (header + SIZEOF_HEADER + index * SIZEOF_FIELD) d
           else Ret m);
      Ret (SIZEOF_HEADER + index * SIZEOF_FIELD + datasz, u, m)
    end.
End ENCODE.

(** ** Decoding *)

(** [args->value]: the address of a 64-bit variable, or of bytes of the message. *)
Inductive dvalue := DInt (v : Z) | DPtr (p : Z).

Definition expand64 (v : Z) : Z := if bool_decide (Z.land v 0x80000000 <> 0) then v + (2 ^ 64 - 2 ^ 32) else v.

Section DECODE.
Context {U : Type} (cb : sproto_arg -> dvalue -> U -> outcome (Z * U)).
(** The memory of the message. *)
Context (m : list Z).

(** A call with a 64-bit value, whose answer is not looked at. *)
Definition give_int (args : sproto_arg) (v : Z) (u : U) : outcome U :=
  '(_, u) ← cb (set_length 8 args) (DInt v) u; Ret u.

(** [hsz > sz] compares as [uint32_t]; a round takes at least four bytes. *)
Fixpoint decode_array_object (fuel : nat) (args : sproto_arg) (stream sz index : Z) (u : U) : outcome (Z * U) :=
  if bool_decide (sz > 0) then
    match fuel with
    | O => Crash OutOfFuel
    | S fuel =>
      if bool_decide (sz < SIZEOF_LENGTH) then Ret (-1, u)
      else
        hsz ← todword m stream;
        let stream := stream + SIZEOF_LENGTH in
        let sz := sz - SIZEOF_LENGTH in
        if bool_decide (hsz > u32 sz) then Ret (-1, u)
        else
          '(r, u) ← cb (set_index index (set_length (i32 hsz) args)) (DPtr stream) u;
          if bool_decide (r <> 0) then Ret (-1, u)
          else decode_array_object fuel args (stream + hsz) (sz - hsz) (index + 1) u
    end
  else Ret (0, u).

(** The loops over integers of [width] bytes and over booleans from [i] on; an element
    that is not in the memory ends them with a fault, so [fuel] is more than its length. *)
Fixpoint decode_ints (fuel : nat) (args : sproto_arg) (width stream i n : Z) (u : U) : outcome U :=
  if bool_decide (i < n) then
    match fuel with
    | O => Crash OutOfFuel
    | S fuel =>
      v ← (if bool_decide (width = 1) then read_at m (stream + i)
           else if bool_decide (width = 4) then v ← todword m (stream + i * 4); Ret (expand64 v)
           else low ← todword m (stream + i * 8);
                hi ← todword m (stream + i * 8 + 4);
                Ret (Z.lor low (Z.shiftl hi 32)));
      u ← give_int (set_index (i + 1) args) v u;
      decode_ints fuel args width stream (i + 1) n u
    end
  else Ret u.

Definition decode_array (args : sproto_arg) (stream : Z) (u : U) : outcome (Z * U) :=
  sz ← todword m stream;
  let stream := stream + SIZEOF_LENGTH in
  if bool_decide (a_type args = SPROTO_TINTEGER) then
    if bool_decide (sz < 1) then Ret (-1, u)
    else
      len ← read_at m stream;
      let stream := stream + 1 in
      let sz := sz - 1 in
      if bool_decide (len = 4 \/ len = 8) then
        if bool_decide (sz mod len <> 0) then Ret (-1, u)
        else u ← decode_ints (S (length m)) args len stream 0 (sz / len) u; Ret (0, u)
      else Ret (-1, u)
  else if bool_decide (a_type args = SPROTO_TBOOLEAN) then
    u ← decode_ints (S (length m)) args 1 stream 0 sz u; Ret (0, u)
  else if bool_decide (a_type args = SPROTO_TSTRING \/ a_type args = SPROTO_TSTRUCT) then
    decode_array_object (S (length m)) args stream (i32 sz) 1 u
  else Ret (-1, u).

(** A field whose data is at [currentdata]. *)
Definition decode_data (f : field) (args : sproto_arg) (currentdata : Z) (u : U) : outcome (Z * U) :=
  if bool_decide (Z.land (f_type f) SPROTO_TARRAY <> 0) then
    '(r, u) ← decode_array args currentdata u; Ret (if bool_decide (r <> 0) then -1 else 0, u)
  else if bool_decide (f_type f = SPROTO_TINTEGER) then
    sz ← todword m currentdata;
    if bool_decide (sz = 4) then
      v ← todword m (currentdata + SIZEOF_LENGTH);
      u ← give_int args (expand64 v) u; Ret (0, u)
    else if bool_decide (sz <> 8) then Ret (-1, u)
    else
      low ← todword m (currentdata + SIZEOF_LENGTH);
      hi ← todword m (currentdata + SIZEOF_LENGTH + 4);
      u ← give_int args (Z.lor low (Z.shiftl hi 32)) u; Ret (0, u)
  else if bool_decide (f_type f = SPROTO_TSTRING \/ f_type f = SPROTO_TSTRUCT) then
    sz ← todword m currentdata;
    '(r, u) ← cb (set_length (i32 sz) args) (DPtr (currentdata + SIZEOF_LENGTH)) u;
    Ret (if bool_decide (r <> 0) then -1 else 0, u)
  else Ret (-1, u).

(** The loop of [sproto_decode] over the records at [stream], [n] of them left; the
    bytes that are left, or [None] for -1. *)
Fixpoint decode_fields (n : nat) (st : sproto_type) (stream datastream size tag : Z) (u : U)
  : outcome (option Z * U) :=
  match n with
  | O => Ret (Some size, u)
  | S n =>
    word ← toword m stream;
    let stream := stream + SIZEOF_FIELD in
    let tag := tag + 1 in
    if bool_decide (Z.land word 1 <> 0) then decode_fields n st stream datastream size (tag + word / 2) u
    else
      let value := word / 2 - 1 in
      let currentdata := datastream in
      r ← (if bool_decide (value < 0) then
             if bool_decide (size < SIZEOF_LENGTH) then Ret None
             else
               sz ← todword m datastream;
               if bool_decide (u32 size < u32 (sz + SIZEOF_LENGTH)) then Ret None
               else Ret (Some (datastream + u32 (sz + SIZEOF_LENGTH), i32 (size - u32 (sz + SIZEOF_LENGTH))))
           else Ret (Some (datastream, size)));
      match r with
      | None => Ret (None, u)
      | Some (datastream, size) =>
        f ← findtag st tag;
        match f with
        | None => decode_fields n st stream datastream size tag u
        | Some f =>
          let args := mk_arg (f_name f) (f_tag f) (Z.land (f_type f) (Z.lnot SPROTO_TARRAY)) (f_st f) 0 0 (f_key f) in
          '(r, u) ←
            (if bool_decide (value < 0) then decode_data f args currentdata u
             else if bool_decide (f_type f <> SPROTO_TINTEGER /\ f_type f <> SPROTO_TBOOLEAN) then Ret (-1, u)
             else u ← give_int args value u; Ret (0, u));
          if bool_decide (r < 0) then Ret (None, u)
          else decode_fields n st stream datastream size tag u
        end
      end
  end.

(** The number of bytes read of the [size] at [data], or -1. *)
Definition sproto_decode (st : sproto_type) (data size : Z) (u : U) : outcome (Z * U) :=
  if bool_decide (size < SIZEOF_HEADER) then Ret (-1, u)
  else
    fn ← toword m data;
    let stream := data + SIZEOF_HEADER in
    let rest := size - SIZEOF_HEADER in
    if bool_decide (rest < fn * SIZEOF_FIELD) then Ret (-1, u)
    else
      '(r, u) ← decode_fields (Z.to_nat fn) st stream (stream + fn * SIZEOF_FIELD) (rest - fn * SIZEOF_FIELD) (-1) u;
      match r with
      | None => Ret (-1, u)
      | Some rest => Ret (size - rest, u)
      end.
End DECODE.
