(* ===== verification/SprotoWire.v ===== *)
(** * What the bytes of a sproto message mean

    The encoder of SprotoCode asks a callback for the content of each field, and the
    decoder gives it.  Here is what they promise each other: the bytes of a message as a
    function of its contents, the contract of the callbacks as the classes
    [EncodeCallback] and [DecodeCallback], and what a good type of the schema is. *)
From S2P Require Import Prelude SprotoCode.
From stdpp Require Import base list gmap numbers strings.
From Stdlib Require Import ZArith Lia.

Local Open Scope Z_scope.

(** ** Messages *)

(** One value of a field; the bytes of an object are its message, with the size that its
    callback asks for and whether it may be called with less. *)
Inductive item :=
| IInt (v : Z)
| IBool (b : bool)
| IStr (b : list Z)
| ISub (need : Z) (steady : bool) (b : list Z).

Inductive content := One (i : item) | Many (l : list item).

Definition item_type (it : item) : Z :=
  match it with
  | IInt _ => SPROTO_TINTEGER
  | IBool _ => SPROTO_TBOOLEAN
  | IStr _ => SPROTO_TSTRING
  | ISub _ _ _ => SPROTO_TSTRUCT
  end.

(** An integer takes four bytes or eight; the elements of an array take the same. *)
Definition small (v : Z) : bool := bool_decide (- 2 ^ 31 <= v < 2 ^ 31).
Definition width (v : Z) : nat := if small v then 4 else 8.
Definition item_small (it : item) : bool := if it is IInt v then small v else true.

Definition sized (b : list Z) : list Z := le_bytes 4 (Z.of_nat (length b)) ++ b.

Definition element (w : nat) (it : item) : list Z :=
  match it with
  | IInt v => le_bytes w v
  | IBool b => [Z.b2z b]
  | IStr b | ISub _ _ b => sized b
  end.

Definition array_width (l : list item) : nat := if forallb item_small l then 4 else 8.
Definition array_elements (l : list item) : list Z := concat (element (array_width l) <$> l).

(** The array of a type: integers come with their width. *)
Definition array_bytes (l : list item) : list Z :=
  match l with
  | IInt _ :: _ => Z.of_nat (array_width l) :: array_elements l
  | _ => array_elements l
  end.

(** The word of a record, and the data behind the records. *)
Definition word_of (c : content) : Z :=
  match c with
  | One (IInt v) => if bool_decide (0 <= v < 0x7fff) then (v + 1) * 2 else 0
  | One (IBool b) => (Z.b2z b + 1) * 2
  | _ => 0
  end.

Definition data_of (c : content) : list Z :=
  if bool_decide (word_of c <> 0) then []
  else match c with
       | One (IInt v) => sized (le_bytes (width v) v)
       | One (IBool _) => []
       | One (IStr b) | One (ISub _ _ b) => sized b
       | Many l => sized (array_bytes l)
       end.

(** Records of ascending tags; a gap takes a record of its own. *)
Fixpoint records (last : Z) (fs : list (Z * content)) : list Z :=
  match fs with
  | [] => []
  | (t, c) :: fs =>
    (if bool_decide (t = last + 1) then [] else [(t - last - 1) * 2 - 1]) ++ word_of c :: records t fs
  end.

Definition words (l : list Z) : list Z := concat (le_bytes 2 <$> l).
Definition datas (fs : list (Z * content)) : list Z := concat (data_of ∘ snd <$> fs).

Definition message (fs : list (Z * content)) : list Z :=
  le_bytes 2 (Z.of_nat (length (records (-1) fs))) ++ words (records (-1) fs) ++ datas fs.

(** What the callback has for the fields of a type; an array without elements is not there. *)
Abbreviation offer := (list (field * option content)).

Definition shown (oc : option content) : option content := if oc is Some (Many []) then None else oc.

Fixpoint present (os : offer) : list (Z * content) :=
  match os with
  | [] => []
  | (f, oc) :: os => match shown oc with Some c => [(f_tag f, c)] | None => [] end ++ present os
  end.

(** ** Types *)

Definition is_array (f : field) : bool := bool_decide (Z.land (f_type f) SPROTO_TARRAY <> 0).
Definition elem_type (f : field) : Z := Z.land (f_type f) (Z.lnot SPROTO_TARRAY).

(** The number of records of the fields when all of them are there. *)
Fixpoint slots (last : Z) (fs : list field) : Z :=
  match fs with
  | [] => 0
  | f :: fs => (if bool_decide (f_tag f = last + 1) then 1 else 2) + slots (f_tag f) fs
  end.

Fixpoint ascending (last : Z) (tags : list Z) : Prop :=
  match tags with
  | [] => True
  | t :: tags => last < t < 0x7fff /\ ascending t tags
  end.

Definition field_ok (f : field) : Prop :=
  0 <= elem_type f <= 3 /\ (f_type f = elem_type f \/ f_type f = elem_type f + SPROTO_TARRAY).

Record type_ok (st : sproto_type) : Prop := {
  ok_tags : ascending (-1) (f_tag <$> t_f st);
  ok_n : t_n st = Z.of_nat (length (t_f st));
  ok_maxn : t_maxn st = slots (-1) (t_f st);
  ok_base : 0 <= t_base st -> forall i f, t_f st !! i = Some f -> f_tag f = t_base st + Z.of_nat i;
  ok_types : Forall field_ok (t_f st)
}.

Definition item_ok (it : item) : Prop :=
  match it with
  | IInt v => is_i64 v
  | ISub need _ b => 0 < Z.of_nat (length b) <= need
  | _ => True
  end.

Definition content_ok (f : field) (c : content) : Prop :=
  match c with
  | One it => is_array f = false /\ elem_type f = item_type it /\ item_ok it
  | Many l => is_array f = true /\ Forall (fun it => elem_type f = item_type it /\ item_ok it) l
  end.

Definition offer_ok (p : field * option content) : Prop :=
  match p.2 with
  | Some c => content_ok p.1 c
  | None => is_array p.1 = false
  end.

(** ** Sizes *)

(** What is enough for a value, for a field and for a message. *)
Definition item_room (it : item) : Z :=
  match it with
  | IInt _ => 8
  | IBool _ => 1
  | IStr b => 4 + Z.of_nat (length b)
  | ISub need _ _ => 4 + need
  end.

Definition sum_of {A} (f : A -> Z) (l : list A) : Z := foldr (fun x n => f x + n) 0 l.

Definition content_room (oc : option content) : Z :=
  match oc with
  | None => 4
  | Some (One it) => 4 + item_room it
  | Some (Many l) => 8 + sum_of item_room l
  end.

Definition room (st : sproto_type) (os : offer) : Z :=
  SIZEOF_HEADER + t_maxn st * SIZEOF_FIELD + sum_of (content_room ∘ snd) os.

(** In a buffer that is too small the array encoder goes wrong when an integer of eight
    bytes follows others of four; a steady value has no such array. *)
Definition item_steady (it : item) : bool := if it is ISub _ s _ then s else true.

Definition content_steady (oc : option content) : bool :=
  match oc with
  | None => true
  | Some (One it) => item_steady it
  | Some (Many l) =>
    forallb item_steady l &&
    match l with it :: l => negb (item_small it) || forallb item_small l | [] => true end
  end.

Definition steady (os : offer) : bool := forallb (content_steady ∘ snd) os.

(** ** The contract of the encoder's callback *)

Definition field_arg (f : field) (len index : Z) : sproto_arg :=
  mk_arg (f_name f) (f_tag f) (elem_type f) (f_st f) len index (f_key f).

(** A computation on the memory [pre ++ rest] puts [d] at the start of [rest] and returns
    [r], or it fails with [bad], for which there is a reason. *)
Definition writes {A U} (Q : U -> Prop) (reason : Prop) (bad r : A) (pre rest d : list Z)
    (o : outcome (A * U * list Z)) : Prop :=
  (exists u rest', o = Ret (bad, u, pre ++ rest') /\ length rest' = length rest /\ reason) \/
  (exists u rest', o = Ret (r, u, pre ++ d ++ rest') /\ length (d ++ rest') = length rest /\ Q u).

(** What a callback leaves at [args->value] for a value, what it returns, and when it may fail. *)
Definition item_bytes (it : item) : list Z :=
  match it with
  | IInt v => le_bytes (width v) v
  | IBool b => le_bytes 4 (Z.b2z b)
  | IStr b | ISub _ _ b => b
  end.

Definition item_answer (it : item) : Z :=
  match it with
  | IStr b => Z.of_nat (length b) + 1
  | _ => Z.of_nat (length (item_bytes it))
  end.

Definition item_fails (it : item) (len : Z) : Prop :=
  match it with
  | IInt _ | IBool _ => False
  | IStr b => len < Z.of_nat (length b)
  | ISub need _ _ => len < need
  end.

(** Scalars get a variable of at least four or eight bytes, an object the space that is left. *)
Definition may_ask (it : item) (len : Z) : Prop :=
  match it with
  | IInt _ => 8 <= len
  | IBool _ => 4 <= len
  | IStr _ => 0 <= len < 2 ^ 31 - 1
  | ISub need s _ => 0 <= len < 2 ^ 31 - 1 /\ (need <= len \/ s = true)
  end.

(** [ready os u]: in the state [u] the contents [os] are still to come; [between f i l os u]:
    so are the elements [l] of the array [f], from index [i] on. *)
Class EncodeCallback {U} (cb : sproto_arg -> U -> list Z -> outcome (Z * U * list Z)) := {
  ready : offer -> U -> Prop;
  between : field -> Z -> list item -> offer -> U -> Prop;
  ready_none f os u len region : is_array f = false -> ready ((f, None) :: os) u ->
    exists u', cb (field_arg f len 0) u region = Ret (0, u', region) /\ ready os u';
  ready_one f it os u len region : ready ((f, Some (One it)) :: os) u -> content_ok f (One it) ->
    may_ask it len -> Z.of_nat (length region) = len ->
    writes (ready os) (item_fails it len) (-1) (item_answer it) [] region (item_bytes it)
      (cb (field_arg f len 0) u region);
  ready_many f l os u : ready ((f, Some (Many l)) :: os) u -> content_ok f (Many l) -> between f 1 l os u;
  between_next f i it l os u len region : between f i (it :: l) os u -> content_ok f (Many (it :: l)) ->
    may_ask it len -> Z.of_nat (length region) = len ->
    writes (between f (i + 1) l os) (item_fails it len) (-1) (item_answer it) [] region (item_bytes it)
      (cb (field_arg f len i) u region);
  between_last f i os u len region : between f i [] os u -> is_array f = true ->
    exists u', cb (field_arg f len i) u region = Ret (0, u', region) /\ ready os u'
}.

(** ** The contract of the decoder's callback *)

(** How the decoder hands over a value: a variable of 64 bits, or where its bytes are. *)
Definition handed (m : list Z) (it : item) (len : Z) (v : dvalue) : Prop :=
  match it with
  | IInt n => len = 8 /\ v = DInt (u64 n)
  | IBool b => len = 8 /\ v = DInt (Z.b2z b)
  | IStr b | ISub _ _ b => len = Z.of_nat (length b) /\ exists p, v = DPtr p /\ placed m p b
  end.

Definition is_object (it : item) : Prop := match it with IStr _ | ISub _ _ _ => True | _ => False end.

Definition field_of (st : sproto_type) (tag : Z) : option field :=
  List.find (fun f => bool_decide (f_tag f = tag)) (t_f st).

(** The contents of a message whose fields the type knows, in order. *)
Fixpoint known (st : sproto_type) (fs : list (Z * content)) : list (field * content) :=
  match fs with
  | [] => []
  | (t, c) :: fs => (if field_of st t is Some f then [(f, c)] else []) ++ known st fs
  end.

(** [awaits cs u]: in the state [u] the contents [cs] may come; [within f i l cs u]: so may
    the elements [l] of the array [f], from index [i] on. *)
Class DecodeCallback {U} (m : list Z) (cb : sproto_arg -> dvalue -> U -> outcome (Z * U)) := {
  awaits : list (field * content) -> U -> Prop;
  within : field -> Z -> list item -> list (field * content) -> U -> Prop;
  awaits_one f it cs u len v : awaits ((f, One it) :: cs) u -> content_ok f (One it) -> handed m it len v ->
    Z.of_nat (length (item_bytes it)) < 2 ^ 31 ->
    exists r u', cb (field_arg f len 0) v u = Ret (r, u') /\ (is_object it -> r = 0) /\ awaits cs u';
  awaits_many f l cs u : awaits ((f, Many l) :: cs) u -> content_ok f (Many l) -> l <> [] -> within f 1 l cs u;
  within_next f i it l cs u len v : within f i (it :: l) cs u -> content_ok f (Many (it :: l)) -> handed m it len v ->
    Z.of_nat (length (item_bytes it)) < 2 ^ 31 ->
    exists r u', cb (field_arg f len i) v u = Ret (r, u') /\ (is_object it -> r = 0) /\ within f (i + 1) l cs u';
  within_last f i cs u : within f i [] cs u -> awaits cs u
}.

(** The contents of a message are those of its type; of other fields nothing is asked. *)
Definition fits (st : sproto_type) (fs : list (Z * content)) : Prop :=
  Forall (fun p => p.2 <> Many [] /\ (if field_of st p.1 is Some f then content_ok f p.2 else True)) fs.
