(* ===== verification/SprotoEncode.v ===== *)
(** * The sproto encoder writes the message

    With a callback that keeps the contract [EncodeCallback], [sproto_encode] writes the
    message of the contents that the callback offers, or it fails with -1 in a buffer
    that is smaller than [room]. *)
From stdpp Require Import base list gmap numbers strings.
From Stdlib Require Import ZArith Lia.
From S2P Require Import Prelude SprotoCode SprotoWire.

Local Open Scope Z_scope.

(** ** Writing behind a prefix *)

Lemma writes_fail {A U} (Q : U -> Prop) (F : Prop) (bad r : A) pre rest d u :
  F -> writes Q F bad r pre rest d (Ret (bad, u, pre ++ rest)).
Proof. left. by exists u, rest. Qed.

Lemma writes_none {A U} (Q : U -> Prop) (F : Prop) (bad r : A) pre rest u :
  Q u -> writes Q F bad r pre rest [] (Ret (r, u, pre ++ rest)).
Proof. right. by exists u, rest. Qed.

Lemma writes_mono {A U} (Q Q' : U -> Prop) (F F' : Prop) (bad r : A) pre rest d o :
  (forall u, Q u -> Q' u) -> (F -> F') ->
  writes Q F bad r pre rest d o -> writes Q' F' bad r pre rest d o.
Proof.
  intros HQ HF [(u & rest' & -> & Hl & Hr)|(u & rest' & -> & Hl & Hu)]; [left|right]; eauto 6.
Qed.

(** A failure goes on as it is; otherwise the rest of the computation has what was written. *)
Lemma writes_bind {A B U} (Q Q' : U -> Prop) (F F' : Prop) (bad r : A) (bad' r' : B) pre rest d d' o
    (k : A * U * list Z -> outcome (B * U * list Z)) :
  (forall u m, k (bad, u, m) = Ret (bad', u, m)) -> (F -> F') -> writes Q F bad r pre rest d o ->
  (forall u rest', Q u -> length (d ++ rest') = length rest ->
    writes Q' F' bad' r' pre rest d' (k (r, u, pre ++ d ++ rest'))) ->
  writes Q' F' bad' r' pre rest d' (o ≫= k).
Proof.
  intros Hk HF [(u & rest' & -> & Hl & Hr)|(u & rest' & -> & Hl & Hu)] Hn; cbn [mbind outcome_bind].
  - rewrite Hk. left. eauto 6.
  - by apply Hn.
Qed.

(** What is written behind a prefix that grows. *)
Lemma writes_shift {A U} (Q : U -> Prop) F (bad r : A) pre a rest d o :
  writes Q F bad r (pre ++ a) rest d o -> writes Q F bad r pre (a ++ rest) (a ++ d) o.
Proof.
  intros [(u & rest' & -> & Hl & Hr)|(u & rest' & -> & Hl & Hu)]; [left|right].
  - exists u, (a ++ rest'). rewrite <- app_assoc. split; [done|]. split; [len_lia|done].
  - exists u, rest'. rewrite <- !app_assoc. split; [done|]. split; [len_lia|done].
Qed.

Lemma writes_length {A U} (Q : U -> Prop) F (bad r : A) pre rest rest' d o :
  length rest = length rest' -> writes Q F bad r pre rest d o -> writes Q F bad r pre rest' d o.
Proof. unfold writes. by intros ->. Qed.

Lemma read_bytes_end (pre rest : list Z) n : n = Z.of_nat (length rest) ->
  read_bytes (pre ++ rest) (Z.of_nat (length pre)) n = Ret rest.
Proof. intros ->. by apply read_bytes_at. Qed.

Lemma write_over (pre a rest b : list Z) i : i = Z.of_nat (length pre) -> length a = length b ->
  write_bytes (pre ++ a ++ rest) i b = Ret (pre ++ b ++ rest).
Proof.
  intros -> Hl. rewrite write_next by (rewrite !length_app; lia). by rewrite <- Hl, drop_app_length.
Qed.

Lemma write_at_over (pre : list Z) x rest b i : i = Z.of_nat (length pre) ->
  write_at (pre ++ x :: rest) i b = Ret (pre ++ b :: rest).
Proof. intros ->. rewrite write_at_lt by size_lia. by rewrite insert_app_r_alt, Nat.sub_diag. Qed.

(** ** The encoder *)

Section encoder.
Context {U : Type} (cb : sproto_arg -> U -> list Z -> outcome (Z * U * list Z)).
Context `{!EncodeCallback cb}.

Lemma write_end (pre rest b : list Z) : length b = length rest ->
  write_bytes (pre ++ rest) (Z.of_nat (length pre)) b = Ret (pre ++ b).
Proof.
  intros Hl. rewrite <- (app_nil_r rest). rewrite write_over by done. by rewrite app_nil_r.
Qed.

Lemma call_at_writes (Q : U -> Prop) F r args u pre rest d p :
  p = Z.of_nat (length pre) -> a_length args = Z.of_nat (length rest) ->
  writes Q F (-1) r [] rest d (cb args u rest) -> writes Q F (-1) r pre rest d (call_at cb args u (pre ++ rest) p).
Proof.
  intros -> Ha H. unfold call_at. step_with read_bytes_end by done.
  destruct H as [(u' & rest' & He & Hl & Hr)|(u' & rest' & He & Hl & Hu)]; rewrite He;
    cbn [mbind outcome_bind app]; rewrite write_end by done; [left|right]; exists u', rest'; by rewrite ?Hl.
Qed.

(** The length of an object goes into the four bytes before it. *)
Lemma fill_size_over pre four rest b p n : p = Z.of_nat (length pre) -> length four = 4%nat ->
  n = Z.of_nat (length b) ->
  fill_size (pre ++ four ++ b ++ rest) p n = Ret (Z.of_nat (length (sized b)), pre ++ sized b ++ rest).
Proof.
  intros -> Hf ->. unfold fill_size. rewrite write_over by len_lia.
  cbn [mbind outcome_bind]. unfold SIZEOF_LENGTH, sized. rewrite <- app_assoc. do 2 f_equal. len_lia.
Qed.

Lemma split_four (rest : list Z) : (4 <= length rest)%nat ->
  exists four rest', rest = four ++ rest' /\ length four = 4%nat.
Proof. intros. exists (take 4 rest), (drop 4 rest). rewrite take_drop. split; [done|size_lia]. Qed.

(** The size of an object out of the callback's answer. *)
Lemma object_answer it : is_object it -> item_ok it ->
  (if bool_decide (item_type it = SPROTO_TSTRING) then item_answer it - 1 else item_answer it) =
    Z.of_nat (length (item_bytes it)) /\ 0 < item_answer it.
Proof. destruct it; simpl; try done; intros _ ?; rewrite ?bool_decide_true, ?bool_decide_false by done; lia. Qed.

Lemma item_fails_room it len size : is_object it -> item_fails it len -> size - 4 <= len -> size < item_room it.
Proof. destruct it; simpl; try done; lia. Qed.

Lemma may_ask_object it len : is_object it -> 0 <= len < 2 ^ 31 - 1 -> item_room it <= len + 4 \/ item_steady it = true ->
  may_ask it len.
Proof. destruct it; simpl; try done. intros _ ? [?|?]; (split; [done|]); auto; left; lia. Qed.

Lemma encode_object_writes f it os u pre rest size p :
  ready ((f, Some (One it)) :: os) u -> content_ok f (One it) -> is_object it ->
  p = Z.of_nat (length pre) -> size = Z.of_nat (length rest) -> size < 2 ^ 31 ->
  item_room it <= size \/ item_steady it = true ->
  writes (ready os) (size < item_room it) (-1) (Z.of_nat (length (sized (item_bytes it)))) pre rest
    (sized (item_bytes it)) (encode_object cb (field_arg f 0 0) u (pre ++ rest) p size).
Proof.
  intros Hu Hc Hi -> -> Hsz Hs. unfold encode_object, SIZEOF_LENGTH. pose proof Hc as (_ & Ht & Hok).
  case_bool_decide as Hlt.
  { apply writes_fail. destruct it; simpl in *; try done; lia. }
  destruct (split_four rest) as (four & rest' & -> & Hf); [lia|].
  replace (Z.of_nat (length (four ++ rest')) - 4) with (Z.of_nat (length rest')) by len_lia.
  eapply (writes_bind (ready os) _ (item_fails it (Z.of_nat (length rest'))) _ (-1) (item_answer it));
    [done|intros Hx; eapply item_fails_room in Hx; [exact Hx|done|len_lia]| |].
  - apply writes_shift. rewrite app_assoc. apply call_at_writes; [len_lia|simpl; len_lia|].
    apply ready_one; [done|done| |].
    + apply may_ask_object; [done|len_lia|]. destruct Hs; [left; len_lia|by right].
    + simpl. len_lia.
  - intros u' rest2 Hu' Hl. cbn beta iota zeta.
    destruct (object_answer it Hi Hok) as [Ha Hp].
    rewrite (bool_decide_false (item_answer it <= 0)) by lia. cbn [a_type set_length field_arg].
    rewrite Ht, Ha, <- app_assoc. rewrite fill_size_over by done. cbn [mbind outcome_bind].
    right. exists u', rest2. split; [done|]. split; [|done]. unfold sized. len_lia.
Qed.

Lemma call_at_none args u u' pre rest p :
  p = Z.of_nat (length pre) -> a_length args = Z.of_nat (length rest) ->
  cb args u rest = Ret (0, u', rest) -> call_at cb args u (pre ++ rest) p = Ret (0, u', pre ++ rest).
Proof.
  intros -> Ha He. unfold call_at. step_with read_bytes_end by done. step_with He. by rewrite write_end.
Qed.

Lemma encode_object_none f os u pre rest size p :
  ready ((f, None) :: os) u -> is_array f = false ->
  p = Z.of_nat (length pre) -> size = Z.of_nat (length rest) ->
  writes (ready os) (size < 4) (-1) 0 pre rest [] (encode_object cb (field_arg f 0 0) u (pre ++ rest) p size).
Proof.
  intros Hu Ha -> ->. unfold encode_object, SIZEOF_LENGTH.
  case_bool_decide as Hlt; [by apply writes_fail|].
  destruct (split_four rest) as (four & rest' & -> & Hf); [lia|].
  destruct (ready_none f os u (Z.of_nat (length rest')) rest' Ha Hu) as (u' & He & Hu').
  replace (Z.of_nat (length (four ++ rest')) - 4) with (Z.of_nat (length rest')) by len_lia.
  rewrite app_assoc. erewrite call_at_none by (try exact He; simpl; len_lia). cbn [mbind outcome_bind].
  rewrite bool_decide_true by lia. rewrite <- app_assoc. by apply writes_none.
Qed.

(** ** Arrays *)

Lemma object_element w it : is_object it -> element w it = sized (item_bytes it).
Proof. by destruct it. Qed.

Lemma elements_objects it l : Forall is_object (it :: l) -> array_elements (it :: l) = sized (item_bytes it) ++ array_elements l.
Proof.
  intros [Hi Hl]%Forall_cons. unfold array_elements. cbn [fmap list_fmap concat].
  rewrite object_element by done. f_equal. f_equal. apply list_fmap_ext. intros j x Hx.
  apply (Forall_lookup_1 _ _ _ _ Hl) in Hx. by rewrite !object_element.
Qed.

Lemma item_room_pos it : item_ok it -> 0 <= item_room it.
Proof. destruct it; simpl; lia. Qed.

Lemma object_room it : is_object it -> item_ok it -> Z.of_nat (length (sized (item_bytes it))) <= item_room it.
Proof. destruct it; simpl; try done; intros _ Ho; unfold sized; len_lia. Qed.

Lemma sum_of_cons {A} (g : A -> Z) x l : sum_of g (x :: l) = g x + sum_of g l.
Proof. done. Qed.

Lemma sum_of_app {A} (g : A -> Z) l1 l2 : sum_of g (l1 ++ l2) = sum_of g l1 + sum_of g l2.
Proof. induction l1; simpl; lia. Qed.

Lemma room_pos f l : content_ok f (Many l) -> 0 <= sum_of item_room l.
Proof.
  intros [_ Hl]. induction Hl as [|it l [_ Hi] _ IH]; simpl; [lia|]. apply item_room_pos in Hi. lia.
Qed.

Lemma content_ok_cons f it l : content_ok f (Many (it :: l)) ->
  elem_type f = item_type it /\ item_ok it /\ content_ok f (Many l).
Proof. intros [Ha [[Ht Hi] Hl]%Forall_cons]. done. Qed.

(** The objects of an array. *)
Lemma object_loop_writes f l os : forall fuel u pre rest i buffer size,
  between f i l os u -> content_ok f (Many l) -> Forall is_object l ->
  buffer = Z.of_nat (length pre) -> size = Z.of_nat (length rest) -> size < 2 ^ 31 ->
  sum_of item_room l + 4 <= size \/ forallb item_steady l = true -> (length rest < fuel)%nat ->
  writes (ready os) (size < sum_of item_room l + 4) None (Some (buffer + Z.of_nat (length (array_elements l))))
    pre rest (array_elements l) (object_loop cb fuel (field_arg f 0 0) u (pre ++ rest) buffer size i).
Proof.
  induction l as [|it l IH]; intros fuel u pre rest i buffer size Hu Hc Ho -> -> Hsz Hs Hf;
    (destruct fuel as [|fuel]; [lia|]); cbn [object_loop]; unfold SIZEOF_LENGTH.
  - case_bool_decide as Hlt; [apply writes_fail; simpl; lia|].
    destruct (split_four rest) as (four & rest' & -> & H4); [lia|].
    destruct (between_last f i os u (Z.of_nat (length rest')) rest' Hu) as (u' & He & Hu'); [apply Hc|].
    replace (Z.of_nat (length (four ++ rest')) - 4) with (Z.of_nat (length rest')) by len_lia.
    rewrite app_assoc. erewrite call_at_none by (try exact He; simpl; len_lia). cbn [mbind outcome_bind].
    rewrite bool_decide_true by lia. rewrite <- app_assoc, Z.add_0_r. by apply writes_none.
  - destruct (content_ok_cons _ _ _ Hc) as (Ht & Hi & Hc'). pose proof (room_pos _ _ Hc') as Hr0.
    pose proof (item_room_pos _ Hi) as Hr1. apply Forall_cons in Ho as Ho'. destruct Ho' as [Hio Hol].
    pose proof (object_room it Hio Hi) as Hr2. rewrite sum_of_cons in *.
    case_bool_decide as Hlt.
    { apply writes_fail. lia. }
    destruct (split_four rest) as (four & rest' & -> & H4); [lia|].
    replace (Z.of_nat (length (four ++ rest')) - 4) with (Z.of_nat (length rest')) by len_lia.
    eapply (writes_bind (between f (i + 1) l os) _ (item_fails it (Z.of_nat (length rest'))) _ (-1) (item_answer it));
      [done| | |].
    + intros Hx. apply item_fails_room with (size := Z.of_nat (length (four ++ rest'))) in Hx; [|done|len_lia]. lia.
    + apply writes_shift. rewrite app_assoc. apply call_at_writes; [len_lia|simpl; len_lia|].
      apply between_next; [done|done| |done].
      apply may_ask_object; [done|len_lia|]. destruct Hs as [Hs|[Hs1 Hs2]%andb_prop]; [left; len_lia|by right].
    + intros u' rest2 Hu' Hl. cbn beta iota zeta.
      destruct (object_answer it Hio Hi) as [Ha Hp].
      rewrite (bool_decide_false (item_answer it = 0)), (bool_decide_false (item_answer it < 0)) by lia.
      cbn [a_type field_arg]. rewrite Ht, Ha, <- app_assoc. rewrite fill_size_over by done. cbn [mbind outcome_bind].
      rewrite elements_objects by done. 
      apply (writes_length _ _ _ _ _ (sized (item_bytes it) ++ rest2)); [unfold sized; len_lia|].
      apply writes_shift.
      assert (Hb : length (sized (item_bytes it)) = (4 + length (item_bytes it))%nat) by (unfold sized; len_lia).
      rewrite app_assoc. replace (Z.of_nat (length pre) + Z.of_nat (length (sized (item_bytes it) ++ array_elements l)))
        with (Z.of_nat (length pre) + 4 + Z.of_nat (length (item_bytes it)) + Z.of_nat (length (array_elements l))) by len_lia.
      eapply writes_mono; [done| |apply IH]; try done; [len_lia..| |len_lia].
      destruct Hs as [Hs|[Hs1 Hs2]%andb_prop]; [left; len_lia|by right].

Qed.
(** The booleans of an array. *)
Lemma boolean_loop_writes f (bs : list bool) os : forall fuel u pre rest i buffer size,
  between f i (IBool <$> bs) os u -> content_ok f (Many (IBool <$> bs)) ->
  buffer = Z.of_nat (length pre) -> size = Z.of_nat (length rest) -> (length rest < fuel)%nat ->
  writes (ready os) (size < Z.of_nat (length bs)) None (Some (buffer + Z.of_nat (length bs)))
    pre rest (Z.b2z <$> bs) (boolean_loop cb fuel (field_arg f 0 0) u (pre ++ rest) buffer size i).
Proof.
  induction bs as [|b bs IH]; intros fuel u pre rest i buffer size Hu Hc -> -> Hf;
    (destruct fuel as [|fuel]; [lia|]); cbn [boolean_loop fmap list_fmap] in *;
    change (set_index i (set_length 4 (field_arg f 0 0))) with (field_arg f 4 i).
  - destruct (between_last f i os u 4 (replicate 4 0) Hu) as (u' & He & Hu'); [apply Hc|].
    step_with He. rewrite bool_decide_false, bool_decide_true, Z.add_0_r by lia. by apply writes_none.
  - destruct (content_ok_cons _ _ _ Hc) as (Ht & Hi & Hc').
    destruct (between_next f i (IBool b) (IBool <$> bs) os u 4 (replicate 4 0)) as
      [(u' & v & _ & _ & [])|(u' & v & He & Hl & Hu')]; [done|done|simpl; lia|done|].
    step_with He. cbn [item_answer item_bytes] in *. rewrite length_le_bytes.
    destruct v as [|? v]; [|exfalso; len_lia]. rewrite app_nil_l, app_nil_r.
    rewrite (bool_decide_false (Z.of_nat 4 < 0)), (bool_decide_false (Z.of_nat 4 = 0)) by lia.
    case_bool_decide as Hlt; [apply writes_fail; len_lia|].
    destruct rest as [|x rest]; [exfalso; simpl in *; lia|]. rewrite write_at_over by done.
    cbn [mbind outcome_bind].
    replace (if bool_decide (le_value (le_bytes 4 (Z.b2z b)) = 0) then 0 else 1) with (Z.b2z b) by by destruct b.
    apply (writes_shift _ _ _ _ _ [Z.b2z b]). change (Z.b2z b :: rest) with ([Z.b2z b] ++ rest). rewrite app_assoc.
    replace (Z.of_nat (length pre) + Z.of_nat (length (b :: bs))) with
      (Z.of_nat (length pre) + 1 + Z.of_nat (length bs)) by len_lia.
    eapply writes_mono; [done| |apply IH]; try done; len_lia.
Qed.
(** ** Arrays of integers *)

Definition ints (w : nat) (vs : list Z) : list Z := concat (le_bytes w <$> vs).

Lemma ints_app w vs vs' : ints w (vs ++ vs') = ints w vs ++ ints w vs'.
Proof. unfold ints. by rewrite fmap_app, concat_app. Qed.

Lemma ints_one w v : ints w [v] = le_bytes w v.
Proof. unfold ints. cbn. by rewrite app_nil_r. Qed.

Lemma length_ints w vs : length (ints w vs) = (w * length vs)%nat.
Proof.
  induction vs as [|v vs IH]; [simpl; lia|]. change (v :: vs) with ([v] ++ vs).
  rewrite ints_app, ints_one, !length_app, length_le_bytes, IH. simpl. lia.
Qed.
#[local] Hint Rewrite length_ints : sizes.

Lemma le_bytes_add n1 n2 v : le_bytes (n1 + n2) v = le_bytes n1 v ++ le_bytes n2 (v / 256 ^ Z.of_nat n1).
Proof.
  revert v. induction n1 as [|n1 IH]; intros v; [simpl; by rewrite Z.div_1_r|].
  cbn [Nat.add le_bytes app]. rewrite IH, Zdiv_Zdiv by lia. do 3 f_equal. f_equal.
  rewrite Nat2Z.inj_succ, Z.pow_succ_r by lia. done.
Qed.

Definition sign_byte (v : Z) : Z := if bool_decide (v < 0) then 0xff else 0.

(** The eight bytes of a small integer are its four bytes with the sign. *)
Lemma le_bytes_sign v : small v = true -> le_bytes 8 v = le_bytes 4 v ++ replicate 4 (sign_byte v).
Proof.
  intros Hv%bool_decide_eq_true. change 8%nat with (4 + 4)%nat. rewrite le_bytes_add. f_equal.
  change (256 ^ Z.of_nat 4) with (2 ^ 32). unfold sign_byte. case_bool_decide.
  - replace (v / 2 ^ 32) with (-1); [done|]. apply (Z.div_unique_pos _ _ _ (v + 2 ^ 32)); lia.
  - replace (v / 2 ^ 32) with 0; [done|]. symmetry. apply Z.div_small. lia.
Qed.

Lemma le_value_word v : le_value (le_bytes 4 v) = v mod 2 ^ 32.
Proof. apply le_value_le_bytes. Qed.

Lemma land_top u k : 0 <= k -> 0 <= u < 2 ^ (k + 1) -> Z.land u (2 ^ k) <> 0 <-> 2 ^ k <= u.
Proof.
  intros Hk Hu. rewrite Z.pow_add_r in Hu by lia.
  assert (Hl : Z.land u (2 ^ k) = if Z.testbit u k then 2 ^ k else 0).
  { apply Z.bits_inj'. intros i Hi. rewrite Z.land_spec, Z.pow2_bits_eqb by lia.
    destruct (Z.eqb_spec k i) as [<-|Hn].
    - destruct (Z.testbit u k); [by rewrite Z.pow2_bits_eqb, Z.eqb_refl by lia|by rewrite Z.bits_0].
    - rewrite andb_false_r. destruct (Z.testbit u k); [|by rewrite Z.bits_0].
      rewrite Z.pow2_bits_eqb by lia. symmetry. by apply Z.eqb_neq. }
  rewrite Hl. destruct (Z.testbit u k) eqn:Hb.
  - apply Z.testbit_true in Hb; [|lia]. destruct (decide (u < 2 ^ k)); [|lia].
    rewrite Z.div_small in Hb by lia. done.
  - apply Z.testbit_false in Hb; [|lia]. split; [done|]. intros Hge.
    replace (u / 2 ^ k) with 1 in Hb; [done|]. apply (Z.div_unique_pos _ _ _ (u - 2 ^ k)); lia.
Qed.

(** The sign of a small integer is the highest bit of its word, and of its fourth byte. *)
Lemma word_sign v : small v = true -> (Z.land (v mod 2 ^ 32) 0x80000000 <> 0 <-> v < 0).
Proof.
  intros Hv%bool_decide_eq_true. change 0x80000000 with (2 ^ 31). rewrite land_top by dlia.
  destruct (decide (v < 0)).
  - rewrite (Z.mod_eq v) by lia. replace (v / 2 ^ 32) with (-1); [lia|].
    apply (Z.div_unique_pos _ _ _ (v + 2 ^ 32)); lia.
  - rewrite Z.mod_small by lia. lia.
Qed.

Lemma byte_sign v : small v = true ->
  exists a b c d, le_bytes 4 v = [a; b; c; d] /\ (Z.land d 0x80 <> 0 <-> v < 0).
Proof.
  intros Hv. do 4 eexists. split; [reflexivity|]. change 0x80 with (2 ^ 7). rewrite land_top by dlia.
  apply bool_decide_eq_true in Hv. dlia.
Qed.

Lemma sign_bytes P `{!Decision P} v : (P <-> v < 0) -> (if bool_decide P then 0xff else 0) = sign_byte v.
Proof. intros HP. unfold sign_byte. by rewrite (bool_decide_ext _ _ HP). Qed.

(** One step of the rearrangement: element [v] and the space behind it. *)
Lemma rearrange_step {B} (k : list Z -> outcome B) P A r1 r2 R v q : small v = true -> q = Z.of_nat (length (P ++ A)) ->
  length r1 = 4%nat -> length r2 = 4%nat ->
  (m ← write_bytes ((P ++ A) ++ r1 ++ r2 ++ R) q (le_bytes 4 v);
   b ← read_at m (q + 3); m ← uint32_to_uint64 (bool_decide (Z.land b 0x80 <> 0)) m q; k m) =
    k ((P ++ A) ++ le_bytes 8 v ++ R).
Proof.
  intros Hv -> H1 H2. rewrite write_over by len_lia. cbn [mbind outcome_bind].
  destruct (byte_sign v Hv) as (a & b & c & d & He & Hd). rewrite le_bytes_sign, He by done.
  rewrite (read_at_app_r _ _ _ 3) by lia. cbn [app read_at lookup list_lookup]. 
  change (read_at (a :: b :: c :: d :: r2 ++ R) 3) with (Ret d). cbn [mbind outcome_bind].
  unfold uint32_to_uint64. rewrite (sign_bytes _ _ Hd).
  change (a :: b :: c :: d :: r2 ++ R) with ([a; b; c; d] ++ r2 ++ R).
  rewrite (app_assoc (P ++ A)), write_over by len_lia. cbn [mbind outcome_bind].
  by rewrite <- !app_assoc.
Qed.

Lemma take_drop_4 (l : list Z) : (8 <= length l)%nat ->
  exists r1 r2, l = r1 ++ r2 ++ drop 8 l /\ length r1 = 4%nat /\ length r2 = 4%nat.
Proof.
  intros. exists (take 4 l), (take 4 (drop 4 l)). change 8%nat with (4 + 4)%nat.
  rewrite <- drop_drop, !take_drop.
  split; [done|]. size_lia.
Qed.

(** The elements of four bytes, with as much space behind them, get eight. *)
Lemma rearrange_ints vs : forall P G, Forall (fun v => small v = true) vs -> (4 * length vs <= length G)%nat ->
  rearrange (length vs) (P ++ ints 4 vs ++ G) (Z.of_nat (length P) - 1) =
    Ret (P ++ ints 8 vs ++ drop (4 * length vs) G).
Proof.
  induction vs as [|v vs IH] using rev_ind; intros P G Hs Hg; [done|].
  apply Forall_app in Hs as [Hs [Hv _]%Forall_cons].
  rewrite length_app, Nat.add_comm in *. cbn [length Nat.add rearrange] in *.
  rewrite !ints_app, !ints_one.
  set (X := (ints 4 vs ++ le_bytes 4 v) ++ G). set (i := length vs) in *.
  rewrite Z.sub_add. replace (read_bytes (P ++ X) (Z.of_nat (length P) + Z.of_nat i * 4) 4) with (Ret (le_bytes 4 v)).
  2: { symmetry. unfold X. rewrite <- app_assoc, app_assoc.
       replace (Z.of_nat (length P) + Z.of_nat i * 4) with (Z.of_nat (length (P ++ ints 4 vs))) by len_lia.
       apply read_bytes_mid. by rewrite length_le_bytes. }
  cbn [mbind outcome_bind].
  assert (HX : X = (ints 4 vs ++ take (4 * i) (le_bytes 4 v ++ G)) ++ drop (8 * i) X).
  { rewrite <- (take_drop (8 * i) X) at 1. f_equal. unfold X. rewrite <- app_assoc.
    rewrite take_app_ge by len_lia. do 2 f_equal. len_lia. }
  destruct (take_drop_4 (drop (8 * i) X)) as (r1 & r2 & He & H1 & H2); [unfold X; len_lia|].
  rewrite HX, He, (app_assoc P) at 1.
  rewrite rearrange_step by (try done; len_lia). rewrite <- !app_assoc. rewrite drop_drop.
  replace (drop (8 * i + 8) X) with (drop (4 * S i) G).
  2: { unfold X. rewrite drop_app_ge by len_lia. f_equal. len_lia. }
  rewrite IH by (try done; len_lia). rewrite drop_app_length' by len_lia. done.
Qed.

(** The width of the elements [vs] behind others of width [w], and what they may need
    with [k] others. *)
Definition wide_at (w : nat) (vs : list Z) : nat := if decide (w = 4%nat) then (if forallb small vs then 4 else 8) else 8.
Definition ints_room (w k : nat) (vs : list Z) : Z :=
  8 * Z.of_nat (length vs) + (if decide (w = 4%nat) then 4 * Z.of_nat k else 0).

(** No element of eight bytes comes behind elements of four. *)
Definition steady_ints (w k : nat) (vs : list Z) : Prop :=
  w = 8%nat \/ forallb small vs = true \/
  k = 0%nat /\ match vs with v :: vs => small v = true -> forallb small vs = true | [] => True end.

Lemma below_size_nat n : (0 <= n)%nat -> Z.of_nat n < 2 ^ 31 -> below_size_t (Z.of_nat n) 8 = bool_decide (Z.of_nat n < 8).
Proof. intros. unfold below_size_t. by rewrite u64_small by (unfold is_u64; lia). Qed.

(** A small element is written with the width of the others. *)
Lemma write_small (k : list Z -> outcome (option (Z * Z) * U * list Z)) w v pre rest b : small v = true ->
  w = 4%nat \/ w = 8%nat -> b = Z.of_nat (length pre) -> (8 <= length rest)%nat ->
  (m ← write_bytes (pre ++ rest) b (le_bytes 4 (v mod 2 ^ 32));
   m ← (if bool_decide (Z.of_nat w = 8)
        then uint32_to_uint64 (bool_decide (Z.land (v mod 2 ^ 32) 0x80000000 <> 0)) m b else Ret m);
   k m) = k ((pre ++ le_bytes w v) ++ drop w rest).
Proof.
  intros Hv Hw -> Hr. change (2 ^ 32) with (256 ^ Z.of_nat 4) at 1. rewrite le_bytes_mod.
  destruct (take_drop_4 rest Hr) as (r1 & r2 & He & H1 & H2). rewrite He at 1.
  rewrite write_over by len_lia. cbn [mbind outcome_bind]. destruct Hw as [->| ->].
  - rewrite bool_decide_false by lia. cbn [mbind outcome_bind]. replace (drop 4 rest) with (r2 ++ drop 8 rest) by (rewrite He at 2; by rewrite drop_app_length').
    by rewrite <- !app_assoc.
  - rewrite bool_decide_true by lia. unfold uint32_to_uint64. rewrite (sign_bytes _ _ (word_sign _ Hv)).
    rewrite app_assoc, write_over by len_lia. cbn [mbind outcome_bind].
    rewrite le_bytes_sign by done. by rewrite <- !app_assoc.
Qed.

(** What [between] gives for the next integer: the variable holds it. *)
Lemma next_int f i v l os u : between f i (IInt v :: l) os u -> content_ok f (Many (IInt v :: l)) ->
  exists u' r, cb (field_arg f 8 i) u (replicate 8 0) = Ret (Z.of_nat (width v), u', le_bytes (width v) v ++ r) /\
    (width v + length r = 8)%nat /\ between f (i + 1) l os u'.
Proof.
  intros Hu Hc. destruct (between_next f i (IInt v) l os u 8 (replicate 8 0)) as
    [(u' & r & _ & _ & [])|(u' & r & He & Hl & Hu')]; [done|done|simpl; lia|done|].
  exists u', r. cbn [item_answer item_bytes] in *. rewrite length_le_bytes in He. split; [done|]. split; [len_lia|done].
Qed.

(** The loop over the elements [vs] behind the elements [ds] of width [w]. *)
Definition integer_loop_ok (f : field) (os : offer) (vs : list Z) : Prop :=
  forall fuel u pre ds w rest i buffer size header,
  between f i (IInt <$> vs) os u -> content_ok f (Many (IInt <$> vs)) ->
  w = 4%nat /\ Forall (fun v => small v = true) ds \/ w = 8%nat ->
  header = Z.of_nat (length pre) - 1 -> buffer = Z.of_nat (length (pre ++ ints w ds)) ->
  size = Z.of_nat (length rest) -> i = Z.of_nat (length ds) + 1 -> size < 2 ^ 31 ->
  ints_room w (length ds) vs <= size \/ steady_ints w (length ds) vs -> (length rest < fuel)%nat ->
  writes (ready os) (size < ints_room w (length ds) vs) None
    (Some (Z.of_nat (length (pre ++ ints (wide_at w vs) (ds ++ vs))), Z.of_nat (wide_at w vs))) pre
    (ints w ds ++ rest) (ints (wide_at w vs) (ds ++ vs))
    (integer_loop cb fuel (field_arg f 0 0) u (pre ++ ints w ds ++ rest) header buffer size (Z.of_nat w) i).

Ltac room_lia := unfold ints_room, steady_ints in *; cbn [forallb] in *; autorewrite with sizes in *;
  cbn [length] in *; repeat case_decide; lia.

Lemma snoc_cons {A} (l : list A) x l' : l ++ x :: l' = (l ++ [x]) ++ l'.
Proof. by rewrite <- app_assoc. Qed.

(** The rounds behind an element that was written with the width of the others. *)
Lemma loop_behind f os v vs fuel u pre ds w rest r W : integer_loop_ok f os vs ->
  between f (Z.of_nat (length ds) + 1 + 1) (IInt <$> vs) os u -> content_ok f (Many (IInt <$> vs)) ->
  w = 4%nat /\ Forall (fun v => small v = true) (ds ++ [v]) \/ w = 8%nat ->
  (w <= length rest)%nat -> (length rest < S fuel)%nat -> Z.of_nat (length rest) < 2 ^ 31 ->
  let size := Z.of_nat (length rest) - Z.of_nat w in
  ints_room w (S (length ds)) vs <= size \/ steady_ints w (S (length ds)) vs ->
  wide_at w vs = W -> length r = (w * length ds + length rest)%nat ->
  writes (ready os) (size < ints_room w (S (length ds)) vs) None
    (Some (Z.of_nat (length (pre ++ ints W (ds ++ v :: vs))), Z.of_nat W)) pre
    r (ints W (ds ++ v :: vs))
    (integer_loop cb fuel (field_arg f 0 0) u (((pre ++ ints w ds) ++ le_bytes w v) ++ drop w rest)
      (Z.of_nat (length pre) - 1) (Z.of_nat (length (pre ++ ints w ds)) + Z.of_nat w) (i32 size) (Z.of_nat w)
      (Z.of_nat (length ds) + 1 + 1)).
Proof.
  intros IH Hu Hc Hw Hl Hf Hsz size Hs <- Hr. unfold size in *. rewrite i32_small by (unfold is_i32; lia).
  rewrite snoc_cons. replace (((pre ++ ints w ds) ++ le_bytes w v) ++ drop w rest) with
    (pre ++ ints w (ds ++ [v]) ++ drop w rest) by by rewrite ints_app, ints_one, <- !app_assoc.
  assert (Hd : length (ds ++ [v]) = S (length ds)) by len_lia.
  apply (writes_length _ _ _ _ _ (ints w (ds ++ [v]) ++ drop w rest)); [len_lia|].
  eapply writes_mono; [done| |apply IH]; rewrite ?Hd; try done.
  all: destruct Hw as [[? _]|?]; subst w; try len_lia.
Qed.

Lemma le_value_8 v : le_bytes 8 (le_value (le_bytes 8 v)) = le_bytes 8 v.
Proof. rewrite le_value_le_bytes. apply le_bytes_mod. Qed.

(** The rounds behind an element of eight bytes; [rest'] is what is left of the space when
    the elements before it have eight bytes too. *)
Lemma loop_behind_wide f os v vs fuel u pre ds w rest rest' size : integer_loop_ok f os vs ->
  between f (Z.of_nat (length ds) + 1 + 1) (IInt <$> vs) os u -> content_ok f (Many (IInt <$> vs)) ->
  small v = false -> w = 4%nat \/ w = 8%nat -> (length rest < S fuel)%nat -> Z.of_nat (length rest) < 2 ^ 31 ->
  length rest = (length rest' + (8 - w) * length ds)%nat -> size = Z.of_nat (length rest') -> (8 <= length rest')%nat ->
  writes (ready os) (Z.of_nat (length rest) < ints_room w (length ds) (v :: vs)) None
    (Some (Z.of_nat (length (pre ++ ints 8 (ds ++ v :: vs))), Z.of_nat 8)) pre
    (ints w ds ++ rest) (ints 8 (ds ++ v :: vs))
    (m ← write_bytes (pre ++ ints 8 ds ++ rest') (Z.of_nat (length (pre ++ ints 8 ds)))
           (le_bytes 8 (le_value (le_bytes 8 v)));
     integer_loop cb fuel (field_arg f 0 0) u m (Z.of_nat (length pre) - 1)
       (Z.of_nat (length (pre ++ ints 8 ds)) + 8) (i32 (size - 8)) 8 (Z.of_nat (length ds) + 1 + 1)).
Proof.
  intros IH Hu Hc Hv Hw Hf Hsz Hl -> H8. rewrite le_value_8, app_assoc.
  rewrite write_append by (rewrite ?length_le_bytes; done || lia). cbn [mbind outcome_bind].
  rewrite length_le_bytes.
  eapply writes_mono; [done| |apply (loop_behind f os v vs fuel u pre ds 8 rest'); try done].
  - destruct Hw as [->| ->]; room_lia.
  - by right.
  - destruct Hw as [->| ->]; lia.
  - lia.
  - right. by left.
  - destruct Hw as [->| ->]; len_lia.
Qed.

Lemma integer_loop_writes f os vs : integer_loop_ok f os vs.
Proof.
  induction vs as [|v vs IH]; intros fuel u pre ds w rest i buffer size header Hu Hc Hw -> -> -> -> Hsz Hs Hf;
    (destruct fuel as [|fuel]; [lia|]); cbn [integer_loop fmap list_fmap] in *;
    change (set_index ?i (set_length 8 (field_arg f 0 0))) with (field_arg f 8 i).
  { destruct (between_last f (Z.of_nat (length ds) + 1) os u 8 (replicate 8 0) Hu) as (u' & He & Hu'); [apply Hc|].
    step_with He. rewrite bool_decide_false, bool_decide_true by lia.
    assert (wide_at w [] = w) as -> by (unfold wide_at; case_decide; simpl; lia).
    rewrite app_nil_r. right. by exists u', rest. }
  destruct (content_ok_cons _ _ _ Hc) as (Ht & Hi & Hc').
  destruct (next_int _ _ _ _ _ _ Hu Hc) as (u' & r & He & Hr & Hu'). step_with He.
  rewrite (bool_decide_false (Z.of_nat (width v) < 0)), (bool_decide_false (Z.of_nat (width v) = 0))
    by (unfold width; destruct (small v); lia).
  rewrite below_size_nat by lia. case_bool_decide as Hlt; [apply writes_fail; room_lia|].
  destruct (small v) eqn:Hv; unfold width in He, Hr; unfold width; rewrite Hv in *.
  - rewrite bool_decide_true by lia. rewrite take_app_length' by len_lia. rewrite le_value_word.
    rewrite app_assoc. rewrite write_small by (try done; len_lia).
    assert (HW : wide_at w (v :: vs) = wide_at w vs) by (unfold wide_at; cbn [forallb]; by rewrite Hv).
    rewrite HW. eapply writes_mono; [done| |apply (loop_behind f os v vs); try done].
    all: unfold ints_room, steady_ints in *; cbn [forallb] in *; rewrite ?Hv in *; autorewrite with sizes in *; cbn [length] in *.
    + case_decide; lia.
    + destruct Hw as [[-> Hd]| ->]; [left|by right]. split; [done|]. apply Forall_app. by split; [|constructor].
    + lia.
    + destruct Hs as [Hs|[Hs|[Hs|[_ Hs]]]]; [left; case_decide; lia|right; by left|by auto|].
      right; right; left. by apply Hs.
    + done.
  - rewrite (bool_decide_false (Z.of_nat 8 = 4)), (bool_decide_false (Z.of_nat 8 <> 8)) by lia.
    destruct r as [|? r]; [|exfalso; len_lia]. rewrite app_nil_r.
    assert (HW : wide_at w (v :: vs) = 8%nat) by (unfold wide_at; cbn [forallb]; rewrite Hv; by case_decide). rewrite HW.
    destruct Hw as [[-> Hd]| ->].
    + rewrite bool_decide_true by lia. cbn [andb].
      assert (Hsp : (4 * length ds + 8 <= length rest)%nat).
      { unfold ints_room, steady_ints in *. cbn [forallb length] in *. rewrite Hv in *. rewrite decide_True in Hs by done.
        destruct Hs as [Hs|[Hs|[Hs|[Hs _]]]]; [lia|lia|done|lia]. }
      rewrite i32_small by (unfold is_i32; lia).
      replace (Z.of_nat (length rest) - (Z.of_nat (length ds) + 1 - 1) * 4) with
        (Z.of_nat (length (drop (4 * length ds) rest))) by len_lia.
      rewrite below_size_nat, bool_decide_false by len_lia.
      replace (Z.to_nat (Z.of_nat (length ds) + 1 - 1)) with (length ds) by lia.
      rewrite rearrange_ints by (try done; lia). cbn [mbind outcome_bind].
      replace (Z.of_nat (length (pre ++ ints 4 ds)) + (Z.of_nat (length ds) + 1 - 1) * 4) with
        (Z.of_nat (length (pre ++ ints 8 ds))) by len_lia.
      apply loop_behind_wide; try done; len_lia.
    + rewrite bool_decide_false by lia. cbn [andb mbind outcome_bind].
      apply loop_behind_wide; try done; len_lia.
Qed.

(** ** Fields *)

Lemma forallb_ints vs : forallb item_small (IInt <$> vs) = forallb small vs.
Proof. induction vs as [|v vs IH]; [done|]. rewrite fmap_cons. cbn [forallb item_small]. by rewrite IH. Qed.

Lemma array_bytes_ints vs : vs <> [] ->
  array_bytes (IInt <$> vs) = Z.of_nat (wide_at 4 vs) :: ints (wide_at 4 vs) vs.
Proof.
  intros Hv. assert (HW : array_width (IInt <$> vs) = wide_at 4 vs).
  { unfold array_width, wide_at. by rewrite forallb_ints, decide_True. }
  destruct vs as [|v vs]; [done|]. unfold array_bytes. cbn [fmap list_fmap].
  change (IInt v :: (IInt <$> vs)) with (IInt <$> v :: vs). unfold array_elements, ints. rewrite HW.
  by rewrite <- list_fmap_compose.
Qed.

Lemma wide_at_pos w vs : (4 <= wide_at w vs)%nat.
Proof. unfold wide_at. case_decide; [|lia]. destruct (forallb small vs); lia. Qed.

Lemma sum_of_ints vs : sum_of item_room (IInt <$> vs) = 8 * Z.of_nat (length vs).
Proof. induction vs as [|v vs IH]; [done|]. rewrite fmap_cons, sum_of_cons, IH. cbn [length item_room]. lia. Qed.

Lemma steady_ints_content vs : content_steady (Some (Many (IInt <$> vs))) = true -> steady_ints 4 0 vs.
Proof.
  simpl. intros [_ Hs]%andb_prop. right. right. split; [done|]. destruct vs as [|v vs]; [done|].
  simpl in Hs. intros Hv. rewrite Hv, forallb_ints in Hs. done.
Qed.

Lemma encode_integer_array_writes f vs os u pre rest size p :
  between f 1 (IInt <$> vs) os u -> content_ok f (Many (IInt <$> vs)) ->
  p = Z.of_nat (length pre) -> size = Z.of_nat (length rest) -> size < 2 ^ 31 ->
  1 + 8 * Z.of_nat (length vs) <= size \/ steady_ints 4 0 vs ->
  writes (ready os) (size < 1 + 8 * Z.of_nat (length vs)) None
    (Some (p + Z.of_nat (length (array_bytes (IInt <$> vs))))) pre rest (array_bytes (IInt <$> vs))
    (encode_integer_array cb (field_arg f 0 0) u (pre ++ rest) p size).
Proof.
  intros Hu Hc -> -> Hsz Hs. unfold encode_integer_array.
  case_bool_decide as Hlt; [apply writes_fail; lia|].
  destruct rest as [|x rest]; [simpl in Hlt; lia|].
  pose proof (integer_loop_writes f os vs (S (length (pre ++ x :: rest))) u (pre ++ [x]) [] 4%nat rest 1
    (Z.of_nat (length (pre ++ [x]))) (Z.of_nat (length rest)) (Z.of_nat (length pre))) as Hw.
  rewrite <- !app_assoc in Hw. change (ints 4 []) with (@nil Z) in Hw. cbn [app] in Hw.
  replace (Z.of_nat (length pre) + 1) with (Z.of_nat (length (pre ++ [x]))) by len_lia.
  replace (Z.of_nat (length (x :: rest)) - 1) with (Z.of_nat (length rest)) by len_lia.
  eapply (writes_bind (ready os) _ (Z.of_nat (length rest) < ints_room 4 0 vs) _ None); [done|room_lia| |].
  { apply (writes_shift _ _ _ _ pre [x]). apply Hw; try done; [by left|len_lia|len_lia| |len_lia].
    destruct Hs as [Hs|Hs]; [left; room_lia|by right]. }
  intros u' rest' Hu' Hl. cbn beta iota zeta. rewrite bool_decide_decide. case_decide as He.
  - destruct vs as [|v vs]; [|exfalso; clear Hw; pose proof (wide_at_pos 4 (v :: vs)); rewrite !length_app in He; cbn [length] in He; rewrite length_ints in He; cbn [length] in He; nia].
    right. exists u', (x :: rest'). cbn. split; [by rewrite Z.add_0_r|]. by simpl in Hl.
  - destruct vs as [|v vs]; [exfalso; apply He; clear; rewrite !length_app; cbn [length]; rewrite length_ints; simpl; lia|]. rewrite array_bytes_ints by done.
    rewrite <- app_assoc. cbn [app]. rewrite write_at_over by done. cbn [mbind outcome_bind].
    right. exists u', rest'. split; [|by split].
    do 3 f_equal. f_equal. len_lia.
Qed.

(** The data of an array field; one without elements has none. *)
Definition framed (inner : list Z) : list Z := if inner is [] then [] else sized inner.

(** The end of [encode_array]: the length of what was written, if anything was. *)
Lemma array_finish (Q : U -> Prop) (F : Prop) pre four rest inner p o : length four = 4%nat ->
  p = Z.of_nat (length pre) ->
  writes Q F None (Some (p + 4 + Z.of_nat (length inner))) (pre ++ four) rest inner o ->
  writes Q F (-1) (Z.of_nat (length (framed inner))) pre (four ++ rest) (framed inner)
    ('(r, u, m) ← o;
     match r with
     | None => Ret (-1, u, m)
     | Some buffer =>
       if bool_decide (buffer - (p + SIZEOF_LENGTH) = 0) then Ret (0, u, m)
       else '(r, m) ← fill_size m p (buffer - (p + SIZEOF_LENGTH)); Ret (r, u, m)
     end).
Proof.
  intros Hf -> Ho. apply writes_shift in Ho.
  eapply (writes_bind _ _ _ _ _ _ _ _ _ _ _ _ _ _ _ (fun x => x) Ho). Unshelve. 2: done.
  intros u rest' Hu Hl. unfold SIZEOF_LENGTH. cbn beta iota zeta.
  destruct inner as [|x inner]; cbn [framed].
  - rewrite bool_decide_true by (simpl; lia). right. exists u, (four ++ rest').
    rewrite app_nil_r. split; [done|]. split; [len_lia|done].
  - rewrite bool_decide_false by len_lia. rewrite <- app_assoc, fill_size_over by (done || len_lia).
    right. exists u, rest'. split; [done|]. split; [unfold sized; len_lia|done].
Qed.

Ltac types_differ := simpl in *; unfold SPROTO_TINTEGER, SPROTO_TBOOLEAN, SPROTO_TSTRING, SPROTO_TSTRUCT in *; congruence.

Lemma object_items f l : content_ok f (Many l) -> elem_type f <> SPROTO_TINTEGER ->
  elem_type f <> SPROTO_TBOOLEAN -> Forall is_object l.
Proof. intros [_ Hl] H0 H1. eapply Forall_impl; [exact Hl|]. intros [] [Ht _]; try done; types_differ. Qed.

Lemma int_items f l : content_ok f (Many l) -> elem_type f = SPROTO_TINTEGER -> exists vs, l = IInt <$> vs.
Proof.
  intros [_ Hl] H0. induction Hl as [|it l [Ht _] _ [vs ->]]; [by exists []|].
  destruct it as [v| | |]; [by exists (v :: vs)|exfalso; types_differ..].
Qed.

Lemma bool_items f l : content_ok f (Many l) -> elem_type f = SPROTO_TBOOLEAN -> exists bs, l = IBool <$> bs.
Proof.
  intros [_ Hl] H0. induction Hl as [|it l [Ht _] _ [bs ->]]; [by exists []|].
  destruct it as [|b| |]; [|by exists (b :: bs)|..]; exfalso; types_differ.
Qed.

Lemma element_bools w bs : concat (element w <$> (IBool <$> bs)) = Z.b2z <$> bs.
Proof. induction bs as [|b bs IH]; [done|]. rewrite !fmap_cons. cbn [concat element app]. by rewrite IH. Qed.

Lemma array_bytes_bools bs : array_bytes (IBool <$> bs) = Z.b2z <$> bs.
Proof. rewrite <- (element_bools (array_width (IBool <$> bs))). by destruct bs. Qed.

Lemma array_bytes_objects l : Forall is_object l -> array_bytes l = array_elements l.
Proof. by destruct 1 as [|[] ? Hi]. Qed.

Lemma sum_of_bools bs : sum_of item_room (IBool <$> bs) = Z.of_nat (length bs).
Proof. induction bs as [|b bs IH]; [done|]. rewrite fmap_cons, sum_of_cons, IH. cbn [length item_room]. lia. Qed.

Definition array_data (l : list item) : list Z := framed (array_bytes l).

Lemma encode_array_writes f l os u pre rest size p :
  ready ((f, Some (Many l)) :: os) u -> content_ok f (Many l) ->
  p = Z.of_nat (length pre) -> size = Z.of_nat (length rest) -> size < 2 ^ 31 ->
  content_room (Some (Many l)) <= size \/ content_steady (Some (Many l)) = true ->
  writes (ready os) (size < content_room (Some (Many l))) (-1) (Z.of_nat (length (array_data l))) pre rest
    (array_data l) (encode_array cb (field_arg f 0 0) u (pre ++ rest) p size).
Proof.
  intros Hu Hc -> -> Hsz Hs. apply ready_many in Hu; [|done]. pose proof (room_pos _ _ Hc) as Hr.
  unfold encode_array, SIZEOF_LENGTH. cbn [content_room] in *.
  case_bool_decide as Hlt; [apply writes_fail; lia|].
  destruct (split_four rest) as (four & rest' & -> & H4); [lia|].
  replace (Z.of_nat (length (four ++ rest')) - 4) with (Z.of_nat (length rest')) by len_lia.
  apply array_finish; [done|done|]. rewrite app_assoc. cbn [a_type field_arg].
  change (mk_arg _ _ _ _ _ _ _) with (field_arg f 0 0).
  replace (Z.of_nat (length pre) + 4) with (Z.of_nat (length (pre ++ four))) by len_lia.
  case_bool_decide as H0; [|case_bool_decide as H1].
  - destruct (int_items _ _ Hc H0) as [vs ->]. rewrite sum_of_ints in *.
    eapply writes_mono; [done| |apply encode_integer_array_writes]; try done; [len_lia|len_lia|].
    destruct Hs as [Hs|Hs]; [left; len_lia|right; by apply steady_ints_content].
  - destruct (bool_items _ _ Hc H1) as [bs ->]. rewrite sum_of_bools, array_bytes_bools, length_fmap in *.
    eapply writes_mono; [done| |apply boolean_loop_writes]; try done; len_lia.
  - rewrite array_bytes_objects by by eapply object_items.
    eapply writes_mono; [done| |apply object_loop_writes]; try done; [len_lia|by eapply object_items|len_lia| |len_lia].
    destruct Hs as [Hs|[Hs _]%andb_prop]; [left; len_lia|by right].
Qed.

Lemma scalar_type f : field_ok f -> is_array f = false -> f_type f = elem_type f /\ 0 <= elem_type f <= 3.
Proof.
  intros [Hr [Hf|Hf]] Ha; [done|]. exfalso. unfold is_array in Ha. rewrite Hf in Ha.
  assert (elem_type f = 0 \/ elem_type f = 1 \/ elem_type f = 2 \/ elem_type f = 3) as [E|[E|[E|E]]] by lia;
    rewrite E in Ha; done.
Qed.

(** What [encode_field] answers, and what it puts into the data. *)
Definition field_data (oc : option content) : list Z :=
  match oc with
  | None => []
  | Some (Many l) => array_data l
  | Some (One it) => data_of (One it)
  end.

Definition field_answer (oc : option content) : Z * Z :=
  match oc with
  | Some (One it) =>
    if bool_decide (word_of (One it) <> 0) then (word_of (One it), 2) else (0, Z.of_nat (length (field_data oc)))
  | _ => (0, Z.of_nat (length (field_data oc)))
  end.

Lemma is_array_land f : bool_decide (Z.land (f_type f) SPROTO_TARRAY <> 0) = is_array f.
Proof. done. Qed.

(** What [ready] gives for an integer or a boolean: the variable holds it. *)
Lemma ready_scalar f it os u : ready ((f, Some (One it)) :: os) u -> content_ok f (One it) -> ~ is_object it ->
  exists u' r, cb (field_arg f 8 0) u (replicate 8 0) = Ret (Z.of_nat (length (item_bytes it)), u', item_bytes it ++ r) /\
    (length (item_bytes it) + length r = 8)%nat /\ ready os u'.
Proof.
  intros Hu Hc Ho. destruct (ready_one f it os u 8 (replicate 8 0)) as
    [(u' & r & _ & _ & Hf)|(u' & r & He & Hl & Hu')]; [done|done|by destruct it; simpl in *|done|by destruct it|].
  exists u', r. replace (item_answer it) with (Z.of_nat (length (item_bytes it))) in He by by destruct it.
  split; [done|]. split; [len_lia|done].
Qed.

(** The word of a value of four bytes, or its bytes behind their length. *)
Lemma write_sized pre rest b n (H : (4 + length b <= length rest)%nat) : n = Z.of_nat (length b) ->
  (m ← write_bytes (pre ++ rest) (Z.of_nat (length pre) + 4) b; fill_size m (Z.of_nat (length pre)) n) =
    Ret (Z.of_nat (length (sized b)), pre ++ sized b ++ drop (4 + length b) rest).
Proof.
  intros ->. destruct (split_four rest) as (four & rest' & -> & H4); [lia|].
  rewrite app_assoc, write_append by len_lia. cbn [mbind outcome_bind].
  rewrite <- !app_assoc, fill_size_over by done. do 4 f_equal. by rewrite drop_app_add'.
Qed.

(** [encode_integer] and [encode_uint64] for an integer of [b] bytes. *)
Definition encode_sized (b : nat) (v : Z) (m : list Z) (data size : Z) : outcome (Z * list Z) :=
  if below_size_t size (4 + Z.of_nat b) then Ret (-1, m)
  else m ← write_bytes m (data + 4) (le_bytes b v); fill_size m data (Z.of_nat b).

Lemma encode_integer_sized v m p size : encode_integer (v mod 2 ^ 32) m p size = encode_sized 4 v m p size.
Proof. unfold encode_integer. change (2 ^ 32) with (256 ^ Z.of_nat 4). by rewrite le_bytes_mod. Qed.

Lemma encode_uint64_sized v m p size : encode_uint64 (v mod 2 ^ 64) m p size = encode_sized 8 v m p size.
Proof. unfold encode_uint64. change (2 ^ 64) with (256 ^ Z.of_nat 8). by rewrite le_bytes_mod. Qed.

Lemma encode_sized_writes b v (Q : U -> Prop) (F : Prop) u pre rest size :
  Q u -> size = Z.of_nat (length rest) -> size < 2 ^ 31 -> (size < 4 + Z.of_nat b -> F) ->
  writes Q F (0, -1) (0, Z.of_nat (length (sized (le_bytes b v)))) pre rest (sized (le_bytes b v))
    ('(sz, m) ← encode_sized b v (pre ++ rest) (Z.of_nat (length pre)) size; Ret (0, sz, u, m)).
Proof.
  intros Hu -> Hsz HF. unfold encode_sized, below_size_t. rewrite u64_small by (unfold is_u64; lia).
  case_bool_decide as Hlt; [apply writes_fail; by apply HF|].
  rewrite write_sized by len_lia. right. exists u, (drop (4 + length (le_bytes b v)) rest).
  split; [done|]. split; [unfold sized; len_lia|done].
Qed.

Lemma sized_nonempty b : 0 < Z.of_nat (length (sized b)).
Proof. unfold sized. len_lia. Qed.

(** The branch of [encode_field] for integers and booleans. *)
Lemma encode_scalar_writes f it os u pre rest size :
  ready ((f, Some (One it)) :: os) u -> content_ok f (One it) -> ~ is_object it ->
  size = Z.of_nat (length rest) -> size < 2 ^ 31 ->
  writes (ready os) (size < content_room (Some (One it))) (0, -1) (field_answer (Some (One it))) pre rest
    (data_of (One it))
    ('(sz, u, v) ← cb (field_arg f 8 0) u (replicate 8 0);
     if bool_decide (sz < 0) then Ret (0, -1, u, pre ++ rest)
     else if bool_decide (sz = 0) then Ret (0, 0, u, pre ++ rest)
     else if bool_decide (sz = 4) then
       let v := le_value (take 4 v) in
       if bool_decide (v < 0x7fff) then Ret ((v + 1) * 2, 2, u, pre ++ rest)
       else '(sz, m) ← encode_integer v (pre ++ rest) (Z.of_nat (length pre)) size; Ret (0, sz, u, m)
     else if bool_decide (sz = 8) then
       '(sz, m) ← encode_uint64 (le_value v) (pre ++ rest) (Z.of_nat (length pre)) size; Ret (0, sz, u, m)
     else Ret (0, -1, u, pre ++ rest)).
Proof.
  intros Hu Hc Ho Hsz Hlt. destruct (ready_scalar f it os u Hu Hc Ho) as (u' & r & He & Hr & Hu'). step_with He.
  destruct it as [v|b|b|need s b]; try (by destruct Ho); unfold field_answer, field_data, data_of.
  - cbn [item_bytes word_of] in *. rewrite length_le_bytes in *. unfold width in *. destruct (small v) eqn:Hv.
    + rewrite (bool_decide_false (Z.of_nat 4 < 0)), (bool_decide_false (Z.of_nat 4 = 0)), (bool_decide_true (Z.of_nat 4 = 4)) by lia.
      rewrite take_app_length' by len_lia. rewrite le_value_word.
      apply bool_decide_eq_true in Hv. rewrite (bool_decide_ext (v mod 2 ^ 32 < 32767) (0 <= v < 32767)) by (split; intros; dlia).
      destruct (decide (0 <= v < 32767)).
      * rewrite !(bool_decide_true (0 <= v < 32767)), bool_decide_true by lia.
        rewrite Z.mod_small by lia. by apply writes_none.
      * rewrite !(bool_decide_false (0 <= v < 32767)), bool_decide_false by lia. rewrite encode_integer_sized.
        apply encode_sized_writes; try done. cbn [content_room item_room]. lia.
    + rewrite (bool_decide_false (Z.of_nat 8 < 0)), (bool_decide_false (Z.of_nat 8 = 0)),
        (bool_decide_false (Z.of_nat 8 = 4)), (bool_decide_true (Z.of_nat 8 = 8)) by lia.
      destruct r as [|? r]; [|exfalso; len_lia]. rewrite app_nil_r, le_value_le_bytes.
      change (256 ^ Z.of_nat 8) with (2 ^ 64). rewrite encode_uint64_sized.
      apply bool_decide_eq_false in Hv. rewrite (bool_decide_false (0 <= v < 32767)), bool_decide_false by lia.
      by apply encode_sized_writes.
  - cbn [item_bytes word_of] in *. rewrite length_le_bytes in *.
    rewrite (bool_decide_false (Z.of_nat 4 < 0)), (bool_decide_false (Z.of_nat 4 = 0)), (bool_decide_true (Z.of_nat 4 = 4)) by lia.
    rewrite take_app_length' by len_lia. rewrite le_value_le_bytes_small by (destruct b; simpl; lia).
    rewrite !bool_decide_true by (destruct b; simpl; lia). by apply writes_none.
Qed.

Lemma object_data it : is_object it -> data_of (One it) = sized (item_bytes it) /\ word_of (One it) = 0.
Proof. by destruct it. Qed.

Lemma encode_field_writes f oc os u pre rest size p :
  ready ((f, oc) :: os) u -> field_ok f -> offer_ok (f, oc) ->
  p = Z.of_nat (length pre) -> size = Z.of_nat (length rest) -> size < 2 ^ 31 ->
  content_room oc <= size \/ content_steady oc = true ->
  writes (ready os) (size < content_room oc) (0, -1) (field_answer oc) pre rest (field_data oc)
    (encode_field cb f u (pre ++ rest) p size).
Proof.
  intros Hu Hf Ho -> Hsz Hlt Hs. unfold encode_field. rewrite is_array_land.
  change (mk_arg _ _ _ _ _ _ _) with (field_arg f 0 0). cbv zeta.
  change (set_length 8 (field_arg f 0 0)) with (field_arg f 8 0).
  destruct oc as [[it|l]|]; cbn in Ho.
  - destruct (scalar_type f Hf) as [Ht Hr]; [apply Ho|]. rewrite (proj1 Ho), Ht, (proj1 (proj2 Ho)).
    assert (Hd : is_object it \/ ~ is_object it) by (destruct it; simpl; auto). destruct Hd as [Hi|Hi].
    + destruct (object_data it Hi) as [Hd Hw]. unfold field_answer, field_data. rewrite Hd, Hw.
      rewrite (bool_decide_false (item_type it = SPROTO_TINTEGER \/ item_type it = SPROTO_TBOOLEAN)),
        (bool_decide_true (item_type it = SPROTO_TSTRUCT \/ item_type it = SPROTO_TSTRING)), (bool_decide_false (0 <> 0))
        by (destruct it; simpl in *; intuition discriminate).
      eapply writes_bind; [| |apply encode_object_writes; try done; simpl in Hs; destruct Hs; [left; lia|by right]|];
        [done|cbn; lia|].
      intros u' rest' Hu' Hl. right. by exists u', rest'.
    + rewrite bool_decide_true by (destruct it; simpl in *; auto; by destruct Hi).
      by apply encode_scalar_writes.
  - rewrite (proj1 Ho). eapply writes_bind; [| |by apply encode_array_writes|]; [done|done|].
    intros u' rest' Hu' Hl. right. by exists u', rest'.
  - destruct (scalar_type f Hf Ho) as [Ht Hr]. rewrite Ho, Ht. cbn [content_room field_answer field_data].
    case_bool_decide as Hi.
    + destruct (ready_none f os u 8 (replicate 8 0) Ho Hu) as (u' & He & Hu'). step_with He.
      rewrite bool_decide_false, bool_decide_true by lia. by apply writes_none.
    + rewrite bool_decide_true by (types_differ || (unfold SPROTO_TINTEGER, SPROTO_TBOOLEAN, SPROTO_TSTRING, SPROTO_TSTRUCT in *; lia)).
      eapply writes_bind; [| |by apply encode_object_none|]; [done|done|].
      intros u' rest' Hu' Hl. right. by exists u', rest'.
Qed.

(** ** Records *)

Lemma sized_length b : length (sized b) = (4 + length b)%nat.
Proof. unfold sized. len_lia. Qed.

Lemma length_elements_objects l : Forall is_object l -> Forall item_ok l ->
  Z.of_nat (length (array_elements l)) <= sum_of item_room l.
Proof.
  induction 1 as [|it l Hi Hl IH]; intros Hok; [done|]. apply Forall_cons in Hok as [Hit Hok].
  rewrite elements_objects, sum_of_cons by by constructor. pose proof (object_room it Hi Hit). specialize (IH Hok). len_lia.
Qed.

Lemma content_items f l : content_ok f (Many l) -> Forall item_ok l.
Proof. intros [_ Hl]. eapply Forall_impl; [exact Hl|]. by intros it [_ ?]. Qed.

(** What an array takes is in its room, and one with elements takes something. *)
Lemma array_bytes_length f l : content_ok f (Many l) ->
  Z.of_nat (length (array_bytes l)) <= 1 + sum_of item_room l /\ (l <> [] -> array_bytes l <> []).
Proof.
  intros Hc. destruct (decide (elem_type f = SPROTO_TINTEGER)) as [Ht|Hn]; [|destruct (decide (elem_type f = SPROTO_TBOOLEAN)) as [Ht|Hb]].
  - destruct (int_items _ _ Hc Ht) as [vs ->]. rewrite sum_of_ints. destruct vs as [|v vs]; [done|].
    rewrite array_bytes_ints by done. split; [|done]. cbn [length]. rewrite length_ints.
    unfold wide_at. case_decide; [|done]. destruct (forallb _ _); cbn [length]; lia.
  - destruct (bool_items _ _ Hc Ht) as [bs ->]. rewrite sum_of_bools, array_bytes_bools, length_fmap.
    split; [lia|]. by destruct bs.
  - pose proof (object_items _ _ Hc Hn Hb) as Ho. rewrite array_bytes_objects by done.
    split; [pose proof (length_elements_objects l Ho (content_items _ _ Hc)); lia|].
    intros Hl. destruct l as [|it l]; [done|]. rewrite elements_objects by done. done.
Qed.

(** The answer of [encode_field] for a field that is not there, and for one that is. *)
Lemma field_shown f oc : offer_ok (f, oc) ->
  Z.of_nat (length (field_data oc)) <= content_room oc /\
  match shown oc with
  | None => field_answer oc = (0, 0) /\ field_data oc = []
  | Some c => field_data oc = data_of c /\ 0 <= word_of c /\
      (field_answer oc = (word_of c, 2) /\ word_of c <> 0 /\ data_of c = [] \/
       field_answer oc = (0, Z.of_nat (length (data_of c))) /\ word_of c = 0 /\ 0 < Z.of_nat (length (data_of c)))
  end.
Proof.
  intros Ho. destruct oc as [[it|l]|]; [| |done].
  - destruct Ho as (_ & _ & Hi). unfold field_answer, field_data, shown.
    assert (Hd : data_of (One it) = [] /\ word_of (One it) > 0 \/ word_of (One it) = 0 /\
      0 < Z.of_nat (length (data_of (One it))) <= 4 + item_room it).
    { unfold data_of. case_bool_decide as Hw; [left|right].
      - split; [done|]. destruct it as [v|[]| |]; simpl in *; [|lia..].
        destruct (bool_decide (0 <= v < 32767)) eqn:E; [apply bool_decide_eq_true in E|]; lia.
      - split; [done|]. destruct it as [v|[]| |]; [| done..| |]; rewrite sized_length; simpl in *;
          rewrite ?length_le_bytes; unfold width; try destruct (small v); lia. }
    destruct Hd as [[-> Hw]|[Hw Hl]].
    + rewrite bool_decide_true by lia. split; [simpl; pose proof (item_room_pos it Hi); lia|].
      split; [done|]. split; [lia|]. left. split; [done|]. split; [lia|done].
    + rewrite bool_decide_false by lia. split; [simpl; lia|]. split; [done|]. split; [lia|]. right. split; [done|]. lia.
  - destruct (array_bytes_length f l Ho) as [Hl Hn]. pose proof (room_pos _ _ Ho).
    unfold field_answer, field_data, array_data, framed. cbn [content_room].
    destruct l as [|it l]; [done|]. destruct (array_bytes (it :: l)) as [|x bs] eqn:E; [by destruct Hn|].
    rewrite sized_length. split; [lia|]. cbn [shown]. unfold data_of. cbn [word_of].
    rewrite bool_decide_false by lia. rewrite E. split; [done|]. split; [lia|]. right. rewrite sized_length. split; [done|]. lia.
Qed.

(** The next record goes into the space [J] that is left for records. *)
Lemma write_record H W J X v index p : length H = 2%nat -> 2 * index = Z.of_nat (length W) -> (2 <= length J)%nat ->
  p = 0 + SIZEOF_HEADER + SIZEOF_FIELD * index ->
  write_word (H ++ W ++ J ++ X) p v = Ret (H ++ (W ++ le_bytes 2 v) ++ drop 2 J ++ X).
Proof.
  intros Hh Hi Hj ->. unfold write_word, SIZEOF_HEADER, SIZEOF_FIELD. rewrite <- (take_drop 2 J) at 1.
  rewrite <- !app_assoc, app_assoc, write_over by len_lia. by rewrite <- !app_assoc.
Qed.

(** The space for the records is enough when some of the fields are not there: [prev] is
    the tag of the last field, [last] that of the last one with a record. *)
Definition slack (last prev : Z) : Z := if decide (last = prev) then 0 else 1.

(** What the loop over the fields ends with, in memory of header, records, space for
    records, data and space. *)
Definition fields_done (os : offer) (H W J D rest : list Z) (index data last : Z)
    (o : outcome (option (Z * Z) * U * list Z)) : Prop :=
  let rs := records last (present os) in
  let ds := datas (present os) in
  (exists u' m', o = Ret (None, u', m') /\ length m' = length (H ++ W ++ J ++ D ++ rest) /\
     Z.of_nat (length rest) < sum_of (content_room ∘ snd) os) \/
  (exists u' J' rest', o = Ret (Some (index + Z.of_nat (length rs), data + Z.of_nat (length ds)), u',
       H ++ (W ++ words rs) ++ J' ++ (D ++ ds) ++ rest') /\
     length (words rs ++ J') = length J /\ length (ds ++ rest') = length rest).

Lemma slots_pos last fs : 0 <= slots last fs.
Proof. revert last. induction fs as [|f fs IH]; intros last; [done|]. simpl. specialize (IH (f_tag f)). case_bool_decide; lia. Qed.

Lemma sum_of_room_pos os : Forall offer_ok os -> 0 <= sum_of (content_room ∘ snd) os.
Proof.
  induction 1 as [|[f oc] os Hf _ IH]; [done|]. rewrite sum_of_cons. cbn.
  destruct oc as [[it|l]|]; [|pose proof (room_pos _ _ Hf); simpl; lia|simpl; lia].
  destruct Hf as (_ & _ & Hi). pose proof (item_room_pos it Hi). simpl. lia.
Qed.

Lemma words_app l1 l2 : words (l1 ++ l2) = words l1 ++ words l2.
Proof. unfold words. by rewrite fmap_app, concat_app. Qed.

Lemma words_one v : words [v] = le_bytes 2 v.
Proof. done. Qed.

Lemma length_words l : length (words l) = (2 * length l)%nat.
Proof. unfold words. induction l as [|x l IH]; [done|]. rewrite fmap_cons. cbn [concat length]. len_lia. Qed.
#[local] Hint Rewrite length_words : sizes.

Lemma fields_done_skip f oc os H W J D rest rest' index data last o :
  shown oc = None -> 0 <= content_room oc -> length rest' = length rest ->
  fields_done os H W J D rest' index data last o -> fields_done ((f, oc) :: os) H W J D rest index data last o.
Proof.
  intros Hs Hc Hl. unfold fields_done. cbn [present]. rewrite Hs, sum_of_cons. cbn [app snd compose].
  intros [(u' & m' & He & Hm & Hr)|(u' & J' & r' & He & Hj & Hr)]; [left|right].
  - exists u', m'. split; [done|]. split; [len_lia|lia].
  - exists u', J', r'. split; [done|]. split; [done|lia].
Qed.

Definition gap (last t : Z) : list Z := if bool_decide (t = last + 1) then [] else [(t - last - 1) * 2 - 1].

Lemma fields_done_step f oc c os H W J D rest rest' index data last o :
  shown oc = Some c -> length (data_of c ++ rest') = length rest -> Z.of_nat (length (data_of c)) <= content_room oc ->
  let ws := gap last (f_tag f) ++ [word_of c] in
  (length (words ws) <= length J)%nat ->
  fields_done os H (W ++ words ws) (drop (length (words ws)) J) (D ++ data_of c) rest' (index + Z.of_nat (length ws))
    (data + Z.of_nat (length (data_of c))) (f_tag f) o ->
  fields_done ((f, oc) :: os) H W J D rest index data last o.
Proof.
  intros Hs Hd Hc ws Hw. unfold fields_done. cbn [present]. rewrite Hs, sum_of_cons. cbn [app snd compose records].
  fold (gap last (f_tag f)).
  replace (gap last (f_tag f) ++ word_of c :: records (f_tag f) (present os)) with (ws ++ records (f_tag f) (present os))
    by (unfold ws; by rewrite <- app_assoc).
  assert (Hds : datas ((f_tag f, c) :: present os) = data_of c ++ datas (present os)) by done. rewrite Hds.
  intros [(u' & m' & He & Hm & Hr)|(u' & J' & r' & He & Hj & Hr)]; [left|right].
  - exists u', m'. split; [done|]. split; [len_lia|len_lia].
  - exists u', J', r'. rewrite words_app, !app_assoc in *. split; [|len_lia].
    rewrite He, !length_app. f_equal. f_equal. f_equal. f_equal. f_equal; lia.
Qed.

(** The records of a field: the words of [gap], if any, and its own. *)
Lemma write_records {B} (k : list Z -> Z -> outcome B) (bad : outcome B) H W J X last t v index :
  length H = 2%nat -> 2 * index = Z.of_nat (length W) -> -1 <= last < t -> t < 0x7fff ->
  let ws := gap last t ++ [v] in
  (length (words ws) <= length J)%nat ->
  (let tag := t - last - 1 in
   if bool_decide (tag > 0) then
     if bool_decide ((tag - 1) * 2 + 1 > 0xffff) then bad
     else m ← write_word (H ++ W ++ J ++ X) (0 + SIZEOF_HEADER + SIZEOF_FIELD * index) ((tag - 1) * 2 + 1);
          m ← write_word m (0 + SIZEOF_HEADER + SIZEOF_FIELD * (index + 1)) v; k m (index + 2)
   else m ← write_word (H ++ W ++ J ++ X) (0 + SIZEOF_HEADER + SIZEOF_FIELD * index) v; k m (index + 1)) =
  k (H ++ (W ++ words ws) ++ drop (length (words ws)) J ++ X) (index + Z.of_nat (length ws)).
Proof.
  intros HH Hi Hl Ht ws. unfold ws, gap. rewrite length_words. cbv zeta. destruct (decide (t = last + 1)) as [E|E].
  - rewrite (bool_decide_true (t = last + 1)) by done. cbn [app length]. intros Hj.
    rewrite bool_decide_false by lia. by rewrite (write_record _ _ _ _ _ index) by (done || lia).
  - rewrite (bool_decide_false (t = last + 1)) by done. cbn [app length]. intros Hj.
    rewrite bool_decide_true, bool_decide_false by lia. rewrite (write_record _ _ _ _ _ index) by (done || lia). cbn [mbind outcome_bind].
    rewrite (write_record _ _ _ _ _ (index + 1)); [|done|len_lia|len_lia|done]. cbn [mbind outcome_bind]. rewrite drop_drop.
    replace ((t - last - 1 - 1) * 2 + 1) with ((t - last - 1) * 2 - 1) by lia. by rewrite <- !app_assoc.
Qed.

Lemma encode_fields_writes os : forall u H W J D rest data size index prev last,
  ready os u -> Forall offer_ok os -> Forall field_ok os.*1 -> ascending prev (f_tag <$> os.*1) -> -1 <= last <= prev ->
  length H = 2%nat -> 2 * index = Z.of_nat (length W) ->
  2 * (slots prev os.*1 + slack last prev) <= Z.of_nat (length J) ->
  data = Z.of_nat (length (H ++ W ++ J ++ D)) -> size = Z.of_nat (length rest) -> size < 2 ^ 31 ->
  sum_of (content_room ∘ snd) os <= size \/ steady os = true ->
  fields_done os H W J D rest index data last
    (encode_fields cb os.*1 u (H ++ W ++ J ++ D ++ rest) 0 data size index last).
Proof.
  induction os as [|[f oc] os IH]; intros u H W J D rest data size index prev last Hu Ho Hf Ha Hl HH Hi HJ -> -> Hsz Hs.
  { right. exists u, J, rest. cbn. by rewrite !app_nil_r, !Z.add_0_r. }
  apply Forall_cons in Ho as [Hoc Ho]. cbn [fmap list_fmap fst] in *. apply Forall_cons in Hf as [Hfo Hf].
  destruct Ha as [Ht Ha]. cbn [slots] in HJ. cbn [encode_fields].
  pose proof (sum_of_room_pos os Ho) as Htot.
  destruct (field_shown f oc Hoc) as [Hlen Hsh].
  assert (Hs1 : content_room oc <= Z.of_nat (length rest) \/ content_steady oc = true).
  { destruct Hs as [Hs|[Hs _]%andb_prop]; [left; rewrite sum_of_cons in Hs; simpl in Hs; lia|by right]. }
  replace (H ++ W ++ J ++ D ++ rest) with ((H ++ W ++ J ++ D) ++ rest) by by rewrite <- !app_assoc.
  destruct (encode_field_writes f oc os u (H ++ W ++ J ++ D) rest _ _ Hu Hfo Hoc eq_refl eq_refl Hsz Hs1)
    as [(u' & rest' & He & Hr & Hlt)|(u' & rest' & He & Hr & Hu')]; rewrite He; cbn [mbind outcome_bind].
  { left. exists u', ((H ++ W ++ J ++ D) ++ rest'). split; [done|]. rewrite sum_of_cons. split; [len_lia|cbn; lia]. }
  destruct (shown oc) as [c|] eqn:Eoc.
  - destruct Hsh as (Hd & Hw & Ha'). rewrite Hd in *. set (ws := gap last (f_tag f) ++ [word_of c]).
    assert (Hws : (length (words ws) <= length J)%nat /\
      2 * (slots (f_tag f) os.*1) + Z.of_nat (length (words ws)) <= Z.of_nat (length J)).
    { pose proof (slots_pos (f_tag f) os.*1). rewrite length_words. unfold ws, gap, slack in *.
      case_decide; repeat case_bool_decide; cbn [length app] in *; lia. }
    match goal with |- fields_done _ _ _ _ _ _ _ _ _ ?o =>
      assert (o = encode_fields cb os.*1 u' (H ++ (W ++ words ws) ++ drop (length (words ws)) J ++ (D ++ data_of c) ++ rest') 0
        (Z.of_nat (length (H ++ W ++ J ++ D)) + Z.of_nat (length (data_of c))) (Z.of_nat (length rest'))
        (index + Z.of_nat (length ws)) (f_tag f)) as Hstep end.
    { assert (HM : (H ++ W ++ J ++ D) ++ data_of c ++ rest' = H ++ W ++ J ++ (D ++ data_of c) ++ rest')
        by by rewrite <- !app_assoc.
      destruct Ha' as [(-> & Hn & Hz)|(-> & Hz & Hn)]; cbn beta iota zeta.
      - rewrite (bool_decide_false (2 < 0)), (bool_decide_true (2 > 0)), (bool_decide_true (word_of c <> 0)) by lia.
        rewrite HM, Hz in *. rewrite Z.add_0_r. cbn [app] in Hr. rewrite Hr.
        apply (write_records (fun m i => encode_fields cb os.*1 u' m 0 _ _ i (f_tag f))); [done|done|lia|lia|apply Hws].
      - rewrite (bool_decide_false (Z.of_nat _ < 0)), (bool_decide_true (Z.of_nat _ > 0)), (bool_decide_false (0 <> 0)) by lia.
        rewrite HM. replace (Z.of_nat (length rest) - Z.of_nat (length (data_of c))) with (Z.of_nat (length rest')) by len_lia.
        unfold ws in *. rewrite Hz in *.
        apply (write_records (fun m i => encode_fields cb os.*1 u' m 0 _ _ i (f_tag f))); [done|done|lia|lia|apply Hws]. }
    rewrite Hstep. clear Hstep He. eapply fields_done_step; [done|done|lia|apply Hws|].
    apply (IH _ _ _ _ _ _ _ _ _ (f_tag f)); try done; fold ws; [lia|len_lia| |len_lia|len_lia|].
    + unfold slack. rewrite decide_True by done. len_lia.
    + destruct Hs as [Hs|[_ Hs]%andb_prop]; [left; rewrite sum_of_cons in Hs; cbn in Hs; len_lia|by right].
  - destruct Hsh as [-> Hd]. rewrite Hd in *. cbn [app]. rewrite (bool_decide_false (0 < 0)), (bool_decide_false (0 > 0)) by lia.
    eapply fields_done_skip; [done|simpl in *; lia|exact Hr|]. rewrite <- !app_assoc.
    apply (IH _ _ _ _ _ _ _ _ _ (f_tag f)); try done; [lia| |simpl in *; lia|].
    + unfold slack in *. repeat case_decide; case_bool_decide; lia.
    + destruct Hs as [Hs|[_ Hs]%andb_prop]; [left; rewrite sum_of_cons in Hs; simpl in *; lia|by right].
Qed.

(** The message of the records and the data, when the space between them is closed. *)
Lemma close_space {B} (k : list Z -> outcome B) H W J D rest index maxn : length H = 2%nat -> 2 * index = Z.of_nat (length W) ->
  2 * maxn = Z.of_nat (length (W ++ J)) ->
  exists rest',
  (m ← write_word (H ++ W ++ J ++ D ++ rest) 0 index;
   m ← (if bool_decide (index <> maxn) then
          d ← read_bytes m (0 + (SIZEOF_HEADER + maxn * SIZEOF_FIELD)) (Z.of_nat (length D));
          write_bytes m (0 + SIZEOF_HEADER + index * SIZEOF_FIELD) d
        else Ret m);
   k m) = k ((le_bytes 2 index ++ W ++ D) ++ rest') /\ length (W ++ D ++ rest') = length (W ++ J ++ D ++ rest).
Proof.
  intros HH Hi Hm. unfold write_word, SIZEOF_HEADER, SIZEOF_FIELD.
  pose proof (write_over [] H (W ++ J ++ D ++ rest) (le_bytes 2 index) 0 eq_refl) as Hw. cbn [app] in Hw.
  rewrite Hw by (by rewrite length_le_bytes).
  cbn [app mbind outcome_bind]. case_bool_decide as Hx.
  - exists (drop (length D) (J ++ D ++ rest)).
    replace (read_bytes _ _ _) with (Ret D : outcome (list Z)).
    2: { symmetry. rewrite !app_assoc, <- (app_assoc _ D). replace (0 + (2 + maxn * 2)) with (Z.of_nat (length ((le_bytes 2 index ++ W) ++ J))) by len_lia.
         by apply read_bytes_mid. }
    cbn [mbind outcome_bind]. rewrite app_assoc, write_append by len_lia. cbn [mbind outcome_bind].
    rewrite <- !app_assoc. split; [done|len_lia].
  - exists rest. destruct J as [|x J]; [|exfalso; len_lia]. cbn [mbind outcome_bind app].
    rewrite <- !app_assoc. done.
Qed.

Lemma sproto_encode_writes st os u m size :
  ready os u -> os.*1 = t_f st -> type_ok st -> Forall offer_ok os -> size = Z.of_nat (length m) -> size < 2 ^ 31 ->
  room st os <= size \/ steady os = true ->
  writes (fun _ => True) (size < room st os) (-1) (Z.of_nat (length (message (present os)))) [] m
    (message (present os)) (sproto_encode cb st u m 0 size).
Proof.
  intros Hu Hos Hst Ho -> Hsz Hs. unfold sproto_encode. pose proof (sum_of_room_pos os Ho) as Ht.
  assert (Hmax : 0 <= t_maxn st) by (rewrite (ok_maxn _ Hst); apply slots_pos). unfold room, SIZEOF_HEADER, SIZEOF_FIELD in *.
  case_bool_decide as Hlt; [apply (writes_fail _ _ _ _ []); lia|].
  set (H := take 2 m). set (J := take (2 * Z.to_nat (t_maxn st)) (drop 2 m)).
  set (rest := drop (2 * Z.to_nat (t_maxn st)) (drop 2 m)).
  assert (Hm : m = H ++ [] ++ J ++ [] ++ rest) by (unfold H, J, rest; cbn [app]; by rewrite !take_drop).
  assert (HH : length H = 2%nat) by (unfold H; size_lia). assert (HJ : Z.of_nat (length J) = 2 * t_maxn st) by (unfold J; size_lia).
  assert (Hr : Z.of_nat (length rest) = Z.of_nat (length m) - (2 + t_maxn st * 2)) by (unfold rest; size_lia).
  destruct (encode_fields_writes os u H [] J [] rest (0 + (2 + t_maxn st * 2)) (Z.of_nat (length rest)) 0 (-1) (-1))
    as [(u' & m' & He & Hl & Hlt')|(u' & J' & rest' & He & HJ' & Hr')].
  all: rewrite <- ?Hos.
  - done.
  - done.
  - rewrite Hos. exact (ok_types _ Hst).
  - rewrite Hos. exact (ok_tags _ Hst).
  - done.
  - done.
  - done.
  - rewrite Hos, <- (ok_maxn _ Hst). unfold slack. rewrite decide_True by done. lia.
  - cbn [app]. len_lia.
  - done.
  - lia.
  - destruct Hs; [left; lia|by right].
  - rewrite <- Hm in He. rewrite <- Hr, He. cbn [mbind outcome_bind]. left. exists u', m'. split; [done|].
    split; [rewrite Hl; by rewrite <- Hm|lia].
  - rewrite <- Hm in He. rewrite <- Hr, He. cbn [mbind outcome_bind app].
    set (rs := records (-1) (present os)) in *. set (ds := datas (present os)) in *.
    rewrite Z.add_simpl_l, Z.add_0_l. change SIZEOF_HEADER with 2. change SIZEOF_FIELD with 2.
    destruct (close_space (fun m => Ret (2 + Z.of_nat (length rs) * 2 + Z.of_nat (length ds), u', m)) H (words rs) J' ds rest'
      (Z.of_nat (length rs)) (t_maxn st)) as (rest2 & Hc & Hl2); [done|len_lia|len_lia|].
    right. exists u', rest2. split; [|split; [|done]].
    + etrans; [exact Hc|]. cbn [app]. unfold message. fold rs ds. do 3 f_equal. len_lia.
    + unfold message. fold rs ds. rewrite Hm. len_lia.
Qed.
End encoder.
