(* ===== verification/SprotoDecode.v ===== *)
(** * The sproto decoder gives the contents of a message

    With a callback that keeps the contract [DecodeCallback], [sproto_decode] gives it the
    contents of the fields that the type knows, in order, and passes over the others. *)
From stdpp Require Import base list gmap numbers strings.
From Stdlib Require Import ZArith Lia.
From S2P Require Import Prelude SprotoCode SprotoWire SprotoEncode.

Local Open Scope Z_scope.

(** ** Looking up a tag *)

Lemma ascending_le last tags i t : ascending last tags -> tags !! i = Some t -> last < t < 0x7fff.
Proof.
  revert last i. induction tags as [|t' tags IH]; intros last i Ha0 Hi; [done|]. destruct Ha0 as [Ht Ha].
  destruct i as [|i]; [by injection Hi as ->|]. specialize (IH _ _ Ha Hi). lia.
Qed.

Lemma ascending_lt last tags i j t t' : ascending last tags -> tags !! i = Some t -> tags !! j = Some t' ->
  (i < j)%nat -> t < t'.
Proof.
  revert last i j. induction tags as [|x tags IH]; intros last i j Ha0 Hi Hj Hij; [done|]. destruct Ha0 as [Hx Ha].
  destruct j as [|j]; [lia|]. destruct i as [|i].
  - injection Hi as ->. apply (ascending_le t tags j t' Ha) in Hj. lia.
  - eapply IH; [done..|lia].
Qed.

Section tags.
Context {A : Type} (key : A -> Z).

(** The binary search of [findtag] and of [query_proto]. *)
Fixpoint bsearch (fuel : nat) (fs : list A) (tag begin end_ : Z) : outcome (option A) :=
  if bool_decide (begin < end_) then
    match fuel with
    | O => Crash OutOfFuel
    | S fuel =>
      let mid := (begin + end_) / 2 in
      f ← read_at fs mid;
      if bool_decide (key f = tag) then Ret (Some f)
      else if bool_decide (tag > key f) then bsearch fuel fs tag (mid + 1) end_
      else bsearch fuel fs tag begin mid
    end
  else Ret None.

Context (fs : list A) (last : Z) (Hasc : ascending last (key <$> fs)).

Lemma tags_lt i j f g : fs !! i = Some f -> fs !! j = Some g -> (i < j)%nat -> key f < key g.
Proof. intros Hi Hj. eapply ascending_lt; [done|..]; by rewrite list_lookup_fmap, ?Hi, ?Hj. Qed.

Lemma find_at i f tag : fs !! i = Some f -> key f = tag ->
  List.find (fun f => bool_decide (key f = tag)) fs = Some f.
Proof.
  revert i last Hasc. induction fs as [|g l IH]; intros i last' Ha Hi Ht; [done|].
  cbn [List.find]. destruct i as [|i]; [|change ((g :: l) !! S i) with (l !! i) in Hi].
  - injection Hi as ->. by rewrite bool_decide_true.
  - destruct Ha as [_ Ha]. rewrite bool_decide_false; [by eapply IH|].
    apply (ascending_le _ _ i (key f)) in Ha; [lia|]. by rewrite list_lookup_fmap, Hi.
Qed.

Lemma find_none tag : (forall i f, fs !! i = Some f -> key f <> tag) ->
  List.find (fun f => bool_decide (key f = tag)) fs = None.
Proof.
  clear. induction fs as [|g l IH]; intros Hn; [done|]. cbn. rewrite bool_decide_false by apply (Hn 0%nat g eq_refl).
  apply IH. intros i f Hi. by apply (Hn (S i)).
Qed.

(** The tag is not before [begin] and not from [end_] on. *)
Lemma bsearch_find tag : forall fuel begin end_,
  0 <= begin -> end_ <= Z.of_nat (length fs) -> end_ - begin <= Z.of_nat fuel ->
  (forall i f, fs !! i = Some f -> Z.of_nat i < begin -> key f < tag) ->
  (forall i f, fs !! i = Some f -> end_ <= Z.of_nat i -> tag < key f) ->
  bsearch fuel fs tag begin end_ = Ret (List.find (fun f => bool_decide (key f = tag)) fs).
Proof.
  induction fuel as [|fuel IH]; intros b e Hb He Hf Hlo Hhi; cbn [bsearch]; case_bool_decide as Hlt; try lia.
  1, 3: rewrite find_none; [done|]; intros i f Hi; destruct (decide (Z.of_nat i < b));
    [specialize (Hlo i f Hi)|specialize (Hhi i f Hi)]; lia.
  assert (Hm : b <= (b + e) / 2 < e) by dlia. set (mid := (b + e) / 2) in *.
  destruct (fs !! Z.to_nat mid) as [f|] eqn:Ef; [|apply lookup_ge_None in Ef; lia].
  step_with (read_at_Z fs mid f) by (done || lia).
  case_bool_decide as Ht; [by erewrite find_at|]. case_bool_decide as Hg.
  - apply IH; try done; [lia..|]. intros i g Hi Hl.
    destruct (decide (i = Z.to_nat mid)) as [->|]; [simplify_eq; lia|].
    pose proof (tags_lt i (Z.to_nat mid) g f Hi Ef). lia.
  - apply IH; try done; [lia..|]. intros i g Hi Hl.
    destruct (decide (i = Z.to_nat mid)) as [->|]; [simplify_eq; lia|].
    pose proof (tags_lt (Z.to_nat mid) i f g Ef Hi). lia.
Qed.
End tags.

Lemma findtag_find st tag : type_ok st -> findtag st tag = Ret (field_of st tag).
Proof.
  intros Hst. unfold findtag, field_of. rewrite (ok_n _ Hst). case_bool_decide as Hb.
  - pose proof (ok_base _ Hst Hb) as Hc. case_bool_decide as Hr.
    + rewrite find_none; [done|]. intros i f Hi. rewrite (Hc i f Hi). apply lookup_lt_Some in Hi. lia.
    + destruct (t_f st !! Z.to_nat (tag - t_base st)) as [f|] eqn:Ef; [|apply lookup_ge_None in Ef; lia].
      step_with (read_at_Z _ _ f) by (done || lia).
      erewrite find_at; [done|apply (ok_tags _ Hst)|exact Ef|]. rewrite (Hc _ _ Ef). lia.
  - change (findtag_loop ?n ?l ?t ?b ?e) with (bsearch f_tag n l t b e). apply (bsearch_find _ _ (-1)); [apply (ok_tags _ Hst)|lia..| |]; intros i f Hi; [lia|].
    apply lookup_lt_Some in Hi. lia.
Qed.

(** ** Reading placed bytes *)

Lemma todword_placed m p v l : placed m p (le_bytes 4 v ++ l) -> todword m p = Ret (v mod 2 ^ 32).
Proof.
  intros [Hp _]%placed_app. unfold todword. step_with (placed_read _ _ _ 4 Hp) by done.
  by rewrite le_value_le_bytes.
Qed.

Lemma toword_placed m p v l : placed m p (le_bytes 2 v ++ l) -> toword m p = Ret (v mod 2 ^ 16).
Proof.
  intros [Hp _]%placed_app. unfold toword. step_with (placed_read _ _ _ 2 Hp) by done.
  by rewrite le_value_le_bytes.
Qed.

(** The length of [sized b], and where [b] is. *)
Lemma sized_placed m p b l : placed m p (sized b ++ l) -> Z.of_nat (length b) < 2 ^ 32 ->
  todword m p = Ret (Z.of_nat (length b)) /\ placed m (p + SIZEOF_LENGTH) b /\
  placed m (p + SIZEOF_LENGTH + Z.of_nat (length b)) l.
Proof.
  unfold sized. rewrite <- app_assoc. intros Hp Hl. split.
  - apply todword_placed in Hp. by rewrite Z.mod_small in Hp by lia.
  - apply placed_app in Hp as [_ [Hb Hr]%placed_app]. rewrite length_le_bytes in *. done.
Qed.

Lemma expand64_small v : small v = true -> expand64 (v mod 2 ^ 32) = u64 v.
Proof.
  intros Hv. unfold expand64. rewrite (bool_decide_ext _ _ (word_sign v Hv)). apply bool_decide_eq_true in Hv.
  unfold u64. case_bool_decide; dlia.
Qed.

(** An integer of four or eight bytes. *)
Lemma int_placed m p w v : placed m p (le_bytes w v) -> is_i64 v ->
  w = 4%nat /\ small v = true -> (d ← todword m p; Ret (expand64 d)) = Ret (u64 v).
Proof.
  intros Hp Hv [-> Hs]. rewrite <- (app_nil_r (le_bytes 4 v)) in Hp. step_with (todword_placed _ _ _ _ Hp).
  by rewrite expand64_small.
Qed.

Lemma long_words m p v : placed m p (le_bytes 8 v) -> is_i64 v ->
  exists low hi, todword m p = Ret low /\ todword m (p + 4) = Ret hi /\ Z.lor low (Z.shiftl hi 32) = u64 v.
Proof.
  intros Hp Hv. change 8%nat with (4 + 4)%nat in Hp. rewrite le_bytes_add in Hp.
  exists (v mod 2 ^ 32), (v / 2 ^ 32 mod 2 ^ 32). split; [by eapply todword_placed|].
  apply placed_app in Hp as [_ Hp]. rewrite length_le_bytes in Hp.
  rewrite <- (app_nil_r (le_bytes 4 (v / _))) in Hp. split; [by eapply todword_placed in Hp|].
  rewrite lor_shiftl_add by dlia. unfold u64. dlia.
Qed.

Lemma long_placed m p v : placed m p (le_bytes 8 v) -> is_i64 v ->
  (low ← todword m p; hi ← todword m (p + 4); Ret (Z.lor low (Z.shiftl hi 32))) = Ret (u64 v).
Proof. intros Hp Hv. destruct (long_words m p v Hp Hv) as (low & hi & Hl & Hh & He). by rewrite Hl, bind_Ret, Hh, bind_Ret, He. Qed.

(** ** The decoder *)

Section decoder.
Context {U : Type} (m : list Z) (cb : sproto_arg -> dvalue -> U -> outcome (Z * U)) `{!DecodeCallback m cb}.

Lemma scalar_bytes it : ~ is_object it -> Z.of_nat (length (item_bytes it)) < 2 ^ 31.
Proof.
  intros Ho. destruct it as [v|b|b|need s b]; [| |by destruct (Ho I)..]; cbn [item_bytes]; rewrite length_le_bytes;
    [unfold width; destruct (small v)|]; lia.
Qed.

Lemma give_int_one f it cs u v : awaits ((f, One it) :: cs) u -> content_ok f (One it) -> ~ is_object it ->
  handed m it 8 (DInt v) -> exists u', give_int cb (field_arg f 0 0) v u = Ret u' /\ awaits cs u'.
Proof.
  intros Hu Hc Ho Hh. unfold give_int. change (set_length 8 (field_arg f 0 0)) with (field_arg f 8 0).
  destruct (awaits_one f it cs u 8 (DInt v) Hu Hc Hh) as (r & u' & He & _ & Hu').
  { by apply scalar_bytes. }
  exists u'. by step_with He.
Qed.

Lemma give_int_next f i it l cs u v : within f i (it :: l) cs u -> content_ok f (Many (it :: l)) -> ~ is_object it ->
  handed m it 8 (DInt v) -> exists u', give_int cb (field_arg f 0 i) v u = Ret u' /\ within f (i + 1) l cs u'.
Proof.
  intros Hu Hc Ho Hh. unfold give_int. change (set_length 8 (field_arg f 0 i)) with (field_arg f 8 i).
  destruct (within_next f i it l cs u 8 (DInt v) Hu Hc Hh) as (r & u' & He & _ & Hu').
  { by apply scalar_bytes. }
  exists u'. by step_with He.
Qed.

(** The width with which the loop reads an element. *)
Definition read_as (w : nat) (it : item) : Prop :=
  match it with
  | IInt v => is_i64 v /\ (w = 4%nat /\ small v = true \/ w = 8%nat)
  | IBool _ => w = 1%nat
  | _ => False
  end.

Definition item_value (it : item) : Z :=
  match it with IInt v => u64 v | IBool b => Z.b2z b | _ => 0 end.

Lemma read_element w it p i : read_as w it -> placed m (p + i * Z.of_nat w) (element w it) ->
  (if bool_decide (Z.of_nat w = 1) then read_at m (p + i)
   else if bool_decide (Z.of_nat w = 4) then v ← todword m (p + i * 4); Ret (expand64 v)
   else low ← todword m (p + i * 8); hi ← todword m (p + i * 8 + 4); Ret (Z.lor low (Z.shiftl hi 32))) =
  Ret (item_value it).
Proof.
  destruct it as [v|b|b|need s b]; intros Hr Hp; try done.
  - destruct Hr as [Hv [[-> Hs]| ->]]; cbn [element] in Hp.
    + rewrite bool_decide_false, bool_decide_true by lia. by eapply int_placed.
    + rewrite !bool_decide_false by lia. by apply long_placed.
  - cbn in Hr. subst w. rewrite bool_decide_true by lia. change (Z.of_nat 1) with 1 in Hp. rewrite Z.mul_1_r in Hp.
    by apply placed_byte in Hp.
Qed.

Lemma read_as_handed w it : read_as w it -> handed m it 8 (DInt (item_value it)) /\ item_ok it.
Proof. by destruct it as [v|b|b|need s b]; cbn; [intros [? _]|..]. Qed.

Lemma length_element w it : read_as w it -> length (element w it) = w.
Proof. destruct it as [v|b| |]; cbn; [intros; apply length_le_bytes|by intros ->|done..]. Qed.

Lemma read_as_scalar w it : read_as w it -> ~ is_object it.
Proof. destruct it; cbn; tauto. Qed.

Lemma decode_ints_within f w cs l : forall fuel p i u,
  within f (i + 1) l cs u -> content_ok f (Many l) -> Forall (read_as w) l ->
  placed m (p + i * Z.of_nat w) (concat (element w <$> l)) -> (length l < fuel)%nat ->
  exists u', decode_ints cb m fuel (field_arg f 0 0) (Z.of_nat w) p i (i + Z.of_nat (length l)) u = Ret u' /\ awaits cs u'.
Proof.
  induction l as [|it l IH]; intros fuel p i u Hu Hc Hl Hp Hf; (destruct fuel as [|fuel]; [simpl in Hf; lia|]);
    cbn [decode_ints].
  - rewrite bool_decide_false by (simpl; lia). exists u. split; [done|by eapply within_last].
  - apply Forall_cons in Hl as [Hr Hl]. rewrite fmap_cons in Hp. cbn [concat] in Hp.
    apply placed_app in Hp as [Hp Hps]. rewrite length_element in Hps by done.
    rewrite bool_decide_true by (simpl; lia). step_with (read_element w it p i Hr Hp).
    destruct (read_as_handed w it Hr) as [Hh Hi].
    change (set_index (i + 1) (field_arg f 0 0)) with (field_arg f 0 (i + 1)).
    destruct (give_int_next f (i + 1) it l cs u _ Hu Hc (read_as_scalar w it Hr) Hh) as (u1 & He & Hu1). step_with He.
    cbn [length]. replace (i + Z.of_nat (S (length l))) with (i + 1 + Z.of_nat (length l)) by lia.
    destruct (content_ok_cons _ _ _ Hc) as (_ & _ & Hc').
    apply IH; [done|done|done| |simpl in Hf; lia]. by replace (p + (i + 1) * Z.of_nat w) with (p + i * Z.of_nat w + Z.of_nat w) by lia.
Qed.

Lemma decode_array_object_within f cs l : forall fuel p i u,
  within f i l cs u -> content_ok f (Many l) -> Forall is_object l ->
  placed m p (array_elements l) -> Z.of_nat (length (array_elements l)) < 2 ^ 31 -> (length l < fuel)%nat ->
  exists u', decode_array_object cb m fuel (field_arg f 0 0) p (Z.of_nat (length (array_elements l))) i u = Ret (0, u') /\
    awaits cs u'.
Proof.
  induction l as [|it l IH]; intros fuel p i u Hu Hc Ho Hp Hsz Hf; (destruct fuel as [|fuel]; [simpl in Hf; lia|]);
    cbn [decode_array_object].
  - rewrite bool_decide_false by done. exists u. split; [done|by eapply within_last].
  - destruct (content_ok_cons _ _ _ Hc) as (_ & _ & Hc').
    rewrite elements_objects in * by done. apply Forall_cons in Ho as [Hio Ho]. rewrite length_app, sized_length in *.
    set (b := item_bytes it) in *. destruct (sized_placed _ _ _ _ Hp) as (Hd & Hb & Hr); [lia|].
    unfold SIZEOF_LENGTH in *. rewrite bool_decide_true, bool_decide_false by lia. step_with Hd.
    rewrite u32_small by (unfold is_u32; lia). rewrite bool_decide_false by lia. rewrite i32_small by (unfold is_i32; lia).
    change (set_index i (set_length (Z.of_nat (length b)) (field_arg f 0 0))) with (field_arg f (Z.of_nat (length b)) i).
    destruct (within_next f i it l cs u (Z.of_nat (length b)) (DPtr (p + 4)) Hu Hc) as (r & u1 & Hcb & Hr0 & Hu1).
    { subst b. destruct it; try done; (split; [done|by exists (p + 4)]). }
    { fold b. lia. }
    rewrite Hcb, (Hr0 Hio). cbn [mbind outcome_bind]. rewrite bool_decide_false by lia.
    replace (Z.of_nat (4 + length b + length (array_elements l)) - 4 - Z.of_nat (length b)) with
      (Z.of_nat (length (array_elements l))) by lia.
    apply IH; try done; [lia|simpl in Hf; lia].
Qed.

Lemma length_concat_elements w l : Forall (read_as w) l -> length (concat (element w <$> l)) = (w * length l)%nat.
Proof.
  induction 1 as [|it l Hi _ IH]; [simpl; lia|]. rewrite fmap_cons. cbn [concat].
  rewrite length_app, IH, length_element by done. simpl. lia.
Qed.

(** The loop over a whole array. *)
Lemma decode_ints_all f w l p cs u :
  within f 1 l cs u -> content_ok f (Many l) -> Forall (read_as w) l -> placed m p (concat (element w <$> l)) -> (0 < w)%nat ->
  exists u', decode_ints cb m (S (length m)) (field_arg f 0 0) (Z.of_nat w) p 0 (Z.of_nat (length l)) u = Ret u' /\
    awaits cs u'.
Proof.
  intros Hu Hc Hl Hp Hw. rewrite <- (Z.add_0_l (Z.of_nat (length l))). apply decode_ints_within; try done.
  - by replace (p + 0 * Z.of_nat w) with p by lia.
  - apply placed_length in Hp. rewrite length_concat_elements in Hp by done. nia.
Qed.

Lemma length_objects l : Forall is_object l -> (length l <= length (array_elements l))%nat.
Proof.
  induction 1 as [|it l Hi Hl IH]; [done|]. rewrite elements_objects, length_app, sized_length by by constructor.
  simpl. lia.
Qed.

Lemma wide_at_reads f vs : content_ok f (Many (IInt <$> vs)) ->
  (wide_at 4 vs = 4%nat \/ wide_at 4 vs = 8%nat) /\
  Forall (read_as (wide_at 4 vs)) (IInt <$> vs).
Proof.
  intros [_ Hall]. apply Forall_fmap in Hall. unfold wide_at. rewrite decide_True by done.
  destruct (forallb small vs) eqn:Hs; (split; [auto|]); apply Forall_fmap, Forall_forall; intros v Hv;
    rewrite Forall_forall in Hall; destruct (Hall v Hv) as [Ht Hi]; (split; [done|]); [left|by right].
  split; [done|]. rewrite forallb_forall in Hs. by apply Hs, list_elem_of_In.
Qed.

(** An array whose bytes are in memory behind their length. *)
Lemma decode_array_within f l p cs u : within f 1 l cs u -> content_ok f (Many l) -> l <> [] ->
  placed m p (sized (array_bytes l)) -> Z.of_nat (length (array_bytes l)) < 2 ^ 31 -> 0 <= elem_type f <= 3 ->
  exists u', decode_array cb m (field_arg f 0 0) p u = Ret (0, u') /\ awaits cs u'.
Proof.
  intros Hu Hc Hn Hp Hsz Hty. unfold decode_array. rewrite <- (app_nil_r (sized _)) in Hp.
  destruct (sized_placed _ _ _ _ Hp) as (Hd & Hb & _); [lia|]. step_with Hd.
  cbn [a_type field_arg]. change (mk_arg _ _ _ _ _ _ _) with (field_arg f 0 0).
  pose proof Hc as [Ha Hall].
  case_bool_decide as H0; [|case_bool_decide as H1].
  - destruct (int_items f l Hc H0) as [vs ->]. rewrite array_bytes_ints in * by (by intros ->).
    cbn [length] in *. rewrite length_ints in *. rewrite bool_decide_false by lia.
    step_with (placed_byte _ _ _ _ Hb). destruct (wide_at_reads f vs Hc) as [HW HF].
    set (W := wide_at 4 vs) in *. rewrite bool_decide_true by lia.
    replace (Z.of_nat (S (W * length vs)) - 1) with (Z.of_nat (length vs) * Z.of_nat W) by lia.
    rewrite Z.mod_mul, Z.div_mul by lia. rewrite bool_decide_false by lia.
    apply (placed_app _ _ [_]) in Hb as [_ Hb].
    replace (Z.of_nat (length vs)) with (Z.of_nat (length (IInt <$> vs))) by by rewrite length_fmap.
    destruct (decode_ints_all f W (IInt <$> vs) (p + SIZEOF_LENGTH + 1) cs u Hu Hc HF) as (u' & He & Hu'); [|lia|].
    + unfold ints in Hb. by rewrite <- list_fmap_compose.
    + exists u'. by step_with He.
  - destruct (bool_items f l Hc H1) as [bs ->].
    rewrite array_bytes_bools, length_fmap in *. rewrite <- (element_bools 1) in Hb.
    replace (Z.of_nat (length bs)) with (Z.of_nat (length (IBool <$> bs))) by by rewrite length_fmap.
    destruct (decode_ints_all f 1 (IBool <$> bs) (p + SIZEOF_LENGTH) cs u Hu Hc) as (u' & He & Hu'); [|done|lia|].
    + by apply Forall_fmap, Forall_true.
    + change (Z.of_nat 1) with 1 in He. exists u'. by step_with He.
  - pose proof (object_items f l Hc H0 H1) as Ho. rewrite bool_decide_true by
      (unfold SPROTO_TINTEGER, SPROTO_TBOOLEAN, SPROTO_TSTRING, SPROTO_TSTRUCT in *; lia).
    rewrite array_bytes_objects in * by done. rewrite i32_small by (unfold is_i32; lia).
    apply decode_array_object_within; try done. pose proof (length_objects l Ho). apply placed_length in Hb. lia.
Qed.

(** ** Fields *)

Lemma data_sized c : word_of c = 0 -> exists b, data_of c = sized b.
Proof.
  intros Hw. unfold data_of. rewrite bool_decide_false by lia.
  destruct c as [[v|[]|b|need s b]|l]; [by eexists|done|done|by eexists..].
Qed.

Lemma data_inline c : word_of c <> 0 -> data_of c = [] /\ exists it, c = One it /\ ~ is_object it /\
  word_of c = (item_value it + 1) * 2 /\ 0 <= item_value it < 0x7fff.
Proof.
  intros Hw. unfold data_of. rewrite bool_decide_true by done. split; [done|].
  destruct c as [[v|b|b|need s b]|l]; cbn in Hw; try done; eexists; (split; [done|]); (split; [by intros []|]); cbn.
  - case_bool_decide; [|done]. rewrite u64_small by (unfold is_u64; lia). lia.
  - destruct b; cbn; lia.
Qed.

Lemma decode_object_one f it p cs u : awaits ((f, One it) :: cs) u -> content_ok f (One it) ->
  is_object it -> placed m p (sized (item_bytes it)) -> Z.of_nat (length (sized (item_bytes it))) < 2 ^ 31 ->
  exists u',
  (if bool_decide (item_type it = SPROTO_TINTEGER) then Ret (-1, u)
   else if bool_decide (item_type it = SPROTO_TSTRING \/ item_type it = SPROTO_TSTRUCT) then
     sz ← todword m p;
     '(r, u) ← cb (set_length (i32 sz) (field_arg f 0 0)) (DPtr (p + SIZEOF_LENGTH)) u;
     Ret (if bool_decide (r <> 0) then -1 else 0, u)
   else Ret (-1, u)) = Ret (0, u') /\ awaits cs u'.
Proof.
  intros Hu Hc Ho Hp Hsz. rewrite sized_length in Hsz. rewrite <- (app_nil_r (sized _)) in Hp.
  destruct (sized_placed _ _ _ _ Hp) as (Hd & Hb & _); [lia|].
  rewrite bool_decide_false, bool_decide_true by (destruct it; try done; auto). step_with Hd.
  rewrite i32_small by (unfold is_i32; lia). set (b := item_bytes it) in *.
  destruct (awaits_one f it cs u (Z.of_nat (length b)) (DPtr (p + SIZEOF_LENGTH)) Hu Hc) as (r & u' & Hcb & Hr & Hu').
  { subst b. destruct it; try done; (split; [done|by exists (p + SIZEOF_LENGTH)]). }
  { fold b. lia. }
  change (set_length (Z.of_nat (length b)) (field_arg f 0 0)) with (field_arg f (Z.of_nat (length b)) 0).
  rewrite Hcb, (Hr Ho). by exists u'.
Qed.

Lemma decode_data_awaits f c p cs u : awaits ((f, c) :: cs) u -> content_ok f c -> field_ok f -> c <> Many [] ->
  word_of c = 0 -> placed m p (data_of c) -> Z.of_nat (length (data_of c)) < 2 ^ 31 ->
  exists u', decode_data cb m f (field_arg f 0 0) p u = Ret (0, u') /\ awaits cs u'.
Proof.
  intros Hu Hc Hf Hn Hw Hp Hsz. unfold decode_data. rewrite is_array_land.
  unfold data_of in Hp, Hsz. rewrite bool_decide_false in Hp, Hsz by lia.
  destruct c as [it|l].
  - pose proof Hc as (Ha & He & Hi). destruct (scalar_type f Hf Ha) as [Hty Hr]. rewrite Ha, Hty, He.
    destruct it as [v|[]|b|need s b]; [| done..| |].
    + rewrite bool_decide_true by done. rewrite <- (app_nil_r (sized _)) in Hp.
      destruct (sized_placed _ _ _ _ Hp) as (Hd & Hb & _); [rewrite sized_length in Hsz; lia|]. step_with Hd.
      destruct (give_int_one f (IInt v) cs u (u64 v) Hu Hc) as (u' & Hg & Hu'); [by intros []|done|]. exists u'. split; [|done].
      rewrite length_le_bytes. unfold width in *. destruct (small v) eqn:Hs.
      * rewrite bool_decide_true by lia. rewrite <- (app_nil_r (le_bytes 4 v)) in Hb. step_with (todword_placed _ _ _ _ Hb).
        rewrite expand64_small by done. by step_with Hg.
      * rewrite (bool_decide_false (Z.of_nat 8 = 4)), (bool_decide_false (Z.of_nat 8 <> 8)) by lia.
        destruct (long_words _ _ _ Hb Hi) as (low & hi & Hl & Hh & Hv). step_with Hl. step_with Hh. rewrite Hv.
        by step_with Hg.
    + by apply (decode_object_one f (IStr b)).
    + by apply (decode_object_one f (ISub need s b)).
  - rewrite (proj1 Hc). rewrite sized_length in Hsz. assert (Hl : l <> []) by (intros ->; by destruct Hn).
    destruct (decode_array_within f l p cs u) as (u' & He & Hu'); [by apply awaits_many|done..|lia|apply Hf|].
    exists u'. by step_with He.
Qed.

Lemma land_1 z : Z.land z 1 = z mod 2.
Proof. exact (Z.land_ones z 1 ltac:(lia)). Qed.

(** A record that is a gap. *)
Lemma decode_gap n st stream data size last t u l : last + 1 < t < 0x7fff -> -1 <= last ->
  placed m stream (le_bytes 2 ((t - last - 1) * 2 - 1) ++ l) ->
  decode_fields cb m (S n) st stream data size last u = decode_fields cb m n st (stream + SIZEOF_FIELD) data size (t - 1) u.
Proof.
  intros Ht Hl Hp. cbn [decode_fields]. step_with (toword_placed _ _ _ _ Hp).
  rewrite Z.mod_small by lia. rewrite land_1, bool_decide_true by dlia.
  f_equal. replace (((t - last - 1) * 2 - 1) / 2) with (t - last - 2); [lia|]. dlia.
Qed.

Lemma find_in st t f : field_of st t = Some f -> f ∈ t_f st /\ f_tag f = t.
Proof.
  intros Hf. apply List.find_some in Hf as [Hi Ht]. apply bool_decide_eq_true in Ht.
  split; [by apply list_elem_of_In|done].
Qed.

(** The record of a field. *)
Lemma decode_record n st stream data size t c fs u l : awaits (known st ((t, c) :: fs)) u -> type_ok st ->
  c <> Many [] -> (if field_of st t is Some f then content_ok f c else True) ->
  placed m stream (le_bytes 2 (word_of c) ++ l) -> placed m data (data_of c) ->
  Z.of_nat (length (data_of c)) <= size -> size < 2 ^ 31 ->
  exists u', decode_fields cb m (S n) st stream data size (t - 1) u =
    decode_fields cb m n st (stream + SIZEOF_FIELD) (data + Z.of_nat (length (data_of c)))
      (size - Z.of_nat (length (data_of c))) t u' /\ awaits (known st fs) u'.
Proof.
  intros Hu Hst Hn Hc Hp Hd Hl Hsz. cbn [decode_fields]. step_with (toword_placed _ _ _ _ Hp).
  rewrite Z.sub_add. rewrite (findtag_find _ _ Hst). cbn [known] in Hu. pose proof (ok_types _ Hst) as Hok.
  rewrite Forall_forall in Hok. destruct (decide (word_of c = 0)) as [Hw|Hw].
  - destruct (data_sized c Hw) as [b Hb]. rewrite Hb, sized_length in *. rewrite Hw. rewrite Z.mod_0_l by done.
    change (0 / 2 - 1) with (-1). rewrite (bool_decide_false (Z.land 0 1 <> 0)) by (intros H0; by apply H0).
    rewrite !(bool_decide_true (-1 < 0)) by lia. unfold SIZEOF_LENGTH. rewrite (bool_decide_false (size < 4)) by lia.
    rewrite <- (app_nil_r (sized b)) in Hd. destruct (sized_placed _ _ _ _ Hd) as (Hz & _ & _); [lia|]. rewrite app_nil_r in Hd.
    step_with Hz. rewrite !u32_small by (unfold is_u32; lia). rewrite bool_decide_false by lia.
    rewrite i32_small by (unfold is_i32; lia). cbn [mbind outcome_bind].
    replace (Z.of_nat (length b) + 4) with (Z.of_nat (4 + length b)) by lia.
    destruct (field_of st t) as [f|] eqn:Ef; [|by exists u].
    destruct (find_in _ _ _ Ef) as [Hin _]. change (mk_arg _ _ _ _ _ _ _) with (field_arg f 0 0).
    destruct (decode_data_awaits f c data (known st fs) u Hu Hc (Hok f Hin) Hn Hw) as (u' & He & Hu');
      [by rewrite Hb|rewrite Hb, sized_length; lia|]. exists u'. step_with He.
    by rewrite bool_decide_false by lia.
  - destruct (data_inline c Hw) as (Hb & it & -> & Ho & Hv & Hr). rewrite Hb, Hv. cbn [length].
    rewrite Z.mod_small by lia. rewrite land_1. rewrite (bool_decide_false ((_ * 2) mod 2 <> 0)) by dlia.
    rewrite Z.div_mul by lia. rewrite Z.add_simpl_r. rewrite !(bool_decide_false (item_value it < 0)) by lia.
    cbn [mbind outcome_bind]. rewrite Z.add_0_r, Z.sub_0_r.
    destruct (field_of st t) as [f|] eqn:Ef; [|by exists u].
    destruct (find_in _ _ _ Ef) as [Hin _]. change (mk_arg _ _ _ _ _ _ _) with (field_arg f 0 0).
    pose proof Hc as (Ha & He & Hi). destruct (scalar_type f (Hok f Hin) Ha) as [Hty _]. rewrite Hty, He.
    rewrite (bool_decide_false (item_type it <> SPROTO_TINTEGER /\ item_type it <> SPROTO_TBOOLEAN))
      by (destruct it; try done; try (by destruct Ho); intuition).
    destruct (give_int_one f it (known st fs) u (item_value it) Hu Hc Ho) as (u' & Hg & Hu');
      [by destruct it; try (by destruct Ho)|]. exists u'. step_with Hg.
    cbn [mbind outcome_bind]. by rewrite bool_decide_false by lia.
Qed.

Lemma records_length last fs : ascending last fs.*1 -> -1 <= last < 0x7fff ->
  last + Z.of_nat (length (records last fs)) <= 0x7ffe.
Proof.
  revert last. induction fs as [|[t c] fs IH]; intros last Ha Hl; [simpl; lia|]. destruct Ha as [Ht Ha].
  cbn [records]. fold (gap last t). specialize (IH t Ha). rewrite length_app. cbn [length fst] in *.
  unfold gap. case_bool_decide; cbn [length]; lia.
Qed.

Lemma decode_fields_awaits st fs : forall stream data size last u,
  awaits (known st fs) u -> type_ok st -> fits st fs -> ascending last fs.*1 -> -1 <= last ->
  placed m stream (words (records last fs)) -> placed m data (datas fs) ->
  Z.of_nat (length (datas fs)) <= size -> size < 2 ^ 31 ->
  exists u', decode_fields cb m (length (records last fs)) st stream data size last u =
    Ret (Some (size - Z.of_nat (length (datas fs))), u') /\ awaits [] u'.
Proof.
  induction fs as [|[t c] fs IH]; intros stream data size last u Hu Hst Hf Ha Hl Hs Hd Hsz Hlt.
  { exists u. cbn. by rewrite Z.sub_0_r. }
  apply Forall_cons in Hf as [[Hn Hc] Hf]. destruct Ha as [Hta Ha].
  cbn [fst snd] in *. change (datas ((t, c) :: fs)) with (data_of c ++ datas fs) in *.
  apply placed_app in Hd as [Hd Hds]. rewrite length_app in Hsz.
  assert (Hown : forall stream, placed m stream (words (word_of c :: records t fs)) ->
    exists u', decode_fields cb m (S (length (records t fs))) st stream data size (t - 1) u =
      Ret (Some (size - Z.of_nat (length (data_of c ++ datas fs))), u') /\ awaits [] u').
  { clear stream Hs. intros stream Hs. change (words (word_of c :: records t fs)) with
      (le_bytes 2 (word_of c) ++ words (records t fs)) in Hs.
    destruct (decode_record (length (records t fs)) st stream data size t c fs u _ Hu Hst Hn Hc Hs Hd) as (u1 & -> & Hu1); [lia..|].
    apply placed_app in Hs as [_ Hs]. rewrite length_le_bytes in Hs.
    destruct (IH (stream + SIZEOF_FIELD) (data + Z.of_nat (length (data_of c))) (size - Z.of_nat (length (data_of c))) t u1 Hu1 Hst Hf Ha) as (u' & -> & Hu');
      [lia|done|done|lia..|]. exists u'. split; [|done]. do 3 f_equal. len_lia. }
  cbn [records] in *. fold (gap last t) in *. unfold gap in *. case_bool_decide as Hg; cbn [app length] in *.
  - subst t. specialize (Hown stream Hs). by rewrite Z.add_simpl_r in Hown.
  - change (words (?a :: ?l)) with (le_bytes 2 a ++ words l) in Hs at 1.
    rewrite (decode_gap _ st stream data size last t u _) by (done || lia). apply Hown.
    by apply placed_app in Hs as [_ Hs].
Qed.

Lemma sproto_decode_awaits st fs p size u : awaits (known st fs) u -> type_ok st -> fits st fs ->
  ascending (-1) fs.*1 -> placed m p (message fs) -> Z.of_nat (length (message fs)) <= size -> size < 2 ^ 31 ->
  exists u', sproto_decode cb m st p size u = Ret (Z.of_nat (length (message fs)), u') /\ awaits [] u'.
Proof.
  intros Hu Hst Hf Ha Hp Hsz Hlt. unfold sproto_decode, message in *.
  set (rs := records (-1) fs) in *. autorewrite with sizes in Hsz. rewrite length_words in Hsz.
  pose proof (records_length (-1) fs Ha ltac:(lia)) as Hr. fold rs in Hr.
  unfold SIZEOF_HEADER, SIZEOF_FIELD. rewrite bool_decide_false by lia. step_with (toword_placed _ _ _ _ Hp).
  rewrite Z.mod_small by lia. rewrite bool_decide_false by lia. rewrite Nat2Z.id.
  apply placed_app in Hp as [_ [Hw Hd]%placed_app]. rewrite length_le_bytes, length_words in *. change (Z.of_nat 2) with 2 in *.
  replace (p + 2 + Z.of_nat (2 * length rs)) with (p + 2 + Z.of_nat (length rs) * 2) in Hd by lia.
  destruct (decode_fields_awaits st fs (p + 2) (p + 2 + Z.of_nat (length rs) * 2) (size - 2 - Z.of_nat (length rs) * 2)
    (-1) u Hu Hst Hf Ha) as (u' & He & Hu'); [lia|done|done|lia..|]. fold rs in He. step_with He.
  cbn beta iota zeta. exists u'. split; [|done]. do 2 f_equal. autorewrite with sizes. rewrite length_words. lia.
Qed.
End decoder.
