(* ===== verification/SprotoLua.v ===== *)
(** * Sproto messages of Lua tables (src/lualib-src/sproto/lsproto.c: encode, lencode,
    decode, ldecode)

    The callbacks that the Lua library gives to the encoder and to the decoder.  Tables
    are shared objects, so they live in a heap; a table is the list of its entries in the
    order of [lua_next], which is any order for the tables of a program.  Metatables are
    not there, and a float is no key.  A slot of the Lua stack that the code names by an
    index is a field of the record, [None] for the index 0. *)
From stdpp Require Import base list gmap numbers strings.
From Stdlib Require Import ZArith Lia.
From S2P Require Import Prelude SprotoPack SprotoCode.

Local Open Scope Z_scope.

Definition ENCODE_DEEPLEVEL : nat := 64.

(** ** Lua values and tables *)

Inductive lval :=
| LNil
| LBool (b : bool)
| LInt (z : Z)
| LNum (bits : Z)
| LStr (s : list Z)
| LTable (t : nat)
| LOther (k : Z).

#[export] Instance lval_eq_dec : EqDecision lval.
Proof. solve_decision. Defined.

Abbreviation table := (list (lval * lval)).
Abbreviation heap := (gmap nat table).

Fixpoint tget (tb : table) (k : lval) : lval :=
  match tb with
  | [] => LNil
  | (k', v) :: tb => if decide (k' = k) then v else tget tb k
  end.

(** An entry keeps its place; a new one goes to the end. *)
Fixpoint tset (tb : table) (k v : lval) : table :=
  match tb with
  | [] => [(k, v)]
  | (k', v') :: tb => if decide (k' = k) then (k, v) :: tb else (k', v') :: tset tb k v
  end.

(** The entry behind the key [k], the first one for nil; [None] for a key that is not there. *)
Fixpoint tnext (tb : table) (k : lval) : option (option (lval * lval)) :=
  if decide (k = LNil) then Some (head tb)
  else match tb with
       | [] => None
       | (k', v) :: tb => if decide (k' = k) then Some (head tb) else tnext tb k
       end.

Definition table_at (h : heap) (t : nat) : outcome table :=
  match h !! t with Some tb => Ret tb | None => Crash UseAfterFree end.

Definition lua_getfield (h : heap) (t : nat) (name : list Z) : outcome lval :=
  tb ← table_at h t; Ret (tget tb (LStr name)).

Definition lua_rawset (h : heap) (t : nat) (k v : lval) : outcome heap :=
  tb ← table_at h t; Ret (<[t := tset tb k v]> h).

Definition lua_newtable (h : heap) : nat * heap := let t := fresh (dom h) in (t, <[t := []]> h).

(** A stack index that is 0 names no slot. *)
Definition slot {A} (o : option A) : outcome A :=
  match o with Some x => Ret x | None => Crash OutOfBounds end.

(** ** Encoding *)

(** [struct encode_ud], without [deep], which is the fuel of [encode]. *)
Record encode_ud := mk_encode {
  e_tbl : nat;
  e_array_tag : option Z;
  e_array : option nat;
  e_iter : lval
}.

Section LUA_ENCODE.
Context (sch : list sproto_type) (h : heap).
(** How Lua writes a number as a string. *)
Context (number_text : lval -> list Z).

(** The array of the field is looked up once; without it the answer is [false]. *)
Definition open_array (args : sproto_arg) (self : encode_ud) : outcome (bool * encode_ud) :=
  let tag := Some (n_at (a_tagname args)) in
  if decide (e_array_tag self = tag) then Ret (true, self)
  else
    v ← lua_getfield h (e_tbl self) (n_text (a_tagname args));
    match v with
    | LNil => Ret (false, mk_encode (e_tbl self) tag None (e_iter self))
    | LTable a => Ret (true, mk_encode (e_tbl self) tag (Some a) (e_iter self))
    | _ => Raise ".*%s(%d) should be a table (Is a %s)"
    end.

(** The value that is asked for; nil ends the field. *)
Definition fetch (args : sproto_arg) (self : encode_ud) : outcome (lval * encode_ud) :=
  if bool_decide (a_index args > 0) then
    '(there, self) ← open_array args self;
    if negb there then Ret (LNil, self)
    else
      a ← slot (e_array self);
      tb ← table_at h a;
      if bool_decide (a_mainindex args >= 0) then
        match tnext tb (e_iter self) with
        | None => Raise "invalid key to 'next'"
        | Some None => Ret (LNil, mk_encode (e_tbl self) (e_array_tag self) (e_array self) LNil)
        | Some (Some (k, v)) => Ret (v, mk_encode (e_tbl self) (e_array_tag self) (e_array self) k)
        end
      else Ret (tget tb (LInt (a_index args)), self)
  else v ← lua_getfield h (e_tbl self) (n_text (a_tagname args)); Ret (v, self).

Definition subtype (o : option nat) : outcome sproto_type :=
  match o ≫= (sch !!.) with Some st => Ret st | None => Crash OutOfBounds end.

(** [levels] is [ENCODE_DEEPLEVEL - self->deep]; [region] is the memory at [args->value]. *)
Fixpoint encode (levels : nat) (args : sproto_arg) (self : encode_ud) (region : list Z)
  : outcome (Z * encode_ud * list Z) :=
  match levels with
  | O => Raise "The table is too deep"
  | S levels =>
    '(value, self) ← fetch args self;
    if decide (value = LNil) then Ret (0, self, region)
    else if bool_decide (a_type args = SPROTO_TINTEGER) then
      match value with
      | LInt v =>
        let vh := Z.shiftr v 31 in
        if bool_decide (vh = 0 \/ vh = -1) then region ← write_bytes region 0 (le_bytes 4 v); Ret (4, self, region)
        else region ← write_bytes region 0 (le_bytes 8 v); Ret (8, self, region)
      | _ => Raise ".%s[%d] is not an integer (Is a %s)"
      end
    else if bool_decide (a_type args = SPROTO_TBOOLEAN) then
      match value with
      | LBool v => region ← write_bytes region 0 (le_bytes 4 (Z.b2z v)); Ret (4, self, region)
      | _ => Raise ".%s[%d] is not a boolean (Is a %s)"
      end
    else if bool_decide (a_type args = SPROTO_TSTRING) then
      str ← match value with
            | LStr s => Ret s
            | LInt _ | LNum _ => Ret (number_text value)
            | _ => Raise ".%s[%d] is not a string (Is a %s)"
            end;
      let sz := Z.of_nat (length str) in
      if bool_decide (sz > u64 (a_length args)) then Ret (-1, self, region)
      else region ← write_bytes region 0 str; Ret (i32 (sz + 1), self, region)
    else if bool_decide (a_type args = SPROTO_TSTRUCT) then
      match value with
      | LTable t =>
        st ← subtype (a_subtype args);
        '(r, _, region) ← sproto_encode (encode levels) st (mk_encode t None None LNil) region 0 (a_length args);
        Ret (r, self, region)
      | _ => Raise ".%s[%d] is not a table (Is a %s)"
      end
    else Raise "Invalid field type %d"
  end.

(** The loop of [lencode]: every round doubles the buffer, up to the largest size. *)
Fixpoint lencode_loop (fuel : nat) (st : sproto_type) (t : nat) (buffer : list Z) (sz : Z)
  : outcome (list Z * list Z * Z) :=
  match fuel with
  | O => Crash OutOfFuel
  | S fuel =>
    '(r, _, buffer) ← sproto_encode (encode ENCODE_DEEPLEVEL) st (mk_encode t None None LNil) buffer 0 sz;
    if bool_decide (r < 0) then
      '(buffer, _) ← expand_buffer sz (sz * 2);
      lencode_loop fuel st t buffer (sz * 2)
    else s ← read_bytes buffer 0 r; Ret (s, buffer, sz)
  end.

(** [buffer] and [sz] are kept by the function between its calls. *)
Definition lencode (st : option nat) (arg : lval) (buffer : list Z) (sz : Z) : outcome (list Z * list Z * Z) :=
  match st ≫= (sch !!.) with
  | None => Raise "Need a sproto_type object"
  | Some st =>
    match arg with
    | LTable t => lencode_loop 32 st t buffer sz
    | _ => Raise "table expected"
    end
  end.
End LUA_ENCODE.

(** ** Decoding *)

(** [struct decode_ud], without [deep]. *)
Record decode_ud := mk_decode {
  d_array_tag : option Z;
  d_array : option nat;
  d_result : nat;
  d_mainindex_tag : Z;
  d_key : lval
}.

Section LUA_DECODE.
Context (sch : list sproto_type) (m : list Z).

(** The first element of an array makes its table. *)
Definition new_array (args : sproto_arg) (h : heap) (self : decode_ud) : outcome (heap * decode_ud) :=
  let tag := Some (n_at (a_tagname args)) in
  if bool_decide (a_index args > 0) && bool_decide (tag <> d_array_tag self) then
    let '(a, h) := lua_newtable h in
    h ← lua_rawset h (d_result self) (LStr (n_text (a_tagname args))) (LTable a);
    Ret (h, mk_decode tag (Some a) (d_result self) (d_mainindex_tag self) (d_key self))
  else Ret (h, self).

(** The end of [decode]: the value on the stack goes into the array or the result. *)
Definition store (args : sproto_arg) (value : lval) (h : heap) (self : decode_ud) : outcome (Z * (heap * decode_ud)) :=
  if bool_decide (a_index args > 0) then
    a ← slot (d_array self);
    h ← lua_rawset h a (LInt (a_index args)) value;
    Ret (0, (h, self))
  else
    let self := if bool_decide (d_mainindex_tag self = a_tagid args)
                then mk_decode (d_array_tag self) (d_array self) (d_result self) (d_mainindex_tag self) value
                else self in
    h ← lua_rawset h (d_result self) (LStr (n_text (a_tagname args))) value;
    Ret (0, (h, self)).

(** Numbers come in a variable and objects as bytes of the message, as [sproto_decode]
    calls it. *)
Fixpoint decode (levels : nat) (args : sproto_arg) (value : dvalue) (u : heap * decode_ud)
  : outcome (Z * (heap * decode_ud)) :=
  match levels with
  | O => Raise "The table is too deep"
  | S levels =>
    '(h, self) ← new_array args u.1 u.2;
    match value with
    | DInt v =>
      if bool_decide (a_type args = SPROTO_TINTEGER) then store args (LInt (i64 v)) h self
      else if bool_decide (a_type args = SPROTO_TBOOLEAN) then store args (LBool (bool_decide (i32 v <> 0))) h self
      else Crash OutOfBounds
    | DPtr p =>
      if bool_decide (a_type args = SPROTO_TSTRING) then
        s ← read_bytes m p (a_length args); store args (LStr s) h self
      else if bool_decide (a_type args = SPROTO_TSTRUCT) then
        let '(t, h) := lua_newtable h in
        st ← subtype sch (a_subtype args);
        if bool_decide (a_mainindex args >= 0) then
          '(r, (h, sub)) ← sproto_decode (decode levels) m st p (a_length args)
                             (h, mk_decode None None t (a_mainindex args) LNil);
          if bool_decide (r < 0 \/ r <> a_length args) then Ret (r, (h, self))
          else if decide (d_key sub = LNil) then Raise "Can't find main index (tag=%d) in [%s]"
          else a ← slot (d_array self); h ← lua_rawset h a (d_key sub) (LTable t); Ret (0, (h, self))
        else
          '(r, (h, _)) ← sproto_decode (decode levels) m st p (a_length args) (h, mk_decode None None t (-1) LNil);
          if bool_decide (r < 0 \/ r <> a_length args) then Ret (r, (h, self))
          else store args (LTable t) h self
      else Raise "Invalid type"
    end
  end.

(** The table, and how much of the message was read; [given] is a table to fill. *)
Definition ldecode (st : option nat) (sz : Z) (given : option nat) (h : heap) : outcome (nat * Z * heap) :=
  match st ≫= (sch !!.) with
  | None => Raise "Need a sproto_type object"
  | Some st =>
    let '(t, h) := match given with Some t => (t, h) | None => lua_newtable h end in
    '(r, (h, _)) ← sproto_decode (decode ENCODE_DEEPLEVEL) m st 0 (i32 sz) (h, mk_decode None None t (-1) LNil);
    if bool_decide (r < 0) then Raise "decode error" else Ret (t, r, h)
  end.
End LUA_DECODE.
