(* ===== verification/SprotoValue.v ===== *)
(** * Lua tables as sproto values

    A value of a schema is a tree; [represents] says which tables of the heap stand for
    it, [contents] which contents its message has.  The encoder's callback offers the
    contents of the value of its table. *)
From stdpp Require Import base list gmap numbers strings.
From Stdlib Require Import ZArith Lia.
From S2P Require Import Prelude SprotoCode SprotoLua SprotoWire SprotoEncode SprotoDecode.

Local Open Scope Z_scope.

(** ** Values *)

(** A struct has values for some of its tags. *)
Inductive value :=
| VInt (z : Z)
| VBool (b : bool)
| VStr (s : list Z)
| VStruct (fs : list (Z * value))
| VList (l : list value).

Fixpoint assoc {A} (t : Z) (fs : list (Z * A)) : option A :=
  match fs with
  | [] => None
  | (t', v) :: fs => if decide (t' = t) then Some v else assoc t fs
  end.

Section SCHEMA.
Context (sch : list sproto_type).

Definition subtype_of (f : field) : option sproto_type := f_st f ≫= (sch !!.).

(** The item of a value, with the contents of a struct. *)
Definition item_of (rec : sproto_type -> list (Z * value) -> offer) (f : field) (v : value) : item :=
  match v with
  | VInt z => IInt z
  | VBool b => IBool b
  | VStr s => IStr s
  | VStruct fs =>
    match subtype_of f with
    | Some st => let os := rec st fs in ISub (room st os) (steady os) (message (present os))
    | None => IInt 0
    end
  | VList _ => IInt 0
  end.

Definition content_of (rec : sproto_type -> list (Z * value) -> offer) (f : field) (ov : option value)
  : option content :=
  match ov with
  | None => if is_array f then Some (Many []) else None
  | Some (VList l) => Some (Many (item_of rec f <$> l))
  | Some v => Some (One (item_of rec f v))
  end.

(** The contents of a struct of type [st], of a depth up to [n]. *)
Fixpoint contents (n : nat) (st : sproto_type) (fs : list (Z * value)) : offer :=
  match n with
  | O => []
  | S n => (fun f => (f, content_of (contents n) f (assoc (f_tag f) fs))) <$> t_f st
  end.

(** The message of a struct. *)
Definition wire (n : nat) (st : sproto_type) (fs : list (Z * value)) : list Z := message (present (contents n st fs)).

(** The key under which a struct is in a map: its value for the main index. *)
Definition scalar_key (ov : option value) : option lval :=
  match ov with
  | Some (VInt z) => Some (LInt z)
  | Some (VBool b) => Some (LBool b)
  | Some (VStr s) => Some (LStr s)
  | _ => None
  end.

Definition main_key (f : field) (v : value) : option lval :=
  match v, subtype_of f with
  | VStruct fs, Some st => field_of st (f_key f) ≫= fun _ => scalar_key (assoc (f_key f) fs)
  | _, _ => None
  end.

(** ** Tables that stand for values *)

(** [order tb ents]: the entries of the table [tb] are [ents], in the order that matters. *)
Section REPRESENTS.
Context (order : table -> table -> Prop) (h : heap).

Definition item_is (rec : sproto_type -> list (Z * value) -> nat -> Prop) (f : field) (v : value) (lv : lval) : Prop :=
  match v, lv with
  | VInt z, LInt z' => z' = z /\ is_i64 z /\ elem_type f = SPROTO_TINTEGER
  | VBool b, LBool b' => b' = b /\ elem_type f = SPROTO_TBOOLEAN
  | VStr s, LStr s' => s' = s /\ elem_type f = SPROTO_TSTRING
  | VStruct fs, LTable t => elem_type f = SPROTO_TSTRUCT /\ exists st, subtype_of f = Some st /\ rec st fs t
  | _, _ => False
  end.

(** An array is a sequence, or a map from main indices to structs. *)
Definition list_is (rec : sproto_type -> list (Z * value) -> nat -> Prop) (f : field) (l : list value) (tb : table) : Prop :=
  if decide (0 <= f_key f) then
    exists ents, order tb ents /\ NoDup ents.*1 /\
      Forall2 (fun v e => item_is rec f v e.2 /\ main_key f v = Some e.1) l ents
  else
    (forall i v, l !! i = Some v -> item_is rec f v (tget tb (LInt (Z.of_nat i + 1)))) /\
    tget tb (LInt (Z.of_nat (length l) + 1)) = LNil.

Definition field_is (rec : sproto_type -> list (Z * value) -> nat -> Prop) (f : field) (ov : option value) (lv : lval) : Prop :=
  match ov with
  | None => lv = LNil
  | Some (VList l) => is_array f = true /\
      (l = [] /\ lv = LNil \/ exists a tb, lv = LTable a /\ h !! a = Some tb /\ list_is rec f l tb)
  | Some v => is_array f = false /\ item_is rec f v lv
  end.

(** The table [t] stands for the struct with the values [fs], of a depth up to [n]. *)
Fixpoint represents (n : nat) (st : sproto_type) (fs : list (Z * value)) (t : nat) : Prop :=
  match n with
  | O => False
  | S n => exists tb, h !! t = Some tb /\
      Forall (fun f => field_is (represents n) f (assoc (f_tag f) fs) (tget tb (LStr (n_text (f_name f))))) (t_f st)
  end.
End REPRESENTS.

(** The types of the schema are good, the names in a type are distinct, and only an array
    has a main index. *)
Definition names_ok (st : sproto_type) : Prop :=
  NoDup (n_at ∘ f_name <$> t_f st) /\ NoDup (n_text ∘ f_name <$> t_f st) /\
  Forall (fun f => is_array f = false -> f_key f < 0) (t_f st).

Definition schema_ok : Prop := Forall (fun st => type_ok st /\ names_ok st) sch.

End SCHEMA.

(** ** Sizes of messages *)

Lemma records_slots os : forall prev last, Forall offer_ok os -> ascending prev (f_tag <$> os.*1) -> -1 <= last <= prev ->
  Z.of_nat (length (records last (present os))) <= slots prev os.*1 + slack last prev.
Proof.
  induction os as [|[f oc] os IH]; intros prev last Ho Ha Hl; [unfold slack; simpl; case_decide; lia|].
  apply Forall_cons in Ho as [Hoc Ho]. destruct Ha as [Ht Ha]. cbn [present fmap list_fmap fst slots] in *.
  destruct (shown oc) as [c|].
  - cbn [app records]. fold (gap last (f_tag f)). specialize (IH (f_tag f) (f_tag f) Ho Ha ltac:(lia)).
    rewrite length_app. cbn [length]. unfold slack, gap in *. repeat case_decide; repeat case_bool_decide; simpl in *; lia.
  - specialize (IH (f_tag f) last Ho Ha ltac:(lia)). cbn [app]. unfold slack in *.
    repeat case_decide; repeat case_bool_decide; simpl in *; lia.
Qed.

Lemma datas_room os : Forall offer_ok os -> Z.of_nat (length (datas (present os))) <= sum_of (content_room ∘ snd) os.
Proof.
  induction 1 as [|[f oc] os Hoc Ho IH]; [done|]. rewrite sum_of_cons. cbn [present compose snd].
  destruct (field_shown f oc Hoc) as [Hl Hs]. destruct (shown oc) as [c|].
  - destruct Hs as [Hd _]. rewrite Hd in Hl. change (datas ([(f_tag f, c)] ++ present os)) with (data_of c ++ datas (present os)).
    len_lia.
  - cbn [app]. lia.
Qed.

(** A message fits into its room. *)
Lemma message_room st os : type_ok st -> os.*1 = t_f st -> Forall offer_ok os ->
  2 <= Z.of_nat (length (message (present os))) <= room st os.
Proof.
  intros Hst Hos Ho. pose proof (datas_room os Ho) as Hd.
  pose proof (records_slots os (-1) (-1) Ho) as Hr. rewrite Hos, <- (ok_maxn _ Hst) in Hr.
  specialize (Hr (ok_tags _ Hst) ltac:(lia)). unfold slack in Hr. rewrite decide_True in Hr by done.
  unfold message, room, SIZEOF_HEADER, SIZEOF_FIELD. autorewrite with sizes. rewrite length_words. lia.
Qed.

(** ** The contents are those of the type *)

(** What is present has ascending tags, and the contents of its fields. *)
Lemma present_ascending os last : forall last', ascending last (f_tag <$> os.*1) -> last' <= last ->
  ascending last' (present os).*1.
Proof.
  revert last. induction os as [|[f oc] os IH]; intros last last' Ha Hl; [done|]. destruct Ha as [Ht Ha].
  cbn [present fmap list_fmap fst] in *. destruct (shown oc); cbn [app].
  - split; [cbn; lia|]. by apply (IH (f_tag f)).
  - apply (IH (f_tag f)); [done|lia].
Qed.

Lemma shown_many oc : shown oc <> Some (Many []).
Proof. by destruct oc as [[|[]]|]. Qed.

Lemma shown_content oc c : shown oc = Some c -> oc = Some c.
Proof. destruct oc as [[|[]]|]; cbn; congruence. Qed.

Lemma present_fits st os : type_ok st -> os.*1 = t_f st -> Forall offer_ok os -> fits st (present os).
Proof.
  intros Hok E Ho. assert (Hin : forall p, p ∈ os -> p.1 ∈ t_f st).
  { intros p Hp. rewrite <- E. apply list_elem_of_fmap. by exists p. }
  clear E. induction Ho as [|[f oc] os Hoc Ho IH]; [by constructor|]. cbn [present].
  assert (Hf : f ∈ t_f st) by (apply (Hin (f, oc)), list_elem_of_here).
  assert (IH' : fits st (present os)) by (apply IH; intros p Hp; apply Hin; by apply list_elem_of_further).
  destruct (shown oc) as [c|] eqn:Es; [|done]. constructor; [|done]. cbn [fst snd].
  split; [intros ->; by apply shown_many in Es|]. apply shown_content in Es as ->.
  unfold field_of. apply list_elem_of_lookup in Hf as [i Hi]. by erewrite find_at; [|apply (ok_tags _ Hok)|exact Hi|].
Qed.

(** Which value a content is of. *)
Lemma content_none sch n f ov : content_of sch (contents sch n) f ov = None -> ov = None.
Proof. by destruct ov as [[]|]. Qed.

Lemma content_one sch n f ov it : content_of sch (contents sch n) f ov = Some (One it) ->
  exists v, ov = Some v /\ it = item_of sch (contents sch n) f v /\ (if v is VList _ then False else True).
Proof. destruct ov as [[]|]; cbn; [intros [= <-]; eauto..|by intros [= ]|by destruct (is_array f)]. Qed.

Lemma content_many sch n f ov l : content_of sch (contents sch n) f ov = Some (Many l) ->
  exists vs, l = item_of sch (contents sch n) f <$> vs /\ (ov = Some (VList vs) \/ vs = [] /\ ov = None).
Proof.
  destruct ov as [[]|]; cbn; try done.
  - intros [= <-]. eauto.
  - destruct (is_array f); [|done]. intros [= <-]. exists []. eauto.
Qed.

Section CONTENTS.
Context (sch : list sproto_type) (Hsch : schema_ok sch) (order : table -> table -> Prop) (h : heap).

Lemma contents_fields n st fs : (contents sch (S n) st fs).*1 = t_f st.
Proof. cbn. rewrite <- list_fmap_compose. by rewrite list_fmap_id. Qed.

Lemma subtype_ok f st : subtype_of sch f = Some st -> type_ok st /\ names_ok st.
Proof.
  unfold subtype_of. destruct (f_st f) as [k|]; [|done]. cbn. intros Hk.
  unfold schema_ok in Hsch. rewrite Forall_lookup in Hsch. by apply Hsch in Hk.
Qed.

(** The elements of a list are values of tables, in both kinds of arrays. *)
Lemma list_items rec f l tb : list_is sch order rec f l tb -> Forall (fun v => exists lv, item_is sch rec f v lv) l.
Proof.
  unfold list_is. case_decide.
  - intros (ents & _ & _ & Hl). induction Hl as [|v e l ents [Hv _] _ IH]; constructor; eauto.
  - intros [Hl _]. apply Forall_lookup. intros i v Hi. eauto.
Qed.

Lemma contents_ok n : forall st fs t, represents sch order h n st fs t -> Forall offer_ok (contents sch n st fs).
Proof.
  induction n as [|n IH]; intros st fs t Hr; [done|]. destruct Hr as (tb & _ & Hf).
  cbn [contents]. apply Forall_fmap. eapply Forall_impl; [exact Hf|]. clear Hf. intros f Hf. cbn.
  assert (Hitem : forall v lv, item_is sch (represents sch order h n) f v lv ->
    elem_type f = item_type (item_of sch (contents sch n) f v) /\ item_ok (item_of sch (contents sch n) f v)).
  { intros v lv Hv. destruct v as [z|b|s|fs'|l], lv; try done; cbn [item_is item_of] in Hv |- *; [cbn; tauto..|].
    destruct Hv as [Ht (st' & Hs & Hr)]. rewrite Hs. cbn [item_type item_ok]. split; [done|].
    destruct (subtype_ok f st' Hs) as [Hok _]. destruct n as [|n]; [done|].
    pose proof (message_room st' (contents sch (S n) st' fs') Hok (contents_fields n st' fs') (IH _ _ _ Hr)). lia. }
  unfold field_is in Hf. unfold offer_ok, content_of. cbn [fst snd].
  destruct (assoc (f_tag f) fs) as [[z|b|s|fs'|l]|]; cbn; try (destruct Hf as [Ha Hv]; split; [done|exact (Hitem _ _ Hv)]).
  - destruct Hf as [Ha Hl]. split; [done|]. apply Forall_fmap. destruct Hl as [[-> _]|(a & tb' & _ & _ & Hl)]; [done|].
    apply list_items in Hl. eapply Forall_impl; [exact Hl|]. intros v [lv Hv]. by eapply Hitem.
  - destruct (is_array f) eqn:Ha; [by split|done].
Qed.
End CONTENTS.
