(* ===== verification/SprotoLuaEncode.v ===== *)
(** * The encoder of Lua tables

    The callback [encode] keeps the contract [EncodeCallback] for the contents of a table,
    by induction on the depth; [lencode] then answers the message of the table, in a
    buffer that grows until the message has its room. *)
From stdpp Require Import base list gmap numbers strings.
From Stdlib Require Import ZArith Lia.
From S2P Require Import Prelude SprotoPack SprotoCode SprotoLua SprotoWire SprotoEncode SprotoValue.

Local Open Scope Z_scope.

Section LUA.
Context (sch : list sproto_type) (Hsch : schema_ok sch) (h : heap) (number_text : lval -> list Z).

#[local] Abbreviation enc := (encode sch h number_text).

(** The encoder at depth [n]. *)
Definition struct_encoded (n : nat) : Prop := forall st fs t m size,
  type_ok st -> names_ok st -> represents sch eq h n st fs t -> size = Z.of_nat (length m) -> size < 2 ^ 31 ->
  room st (contents sch n st fs) <= size \/ steady (contents sch n st fs) = true ->
  writes (fun _ => True) (size < room st (contents sch n st fs)) (-1) (Z.of_nat (length (wire sch n st fs))) [] m
    (wire sch n st fs) (sproto_encode (enc n) st (mk_encode t None None LNil) m 0 size).

Section DEPTH.
Context (n : nat) (IHn : struct_encoded n).

Lemma small_shift v : is_i64 v -> bool_decide (Z.shiftr v 31 = 0 \/ Z.shiftr v 31 = -1) = small v.
Proof.
  intros Hv. unfold small. apply bool_decide_ext. rewrite shiftr_div by lia. unfold is_i64 in Hv. dlia.
Qed.

Lemma writes_front {U} (Q : U -> Prop) F r bytes region u :
  Q u -> (length bytes <= length region)%nat ->
  writes Q F (-1) r [] region bytes (region ← write_bytes region 0 bytes; Ret (r, u, region)).
Proof.
  intros Hu Hl. step_with write_front by done. right. exists u, (drop (length bytes) region).
  split; [done|]. split; [len_lia|done].
Qed.

(** The value that was fetched goes to [args->value]. *)
Lemma encode_item f v lv len i self self' region :
  item_is sch (represents sch eq h n) f v lv -> fetch h (field_arg f len i) self = Ret (lv, self') ->
  may_ask (item_of sch (contents sch n) f v) len -> Z.of_nat (length region) = len ->
  writes (fun s => s = self') (item_fails (item_of sch (contents sch n) f v) len) (-1)
    (item_answer (item_of sch (contents sch n) f v)) [] region (item_bytes (item_of sch (contents sch n) f v))
    (enc (S n) (field_arg f len i) self region).
Proof.
  intros Hv Hf Hm Hl. cbn [encode]. step_with Hf. cbn [a_type field_arg a_length].
  destruct v as [z|b|s|fs|l], lv; try done; cbn [item_is] in Hv; rewrite decide_False by done.
  - destruct Hv as (-> & Hi & ->). rewrite bool_decide_true by done. rewrite small_shift by done.
    cbn [item_of item_bytes item_answer item_fails may_ask] in *. unfold width. rewrite length_le_bytes.
    destruct (small z); apply writes_front; len_lia || done.
  - destruct Hv as (-> & ->). rewrite bool_decide_false, bool_decide_true by done.
    cbn [item_of may_ask] in *. by apply writes_front; [|len_lia].
  - destruct Hv as (-> & ->).
    rewrite (bool_decide_false (SPROTO_TSTRING = SPROTO_TINTEGER)), (bool_decide_false (SPROTO_TSTRING = SPROTO_TBOOLEAN)),
      (bool_decide_true (SPROTO_TSTRING = SPROTO_TSTRING)) by done. cbn [mbind outcome_bind].
    cbn [item_of item_bytes item_answer item_fails may_ask] in *. rewrite u64_small by (unfold is_u64; lia).
    case_bool_decide as Hlt; [apply (writes_fail _ _ _ _ []); lia|].
    rewrite i32_small by (unfold is_i32; lia). apply writes_front; [done|lia].
  - destruct Hv as (-> & st & Hs & Hr).
    rewrite (bool_decide_false (SPROTO_TSTRUCT = SPROTO_TINTEGER)), (bool_decide_false (SPROTO_TSTRUCT = SPROTO_TBOOLEAN)),
      (bool_decide_false (SPROTO_TSTRUCT = SPROTO_TSTRING)), (bool_decide_true (SPROTO_TSTRUCT = SPROTO_TSTRUCT)) by done.
    cbn [a_subtype field_arg]. unfold subtype. unfold subtype_of in Hs. rewrite Hs. cbn [mbind outcome_bind].
    assert (Hsub : subtype_of sch f = Some st) by done. cbn [item_of] in *. rewrite Hsub in *.
    cbn [item_bytes item_answer item_fails may_ask] in *.
    destruct (subtype_ok sch Hsch f st Hs) as [Hok Hnm].
    destruct (IHn st fs t region len Hok Hnm Hr) as [(u & r & He & Hr')|(u & r & He & Hl' & _)];
      [done|lia|apply Hm|rewrite He..]; cbn [mbind outcome_bind]; [left|right]; by exists self', r.
Qed.

(** ** The state of the callback between its calls *)

Definition at_name (f : field) : Z := n_at (f_name f).

(** The table has the values of the fields that are to come, and none of them was begun. *)
Definition waiting (os : offer) (self : encode_ud) : Prop :=
  (forall p, p ∈ os -> e_array_tag self <> Some (at_name p.1)) /\ NoDup (at_name ∘ fst <$> os) /\
  exists tb, h !! e_tbl self = Some tb /\
    Forall (fun p => exists ov, p.2 = content_of sch (contents sch n) p.1 ov /\
      field_is sch eq h (represents sch eq h n) p.1 ov (tget tb (LStr (n_text (f_name p.1))))) os.

Definition last_key (ents : table) : lval := if last ents is Some (k, _) then k else LNil.

(** In the open array, the elements [vs] come from index [i] on. *)
Definition in_array (f : field) (i : Z) (vs : list value) (self : encode_ud) : Prop :=
  exists a tb, e_array self = Some a /\ h !! a = Some tb /\
    if decide (0 <= f_key f) then
      exists before ents, tb = before ++ ents /\ NoDup tb.*1 /\ (LNil ∉ tb.*1) /\ e_iter self = last_key before /\
        Forall2 (fun v e => item_is sch (represents sch eq h n) f v e.2) vs ents
    else
      e_iter self = LNil /\
      (forall j v, vs !! j = Some v -> item_is sch (represents sch eq h n) f v (tget tb (LInt (i + Z.of_nat j)))) /\
      tget tb (LInt (i + Z.of_nat (length vs))) = LNil.

Definition lua_between (f : field) (i : Z) (l : list item) (os : offer) (self : encode_ud) : Prop :=
  1 <= i /\ exists there self', open_array h (field_arg f 0 i) self = Ret (there, self') /\ waiting os self' /\
    if there then
      e_array_tag self' = Some (at_name f) /\ (forall p, p ∈ os -> at_name p.1 <> at_name f) /\
      exists vs, l = item_of sch (contents sch n) f <$> vs /\ in_array f i vs self'
    else l = [] /\ e_iter self' = LNil.

(** ** Maps *)

Lemma tnext_last before ents : NoDup (before ++ ents).*1 -> LNil ∉ (before ++ ents).*1 ->
  tnext (before ++ ents) (last_key before) = Some (head ents).
Proof.
  induction before as [|[k v] before IH]; intros Hn Hl; [by destruct ents as [|[]]|].
  cbn [app fmap list_fmap fst] in Hn, Hl. apply NoDup_cons in Hn as [Hk Hn]. apply not_elem_of_cons in Hl as [Hk' Hl].
  destruct before as [|e before].
  - cbn. rewrite decide_False by done. by rewrite decide_True.
  - assert (Hlast : last_key ((k, v) :: e :: before) = last_key (e :: before)) by done. rewrite Hlast.
    specialize (IH Hn Hl). cbn [tnext app]. assert (Hin : last_key (e :: before) ∈ (e :: before).*1).
    { unfold last_key. destruct (last (e :: before)) as [[k' v']|] eqn:E; [|by apply last_None in E].
      apply last_Some_elem_of in E. apply list_elem_of_fmap. by exists (k', v'). }
    rewrite decide_False; [rewrite decide_False; [exact IH|]|].
    + intros ->. apply Hk. rewrite fmap_app. apply elem_of_app. by left.
    + intros E. rewrite E in Hin. apply Hl. rewrite fmap_app. apply elem_of_app. by left.
Qed.

Lemma last_key_snoc before e : last_key (before ++ [e]) = e.1.
Proof. unfold last_key. rewrite last_snoc. by destruct e. Qed.

(** ** The contract *)

Lemma waiting_tail p os self : waiting (p :: os) self -> waiting os self.
Proof.
  intros (Ht & Hn & tb & Hh & Hf). apply NoDup_cons in Hn as [_ Hn]. apply Forall_cons in Hf as [_ Hf].
  split; [|split; [done|by exists tb]]. intros q Hq. apply Ht. by apply elem_of_cons; right.
Qed.

(** The value of the first field that is to come. *)
Lemma waiting_value f oc os self : waiting ((f, oc) :: os) self ->
  exists lv ov, lua_getfield h (e_tbl self) (n_text (f_name f)) = Ret lv /\ oc = content_of sch (contents sch n) f ov /\
    field_is sch eq h (represents sch eq h n) f ov lv.
Proof.
  intros (_ & _ & tb & Hh & [(ov & Hc & Hf) _]%Forall_cons). cbn [fst snd] in *. subst oc. exists (tget tb (LStr (n_text (f_name f)))), ov.
  unfold lua_getfield, table_at. by rewrite Hh.
Qed.

Lemma fetch_scalar f len self v : lua_getfield h (e_tbl self) (n_text (f_name f)) = Ret v ->
  fetch h (field_arg f len 0) self = Ret (v, self).
Proof. intros Hv. unfold fetch. rewrite bool_decide_false by done. cbn [a_tagname field_arg]. by step_with Hv. Qed.

Lemma lua_ready_none f os u len region : e_iter u = LNil /\ waiting ((f, None) :: os) u ->
  exists u', enc (S n) (field_arg f len 0) u region = Ret (0, u', region) /\ e_iter u' = LNil /\ waiting os u'.
Proof.
  intros [Hi Hw]. destruct (waiting_value _ _ _ _ Hw) as (lv & ov & Hv & Hc & Hf).
  symmetry in Hc. apply (content_none sch n) in Hc as ->. cbn in Hf. subst lv. exists u.
  cbn [encode]. step_with (fetch_scalar f len u _ Hv). rewrite decide_True by done.
  split; [done|]. split; [done|by eapply waiting_tail].
Qed.

Lemma lua_ready_one f it os u len region : e_iter u = LNil /\ waiting ((f, Some (One it)) :: os) u ->
  may_ask it len -> Z.of_nat (length region) = len ->
  writes (fun u' => e_iter u' = LNil /\ waiting os u') (item_fails it len) (-1) (item_answer it) [] region (item_bytes it)
    (enc (S n) (field_arg f len 0) u region).
Proof.
  intros [Hi Hw] Hm Hl. destruct (waiting_value _ _ _ _ Hw) as (lv & ov & Hv & Hc & Hf).
  symmetry in Hc. apply (content_one sch n) in Hc as (v & -> & -> & Hnl).
  assert (Hit : item_is sch (represents sch eq h n) f v lv) by (destruct v; [apply Hf..|done]).
  eapply writes_mono; [|exact (fun x => x)|by apply (encode_item f v lv len 0 u u); [|apply fetch_scalar|..]].
  intros u' ->. split; [done|by eapply waiting_tail].
Qed.

(** An array is opened with the first call for it. *)
Lemma waiting_opened f oc os u a : waiting ((f, oc) :: os) u ->
  waiting os (mk_encode (e_tbl u) (Some (at_name f)) a (e_iter u)) /\ forall p, p ∈ os -> at_name p.1 <> at_name f.
Proof.
  intros Hw. assert (Hn : forall p, p ∈ os -> at_name p.1 <> at_name f).
  { intros p Hp E. destruct Hw as (_ & Hn & _). apply NoDup_cons in Hn as [Hn _]. apply Hn.
    apply list_elem_of_fmap. exists p. by split. }
  split; [|done]. apply waiting_tail in Hw as (_ & Hnd & Htb). split; [|done]. intros p Hp [= E]. by apply (Hn p Hp).
Qed.

Lemma main_key_nil f v : main_key sch f v <> Some LNil.
Proof.
  destruct v as [z|b|s|fs|l]; cbn; try done. destruct (subtype_of sch f) as [st|]; [|done].
  destruct (field_of st (f_key f)); [|done]. cbn. by destruct (assoc _ _) as [[]|].
Qed.

Lemma list_in_array f vs tb a u : list_is sch eq (represents sch eq h n) f vs tb -> h !! a = Some tb ->
  e_iter u = LNil -> in_array f 1 vs (mk_encode (e_tbl u) (Some (at_name f)) (Some a) (e_iter u)).
Proof.
  intros Hl Ha Hi. exists a, tb. split; [done|]. split; [done|]. unfold list_is in Hl. cbn [e_iter]. case_decide.
  - destruct Hl as (ents & -> & Hn & Hf). exists [], ents. split; [done|]. split; [done|]. split; [|split; [done|]].
    + clear Hn Ha. induction Hf as [|v e l ents [_ Hk] _ IH]; [by apply not_elem_of_nil|].
      cbn. apply not_elem_of_cons. split; [|done]. intros E. rewrite <- E in Hk. by apply main_key_nil in Hk.
    + eapply Forall2_impl; [exact Hf|]. by intros v e [? _].
  - destruct Hl as [Hl Hn]. split; [done|]. split.
    + intros j v Hj. rewrite Z.add_comm. by apply Hl.
    + by rewrite Z.add_comm.
Qed.

Lemma lua_ready_many f l os u : e_iter u = LNil /\ waiting ((f, Some (Many l)) :: os) u -> lua_between f 1 l os u.
Proof.
  intros [Hi Hw]. destruct (waiting_value _ _ _ _ Hw) as (lv & ov & Hv & Hc & Hf).
  symmetry in Hc. apply (content_many sch n) in Hc as (vs & -> & Hov). split; [lia|].
  assert (Hopen : open_array h (field_arg f 0 1) u =
    match lv with
    | LNil => Ret (false, mk_encode (e_tbl u) (Some (at_name f)) None (e_iter u))
    | LTable a => Ret (true, mk_encode (e_tbl u) (Some (at_name f)) (Some a) (e_iter u))
    | _ => Raise ".*%s(%d) should be a table (Is a %s)"
    end).
  { unfold open_array. rewrite decide_False; [cbn [a_tagname field_arg]; by step_with Hv|].
    apply (proj1 Hw (f, Some (Many (item_of sch (contents sch n) f <$> vs)))), list_elem_of_here. }
  rewrite Hopen.
  assert (Hcase : vs = [] /\ lv = LNil \/ exists a tb, lv = LTable a /\ h !! a = Some tb /\
    list_is sch eq (represents sch eq h n) f vs tb).
  { destruct Hov as [->|[-> ->]]; [apply Hf|by left]. }
  destruct Hcase as [[-> ->]|(a & tb & -> & Ha & Hl)].
  - eexists false, _. split; [done|]. split; [by eapply waiting_opened|done].
  - eexists true, _. split; [done|]. destruct (waiting_opened f _ os u (Some a) Hw) as [Hw' Hne]. split; [done|].
    split; [done|]. split; [done|]. exists vs. split; [done|]. by eapply list_in_array.
Qed.

(** The value at the index, and the state behind it. *)
Lemma in_array_fetch f i v vs len u self : 1 <= i -> open_array h (field_arg f 0 i) u = Ret (true, self) ->
  in_array f i (v :: vs) self ->
  exists lv self', fetch h (field_arg f len i) u = Ret (lv, self') /\ item_is sch (represents sch eq h n) f v lv /\
    e_tbl self' = e_tbl self /\ e_array_tag self' = e_array_tag self /\ in_array f (i + 1) vs self'.
Proof.
  intros Hi Ho (a & tb & Ha & Hh & Hin). unfold fetch. rewrite bool_decide_true by (cbn; lia).
  change (open_array h (field_arg f len i) u) with (open_array h (field_arg f 0 i) u). step_with Ho.
  cbn [negb]. rewrite Ha. cbn [slot]. rewrite bind_Ret. unfold table_at. rewrite Hh, bind_Ret. cbn [a_mainindex field_arg].
  case_decide as Hk.
  - rewrite bool_decide_true by lia. destruct Hin as (before & ents & -> & Hn & Hl & Hit & Hf).
    apply Forall2_cons_inv_l in Hf as ([k lv] & ents' & Hv & Hf & ->).
    rewrite Hit, tnext_last by done. cbn [head]. eexists lv, _. split; [done|]. split; [done|]. split; [done|]. split; [done|].
    exists a, (before ++ (k, lv) :: ents'). split; [done|]. split; [done|]. rewrite decide_True by done.
    exists (before ++ [(k, lv)]), ents'. rewrite <- app_assoc. split; [done|]. split; [done|]. split; [done|].
    split; [by rewrite last_key_snoc|done].
  - rewrite bool_decide_false by lia. destruct Hin as (Hit & Hf & Hn). cbn [a_index field_arg].
    eexists _, self. split; [done|]. split; [|split; [done|split; [done|]]].
    + specialize (Hf 0%nat v eq_refl). by rewrite Z.add_0_r in Hf.
    + exists a, tb. split; [done|]. split; [done|]. rewrite decide_False by done. split; [done|]. split.
      * intros j w Hj. specialize (Hf (S j) w Hj). by replace (i + 1 + Z.of_nat j) with (i + Z.of_nat (S j)) by lia.
      * cbn [length] in Hn. by replace (i + 1 + Z.of_nat (length vs)) with (i + Z.of_nat (S (length vs))) by lia.
Qed.

Lemma lua_between_next f i it l os u len region : lua_between f i (it :: l) os u ->
  may_ask it len -> Z.of_nat (length region) = len ->
  writes (lua_between f (i + 1) l os) (item_fails it len) (-1) (item_answer it) [] region (item_bytes it)
    (enc (S n) (field_arg f len i) u region).
Proof.
  intros (Hi & there & self & Ho & Hw & Ht) Hm Hl. destruct there; [|by destruct Ht].
  destruct Ht as (Htag & Hne & vs & Hvs & Hin). destruct vs as [|v vs]; [done|]. injection Hvs as -> ->.
  destruct (in_array_fetch f i v vs len u self Hi Ho Hin) as (lv & self' & Hf & Hv & He & Ha & Hin').
  eapply writes_mono; [|exact (fun x => x)|by apply (encode_item f v lv len i u self')].
  intros u' ->. split; [lia|]. exists true, self'. rewrite <- Ha in Htag.
  split; [unfold open_array; by rewrite decide_True|]. split; [|split; [done|split; [done|by exists vs]]].
  destruct Hw as (Hw1 & Hw2 & Hw3). split; [|split; [done|by rewrite He]]. intros p Hp. rewrite Ha. by apply Hw1.
Qed.

Lemma lua_between_last f i os u len region : lua_between f i [] os u ->
  exists u', enc (S n) (field_arg f len i) u region = Ret (0, u', region) /\ e_iter u' = LNil /\ waiting os u'.
Proof.
  intros (Hi & there & self & Ho & Hw & Ht).
  assert (Hf : exists u', fetch h (field_arg f len i) u = Ret (LNil, u') /\ e_iter u' = LNil /\ waiting os u').
  { unfold fetch. rewrite bool_decide_true by (cbn; lia).
    change (open_array h (field_arg f len i) u) with (open_array h (field_arg f 0 i) u). step_with Ho.
    destruct there; [|destruct Ht; by exists self].
    destruct Ht as (Htag & _ & vs & Hvs & a & tb & Ha & Hh & Hin). destruct vs; [|done].
    cbn [negb]. rewrite Ha. cbn [slot]. rewrite bind_Ret. unfold table_at. rewrite Hh, bind_Ret. cbn [a_mainindex field_arg].
    case_decide as Hk.
    - rewrite bool_decide_true by lia. destruct Hin as (before & ents & -> & Hn & Hl & Hit & Hf).
      apply Forall2_nil_inv_l in Hf as ->. rewrite Hit, tnext_last by done. cbn [head]. by eexists.
    - rewrite bool_decide_false by lia. destruct Hin as (Hit & _ & Hn). cbn [length] in Hn. rewrite Z.add_0_r in Hn.
      cbn [a_index field_arg]. rewrite Hn. by exists self. }
  destruct Hf as (u' & Hf & Hit & Hw'). exists u'. split; [|done]. cbn [encode]. step_with Hf. by rewrite decide_True.
Qed.

#[local] Instance lua_callback : EncodeCallback (enc (S n)).
Proof.
  refine {| ready os u := e_iter u = LNil /\ waiting os u; between := lua_between |}.
  - intros f os u len region _. apply lua_ready_none.
  - intros f it os u len region Hu _. by apply lua_ready_one.
  - intros f l os u Hu _. by apply lua_ready_many.
  - intros f i it l os u len region Hu _. by apply lua_between_next.
  - intros f i os u len region Hu _. by apply lua_between_last.
Defined.

Lemma struct_step : struct_encoded (S n).
Proof.
  intros st fs t m size Hok (Hn1 & Hn2 & Hn3) Hr Hsz Hlt Hroom.
  pose proof (contents_ok sch Hsch eq h (S n) st fs t Hr) as Hoff.
  apply (sproto_encode_writes (enc (S n)) st (contents sch (S n) st fs)); [|apply contents_fields|done..].
  split; [done|]. split; [done|]. split.
  - cbn [contents]. rewrite <- list_fmap_compose. exact Hn1.
  - destruct Hr as (tb & Hh & Hf). exists tb. split; [done|]. cbn [contents]. apply Forall_fmap.
    eapply Forall_impl; [exact Hf|]. intros f Hff. cbn [compose fst snd]. eauto.
Qed.
End DEPTH.

Lemma struct_encoded_all n : struct_encoded n.
Proof. induction n as [|n IH]; [by intros ? ? ? ? ? _ _ []|by apply struct_step]. Qed.

(** ** The buffer of [lencode] *)

Definition buffer_size (k : nat) : Z := 2050 * 2 ^ Z.of_nat k.

Lemma buffer_size_S k : buffer_size (S k) = buffer_size k * 2.
Proof. unfold buffer_size. rewrite Nat2Z.inj_succ, Z.pow_succ_r by lia. lia. Qed.

Lemma buffer_size_range k : (k <= 12)%nat -> 2050 <= buffer_size k <= 8396800.
Proof.
  intros Hk. unfold buffer_size. assert (2 ^ Z.of_nat k <= 2 ^ 12) by (apply Z.pow_le_mono_r; lia).
  assert (2 ^ 0 <= 2 ^ Z.of_nat k) by (apply Z.pow_le_mono_r; lia). lia.
Qed.

Lemma double_buffer k : (k < 12)%nat ->
  expand_buffer (buffer_size k) (buffer_size k * 2) =
    Ret (replicate (Z.to_nat (buffer_size (S k))) 0, buffer_size (S k)).
Proof.
  intros Hk. pose proof (buffer_size_range (S k) ltac:(lia)) as Hr. rewrite buffer_size_S in *. unfold expand_buffer.
  assert (He : expand_loop 31 (buffer_size k) (buffer_size k * 2) = Ret (buffer_size k * 2)).
  { unfold expand_loop. rewrite i32_small by (unfold is_i32; lia). by rewrite bool_decide_false by lia. }
  step_with He. by rewrite bool_decide_false by (unfold ENCODE_MAXSIZE; lia).
Qed.

Lemma lencode_loop_writes st fs t : type_ok st -> names_ok st -> represents sch eq h ENCODE_DEEPLEVEL st fs t ->
  let os := contents sch ENCODE_DEEPLEVEL st fs in
  room st os <= buffer_size 12 ->
  forall fuel k buffer, (k <= 12)%nat -> (12 - k < fuel)%nat -> Z.of_nat (length buffer) = buffer_size k ->
  room st os <= buffer_size k \/ steady os = true ->
  exists buffer' sz, lencode_loop sch h number_text fuel st t buffer (buffer_size k) =
    Ret (wire sch ENCODE_DEEPLEVEL st fs, buffer', sz).
Proof.
  intros Hok Hnm Hr os Hroom. induction fuel as [|fuel IH]; intros k buffer Hk Hf Hb Hs; [lia|].
  pose proof (buffer_size_range k Hk) as Hrange. cbn [lencode_loop].
  destruct (struct_encoded_all ENCODE_DEEPLEVEL st fs t buffer (buffer_size k) Hok Hnm Hr (eq_sym Hb) ltac:(lia) Hs)
    as [(u & b & He & Hl & Hlt)|(u & b & He & Hl & _)]; rewrite He; cbn [mbind outcome_bind app].
  - rewrite bool_decide_true by lia. assert (k <> 12%nat) by (intros ->; fold os in Hlt; lia).
    rewrite double_buffer by lia. cbn [mbind outcome_bind]. rewrite <- buffer_size_S. apply IH; [lia|lia| |].
    + rewrite length_replicate. pose proof (buffer_size_range (S k) ltac:(lia)). lia.
    + destruct Hs as [Hs|Hs]; [left|by right]. rewrite buffer_size_S. lia.
  - rewrite bool_decide_false by lia. rewrite read_prefix by done. cbn [mbind outcome_bind]. eauto.
Qed.

(** A table that stands for a struct is encoded as its message, whatever the buffer holds;
    the buffer has grown when it was too small. *)
Lemma lencode_writes i st fs t k buffer : sch !! i = Some st -> represents sch eq h ENCODE_DEEPLEVEL st fs t ->
  let os := contents sch ENCODE_DEEPLEVEL st fs in
  room st os <= buffer_size 12 -> (k <= 12)%nat -> Z.of_nat (length buffer) = buffer_size k ->
  room st os <= buffer_size k \/ steady os = true ->
  exists buffer' sz, lencode sch h number_text (Some i) (LTable t) buffer (buffer_size k) =
    Ret (wire sch ENCODE_DEEPLEVEL st fs, buffer', sz).
Proof.
  intros Hi Hr os Hroom Hk Hb Hs. unfold lencode. cbn [option_bind mbind]. rewrite Hi.
  destruct (proj1 (Forall_lookup _ _) Hsch _ _ Hi) as [Hok Hnm]. apply lencode_loop_writes; try done. lia.
Qed.
End LUA.
