(* ===== verification/SprotoLuaDecode.v ===== *)
(** * The decoder of Lua tables

    The callback [decode] keeps the contract [DecodeCallback]: from the message of a value
    it makes new tables that stand for the value.  The tables that are complete are a part
    [hd] of the heap, which the table that is filled and the array that is filled are not
    in, so nothing changes them any more. *)
From stdpp Require Import base list gmap numbers strings.
From Stdlib Require Import ZArith Lia.
From S2P Require Import Prelude SprotoPack SprotoCode SprotoLua SprotoWire SprotoEncode SprotoDecode SprotoValue.

Local Open Scope Z_scope.

(** ** Tables *)

Lemma tget_tset tb k v : tget (tset tb k v) k = v.
Proof. induction tb as [|[k' v'] tb IH]; cbn; [by rewrite decide_True|]. case_decide; cbn; by case_decide. Qed.

Lemma tget_tset_ne tb k k' v : k' <> k -> tget (tset tb k v) k' = tget tb k'.
Proof.
  intros Hk. induction tb as [|[k1 v1] tb IH]; cbn; [by rewrite decide_False|].
  case_decide as E; cbn; [subst; by rewrite !decide_False|]. by case_decide.
Qed.

Lemma tset_new tb k v : k ∉ tb.*1 -> tset tb k v = tb ++ [(k, v)].
Proof.
  induction tb as [|[k1 v1] tb IH]; [done|]. cbn. intros [Hk Hn]%not_elem_of_cons.
  rewrite decide_False by done. by rewrite IH.
Qed.

(** ** What stands for a value stays when the heap grows *)

Section MONO.
Context (sch : list sproto_type) (order : table -> table -> Prop).

Lemma item_is_mono (rec rec' : sproto_type -> list (Z * value) -> nat -> Prop) f v lv :
  (forall st fs t, rec st fs t -> rec' st fs t) -> item_is sch rec f v lv -> item_is sch rec' f v lv.
Proof.
  intros Hm. destruct v, lv; try done. cbn. intros (He & st & Hs & Hr). split; [done|]. exists st. auto.
Qed.

Lemma list_is_mono (rec rec' : sproto_type -> list (Z * value) -> nat -> Prop) f l tb :
  (forall st fs t, rec st fs t -> rec' st fs t) -> list_is sch order rec f l tb -> list_is sch order rec' f l tb.
Proof.
  intros Hm. unfold list_is. case_decide.
  - intros (ents & Ho & Hn & Hf). exists ents. split; [done|]. split; [done|].
    eapply Forall2_impl; [exact Hf|]. intros v e [Hv Hk]. split; [by eapply item_is_mono|done].
  - intros [Hl Hn]. split; [|done]. intros i v Hi. eapply item_is_mono; eauto.
Qed.

Lemma field_is_mono (rec rec' : sproto_type -> list (Z * value) -> nat -> Prop) h h' f ov lv :
  (forall st fs t, rec st fs t -> rec' st fs t) -> h ⊆ h' ->
  field_is sch order h rec f ov lv -> field_is sch order h' rec' f ov lv.
Proof.
  intros Hm Hh. destruct ov as [[z|b|s|fs|l]|]; cbn [field_is]; try (intros [Ha Hi]; split; [done|by eapply item_is_mono]); [|done].
  intros [Ha [Hl|(a & tb & Ht & Hg & Hl)]]; (split; [done|]); [by left|right].
  exists a, tb. split; [done|]. split; [by eapply lookup_weaken|by eapply list_is_mono].
Qed.

Lemma represents_mono n h h' : h ⊆ h' ->
  forall st fs t, represents sch order h n st fs t -> represents sch order h' n st fs t.
Proof.
  intros Hh. induction n as [|n IH]; intros st fs t; [done|]. intros (tb & Ht & Hf).
  exists tb. split; [by eapply lookup_weaken|]. eapply Forall_impl; [exact Hf|]. intros f. by apply field_is_mono.
Qed.
End MONO.

Definition same_entries (tb ents : table) : Prop := tb ≡ₚ ents.

Section LUA.
Context (sch : list sproto_type) (Hsch : schema_ok sch) (m : list Z).

#[local] Abbreviation dec := (decode sch m).

(** [h] has become [h'], with the new tables [hs] in it. *)
Definition extends (h h' hs : heap) : Prop := h ⊆ h' /\ hs ⊆ h' /\ dom hs ## dom h.

(** The decoder at depth [n], where a source [src] of the value is known. *)
Definition struct_decoded (n : nat) : Prop := forall src st fs t0 p size h t main,
  type_ok st -> names_ok st -> represents sch eq src n st fs t0 ->
  placed m p (wire sch n st fs) -> Z.of_nat (length (wire sch n st fs)) <= size -> size < 2 ^ 31 -> h !! t = Some [] ->
  exists h' self', sproto_decode (dec n) m st p size (h, mk_decode None None t main LNil) =
      Ret (Z.of_nat (length (wire sch n st fs)), (h', self')) /\
    (forall k, field_of st main <> None -> scalar_key (assoc main fs) = Some k -> d_key self' = k) /\
    exists hs, represents sch same_entries hs n st fs t /\ extends (delete t h) h' hs.

Section DEPTH.
Context (n : nat) (IHn : struct_decoded n).

#[local] Abbreviation src_is src f v lv := (item_is sch (represents sch eq src n) f v lv).
#[local] Abbreviation new_is hs f v lv := (item_is sch (represents sch same_entries hs n) f v lv).
#[local] Abbreviation the_item f v := (item_of sch (contents sch n) f v).

Lemma handed_length it len v : handed m it len v -> 0 <= len.
Proof. destruct it; cbn; lia. Qed.

(** A struct becomes a new table. *)
Lemma decode_new src f fs lv p len h : src_is src f (VStruct fs) lv ->
  handed m (the_item f (VStruct fs)) len (DPtr p) -> len < 2 ^ 31 ->
  exists st, subtype sch (f_st f) = Ret st /\ subtype_of sch f = Some st /\ forall main,
  let '(t, h1) := lua_newtable h in
  exists h' self', sproto_decode (dec n) m st p len (h1, mk_decode None None t main LNil) = Ret (len, (h', self')) /\
    (forall k, field_of st main <> None -> scalar_key (assoc main fs) = Some k -> d_key self' = k) /\
    exists hs, represents sch same_entries hs n st fs t /\ extends h h' hs.
Proof.
  intros Hv Hh Hlen. destruct lv as [| | | | |t0|]; try done. destruct Hv as (He & st & Hs & Hr).
  cbn [item_of] in Hh. rewrite Hs in Hh. destruct Hh as (-> & q & [= ->] & Hp).
  exists st. split; [by unfold subtype; unfold subtype_of in Hs; rewrite Hs|]. split; [done|]. intros main. cbn [lua_newtable].
  destruct (subtype_ok sch Hsch f st Hs) as [Hok Hnm].
  set (t := fresh (dom h)). assert (Hfr : h !! t = None) by apply not_elem_of_dom, is_fresh.
  destruct (IHn src st fs t0 q (Z.of_nat (length (wire sch n st fs))) (<[t := []]> h) t main) as
    (h' & self' & Hd & Hk & hs & Hrep & Hext); try done; [apply lookup_insert_eq|].
  exists h', self'. split; [done|]. split; [done|]. exists hs. split; [done|].
  by rewrite delete_insert_id in Hext.
Qed.

Lemma extends_refl h : extends h h ∅.
Proof. split; [done|]. split; [apply map_empty_subseteq|]. rewrite dom_empty_L. set_solver. Qed.

(** A value on the stack, with what it needs in the heap. *)
Lemma decode_value src f v lv0 len i dv h self h1 self1 : src_is src f v lv0 ->
  handed m (the_item f v) len dv -> Z.of_nat (length (item_bytes (the_item f v))) < 2 ^ 31 -> f_key f < 0 ->
  new_array (field_arg f len i) h self = Ret (h1, self1) ->
  exists lv h2 hs, new_is hs f v lv /\ extends h1 h2 hs /\
    (forall k, scalar_key (Some v) = Some k -> lv = k) /\
    dec (S n) (field_arg f len i) dv (h, self) = store (field_arg f len i) lv h2 self1.
Proof.
  intros Hv Hh Hlen Hk Hna. destruct v as [z|b|s|fs|l], lv0; try done.
  - destruct Hv as (_ & Hz & He). destruct Hh as [_ ->]. exists (LInt z), h1, ∅.
    split; [done|]. split; [apply extends_refl|]. split; [by intros k [= <-]|].
    cbn [decode fst snd]. step_with Hna. cbn [a_type field_arg]. rewrite He. rewrite bool_decide_true by done.
    by rewrite i64_u64, i64_small.
  - destruct Hv as (_ & He). destruct Hh as [_ ->]. exists (LBool b), h1, ∅.
    split; [done|]. split; [apply extends_refl|]. split; [by intros k [= <-]|].
    cbn [decode fst snd]. step_with Hna. cbn [a_type field_arg]. rewrite He.
    rewrite bool_decide_false, (bool_decide_true (SPROTO_TBOOLEAN = SPROTO_TBOOLEAN)) by done. by destruct b.
  - destruct Hv as (_ & He). destruct Hh as (-> & p & -> & Hp). exists (LStr s), h1, ∅.
    split; [done|]. split; [apply extends_refl|]. split; [by intros k [= <-]|].
    cbn [decode fst snd]. step_with Hna. cbn [a_type field_arg a_length]. rewrite He.
    rewrite (bool_decide_true (SPROTO_TSTRING = SPROTO_TSTRING)) by done. by step_with (placed_read _ _ _ _ Hp).
  - pose proof Hv as (He & st0 & Hs0 & _). assert (Hdv : exists p, dv = DPtr p /\ len < 2 ^ 31).
    { cbn [item_of] in Hh, Hlen. rewrite Hs0 in Hh, Hlen. destruct Hh as (-> & p & -> & _). by exists p. }
    destruct Hdv as (p & -> & Hl). destruct (decode_new src f fs (LTable t) p len h1 Hv Hh Hl) as (st & Hst & Hs & Hd).
    specialize (Hd (-1)). unfold lua_newtable in Hd. destruct Hd as (h2 & self' & Hd & _ & hs & Hr & Hx).
    exists (LTable (fresh (dom h1))), h2, hs. split; [split; [done|by exists st]|]. split; [done|]. split; [done|].
    cbn [decode fst snd]. step_with Hna. cbn [a_type a_subtype a_mainindex a_length field_arg]. rewrite He.
    rewrite (bool_decide_false (SPROTO_TSTRUCT = SPROTO_TSTRING)), (bool_decide_true (SPROTO_TSTRUCT = SPROTO_TSTRUCT)) by done.
    unfold lua_newtable. step_with Hst. rewrite bool_decide_false by lia. step_with Hd.
    rewrite bool_decide_false by (pose proof (handed_length _ _ _ Hh); lia). done.
Qed.

(** An element of a map goes under its main index. *)
Lemma decode_entry src f v lv0 len i dv h self h1 self1 k : src_is src f v lv0 -> main_key sch f v = Some k ->
  handed m (the_item f v) len dv -> Z.of_nat (length (item_bytes (the_item f v))) < 2 ^ 31 -> 0 <= f_key f ->
  new_array (field_arg f len i) h self = Ret (h1, self1) ->
  exists lv h2 hs, new_is hs f v lv /\ extends h1 h2 hs /\
    dec (S n) (field_arg f len i) dv (h, self) =
      (a ← slot (d_array self1); h ← lua_rawset h2 a k lv; Ret (0, (h, self1))).
Proof.
  intros Hv Hmk Hh Hlen Hk Hna. destruct v as [z|b|s|fs|l]; try done. destruct lv0; try done.
  pose proof Hv as (He & st0 & Hs0 & _). assert (Hdv : exists p, dv = DPtr p /\ len < 2 ^ 31).
  { cbn [item_of] in Hh, Hlen. rewrite Hs0 in Hh, Hlen. destruct Hh as (-> & p & -> & _). by exists p. }
  destruct Hdv as (p & -> & Hl). destruct (decode_new src f fs (LTable t) p len h1 Hv Hh Hl) as (st & Hst & Hs & Hd).
  specialize (Hd (f_key f)). unfold lua_newtable in Hd. destruct Hd as (h2 & self' & Hd & Hkey & hs & Hr & Hx).
  assert (Hkk : d_key self' = k /\ k <> LNil).
  { unfold main_key in Hmk. rewrite Hs in Hmk. destruct (field_of st (f_key f)) eqn:Ef; [|done]. cbn in Hmk.
    split; [apply Hkey; [congruence|done]|]. by destruct (assoc (f_key f) fs) as [[]|]; try done; injection Hmk as <-. }
  destruct Hkk as [Hdk Hnil].
  exists (LTable (fresh (dom h1))), h2, hs. split; [split; [done|by exists st]|]. split; [done|].
  cbn [decode fst snd]. step_with Hna. cbn [a_type a_subtype a_mainindex a_length field_arg]. rewrite He.
  rewrite (bool_decide_false (SPROTO_TSTRUCT = SPROTO_TSTRING)), (bool_decide_true (SPROTO_TSTRUCT = SPROTO_TSTRUCT)) by done.
  unfold lua_newtable. step_with Hst. rewrite bool_decide_true by lia. step_with Hd.
  rewrite bool_decide_false by (pose proof (handed_length _ _ _ Hh); lia). rewrite Hdk. by rewrite decide_False.
Qed.

(** ** A table that is filled *)

Section STRUCT.
Context (src : heap) (st : sproto_type) (fs : list (Z * value)).
Context (Hok : type_ok st) (Hnm : names_ok st).
Context (Hsrc : forall f, f ∈ t_f st -> exists lv, field_is sch eq src (represents sch eq src n) f (assoc (f_tag f) fs) lv).
Context (h0 : heap) (t : nat) (main : Z).

Definition text (f : field) : lval := LStr (n_text (f_name f)).

(** The fields [past] are in the table [tb] at [t]; those of [todo] are not there yet. *)
Record filling (past todo : list field) (tb : table) (hd h : heap) (self : decode_ud) : Prop := {
  fl_table : h !! t = Some tb;
  fl_sub : hd ⊆ h;
  fl_apart : hd !! t = None;
  fl_new : dom hd ## dom (delete t h0);
  fl_frame : delete t h0 ⊆ h;
  fl_result : d_result self = t;
  fl_main : d_mainindex_tag self = main;
  fl_done : Forall (fun f => field_is sch same_entries hd (represents sch same_entries hd n) f
    (assoc (f_tag f) fs) (tget tb (text f))) past;
  fl_todo : Forall (fun f => tget tb (text f) = LNil /\ d_array_tag self <> Some (n_at (f_name f))) todo;
  fl_key : forall f k, f ∈ past -> f_tag f = main -> scalar_key (assoc main fs) = Some k -> d_key self = k
}.

(** The contents that come for the fields. *)
Fixpoint coming (todo : list field) : list (field * content) :=
  match todo with
  | [] => []
  | f :: todo =>
    match shown (content_of sch (contents sch n) f (assoc (f_tag f) fs)) with
    | Some c => (f, c) :: coming todo
    | None => coming todo
    end
  end.

Definition lua_awaits (cs : list (field * content)) (u : heap * decode_ud) : Prop :=
  exists past todo tb hd, t_f st = past ++ todo /\ cs = coming todo /\ filling past todo tb hd u.1 u.2.

(** A field without a content is done. *)
Lemma filling_skip past f todo tb hd h self : filling past (f :: todo) tb hd h self -> f ∈ t_f st ->
  shown (content_of sch (contents sch n) f (assoc (f_tag f) fs)) = None -> filling (past ++ [f]) todo tb hd h self.
Proof.
  intros [H1 H2 H3 H4 H5 H6 H7 H8 [[Hn _] H9]%Forall_cons H10] Hin Hs. split; try done.
  - apply Forall_app. split; [done|]. constructor; [|done]. rewrite Hn.
    destruct (Hsrc f Hin) as [lv Hf]. destruct (assoc (f_tag f) fs) as [[z|b|s|fs'|l]|]; try done.
    destruct Hf as [Ha _]. split; [done|]. left. by destruct l.
  - intros g k [Hg| ->%list_elem_of_singleton]%elem_of_app Ht Hk; [by eapply H10|].
    rewrite Ht in Hs. by destruct (assoc main fs) as [[]|].
Qed.

(** The next content is that of the next field that has one. *)
Lemma awaits_head f c cs h self : lua_awaits ((f, c) :: cs) (h, self) ->
  exists past todo tb hd, t_f st = past ++ f :: todo /\ cs = coming todo /\ filling past (f :: todo) tb hd h self /\
    shown (content_of sch (contents sch n) f (assoc (f_tag f) fs)) = Some c.
Proof.
  intros (past & todo & tb & hd & Hd & Hc & Hf). revert past Hd Hf Hc. induction todo as [|g todo IH]; intros past Hd Hf Hc; [done|].
  cbn [coming] in Hc.
  destruct (shown (content_of sch (contents sch n) g (assoc (f_tag g) fs))) as [c'|] eqn:Es.
  - injection Hc as -> -> ->. exists past, todo, tb, hd. done.
  - apply (IH (past ++ [g])); [by rewrite <- app_assoc| |done]. eapply filling_skip; [done| |done].
    rewrite Hd. set_solver.
Qed.

(** New tables are complete. *)
Lemma filling_extend past todo tb hd h self h2 hs : filling past todo tb hd h self -> extends h h2 hs ->
  filling past todo tb (hd ∪ hs) h2 self /\ hs ⊆ hd ∪ hs.
Proof.
  intros [H1 H2 H3 H4 H5 H6 H7 H8 H9 H10] (Hh & Hs & Hn).
  assert (Hd : hd ##ₘ hs). { apply map_disjoint_dom. apply subseteq_dom in H2. set_solver. }
  split; [|by apply map_union_subseteq_r]. split; try done.
  - by eapply lookup_weaken.
  - apply map_union_least; [by etrans|done].
  - apply lookup_union_None. split; [done|]. apply not_elem_of_dom. apply elem_of_dom_2 in H1. set_solver.
  - rewrite dom_union_L. apply subseteq_dom in H5. set_solver.
  - by etrans.
  - eapply Forall_impl; [exact H8|]. intros f. apply field_is_mono.
    + apply represents_mono. apply map_union_subseteq_l.
    + apply map_union_subseteq_l.
Qed.

Lemma filling_tail past f todo tb hd h self : filling past (f :: todo) tb hd h self -> filling past todo tb hd h self.
Proof. intros [H1 H2 H3 H4 H5 H6 H7 H8 [_ H9]%Forall_cons H10]. by split. Qed.

(** A write to the table that is filled. *)
Lemma filling_write past todo tb hd h self tb' : filling past todo tb hd h self ->
  Forall (fun f => tget tb' (text f) = tget tb (text f)) (past ++ todo) -> filling past todo tb' hd (<[t := tb']> h) self.
Proof.
  intros [H1 H2 H3 H4 H5 H6 H7 H8 H9 H10] [Hd Ht]%Forall_app. split; try done.
  - apply lookup_insert_eq.
  - by apply insert_subseteq_r.
  - apply insert_subseteq_r; [apply lookup_delete_eq|done].
  - clear H9 Ht H10. induction H8; constructor; apply Forall_cons in Hd as [Hd Hds]; [by rewrite Hd|auto].
  - clear H8 Hd H10. induction H9; constructor; apply Forall_cons in Ht as [Ht Hts]; [by rewrite Ht|auto].
Qed.

(** ** Scalar fields *)

Lemma names_apart past f todo : t_f st = past ++ f :: todo ->
  Forall (fun g => text g <> text f) (past ++ todo) /\ Forall (fun g => n_at (f_name g) <> n_at (f_name f)) todo.
Proof.
  intros E. destruct Hnm as (H1 & H2 & _). rewrite E in H1, H2. rewrite fmap_app, fmap_cons in H1. rewrite fmap_app, fmap_cons in H2.
  apply NoDup_middle in H2 as [H2 _]. apply NoDup_middle in H1 as [H1 _]. rewrite <- fmap_app in H2. split.
  - apply Forall_forall. intros g Hg [= Ht]. apply H2. apply list_elem_of_fmap. by exists g.
  - apply Forall_forall. intros g Hg Ht. apply H1, elem_of_app. right. apply list_elem_of_fmap. by exists g.
Qed.

Lemma filling_field past f todo tb hd h self lv self' : filling past (f :: todo) tb hd h self ->
  t_f st = past ++ f :: todo ->
  field_is sch same_entries hd (represents sch same_entries hd n) f (assoc (f_tag f) fs) lv ->
  d_result self' = d_result self -> d_mainindex_tag self' = d_mainindex_tag self -> d_array_tag self' = d_array_tag self ->
  (forall k, f_tag f = main -> scalar_key (assoc main fs) = Some k -> d_key self' = k) ->
  (f_tag f <> main -> d_key self' = d_key self) ->
  filling (past ++ [f]) todo (tset tb (text f) lv) hd (<[t := tset tb (text f) lv]> h) self'.
Proof.
  intros Hf E Hlv Hr Hm Ht Hk1 Hk2. destruct (names_apart _ _ _ E) as [Hne _].
  assert (Hsame : Forall (fun g => tget (tset tb (text f) lv) (text g) = tget tb (text g)) (past ++ todo)).
  { eapply Forall_impl; [exact Hne|]. intros g Hg. by apply tget_tset_ne. }
  apply filling_tail in Hf as Hf'. apply (filling_write _ _ _ _ _ _ (tset tb (text f) lv)) in Hf'; [|done].
  destruct Hf' as [H1 H2 H3 H4 H5 H6 H7 H8 H9 H10]. split; try done.
  - by rewrite Hr.
  - by rewrite Hm.
  - apply Forall_app. split; [done|]. constructor; [|done]. by rewrite tget_tset.
  - by rewrite Ht.
  - intros g k Hg Hgt Hk. destruct (decide (f_tag f = main)) as [Hfm|Hfm]; [by apply Hk1|].
    rewrite Hk2 by done. apply elem_of_app in Hg as [Hg| ->%list_elem_of_singleton]; [|done]. by eapply H10.
Qed.

Lemma lua_awaits_one f it cs u len v : lua_awaits ((f, One it) :: cs) u -> content_ok f (One it) -> handed m it len v ->
  Z.of_nat (length (item_bytes it)) < 2 ^ 31 ->
  exists r u', dec (S n) (field_arg f len 0) v u = Ret (r, u') /\ (is_object it -> r = 0) /\ lua_awaits cs u'.
Proof.
  destruct u as [h self]. intros Hu Hc Hh Hlen.
  destruct (awaits_head f _ cs h self Hu) as (past & todo & tb & hd & E & -> & Hf & Hs).
  assert (Hin : f ∈ t_f st) by (rewrite E; set_solver).
  assert (Hs' : content_of sch (contents sch n) f (assoc (f_tag f) fs) = Some (One it)).
  { destruct (content_of _ _ _ _) as [[|[]]|]; try done. }
  apply content_one in Hs' as (w & Hw & -> & Hnl). destruct (Hsrc f Hin) as [lv0 Hf0]. rewrite Hw in Hf0.
  assert (Hw0 : is_array f = false /\ src_is src f w lv0) by (by destruct w). destruct Hw0 as [Ha Hw0].
  assert (Hkey : f_key f < 0).
  { destruct Hnm as (_ & _ & Hk). rewrite Forall_forall in Hk. by apply Hk. }
  destruct (decode_value src f w lv0 len 0 v h self h self Hw0 Hh Hlen Hkey) as (lv & h2 & hs & Hlv & Hx & Hk & Hd); [done|].
  rewrite Hd. unfold store. rewrite bool_decide_false by (cbn; lia). cbn [a_tagid a_tagname field_arg].
  apply (filling_extend _ _ _ _ _ _ h2 hs) in Hf as [Hf Hsub]; [|done].
  set (self' := if bool_decide (d_mainindex_tag self = f_tag f) then _ else self).
  unfold lua_rawset, table_at. assert (Hr : d_result self' = t).
  { unfold self'. case_bool_decide; apply (fl_result _ _ _ _ _ _ Hf). }
  rewrite Hr, (fl_table _ _ _ _ _ _ Hf), bind_Ret. cbn [mbind outcome_bind]. eexists 0, _. split; [done|]. split; [done|].
  exists (past ++ [f]), todo, (tset tb (text f) lv), (hd ∪ hs). split; [by rewrite <- app_assoc|]. split; [done|].
  pose proof (fl_main _ _ _ _ _ _ Hf) as Hm. cbn [fst snd].
  apply (filling_field _ _ _ _ _ _ self); try done.
  - rewrite Hw. assert (Hi : new_is (hd ∪ hs) f w lv).
    { eapply item_is_mono; [|exact Hlv]. by apply represents_mono. }
    by destruct w.
  - unfold self'. by case_bool_decide.
  - unfold self'. by case_bool_decide.
  - unfold self'. by case_bool_decide.
  - intros k Hft Hsk. unfold self'. rewrite bool_decide_true by congruence. cbn [d_key]. apply Hk. congruence.
  - intros Hft. unfold self'. rewrite bool_decide_false by congruence. done.
Qed.

(** ** Arrays *)

(** The elements [pre] are in the table of the array. *)
Definition part (f : field) (pre : list value) (tba : table) (hd : heap) : Prop :=
  if decide (0 <= f_key f) then Forall2 (fun v e => new_is hd f v e.2 /\ main_key sch f v = Some e.1) pre tba
  else (forall i v, pre !! i = Some v -> new_is hd f v (tget tba (LInt (Z.of_nat i + 1)))) /\
    (forall x, Z.of_nat (length pre) < x -> tget tba (LInt x) = LNil).

Record opened (past : list field) (f : field) (todo : list field) (pre : list value) (tb : table) (a : nat) (tba : table)
    (hd h : heap) (self : decode_ud) : Prop := {
  op_fill : filling past todo tb hd h self;
  op_name : tget tb (text f) = LTable a;
  op_tag : d_array_tag self = Some (n_at (f_name f));
  op_array : d_array self = Some a;
  op_at : h !! a = Some tba;
  op_ne : a <> t;
  op_new : delete t h0 !! a = None;
  op_apart : hd !! a = None;
  op_part : part f pre tba hd
}.

(** The next call with index [i] finds the array [f] open, or opens it. *)
Definition lua_within (f : field) (i : Z) (l : list item) (cs : list (field * content)) (u : heap * decode_ud) : Prop :=
  exists h1 self1 past todo pre vs tb a tba hd, t_f st = past ++ f :: todo /\ cs = coming todo /\
    assoc (f_tag f) fs = Some (VList (pre ++ vs)) /\ l = (fun v => the_item f v) <$> vs /\ i = Z.of_nat (length pre) + 1 /\
    (forall len, new_array (field_arg f len i) u.1 u.2 = Ret (h1, self1)) /\
    opened past f todo pre tb a tba hd h1 self1 /\ (vs = [] -> (h1, self1) = u).

Lemma part_empty f hd : part f [] [] hd.
Proof. unfold part. case_decide; [constructor|]. by split; [intros i v Hi|]. Qed.

Lemma part_mono f pre tba hd hd' : hd ⊆ hd' -> part f pre tba hd -> part f pre tba hd'.
Proof.
  intros Hs. unfold part. assert (Hm : forall v lv, new_is hd f v lv -> new_is hd' f v lv).
  { intros v lv. apply item_is_mono. by apply represents_mono. }
  case_decide.
  - intros Hf. eapply Forall2_impl; [exact Hf|]. intros v e [? ?]. auto.
  - intros [Hi Hn]. split; [|done]. eauto.
Qed.

Lemma open_first past f todo tb hd h self len : filling past (f :: todo) tb hd h self -> t_f st = past ++ f :: todo ->
  let a := fresh (dom h) in let tb1 := tset tb (text f) (LTable a) in
  let h1 := <[t := tb1]> (<[a := []]> h) in
  let self1 := mk_decode (Some (n_at (f_name f))) (Some a) (d_result self) (d_mainindex_tag self) (d_key self) in
  new_array (field_arg f len 1) h self = Ret (h1, self1) /\ opened past f todo [] tb1 a [] hd h1 self1.
Proof.
  intros Hf E a tb1 h1 self1. assert (Ha : h !! a = None) by apply not_elem_of_dom, is_fresh.
  pose proof (fl_table _ _ _ _ _ _ Hf) as Ht. assert (Hat : a <> t) by congruence.
  destruct (proj1 (Forall_cons _ _ _) (fl_todo _ _ _ _ _ _ Hf)) as [[_ Htag] _]. split.
  - unfold new_array. cbn [a_index a_tagname field_arg]. rewrite (bool_decide_true (1 > 0)), bool_decide_true by (done || congruence).
    cbn [andb lua_newtable]. unfold lua_rawset, table_at. rewrite (fl_result _ _ _ _ _ _ Hf).
    fold a. rewrite lookup_insert_ne by done. rewrite Ht. cbn [mbind outcome_bind].
    unfold self1. by rewrite (fl_result _ _ _ _ _ _ Hf).
  - destruct (names_apart _ _ _ E) as [Hne Hadr]. destruct Hf as [H1 H2 H3 H4 H5 H6 H7 H8 [_ H9]%Forall_cons H10].
    split; try done.
    + assert (Hsame : Forall (fun g => tget tb1 (text g) = tget tb (text g)) (past ++ todo)).
      { eapply Forall_impl; [exact Hne|]. intros g Hg. by apply tget_tset_ne. }
      apply (filling_write _ _ tb _ (<[a := []]> h)); [|done]. split; try done.
      * by rewrite lookup_insert_ne.
      * etrans; [exact H2|]. by apply insert_subseteq.
      * etrans; [exact H5|]. by apply insert_subseteq.
      * clear - H9 Hadr. induction H9 as [|g todo [Hg _] _ IH]; constructor; apply Forall_cons in Hadr as [Hg' Hadr].
        -- split; [done|]. cbn. congruence.
        -- auto.
    + unfold tb1; by rewrite tget_tset.
    + unfold h1. rewrite lookup_insert_ne by done. apply lookup_insert_eq.
    + destruct (delete t h0 !! a) eqn:Ed; [|done]. by rewrite (lookup_weaken _ _ _ _ Ed H5) in Ha.
    + destruct (hd !! a) eqn:Ed; [|done]. by rewrite (lookup_weaken _ _ _ _ Ed H2) in Ha.
    + apply part_empty.
Qed.

(** What the source says of the elements of an array. *)
Lemma source_list f l : f ∈ t_f st -> assoc (f_tag f) fs = Some (VList l) -> is_array f = true /\
  Forall (fun v => exists lv, src_is src f v lv) l /\
  (0 <= f_key f -> exists ks, NoDup ks /\ Forall2 (fun v k => main_key sch f v = Some k) l ks).
Proof.
  intros Hin Hl. destruct (Hsrc f Hin) as [lv Hf]. rewrite Hl in Hf. destruct Hf as [Ha Hf]. split; [done|].
  destruct Hf as [[-> _]|(a & tb & _ & _ & Hli)].
  - split; [done|]. intros _. exists []. by split; [apply NoDup_nil_2|].
  - split; [by eapply list_items|]. intros Hk. unfold list_is in Hli. rewrite decide_True in Hli by done.
    destruct Hli as (ents & -> & Hn & Hfe). exists ents.*1. split; [done|]. clear Hn Hl.
    induction Hfe as [|v e l' ents [_ Hv] _ IH]; [constructor|]. cbn. by constructor.
Qed.

(** The keys of the elements that are in the table. *)
Lemma part_keys f pre tba hd : 0 <= f_key f -> part f pre tba hd -> Forall2 (fun v k => main_key sch f v = Some k) pre tba.*1.
Proof.
  intros Hk. unfold part. rewrite decide_True by done. induction 1 as [|v e pre' tba' [_ Hv] _ IH]; [constructor|]. cbn. by constructor.
Qed.

Lemma keys_unique f l ks ks' : Forall2 (fun v k => main_key sch f v = Some k) l ks ->
  Forall2 (fun v k => main_key sch f v = Some k) l ks' -> ks = ks'.
Proof.
  intros H1. revert ks'. induction H1 as [|v k l ks Hk _ IH]; intros ks' H2; inversion H2; subst; [done|].
  f_equal; [congruence|auto].
Qed.

Lemma part_snoc_seq f pre v tba lv hd : f_key f < 0 -> part f pre tba hd -> new_is hd f v lv ->
  part f (pre ++ [v]) (tset tba (LInt (Z.of_nat (length pre) + 1)) lv) hd.
Proof.
  intros Hk Hp Hv. unfold part in *. rewrite decide_False in * by lia. destruct Hp as [Hi Hn]. split.
  - intros j w [Hj|[Hj Hw]]%lookup_app_Some.
    + rewrite tget_tset_ne; [by apply Hi|]. apply lookup_lt_Some in Hj. intros [= E]. lia.
    + apply list_lookup_singleton_Some in Hw as [Hj0 <-]. replace (Z.of_nat j + 1) with (Z.of_nat (length pre) + 1) by lia.
      by rewrite tget_tset.
  - intros x Hx. rewrite length_app in Hx. cbn in Hx. rewrite tget_tset_ne; [apply Hn; lia|]. intros [= E]. lia.
Qed.

Lemma part_snoc_map f pre v vs tba lv k hd : 0 <= f_key f -> part f pre tba hd -> new_is hd f v lv ->
  main_key sch f v = Some k ->
  (exists ks, NoDup ks /\ Forall2 (fun v k => main_key sch f v = Some k) (pre ++ v :: vs) ks) ->
  part f (pre ++ [v]) (tset tba k lv) hd.
Proof.
  intros Hk Hp Hv Hmk (ks & Hn & Hks). pose proof (part_keys _ _ _ _ Hk Hp) as Hpk.
  apply Forall2_app_inv_l in Hks as (ks1 & ks2 & H1 & H2 & ->). pose proof (keys_unique _ _ _ _ Hpk H1) as Eks.
  apply Forall2_cons_inv_l in H2 as (k' & ks3 & Hk' & _ & ->). rewrite Hmk in Hk'. injection Hk' as <-.
  assert (Hnin : k ∉ tba.*1).
  { rewrite Eks. apply NoDup_middle in Hn as [Hn _]. set_solver. }
  rewrite tset_new by done. unfold part in *. rewrite decide_True in * by done. apply Forall2_app; [done|]. by constructor.
Qed.

(** An element goes into the table of the array. *)
Lemma opened_put past f todo pre v tb a tba hd h self h2 hs tba' :
  opened past f todo pre tb a tba hd h self -> extends h h2 hs -> part f (pre ++ [v]) tba' (hd ∪ hs) ->
  opened past f todo (pre ++ [v]) tb a tba' (hd ∪ hs) (<[a := tba']> h2) self.
Proof.
  intros [H1 H2 H3 H4 H5 H6 H7 H8 H9] Hx Hp. pose proof Hx as (Hh & Hs & Hn).
  destruct (filling_extend _ _ _ _ _ _ _ _ H1 Hx) as [Hf _].
  assert (Hhs : hs !! a = None). { apply not_elem_of_dom. apply elem_of_dom_2 in H5. set_solver. }
  split; try done.
  - destruct Hf as [F1 F2 F3 F4 F5 F6 F7 F8 F9 F10]. split; try done.
    + by rewrite lookup_insert_ne.
    + apply insert_subseteq_r; [|done]. by apply lookup_union_None.
    + by apply insert_subseteq_r.
  - apply lookup_insert_eq.
  - by apply lookup_union_None.
Qed.

(** The array is complete. *)
Lemma opened_close past f todo l tb a tba hd h self : opened past f todo l tb a tba hd h self ->
  f ∈ t_f st -> assoc (f_tag f) fs = Some (VList l) -> filling (past ++ [f]) todo tb (<[a := tba]> hd) h self.
Proof.
  intros [[F1 F2 F3 F4 F5 F6 F7 F8 F9 F10] H2 H3 H4 H5 H6 H7 H8 H9] Hin Hl.
  assert (Hsub : hd ⊆ <[a := tba]> hd) by by apply insert_subseteq. split; try done.
  - by apply insert_subseteq_l.
  - by rewrite lookup_insert_ne.
  - rewrite dom_insert_L. apply not_elem_of_dom in H7. set_solver.
  - apply Forall_app. split.
    + eapply Forall_impl; [exact F8|]. intros g. apply field_is_mono; [|done]. by apply represents_mono.
    + constructor; [|done]. rewrite Hl, H2. destruct (source_list f l Hin Hl) as (Ha & _ & Hks). split; [done|]. right.
      exists a, tba. split; [done|]. split; [apply lookup_insert_eq|]. pose proof (part_mono _ _ _ _ _ Hsub H9) as Hp.
      unfold list_is. unfold part in Hp. case_decide as Hk.
      * exists tba. split; [done|]. split; [|exact Hp]. destruct (Hks Hk) as (ks & Hn & Hf).
        by rewrite (keys_unique _ _ _ _ (part_keys _ _ _ _ Hk H9) Hf).
      * destruct Hp as [Hi Hn]. split; [done|]. apply Hn. lia.
  - intros g k [Hg| ->%list_elem_of_singleton]%elem_of_app Hgt Hk; [by eapply F10|]. by rewrite <- Hgt, Hl in Hk.
Qed.

(** ** The contract *)

Lemma lua_awaits_many f l cs u : lua_awaits ((f, Many l) :: cs) u -> l <> [] -> lua_within f 1 l cs u.
Proof.
  destruct u as [h self]. intros Hu Hl.
  destruct (awaits_head f _ cs h self Hu) as (past & todo & tb & hd & E & -> & Hf & Hs).
  assert (Hs' : content_of sch (contents sch n) f (assoc (f_tag f) fs) = Some (Many l)).
  { destruct (content_of _ _ _ _) as [[|[]]|]; try done. }
  apply content_many in Hs' as (vs & -> & [Hw|[-> _]]); [|done].
  pose proof (fun len => open_first past f todo tb hd h self len Hf E) as Ho. cbv zeta in Ho.
  do 2 eexists. exists past, todo, [], vs. do 2 eexists. exists [], hd. split; [exact E|]. split; [done|]. split; [exact Hw|]. split; [done|].
  split; [done|]. split; [intros len; apply (proj1 (Ho len))|]. split; [apply (proj2 (Ho 0))|].
  intros ->. by destruct Hl.
Qed.

Lemma opened_again past f todo pre tb a tba hd h self len i :
  opened past f todo pre tb a tba hd h self -> new_array (field_arg f len i) h self = Ret (h, self).
Proof.
  intros Ho. unfold new_array. cbn [a_tagname field_arg]. rewrite (op_tag _ _ _ _ _ _ _ _ _ _ Ho).
  rewrite (bool_decide_false (Some (n_at (f_name f)) <> Some (n_at (f_name f)))) by congruence. by rewrite andb_false_r.
Qed.

Lemma lua_within_next f i it l cs u len v : lua_within f i (it :: l) cs u -> handed m it len v ->
  Z.of_nat (length (item_bytes it)) < 2 ^ 31 ->
  exists r u', dec (S n) (field_arg f len i) v u = Ret (r, u') /\ (is_object it -> r = 0) /\ lua_within f (i + 1) l cs u'.
Proof.
  destruct u as [h self]. intros (h1 & self1 & past & todo & pre & vs & tb & a & tba & hd & E & -> & Hl & Hvs & -> & Hna & Ho & _) Hh Hlen.
  destruct vs as [|w vs]; [done|]. injection Hvs as -> ->. assert (Hin : f ∈ t_f st) by (rewrite E; set_solver).
  destruct (source_list f _ Hin Hl) as (Ha & Hall & Hks). apply Forall_app in Hall as [_ [[lv0 Hw] _]%Forall_cons].
  assert (Hput : exists lv k h2 hs, new_is hs f w lv /\ extends h1 h2 hs /\
    dec (S n) (field_arg f len (Z.of_nat (length pre) + 1)) v (h, self) =
      Ret (0, (<[a := tset tba k lv]> h2, self1)) /\ part f (pre ++ [w]) (tset tba k lv) (hd ∪ hs)).
  { destruct (decide (0 <= f_key f)) as [Hk|Hk].
    - destruct (Hks Hk) as (ks & Hn & Hf). apply Forall2_app_inv_l in Hf as Hf'.
      destruct Hf' as (ks1 & ks2 & _ & H2 & _). apply Forall2_cons_inv_l in H2 as (k & _ & Hmk & _ & _).
      destruct (decode_entry src f w lv0 len _ v h self h1 self1 k Hw Hmk Hh Hlen Hk (Hna len)) as (lv & h2 & hs & Hlv & Hx & Hd).
      destruct (filling_extend _ _ _ _ _ _ _ _ (op_fill _ _ _ _ _ _ _ _ _ _ Ho) Hx) as [_ Hsub].
      exists lv, k, h2, hs. split; [done|]. split; [done|]. split.
      + rewrite Hd, (op_array _ _ _ _ _ _ _ _ _ _ Ho). cbn [slot]. rewrite bind_Ret. unfold lua_rawset, table_at.
        by rewrite (lookup_weaken _ _ _ _ (op_at _ _ _ _ _ _ _ _ _ _ Ho) (proj1 Hx)).
      + apply (part_snoc_map f pre w vs); [done| | |done|by exists ks].
        * eapply part_mono; [|apply (op_part _ _ _ _ _ _ _ _ _ _ Ho)]. apply map_union_subseteq_l.
        * eapply item_is_mono; [|exact Hlv]. by apply represents_mono.
    - destruct (decode_value src f w lv0 len (Z.of_nat (length pre) + 1) v h self h1 self1 Hw Hh Hlen ltac:(lia) (Hna len))
        as (lv & h2 & hs & Hlv & Hx & _ & Hd).
      destruct (filling_extend _ _ _ _ _ _ _ _ (op_fill _ _ _ _ _ _ _ _ _ _ Ho) Hx) as [_ Hsub].
      exists lv, (LInt (Z.of_nat (length pre) + 1)), h2, hs. split; [done|]. split; [done|]. split.
      + rewrite Hd. unfold store. rewrite bool_decide_true by (cbn; lia). rewrite (op_array _ _ _ _ _ _ _ _ _ _ Ho).
        cbn [slot]. rewrite bind_Ret. unfold lua_rawset, table_at.
        by rewrite (lookup_weaken _ _ _ _ (op_at _ _ _ _ _ _ _ _ _ _ Ho) (proj1 Hx)).
      + apply part_snoc_seq; [lia| |].
        * eapply part_mono; [|apply (op_part _ _ _ _ _ _ _ _ _ _ Ho)]. apply map_union_subseteq_l.
        * eapply item_is_mono; [|exact Hlv]. by apply represents_mono. }
  destruct Hput as (lv & k & h2 & hs & Hlv & Hx & Hd & Hp). eexists 0, _. split; [exact Hd|]. split; [done|].
  pose proof (opened_put _ _ _ _ w _ _ _ _ _ _ _ _ _ Ho Hx Hp) as Ho'.
  exists (<[a := tset tba k lv]> h2), self1, past, todo, (pre ++ [w]), vs, tb, a, (tset tba k lv), (hd ∪ hs).
  split; [done|]. split; [done|]. split; [by rewrite <- app_assoc|]. split; [done|]. split; [len_lia|].
  split; [intros len'; by eapply opened_again|]. split; [done|]. done.
Qed.

Lemma lua_within_last f i cs u : lua_within f i [] cs u -> lua_awaits cs u.
Proof.
  destruct u as [h self]. intros (h1 & self1 & past & todo & pre & vs & tb & a & tba & hd & E & -> & Hl & Hvs & _ & _ & Ho & Hlast).
  destruct vs; [|done]. injection (Hlast eq_refl) as -> ->. rewrite app_nil_r in Hl.
  exists (past ++ [f]), todo, tb, (<[a := tba]> hd). split; [by rewrite <- app_assoc|]. split; [done|].
  apply (opened_close _ _ _ _ _ _ _ _ _ _ Ho); [|done]. rewrite E. set_solver.
Qed.

#[local] Instance lua_decode_callback : DecodeCallback m (dec (S n)).
Proof.
  refine {| awaits := lua_awaits; within := lua_within |}.
  - intros f it cs u len v. apply lua_awaits_one.
  - intros f l cs u Hu _. by apply lua_awaits_many.
  - intros f i it l cs u len v Hu _. by apply lua_within_next.
  - intros f i cs u. apply lua_within_last.
Defined.

(** The fields of the message are those that the table waits for. *)
Lemma known_contents : forall todo past, t_f st = past ++ todo ->
  known st (present ((fun f => (f, content_of sch (contents sch n) f (assoc (f_tag f) fs))) <$> todo)) = coming todo.
Proof.
  induction todo as [|f todo IH]; intros past E; [done|]. specialize (IH (past ++ [f])). rewrite <- app_assoc in IH.
  specialize (IH E). rewrite fmap_cons. cbn [present coming].
  destruct (shown _) as [c|]; [|exact IH]. cbn [app known].
  assert (Hfo : field_of st (f_tag f) = Some f).
  { unfold field_of. apply (find_at f_tag _ (-1) (ok_tags _ Hok) (length past)); [|done]. by rewrite E, list_lookup_middle. }
  rewrite Hfo. cbn [app]. by rewrite IH.
Qed.

Lemma struct_read t0 p size h self : h !! t = Some [] -> h = h0 -> self = mk_decode None None t main LNil ->
  represents sch eq src (S n) st fs t0 ->
  placed m p (wire sch (S n) st fs) -> Z.of_nat (length (wire sch (S n) st fs)) <= size -> size < 2 ^ 31 ->
  exists u', sproto_decode (dec (S n)) m st p size (h, self) = Ret (Z.of_nat (length (wire sch (S n) st fs)), u') /\
    lua_awaits [] u'.
Proof.
  intros Ht -> -> Hrep Hp Hsz Hlt. unfold wire in *.
  pose proof (contents_fields sch n st fs) as Hfs. pose proof (contents_ok sch Hsch eq src (S n) st fs t0 Hrep) as Hoff.
  destruct (sproto_decode_awaits m (dec (S n)) st (present (contents sch (S n) st fs)) p size
    (h0, mk_decode None None t main LNil)) as (u' & He & Hu'); try done.
  - cbn [contents]. rewrite (known_contents (t_f st) []) by done. exists [], (t_f st), [], ∅.
    split; [done|]. split; [done|]. split; try done; cbn [fst snd].
    + apply map_empty_subseteq.
    + apply delete_subseteq.
    + by apply Forall_forall.
    + intros f k Hf. by apply not_elem_of_nil in Hf.
  - apply present_fits; [done|by rewrite Hfs|done].
  - apply (present_ascending _ (-1)); [by rewrite Hfs; apply (ok_tags _ Hok)|lia].
  - by exists u'.
Qed.

(** When nothing is to come, every field is done. *)
Lemma awaits_nothing u : lua_awaits [] u -> exists tb hd, filling (t_f st) [] tb hd u.1 u.2.
Proof.
  intros (past & todo & tb & hd & E & Hc & Hf). revert past E Hf. induction todo as [|f todo IH]; intros past E Hf.
  - rewrite app_nil_r in E. subst past. by exists tb, hd.
  - cbn [coming] in Hc. destruct (shown _) as [c|] eqn:Es; [done|].
    apply (IH Hc (past ++ [f])); [by rewrite <- app_assoc|]. eapply filling_skip; [done| |done]. rewrite E. set_solver.
Qed.

(** A table whose fields are done stands for the struct. *)
Lemma filling_represents tb hd h self : filling (t_f st) [] tb hd h self ->
  represents sch same_entries (<[t := tb]> hd) (S n) st fs t /\ extends (delete t h0) h (<[t := tb]> hd).
Proof.
  intros [F1 F2 F3 F4 F5 F6 F7 F8 F9 F10]. assert (Hsub : hd ⊆ <[t := tb]> hd) by by apply insert_subseteq. split.
  - exists tb. split; [apply lookup_insert_eq|]. eapply Forall_impl; [exact F8|]. intros f.
    apply field_is_mono; [|done]. by apply represents_mono.
  - split; [done|]. split; [by apply insert_subseteq_l|]. rewrite dom_insert_L.
    assert (t ∉ dom (delete t h0)) by (rewrite dom_delete_L; set_solver). set_solver.
Qed.
End STRUCT.

Lemma struct_decoded_S : struct_decoded (S n).
Proof.
  intros src st fs t0 p size h t main Hok Hnm Hr Hp Hsz Hlt Ht.
  assert (Hsrc : forall f, f ∈ t_f st -> exists lv, field_is sch eq src (represents sch eq src n) f (assoc (f_tag f) fs) lv).
  { destruct Hr as (tb & _ & Hf). rewrite Forall_forall in Hf. intros f Hin. eexists. by apply Hf. }
  destruct (struct_read src st fs Hok Hnm Hsrc h t main t0 p size h (mk_decode None None t main LNil)) as ([h' self'] & Hd & Hu);
    try done.
  exists h', self'. split; [done|]. destruct (awaits_nothing src st fs Hok Hnm Hsrc h t main _ Hu) as (tb & hd & Hf). cbn [fst snd] in Hf. split.
  - intros k Hm Hk. destruct (field_of st main) as [f|] eqn:Ef; [|done]. apply find_in in Ef as [Hin Htag].
    by apply (fl_key _ _ _ _ _ _ _ _ _ _ Hf f).
  - exists (<[t := tb]> hd). by apply (filling_represents src st fs Hok Hnm Hsrc) in Hf.
Qed.
End DEPTH.

Lemma struct_decoded_all n : struct_decoded n.
Proof. induction n as [|n IH]; [by intros ? ? ? ? ? ? ? ? ? _ _ []|by apply struct_decoded_S]. Qed.
End LUA.
