(* ===== verification/SprotoRound.v ===== *)
(** * Sproto messages, from end to end

    The encoder and the decoder of Lua tables undo each other; the decoder tells any
    callback the contents that its type knows; the search for a tag is exact; and the
    encoder of integers leaves a buffer that is too small. *)
From stdpp Require Import base list gmap numbers strings.
From Stdlib Require Import ZArith Lia.
From S2P Require Import Prelude SprotoPack SprotoCode SprotoLua SprotoWire SprotoEncode SprotoDecode SprotoValue SprotoLuaEncode SprotoLuaDecode.

Local Open Scope Z_scope.

(** ** A callback that keeps a log *)

Definition log_call (args : sproto_arg) (v : dvalue) (u : list (sproto_arg * dvalue))
  : outcome (Z * list (sproto_arg * dvalue)) := Ret (0, u ++ [(args, v)]).

(** The calls for the elements of a content, in order. *)
Definition told_item (m : list Z) (f : field) (i : Z) (it : item) (call : sproto_arg * dvalue) : Prop :=
  exists len v, call = (field_arg f len i, v) /\ handed m it len v.

Definition told_items (m : list Z) (f : field) (l : list item) (calls : list (sproto_arg * dvalue)) : Prop :=
  Forall2 (fun p call => told_item m f (Z.of_nat p.1 + 1) p.2 call) (zip (seq 0 (length l)) l) calls.

Definition told_content (m : list Z) (p : field * content) (calls : list (sproto_arg * dvalue)) : Prop :=
  match p.2 with
  | One it => exists call, calls = [call] /\ told_item m p.1 0 it call
  | Many l => told_items m p.1 l calls
  end.

Definition told (m : list Z) (cs : list (field * content)) (calls : list (sproto_arg * dvalue)) : Prop :=
  exists parts, calls = concat parts /\ Forall2 (told_content m) cs parts.

Lemma told_snoc m cs c calls part : told m cs calls -> told_content m c part -> told m (cs ++ [c]) (calls ++ part).
Proof.
  intros (parts & -> & Hf) Hc. exists (parts ++ [part]). rewrite concat_app. cbn [concat]. rewrite app_nil_r.
  split; [done|]. apply Forall2_app; [done|]. by constructor.
Qed.

Lemma told_items_snoc m f l it calls call : told_items m f l calls -> told_item m f (Z.of_nat (length l) + 1) it call ->
  told_items m f (l ++ [it]) (calls ++ [call]).
Proof.
  intros Hf Hc. unfold told_items. rewrite length_app, Nat.add_1_r, seq_S.
  rewrite zip_with_app by by rewrite length_seq. apply Forall2_app; [done|]. constructor; [|constructor]. done.
Qed.

Section LOG.
Context (m : list Z) (total : list (field * content)).

Definition log_awaits (cs : list (field * content)) (u : list (sproto_arg * dvalue)) : Prop :=
  exists past, total = past ++ cs /\ told m past u.

Definition log_within (f : field) (i : Z) (l : list item) (cs : list (field * content)) (u : list (sproto_arg * dvalue))
  : Prop :=
  exists past pre u0 part, total = past ++ (f, Many (pre ++ l)) :: cs /\ told m past u0 /\ u = u0 ++ part /\
    told_items m f pre part /\ i = Z.of_nat (length pre) + 1.

#[local] Instance log_callback : DecodeCallback m log_call.
Proof.
  refine {| awaits := log_awaits; within := log_within |}.
  - intros f it cs u len v (past & E & Ht) _ Hh _. eexists 0, _. split; [done|]. split; [done|].
    exists (past ++ [(f, One it)]). split; [by rewrite <- app_assoc|]. apply told_snoc; [done|].
    eexists. split; [done|]. by exists len, v.
  - intros f l cs u (past & E & Ht) _ _. exists past, [], u, []. rewrite app_nil_r. repeat split; try done. constructor.
  - intros f i it l cs u len v (past & pre & u0 & part & E & Ht & -> & Hi & ->) _ Hh _. eexists 0, _.
    split; [done|]. split; [done|]. exists past, (pre ++ [it]), u0, (part ++ [(field_arg f len (Z.of_nat (length pre) + 1), v)]).
    rewrite <- !app_assoc. split; [done|]. split; [done|]. split; [done|]. split; [|len_lia].
    apply told_items_snoc; [done|]. by exists len, v.
  - intros f i cs u (past & pre & u0 & part & E & Ht & -> & Hi & ->). rewrite app_nil_r in E.
    exists (past ++ [(f, Many pre)]). split; [by rewrite <- app_assoc|]. by apply told_snoc.
Defined.

Lemma decode_logs st fs p size : total = known st fs -> type_ok st -> fits st fs -> ascending (-1) fs.*1 ->
  placed m p (message fs) -> Z.of_nat (length (message fs)) <= size -> size < 2 ^ 31 ->
  exists calls, sproto_decode log_call m st p size [] = Ret (Z.of_nat (length (message fs)), calls) /\ told m total calls.
Proof.
  intros Htot Hok Hf Ha Hp Hsz Hlt.
  destruct (sproto_decode_awaits m log_call st fs p size []) as (calls & Hd & past & E & Ht); try done.
  - exists []. split; [by rewrite Htot|]. by exists [].
  - rewrite app_nil_r in E. subst past. by exists calls.
Qed.
End LOG.

(** C29: [sproto_decode] on a message that any schema wrote calls its callback once for each
    value of the fields that its own type knows, in the order of the message, array
    elements with their indices, and answers the length of the message; fields that the
    type does not know are passed over. *)
Theorem decode_tells_contents st fs m p size : type_ok st -> fits st fs -> ascending (-1) fs.*1 ->
  placed m p (message fs) -> Z.of_nat (length (message fs)) <= size -> size < 2 ^ 31 ->
  exists calls, sproto_decode log_call m st p size [] = Ret (Z.of_nat (length (message fs)), calls) /\
    told m (known st fs) calls.
Proof. by apply decode_logs. Qed.

(** [findtag] gives the field with the tag when the type has one and nothing else, by
    an index or by a binary search, and it never reads outside the fields. *)
Theorem findtag_exact st tag : type_ok st -> exists o, findtag st tag = Ret o /\
  match o with
  | Some f => f ∈ t_f st /\ f_tag f = tag
  | None => forall f, f ∈ t_f st -> f_tag f <> tag
  end.
Proof.
  intros Hok. exists (field_of st tag). split; [by apply findtag_find|]. destruct (field_of st tag) as [f|] eqn:E.
  - by apply find_in.
  - intros f Hf Ht. apply list_elem_of_In in Hf. apply (List.find_none _ _ E) in Hf.
    by rewrite bool_decide_true in Hf.
Qed.

(** ** Tables *)

Section ROUND.
Context (sch : list sproto_type) (Hsch : schema_ok sch).

Lemma wire_size i st fs h t : sch !! i = Some st -> represents sch eq h ENCODE_DEEPLEVEL st fs t ->
  2 <= Z.of_nat (length (wire sch ENCODE_DEEPLEVEL st fs)) <= room st (contents sch ENCODE_DEEPLEVEL st fs).
Proof.
  intros Hi Hr. pose proof (proj1 (Forall_lookup _ _) Hsch _ _ Hi) as [Hok _].
  apply message_room; [done|apply contents_fields|]. by eapply contents_ok.
Qed.

Lemma ldecode_reads i st fs src t0 m post sz h : sch !! i = Some st -> represents sch eq src ENCODE_DEEPLEVEL st fs t0 ->
  m = wire sch ENCODE_DEEPLEVEL st fs ++ post -> sz = Z.of_nat (length m) -> sz < 2 ^ 31 ->
  exists t h', ldecode sch m (Some i) sz None h = Ret (t, Z.of_nat (length (wire sch ENCODE_DEEPLEVEL st fs)), h') /\
    h ⊆ h' /\ represents sch same_entries h' ENCODE_DEEPLEVEL st fs t.
Proof.
  intros Hi Hr Hm -> Hlt. pose proof (proj1 (Forall_lookup _ _) Hsch _ _ Hi) as [Hok Hnm].
  set (t := fresh (dom h)). assert (Hfr : h !! t = None) by apply not_elem_of_dom, is_fresh.
  assert (Hlen : length m = (length (wire sch ENCODE_DEEPLEVEL st fs) + length post)%nat) by (rewrite Hm; by rewrite length_app).
  destruct (struct_decoded_all sch Hsch m ENCODE_DEEPLEVEL src st fs t0 0 (Z.of_nat (length m)) (<[t := []]> h) t (-1))
    as (h' & self' & Hd & _ & hs & Hrep & Hext); try done; [by exists [], post|lia|apply lookup_insert_eq|].
  rewrite delete_insert_id in Hext by done. destruct Hext as (Hsub & Hhs & _).
  exists t, h'. split; [|split; [done|by apply (represents_mono _ _ _ hs)]].
  unfold ldecode. cbn [option_bind mbind]. rewrite Hi. unfold lua_newtable. fold t.
  rewrite i32_small by (unfold is_i32; lia). step_with Hd. by rewrite bool_decide_false by lia.
Qed.
End ROUND.

(** C28: A table that stands for a value of the schema is encoded by [lencode] to a string
    that [ldecode] reads, whatever follows it, to a new table that stands for the same value
    (a map with its entries in any order); no other table changes, and the answer says how
    much was read.  The value has to fit the largest buffer that [lencode] tries (8 MiB), and
    either it fits the first one, or the buffer grows as often as it must and no array has an
    integer of eight bytes behind small ones ([steady]; [integer_array_leaves_buffer] is an
    array that has). *)
Theorem lua_table_roundtrip sch number_text i st fs h t k buffer h2 post :
  schema_ok sch -> sch !! i = Some st -> represents sch eq h ENCODE_DEEPLEVEL st fs t ->
  room st (contents sch ENCODE_DEEPLEVEL st fs) <= buffer_size 12 -> (k <= 12)%nat ->
  Z.of_nat (length buffer) = buffer_size k ->
  room st (contents sch ENCODE_DEEPLEVEL st fs) <= buffer_size k \/ steady (contents sch ENCODE_DEEPLEVEL st fs) = true ->
  Z.of_nat (length post) < 2 ^ 30 ->
  exists bytes buffer' sz t' h2',
    lencode sch h number_text (Some i) (LTable t) buffer (buffer_size k) = Ret (bytes, buffer', sz) /\
    ldecode sch (bytes ++ post) (Some i) (Z.of_nat (length (bytes ++ post))) None h2 =
      Ret (t', Z.of_nat (length bytes), h2') /\
    h2 ⊆ h2' /\ represents sch same_entries h2' ENCODE_DEEPLEVEL st fs t'.
Proof.
  intros Hsch Hi Hr Hroom Hk Hb Hs Hpost. pose proof (wire_size sch Hsch i st fs h t Hi Hr) as Hw.
  pose proof (buffer_size_range 12 ltac:(lia)) as H12.
  destruct (lencode_writes sch Hsch h number_text i st fs t k buffer Hi Hr Hroom Hk Hb Hs) as (buffer' & sz & He).
  destruct (ldecode_reads sch Hsch i st fs h t _ post _ h2 Hi Hr eq_refl eq_refl) as (t' & h2' & Hd & Hsub & Hrep); [len_lia|].
  by exists (wire sch ENCODE_DEEPLEVEL st fs), buffer', sz, t', h2'.
Qed.

(** C30: In a buffer of any size the encoder of a table writes the message or answers -1,
    and stays within the buffer, when no array of the value has a wide integer behind
    small ones; it answers -1 only when the buffer is smaller than the room of the value. *)
Theorem encode_stays_in_buffer sch number_text i st fs h t m :
  schema_ok sch -> sch !! i = Some st -> represents sch eq h ENCODE_DEEPLEVEL st fs t ->
  steady (contents sch ENCODE_DEEPLEVEL st fs) = true -> Z.of_nat (length m) < 2 ^ 31 ->
  exists r u m', sproto_encode (encode sch h number_text ENCODE_DEEPLEVEL) st (mk_encode t None None LNil) m 0
      (Z.of_nat (length m)) = Ret (r, u, m') /\ length m' = length m /\
    (r = -1 /\ Z.of_nat (length m) < room st (contents sch ENCODE_DEEPLEVEL st fs) \/
     r = Z.of_nat (length (wire sch ENCODE_DEEPLEVEL st fs)) /\ exists rest, m' = wire sch ENCODE_DEEPLEVEL st fs ++ rest).
Proof.
  intros Hsch Hi Hr Hs Hlt. pose proof (proj1 (Forall_lookup _ _) Hsch _ _ Hi) as [Hok Hnm].
  destruct (struct_encoded_all sch Hsch h number_text ENCODE_DEEPLEVEL st fs t m _ Hok Hnm Hr eq_refl Hlt (or_intror Hs))
    as [(u & m' & He & Hl & Hn)|(u & rest & He & Hl & _)]; do 3 eexists; (split; [exact He|]).
  - split; [done|]. by left.
  - split; [done|]. right. split; [done|]. by exists rest.
Qed.

(** ** An address book *)

Definition name_of (a : Z) (text : list Z) : sname := mk_sname a text.

Definition person_type : sproto_type := mk_type (name_of 10 [80]) 4 (-1) 6
  [mk_field 0 SPROTO_TSTRING (name_of 11 [110]) None (-1);
   mk_field 1 SPROTO_TINTEGER (name_of 12 [105]) None (-1);
   mk_field 3 SPROTO_TBOOLEAN (name_of 13 [109]) None (-1);
   mk_field 5 (SPROTO_TINTEGER + SPROTO_TARRAY) (name_of 14 [112]) None (-1)].

Definition book_type : sproto_type := mk_type (name_of 20 [66]) 1 0 1
  [mk_field 0 (SPROTO_TSTRUCT + SPROTO_TARRAY) (name_of 21 [120]) (Some 0%nat) 1].

Definition book_schema : list sproto_type := [person_type; book_type].

Definition alice : list (Z * value) :=
  [(0, VStr [65]); (1, VInt 10000); (3, VBool true); (5, VList [VInt 5; VInt (-1)])].
Definition bob : list (Z * value) := [(0, VStr []); (1, VInt (2 ^ 40)); (5, VList [])].
Definition book : list (Z * value) := [(0, VList [VStruct alice; VStruct bob])].

Definition book_heap : heap := list_to_map
  [(0%nat, [(LStr [120], LTable 1)]);
   (1%nat, [(LInt 10000, LTable 2); (LInt (2 ^ 40), LTable 3)]);
   (2%nat, [(LStr [105], LInt 10000); (LStr [110], LStr [65]); (LStr [112], LTable 4); (LStr [109], LBool true)]);
   (3%nat, [(LStr [110], LStr []); (LStr [105], LInt (2 ^ 40))]);
   (4%nat, [(LInt 1, LInt 5); (LInt 2, LInt (-1))])].

(** What a type of concrete numbers has to keep. *)
Ltac solve_schema :=
  first [ done | lia | by repeat split; lia
        | by repeat constructor; cbn; first [ done | lia | tauto | set_solver ] ].

Lemma book_schema_ok : schema_ok book_schema.
Proof.
  assert (Hp : type_ok person_type /\ names_ok person_type).
  { split; [split|split; [|split]]; cbn; solve_schema. }
  assert (Hb : type_ok book_type /\ names_ok book_type).
  { split; [split|split; [|split]]; cbn; try solve_schema. by intros _ [|i] f; [intros [= <-]|]. }
  constructor; [exact Hp|]. constructor; [exact Hb|constructor].
Qed.

Lemma book_in_heap : represents book_schema eq book_heap ENCODE_DEEPLEVEL book_type book 0.
Proof.
  eexists. split; [reflexivity|]. constructor; [|constructor]. split; [done|]. right. eexists _, _. split; [reflexivity|].
  split; [reflexivity|]. eexists. split; [reflexivity|]. split; [repeat constructor; set_solver|].
  constructor; [|constructor; [|constructor]]; (split; [|done]); (split; [done|]); exists person_type; (split; [done|]);
    eexists; (split; [reflexivity|]).
  - constructor; [by split|]. constructor; [by repeat split|]. constructor; [by repeat split|]. constructor; [|constructor].
    split; [done|]. right. eexists _, _. split; [reflexivity|]. split; [reflexivity|]. split; [|reflexivity].
    intros [|[|i]] v Hv; [injection Hv as <-..|done]; by repeat split.
  - constructor; [by split|]. constructor; [by repeat split|]. constructor; [by repeat split|]. constructor; [|constructor].
    split; [done|]. by left.
Qed.

Lemma lua_table_roundtrip_witness : exists bytes buffer' sz t' h2',
  lencode book_schema book_heap (fun _ => []) (Some 1%nat) (LTable 0) (replicate 2050 0) (buffer_size 0) =
    Ret (bytes, buffer', sz) /\
  ldecode book_schema (bytes ++ [1; 2; 3]) (Some 1%nat) (Z.of_nat (length (bytes ++ [1; 2; 3]))) None ∅ =
    Ret (t', Z.of_nat (length bytes), h2') /\
  ∅ ⊆ h2' /\ represents book_schema same_entries h2' ENCODE_DEEPLEVEL book_type book t'.
Proof.
  apply (lua_table_roundtrip book_schema (fun _ => []) 1 book_type book book_heap 0 0 (replicate 2050 0) ∅ [1; 2; 3]).
  - exact book_schema_ok.
  - reflexivity.
  - exact book_in_heap.
  - vm_compute. discriminate.
  - lia.
  - by vm_compute.
  - right. by vm_compute.
  - by vm_compute.
Defined.

Lemma encode_stays_in_buffer_witness : exists r u m',
  sproto_encode (encode book_schema book_heap (fun _ => []) ENCODE_DEEPLEVEL) book_type (mk_encode 0 None None LNil)
    (replicate 30 0) 0 30 = Ret (r, u, m') /\ length m' = 30%nat /\
  (r = -1 /\ 30 < room book_type (contents book_schema ENCODE_DEEPLEVEL book_type book) \/
   r = Z.of_nat (length (wire book_schema ENCODE_DEEPLEVEL book_type book)) /\
   exists rest, m' = wire book_schema ENCODE_DEEPLEVEL book_type book ++ rest).
Proof.
  apply (encode_stays_in_buffer book_schema (fun _ => []) 1 book_type book book_heap 0 (replicate 30 0)).
  - exact book_schema_ok.
  - reflexivity.
  - exact book_in_heap.
  - by vm_compute.
  - by vm_compute.
Defined.

(** The message of alice as an older type reads it, which knows her name and her numbers. *)
Definition old_type : sproto_type := mk_type (name_of 30 [80]) 2 (-1) 3
  [mk_field 0 SPROTO_TSTRING (name_of 31 [110]) None (-1);
   mk_field 5 (SPROTO_TINTEGER + SPROTO_TARRAY) (name_of 34 [112]) None (-1)].

Definition alice_contents : list (Z * content) :=
  [(0, One (IStr [65])); (1, One (IInt 10000)); (3, One (IBool true)); (5, Many [IInt 5; IInt (-1)])].

Lemma old_type_ok : type_ok old_type.
Proof.
  split; cbn; solve_schema.
Qed.

Lemma decode_tells_contents_witness : exists calls,
  sproto_decode log_call (message alice_contents ++ [7]) old_type 0 32 [] = Ret (Z.of_nat (length (message alice_contents)), calls) /\
  told (message alice_contents ++ [7]) (known old_type alice_contents) calls.
Proof.
  apply decode_tells_contents.
  - exact old_type_ok.
  - repeat constructor; cbn; done || lia.
  - repeat split; lia.
  - by exists [], [7].
  - by vm_compute.
  - lia.
Defined.

Lemma findtag_exact_witness : exists o, findtag person_type 4 = Ret o /\
  match o with
  | Some f => f ∈ t_f person_type /\ f_tag f = 4
  | None => forall f, f ∈ t_f person_type -> f_tag f <> 4
  end.
Proof. apply findtag_exact. exact (proj1 (proj1 (Forall_lookup _ _) book_schema_ok 0%nat person_type eq_refl)). Defined.

(** ** The array of integers in a small buffer *)

(** A wide integer behind [n] small ones. *)
Definition ints_schema : list sproto_type :=
  [mk_type (name_of 10 [84]) 1 0 1 [mk_field 0 (SPROTO_TINTEGER + SPROTO_TARRAY) (name_of 11 [97]) None (-1)]].

Definition ints_heap (n : nat) : heap := list_to_map
  [(0%nat, [(LStr [97], LTable 1)]);
   (1%nat, imap (fun i v => (LInt (Z.of_nat i + 1), v)) (replicate n (LInt 1) ++ [LInt (2 ^ 40)]))].

(** A wide integer behind 260 small ones makes [lencode] write behind its first buffer,
    because the negative size of what is left is compared as an unsigned number; behind
    250 of them the buffer is large enough and the message is written. *)
Theorem integer_array_leaves_buffer number_text :
  lencode ints_schema (ints_heap 260) number_text (Some 0%nat) (LTable 0) (replicate 2050 0) 2050 = Crash OutOfBounds /\
  exists s b, lencode ints_schema (ints_heap 250) number_text (Some 0%nat) (LTable 0) (replicate 2050 0) 2050 = Ret (s, b, 2050) /\
    length s = 2017%nat.
Proof. split; [by vm_compute|]. eexists _, _. split; by vm_compute. Qed.
