(* ===== verification/SprotoSchema.v ===== *)
(** * Loading a sproto schema (src/lualib-src/sproto/sproto.c: pool_init to sproto_create,
    the queries; lsproto.c: lnewproto, lquerytype, lprotocol, lsaveproto, lloadproto)

    A schema is itself a sproto message.  [m] is the memory of that message, a pointer
    into it is an offset.  The strings and arrays of the schema come from a pool of
    chunks; [malloc] answers an address behind all the blocks it gave before.  An array
    of a schema is a list, and a pointer to a type is its index. *)
From stdpp Require Import base list gmap numbers strings.
From Stdlib Require Import ZArith Lia.
From S2P Require Import Prelude SprotoCode.

Local Open Scope Z_scope.

Definition CHUNK_SIZE : Z := 1000.
Definition SIZEOF_CHUNK : Z := 8.

(** The sizes of the structures. *)
Definition SIZEOF_SPROTO : Z := 48.
Definition SIZEOF_TYPE : Z := 32.
Definition SIZEOF_PROTOCOL : Z := 32.
Definition SIZEOF_STRUCT_FIELD : Z := 32.

(** ** The pool *)

(** [pl_next] is where [malloc] goes on; the chunks with their sizes, the newest first. *)
Record chunkpool := mk_chunkpool {
  pl_next : Z;
  pl_chunks : list (Z * Z);
  pl_current : option Z;
  pl_used : Z
}.

Definition pool_init (next : Z) : chunkpool := mk_chunkpool next [] None 0.

Definition pool_newchunk (p : chunkpool) (sz : Z) : Z * chunkpool :=
  let t := pl_next p in
  (t + SIZEOF_CHUNK, mk_chunkpool (t + SIZEOF_CHUNK + sz) ((t, sz) :: pl_chunks p) (pl_current p) (pl_used p)).

(** [p->header] is the newest chunk. *)
Definition set_current (used : Z) (p : chunkpool) : chunkpool :=
  mk_chunkpool (pl_next p) (pl_chunks p) (fst <$> head (pl_chunks p)) used.

Definition pool_alloc (p : chunkpool) (sz : Z) : Z * chunkpool :=
  let sz := (sz + 7) / 8 * 8 in
  if bool_decide (sz > CHUNK_SIZE) then pool_newchunk p sz
  else
    let p := match pl_current p with
             | None => let '(_, p) := pool_newchunk p CHUNK_SIZE in set_current (pl_used p) p
             | Some _ => p
             end in
    let current := default 0 (pl_current p) in
    if bool_decide (sz + pl_used p <= CHUNK_SIZE) then
      (current + SIZEOF_CHUNK + pl_used p, mk_chunkpool (pl_next p) (pl_chunks p) (pl_current p) (pl_used p + sz))
    else if bool_decide (sz > pl_used p) then pool_newchunk p sz
    else let '(ret, p) := pool_newchunk p CHUNK_SIZE in (ret, set_current sz p).

(** The chunks that are freed. *)
Definition pool_release (p : chunkpool) : list Z := (pl_chunks p).*1.

(** ** The schema *)

Record protocol := mk_protocol {
  pr_name : sname;
  pr_tag : Z;
  pr_request : option nat;
  pr_response : option nat
}.

Record sproto := mk_sproto {
  s_memory : chunkpool;
  s_type_n : Z;
  s_protocol_n : Z;
  s_type : list sproto_type;
  s_proto : list protocol
}.

(** ** Reading the message *)

(** The text of a C string ends at the first zero. *)
Fixpoint until_nul (l : list Z) : list Z :=
  match l with
  | [] => []
  | c :: l => if decide (c = 0) then [] else c :: until_nul l
  end.

Section IMPORT.
Context (m : list Z).

(** The loop of [count_array]; every good round takes a byte or more of [length]. *)
Fixpoint count_loop (fuel : nat) (stream length n : Z) : outcome Z :=
  if bool_decide (length > 0) then
    match fuel with
    | O => Crash OutOfFuel
    | S fuel =>
      if bool_decide (length < SIZEOF_LENGTH) then Ret (-1)
      else
        nsz ← todword m stream;
        let nsz := u32 (nsz + SIZEOF_LENGTH) in
        if bool_decide (nsz > length) then Ret (-1)
        else count_loop fuel (stream + nsz) (length - nsz) (n + 1)
    end
  else Ret n.

Definition count_array (stream : Z) : outcome Z :=
  length ← todword m stream;
  count_loop (S (Z.to_nat length)) (stream + SIZEOF_LENGTH) length 0.

(** The loop of [struct_field]: [n] words are left from [field] on, and [sz] bytes from
    [stream] on.  Each word is read behind the one it should be. *)
Fixpoint struct_loop (n : nat) (field stream sz : Z) : outcome bool :=
  match n with
  | O => Ret true
  | S n =>
    value ← toword m (field + SIZEOF_HEADER);
    if bool_decide (value <> 0) then struct_loop n (field + SIZEOF_FIELD) stream sz
    else if bool_decide (sz < SIZEOF_LENGTH) then Ret false
    else
      dsz ← todword m stream;
      let dsz := u32 (SIZEOF_LENGTH + dsz) in
      if bool_decide (sz < dsz) then Ret false
      else struct_loop n (field + SIZEOF_FIELD) (stream + dsz) (sz - dsz)
  end.

Definition struct_field (stream sz : Z) : outcome Z :=
  if bool_decide (sz < SIZEOF_LENGTH) then Ret (-1)
  else
    fn ← toword m stream;
    let header := SIZEOF_HEADER + SIZEOF_FIELD * fn in
    if bool_decide (sz < header) then Ret (-1)
    else
      ok ← struct_loop (Z.to_nat fn) (stream + SIZEOF_HEADER) (stream + header) (sz - header);
      Ret (if (ok : bool) then fn else -1).

(** The copy ends with a zero. *)
Definition import_string (p : chunkpool) (stream : Z) : outcome (sname * chunkpool) :=
  sz ← todword m stream;
  let '(buffer, p) := pool_alloc p (u32 (sz + 1)) in
  text ← read_bytes m (stream + SIZEOF_LENGTH) sz;
  Ret (mk_sname buffer (until_nul text), p).

(** A field that is being read, with the local [array]. *)
Record pfield := mk_pfield {
  pf_tag : Z;
  pf_type : Z;
  pf_name : option sname;
  pf_st : option nat;
  pf_key : Z;
  pf_array : Z
}.

Definition empty_field : pfield := mk_pfield (-1) (-1) None None (-1) 0.

(** The body of the loop of [import_field] for a word that is no gap; [None] for NULL. *)
Definition import_word (type_n tag value data : Z) (f : pfield) (p : chunkpool)
  : outcome (option (pfield * chunkpool)) :=
  if bool_decide (tag = 0) then
    if bool_decide (value <> 0) then Ret None
    else
      '(name, p) ← import_string p data;
      Ret (Some (mk_pfield (pf_tag f) (pf_type f) (Some name) (pf_st f) (pf_key f) (pf_array f), p))
  else if bool_decide (value = 0) then Ret None
  else
    let value := value / 2 - 1 in
    if bool_decide (tag = 1) then
      if bool_decide (value >= SPROTO_TSTRUCT) then Ret None
      else Ret (Some (mk_pfield (pf_tag f) value (pf_name f) (pf_st f) (pf_key f) (pf_array f), p))
    else if bool_decide (tag = 2) then
      if bool_decide (value >= type_n \/ pf_type f >= 0) then Ret None
      else Ret (Some (mk_pfield (pf_tag f) SPROTO_TSTRUCT (pf_name f) (Some (Z.to_nat value)) (pf_key f) (pf_array f), p))
    else if bool_decide (tag = 3) then
      Ret (Some (mk_pfield value (pf_type f) (pf_name f) (pf_st f) (pf_key f) (pf_array f), p))
    else if bool_decide (tag = 4) then
      Ret (Some (mk_pfield (pf_tag f) (pf_type f) (pf_name f) (pf_st f) (pf_key f)
                   (if bool_decide (value <> 0) then SPROTO_TARRAY else pf_array f), p))
    else if bool_decide (tag = 5) then
      Ret (Some (mk_pfield (pf_tag f) (pf_type f) (pf_name f) (pf_st f) value (pf_array f), p))
    else Ret None.

Fixpoint import_words (n : nat) (type_n word data tag : Z) (f : pfield) (p : chunkpool)
  : outcome (option (pfield * chunkpool)) :=
  match n with
  | O => Ret (Some (f, p))
  | S n =>
    let tag := tag + 1 in
    value ← toword m word;
    if bool_decide (Z.land value 1 <> 0) then import_words n type_n (word + SIZEOF_FIELD) data (tag + value / 2) f p
    else
      r ← import_word type_n tag value data f p;
      match r with
      | None => Ret None
      | Some (f, p) => import_words n type_n (word + SIZEOF_FIELD) data tag f p
      end
  end.

(** The field, and where the next one begins. *)
Definition import_field (type_n stream : Z) (p : chunkpool) : outcome (option (field * Z * chunkpool)) :=
  sz ← todword m stream;
  let stream := stream + SIZEOF_LENGTH in
  let result := stream + sz in
  fn ← struct_field stream sz;
  if bool_decide (fn < 0) then Ret None
  else
    let stream := stream + SIZEOF_HEADER in
    r ← import_words (Z.to_nat fn) type_n stream (stream + fn * SIZEOF_FIELD) (-1) empty_field p;
    match r with
    | None => Ret None
    | Some (f, p) =>
      match pf_name f with
      | None => Ret None
      | Some name =>
        if bool_decide (pf_tag f < 0 \/ pf_type f < 0) then Ret None
        else Ret (Some (mk_field (pf_tag f) (Z.lor (pf_type f) (pf_array f)) name (pf_st f) (pf_key f), result, p))
      end
    end.

(** The loop of [import_type] over its fields. *)
Fixpoint import_fields (n : nat) (type_n stream last maxn : Z) (fs : list field) (p : chunkpool)
  : outcome (option (list field * Z * chunkpool)) :=
  match n with
  | O => Ret (Some (fs, maxn, p))
  | S n =>
    r ← import_field type_n stream p;
    match r with
    | None => Ret None
    | Some (f, stream, p) =>
      let tag := f_tag f in
      if bool_decide (tag < last) then Ret None
      else import_fields n type_n stream tag (if bool_decide (tag > last + 1) then maxn + 1 else maxn) (fs ++ [f]) p
    end
  end.

(** The check that the [n] words of a type from [word] on are zero. *)
Fixpoint zero_words (n : nat) (word : Z) : outcome bool :=
  match n with
  | O => Ret true
  | S n => v ← toword m word; if bool_decide (v <> 0) then Ret false else zero_words n (word + SIZEOF_FIELD)
  end.

Definition import_type (type_n stream : Z) (p : chunkpool) : outcome (option (sproto_type * Z * chunkpool)) :=
  sz ← todword m stream;
  let stream := stream + SIZEOF_LENGTH in
  let result := stream + sz in
  fn ← struct_field stream sz;
  if bool_decide (fn <= 0 \/ fn > 2) then Ret None
  else
    zero ← zero_words (Z.to_nat fn) (stream + SIZEOF_HEADER);
    if negb zero then Ret None
    else
      let stream := stream + SIZEOF_HEADER + fn * SIZEOF_FIELD in
      '(name, p) ← import_string p stream;
      if bool_decide (fn = 1) then Ret (Some (mk_type name 0 0 0 [], result, p))
      else
        d ← todword m stream;
        let stream := stream + u32 (d + SIZEOF_LENGTH) in
        n ← count_array stream;
        if bool_decide (n < 0) then Ret None
        else
          let '(_, p) := pool_alloc p (SIZEOF_STRUCT_FIELD * n) in
          r ← import_fields (Z.to_nat n) type_n (stream + SIZEOF_LENGTH) (-1) n [] p;
          match r with
          | None => Ret None
          | Some (fs, maxn, p) =>
            first ← read_at fs 0;
            last ← read_at fs (n - 1);
            let base := if bool_decide (f_tag last - f_tag first + 1 <> n) then -1 else f_tag first in
            Ret (Some (mk_type name n base maxn fs, result, p))
          end.

(** A protocol that is being read. *)
Record pprotocol := mk_pprotocol {
  pp_name : option sname;
  pp_tag : Z;
  pp_request : option nat;
  pp_response : option nat
}.

(** The loop of [import_protocol]; what a word means goes by its place [i]. *)
Fixpoint protocol_words (n : nat) (type_n word data i : Z) (q : pprotocol) (p : chunkpool)
  : outcome (option (pprotocol * chunkpool)) :=
  match n with
  | O => Ret (Some (q, p))
  | S n =>
    value ← toword m word;
    if bool_decide (Z.land value 1 <> 0) then protocol_words n type_n (word + SIZEOF_FIELD) data (i + 1) q p
    else
      let value := value / 2 - 1 in
      let next := protocol_words n type_n (word + SIZEOF_FIELD) data (i + 1) in
      if bool_decide (i = 0) then
        if bool_decide (value <> -1) then Ret None
        else
          '(name, p) ← import_string p data;
          next (mk_pprotocol (Some name) (pp_tag q) (pp_request q) (pp_response q)) p
      else if bool_decide (i = 1) then
        if bool_decide (value < 0) then Ret None
        else next (mk_pprotocol (pp_name q) value (pp_request q) (pp_response q)) p
      else if bool_decide (i = 2) then
        if bool_decide (value < 0 \/ value >= type_n) then Ret None
        else next (mk_pprotocol (pp_name q) (pp_tag q) (Some (Z.to_nat value)) (pp_response q)) p
      else if bool_decide (i = 3) then
        if bool_decide (value < 0 \/ value >= type_n) then Ret None
        else next (mk_pprotocol (pp_name q) (pp_tag q) (pp_request q) (Some (Z.to_nat value))) p
      else Ret None
  end.

(** A negative [fn] runs the loop no times. *)
Definition import_protocol (type_n stream : Z) (p : chunkpool) : outcome (option (protocol * Z * chunkpool)) :=
  sz ← todword m stream;
  let stream := stream + SIZEOF_LENGTH in
  let result := stream + sz in
  fn ← struct_field stream sz;
  let stream := stream + SIZEOF_HEADER in
  r ← protocol_words (Z.to_nat fn) type_n stream (stream + SIZEOF_FIELD * fn) 0 (mk_pprotocol None (-1) None None) p;
  match r with
  | None => Ret None
  | Some (q, p) =>
    match pp_name q with
    | None => Ret None
    | Some name =>
      if bool_decide (pp_tag q < 0) then Ret None
      else Ret (Some (mk_protocol name (pp_tag q) (pp_request q) (pp_response q), result, p))
    end
  end.

(** The two loops at the end of [create_from_bundle]. *)
Fixpoint import_types (n : nat) (type_n typedata : Z) (ts : list sproto_type) (p : chunkpool)
  : outcome (option (list sproto_type * chunkpool)) :=
  match n with
  | O => Ret (Some (ts, p))
  | S n =>
    r ← import_type type_n typedata p;
    match r with
    | None => Ret None
    | Some (t, typedata, p) => import_types n type_n typedata (ts ++ [t]) p
    end
  end.

Fixpoint import_protocols (n : nat) (type_n protocoldata : Z) (qs : list protocol) (p : chunkpool)
  : outcome (option (list protocol * chunkpool)) :=
  match n with
  | O => Ret (Some (qs, p))
  | S n =>
    r ← import_protocol type_n protocoldata p;
    match r with
    | None => Ret None
    | Some (q, protocoldata, p) => import_protocols n type_n protocoldata (qs ++ [q]) p
    end
  end.

(** What the first loop finds: the number and the place of the types and of the protocols. *)
Record bundle_parts := mk_parts {
  b_type_n : Z;
  b_typedata : Z;
  b_protocol_n : Z;
  b_protocoldata : Z
}.

Fixpoint bundle_loop (n : nat) (word content i : Z) (b : bundle_parts) (p : chunkpool)
  : outcome (option (bundle_parts * chunkpool)) :=
  match n with
  | O => Ret (Some (b, p))
  | S n =>
    value ← toword m word;
    if bool_decide (value <> 0) then Ret None
    else
      k ← count_array content;
      if bool_decide (k < 0) then Ret None
      else
        let '(b, p) :=
          if bool_decide (i = 0) then
            let '(_, p) := pool_alloc p (k * SIZEOF_TYPE) in
            (mk_parts k (content + SIZEOF_LENGTH) (b_protocol_n b) (b_protocoldata b), p)
          else
            let '(_, p) := pool_alloc p (k * SIZEOF_PROTOCOL) in
            (mk_parts (b_type_n b) (b_typedata b) k (content + SIZEOF_LENGTH), p) in
        d ← todword m content;
        bundle_loop n (word + SIZEOF_FIELD) (content + u32 (d + SIZEOF_LENGTH)) (i + 1) b p
  end.

Definition create_from_bundle (stream sz : Z) (p : chunkpool) : outcome (option sproto) :=
  fn ← struct_field stream sz;
  if bool_decide (fn < 0) then Ret None
  else
    let stream := stream + SIZEOF_HEADER in
    r ← bundle_loop (Z.to_nat fn) stream (stream + fn * SIZEOF_FIELD) 0 (mk_parts 0 0 0 0) p;
    match r with
    | None => Ret None
    | Some (b, p) =>
      r ← import_types (Z.to_nat (b_type_n b)) (b_type_n b) (b_typedata b) [] p;
      match r with
      | None => Ret None
      | Some (ts, p) =>
        r ← import_protocols (Z.to_nat (b_protocol_n b)) (b_type_n b) (b_protocoldata b) [] p;
        match r with
        | None => Ret None
        | Some (qs, p) => Ret (Some (mk_sproto p (b_type_n b) (b_protocol_n b) ts qs))
        end
      end
    end.

(** [next] is where [malloc] begins; [None] for NULL, when the chunks were freed. *)
Definition sproto_create (next sz : Z) : outcome (option sproto) :=
  let '(_, p) := pool_alloc (pool_init next) SIZEOF_SPROTO in
  create_from_bundle 0 sz p.
End IMPORT.

Definition sproto_release (s : option sproto) : list Z :=
  match s with None => [] | Some s => pool_release (s_memory s) end.

(** ** Queries *)

Definition sproto_prototag (sp : sproto) (name : list Z) : Z :=
  match List.find (fun q => bool_decide (name = n_text (pr_name q))) (s_proto sp) with
  | Some q => pr_tag q
  | None => -1
  end.

(** The binary search of [query_proto]; [fuel] bounds [end - begin]. *)
Fixpoint query_loop (fuel : nat) (qs : list protocol) (tag begin end_ : Z) : outcome (option protocol) :=
  if bool_decide (begin < end_) then
    match fuel with
    | O => Crash OutOfFuel
    | S fuel =>
      let mid := (begin + end_) / 2 in
      q ← read_at qs mid;
      if bool_decide (pr_tag q = tag) then Ret (Some q)
      else if bool_decide (tag > pr_tag q) then query_loop fuel qs tag (mid + 1) end_
      else query_loop fuel qs tag begin mid
    end
  else Ret None.

Definition query_proto (sp : sproto) (tag : Z) : outcome (option protocol) :=
  query_loop (Z.to_nat (s_protocol_n sp)) (s_proto sp) tag 0 (s_protocol_n sp).

Definition SPROTO_REQUEST : Z := 0.
Definition SPROTO_RESPONSE : Z := 1.

Definition sproto_protoquery (sp : sproto) (proto what : Z) : outcome (option nat) :=
  if bool_decide (what < 0 \/ what > 1) then Ret None
  else
    p ← query_proto sp proto;
    Ret (match p with
         | Some p => if bool_decide (what = SPROTO_REQUEST) then pr_request p else pr_response p
         | None => None
         end).

Definition sproto_protoname (sp : sproto) (proto : Z) : outcome (option sname) :=
  p ← query_proto sp proto;
  Ret (match p with Some p => Some (pr_name p) | None => None end).

(** The index of the type. *)
Definition sproto_type_by_name (sp : sproto) (type_name : list Z) : option nat :=
  fst <$> list_find (fun t => type_name = n_text (t_name t)) (s_type sp).

Definition sproto_name (st : sproto_type) : sname := t_name st.

(** ** The Lua functions *)

Definition lnewproto (m : list Z) (next : Z) : outcome (option sproto) :=
  sproto_create m next (Z.of_nat (length m)).

Definition ldeleteproto (sp : option sproto) : outcome (list Z) :=
  match sp with None => Raise "Need a sproto object" | Some _ => Ret (sproto_release sp) end.

Definition lquerytype (sp : option sproto) (type_name : list Z) : outcome nat :=
  match sp with
  | None => Raise "Need a sproto object"
  | Some sp => match sproto_type_by_name sp (until_nul type_name) with Some st => Ret st | None => Raise "type %s not found" end
  end.

(** The second argument, a tag or a name, and the first answer, the other of the two. *)
Inductive proto_key := ByTag (tag : Z) | ByName (name : list Z).

Definition lprotocol (sp : option sproto) (key : proto_key)
  : outcome (option (proto_key * option nat * option nat)) :=
  match sp with
  | None => Raise "Need a sproto_type object"
  | Some sp =>
    r ← match key with
        | ByTag tag =>
          name ← sproto_protoname sp tag;
          Ret (match name with None => None | Some name => Some (tag, ByName (n_text name)) end)
        | ByName name =>
          let tag := sproto_prototag sp (until_nul name) in
          Ret (if bool_decide (tag < 0) then None else Some (tag, ByTag tag))
        end;
    match r with
    | None => Ret None
    | Some (tag, first) =>
      request ← sproto_protoquery sp tag SPROTO_REQUEST;
      response ← sproto_protoquery sp tag SPROTO_RESPONSE;
      Ret (Some (first, request, response))
    end
  end.

Definition MAX_GLOBALSPROTO : Z := 16.

(** [slots] is the array [G_sproto] that all Lua states share. *)
Definition lsaveproto (slots : list (option sproto)) (sp : option sproto) (index : Z) : outcome (list (option sproto)) :=
  if bool_decide (index < 0 \/ index >= MAX_GLOBALSPROTO) then Raise "Invalid global slot index %d"
  else write_at slots index sp.

Definition lloadproto (slots : list (option sproto)) (index : Z) : outcome sproto :=
  if bool_decide (index < 0 \/ index >= MAX_GLOBALSPROTO) then Raise "Invalid global slot index %d"
  else
    sp ← read_at slots index;
    match sp with None => Raise "nil sproto at index %d" | Some sp => Ret sp end.
