(* ===== verification/SprotoLoad.v ===== *)
(** * What the loader of sproto schemas makes

    The blocks of the pool do not overlap, and a schema that was loaded from any bytes is
    well formed but for equal tags. *)
From stdpp Require Import base list gmap numbers strings.
From Stdlib Require Import ZArith Lia.
From S2P Require Import Prelude SprotoPack SprotoCode SprotoWire SprotoEncode SprotoDecode SprotoLua SprotoValue SprotoSchema.

Local Open Scope Z_scope.

(** ** The pool *)

(** Blocks are an address and a size. *)
Definition apart (b b' : Z * Z) : Prop := b.1 + b.2 <= b'.1 \/ b'.1 + b'.2 <= b.1.

Fixpoint all_apart (l : list (Z * Z)) : Prop :=
  match l with [] => True | b :: l => Forall (apart b) l /\ all_apart l end.

(** The free part of the current chunk. *)
Definition free_part (p : chunkpool) : Z * Z :=
  match pl_current p with
  | Some c => (c + SIZEOF_CHUNK + pl_used p, CHUNK_SIZE - pl_used p)
  | None => (pl_next p, 0)
  end.

Record pool_inv (p : chunkpool) (B : list (Z * Z)) : Prop := {
  pi_apart : all_apart B;
  pi_blocks : Forall (fun b => 0 <= b.2 /\ b.1 + b.2 <= pl_next p /\ apart b (free_part p)) B;
  pi_used : 0 <= pl_used p <= CHUNK_SIZE;
  pi_current : forall c, pl_current p = Some c -> c + SIZEOF_CHUNK + CHUNK_SIZE <= pl_next p
}.

Lemma pool_inv_init next : pool_inv (pool_init next) [].
Proof. by split; cbn. Qed.

(** A chunk of its own for a block. *)
Lemma newchunk_inv p B sz : pool_inv p B -> 0 <= sz ->
  let '(a, p') := pool_newchunk p sz in pool_inv p' ((a, sz) :: B) /\
    pool_inv (mk_chunkpool (pl_next p') (pl_chunks p') (pl_current p) (pl_used p)) ((a, sz) :: B).
Proof.
  intros [H1 H2 H3 H4] Hsz. cbn. assert (Hp : pool_inv (pool_newchunk p sz).2 ((pl_next p + SIZEOF_CHUNK, sz) :: B)).
  { unfold SIZEOF_CHUNK, CHUNK_SIZE in *. split; cbn.
    - split; [|done]. eapply Forall_impl; [exact H2|]. intros b (Hb & Hn & _). right. cbn. unfold SIZEOF_CHUNK. lia.
    - constructor.
      + split; [done|]. split; [unfold SIZEOF_CHUNK; cbn; lia|]. unfold free_part. cbn. destruct (pl_current p) as [c|] eqn:E.
        * right. specialize (H4 c eq_refl). cbn. unfold SIZEOF_CHUNK, CHUNK_SIZE. lia.
        * left. unfold SIZEOF_CHUNK. cbn. lia.
      + eapply Forall_impl; [exact H2|]. intros b (Hb & Hn & Hf). split; [done|]. unfold SIZEOF_CHUNK. split; [lia|].
        unfold free_part in *. cbn. destruct (pl_current p); [done|]. left. cbn. unfold SIZEOF_CHUNK. lia.
    - done.
    - intros c Hc. specialize (H4 c Hc). unfold SIZEOF_CHUNK, CHUNK_SIZE. lia. }
  by split.
Qed.

(** The new chunk becomes the current one, the block at its start. *)
Lemma newchunk_current p B sz : pool_inv p B -> 0 <= sz <= CHUNK_SIZE ->
  let '(a, p') := pool_newchunk p CHUNK_SIZE in pool_inv (set_current sz p') ((a, sz) :: B) /\
    a = pl_next p + SIZEOF_CHUNK.
Proof.
  intros [H1 H2 H3 H4] Hsz. cbn. split; [|done]. unfold SIZEOF_CHUNK, CHUNK_SIZE in *. split; cbn.
  - split; [|done]. eapply Forall_impl; [exact H2|]. intros b (Hb & Hn & _). right. cbn. unfold SIZEOF_CHUNK. lia.
  - constructor; [split; [cbn; lia|]; split; [cbn; unfold SIZEOF_CHUNK, CHUNK_SIZE; lia|]; left; cbn; unfold SIZEOF_CHUNK; lia|].
    eapply Forall_impl; [exact H2|]. intros b (Hb & Hn & _). split; [done|]. unfold SIZEOF_CHUNK, CHUNK_SIZE. split; [lia|].
    left. cbn. unfold SIZEOF_CHUNK. lia.
  - unfold CHUNK_SIZE. lia.
  - intros c [= <-]. unfold SIZEOF_CHUNK, CHUNK_SIZE. lia.
Qed.

Lemma pool_inv_drop p b B : pool_inv p (b :: B) -> pool_inv p B.
Proof. by intros [[_ H1] [_ H2]%Forall_cons H3 H4]. Qed.

(** What [pool_alloc] gives is apart from every block that it gave before. *)
Lemma pool_alloc_inv p B sz : pool_inv p B -> 0 <= sz ->
  let '(a, p') := pool_alloc p sz in pool_inv p' ((a, (sz + 7) / 8 * 8) :: B).
Proof.
  intros Hp Hsz. unfold pool_alloc. assert (Hn : sz <= (sz + 7) / 8 * 8) by dlia. set (n := (sz + 7) / 8 * 8) in *.
  assert (Hn0 : 0 <= n) by lia.
  case_bool_decide as Hbig.
  { pose proof (newchunk_inv p B n Hp Hn0) as Hc. destruct (pool_newchunk p n) as [a p']. by destruct Hc. }
  set (q := match pl_current p with Some _ => p | None => _ end).
  assert (Hq : pool_inv q B /\ exists c, pl_current q = Some c).
  { unfold q. destruct (pl_current p) as [c|] eqn:E; [split; [done|by exists c]|]. cbn [pool_newchunk]. split.
    - pose proof (newchunk_current p B (pl_used p) Hp (pi_used _ _ Hp)) as Hc. cbn [pool_newchunk] in Hc.
      eapply pool_inv_drop, Hc.
    - eexists. reflexivity. }
  clearbody q. destruct Hq as [Hq (c & Ec)]. cbv zeta. rewrite Ec. cbn [default]. case_bool_decide as Hfit.
  - destruct Hq as [H1 H2 H3 H4]. specialize (H4 c Ec). unfold free_part in H2. rewrite Ec in H2.
    unfold SIZEOF_CHUNK, CHUNK_SIZE in *. split; cbn.
    + split; [|done]. eapply Forall_impl; [exact H2|]. unfold apart. cbn. intros b (Hb & Hnx & Hf). unfold SIZEOF_CHUNK, CHUNK_SIZE in *. lia.
    + unfold free_part. cbn. unfold apart, SIZEOF_CHUNK, CHUNK_SIZE. cbn. constructor; [cbn; lia|].
      eapply Forall_impl; [exact H2|]. unfold apart. cbn. intros b (Hb & Hnx & Hf). lia.
    + unfold CHUNK_SIZE. lia.
    + intros c' [= <-]. unfold SIZEOF_CHUNK, CHUNK_SIZE. lia.
  - case_bool_decide as Hown.
    + pose proof (newchunk_inv q B n Hq Hn0) as Hc. destruct (pool_newchunk q n) as [a p']. by destruct Hc.
    + pose proof (newchunk_current q B n Hq ltac:(lia)) as Hc. destruct (pool_newchunk q CHUNK_SIZE) as [a p']. by destruct Hc.
Qed.

Lemma all_apart_sublist l l' : sublist l l' -> all_apart l' -> all_apart l.
Proof.
  induction 1 as [|b l l' Hs IH|b l l' Hs IH]; [done| |].
  - intros [Hb Ha]. split; [|by apply IH]. rewrite Forall_forall in Hb |- *. intros x Hx. apply Hb. by eapply elem_of_sublist.
  - intros [_ Ha]. by apply IH.
Qed.

Lemma pool_inv_sublist p B B' : sublist B' B -> pool_inv p B -> pool_inv p B'.
Proof.
  intros Hs [H1 H2 H3 H4]. split; [by eapply all_apart_sublist| |done|done].
  rewrite Forall_forall in H2 |- *. intros x Hx. apply H2. by eapply elem_of_sublist.
Qed.

(** A step of the loader that makes the blocks [l], none of them empty. *)
Definition grows (p p' : chunkpool) (l : list (Z * Z)) : Prop :=
  Forall (fun b => 0 < b.2) l /\ forall B, pool_inv p B -> pool_inv p' (l ++ B).

Lemma grows_refl p : grows p p [].
Proof. by split. Qed.

Lemma grows_trans p p1 p2 l1 l2 : grows p p1 l1 -> grows p1 p2 l2 -> grows p p2 (l2 ++ l1).
Proof.
  intros [P1 H1] [P2 H2]. split; [by apply Forall_app|]. intros B HB. rewrite <- app_assoc. by apply H2, H1.
Qed.

Lemma grows_sublist p p' l l' : sublist l l' -> grows p p' l' -> grows p p' l.
Proof.
  intros Hs [P H]. split.
  - rewrite Forall_forall in P |- *. intros x Hx. apply P. by eapply elem_of_sublist.
  - intros B HB. eapply pool_inv_sublist; [|by apply H]. by apply sublist_app.
Qed.

Lemma grows_alloc p sz : 0 <= sz -> grows p (pool_alloc p sz).2 [].
Proof.
  intros Hsz. split; [done|]. intros B HB. pose proof (pool_alloc_inv p B sz HB Hsz) as H. destruct (pool_alloc p sz) as [a p'].
  by eapply pool_inv_drop.
Qed.

(** The blocks of a growing pool have addresses of their own. *)
Lemma grows_distinct p p' l : grows p p' l -> pool_inv p [] -> NoDup l.*1.
Proof.
  intros [Hpos H] Hp. specialize (H [] Hp). rewrite app_nil_r in H. destruct H as [H1 _ _ _].
  clear Hp p p'. induction l as [|b l IH]; [constructor|]. destruct H1 as [Hb H1]. apply Forall_cons in Hpos as [Hb0 Hpos].
  cbn. constructor; [|by apply IH]. intros (b' & He & Hin)%list_elem_of_fmap. rewrite Forall_forall in Hb, Hpos.
  specialize (Hb b' Hin). specialize (Hpos b' Hin). unfold apart in Hb. lia.
Qed.

(** ** Schemas from any bytes *)

(** The numbers of a field that was loaded for a schema of [n] types. *)
Definition field_loaded (n : Z) (f : field) : Prop :=
  field_ok f /\ 0 <= f_tag f < 0x7fff /\ -1 <= f_key f < 0x7fff /\
  match f_st f with
  | Some k => elem_type f = SPROTO_TSTRUCT /\ Z.of_nat k < n
  | None => elem_type f <> SPROTO_TSTRUCT
  end.

Fixpoint ordered (last : Z) (tags : list Z) : Prop :=
  match tags with [] => True | t :: tags => last <= t /\ ordered t tags end.

(** Equal tags are the one thing that a loaded type can have wrong. *)
Definition type_loaded (n : Z) (t : sproto_type) : Prop :=
  Forall (field_loaded n) (t_f t) /\ ordered (-1) (f_tag <$> t_f t) /\ (NoDup (f_tag <$> t_f t) -> type_ok t).

Definition protocol_loaded (n : Z) (q : protocol) : Prop :=
  0 <= pr_tag q < 0x7fff /\ forall k, pr_request q = Some k \/ pr_response q = Some k -> Z.of_nat k < n.

(** Taking a successful computation apart. *)
Lemma bind_Ret_inv {A B} (o : outcome A) (k : A -> outcome B) y : (x ← o; k x) = Ret y -> exists x, o = Ret x /\ k x = Ret y.
Proof. destruct o as [x| |]; try done. intros H. by exists x. Qed.

Ltac run_step H := apply bind_Ret_inv in H as (? & ? & H).
Tactic Notation "run_as" hyp(H) "as" simple_intropattern(x) := apply bind_Ret_inv in H as (x & ? & H).

Lemma read_bytes_sub m p n b : read_bytes m p n = Ret b -> Bytes m -> Bytes b.
Proof. unfold read_bytes. case_decide; [|done]. intros [= <-] Hm. by apply Forall_take, Forall_drop. Qed.

Lemma toword_range m p v : Bytes m -> toword m p = Ret v -> 0 <= v < 2 ^ 16.
Proof.
  intros Hm H. unfold toword in H. run_step H. injection H as <-. rename H0 into Hr.
  pose proof (read_bytes_sub _ _ _ _ Hr Hm) as Hb. unfold read_bytes in Hr. case_decide; [|done]. injection Hr as <-.
  apply le_value_range in Hb as Hv. rewrite length_take, length_drop in Hv.
  replace (_ `min` _)%nat with 2%nat in Hv by lia. exact Hv.
Qed.

(** A field that is being read, when the tags up to [tag] were seen. *)
Record pfield_ok (n tag : Z) (f : pfield) : Prop := {
  po_tag : -1 <= pf_tag f < 0x7fff;
  po_key : -1 <= pf_key f < 0x7fff;
  po_array : pf_array f = 0 \/ pf_array f = SPROTO_TARRAY;
  po_early : tag < 2 -> pf_st f = None;
  po_type : match pf_st f with Some k => pf_type f = SPROTO_TSTRUCT /\ Z.of_nat k < n | None => -1 <= pf_type f < SPROTO_TSTRUCT end
}.

Lemma pfield_later n tag tag' f : tag <= tag' -> pfield_ok n tag f -> pfield_ok n tag' f.
Proof. intros Ht [H1 H2 H3 H4 H5]. split; try done. intros Hlt. apply H4. lia. Qed.

Lemma import_word_ok m n tag last v data f p f' p' : import_word m n tag v data f p = Ret (Some (f', p')) ->
  0 <= v < 2 ^ 16 -> Z.land v 1 = 0 -> last < tag -> pfield_ok n last f -> pfield_ok n tag f'.
Proof.
  intros H Hv He Ht Hf. apply (pfield_later _ _ tag) in Hf as Hf'; [|lia]. destruct Hf' as [H1 H2 H3 H4 H5]. rewrite land_1 in He.
  unfold import_word in H. case_bool_decide as T0.
  { case_bool_decide; [done|]. run_step H. destruct x as [name p1]. injection H as <- <-. by split. }
  case_bool_decide as V0; [done|]. assert (Hw : 0 <= v / 2 - 1 < 0x7fff) by dlia. set (w := v / 2 - 1) in *.
  case_bool_decide as T1.
  { case_bool_decide as Hb; [done|]. injection H as <- <-. split; try done; cbn. rewrite H4 by lia.
    unfold SPROTO_TSTRUCT in *. lia. }
  case_bool_decide as T2.
  { case_bool_decide as Hb; [done|]. injection H as <- <-. split; try done; cbn; [lia|]. split; [done|]. lia. }
  case_bool_decide as T3; [injection H as <- <-; split; try done; cbn; lia|].
  case_bool_decide as T4.
  { injection H as <- <-. split; try done; cbn. case_bool_decide; [by right|done]. }
  case_bool_decide as T5; [|done]. injection H as <- <-. split; try done; cbn; lia.
Qed.

Lemma import_words_ok m (Hm : Bytes m) k n : forall word data tag f p f' p', -1 <= tag ->
  import_words m k n word data tag f p = Ret (Some (f', p')) -> pfield_ok n tag f -> exists tag', pfield_ok n tag' f'.
Proof.
  induction k as [|k IH]; intros word data tag f p f' p' Ht H Hf; cbn [import_words] in H.
  { injection H as <- <-. by exists tag. }
  run_step H. rename x into v. match goal with Hv : toword _ _ = _ |- _ => apply (toword_range _ _ _ Hm) in Hv as Hv' end.
  case_bool_decide as Hodd.
  - eapply (IH _ _ (tag + 1 + v / 2)) in H; [done|dlia|]. eapply pfield_later; [|done]. dlia.
  - run_step H. destruct x as [[f1 p1]|]; [|done]. eapply IH in H; [done|lia|].
    eapply (import_word_ok _ _ _ tag); [eassumption|done|done|lia|exact Hf].
Qed.

Lemma empty_field_ok n : pfield_ok n (-1) empty_field.
Proof. split; cbn; first [done | lia | by left]. Qed.

(** The type with its flag. *)
Lemma array_flag t a : -1 <= t <= 3 -> 0 <= t -> a = 0 \/ a = SPROTO_TARRAY ->
  Z.land (Z.lor t a) (Z.lnot SPROTO_TARRAY) = t /\ (Z.lor t a = t \/ Z.lor t a = t + SPROTO_TARRAY).
Proof.
  intros H1 H2 Ha. assert (Ht : t = 0 \/ t = 1 \/ t = 2 \/ t = 3) by lia.
  destruct Ha as [-> | ->], Ht as [-> | [-> | [-> | ->]]]; vm_compute; auto.
Qed.

Lemma import_field_ok m (Hm : Bytes m) n stream p f result p' :
  import_field m n stream p = Ret (Some (f, result, p')) -> field_loaded n f.
Proof.
  intros H. unfold import_field in H. run_step H. run_step H. case_bool_decide; [done|]. run_step H.
  destruct x1 as [[g p1]|]; [|done]. destruct (pf_name g) as [name|] eqn:En; [|done]. case_bool_decide as Hneg; [done|].
  injection H as <- <- <-.
  match goal with Hw : import_words _ _ _ _ _ _ _ _ = _ |- _ =>
    destruct (import_words_ok _ Hm _ _ _ _ _ _ _ _ _ (Z.le_refl (-1)) Hw (empty_field_ok n)) as [tag [P1 P2 P3 P4 P5]] end.
  assert (Hty : -1 <= pf_type g <= 3) by (destruct (pf_st g); unfold SPROTO_TSTRUCT in *; lia).
  destruct (array_flag (pf_type g) (pf_array g) Hty ltac:(lia) P3) as [He Hf]. unfold field_loaded, field_ok, elem_type. cbn. rewrite He.
  split; [split; [lia|done]|]. split; [lia|]. split; [lia|]. destruct (pf_st g) as [k|]; [done|]. unfold SPROTO_TSTRUCT in *. lia.
Qed.

(** The tags that need a word of their own before them. *)
Fixpoint gaps (last : Z) (tags : list Z) : Z :=
  match tags with [] => 0 | t :: tags => (if bool_decide (t > last + 1) then 1 else 0) + gaps t tags end.

Lemma import_fields_ok m (Hm : Bytes m) n k : forall stream last maxn fs p fs' maxn' p',
  import_fields m k n stream last maxn fs p = Ret (Some (fs', maxn', p')) ->
  exists new, fs' = fs ++ new /\ length new = k /\ Forall (field_loaded n) new /\ ordered last (f_tag <$> new) /\
    maxn' = maxn + gaps last (f_tag <$> new).
Proof.
  induction k as [|k IH]; intros stream last maxn fs p fs' maxn' p' H; cbn [import_fields] in H.
  { injection H as <- <- <-. exists []. rewrite app_nil_r. split; [done|]. split; [done|]. split; [done|]. split; [done|]. cbn. lia. }
  run_step H. destruct x as [[[f s] p1]|]; [|done]. case_bool_decide as Hlt; [done|].
  match goal with Hf : import_field _ _ _ _ = _ |- _ => apply (import_field_ok _ Hm) in Hf end.
  apply IH in H as (new & -> & Hl & Hn & Ho & ->). exists (f :: new). rewrite <- app_assoc. split; [done|]. split; [cbn; lia|].
  split; [by constructor|]. split; [split; [lia|done]|]. cbn. case_bool_decide; lia.
Qed.

(** Distinct ordered tags ascend. *)
Lemma ordered_ascending tags : forall last, ordered last tags -> NoDup tags -> last ∉ tags -> Forall (fun t => t < 0x7fff) tags ->
  ascending last tags.
Proof.
  induction tags as [|t tags IH]; intros last Ho Hn Hl Hb; [done|]. destruct Ho as [Hlt Ho].
  apply NoDup_cons in Hn as [Ht Hn]. apply not_elem_of_cons in Hl as [Hne Hl]. apply Forall_cons in Hb as [Hb0 Hb].
  split; [lia|]. by apply IH.
Qed.

Lemma slots_gaps fs : forall last, ascending last (f_tag <$> fs) ->
  slots last fs = Z.of_nat (length fs) + gaps last (f_tag <$> fs).
Proof.
  induction fs as [|f fs IH]; intros last Ha; [done|]. destruct Ha as [Ht Ha]. cbn [slots fmap list_fmap gaps length].
  rewrite IH by done. repeat case_bool_decide; lia.
Qed.

(** Ascending tags that are as many as the numbers from the first to the last are those. *)
Lemma ascending_dense tags : forall last i t, ascending last tags -> tags !! i = Some t -> last + Z.of_nat i < t.
Proof.
  induction tags as [|x tags IH]; intros last i t Ha Hi; [done|]. destruct Ha as [Hx Ha]. destruct i as [|i]; [injection Hi as <-; lia|].
  specialize (IH x i t Ha Hi). lia.
Qed.

Lemma ascending_base tags base : forall last i t tl, ascending last tags -> tags !! i = Some t -> tags !! pred (length tags) = Some tl ->
  last = base - 1 -> tl - base + 1 = Z.of_nat (length tags) -> t = base + Z.of_nat i.
Proof.
  revert base. induction tags as [|x tags IH]; intros base last i t tl Ha Hi Hl -> Hd; [done|]. destruct Ha as [Hx Ha]. cbn [length pred] in Hl, Hd.
  assert (Hxb : x = base).
  { destruct tags as [|y tags]; [cbn in Hl; injection Hl as ->; cbn in Hd; lia|].
    pose proof (ascending_dense _ _ (length tags) tl Ha Hl). cbn in Hd. lia. }
  subst x. destruct i as [|i]; [injection Hi as <-; lia|]. destruct tags as [|y tags]; [done|].
  rewrite (IH (base + 1) base i t tl); try done; [lia|cbn [length] in *; lia|cbn [length] in *; lia].
Qed.

(** A type whose numbers were computed from its fields. *)
Lemma type_of_fields name n fs first last k : Forall (field_loaded k) fs -> ordered (-1) (f_tag <$> fs) ->
  n = Z.of_nat (length fs) -> fs !! 0%nat = Some first -> fs !! pred (length fs) = Some last ->
  type_loaded k (mk_type name n (if bool_decide (f_tag last - f_tag first + 1 <> n) then -1 else f_tag first)
    (n + gaps (-1) (f_tag <$> fs)) fs).
Proof.
  intros Hf Ho -> H0 Hl. split; [done|]. split; [done|]. cbn. intros Hn.
  assert (Ha : ascending (-1) (f_tag <$> fs)).
  { apply ordered_ascending; [done|done| |].
    - intros (f & He & Hin)%list_elem_of_fmap. rewrite Forall_forall in Hf. destruct (Hf f Hin) as (_ & Ht & _). lia.
    - apply Forall_fmap. eapply Forall_impl; [exact Hf|]. intros f (_ & Ht & _). cbn. lia. }
  split; cbn; [done|done|by rewrite slots_gaps| |].
  - case_bool_decide as Hd; [lia|]. intros _ i f Hi. destruct fs as [|g fs]; [done|]. injection H0 as ->.
    destruct Ha as [_ Ha]. eapply (ascending_base (f_tag first :: (f_tag <$> fs)) (f_tag first) (f_tag first - 1) i); try done.
    + split; [|exact Ha]. apply Forall_cons in Hf as [(_ & Ht & _) _]. lia.
    + change (f_tag first :: (f_tag <$> fs)) with (f_tag <$> (first :: fs)). by rewrite list_lookup_fmap, Hi.
    + change (f_tag first :: (f_tag <$> fs)) with (f_tag <$> (first :: fs)). by rewrite length_fmap, list_lookup_fmap, Hl.
    + cbn [length] in *. rewrite length_fmap. exact Hd.
  - eapply Forall_impl; [exact Hf|]. by intros f [? _].
Qed.

Lemma read_at_inv {A} (l : list A) i x : read_at l i = Ret x -> 0 <= i /\ l !! Z.to_nat i = Some x.
Proof.
  unfold read_at. destruct (decide (0 <= i)); [|done]. destruct (l !! Z.to_nat i); [|done]. by intros [= ->].
Qed.

Lemma import_type_ok m (Hm : Bytes m) k stream p t result p' :
  import_type m k stream p = Ret (Some (t, result, p')) -> type_loaded k t.
Proof.
  intros H. unfold import_type in H. run_step H. run_step H. case_bool_decide; [done|]. run_step H. destruct x1; [|done].
  cbn [negb] in H. run_step H. destruct x1 as [name p1]. case_bool_decide as Hone.
  - injection H as <- <- <-. split; [done|]. split; [done|]. intros _. split; cbn; done || constructor.
  - run_as H as d. run_as H as n. case_bool_decide as Hneg; [done|]. destruct (pool_alloc p1 _) as [a p2].
    run_as H as [[[fs maxn] p3]|]; [|done]. run_as H as first. run_as H as last. injection H as <- <- <-.
    match goal with Hi : import_fields _ _ _ _ _ _ _ _ = _ |- _ => pose proof (import_fields_ok _ Hm _ _ _ _ _ _ _ _ _ _ Hi) as (new & Efs & Hl & Hf & Ho & Emax) end.
    subst fs maxn.
    repeat match goal with Hr : read_at _ _ = Ret _ |- _ => apply read_at_inv in Hr as [? ?] end. cbn [app] in *.
    apply type_of_fields; try done; [lia|]. replace (pred (length new)) with (Z.to_nat (n - 1)) by lia. done.
Qed.

Lemma import_types_ok m (Hm : Bytes m) n k : forall typedata ts p ts' p',
  import_types m n k typedata ts p = Ret (Some (ts', p')) -> exists new, ts' = ts ++ new /\ length new = n /\ Forall (type_loaded k) new.
Proof.
  induction n as [|n IH]; intros typedata ts p ts' p' H; cbn [import_types] in H.
  { injection H as <- <-. exists []. by rewrite app_nil_r. }
  run_step H. destruct x as [[[t s] p1]|]; [|done]. apply IH in H as (new & -> & Hl & Hn). exists (t :: new).
  rewrite <- app_assoc. split; [done|]. split; [cbn; lia|]. constructor; [|done]. by eapply import_type_ok.
Qed.

(** A protocol that is being read. *)
Definition pprotocol_ok (n : Z) (q : pprotocol) : Prop :=
  -1 <= pp_tag q < 0x7fff /\ forall k, pp_request q = Some k \/ pp_response q = Some k -> Z.of_nat k < n.

Lemma protocol_words_ok m (Hm : Bytes m) n k : forall word data i q p q' p',
  protocol_words m k n word data i q p = Ret (Some (q', p')) -> pprotocol_ok n q -> pprotocol_ok n q'.
Proof.
  induction k as [|k IH]; intros word data i q p q' p' H Hq; cbn [protocol_words] in H.
  { by injection H as <- <-. }
  run_step H. match goal with Hv : toword _ _ = _ |- _ => apply (toword_range _ _ _ Hm) in Hv end.
  case_bool_decide; [by eapply IH|]. destruct Hq as [Ht Hk]. assert (Hv : -1 <= x / 2 - 1 < 0x7fff) by dlia.
  case_bool_decide.
  { case_bool_decide; [done|]. run_step H. destruct x0 as [name p1]. eapply IH; [exact H|]. by split. }
  case_bool_decide.
  { case_bool_decide; [done|]. eapply IH; [exact H|]. split; [cbn; lia|done]. }
  case_bool_decide.
  { case_bool_decide; [done|]. eapply IH; [exact H|]. split; [done|]. cbn. intros j [[= <-]|Hj]; [lia|apply Hk; by right]. }
  case_bool_decide; [|done]. case_bool_decide; [done|]. eapply IH; [exact H|]. split; [done|]. cbn.
  intros j [Hj|[= <-]]; [apply Hk; by left|lia].
Qed.

Lemma import_protocol_ok m (Hm : Bytes m) n stream p q result p' :
  import_protocol m n stream p = Ret (Some (q, result, p')) -> protocol_loaded n q.
Proof.
  intros H. unfold import_protocol in H. run_step H. run_step H. run_step H. destruct x1 as [[g p1]|]; [|done].
  destruct (pp_name g) as [name|]; [|done]. case_bool_decide; [done|]. injection H as <- <- <-.
  match goal with Hw : protocol_words _ _ _ _ _ _ _ _ = _ |- _ => apply (protocol_words_ok _ Hm) in Hw as [Ht Hk] end.
  - split; [cbn; lia|done].
  - split; [cbn; lia|]. by intros j [|].
Qed.

Lemma import_protocols_ok m (Hm : Bytes m) n k : forall data qs p qs' p',
  import_protocols m n k data qs p = Ret (Some (qs', p')) -> exists new, qs' = qs ++ new /\ length new = n /\ Forall (protocol_loaded k) new.
Proof.
  induction n as [|n IH]; intros data qs p qs' p' H; cbn [import_protocols] in H.
  { injection H as <- <-. exists []. by rewrite app_nil_r. }
  run_step H. destruct x as [[[t s] p1]|]; [|done]. apply IH in H as (new & -> & Hl & Hn). exists (t :: new).
  rewrite <- app_assoc. split; [done|]. split; [cbn; lia|]. constructor; [|done]. by eapply import_protocol_ok.
Qed.

Lemma bundle_loop_ok m n : forall word content i b p b' p', bundle_loop m n word content i b p = Ret (Some (b', p')) ->
  0 <= b_type_n b -> 0 <= b_protocol_n b -> 0 <= b_type_n b' /\ 0 <= b_protocol_n b'.
Proof.
  induction n as [|n IH]; intros word content i b p b' p' H Ht Hp; cbn [bundle_loop] in H.
  { by injection H as <- <-. }
  run_step H. case_bool_decide; [done|]. run_step H. case_bool_decide; [done|].
  case_bool_decide; destruct (pool_alloc p _) as [a p1]; run_step H; (eapply IH; [exact H|cbn; lia..]).
Qed.

Lemma sproto_create_loaded m next sz s : Bytes m -> sproto_create m next sz = Ret (Some s) ->
  s_type_n s = Z.of_nat (length (s_type s)) /\ Forall (type_loaded (s_type_n s)) (s_type s) /\
  s_protocol_n s = Z.of_nat (length (s_proto s)) /\ Forall (protocol_loaded (s_type_n s)) (s_proto s).
Proof.
  intros Hm H. unfold sproto_create in H. destruct (pool_alloc _ SIZEOF_SPROTO) as [a p]. unfold create_from_bundle in H.
  run_step H. case_bool_decide; [done|]. run_step H. destruct x0 as [[b p1]|]; [|done]. run_step H.
  destruct x0 as [[ts p2]|]; [|done]. run_step H. destruct x0 as [[qs p3]|]; [|done]. injection H as <-. cbn.
  match goal with Hb : bundle_loop _ _ _ _ _ _ _ = _ |- _ => apply bundle_loop_ok in Hb as [Hbt Hbp]; [|cbn; lia..] end.
  match goal with Hb : import_types _ _ _ _ _ _ = _ |- _ => apply (import_types_ok _ Hm) in Hb as (ts' & -> & Hl & Ht) end.
  match goal with Hb : import_protocols _ _ _ _ _ _ = _ |- _ => apply (import_protocols_ok _ Hm) in Hb as (qs' & -> & Hl' & Hq) end.
  cbn [app] in *. split; [lia|]. split; [done|]. split; [lia|done].
Qed.

(** C36: A schema that was loaded from any bytes, hostile ones included, is well typed: its
    numbers are those of its lists, every field has a builtin type or a type of the schema,
    no pointer to a type leaves the array, the tags of a type are in order, and a type
    whose tags differ fits what the encoder and the decoder count on. *)
Theorem loaded_schema_well_typed m next s : Bytes m -> lnewproto m next = Ret (Some s) ->
  s_type_n s = Z.of_nat (length (s_type s)) /\ Forall (type_loaded (s_type_n s)) (s_type s) /\
  s_protocol_n s = Z.of_nat (length (s_proto s)) /\ Forall (protocol_loaded (s_type_n s)) (s_proto s).
Proof. intros Hm H. eapply sproto_create_loaded; [exact Hm|exact H]. Qed.

(** The bytes of a schema with two types and two protocols. *)
Definition demo_schema_bytes : list Z :=
  [2; 0; 0; 0; 0; 0; 135; 0; 0; 0; 60; 0; 0; 0; 2; 0; 0; 0; 0; 0; 4; 0;
   0; 0; 105; 116; 101; 109; 42; 0; 0; 0; 16; 0; 0; 0; 4; 0; 0; 0; 2; 0;
   1; 0; 2; 0; 2; 0; 0; 0; 105; 100; 18; 0; 0; 0; 4; 0; 0; 0; 6; 0; 1;
   0; 6; 0; 4; 0; 0; 0; 110; 97; 109; 101; 67; 0; 0; 0; 2; 0; 0; 0; 0;
   0; 4; 0; 0; 0; 108; 105; 115; 116; 49; 0; 0; 0; 23; 0; 0; 0; 6; 0; 0;
   0; 1; 0; 2; 0; 4; 0; 4; 0; 2; 0; 5; 0; 0; 0; 105; 116; 101; 109; 115;
   18; 0; 0; 0; 4; 0; 0; 0; 1; 0; 4; 0; 8; 0; 4; 0; 0; 0; 110; 101; 120;
   116; 43; 0; 0; 0; 17; 0; 0; 0; 4; 0; 0; 0; 4; 0; 2; 0; 4; 0; 3; 0; 0;
   0; 103; 101; 116; 18; 0; 0; 0; 4; 0; 0; 0; 12; 0; 1; 0; 2; 0; 4; 0;
   0; 0; 116; 105; 99; 107].

Lemma loaded_schema_well_typed_witness : exists s, lnewproto demo_schema_bytes 0 = Ret (Some s) /\ length (s_type s) = 2%nat /\
  s_type_n s = Z.of_nat (length (s_type s)) /\ Forall (type_loaded (s_type_n s)) (s_type s) /\
  s_protocol_n s = Z.of_nat (length (s_proto s)) /\ Forall (protocol_loaded (s_type_n s)) (s_proto s).
Proof.
  eexists. split; [vm_compute; reflexivity|]. split; [reflexivity|]. apply (loaded_schema_well_typed demo_schema_bytes 0).
  - apply Forall_forall. intros c Hc. revert c Hc. apply Forall_forall. repeat constructor; done.
  - vm_compute. reflexivity.
Defined.
