(* ===== verification/SprotoBundle.v ===== *)
(** * The bytes of a schema are loaded to its types and protocols

    A schema is described by its types and protocols; [schema_bytes] is its message, by the
    schema of schemas that a comment of sproto.c gives.  The loader makes the same types and
    protocols again, with names in blocks of their own, and the protocol of a tag is found. *)
From stdpp Require Import base list gmap numbers strings.
From Stdlib Require Import ZArith Lia.
From S2P Require Import Prelude SprotoPack SprotoCode SprotoWire SprotoEncode SprotoDecode SprotoLua SprotoValue SprotoSchema SprotoLoad.

Local Open Scope Z_scope.

(** ** The bytes of a schema *)

(** A field of a type: a builtin type or one of the schema, with a main index for a map. *)
Inductive ftype := FBuiltin (b : Z) | FStruct (i : nat).

Record field_spec := mk_fspec {
  fs_name : list Z;
  fs_type : ftype;
  fs_tag : Z;
  fs_array : bool;
  fs_key : option Z
}.

Record type_spec := mk_tspec { ts_name : list Z; ts_fields : list field_spec }.

Record proto_spec := mk_pspec {
  ps_name : list Z;
  ps_tag : Z;
  ps_request : option nat;
  ps_response : option nat
}.

Record schema_spec := mk_schema { sc_types : list type_spec; sc_protos : list proto_spec }.

Definition sub (b : list Z) : item := ISub 0 true b.

(** The contents of their messages, by the schema of schemas. *)
Definition field_contents (s : field_spec) : list (Z * content) :=
  [(0, One (IStr (fs_name s)));
   match fs_type s with FBuiltin b => (1, One (IInt b)) | FStruct i => (2, One (IInt (Z.of_nat i))) end;
   (3, One (IInt (fs_tag s)))] ++
  (if fs_array s then [(4, One (IBool true))] else []) ++
  match fs_key s with Some k => [(5, One (IInt k))] | None => [] end.

Definition objects (bs : list (list Z)) : content := Many (sub <$> bs).

Definition type_contents (t : type_spec) : list (Z * content) :=
  (0, One (IStr (ts_name t))) ::
  match ts_fields t with [] => [] | fs => [(1, objects (message ∘ field_contents <$> fs))] end.

Definition proto_contents (q : proto_spec) : list (Z * content) :=
  [(0, One (IStr (ps_name q))); (1, One (IInt (ps_tag q)))] ++
  match ps_request q with Some i => [(2, One (IInt (Z.of_nat i)))] | None => [] end ++
  match ps_response q with Some i => [(3, One (IInt (Z.of_nat i)))] | None => [] end.

Definition schema_contents (sc : schema_spec) : list (Z * content) :=
  match sc_types sc with
  | [] => []
  | ts => (0, objects (message ∘ type_contents <$> ts)) ::
          match sc_protos sc with [] => [] | qs => [(1, objects (message ∘ proto_contents <$> qs))] end
  end.

Definition schema_bytes (sc : schema_spec) : list Z := message (schema_contents sc).

(** ** What is checked of a message *)

Lemma data_objects bs : data_of (objects bs) = sized (concat (sized <$> bs)).
Proof.
  unfold data_of, objects. cbn [word_of]. rewrite bool_decide_false by (intros H; by apply H). f_equal.
  assert (He : forall w, element w <$> (sub <$> bs) = sized <$> bs).
  { intros w. rewrite <- list_fmap_compose. by apply list_fmap_ext. }
  unfold array_bytes, array_elements. rewrite He. by destruct bs.
Qed.

Lemma count_loop_spec m bs : forall fuel stream length n, placed m stream (concat (sized <$> bs)) ->
  length = Z.of_nat (List.length (concat (sized <$> bs))) -> length < 2 ^ 32 -> (List.length bs < fuel)%nat ->
  count_loop m fuel stream length n = Ret (n + Z.of_nat (List.length bs)).
Proof.
  induction bs as [|b bs IH]; intros fuel stream length n Hp Hl Hlt Hf; (destruct fuel as [|fuel]; [cbn in Hf; lia|]); cbn [count_loop].
  - cbn in Hl. rewrite bool_decide_false by lia. f_equal. cbn. lia.
  - rewrite fmap_cons in Hp, Hl. cbn [concat] in Hp, Hl. rewrite length_app, sized_length in Hl.
    rewrite bool_decide_true by lia. unfold SIZEOF_LENGTH. rewrite bool_decide_false by lia.
    destruct (sized_placed _ _ _ _ Hp) as (Hd & _ & Hr); [lia|]. step_with Hd. rewrite u32_small by (unfold is_u32; lia).
    rewrite bool_decide_false by lia. rewrite IH; [|unfold SIZEOF_LENGTH in Hr|lia|lia|cbn in Hf; lia].
    + f_equal. cbn. lia.
    + by replace (stream + (Z.of_nat (List.length b) + 4)) with (stream + 4 + Z.of_nat (List.length b)) by lia.
Qed.

Lemma length_concat_sized (bs : list (list Z)) : (length bs <= length (concat (sized <$> bs)))%nat.
Proof. induction bs as [|b bs IH]; [done|]. rewrite fmap_cons. cbn [concat length]. rewrite length_app, sized_length. lia. Qed.

Lemma count_array_spec m p bs l : placed m p (sized (concat (sized <$> bs)) ++ l) -> Z.of_nat (length (concat (sized <$> bs))) < 2 ^ 31 ->
  count_array m p = Ret (Z.of_nat (length bs)).
Proof.
  intros Hp Hl. destruct (sized_placed _ _ _ _ Hp) as (Hd & Hb & _); [lia|]. unfold count_array. step_with Hd.
  rewrite (count_loop_spec m bs); [done|done|done|lia|]. pose proof (length_concat_sized bs). lia.
Qed.

(** The words that stand for data. *)
Definition zeros (ws : list Z) : nat := length (filter (fun w => w = 0) ws).

Lemma struct_loop_spec m ws : forall bs field stream sz, placed m (field + 2) (words ws) -> placed m stream (concat (sized <$> bs)) ->
  Forall (fun w => 0 <= w < 2 ^ 16) ws -> (zeros ws <= length bs)%nat ->
  Z.of_nat (length (concat (sized <$> bs))) <= sz < 2 ^ 32 -> struct_loop m (length ws) field stream sz = Ret true.
Proof.
  induction ws as [|w ws IH]; intros bs field stream sz Hw Hb Hr Hz Hsz; [done|]. apply Forall_cons in Hr as [Hw0 Hr].
  change (words (w :: ws)) with (le_bytes 2 w ++ words ws) in Hw. cbn [length struct_loop]. unfold SIZEOF_HEADER, SIZEOF_FIELD.
  step_with (toword_placed _ _ _ _ Hw). rewrite Z.mod_small by lia. apply placed_app in Hw as [_ Hw]. rewrite length_le_bytes in Hw.
  replace (field + 2 + Z.of_nat 2) with (field + 2 + 2) in Hw by lia. unfold zeros in Hz. rewrite filter_cons in Hz. case_bool_decide as E.
  - rewrite decide_False in Hz by done. by eapply IH.
  - rewrite decide_True in Hz by done. cbn [length] in Hz. destruct bs as [|b bs]; [cbn in Hz; lia|].
    rewrite fmap_cons in Hb, Hsz. cbn [concat] in Hb, Hsz. rewrite length_app, sized_length in Hsz. unfold SIZEOF_LENGTH.
    rewrite bool_decide_false by lia. destruct (sized_placed _ _ _ _ Hb) as (Hd & _ & Hb'); [lia|]. step_with Hd.
    rewrite u32_small by (unfold is_u32; lia). rewrite bool_decide_false by lia. eapply (IH bs); [done| |done| |lia].
    + unfold SIZEOF_LENGTH in Hb'. by replace (stream + (4 + Z.of_nat (length b))) with (stream + 4 + Z.of_nat (length b)) by lia.
    + cbn in Hz. unfold zeros. lia.
Qed.

(** A content of a schema: it takes no more than a word or comes behind the records. *)
Definition plain (c : content) : Prop := 0 <= word_of c < 2 ^ 16 /\ word_of c mod 2 = 0.

Lemma zeros_app a b : zeros (a ++ b) = (zeros a + zeros b)%nat.
Proof. unfold zeros. by rewrite filter_app, length_app. Qed.

(** The data of a message are as many as its zero words. *)
Lemma datas_bodies cs : forall last, ascending last cs.*1 -> -1 <= last -> Forall (fun p => plain p.2) cs ->
  (exists bs, datas cs = concat (sized <$> bs) /\ zeros (records last cs) = length bs) /\
  Forall (fun w => 0 <= w < 2 ^ 16) (records last cs).
Proof.
  induction cs as [|[t c] cs IH]; intros last Ha Hl Hp; [split; [by exists []|constructor]|].
  destruct Ha as [Ht Ha]. apply Forall_cons in Hp as [[Hc _] Hp]. cbn [fst snd] in *.
  destruct (IH t Ha ltac:(lia) Hp) as [(bs & Hd & Hz) Hr]. cbn [records]. fold (gap last t).
  assert (Hgap : zeros (gap last t) = 0%nat /\ Forall (fun w => 0 <= w < 2 ^ 16) (gap last t)).
  { unfold gap. case_bool_decide as Hg; [split; [done|constructor]|]. split; [|repeat constructor; lia].
    unfold zeros. rewrite filter_cons, decide_False by lia. done. }
  destruct Hgap as [Hg0 Hg1]. split; [|apply Forall_app; split; [done|by constructor]].
  change (datas ((t, c) :: cs)) with (data_of c ++ datas cs). rewrite zeros_app, Hg0.
  change (word_of c :: records t cs) with ([word_of c] ++ records t cs). rewrite zeros_app, Hz. unfold zeros at 1. rewrite filter_cons.
  destruct (decide (word_of c = 0)) as [E|E].
  - destruct (data_sized c E) as [b Hb]. exists (b :: bs). rewrite Hb, Hd. by split.
  - destruct (data_inline c E) as [Hb _]. exists bs. rewrite Hb, Hd. by split.
Qed.

(** A message that begins with data has all its data. *)
Lemma struct_field_spec m p c cs sz : placed m p (message ((0, c) :: cs)) -> word_of c = 0 ->
  ascending 0 cs.*1 -> Forall (fun p => plain p.2) cs -> sz = Z.of_nat (length (message ((0, c) :: cs))) -> sz < 2 ^ 31 ->
  struct_field m p sz = Ret (Z.of_nat (length (records (-1) ((0, c) :: cs)))).
Proof.
  intros Hp Hw Ha Hpl -> Hlt. assert (Hall : ascending (-1) ((0, c) :: cs).*1) by (split; [cbn; lia|done]).
  destruct (datas_bodies ((0, c) :: cs) (-1) Hall ltac:(lia)) as [(bs & Hd & Hz) Hr].
  { constructor; [|done]. cbn. unfold plain. rewrite Hw. split; [lia|done]. }
  pose proof (records_length (-1) _ Hall ltac:(lia)) as Hlen. unfold message in *.
  assert (Erec : records (-1) ((0, c) :: cs) = 0 :: records 0 cs) by (cbn; by rewrite Hw). rewrite Erec in *.
  set (rs := records 0 cs) in *. set (n := Z.of_nat (length (0 :: rs))) in *.
  rewrite Hd in *. destruct bs as [|b bs]; [unfold zeros in Hz; rewrite filter_cons, decide_True in Hz by done; cbn in Hz; lia|].
  rewrite !length_app, length_le_bytes, length_words in *. unfold struct_field.
  assert (Hb : (4 <= length (concat (sized <$> b :: bs)))%nat) by (rewrite fmap_cons; cbn [concat]; rewrite length_app, sized_length; lia).
  unfold SIZEOF_LENGTH. rewrite bool_decide_false by lia. step_with (toword_placed _ _ _ _ Hp). rewrite Z.mod_small by (unfold n; lia).
  unfold SIZEOF_HEADER, SIZEOF_FIELD. rewrite bool_decide_false by (unfold n; lia).
  apply placed_app in Hp as [_ Hp]. rewrite length_le_bytes in Hp. change (Z.of_nat 2) with 2 in Hp.
  pose proof Hp as Hp'. apply placed_app in Hp' as [_ Hdat]. rewrite length_words in Hdat.
  assert (Hwords : placed m (p + 2 + 2) (words (rs ++ [Z.of_nat (length b) mod 2 ^ 16]))).
  { rewrite words_app, words_one. change (words (0 :: rs)) with (le_bytes 2 0 ++ words rs) in Hp. rewrite <- app_assoc in Hp.
    apply placed_app in Hp as [_ Hp]. rewrite length_le_bytes in Hp. change (Z.of_nat 2) with 2 in Hp.
    rewrite fmap_cons in Hp. cbn [concat] in Hp. unfold sized in Hp. change 4%nat with (2 + 2)%nat in Hp.
    rewrite le_bytes_add, <- !app_assoc, app_assoc in Hp. apply placed_app in Hp as [Hp _].
    assert (El : le_bytes 2 (Z.of_nat (length b) mod 2 ^ 16) = le_bytes 2 (Z.of_nat (length b))).
    { rewrite <- (le_bytes_mod 2 (Z.of_nat (length b))). done. }
    by rewrite El. }
  assert (Hloop : struct_loop m (Z.to_nat n) (p + 2) (p + (2 + 2 * n)) (Z.of_nat (2 + (2 * length (0 :: rs) + length (concat (sized <$> b :: bs)))) - (2 + 2 * n)) = Ret true).
  { replace (Z.to_nat n) with (length (rs ++ [Z.of_nat (length b) mod 2 ^ 16])) by (rewrite length_app; unfold n; cbn; lia).
    eapply (struct_loop_spec m _ (b :: bs)).
    - exact Hwords.
    - by replace (p + (2 + 2 * n)) with (p + 2 + Z.of_nat (2 * length (0 :: rs))) by (unfold n; lia).
    - apply Forall_app. apply Forall_cons in Hr as [_ Hr]. split; [done|]. constructor; [|constructor]. apply Z.mod_pos_bound. lia.
    - change (0 :: rs) with ([0] ++ rs) in Hz. rewrite zeros_app in Hz. change (zeros [0]) with 1%nat in Hz. rewrite zeros_app.
      assert (Hone : forall w, (zeros [w] <= 1)%nat) by (intros w; unfold zeros; rewrite filter_cons; case_decide; cbn; lia).
      specialize (Hone (Z.of_nat (length b) mod 2 ^ 16)). lia.
    - unfold n. lia. }
  step_with Hloop. done.
Qed.

(** ** Reading a schema *)

Definition text_ok (s : list Z) : Prop := Forall (fun c => c <> 0) s.

Lemma until_nul_all s : text_ok s -> until_nul s = s.
Proof. induction 1 as [|c s Hc _ IH]; [done|]. cbn. by rewrite decide_False, IH. Qed.

Lemma import_string_spec m q s l p : placed m q (sized s ++ l) -> text_ok s -> Z.of_nat (length s) < 2 ^ 31 ->
  exists a k p', import_string m p q = Ret (mk_sname a s, p') /\ grows p p' [(a, k)].
Proof.
  intros Hp Hs Hl. destruct (sized_placed _ _ _ _ Hp) as (Hd & Hb & _); [lia|]. unfold import_string. step_with Hd.
  rewrite u32_small by (unfold is_u32; lia). destruct (pool_alloc p _) as [a p'] eqn:Ea. cbn beta iota.
  step_with (placed_read _ _ _ _ Hb eq_refl). rewrite until_nul_all by done.
  (* the size of the block *)
  assert (Hk : exists k, 0 < k /\ forall B, pool_inv p B -> pool_inv p' ((a, k) :: B)).
  { set (n := (Z.of_nat (length s) + 1 + 7) / 8 * 8). exists n. split; [unfold n; dlia|]. intros B HB.
    pose proof (pool_alloc_inv p B (Z.of_nat (length s) + 1) HB ltac:(lia)) as H. rewrite Ea in H. exact H. }
  destruct Hk as (k & Hk & HB). exists a, k, p'. split; [done|]. split; [by constructor|done].
Qed.

(** The words of a field one after the other, without the gaps. *)
Fixpoint import_all (m : list Z) (n data : Z) (cs : list (Z * content)) (f : pfield) (p : chunkpool)
  : outcome (option (pfield * chunkpool)) :=
  match cs with
  | [] => Ret (Some (f, p))
  | (t, c) :: cs =>
    r ← import_word m n t (word_of c) data f p;
    match r with None => Ret None | Some (f, p) => import_all m n data cs f p end
  end.

Lemma import_words_records m n data cs : forall word last f p, placed m word (words (records last cs)) ->
  ascending last cs.*1 -> -1 <= last -> Forall (fun p => plain p.2) cs ->
  import_words m (length (records last cs)) n word data last f p = import_all m n data cs f p.
Proof.
  induction cs as [|[t c] cs IH]; intros word last f p Hp Ha Hl Hpl; [done|]. destruct Ha as [Ht Ha].
  apply Forall_cons in Hpl as [[Hc He] Hpl]. cbn [fst snd] in *.
  assert (Hown : forall word, placed m word (words (word_of c :: records t cs)) ->
    import_words m (S (length (records t cs))) n word data (t - 1) f p = import_all m n data ((t, c) :: cs) f p).
  { clear word Hp. intros word Hp. change (words (word_of c :: records t cs)) with (le_bytes 2 (word_of c) ++ words (records t cs)) in Hp.
    cbn [import_words import_all]. step_with (toword_placed _ _ _ _ Hp). rewrite Z.mod_small, land_1, He, Z.sub_add by lia.
    rewrite bool_decide_false by (intros H; by apply H). apply placed_app in Hp as [_ Hp]. rewrite length_le_bytes in Hp.
    destruct (import_word m n t (word_of c) data f p) as [[[f1 p1]|]| |]; try done. cbn [mbind outcome_bind]. apply IH; done || lia. }
  cbn [records] in *. fold (gap last t) in *. unfold gap in *. case_bool_decide as Hg; cbn [app length] in *.
  - subst t. specialize (Hown word Hp). by rewrite Z.add_simpl_r in Hown.
  - change (words (?a :: ?l)) with (le_bytes 2 a ++ words l) in Hp at 1. cbn [import_words].
    step_with (toword_placed _ _ _ _ Hp). rewrite Z.mod_small, land_1 by lia. rewrite bool_decide_true by dlia.
    replace (last + 1 + ((t - last - 1) * 2 - 1) / 2) with (t - 1) by dlia. apply Hown.
    by apply placed_app in Hp as [_ Hp].
Qed.

(** What a word of each tag does. *)
Ltac word_step := unfold import_word; rewrite ?Z.div_mul, ?Z.add_simpl_r by lia;
  repeat first [rewrite bool_decide_true by (try unfold SPROTO_TSTRUCT; lia) | rewrite bool_decide_false by (try unfold SPROTO_TSTRUCT; lia)].

Lemma word_name m n data f p : import_word m n 0 0 data f p =
  ('(name, p) ← import_string m p data;
   Ret (Some (mk_pfield (pf_tag f) (pf_type f) (Some name) (pf_st f) (pf_key f) (pf_array f), p))).
Proof. reflexivity. Qed.

Lemma word_builtin m n b data f p : 0 <= b < 3 -> import_word m n 1 ((b + 1) * 2) data f p =
  Ret (Some (mk_pfield (pf_tag f) b (pf_name f) (pf_st f) (pf_key f) (pf_array f), p)).
Proof. intros Hb. word_step.  done. Qed.

Lemma word_struct m n i data f p : Z.of_nat i < n -> pf_type f = -1 -> import_word m n 2 ((Z.of_nat i + 1) * 2) data f p =
  Ret (Some (mk_pfield (pf_tag f) SPROTO_TSTRUCT (pf_name f) (Some i) (pf_key f) (pf_array f), p)).
Proof. intros Hi Hf. word_step. by rewrite Nat2Z.id. Qed.

Lemma word_tag m n t data f p : 0 <= t -> import_word m n 3 ((t + 1) * 2) data f p =
  Ret (Some (mk_pfield t (pf_type f) (pf_name f) (pf_st f) (pf_key f) (pf_array f), p)).
Proof. intros Ht. word_step. done. Qed.

Lemma word_array m n data f p : import_word m n 4 4 data f p =
  Ret (Some (mk_pfield (pf_tag f) (pf_type f) (pf_name f) (pf_st f) (pf_key f) SPROTO_TARRAY, p)).
Proof. reflexivity. Qed.

Lemma word_key m n k data f p : 0 <= k -> import_word m n 5 ((k + 1) * 2) data f p =
  Ret (Some (mk_pfield (pf_tag f) (pf_type f) (pf_name f) (pf_st f) k (pf_array f), p)).
Proof. intros Hk. word_step. done. Qed.

(** What a schema of [n] types has to keep in a field. *)
Definition small_number (v : Z) : Prop := 0 <= v < 0x7fff.

Record field_valid (n : nat) (s : field_spec) : Prop := {
  fv_name : text_ok (fs_name s);
  fv_type : match fs_type s with FBuiltin b => 0 <= b < 3 | FStruct i => (i < n)%nat end;
  fv_tag : small_number (fs_tag s);
  fv_key : match fs_key s with Some k => fs_array s = true /\ small_number k | None => True end
}.

(** The field that the loader makes, with its name at [a]. *)
Definition loaded_field (s : field_spec) (a : Z) : field :=
  mk_field (fs_tag s)
    (Z.lor (match fs_type s with FBuiltin b => b | FStruct _ => SPROTO_TSTRUCT end) (if fs_array s then SPROTO_TARRAY else 0))
    (mk_sname a (fs_name s))
    (match fs_type s with FBuiltin _ => None | FStruct i => Some i end)
    (default (-1) (fs_key s)).

Lemma plain_int v : small_number v -> plain (One (IInt v)) /\ word_of (One (IInt v)) = (v + 1) * 2.
Proof. intros [Hv Hlt]. unfold plain. cbn [word_of]. rewrite bool_decide_true by lia. split; [|done]. split; [lia|dlia]. Qed.

Lemma field_contents_good n s : Z.of_nat n <= 0x7fff -> field_valid n s ->
  ascending 0 (tail (field_contents s)).*1 /\ Forall (fun p => plain p.2) (tail (field_contents s)).
Proof.
  intros Hn [H1 H2 H3 H4]. unfold field_contents. cbn [app tail].
  assert (Hi : plain (match fs_type s with FBuiltin b => (1, One (IInt b)) | FStruct i => (2, One (IInt (Z.of_nat i))) end).2).
  { destruct (fs_type s); apply plain_int; unfold small_number; lia. }
  split.
  - destruct (fs_type s), (fs_array s), (fs_key s); cbn; lia.
  - constructor; [exact Hi|]. constructor; [by apply plain_int|]. apply Forall_app. split.
    + destruct (fs_array s); [|constructor]. constructor; [by split|constructor].
    + destruct (fs_key s) as [k|]; [|constructor]. destruct H4 as [_ Hk]. constructor; [by apply plain_int|constructor].
Qed.

Lemma import_all_cons m n data t c cs f p : import_all m n data ((t, c) :: cs) f p =
  (r ← import_word m n t (word_of c) data f p; match r with None => Ret None | Some (f, p) => import_all m n data cs f p end).
Proof. reflexivity. Qed.

Lemma import_all_field m n s data l p : Z.of_nat n <= 0x7fff -> field_valid n s -> placed m data (sized (fs_name s) ++ l) ->
  Z.of_nat (length (fs_name s)) < 2 ^ 31 ->
  exists a k p', import_all m (Z.of_nat n) data (field_contents s) empty_field p =
    Ret (Some (mk_pfield (fs_tag s) (match fs_type s with FBuiltin b => b | FStruct _ => SPROTO_TSTRUCT end) (Some (mk_sname a (fs_name s)))
      (match fs_type s with FBuiltin _ => None | FStruct i => Some i end) (default (-1) (fs_key s))
      (if fs_array s then SPROTO_TARRAY else 0), p')) /\ grows p p' [(a, k)].
Proof.
  intros Hn [H1 H2 H3 H4] Hp Hl. destruct (import_string_spec _ _ _ _ p Hp H1 Hl) as (a & k & p' & Hs & Hg).
  exists a, k, p'. split; [|done]. unfold field_contents. cbn [app]. rewrite import_all_cons. change (word_of (One (IStr _))) with 0.
  rewrite word_name, Hs, !bind_Ret. destruct (plain_int _ H3) as [_ Htag].
  assert (Hrest : forall ty st, import_all m (Z.of_nat n) data ((3, One (IInt (fs_tag s))) :: (if fs_array s then [(4, One (IBool true))] else []) ++
      match fs_key s with Some k => [(5, One (IInt k))] | None => [] end) (mk_pfield (-1) ty (Some (mk_sname a (fs_name s))) st (-1) 0) p' =
    Ret (Some (mk_pfield (fs_tag s) ty (Some (mk_sname a (fs_name s))) st (default (-1) (fs_key s)) (if fs_array s then SPROTO_TARRAY else 0), p'))).
  { intros ty st. rewrite import_all_cons, Htag, word_tag, bind_Ret by apply H3.
    destruct (fs_key s) as [key|]; [destruct H4 as [-> Hk]; destruct (plain_int _ Hk) as [_ Hkw]|destruct (fs_array s)];
      cbn [app]; rewrite ?import_all_cons; try reflexivity.
    change (word_of (One (IBool true))) with 4. rewrite word_array, bind_Ret, import_all_cons, Hkw, word_key, bind_Ret by apply Hk. reflexivity. }
  destruct (fs_type s) as [b|i]; rewrite import_all_cons.
  - assert (Hb : small_number b) by (unfold small_number; lia). destruct (plain_int _ Hb) as [_ Hw]. rewrite Hw, word_builtin, bind_Ret by lia. apply Hrest.
  - assert (Hi : small_number (Z.of_nat i)) by (unfold small_number; lia). destruct (plain_int _ Hi) as [_ Hw].
    rewrite Hw, word_struct, bind_Ret by (done || lia). apply Hrest.
Qed.

(** ** Fields *)

(** Where the parts of a message are that begins with data. *)
Lemma struct_at m q c cs l : placed m q (sized (message ((0, c) :: cs)) ++ l) -> word_of c = 0 -> ascending 0 cs.*1 ->
  Forall (fun p => plain p.2) cs -> Z.of_nat (length m) < 2 ^ 31 ->
  let rs := records (-1) ((0, c) :: cs) in let sz := Z.of_nat (length (message ((0, c) :: cs))) in
  todword m q = Ret sz /\ struct_field m (q + SIZEOF_LENGTH) sz = Ret (Z.of_nat (length rs)) /\
  placed m (q + SIZEOF_LENGTH + SIZEOF_HEADER) (words rs) /\
  placed m (q + SIZEOF_LENGTH + SIZEOF_HEADER + Z.of_nat (length rs) * SIZEOF_FIELD) (data_of c ++ datas cs) /\
  placed m (q + SIZEOF_LENGTH + sz) l.
Proof.
  intros Hp Hw Ha Hpl Hm rs sz. pose proof (placed_length _ _ _ Hp) as [Hq Hl]. rewrite length_app, sized_length in Hl.
  destruct (sized_placed _ _ _ _ Hp) as (Hd & Hb & Hr); [lia|]. split; [done|]. split.
  { eapply struct_field_spec; try done. lia. }
  split; [|split; [|done]]; unfold message in Hb; fold rs in Hb; apply placed_app in Hb as [_ Hb]; rewrite length_le_bytes in Hb;
    apply placed_app in Hb as [H1 H2]; [exact H1|]. rewrite length_words in H2.
  by replace (q + SIZEOF_LENGTH + SIZEOF_HEADER + Z.of_nat (length rs) * SIZEOF_FIELD)
    with (q + SIZEOF_LENGTH + Z.of_nat 2 + Z.of_nat (2 * length rs)) by (unfold SIZEOF_HEADER, SIZEOF_FIELD; lia).
Qed.

Lemma import_field_spec m n s q l p : placed m q (sized (message (field_contents s)) ++ l) -> Z.of_nat (length m) < 2 ^ 31 ->
  Z.of_nat n <= 0x7fff -> field_valid n s ->
  exists a k p', import_field m (Z.of_nat n) q p =
      Ret (Some (loaded_field s a, q + SIZEOF_LENGTH + Z.of_nat (length (message (field_contents s))), p')) /\
    grows p p' [(a, k)].
Proof.
  intros Hp Hm Hn Hs. destruct (field_contents_good n s Hn Hs) as [Ha Hpl].
  change (field_contents s) with ((0, One (IStr (fs_name s))) :: tail (field_contents s)) in Hp |- *.
  destruct (struct_at _ _ _ _ _ Hp eq_refl Ha Hpl Hm) as (Hsz & Hfn & Hws & Hds & _).
  pose proof (placed_length _ _ _ Hds) as [_ Hlen]. rewrite length_app in Hlen. change (data_of (One (IStr ?b))) with (sized b) in Hds, Hlen.
  rewrite sized_length in Hlen.
  destruct (import_all_field m n s _ _ p Hn Hs Hds) as (a & k & p' & Hall & Hg).
  { unfold SIZEOF_HEADER, SIZEOF_LENGTH, SIZEOF_FIELD in Hlen. apply placed_length in Hp. lia. }
  exists a, k, p'. split; [|done]. unfold import_field. step_with Hsz. step_with Hfn. rewrite bool_decide_false, Nat2Z.id by lia.
  assert (Hpl' : Forall (fun p => plain p.2) ((0, One (IStr (fs_name s))) :: tail (field_contents s))) by (constructor; [by split|done]).
  assert (Ha' : ascending (-1) ((0, One (IStr (fs_name s))) :: tail (field_contents s)).*1) by (split; [cbn; lia|exact Ha]).
  rewrite (import_words_records m (Z.of_nat n) _ _ _ (-1) empty_field p Hws Ha' ltac:(lia) Hpl').
  change ((0, One (IStr (fs_name s))) :: tail (field_contents s)) with (field_contents s) in Hall |- *. rewrite Hall, bind_Ret. cbn [pf_name pf_tag pf_type pf_array pf_key pf_st].
  destruct Hs as [_ Hty Ht _]. unfold small_number in Ht. rewrite bool_decide_false; [done|].
  destruct (fs_type s); unfold SPROTO_TSTRUCT; lia.
Qed.

(** The loop over the fields of a type; [ads] are the blocks of the names. *)
Definition loaded_fields (ss : list field_spec) (ads : list (Z * Z)) : list field :=
  zip_with (fun s b => loaded_field s b.1) ss ads.

Definition field_messages (ss : list field_spec) : list (list Z) := message ∘ field_contents <$> ss.

Lemma import_fields_spec m n (Hm : Z.of_nat (length m) < 2 ^ 31) (Hn : Z.of_nat n <= 0x7fff) ss :
  Forall (field_valid n) ss -> forall q l last maxn fs p, placed m q (concat (sized <$> field_messages ss) ++ l) ->
  ascending last (fs_tag <$> ss) ->
  exists ads p', length ads = length ss /\ grows p p' (reverse ads) /\
    import_fields m (length ss) (Z.of_nat n) q last maxn fs p =
      Ret (Some (fs ++ loaded_fields ss ads, maxn + gaps last (fs_tag <$> ss), p')).
Proof.
  induction 1 as [|s ss Hs Hss IH]; intros q l last maxn fs p Hp Ha.
  { exists [], p. split; [done|]. split; [by apply grows_refl|]. cbn. by rewrite app_nil_r, Z.add_0_r. }
  destruct Ha as [Ht Ha]. unfold field_messages in Hp. rewrite !fmap_cons in Hp. cbn [concat] in Hp. rewrite <- app_assoc in Hp.
  destruct (import_field_spec m n s q _ p Hp Hm Hn Hs) as (a & k & p1 & Hf & Hg).
  apply placed_app in Hp as [_ Hp]. rewrite sized_length in Hp.
  destruct (IH _ l (fs_tag s) (if bool_decide (fs_tag s > last + 1) then maxn + 1 else maxn) (fs ++ [loaded_field s a]) p1 Hp Ha)
    as (ads & p' & Hl & Hg' & Hr).
  exists ((a, k) :: ads), p'. split; [cbn; lia|]. split; [rewrite reverse_cons; by eapply grows_trans|].
  cbn [length import_fields]. step_with Hf. change (f_tag (loaded_field s a)) with (fs_tag s). rewrite bool_decide_false by lia.
  replace (q + SIZEOF_LENGTH + Z.of_nat (length (message (field_contents s))))
    with (q + Z.of_nat (4 + length ((message ∘ field_contents) s))) by (unfold SIZEOF_LENGTH; cbn [compose]; lia).
  rewrite Hr, <- app_assoc. rewrite fmap_cons. cbn [gaps]. do 2 f_equal. case_bool_decide; do 2 f_equal; lia.
Qed.

Lemma loaded_tags ss ads : length ads = length ss -> f_tag <$> loaded_fields ss ads = fs_tag <$> ss.
Proof.
  intros Hl. unfold loaded_fields. revert ads Hl. induction ss as [|s ss IH]; intros [|b ads] Hl; try done.
  cbn. f_equal. apply IH. by injection Hl.
Qed.

(** ** Types *)

(** The description of a field and of a type in memory. *)
Definition describe_field (f : field) : field_spec :=
  mk_fspec (n_text (f_name f)) (match f_st f with Some i => FStruct i | None => FBuiltin (elem_type f) end)
    (f_tag f) (is_array f) (if decide (f_key f < 0) then None else Some (f_key f)).

Definition describe_type (t : sproto_type) : type_spec := mk_tspec (n_text (t_name t)) (describe_field <$> t_f t).

Record type_valid (n : nat) (t : type_spec) : Prop := {
  tv_name : text_ok (ts_name t);
  tv_fields : Forall (field_valid n) (ts_fields t);
  tv_tags : ascending (-1) (fs_tag <$> ts_fields t);
  tv_names : NoDup (fs_name <$> ts_fields t)
}.

Lemma loaded_field_flags n s a : field_valid n s ->
  elem_type (loaded_field s a) = (match fs_type s with FBuiltin b => b | FStruct _ => SPROTO_TSTRUCT end) /\
  is_array (loaded_field s a) = fs_array s /\ field_loaded (Z.of_nat n) (loaded_field s a).
Proof.
  intros [_ Hty Htag Hkey]. unfold field_loaded, field_ok, is_array, elem_type, loaded_field, small_number in *. cbn [f_type f_tag f_key f_st].
  set (t := match fs_type s with FBuiltin b => b | FStruct _ => SPROTO_TSTRUCT end).
  assert (Ht : t = 0 \/ t = 1 \/ t = 2 \/ t = 3) by (unfold t, SPROTO_TSTRUCT; destruct (fs_type s); lia).
  set (fl := if fs_array s then SPROTO_TARRAY else 0).
  assert (Hf : fl = 0 \/ fl = SPROTO_TARRAY) by (unfold fl; destruct (fs_array s); auto).
  destruct (array_flag t fl ltac:(lia) ltac:(lia) Hf) as [He Hl]. rewrite He. split; [done|]. split.
  - unfold fl. destruct (fs_array s), Ht as [-> |[-> |[-> | ->]]]; reflexivity.
  - split; [split; [lia|done]|]. split; [done|]. split; [destruct (fs_key s) as [k|]; cbn; lia|].
    unfold t, SPROTO_TSTRUCT. destruct (fs_type s); lia.
Qed.

Lemma describe_loaded n s a : field_valid n s -> describe_field (loaded_field s a) = s.
Proof.
  intros Hs. destruct (loaded_field_flags n s a Hs) as (He & Ha & _). unfold describe_field. rewrite He, Ha.
  destruct Hs as [_ Hty Htag Hkey]. destruct s as [nm ty tag arr key]. cbn in *. f_equal.
  - by destruct ty.
  - destruct key as [k|]; cbn; [|done]. destruct Hkey as [_ Hk]. unfold small_number in Hk. by rewrite decide_False by lia.
Qed.

Lemma loaded_fields_good n ss ads : Forall (field_valid n) ss -> length ads = length ss ->
  describe_field <$> loaded_fields ss ads = ss /\ Forall (field_loaded (Z.of_nat n)) (loaded_fields ss ads) /\
  n_at ∘ f_name <$> loaded_fields ss ads = ads.*1 /\ n_text ∘ f_name <$> loaded_fields ss ads = fs_name <$> ss /\
  Forall (fun f => is_array f = false -> f_key f < 0) (loaded_fields ss ads).
Proof.
  intros Hss. revert ads. induction Hss as [|s ss Hs Hss IH]; intros [|b ads] Hl; try done.
  destruct (IH ads ltac:(by injection Hl)) as (H1 & H2 & H3 & H4 & H5). destruct (loaded_field_flags n s b.1 Hs) as (_ & Ha & Hf).
  unfold loaded_fields in *. cbn [zip_with]. rewrite !fmap_cons. rewrite H1, H3, H4, (describe_loaded n) by done. split; [done|]. split; [by constructor|].
  split; [done|]. split; [done|]. constructor; [|done]. intros Hno. rewrite Ha in Hno. cbn. destruct Hs as [_ _ _ Hk]. destruct (fs_key s); cbn; [|lia]. destruct Hk as [Hk _]. congruence.
Qed.

Lemma loaded_fields_length ss ads : length ads = length ss -> length (loaded_fields ss ads) = length ss.
Proof. intros Hl. unfold loaded_fields. rewrite length_zip_with. lia. Qed.

Lemma ascending_ordered last tags : ascending last tags -> NoDup tags /\ ordered last tags.
Proof.
  intros Ha. split.
  - apply NoDup_alt. intros i j t Hi Hj. destruct (decide (i < j)%nat) as [E|E]; [pose proof (ascending_lt _ _ _ _ _ _ Ha Hi Hj E); lia|].
    destruct (decide (j < i)%nat) as [E'|E']; [pose proof (ascending_lt _ _ _ _ _ _ Ha Hj Hi E'); lia|lia].
  - revert last Ha. induction tags as [|t tags IH]; intros last Ha; [done|]. destruct Ha as [Ht Ha]. split; [lia|by apply IH].
Qed.

(** What the loader makes of a described type. *)
Definition stands_for (t : type_spec) (st : sproto_type) : Prop := describe_type st = t /\ type_ok st /\ names_ok st.

Lemma loaded_type_stands n name ss ads first last : Forall (field_valid n) ss -> ascending (-1) (fs_tag <$> ss) -> NoDup (fs_name <$> ss) ->
  length ads = length ss -> NoDup ads.*1 -> loaded_fields ss ads !! 0%nat = Some first -> loaded_fields ss ads !! pred (length ss) = Some last ->
  let num := Z.of_nat (length ss) in
  stands_for (mk_tspec (n_text name) ss)
    (mk_type name num (if bool_decide (f_tag last - f_tag first + 1 <> num) then -1 else f_tag first)
      (num + gaps (-1) (fs_tag <$> ss)) (loaded_fields ss ads)).
Proof.
  intros Hss Ha Hn Hl Hads H0 Hlast num. destruct (loaded_fields_good n ss ads Hss Hl) as (H1 & H2 & H3 & H4 & H5).
  pose proof (loaded_tags ss ads Hl) as Htags. split; [unfold describe_type; cbn; by rewrite H1|].
  destruct (ascending_ordered _ _ Ha) as [Hnd Hord].
  split.
  - pose proof (type_of_fields name num (loaded_fields ss ads) first last (Z.of_nat n) H2) as Hok. rewrite Htags in Hok.
    rewrite loaded_fields_length in Hok by done. apply (Hok Hord eq_refl H0 Hlast). cbn [t_f]. by rewrite Htags.
  - unfold names_ok. cbn [t_f]. rewrite H3, H4. done.
Qed.

Lemma zero_words_spec m k : forall w, placed m w (words (repeat 0 k)) -> zero_words m k w = Ret true.
Proof.
  induction k as [|k IH]; intros w Hp; [done|]. change (words (repeat 0 (S k))) with (le_bytes 2 0 ++ words (repeat 0 k)) in Hp.
  cbn [zero_words]. step_with (toword_placed _ _ _ _ Hp). apply placed_app in Hp as [_ Hp]. by apply IH.
Qed.

Lemma plain_objects bs : plain (objects bs).
Proof. by split. Qed.

Lemma pool_grows p p' l : grows p p' l -> pool_inv p [] -> pool_inv p' [].
Proof.
  intros [_ H] Hp. eapply (pool_inv_sublist _ (l ++ [])); [|by apply H]. apply sublist_nil_l.
Qed.

(** An array of messages. *)
Lemma array_at m q bs l : placed m q (sized (concat (sized <$> bs)) ++ l) -> Z.of_nat (length m) < 2 ^ 31 ->
  count_array m q = Ret (Z.of_nat (length bs)) /\ placed m (q + SIZEOF_LENGTH) (concat (sized <$> bs)) /\
  todword m q = Ret (Z.of_nat (length (concat (sized <$> bs)))) /\
  placed m (q + (Z.of_nat (length (concat (sized <$> bs))) + SIZEOF_LENGTH)) l.
Proof.
  intros Hp Hm. pose proof (placed_length _ _ _ Hp) as [Hq Hl]. rewrite length_app, sized_length in Hl.
  destruct (sized_placed _ _ _ _ Hp) as (Hd & Hb & Hr); [lia|]. split; [eapply count_array_spec; [exact Hp|lia]|].
  split; [done|]. split; [done|].
  by replace (q + (Z.of_nat (length (concat (sized <$> bs))) + SIZEOF_LENGTH)) with (q + SIZEOF_LENGTH + Z.of_nat (length (concat (sized <$> bs)))) by lia.
Qed.

Lemma import_type_spec m n t q l p : placed m q (sized (message (type_contents t)) ++ l) -> Z.of_nat (length m) < 2 ^ 31 ->
  Z.of_nat n <= 0x7fff -> type_valid n t -> pool_inv p [] ->
  exists t' p', import_type m (Z.of_nat n) q p = Ret (Some (t', q + SIZEOF_LENGTH + Z.of_nat (length (message (type_contents t))), p')) /\
    pool_inv p' [] /\ stands_for t t'.
Proof.
  intros Hp Hm Hn [Hname Hf Htags Hnames] Hpool. destruct t as [name ss]. cbn [ts_name ts_fields] in *.
  set (rest := match ss with [] => [] | fs => [(1, objects (field_messages fs))] end).
  assert (Hc : type_contents (mk_tspec name ss) = (0, One (IStr name)) :: rest) by (unfold rest; by destruct ss). rewrite Hc in *. clear Hc.
  destruct (struct_at _ _ _ _ _ Hp eq_refl) as (Hsz & Hfn & Hws & Hds & _); [unfold rest; by destruct ss| |done|].
  { unfold rest. destruct ss; [constructor|]. constructor; [apply plain_objects|constructor]. }
  assert (Hrs : records (-1) ((0, One (IStr name)) :: rest) = repeat 0 (length ((0, One (IStr name)) :: rest))) by (unfold rest; by destruct ss).
  rewrite Hrs, repeat_length in *. change (data_of (One (IStr name))) with (sized name) in Hds.
  pose proof (placed_length _ _ _ Hds) as [Hd0 Hlen]. rewrite length_app, sized_length in Hlen.
  assert (Hk : length ((0, One (IStr name)) :: rest) = (if decide (ss = []) then 1 else 2)%nat) by (unfold rest; by destruct ss).
  rewrite Hk in *. destruct (import_string_spec _ _ _ _ p Hds Hname) as (a & k & p1 & Hstr & Hg1); [lia|].
  unfold import_type. step_with Hsz. step_with Hfn. rewrite bool_decide_false by (destruct (decide _); lia). rewrite Nat2Z.id.
  step_with (zero_words_spec _ _ _ Hws). cbn [negb]. step_with Hstr. cbn beta iota. destruct (decide (ss = [])) as [-> |Hne].
  { cbn [bool_decide]. eexists _, _. split; [done|]. split; [by eapply pool_grows|]. split; [done|].
    split; [by split|]. split; [constructor|]. split; constructor. }
  rewrite bool_decide_false by lia. destruct (sized_placed _ _ _ _ Hds) as (Hd & _ & Hd2); [lia|]. step_with Hd.
  rewrite u32_small by (unfold is_u32, SIZEOF_LENGTH; lia).
  set (b0 := q + SIZEOF_LENGTH + SIZEOF_HEADER + Z.of_nat 2 * SIZEOF_FIELD) in *.
  assert (Hdat : datas rest = sized (concat (sized <$> field_messages ss))).
  { unfold rest. destruct ss as [|s ss]; [done|]. unfold datas. cbn [fmap list_fmap concat compose snd]. by rewrite data_objects, app_nil_r. }
  replace (b0 + SIZEOF_LENGTH + Z.of_nat (length name)) with (b0 + (Z.of_nat (length name) + SIZEOF_LENGTH)) in Hd2 by lia.
  set (b1 := b0 + (Z.of_nat (length name) + SIZEOF_LENGTH)) in *. rewrite Hdat in Hd2. rewrite <- (app_nil_r (sized _)) in Hd2.
  destruct (array_at _ _ _ _ Hd2 Hm) as (Hcount & Hfs & _ & _). unfold field_messages in Hcount at 1. rewrite length_fmap in Hcount. step_with Hcount.
  rewrite bool_decide_false by lia. destruct (pool_alloc p1 _) as [arr p2] eqn:Earr. rewrite Nat2Z.id.
  assert (Hg2 : grows p1 p2 []).
  { pose proof (grows_alloc p1 (SIZEOF_STRUCT_FIELD * Z.of_nat (length ss))) as Hg. rewrite Earr in Hg. apply Hg. unfold SIZEOF_STRUCT_FIELD. lia. }
  rewrite <- (app_nil_r (concat _)) in Hfs.
  destruct (import_fields_spec m n Hm Hn ss Hf _ _ (-1) (Z.of_nat (length ss)) [] p2 Hfs Htags) as (ads & p3 & Hl & Hg3 & Hfields).
  step_with Hfields. cbn [app]. pose proof (pool_grows _ _ _ Hg1 Hpool) as Hp1. pose proof (pool_grows _ _ _ Hg2 Hp1) as Hp2.
  pose proof (loaded_fields_length ss ads Hl) as Hlf.
  destruct (lookup_lt_is_Some_2 (loaded_fields ss ads) 0) as [first H0]; [destruct ss; [done|]; rewrite Hlf; cbn; lia|].
  destruct (lookup_lt_is_Some_2 (loaded_fields ss ads) (pred (length ss))) as [last Hlast]; [destruct ss; [done|]; rewrite Hlf; cbn; lia|].
  step_with (read_at_Z _ 0 _ (Z.le_refl 0) H0). assert (Hpred : Z.of_nat (length ss) - 1 = Z.of_nat (pred (length ss))) by (destruct ss; [done|]; cbn; lia).
  rewrite Hpred. step_with (read_at_Some _ _ _ Hlast). eexists _, _. split; [done|]. split; [by eapply pool_grows|].
  apply (loaded_type_stands n (mk_sname a name)); try done. apply grows_distinct in Hg3; [|done]. by rewrite fmap_reverse, reverse_Permutation in Hg3.
Qed.

Definition type_messages (ts : list type_spec) : list (list Z) := message ∘ type_contents <$> ts.

Lemma import_types_spec m n (Hm : Z.of_nat (length m) < 2 ^ 31) (Hn : Z.of_nat n <= 0x7fff) ts :
  Forall (type_valid n) ts -> forall q l acc p, placed m q (concat (sized <$> type_messages ts) ++ l) -> pool_inv p [] ->
  exists ts' p', import_types m (length ts) (Z.of_nat n) q acc p = Ret (Some (acc ++ ts', p')) /\
    pool_inv p' [] /\ Forall2 stands_for ts ts'.
Proof.
  induction 1 as [|t ts Ht Hts IH]; intros q l acc p Hp Hpool.
  { exists [], p. rewrite app_nil_r. split; [done|]. split; [done|constructor]. }
  unfold type_messages in Hp. rewrite !fmap_cons in Hp. cbn [concat] in Hp. rewrite <- app_assoc in Hp.
  destruct (import_type_spec m n t q _ p Hp Hm Hn Ht Hpool) as (t' & p1 & Hi & Hp1 & Hst).
  apply placed_app in Hp as [_ Hp]. rewrite sized_length in Hp.
  destruct (IH _ l (acc ++ [t']) p1 Hp Hp1) as (ts' & p' & Hr & Hp' & Hsts). exists (t' :: ts'), p'. split; [|split; [done|by constructor]].
  cbn [length import_types]. step_with Hi.
  replace (q + SIZEOF_LENGTH + Z.of_nat (length (message (type_contents t))))
    with (q + Z.of_nat (4 + length ((message ∘ type_contents) t))) by (unfold SIZEOF_LENGTH; cbn [compose]; lia).
  by rewrite Hr, <- app_assoc.
Qed.

(** ** Protocols *)

Record proto_valid (n : nat) (q : proto_spec) : Prop := {
  pv_name : text_ok (ps_name q);
  pv_tag : small_number (ps_tag q);
  pv_request : forall i, ps_request q = Some i -> (i < n)%nat;
  pv_response : forall i, ps_response q = Some i -> (i < n)%nat
}.

Definition describe_protocol (q : protocol) : proto_spec :=
  mk_pspec (n_text (pr_name q)) (pr_tag q) (pr_request q) (pr_response q).

(** The words of a protocol one after the other. *)
Lemma words_placed m w v ws : placed m w (words (v :: ws)) -> 0 <= v < 2 ^ 16 -> toword m w = Ret v /\ placed m (w + SIZEOF_FIELD) (words ws).
Proof.
  intros Hp Hv. change (words (v :: ws)) with (le_bytes 2 v ++ words ws) in Hp. rewrite (toword_placed _ _ _ _ Hp), Z.mod_small by lia.
  split; [done|]. by apply placed_app in Hp as [_ Hp].
Qed.

(** A word that is a number. *)
Lemma number_word v : 0 <= v < 0x7fff -> 0 <= (v + 1) * 2 < 2 ^ 16 /\ Z.land ((v + 1) * 2) 1 = 0 /\ (v + 1) * 2 / 2 - 1 = v.
Proof. intros Hv. rewrite land_1. split; [lia|]. split; dlia. Qed.

Definition type_word (o : option nat) : list Z := match o with Some i => [(Z.of_nat i + 1) * 2] | None => [] end.

Lemma request_words m n data i o ws q p w : Z.of_nat n <= 0x7fff -> i = 2 \/ i = 3 -> (o < n)%nat ->
  placed m w (words ((Z.of_nat o + 1) * 2 :: ws)) ->
  protocol_words m (S (length ws)) (Z.of_nat n) w data i q p = protocol_words m (length ws) (Z.of_nat n) (w + SIZEOF_FIELD) data (i + 1)
    (if decide (i = 2) then mk_pprotocol (pp_name q) (pp_tag q) (Some o) (pp_response q) else mk_pprotocol (pp_name q) (pp_tag q) (pp_request q) (Some o)) p
  /\ placed m (w + SIZEOF_FIELD) (words ws).
Proof.
  intros Hn Hi Ho Hp. destruct (number_word (Z.of_nat o)) as (Hr & He & Hv); [lia|]. destruct (words_placed _ _ _ _ Hp Hr) as [Hw Hp'].
  split; [|done]. cbn [protocol_words]. step_with Hw. rewrite He, Hv, Nat2Z.id. destruct Hi as [-> | ->]; cbn [bool_decide];
    repeat first [rewrite bool_decide_true by lia | rewrite bool_decide_false by lia]; done.
Qed.

Lemma gap_words m k n w data i q p ws : placed m w (words (1 :: ws)) ->
  protocol_words m (S k) n w data i q p = protocol_words m k n (w + SIZEOF_FIELD) data (i + 1) q p /\ placed m (w + SIZEOF_FIELD) (words ws).
Proof. intros Hp. destruct (words_placed _ _ _ _ Hp) as [Hw Hp']; [lia|]. split; [|done]. cbn [protocol_words]. by step_with Hw. Qed.

(** The words behind those of the name and the tag. *)
Definition body_words (q : proto_spec) : list Z :=
  match ps_request q, ps_response q with
  | Some i, o => (Z.of_nat i + 1) * 2 :: type_word o
  | None, Some i => [1; (Z.of_nat i + 1) * 2]
  | None, None => []
  end.

Lemma proto_contents_good n q : Z.of_nat n <= 0x7fff -> proto_valid n q ->
  ascending 0 (tail (proto_contents q)).*1 /\ Forall (fun p => plain p.2) (tail (proto_contents q)) /\
  records (-1) (proto_contents q) = 0 :: (ps_tag q + 1) * 2 :: body_words q.
Proof.
  intros Hn [_ Ht Hreq Hresp]. destruct q as [name tag req resp]. cbn [ps_name ps_tag ps_request ps_response] in *.
  destruct (plain_int _ Ht) as [Hp Hw]. unfold proto_contents, body_words. cbn [ps_name ps_tag ps_request ps_response app tail].
  assert (Hi : forall i, (i < n)%nat -> plain (One (IInt (Z.of_nat i))) /\ word_of (One (IInt (Z.of_nat i))) = (Z.of_nat i + 1) * 2).
  { intros i Hlt. apply plain_int. unfold small_number. lia. }
  split; [|split].
  - destruct req, resp; cbn; lia.
  - constructor; [exact Hp|]. apply Forall_app. split; [destruct req|destruct resp]; constructor; try constructor; apply Hi; auto.
  - destruct req as [i|], resp as [j|]; cbn [app records bool_decide]; rewrite Hw; try rewrite (proj2 (Hi i ltac:(eauto))); try rewrite (proj2 (Hi j ltac:(eauto))); reflexivity.
Qed.

Lemma body_words_spec m n q data p r w : Z.of_nat n <= 0x7fff -> proto_valid n q -> placed m w (words (body_words q)) ->
  pp_request r = None -> pp_response r = None ->
  protocol_words m (length (body_words q)) (Z.of_nat n) w data 2 r p =
    Ret (Some (mk_pprotocol (pp_name r) (pp_tag r) (ps_request q) (ps_response q), p)).
Proof.
  intros Hn [_ _ Hreq Hresp] Hp Hr Hs. unfold body_words in *.
  destruct (ps_request q) as [i|]; [|destruct (ps_response q) as [j|]].
  - destruct (request_words m n data 2 i _ r p w Hn (or_introl eq_refl) (Hreq i eq_refl) Hp) as [Hrun Hp2]. cbn [length]. rewrite Hrun.
    rewrite decide_True by done. destruct (ps_response q) as [j|]; cbn [type_word length] in *; [|cbn [protocol_words]; by rewrite Hs].
    destruct (request_words m n data 3 j [] (mk_pprotocol (pp_name r) (pp_tag r) (Some i) (pp_response r)) p _ Hn (or_intror eq_refl) (Hresp j eq_refl) Hp2) as [Hrun2 _].
    cbn [length] in Hrun2. change (2 + 1) with 3. by rewrite Hrun2.
  - destruct (gap_words m 1 (Z.of_nat n) w data 2 r p _ Hp) as [Hrun Hp2]. cbn [length]. rewrite Hrun.
    destruct (request_words m n data 3 j [] r p _ Hn (or_intror eq_refl) (Hresp j eq_refl) Hp2) as [Hrun2 _].
    cbn [length] in Hrun2. change (2 + 1) with 3. rewrite Hrun2. cbn. by rewrite Hr.
  - cbn. destruct r. cbn in *. by subst.
Qed.

Lemma import_protocol_spec m n s q l p : placed m q (sized (message (proto_contents s)) ++ l) -> Z.of_nat (length m) < 2 ^ 31 ->
  Z.of_nat n <= 0x7fff -> proto_valid n s -> pool_inv p [] ->
  exists s' p', import_protocol m (Z.of_nat n) q p = Ret (Some (s', q + SIZEOF_LENGTH + Z.of_nat (length (message (proto_contents s))), p')) /\
    pool_inv p' [] /\ describe_protocol s' = s.
Proof.
  intros Hp Hm Hn Hs Hpool. destruct (proto_contents_good n s Hn Hs) as (Ha & Hpl & Hrs).
  change (proto_contents s) with ((0, One (IStr (ps_name s))) :: tail (proto_contents s)) in Hp |- *.
  destruct (struct_at _ _ _ _ _ Hp eq_refl Ha Hpl Hm) as (Hsz & Hfn & Hws & Hds & _).
  change ((0, One (IStr (ps_name s))) :: tail (proto_contents s)) with (proto_contents s) in *. rewrite Hrs in *.
  change (data_of (One (IStr ?b))) with (sized b) in Hds. pose proof (placed_length _ _ _ Hds) as [Hd0 Hlen]. rewrite length_app, sized_length in Hlen.
  destruct (import_string_spec _ _ _ _ p Hds (pv_name _ _ Hs)) as (a & k & p1 & Hstr & Hg); [lia|].
  destruct (words_placed _ _ _ _ Hws) as [Hw0 Hws1]; [lia|]. pose proof (pv_tag _ _ Hs) as Htag. unfold small_number in Htag.
  destruct (number_word _ Htag) as (Hr & He & Hv). destruct (words_placed _ _ _ _ Hws1 Hr) as [Hw1 Hws2].
  unfold import_protocol. step_with Hsz. step_with Hfn. rewrite Nat2Z.id, (Z.mul_comm SIZEOF_FIELD).
  set (data := q + SIZEOF_LENGTH + SIZEOF_HEADER + Z.of_nat _ * SIZEOF_FIELD) in *. cbn [length protocol_words]. step_with Hw0. rewrite bool_decide_false by (by intros H; apply H). rewrite bool_decide_true by done. rewrite bool_decide_false by (intros H; by apply H).
  step_with Hstr. cbn beta iota. step_with Hw1. rewrite He, Hv. rewrite bool_decide_false by (intros H; by apply H).
  rewrite (bool_decide_false (0 + 1 = 0)) by lia. rewrite bool_decide_true by done. rewrite bool_decide_false by lia. change (0 + 1 + 1) with 2.
  rewrite (body_words_spec m n s _ _ _ _ Hn Hs Hws2); [|done..]. rewrite bind_Ret. cbn [pp_name pp_tag pp_request pp_response]. rewrite bool_decide_false by lia.
  eexists _, _. split; [done|]. split; [by eapply pool_grows|]. by destruct s.
Qed.

Definition proto_messages (qs : list proto_spec) : list (list Z) := message ∘ proto_contents <$> qs.

Lemma import_protocols_spec m n (Hm : Z.of_nat (length m) < 2 ^ 31) (Hn : Z.of_nat n <= 0x7fff) qs :
  Forall (proto_valid n) qs -> forall q l acc p, placed m q (concat (sized <$> proto_messages qs) ++ l) -> pool_inv p [] ->
  exists qs' p', import_protocols m (length qs) (Z.of_nat n) q acc p = Ret (Some (acc ++ qs', p')) /\
    pool_inv p' [] /\ describe_protocol <$> qs' = qs.
Proof.
  induction 1 as [|s qs Hs Hqs IH]; intros q l acc p Hp Hpool.
  { exists [], p. rewrite app_nil_r. split; [done|]. by split. }
  unfold proto_messages in Hp. rewrite !fmap_cons in Hp. cbn [concat] in Hp. rewrite <- app_assoc in Hp.
  destruct (import_protocol_spec m n s q _ p Hp Hm Hn Hs Hpool) as (s' & p1 & Hi & Hp1 & Hst).
  apply placed_app in Hp as [_ Hp]. rewrite sized_length in Hp.
  destruct (IH _ l (acc ++ [s']) p1 Hp Hp1) as (qs' & p' & Hr & Hp' & Hd). exists (s' :: qs'), p'.
  split; [|split; [done|]]; [|rewrite fmap_cons; by f_equal]. cbn [length import_protocols]. step_with Hi.
  replace (q + SIZEOF_LENGTH + Z.of_nat (length (message (proto_contents s))))
    with (q + Z.of_nat (4 + length ((message ∘ proto_contents) s))) by (unfold SIZEOF_LENGTH; cbn [compose]; lia).
  by rewrite Hr, <- app_assoc.
Qed.

(** ** Schemas *)

Record schema_valid (sc : schema_spec) : Prop := {
  sv_some : sc_types sc <> [];
  sv_types_n : Z.of_nat (length (sc_types sc)) <= 0x7fff;
  sv_types : Forall (type_valid (length (sc_types sc))) (sc_types sc);
  sv_protos : Forall (proto_valid (length (sc_types sc))) (sc_protos sc)
}.

Definition describe (s : sproto) : schema_spec := mk_schema (describe_type <$> s_type s) (describe_protocol <$> s_proto s).

(** The contents of a schema with types: one array, or two. *)
Definition proto_arrays (qs : list proto_spec) : list (list (list Z)) :=
  match qs with [] => [] | qs => [proto_messages qs] end.

Definition schema_arrays (sc : schema_spec) : list (list (list Z)) := type_messages (sc_types sc) :: proto_arrays (sc_protos sc).

Lemma schema_message sc : sc_types sc <> [] ->
  schema_bytes sc = message (zip_with (fun i bs => (i, objects bs)) [0; 1] (schema_arrays sc)) /\
  records (-1) (zip_with (fun i bs => (i, objects bs)) [0; 1] (schema_arrays sc)) = repeat 0 (length (schema_arrays sc)) /\
  datas (zip_with (fun i bs => (i, objects bs)) [0; 1] (schema_arrays sc)) = concat ((fun bs => sized (concat (sized <$> bs))) <$> schema_arrays sc).
Proof.
  destruct sc as [[|t ts] qs]; [done|]. intros _. unfold schema_arrays. cbn [sc_types sc_protos]. destruct qs as [|q qs].
  - split; [done|]. split; [done|]. unfold datas. cbn [proto_arrays zip_with fmap list_fmap concat compose snd]. by rewrite data_objects.
  - split; [done|]. split; [done|]. unfold datas. cbn [proto_arrays zip_with fmap list_fmap concat compose snd]. by rewrite !data_objects.
Qed.

(** A round of the first loop. *)
Lemma bundle_step m k w q i b p ws bs l : placed m w (words (0 :: ws)) -> placed m q (sized (concat (sized <$> bs)) ++ l) ->
  Z.of_nat (length m) < 2 ^ 31 -> pool_inv p [] ->
  let num := Z.of_nat (length bs) in let next := q + (Z.of_nat (length (concat (sized <$> bs))) + SIZEOF_LENGTH) in
  exists p', pool_inv p' [] /\ placed m (w + SIZEOF_FIELD) (words ws) /\ placed m next l /\
    bundle_loop m (S k) w q i b p = bundle_loop m k (w + SIZEOF_FIELD) next (i + 1)
      (if decide (i = 0) then mk_parts num (q + SIZEOF_LENGTH) (b_protocol_n b) (b_protocoldata b)
       else mk_parts (b_type_n b) (b_typedata b) num (q + SIZEOF_LENGTH)) p'.
Proof.
  intros Hw Hq Hm Hpool num next. destruct (words_placed _ _ _ _ Hw) as [Hv Hws]; [lia|].
  destruct (array_at _ _ _ _ Hq Hm) as (Hc & _ & Hd & Hl). pose proof (placed_length _ _ _ Hq) as [Hq0 Hlen]. rewrite length_app, sized_length in Hlen.
  set (sz := if decide (i = 0) then num * SIZEOF_TYPE else num * SIZEOF_PROTOCOL).
  assert (Hsz : 0 <= sz) by (unfold sz, num, SIZEOF_TYPE, SIZEOF_PROTOCOL; case_decide; lia).
  exists (pool_alloc p sz).2. split; [by eapply pool_grows, Hpool; apply grows_alloc|]. split; [done|]. split; [done|].
  cbn [bundle_loop]. step_with Hv. rewrite bool_decide_false by (intros H; by apply H). step_with Hc. fold num. rewrite bool_decide_false by (unfold num; lia).
  unfold sz. case_decide as E; [rewrite bool_decide_true by done|rewrite bool_decide_false by done];
    destruct (pool_alloc p _) as [a p1]; step_with Hd; by rewrite u32_small by (unfold is_u32, SIZEOF_LENGTH; lia).
Qed.

(** The first loop finds both arrays. *)
Lemma bundle_arrays m sc w q p : placed m w (words (repeat 0 (length (schema_arrays sc)))) ->
  placed m q (concat ((fun bs => sized (concat (sized <$> bs))) <$> schema_arrays sc)) -> Z.of_nat (length m) < 2 ^ 31 -> pool_inv p [] ->
  exists b p', bundle_loop m (length (schema_arrays sc)) w q 0 (mk_parts 0 0 0 0) p = Ret (Some (b, p')) /\ pool_inv p' [] /\
    b_type_n b = Z.of_nat (length (sc_types sc)) /\ placed m (b_typedata b) (concat (sized <$> type_messages (sc_types sc)) ++ []) /\
    b_protocol_n b = Z.of_nat (length (sc_protos sc)) /\ placed m (b_protocoldata b) (concat (sized <$> proto_messages (sc_protos sc)) ++ []).
Proof.
  intros Hw Hq Hm Hp. rewrite !app_nil_r. unfold schema_arrays in *. cbn [fmap list_fmap concat length repeat] in *.
  destruct (array_at _ _ _ _ Hq Hm) as (_ & Ht & _ & _).
  destruct (bundle_step m (length (proto_arrays (sc_protos sc))) _ _ 0 (mk_parts 0 0 0 0) p _ _ _ Hw Hq Hm Hp)
    as (p1 & Hp1 & Hw1 & Hd1 & Hrun). rewrite Hrun. clear Hrun. cbn [b_type_n b_typedata b_protocol_n b_protocoldata] in *.
  destruct (sc_protos sc) as [|s qs]; cbn [proto_arrays fmap list_fmap concat length repeat] in *.
  - eexists _, _. split; [done|]. split; [done|]. cbn. split; [unfold type_messages; by rewrite length_fmap|]. split; [exact Ht|].
    split; [done|]. by exists [], m.
  - destruct (array_at _ _ _ _ Hd1 Hm) as (_ & Hpr & _ & _).
    destruct (bundle_step m 0 _ _ (0 + 1) (mk_parts (Z.of_nat (length (type_messages (sc_types sc)))) (q + SIZEOF_LENGTH) 0 0) p1 _ _ _ Hw1 Hd1 Hm Hp1)
      as (p2 & Hp2 & _ & _ & Hrun). rewrite decide_True by done. rewrite Hrun. rewrite decide_False by lia. cbn [b_type_n b_typedata] in *.
    eexists _, _. split; [done|]. split; [done|]. unfold type_messages, proto_messages. rewrite !length_fmap. done.
Qed.

(** The loader makes the types and protocols that the bytes describe. *)
Lemma bundle_loaded sc next : schema_valid sc -> Z.of_nat (length (schema_bytes sc)) < 2 ^ 31 ->
  exists s, sproto_create (schema_bytes sc) next (Z.of_nat (length (schema_bytes sc))) = Ret (Some s) /\
    s_type_n s = Z.of_nat (length (sc_types sc)) /\ s_protocol_n s = Z.of_nat (length (sc_protos sc)) /\
    Forall2 stands_for (sc_types sc) (s_type s) /\ describe_protocol <$> s_proto s = sc_protos sc.
Proof.
  intros [Hsome Hn Hts Hqs] Hm. set (m := schema_bytes sc) in *. destruct (schema_message sc Hsome) as (Hmsg & Hrec & Hdat).
  set (cs := zip_with _ _ _) in *. assert (Hp : placed m 0 (message cs)) by (rewrite <- Hmsg; exists [], []; by rewrite app_nil_r).
  assert (Hfn : struct_field m 0 (Z.of_nat (length m)) = Ret (Z.of_nat (length (schema_arrays sc)))).
  { assert (Hcs : exists c cs', cs = (0, c) :: cs' /\ word_of c = 0 /\ ascending 0 cs'.*1 /\ Forall (fun p => plain p.2) cs').
    { unfold cs, schema_arrays, proto_arrays. destruct (sc_protos sc); eexists _, _; (split; [reflexivity|]); (split; [done|]); (split; [done|]);
        repeat constructor; apply plain_objects. }
    destruct Hcs as (c & cs' & Hcs & Hw & Ha & Hpl). rewrite <- (repeat_length 0 (length (schema_arrays sc))), <- Hrec, Hcs.
    eapply struct_field_spec; try done; rewrite <- Hcs; [done|]. unfold m. by rewrite Hmsg. }
  unfold message in Hp. rewrite Hrec, Hdat in Hp. apply placed_app in Hp as [_ Hp]. rewrite length_le_bytes in Hp.
  apply placed_app in Hp as [Hw Hd]. rewrite length_words, repeat_length in Hd.
  unfold sproto_create. destruct (pool_alloc (pool_init next) SIZEOF_SPROTO) as [a p0] eqn:E0.
  assert (Hp0 : pool_inv p0 []).
  { pose proof (grows_alloc (pool_init next) SIZEOF_SPROTO ltac:(done)) as Hg. rewrite E0 in Hg. eapply pool_grows, pool_inv_init. exact Hg. }
  unfold create_from_bundle. step_with Hfn. rewrite bool_decide_false, Nat2Z.id by lia.
  change (0 + Z.of_nat 2) with (0 + SIZEOF_HEADER) in *.
  replace (0 + SIZEOF_HEADER + Z.of_nat (2 * length (schema_arrays sc))) with
    (0 + SIZEOF_HEADER + Z.of_nat (length (schema_arrays sc)) * SIZEOF_FIELD) in Hd by (unfold SIZEOF_FIELD; lia).
  destruct (bundle_arrays m sc _ _ p0 Hw Hd Hm Hp0) as (b & p1 & Hrun & Hp1 & Htn & Htd & Hqn & Hqd).
  step_with Hrun. rewrite Htn, Hqn, !Nat2Z.id.
  destruct (import_types_spec m _ Hm Hn _ Hts _ _ [] p1 Htd Hp1) as (ts & p2 & Hrt & Hp2 & Hst). step_with Hrt.
  destruct (import_protocols_spec m _ Hm Hn _ Hqs _ _ [] p2 Hqd Hp2) as (qs & p3 & Hrq & Hp3 & Hdq). step_with Hrq.
  eexists. split; [done|]. cbn. done.
Qed.

Lemma stands_for_good ts ts' : Forall2 stands_for ts ts' -> describe_type <$> ts' = ts /\ schema_ok ts'.
Proof.
  induction 1 as [|t st ts ts' (Hd & Hok & Hn) _ [IH1 IH2]]; [split; [done|constructor]|]. rewrite fmap_cons, Hd, IH1. split; [done|].
  constructor; [by split|exact IH2].
Qed.

(** C35: The bytes that the parser makes of a schema are loaded to that schema: each type and
    each protocol is as it was described, with the fields in order, and the types are good
    for the encoder and the decoder (their numbers fit their fields, the names of a type
    are in places of their own). *)
Theorem schema_roundtrip sc next : schema_valid sc -> Z.of_nat (length (schema_bytes sc)) < 2 ^ 31 ->
  exists s, lnewproto (schema_bytes sc) next = Ret (Some s) /\ describe s = sc /\ schema_ok (s_type s) /\
    s_type_n s = Z.of_nat (length (s_type s)) /\ s_protocol_n s = Z.of_nat (length (s_proto s)).
Proof.
  intros Hsc Hm. destruct (bundle_loaded sc next Hsc Hm) as (s & Hs & Htn & Hqn & Hst & Hd). exists s. split; [done|].
  destruct (stands_for_good _ _ Hst) as [Ht Hok]. pose proof (Forall2_length _ _ _ Hst) as Hl.
  split; [unfold describe; rewrite Ht, Hd; by destruct sc|]. split; [done|]. rewrite Htn, Hqn, Hl.
  split; [done|]. by rewrite <- Hd, length_fmap.
Qed.

(** ** Protocols by tag and by name *)

(** What [lprotocol] answers for a protocol. *)
Definition by_tag (q : protocol) : proto_key * option nat * option nat := (ByName (n_text (pr_name q)), pr_request q, pr_response q).
Definition by_name (q : protocol) : proto_key * option nat * option nat := (ByTag (pr_tag q), pr_request q, pr_response q).

Definition find_tag (s : sproto) (tag : Z) : option protocol := List.find (fun q => bool_decide (pr_tag q = tag)) (s_proto s).
Definition find_name (s : sproto) (name : list Z) : option protocol := List.find (fun q => bool_decide (name = n_text (pr_name q))) (s_proto s).

Section QUERY.
Context (s : sproto) (Hn : s_protocol_n s = Z.of_nat (length (s_proto s))) (Ha : ascending (-1) (pr_tag <$> s_proto s)).

Lemma query_proto_find tag : query_proto s tag = Ret (find_tag s tag).
Proof.
  unfold query_proto, find_tag. change (query_loop ?n ?l ?t ?b ?e) with (bsearch pr_tag n l t b e). rewrite Hn.
  apply (bsearch_find _ _ (-1)); [exact Ha|lia..| |]; intros i f Hi; [lia|]. apply lookup_lt_Some in Hi. lia.
Qed.

Lemma sproto_protoquery_find tag what : sproto_protoquery s tag what =
  Ret (if decide (what = SPROTO_REQUEST) then find_tag s tag ≫= pr_request
       else if decide (what = SPROTO_RESPONSE) then find_tag s tag ≫= pr_response else None).
Proof.
  unfold sproto_protoquery, SPROTO_REQUEST, SPROTO_RESPONSE. rewrite query_proto_find.
  case_bool_decide as Hw; [repeat case_decide; done || lia|]. rewrite bind_Ret. f_equal.
  destruct (find_tag s tag); repeat case_decide; repeat case_bool_decide; done || lia.
Qed.

(** For protocols with ascending tags, [lprotocol] gives the name and the types of the
    protocol with a tag, and the tag and the types of the first protocol with a name, and
    nothing when there is none; the binary search reads no protocol outside the array. *)
Theorem lprotocol_finds key : lprotocol (Some s) key =
  Ret (match key with ByTag tag => by_tag <$> find_tag s tag | ByName name => by_name <$> find_name s (until_nul name) end).
Proof.
  unfold lprotocol. destruct key as [tag|name].
  - unfold sproto_protoname. rewrite query_proto_find, !bind_Ret. destruct (find_tag s tag) as [q|] eqn:E; [|done]. cbn beta iota.
    rewrite !sproto_protoquery_find, !bind_Ret, E. done.
  - unfold sproto_prototag, find_name. destruct (List.find _ _) as [q|] eqn:E; cbv zeta; [|done].
    apply List.find_some in E as [Hin _]. apply list_elem_of_In, list_elem_of_lookup in Hin as [i Hi].
    assert (Ht : -1 < pr_tag q < 0x7fff) by (eapply ascending_le; [exact Ha|]; by rewrite list_lookup_fmap, Hi).
    rewrite bool_decide_false by lia. rewrite bind_Ret, !sproto_protoquery_find, !bind_Ret. unfold find_tag.
    by rewrite (find_at pr_tag _ (-1) Ha i q _ Hi eq_refl).
Qed.
End QUERY.

(** ** A schema *)

(** [.item { id 0 : integer  name 2 : string }], [.list { items 1 : *item(id)  next 3 : list }],
    [get 1 { request item  response list }] and [tick 5 { response item }]. *)
Definition demo_schema : schema_spec := mk_schema
  [mk_tspec [105; 116; 101; 109] [mk_fspec [105; 100] (FBuiltin 0) 0 false None; mk_fspec [110; 97; 109; 101] (FBuiltin 2) 2 false None];
   mk_tspec [108; 105; 115; 116] [mk_fspec [105; 116; 101; 109; 115] (FStruct 0) 1 true (Some 0); mk_fspec [110; 101; 120; 116] (FStruct 1) 3 false None]]
  [mk_pspec [103; 101; 116] 1 (Some 0%nat) (Some 1%nat); mk_pspec [116; 105; 99; 107] 5 None (Some 0%nat)].

Example demo_schema_is_demo_bytes : schema_bytes demo_schema = demo_schema_bytes.
Proof. vm_compute. reflexivity. Qed.

Lemma text_ok_all s : forallb (fun c => negb (c =? 0)) s = true -> text_ok s.
Proof. intros H. apply Forall_forall. intros c Hc. apply list_elem_of_In in Hc. rewrite forallb_forall in H. specialize (H c Hc). lia. Qed.

(** Takes the validity of a concrete schema apart. *)
Ltac solve_valid := repeat match goal with
  | |- text_ok _ => apply text_ok_all; reflexivity
  | |- Forall _ _ => constructor
  | |- type_valid _ _ => split; cbn
  | |- field_valid _ _ => split; cbn
  | |- proto_valid _ _ => split; cbn
  | |- small_number _ => split; lia
  | |- NoDup _ => apply (bool_decide_unpack _); vm_compute; exact I
  | |- forall i, Some _ = Some i -> _ => intros i [= <-]
  | |- _ /\ _ => split
  end; try done; try lia.

Lemma demo_schema_valid : schema_valid demo_schema.
Proof. split; cbn; solve_valid. Qed.

Lemma schema_roundtrip_witness : exists s, lnewproto (schema_bytes demo_schema) 0 = Ret (Some s) /\ describe s = demo_schema /\
  schema_ok (s_type s) /\ s_type_n s = Z.of_nat (length (s_type s)) /\ s_protocol_n s = Z.of_nat (length (s_proto s)).
Proof. apply schema_roundtrip; [exact demo_schema_valid|by vm_compute]. Defined.

(** The protocols of the schema. *)
Definition demo_protocols : sproto := mk_sproto (pool_init 0) 2 2 []
  [mk_protocol (mk_sname 0 [103; 101; 116]) 1 (Some 0%nat) (Some 1%nat); mk_protocol (mk_sname 8 [116; 105; 99; 107]) 5 None (Some 0%nat)].

Lemma lprotocol_finds_witness : lprotocol (Some demo_protocols) (ByTag 5) = Ret (Some (ByName [116; 105; 99; 107], None, Some 0%nat)).
Proof. apply (lprotocol_finds demo_protocols eq_refl ltac:(cbn; lia) (ByTag 5)). Defined.

(** ** What the parser's bytes and others do not load *)

(** The parser makes two zeros of a schema without types; the loader refuses them. *)
Example empty_schema_refused next : schema_bytes (mk_schema [] []) = [0; 0] /\ lnewproto [0; 0] next = Ret None.
Proof. by split. Qed.

(** A length that wraps to zero keeps [count_array] in its loop for ever. *)
Lemma count_loop_hangs m stream length fuel : length >= SIZEOF_LENGTH -> todword m stream = Ret 0xfffffffc ->
  forall n, count_loop m fuel stream length n = Crash OutOfFuel.
Proof.
  intros Hl Hd. induction fuel as [|fuel IH]; intros n; cbn [count_loop]; unfold SIZEOF_LENGTH in *; rewrite bool_decide_true by lia; [done|].
  rewrite bool_decide_false by lia. step_with Hd. change (u32 (0xfffffffc + 4)) with 0. rewrite bool_decide_false by lia.
  rewrite Z.add_0_r, Z.sub_0_r. apply IH.
Qed.

Example schema_hangs next : lnewproto [1; 0; 0; 0; 4; 0; 0; 0; 252; 255; 255; 255] next = Crash OutOfFuel.
Proof. reflexivity. Qed.
