(* ===== verification/LuaSocket.v ===== *)
(** * Socket buffers for Lua (src/lualib-src/lua-socket.c)

    The blocks that a socket received wait in a list from which a service pops bytes and
    lines.  The nodes of all buffers of a service come from the chunks of one pool, a Lua
    table; a pointer to a node is an index into the chunks, oldest first.  The theorems
    show that the buffers behave as independent byte queues. *)
From stdpp Require Import base list gmap numbers strings.
From Stdlib Require Import ZArith Lia.
From S2P Require Import Prelude.

Local Open Scope Z_scope.

Definition LARGE_PAGE_NODE : Z := 12.

Record buffer_node := mk_node {
  n_msg : option (list Z);
  n_sz : Z;
  n_next : option nat
}.

Record socket_buffer := mk_sb {
  sb_size : Z;
  sb_offset : Z;
  sb_head : option nat;
  sb_tail : option nat
}.

(** The table: its chunks [[2] ...], the first free node [[1]], and its raw length. *)
Record pool := mk_pool {
  p_nodes : list buffer_node;
  p_free : option nat;
  p_len : Z
}.

(** ** The pool *)

(** The collection of a chunk frees the messages of its nodes. *)
Definition lfreepool (chunk : list buffer_node) : list buffer_node :=
  (fun nd => mk_node None (n_sz nd) (n_next nd)) <$> chunk.

Definition pool_node (base sz i : nat) : buffer_node :=
  mk_node None 0 (if decide (S i = sz) then None else Some (base + S i)%nat).

Definition lnewpool (base sz : nat) : list buffer_node := pool_node base sz <$> seq 0 sz.

Definition lnewbuffer : socket_buffer := mk_sb 0 0 None None.

(** The table of a service at the start, [{}]. *)
Definition empty_pool : pool := mk_pool [] None 0.

Definition chunk_size (tsz : Z) : Z :=
  if bool_decide (tsz <= LARGE_PAGE_NODE - 3) then Z.shiftl 8 tsz else Z.shiftl 8 (LARGE_PAGE_NODE - 3).

(** A free node: the first of the list, or of a new chunk. *)
Definition get_node (p : pool) : nat * pool :=
  match p_free p with
  | Some i => (i, p)
  | None =>
    let tsz := if bool_decide (p_len p = 0) then 1 else p_len p in
    let base := length (p_nodes p) in
    (base, mk_pool (p_nodes p ++ lnewpool base (Z.to_nat (chunk_size tsz))) None (tsz + 1))
  end.

Definition node_at (p : pool) (i : nat) : outcome buffer_node := read_at (p_nodes p) (Z.of_nat i).

Definition set_node (p : pool) (i : nat) (nd : buffer_node) : outcome pool :=
  ns ← write_at (p_nodes p) (Z.of_nat i) nd; Ret (mk_pool ns (p_free p) (p_len p)).

Definition head_of (sb : socket_buffer) : outcome nat :=
  match sb_head sb with Some i => Ret i | None => Crash OutOfBounds end.

Definition lpushbuffer (sb : option socket_buffer) (p : pool) (msg : option (list Z)) (sz : Z)
  : outcome (Z * socket_buffer * pool) :=
  match sb, msg with
  | None, _ => Raise "need buffer object at param 1"
  | _, None => Raise "need message block at param 3"
  | Some sb, Some msg =>
    let '(i, p) := get_node p in
    nd ← node_at p i;
    p ← set_node (mk_pool (p_nodes p) (n_next nd) (p_len p)) i (mk_node (Some msg) sz None);
    '(sb, p) ←
      match sb_head sb with
      | None =>
        if bool_decide (sb_tail sb = None) then Ret (mk_sb (sb_size sb) (sb_offset sb) (Some i) (Some i), p)
        else Crash AssertFailed
      | Some _ =>
        match sb_tail sb with
        | None => Crash OutOfBounds
        | Some t =>
          tl ← node_at p t;
          p ← set_node p t (mk_node (n_msg tl) (n_sz tl) (Some i));
          Ret (mk_sb (sb_size sb) (sb_offset sb) (sb_head sb) (Some i), p)
        end
      end;
    let size := i32 (sb_size sb + sz) in
    Ret (size, mk_sb size (sb_offset sb) (sb_head sb) (sb_tail sb), p)
  end.

Definition return_free_node (p : pool) (sb : socket_buffer) : outcome (socket_buffer * pool) :=
  i ← head_of sb;
  nd ← node_at p i;
  let tail := match n_next nd with None => None | Some _ => sb_tail sb end in
  p ← set_node p i (mk_node None 0 (p_free p));
  Ret (mk_sb (sb_size sb) 0 (n_next nd) tail, mk_pool (p_nodes p) (Some i) (p_len p)).

(** ** Popping *)

(** A Lua string of [n] bytes of a message; a negative number is a large [size_t]. *)
Definition read_msg (nd : buffer_node) (offset n : Z) : outcome (list Z) :=
  match n_msg nd with
  | Some b => read_bytes b offset n
  | None => if bool_decide (n = 0) then Ret [] else Crash OutOfBounds
  end.

Definition advance (sb : socket_buffer) (n : Z) : socket_buffer :=
  mk_sb (sb_size sb) (i32 (sb_offset sb + n)) (sb_head sb) (sb_tail sb).

(** The loop of [pop_lstring]; [acc] is the content of the string buffer. *)
Fixpoint pop_loop (fuel : nat) (p : pool) (sb : socket_buffer) (sz skip : Z) (acc : list Z)
  : outcome (list Z * socket_buffer * pool) :=
  match fuel with
  | O => Crash OutOfFuel
  | S fuel =>
    i ← match sb_head sb with Some i => Ret i | None => Crash AssertFailed end;
    current ← node_at p i;
    let bytes := n_sz current - sb_offset sb in
    if bool_decide (bytes >= sz) then
      s ← (if bool_decide (sz > skip) then read_msg current (sb_offset sb) (sz - skip) else Ret []);
      let sb := advance sb sz in
      '(sb, p) ← (if bool_decide (bytes = sz) then return_free_node p sb else Ret (sb, p));
      Ret (acc ++ s, sb, p)
    else
      s ← read_msg current (sb_offset sb) (if bool_decide (sz - skip < bytes) then sz - skip else bytes);
      '(sb, p) ← return_free_node p sb;
      if bool_decide (sz - bytes = 0) then Ret (acc ++ s, sb, p)
      else pop_loop fuel p sb (sz - bytes) skip (acc ++ s)
  end.

Definition pop_lstring (p : pool) (sb : socket_buffer) (sz skip : Z) : outcome (list Z * socket_buffer * pool) :=
  i ← head_of sb;
  current ← node_at p i;
  let bytes := n_sz current - sb_offset sb in
  if bool_decide (sz < bytes) then
    s ← read_msg current (sb_offset sb) (sz - skip);
    Ret (s, advance sb sz, p)
  else if bool_decide (sz = bytes) then
    s ← read_msg current (sb_offset sb) (sz - skip);
    '(sb, p) ← return_free_node p sb;
    Ret (s, sb, p)
  else pop_loop (S (length (p_nodes p))) p sb sz skip [].

Definition set_size (n : Z) (sb : socket_buffer) : socket_buffer :=
  mk_sb n (sb_offset sb) (sb_head sb) (sb_tail sb).

(** The string, [None] for nil, and the size that is left. *)
Definition lpopbuffer (sb : option socket_buffer) (p : pool) (sz : Z)
  : outcome (option (list Z) * Z * socket_buffer * pool) :=
  match sb with
  | None => Raise "Need buffer object at param 1"
  | Some sb =>
    if bool_decide (sb_size sb < sz \/ sz = 0) then Ret (None, sb_size sb, sb, p)
    else
      '(s, sb, p) ← pop_lstring p sb sz 0;
      let size := i32 (sb_size sb - sz) in
      Ret (Some s, size, set_size size sb, p)
  end.

(** The loops of [lclearbuffer] and [lreadall]. *)
Fixpoint drain (fuel : nat) (p : pool) (sb : socket_buffer) (acc : list Z) : outcome (list Z * socket_buffer * pool) :=
  match sb_head sb with
  | None => Ret (acc, sb, p)
  | Some i =>
    match fuel with
    | O => Crash OutOfFuel
    | S fuel =>
      current ← node_at p i;
      s ← read_msg current (sb_offset sb) (n_sz current - sb_offset sb);
      '(sb, p) ← return_free_node p sb;
      drain fuel p sb (acc ++ s)
    end
  end.

Fixpoint clear_loop (fuel : nat) (p : pool) (sb : socket_buffer) : outcome (socket_buffer * pool) :=
  match sb_head sb with
  | None => Ret (sb, p)
  | Some _ =>
    match fuel with
    | O => Crash OutOfFuel
    | S fuel => '(sb, p) ← return_free_node p sb; clear_loop fuel p sb
    end
  end.

Definition lclearbuffer (sb : option socket_buffer) (p : pool) : outcome (socket_buffer * pool) :=
  match sb with
  | None => Raise "Need buffer object at param 1"
  | Some sb => '(sb, p) ← clear_loop (length (p_nodes p)) p sb; Ret (set_size 0 sb, p)
  end.

Definition lreadall (sb : option socket_buffer) (p : pool) : outcome (list Z * socket_buffer * pool) :=
  match sb with
  | None => Raise "Need buffer object at param 1"
  | Some sb => '(s, sb, p) ← drain (length (p_nodes p)) p sb []; Ret (s, set_size 0 sb, p)
  end.

(** ** Lines *)

(** [sep] at [pos], of which [seplen] bytes are left to compare. *)
Fixpoint check_sep (fuel : nat) (p : pool) (node : option nat) (from : Z) (sep : list Z) (pos seplen : Z) : outcome bool :=
  match fuel with
  | O => Crash OutOfFuel
  | S fuel =>
    i ← match node with Some i => Ret i | None => Crash OutOfBounds end;
    nd ← node_at p i;
    let sz := n_sz nd - from in
    if bool_decide (sz >= seplen) then
      a ← read_msg nd from seplen;
      b ← read_bytes sep pos seplen;
      Ret (bool_decide (a = b))
    else
      same ← (if bool_decide (sz > 0) then
                a ← read_msg nd from sz;
                b ← read_bytes sep pos sz;
                Ret (bool_decide (a = b))
              else Ret true);
      if negb same then Ret false
      else check_sep fuel p (n_next nd) 0 sep (pos + sz) (seplen - sz)
  end.

(** Nothing, [true], or a line. *)
Inductive line := NoLine | HasLine | Line (s : list Z).

(** The loop of [lreadline]; [n] rounds are left, [i] bytes were passed. *)
Fixpoint readline_loop (n : nat) (p : pool) (current : nat) (from bytes : Z) (sep : list Z) (i : Z)
  : outcome (option Z) :=
  match n with
  | O => Ret None
  | S n =>
    found ← check_sep (S (length (p_nodes p))) p (Some current) from sep 0 (Z.of_nat (length sep));
    if (found : bool) then Ret (Some i)
    else if bool_decide (bytes - 1 = 0) then
      nd ← node_at p current;
      match n_next nd with
      | None => Ret None
      | Some c => nd ← node_at p c; readline_loop n p c 0 (n_sz nd) sep (i + 1)
      end
    else readline_loop n p current (from + 1) (bytes - 1) sep (i + 1)
  end.

(** [check] when the pool is nil: the line stays. *)
Definition lreadline (sb : option socket_buffer) (p : pool) (check : bool) (sep : list Z)
  : outcome (line * socket_buffer * pool) :=
  match sb with
  | None => Raise "Need buffer object at param 1"
  | Some sb =>
    match sb_head sb with
    | None => Ret (NoLine, sb, p)
    | Some current =>
      nd ← node_at p current;
      let seplen := Z.of_nat (length sep) in
      r ← readline_loop (Z.to_nat (sb_size sb - seplen + 1)) p current (sb_offset sb) (n_sz nd - sb_offset sb) sep 0;
      match r with
      | None => Ret (NoLine, sb, p)
      | Some i =>
        if check then Ret (HasLine, sb, p)
        else
          '(s, sb, p) ← pop_lstring p sb (i + seplen) seplen;
          Ret (Line s, set_size (i32 (sb_size sb - (i + seplen))) sb, p)
      end
    end
  end.

(** A length of at most four bytes, the high one first. *)
Definition lheader (s : list Z) : outcome Z :=
  if bool_decide (4 < length s \/ length s < 1)%nat then Raise "Invalid read %s"
  else Ret (fold_left (fun sz b => Z.lor (Z.shiftl sz 8) b) s 0).

(** ** What a buffer holds *)

(** From [p] on, the nodes [l] have the messages [bl]. *)
Fixpoint chain (ns : list buffer_node) (p : option nat) (l : list nat) (bl : list (list Z)) : Prop :=
  match l, bl with
  | [], [] => p = None
  | i :: l, b :: bl =>
    p = Some i /\ exists nx, ns !! i = Some (mk_node (Some b) (Z.of_nat (length b)) nx) /\ chain ns nx l bl
  | _, _ => False
  end.

Definition message_ok (b : list Z) : Prop := b <> [] /\ Z.of_nat (length b) < 2 ^ 31.

Record holds (ns : list buffer_node) (sb : socket_buffer) (l : list nat) (bl : list (list Z)) : Prop := {
  h_chain : chain ns (sb_head sb) l bl;
  h_tail : sb_tail sb = last l;
  h_messages : Forall message_ok bl;
  h_offset : 0 <= sb_offset sb /\ if bl is b :: _ then sb_offset sb < Z.of_nat (length b) else sb_offset sb = 0
}.

Definition content (sb : socket_buffer) (bl : list (list Z)) : list Z := drop (Z.to_nat (sb_offset sb)) (concat bl).

(** The free nodes [fl], those of the buffer, and those of the others. *)
Definition pool_ok (p : pool) (fl l r : list nat) : Prop :=
  linked n_next (p_nodes p) (p_free p) fl /\ NoDup (fl ++ l ++ r) /\
  (forall i, i ∈ l ++ r -> (i < length (p_nodes p))%nat) /\ 0 <= p_len p.

Definition same_nodes (r : list nat) (p p' : pool) : Prop := forall i, i ∈ r -> p_nodes p' !! i = p_nodes p !! i.

(** The buffer has the bytes [bs] to come, beside the nodes [r] of the others. *)
Definition buffered (p : pool) (sb : socket_buffer) (l r : list nat) (bs : list Z) : Prop :=
  exists fl bl, holds (p_nodes p) sb l bl /\ pool_ok p fl l r /\ bs = content sb bl.

Lemma chain_ext ns ns' l : forall p bl, (forall i, i ∈ l -> ns' !! i = ns !! i) -> chain ns p l bl -> chain ns' p l bl.
Proof.
  induction l as [|i l IH]; intros p [|b bl] He Hc; try done. destruct Hc as [-> (nx & Hi & Hc)].
  split; [done|]. exists nx. split; [by rewrite He by apply list_elem_of_here|].
  apply IH; [|done]. intros j Hj. apply He. by apply list_elem_of_further.
Qed.

Lemma chain_linked ns l : forall p bl, chain ns p l bl -> linked n_next ns p l.
Proof.
  induction l as [|i l IH]; intros p [|b bl] Hc; try done; [rewrite Hc; constructor|].
  destruct Hc as [-> (nx & Hi & Hc)]. eapply linked_cons; [exact Hi|]. by eapply IH.
Qed.

Lemma chain_length ns l : forall p bl, chain ns p l bl -> length l = length bl.
Proof. induction l as [|i l IH]; intros p [|b bl] Hc; try done. destruct Hc as [_ (nx & _ & Hc)]. cbn. by erewrite IH. Qed.

Lemma holds_ext ns ns' sb l bl : (forall i, i ∈ l -> ns' !! i = ns !! i) -> holds ns sb l bl -> holds ns' sb l bl.
Proof. intros He [H1 H2 H3 H4]. split; [by eapply chain_ext|done..]. Qed.

(** The first node of a buffer that holds something. *)
Lemma holds_head ns sb i l b bl : holds ns sb (i :: l) (b :: bl) ->
  sb_head sb = Some i /\ (exists nx, ns !! i = Some (mk_node (Some b) (Z.of_nat (length b)) nx) /\ chain ns nx l bl) /\
  0 <= sb_offset sb < Z.of_nat (length b) /\ Z.of_nat (length b) < 2 ^ 31 /\
  content sb (b :: bl) = drop (Z.to_nat (sb_offset sb)) b ++ concat bl.
Proof.
  intros [[Hh Hi] _ [[_ Hb] _]%Forall_cons Ho]. split; [done|]. split; [done|]. split; [lia|]. split; [done|].
  unfold content. cbn [concat]. apply drop_app_le. lia.
Qed.

Lemma read_msg_some b sz nx off n : 0 <= off -> 0 <= n -> off + n <= Z.of_nat (length b) ->
  read_msg (mk_node (Some b) sz nx) off n = Ret (take (Z.to_nat n) (drop (Z.to_nat off) b)).
Proof. intros. cbn. unfold read_bytes. by rewrite decide_True by lia. Qed.

Lemma chain_not_head ns p i l bl fl r q : chain ns p (i :: l) bl -> pool_ok q fl (i :: l) r -> (i ∉ fl) /\ (i ∉ l) /\ (i ∉ r).
Proof. intros _ (_ & Hn & _). rewrite !NoDup_app, NoDup_cons in Hn. set_solver. Qed.

(** The first node goes back. *)
Lemma return_free_node_spec p sb fl i l b bl r : holds (p_nodes p) sb (i :: l) (b :: bl) -> pool_ok p fl (i :: l) r ->
  exists p', return_free_node p sb = Ret (mk_sb (sb_size sb) 0 (head l) (last l), p') /\
    holds (p_nodes p') (mk_sb (sb_size sb) 0 (head l) (last l)) l bl /\ pool_ok p' (i :: fl) l r /\
    length (p_nodes p') = length (p_nodes p) /\ same_nodes r p p'.
Proof.
  intros Hs Hp. destruct (holds_head _ _ _ _ _ _ Hs) as (Hh & (nx & Hi & Hc) & _).
  destruct (chain_not_head _ _ _ _ _ _ _ _ (h_chain _ _ _ _ Hs) Hp) as (Hf & Hl & Hr). destruct Hp as (P1 & P2 & P3 & P4).
  pose proof (lookup_lt_Some _ _ _ Hi) as Hlt. pose proof (linked_head _ _ _ _ (chain_linked _ _ _ _ Hc)) as Hnx.
  unfold return_free_node, head_of, node_at, set_node. rewrite Hh, bind_Ret. step_with (read_at_Some _ _ _ Hi).
  rewrite write_at_lt by done. cbn [mbind outcome_bind n_next].
  set (ns := <[i := mk_node None 0 (p_free p)]> (p_nodes p)).
  assert (He : forall j, j <> i -> ns !! j = p_nodes p !! j) by (intros j Hj; by apply list_lookup_insert_ne).
  exists (mk_pool ns (Some i) (p_len p)). cbn [p_nodes p_len p_free]. split.
  { do 2 f_equal. rewrite Hnx. f_equal. destruct l as [|j l]; [done|]. cbn [head]. by rewrite (h_tail _ _ _ _ Hs). }
  split; [|split; [|split; [apply length_insert|]]].
  - destruct Hs as [H1 H2 [_ H3]%Forall_cons H4]. split; cbn [sb_head sb_tail sb_offset]; [|done|done|].
    + rewrite <- Hnx. eapply chain_ext; [|exact Hc]. intros j Hj. apply He. set_solver.
    + split; [lia|]. destruct bl as [|b' bl]; [done|]. apply Forall_cons in H3 as [[Hb' _] _].
      destruct b'; [done|]. cbn. lia.
  - split; [|split; [|split; [|done]]].
    + eapply linked_cons; [by apply list_lookup_insert_eq|]. cbn. by apply linked_insert_ne.
    + cbn [p_nodes]. rewrite <- app_comm_cons. rewrite NoDup_cons. rewrite !NoDup_app, NoDup_cons in P2. rewrite !NoDup_app. set_solver.
    + intros j Hj. cbn [p_nodes]. unfold ns. rewrite length_insert. apply P3. set_solver.
  - intros j Hj. apply He. set_solver.
Qed.

(** ** Popping *)

(** Bytes were taken, and the others kept their nodes. *)
Definition popped (p : pool) (sb : socket_buffer) (r : list nat) (bs : list Z) (p' : pool) (sb' : socket_buffer) : Prop :=
  sb_size sb' = sb_size sb /\ same_nodes r p p' /\ exists l', buffered p' sb' l' r bs.

Lemma advance_holds ns sb i l b bl n : holds ns sb (i :: l) (b :: bl) -> 0 <= n -> sb_offset sb + n < Z.of_nat (length b) ->
  holds ns (advance sb n) (i :: l) (b :: bl) /\
  content (advance sb n) (b :: bl) = drop (Z.to_nat n) (content sb (b :: bl)).
Proof.
  intros Hs Hn Hlt. destruct (holds_head _ _ _ _ _ _ Hs) as (_ & _ & Ho & Hb & _). destruct Hs as [H1 H2 H3 H4].
  assert (Hi : i32 (sb_offset sb + n) = sb_offset sb + n) by (apply i32_small; unfold is_i32; lia).
  split; [split; try done; cbn; rewrite Hi; lia|]. unfold content, advance. cbn [sb_offset]. rewrite Hi, drop_drop. f_equal. lia.
Qed.

(** A whole first node is taken. *)
Lemma first_taken p sb fl i l b bl r n : holds (p_nodes p) sb (i :: l) (b :: bl) -> pool_ok p fl (i :: l) r ->
  n = Z.of_nat (length b) - sb_offset sb ->
  exists p' sb', return_free_node p sb = Ret (sb', p') /\ sb_size sb' = sb_size sb /\ same_nodes r p p' /\
    holds (p_nodes p') sb' l bl /\ pool_ok p' (i :: fl) l r /\ length (p_nodes p') = length (p_nodes p) /\
    content sb' bl = drop (Z.to_nat n) (content sb (b :: bl)).
Proof.
  intros Hs Hp ->. destruct (holds_head _ _ _ _ _ _ Hs) as (_ & _ & Ho & _ & Hc).
  destruct (return_free_node_spec _ _ _ _ _ _ _ _ Hs Hp) as (p' & He & Hs' & Hp' & Hl & Hr).
  eexists p', _. split; [exact He|]. split; [done|]. split; [done|]. split; [done|]. split; [done|]. split; [done|].
  rewrite Hc, drop_app_length' by (rewrite length_drop; lia). unfold content. cbn. by rewrite drop_0.
Qed.

Lemma return_advanced p sb n : return_free_node p (advance sb n) = return_free_node p sb.
Proof. reflexivity. Qed.

(** What the bytes of the first node are among those of the buffer. *)
Lemma take_first sb b bl n : 0 <= sb_offset sb <= Z.of_nat (length b) -> content sb (b :: bl) = drop (Z.to_nat (sb_offset sb)) b ++ concat bl ->
  0 <= n <= Z.of_nat (length b) - sb_offset sb ->
  take (Z.to_nat n) (drop (Z.to_nat (sb_offset sb)) b) = take (Z.to_nat n) (content sb (b :: bl)).
Proof. intros Ho -> Hn. by rewrite take_app_le by (rewrite length_drop; lia). Qed.

Lemma length_l_nodes p fl l r : pool_ok p fl l r -> (length l <= length (p_nodes p))%nat.
Proof.
  intros (_ & Hn & Hlt & _). rewrite !NoDup_app in Hn. destruct Hn as (_ & _ & Hn & _).
  rewrite <- (length_seq (length (p_nodes p)) 0). apply submseteq_length, NoDup_submseteq; [done|].
  intros i Hi. apply elem_of_seq. specialize (Hlt i). set_solver by lia.
Qed.

(** The end of a pop, in the first node. *)
Lemma pop_in_first p sb fl i l b bl r sz : holds (p_nodes p) sb (i :: l) (b :: bl) -> pool_ok p fl (i :: l) r ->
  0 <= sz <= Z.of_nat (length b) - sb_offset sb ->
  exists p' sb', (if bool_decide (Z.of_nat (length b) - sb_offset sb = sz) then return_free_node p (advance sb sz)
      else Ret (advance sb sz, p)) = Ret (sb', p') /\
    popped p sb r (drop (Z.to_nat sz) (content sb (b :: bl))) p' sb'.
Proof.
  intros Hs Hp Hsz. case_bool_decide as He.
  - rewrite return_advanced. destruct (first_taken p sb fl i l b bl r sz Hs Hp) as (p' & sb' & Hret & Hsize & Hsame & Hs' & Hp' & _ & Hc); [done|].
    exists p', sb'. split; [done|]. split; [done|]. split; [done|]. exists l, (i :: fl), bl. by rewrite Hc.
  - destruct (advance_holds _ _ _ _ _ _ sz Hs) as [Hs' Hc]; [lia..|]. exists p, (advance sb sz). split; [done|].
    split; [done|]. split; [done|]. exists (i :: l), fl, (b :: bl). by rewrite Hc.
Qed.

Lemma pop_loop_spec fuel : forall p sb fl l bl r sz skip acc,
  holds (p_nodes p) sb l bl -> pool_ok p fl l r -> (length l < fuel)%nat -> 0 <= skip <= 2 ->
  0 < sz <= Z.of_nat (length (content sb bl)) ->
  exists p' sb', pop_loop fuel p sb sz skip acc = Ret (acc ++ take (Z.to_nat (sz - skip)) (content sb bl), sb', p') /\
    popped p sb r (drop (Z.to_nat sz) (content sb bl)) p' sb'.
Proof.
  induction fuel as [|fuel IH]; intros p sb fl l bl r sz skip acc Hs Hp Hf Hk Hsz; [lia|].
  destruct l as [|i l], bl as [|b bl]; try by destruct (h_chain _ _ _ _ Hs).
  { unfold content in Hsz. cbn in Hsz. rewrite drop_nil in Hsz. cbn in Hsz. lia. }
  destruct (holds_head _ _ _ _ _ _ Hs) as (Hh & (nx & Hi & _) & Ho & Hb & Hc).
  cbn [pop_loop]. rewrite Hh, bind_Ret. unfold node_at. step_with (read_at_Some _ _ _ Hi). cbn [n_sz].
  case_bool_decide as Hge.
  - assert (Hread : (if bool_decide (sz > skip) then read_msg (mk_node (Some b) (Z.of_nat (length b)) nx) (sb_offset sb) (sz - skip)
      else Ret []) = Ret (take (Z.to_nat (sz - skip)) (content sb (b :: bl)))).
    { case_bool_decide; [|by rewrite Z2Nat.nonpos by lia]. rewrite read_msg_some by lia. by rewrite (take_first sb b bl) by (done || lia). }
    step_with Hread. destruct (pop_in_first p sb fl i l b bl r sz Hs Hp) as (p' & sb' & He & Hpop); [lia|].
    step_with He. by exists p', sb'.
  - set (n := if bool_decide (sz - skip < Z.of_nat (length b) - sb_offset sb) then sz - skip else Z.of_nat (length b) - sb_offset sb).
    assert (Hn : 0 <= n <= Z.of_nat (length b) - sb_offset sb) by (unfold n; case_bool_decide; lia).
    assert (Hread : read_msg (mk_node (Some b) (Z.of_nat (length b)) nx) (sb_offset sb) n = Ret (take (Z.to_nat n) (content sb (b :: bl)))).
    { rewrite read_msg_some by lia. by rewrite (take_first sb b bl) by (done || lia). }
    step_with Hread. destruct (first_taken p sb fl i l b bl r _ Hs Hp eq_refl) as (p1 & sb1 & He & Hsize & Hsame & Hs1 & Hp1 & Hlen1 & Hc1).
    step_with He. rewrite bool_decide_false by lia.
    set (k := Z.of_nat (length b) - sb_offset sb) in *.
    destruct (IH p1 sb1 (i :: fl) l bl r (sz - k) skip (acc ++ take (Z.to_nat n) (content sb (b :: bl))))
      as (p' & sb' & He' & Hsize' & Hsame' & l' & Hbuf); [done|done|cbn in Hf; lia|done| |].
    { rewrite Hc1, length_drop. lia. }
    exists p', sb'. split.
    + rewrite He'. do 3 f_equal. rewrite <- app_assoc. f_equal. rewrite Hc1. unfold n. case_bool_decide.
      * rewrite (Z2Nat.nonpos (sz - k - skip)) by lia. by rewrite take_0, app_nil_r.
      * rewrite <- (take_drop (Z.to_nat k) (content sb (b :: bl))) at 3. rewrite take_app_ge by (rewrite length_take; lia).
        f_equal. f_equal. rewrite length_take. lia.
    + split; [congruence|]. split; [intros j Hj; by rewrite Hsame', Hsame|]. exists l'.
      replace (drop (Z.to_nat sz) (content sb (b :: bl))) with (drop (Z.to_nat (sz - k)) (content sb1 bl)); [done|].
      rewrite Hc1, drop_drop. f_equal. lia.
Qed.

Lemma pop_lstring_spec p sb l r bs sz skip : buffered p sb l r bs -> 0 <= skip <= 2 -> skip <= sz ->
  bs <> [] -> 0 <= sz <= Z.of_nat (length bs) ->
  exists p' sb', pop_lstring p sb sz skip = Ret (take (Z.to_nat (sz - skip)) bs, sb', p') /\
    popped p sb r (drop (Z.to_nat sz) bs) p' sb'.
Proof.
  intros (fl & bl & Hs & Hp & ->) Hk Hks Hne Hsz.
  destruct l as [|i l], bl as [|b bl]; try by destruct (h_chain _ _ _ _ Hs).
  { unfold content in Hne. cbn in Hne. by rewrite drop_nil in Hne. }
  destruct (holds_head _ _ _ _ _ _ Hs) as (Hh & (nx & Hi & _) & Ho & Hb & Hc).
  unfold pop_lstring, head_of, node_at. rewrite Hh, bind_Ret. step_with (read_at_Some _ _ _ Hi). cbn [n_sz].
  assert (Hread : sz <= Z.of_nat (length b) - sb_offset sb -> read_msg (mk_node (Some b) (Z.of_nat (length b)) nx) (sb_offset sb) (sz - skip) =
    Ret (take (Z.to_nat (sz - skip)) (content sb (b :: bl)))).
  { intros Hle. rewrite read_msg_some by lia. by rewrite (take_first sb b bl) by (done || lia). }
  case_bool_decide as Hlt; [|case_bool_decide as Heq].
  - destruct (pop_in_first p sb fl i l b bl r sz Hs Hp) as (p' & sb' & He & Hpop); [lia|].
    rewrite bool_decide_false in He by lia. injection He as <- <-. step_with Hread by lia. by exists p, (advance sb sz).
  - destruct (pop_in_first p sb fl i l b bl r sz Hs Hp) as (p' & sb' & He & Hpop); [lia|].
    rewrite bool_decide_true, return_advanced in He by lia. step_with Hread by lia. step_with He. by exists p', sb'.
  - apply (pop_loop_spec _ _ _ fl (i :: l) (b :: bl) r sz skip []); try done; [|lia]. apply length_l_nodes in Hp. lia.
Qed.

(** ** Pushing *)

Lemma chunk_size_pos tsz : 0 <= tsz -> 8 <= chunk_size tsz.
Proof.
  intros Ht. unfold chunk_size, LARGE_PAGE_NODE. case_bool_decide; [|by vm_compute].
  rewrite Z.shiftl_mul_pow2 by done. assert (2 ^ 0 <= 2 ^ tsz) by (apply Z.pow_le_mono_r; lia). lia.
Qed.

(** A node from the pool belongs to nobody. *)
Lemma get_node_spec p fl l r : pool_ok p fl l r -> exists i p' nd fl', get_node p = (i, p') /\
  p_nodes p' !! i = Some nd /\ linked n_next (p_nodes p') (n_next nd) fl' /\ NoDup (i :: fl' ++ l ++ r) /\
  same_nodes (l ++ r) p p' /\ (length (p_nodes p) <= length (p_nodes p'))%nat /\ 0 <= p_len p'.
Proof.
  intros (Hfl & Hn & Hlt & Hlen). unfold get_node. destruct (p_free p) as [i|] eqn:E.
  - inversion Hfl as [|? nd fl' Hi Hr]; subst. by exists i, p, nd, fl'.
  - inversion Hfl; subst. set (tsz := if bool_decide (p_len p = 0) then 1 else p_len p).
    assert (Ht : 0 <= tsz) by (unfold tsz; case_bool_decide; lia). pose proof (chunk_size_pos tsz Ht) as Hc.
    remember (Z.to_nat (chunk_size tsz)) as sz eqn:Esz. assert (Hsz : (8 <= sz)%nat) by lia. clear Esz. set (base := length (p_nodes p)) in *.
    set (ns := p_nodes p ++ lnewpool base sz).
    assert (Hk : linked n_next ns (Some (base + 0)%nat) (seq (base + 0) sz)).
    { apply linked_fresh; done || lia. }
    rewrite Nat.add_0_r in Hk. destruct sz as [|sz]; [lia|]. cbn [seq] in Hk. inversion Hk as [|? nd ? Hi Hr]; subst.
    exists base, (mk_pool ns None (tsz + 1)), nd, (seq (S base) sz). split; [done|]. split; [done|]. split; [done|].
    split; [|split; [|split; [cbn; unfold ns; rewrite length_app; lia|cbn; lia]]].
    + change (base :: seq (S base) sz ++ l ++ r) with (seq base (S sz) ++ l ++ r). apply NoDup_app. split; [apply NoDup_seq|].
      split; [|done]. intros j Hj%elem_of_seq Hj'%Hlt. lia.
    + intros j Hj%Hlt. cbn. unfold ns. by rewrite lookup_app_l.
Qed.

(** The new node behind the last one. *)
Lemma chain_snoc ns ns' l : forall p bl t bt m b, chain ns p (l ++ [t]) (bl ++ [bt]) -> length l = length bl -> t ∉ l ->
  (forall i, i ∈ l -> ns' !! i = ns !! i) ->
  ns' !! t = Some (mk_node (Some bt) (Z.of_nat (length bt)) (Some m)) ->
  ns' !! m = Some (mk_node (Some b) (Z.of_nat (length b)) None) -> chain ns' p (l ++ [t; m]) (bl ++ [bt; b]).
Proof.
  induction l as [|i l IH]; intros p [|b0 bl] t bt m b Hc Hl Ht He H1 H2; try done; cbn [app chain] in *.
  - destruct Hc as [-> _]. split; [done|]. exists (Some m). split; [done|]. split; [done|]. by exists None.
  - destruct Hc as [-> (nx & Hi & Hc)]. split; [done|]. exists nx. split; [by rewrite He by set_solver|].
    apply (IH _ _ t bt); try done; [by injection Hl|set_solver|]. intros j Hj. apply He. set_solver.
Qed.

Lemma holds_last ns sb l bl : holds ns sb l bl -> l <> [] -> exists l0 t bl0 bt, l = l0 ++ [t] /\ bl = bl0 ++ [bt] /\
  length l0 = length bl0 /\ sb_tail sb = Some t /\ exists nx, ns !! t = Some (mk_node (Some bt) (Z.of_nat (length bt)) nx).
Proof.
  intros Hs Hne. destruct (exists_last Hne) as (l0 & t & ->). pose proof (chain_length _ _ _ _ (h_chain _ _ _ _ Hs)) as Hl.
  destruct (@exists_last _ bl) as (bl0 & bt & ->); [by intros ->; destruct l0|]. rewrite !length_app in Hl. cbn in Hl.
  exists l0, t, bl0, bt. split; [done|]. split; [done|]. split; [lia|]. split; [by rewrite (h_tail _ _ _ _ Hs), last_snoc|].
  pose proof (h_chain _ _ _ _ Hs) as Hc. generalize dependent (sb_head sb). clear Hs Hne.
  assert (Hl' : length l0 = length bl0) by lia. clear Hl. revert bl0 Hl'.
  induction l0 as [|i l0 IH]; intros [|b bl0] Hl' q Hc; try done; cbn [app chain] in Hc; destruct Hc as [_ (nx & Hi & Hc)]; [by exists nx|].
  by eapply (IH bl0); [injection Hl' as Hl'|].
Qed.

(** A node of its own gets the message, before it is linked. *)
Lemma push_node p i nd fl l r msg : p_nodes p !! i = Some nd -> linked n_next (p_nodes p) (n_next nd) fl ->
  NoDup (i :: fl ++ l ++ r) -> (forall j, j ∈ l ++ r -> (j < length (p_nodes p))%nat) -> 0 <= p_len p ->
  exists p', set_node (mk_pool (p_nodes p) (n_next nd) (p_len p)) i (mk_node (Some msg) (Z.of_nat (length msg)) None) = Ret p' /\
    p_nodes p' !! i = Some (mk_node (Some msg) (Z.of_nat (length msg)) None) /\ pool_ok p' fl l (i :: r) /\
    same_nodes (l ++ r) p p'.
Proof.
  intros Hi Hfl Hn Hlt Hlen. pose proof (lookup_lt_Some _ _ _ Hi) as Hil. unfold set_node. cbn [p_nodes].
  rewrite write_at_lt by done. cbn [mbind outcome_bind]. eexists. split; [done|]. cbn [p_nodes p_free p_len].
  split; [by apply list_lookup_insert_eq|]. apply NoDup_cons in Hn as [Hni Hn]. split.
  - split; [apply linked_insert_ne; [set_solver|done]|]. split; [|split; [|done]].
    + rewrite app_assoc. apply NoDup_middle. rewrite <- app_assoc. by constructor.
    + intros j Hj. cbn [p_nodes]. rewrite length_insert. apply elem_of_app in Hj as [Hj|[->|Hj]%elem_of_cons]; [apply Hlt; set_solver|done|apply Hlt; set_solver].
  - intros j Hj. apply list_lookup_insert_ne. set_solver.
Qed.

(** The message is linked behind the others. *)
Lemma link_tail p i msg fl sb l bl r : holds (p_nodes p) sb l bl -> l <> [] -> pool_ok p fl l (i :: r) ->
  p_nodes p !! i = Some (mk_node (Some msg) (Z.of_nat (length msg)) None) -> message_ok msg ->
  exists t tl p', sb_tail sb = Some t /\ node_at p t = Ret tl /\ set_node p t (mk_node (n_msg tl) (n_sz tl) (Some i)) = Ret p' /\
    holds (p_nodes p') (mk_sb (sb_size sb) (sb_offset sb) (sb_head sb) (Some i)) (l ++ [i]) (bl ++ [msg]) /\
    pool_ok p' fl (l ++ [i]) r /\ same_nodes r p p'.
Proof.
  intros Hs Hne (P1 & P2 & P3 & P4) Hi Hm. destruct (holds_last _ _ _ _ Hs Hne) as (l0 & t & bl0 & bt & -> & -> & Hl & Ht & nx & Hnt).
  pose proof (lookup_lt_Some _ _ _ Hnt) as Htl.
  assert (Hap : (t ∉ fl) /\ (t ∉ l0) /\ t <> i /\ (t ∉ r) /\ (i ∉ l0) /\ (i ∉ fl)).
  { rewrite !NoDup_app, NoDup_cons in P2. split_and!; set_solver. }
  destruct Hap as (H1 & H2 & H3 & H4 & H5 & H6).
  eexists t, _, _. split; [done|]. split; [unfold node_at; by rewrite (read_at_Some _ _ _ Hnt)|].
  split; [unfold set_node; rewrite write_at_lt by done; reflexivity|]. cbn [p_nodes n_msg n_sz]. rewrite <- !app_assoc. split; [|split].
  - destruct Hs as [S1 S2 S3 S4]. split; cbn [sb_head sb_tail sb_offset].
    + apply (chain_snoc (p_nodes p)); try done.
      * intros j Hj. apply list_lookup_insert_ne. set_solver.
      * by apply list_lookup_insert_eq.
      * by rewrite list_lookup_insert_ne.
    + change [t; i] with ([t] ++ [i]). by rewrite app_assoc, last_snoc.
    + change [bt; msg] with ([bt] ++ [msg]). rewrite app_assoc. apply Forall_app. split; [done|]. by constructor.
    + destruct bl0; exact S4.
  - split; [cbn; by apply linked_insert_ne|]. split; [|split; [|done]].
    + rewrite <- app_assoc. cbn [app]. by rewrite <- app_assoc in P2.
    + intros j Hj. cbn [p_nodes]. rewrite length_insert. apply P3. set_solver.
  - intros j Hj. apply list_lookup_insert_ne. set_solver.
Qed.

Lemma content_app sb bl msg : (if bl is b :: _ then sb_offset sb < Z.of_nat (length b) else sb_offset sb = 0) -> 0 <= sb_offset sb ->
  content sb (bl ++ [msg]) = content sb bl ++ msg.
Proof.
  intros Ho Hp. unfold content. rewrite concat_app. cbn [concat]. rewrite app_nil_r, drop_app_le; [done|].
  destruct bl as [|b bl]; cbn [concat]; [cbn; lia|]. rewrite length_app. lia.
Qed.

Lemma lpushbuffer_spec p sb l r bs msg : buffered p sb l r bs -> sb_size sb = Z.of_nat (length bs) -> message_ok msg ->
  Z.of_nat (length bs) + Z.of_nat (length msg) < 2 ^ 31 ->
  exists p' sb' l', lpushbuffer (Some sb) p (Some msg) (Z.of_nat (length msg)) = Ret (Z.of_nat (length (bs ++ msg)), sb', p') /\
    buffered p' sb' l' r (bs ++ msg) /\ sb_size sb' = Z.of_nat (length (bs ++ msg)) /\ same_nodes r p p'.
Proof.
  intros (fl & bl & Hs & Hp & ->) Hsize Hm Hlt.
  destruct (get_node_spec _ _ _ _ Hp) as (i & p1 & nd & fl' & Hg & Hi & Hfl & Hn & Hsame & Hlen & Hpl).
  assert (Hs1 : holds (p_nodes p1) sb l bl) by (eapply holds_ext; [|exact Hs]; intros j Hj; apply Hsame; set_solver).
  destruct (push_node p1 i nd fl' l r msg Hi Hfl Hn) as (p2 & Hset & Hi2 & Hp2 & Hsame2).
  { intros j Hj. destruct Hp as (_ & _ & Hb & _). apply Hb in Hj. lia. }
  { done. }
  assert (Hs2 : holds (p_nodes p2) sb l bl) by (eapply holds_ext; [|exact Hs1]; intros j Hj; apply Hsame2; set_solver).
  assert (Hc : content sb (bl ++ [msg]) = content sb bl ++ msg) by (apply content_app; apply (h_offset _ _ _ _ Hs)).
  assert (Hsz : i32 (sb_size sb + Z.of_nat (length msg)) = Z.of_nat (length (content sb bl ++ msg))).
  { rewrite i32_small; [rewrite length_app; lia|]. unfold is_i32. lia. }
  assert (Hat : node_at p1 i = Ret nd) by exact (read_at_Some _ _ _ Hi).
  unfold lpushbuffer. rewrite Hg. step_with Hat. step_with Hset. clear Hat.
  pose proof (linked_head _ _ _ _ (chain_linked _ _ _ _ (h_chain _ _ _ _ Hs))) as Hh.
  destruct (decide (l = [])) as [->|Hne].
  - destruct bl as [|b bl]; [|by destruct (h_chain _ _ _ _ Hs)]. rewrite Hh. cbn [head]. rewrite (h_tail _ _ _ _ Hs), bool_decide_true by done.
    cbn [mbind outcome_bind sb_size]. rewrite Hsz. eexists p2, _, [i]. split; [done|]. split; [|split; [done|]].
    + exists fl', [msg]. split; [split; cbn|split; [exact Hp2|by rewrite <- Hc]].
      * split; [done|]. by exists None.
      * done.
      * by constructor.
      * destruct Hs as [_ _ _ [_ ->]]. destruct Hm as [Hm _]. destruct msg; cbn; [done|lia].
    + intros j Hj. rewrite Hsame2, Hsame; [done|set_solver..].
  - destruct (link_tail p2 i msg fl' sb l bl r Hs2 Hne Hp2 Hi2 Hm) as (t & tl & p3 & Ht & Hat & Hset3 & Hs3 & Hp3 & Hsame3).
    rewrite Ht. destruct (sb_head sb) as [h|] eqn:El; [|by destruct l]. step_with Hat. step_with Hset3.
    cbn [mbind outcome_bind sb_size]. rewrite Hsz. eexists p3, _, (l ++ [i]). split; [done|]. split; [|split; [done|]].
    + exists fl', (bl ++ [msg]). split; [|split; [done|by rewrite <- Hc]]. by destruct Hs3; split.
    + intros j Hj. rewrite Hsame3, Hsame2, Hsame; [done|set_solver..].
Qed.

(** ** Emptying *)

Lemma holds_nil ns sb : holds ns sb [] [] -> sb_head sb = None /\ content sb [] = [].
Proof. intros [H _ _ _]. split; [done|]. unfold content. cbn. by rewrite drop_nil. Qed.

Lemma drain_all_spec fuel : forall p sb fl l bl r acc, holds (p_nodes p) sb l bl -> pool_ok p fl l r -> (length l <= fuel)%nat ->
  exists p' sb', drain fuel p sb acc = Ret (acc ++ content sb bl, sb', p') /\ popped p sb r [] p' sb'.
Proof.
  induction fuel as [|fuel IH]; intros p sb fl l bl r acc Hs Hp Hf; destruct l as [|i l], bl as [|b bl];
    try by destruct (h_chain _ _ _ _ Hs).
  1, 3: destruct (holds_nil _ _ Hs) as [Hh Hc]; exists p, sb; cbn [drain]; rewrite Hh, Hc, app_nil_r; split; [done|];
    split; [done|]; split; [done|]; exists [], fl, []; by rewrite Hc.
  { cbn in Hf. lia. }
  destruct (holds_head _ _ _ _ _ _ Hs) as (Hh & (nx & Hi & _) & Ho & Hb & Hc).
  cbn [drain]. rewrite Hh. unfold node_at. step_with (read_at_Some _ _ _ Hi). cbn [n_sz].
  step_with read_msg_some by lia.
  destruct (first_taken p sb fl i l b bl r _ Hs Hp eq_refl) as (p1 & sb1 & He & Hsize & Hsame & Hs1 & Hp1 & _ & Hc1).
  step_with He. edestruct (IH p1 sb1) as (p' & sb' & He' & Hsize' & Hsame' & Hl'); [done..|cbn in Hf; lia|].
  exists p', sb'. split.
  - rewrite He'. do 3 f_equal. rewrite <- app_assoc. f_equal. rewrite Hc1, Hc, take_ge, drop_app_length' by (rewrite length_drop; lia). done.
  - split; [congruence|]. split; [|done]. intros j Hj. by rewrite Hsame', Hsame.
Qed.

Lemma clear_buffer_spec fuel : forall p sb fl l bl r, holds (p_nodes p) sb l bl -> pool_ok p fl l r -> (length l <= fuel)%nat ->
  exists p' sb', clear_loop fuel p sb = Ret (sb', p') /\ popped p sb r [] p' sb'.
Proof.
  induction fuel as [|fuel IH]; intros p sb fl l bl r Hs Hp Hf; destruct l as [|i l], bl as [|b bl];
    try by destruct (h_chain _ _ _ _ Hs).
  1, 3: destruct (holds_nil _ _ Hs) as [Hh Hc]; exists p, sb; cbn [clear_loop]; rewrite Hh; split; [done|];
    split; [done|]; split; [done|]; exists [], fl, []; by rewrite Hc.
  { cbn in Hf. lia. }
  destruct (holds_head _ _ _ _ _ _ Hs) as (Hh & _). cbn [clear_loop]. rewrite Hh.
  destruct (first_taken p sb fl i l b bl r _ Hs Hp eq_refl) as (p1 & sb1 & He & Hsize & Hsame & Hs1 & Hp1 & _).
  step_with He. edestruct (IH p1 sb1) as (p' & sb' & He' & Hsize' & Hsame' & Hl'); [done..|cbn in Hf; lia|].
  exists p', sb'. split; [done|]. split; [congruence|]. split; [|done]. intros j Hj. by rewrite Hsame', Hsame.
Qed.

(** ** Lines *)

Lemma bool_decide_app (a1 a2 b1 b2 : list Z) : length a1 = length b1 ->
  bool_decide (a1 ++ a2 = b1 ++ b2) = bool_decide (a1 = b1) && bool_decide (a2 = b2).
Proof.
  intros Hl. rewrite <- bool_decide_and. apply bool_decide_ext. split; [by apply app_inj_1|by intros [-> ->]].
Qed.

(** The comparison goes on in the next nodes. *)
Lemma check_sep_spec sep fuel : forall p l i b bl from pos, chain (p_nodes p) (Some i) (i :: l) (b :: bl) -> (length l < fuel)%nat ->
  0 <= from <= Z.of_nat (length b) -> (pos <= length sep)%nat ->
  (length sep - pos <= length (drop (Z.to_nat from) b ++ concat bl))%nat ->
  check_sep fuel p (Some i) from sep (Z.of_nat pos) (Z.of_nat (length sep) - Z.of_nat pos) =
    Ret (bool_decide (take (length sep - pos) (drop (Z.to_nat from) b ++ concat bl) = drop pos sep)).
Proof.
  induction fuel as [|fuel IH]; intros p l i b bl from pos Hc Hf Hfrom Hpos Hlen; [lia|].
  destruct Hc as [_ (nx & Hi & Hc)]. cbn [check_sep]. rewrite bind_Ret. unfold node_at. step_with (read_at_Some _ _ _ Hi). cbn [n_sz].
  set (sz := Z.of_nat (length b) - from). assert (Hd : Z.of_nat (length (drop (Z.to_nat from) b)) = sz) by (rewrite length_drop; lia).
  case_bool_decide as Hge.
  - step_with read_msg_some by lia. unfold read_bytes at 1. rewrite decide_True by lia. rewrite bind_Ret. do 2 f_equal.
    rewrite take_app_le by lia. rewrite Nat2Z.id.
    replace (Z.to_nat (Z.of_nat (length sep) - Z.of_nat pos)) with (length sep - pos)%nat by lia.
    by rewrite (take_ge (drop pos sep)) by (rewrite length_drop; lia).
  - assert (Hpart : (if bool_decide (sz > 0)
      then a ← read_msg (mk_node (Some b) (Z.of_nat (length b)) nx) from sz; b ← read_bytes sep (Z.of_nat pos) sz; Ret (bool_decide (a = b))
      else Ret true) = Ret (bool_decide (drop (Z.to_nat from) b = take (Z.to_nat sz) (drop pos sep)))).
    { case_bool_decide as Hz.
      - step_with read_msg_some by lia. unfold read_bytes. rewrite decide_True by lia. rewrite bind_Ret, Nat2Z.id. by rewrite take_ge by lia.
      - replace (Z.to_nat sz) with 0%nat by lia. destruct (drop (Z.to_nat from) b); [by rewrite bool_decide_true|cbn in Hd; lia]. }
    step_with Hpart. destruct l as [|j l], bl as [|b' bl]; try by destruct Hc.
    { cbn [concat] in Hlen. rewrite app_nil_r in Hlen. lia. }
    assert (Hnx : nx = Some j) by by destruct Hc. subst nx. cbn [n_next].
    replace (Z.of_nat pos + sz) with (Z.of_nat (pos + Z.to_nat sz)) by lia.
    replace (Z.of_nat (length sep) - Z.of_nat pos - sz) with (Z.of_nat (length sep) - Z.of_nat (pos + Z.to_nat sz)) by lia.
    rewrite length_app in Hlen.
    rewrite (IH p l j b' bl 0 (pos + Z.to_nat sz)%nat Hc); [|cbn in Hf; lia|lia|lia|].
    2: { cbn [concat] in Hlen. change (drop (Z.to_nat 0) b') with b'. lia. }
    change (drop (Z.to_nat 0) b') with b'.
    rewrite (take_app_ge (drop (Z.to_nat from) b)) by lia.
    replace (length sep - pos - length (drop (Z.to_nat from) b))%nat with (length sep - (pos + Z.to_nat sz))%nat by lia.
    change (concat (b' :: bl)) with (b' ++ concat bl). set (T := take _ (b' ++ concat bl)).
    assert (Hsplit : bool_decide (drop (Z.to_nat from) b ++ T = drop pos sep) =
      bool_decide (drop (Z.to_nat from) b = take (Z.to_nat sz) (drop pos sep)) && bool_decide (T = drop (pos + Z.to_nat sz) sep)).
    { rewrite <- bool_decide_app by (apply Nat2Z.inj; rewrite Hd, length_take, length_drop; lia). apply bool_decide_ext.
      by rewrite <- drop_drop, take_drop. }
    rewrite Hsplit. by destruct (bool_decide (drop (Z.to_nat from) b = _)).
Qed.

(** The first place of [sep] among the first [n]. *)
Fixpoint find_sep (n : nat) (sep bs : list Z) : option nat :=
  match n with
  | O => None
  | S n => if bool_decide (take (length sep) bs = sep) then Some O else S <$> find_sep n sep (tail bs)
  end.

Lemma find_sep_first n sep : forall bs i, find_sep n sep bs = Some i ->
  (i < n)%nat /\ take (length sep) (drop i bs) = sep /\ forall j, (j < i)%nat -> take (length sep) (drop j bs) <> sep.
Proof.
  induction n as [|n IH]; intros bs i; [done|]. cbn [find_sep]. case_bool_decide as Hb.
  - intros [= <-]. split; [lia|]. split; [by rewrite drop_0|lia].
  - intros (k & Hk & ->)%fmap_Some. specialize (IH _ _ Hk) as (H1 & H2 & H3). split; [lia|].
    assert (Htl : forall j, drop j (tail bs) = drop (S j) bs) by (intros j; destruct bs as [|x bs]; [cbn [tail]; by rewrite !drop_nil|done]).
    rewrite Htl in H2. split; [done|]. intros [|j] Hj; [by rewrite drop_0|]. rewrite <- Htl. apply H3. lia.
Qed.

Lemma readline_loop_spec sep n : forall p l i b bl from k, chain (p_nodes p) (Some i) (i :: l) (b :: bl) ->
  (length l < S (length (p_nodes p)))%nat -> Forall message_ok bl ->
  0 <= from < Z.of_nat (length b) -> n = (length (drop (Z.to_nat from) b ++ concat bl) + 1 - length sep)%nat ->
  readline_loop n p i from (Z.of_nat (length b) - from) sep k =
    Ret ((fun j => k + Z.of_nat j) <$> find_sep n sep (drop (Z.to_nat from) b ++ concat bl)).
Proof.
  induction n as [|n IH]; intros p l i b bl from k Hc Hf Hok Hfrom Hn; [done|]. cbn [readline_loop find_sep].
  pose proof (check_sep_spec sep _ p l i b bl from 0 Hc Hf) as Hcheck. rewrite Z.sub_0_r, Nat.sub_0_r in Hcheck.
  change (Z.of_nat 0) with 0 in Hcheck. change (drop 0 sep) with sep in Hcheck. step_with Hcheck by lia. clear Hcheck.
  case_bool_decide as Hfound; [cbn; by rewrite Z.add_0_r|].
  assert (Hsep : (length sep <> 0)%nat) by (intros E; apply Hfound; apply nil_length_inv in E; by subst sep).
  destruct Hc as [_ (nx & Hi & Hc)]. rewrite length_app, length_drop in Hn.
  destruct (drop (Z.to_nat from) b) as [|x d] eqn:Ed; [apply (f_equal length) in Ed; rewrite length_drop in Ed; cbn in Ed; lia|].
  assert (Hd : drop (Z.to_nat (from + 1)) b = d).
  { replace (Z.to_nat (from + 1)) with (Z.to_nat from + 1)%nat by lia. by rewrite <- drop_drop, Ed. }
  assert (Hld : Z.of_nat (length d) = Z.of_nat (length b) - from - 1) by (rewrite <- Hd, length_drop; lia).
  assert (Hnd : n = (length (d ++ concat bl) + 1 - length sep)%nat) by (rewrite length_app; lia).
  assert (Hshift : forall o : option nat, (fun j => k + Z.of_nat j) <$> (S <$> o) = (fun j => (k + 1) + Z.of_nat j) <$> o).
  { intros [o|]; [|done]. cbn. f_equal. lia. }
  cbn [app tail]. rewrite Hshift. case_bool_decide as Hend.
  - unfold node_at. step_with (read_at_Some _ _ _ Hi). cbn [n_next]. destruct d; [|cbn in Hld; lia]. cbn [app] in Hnd |- *.
    destruct l as [|j l], bl as [|b' bl]; try by destruct Hc.
    + cbn in Hc, Hnd. subst nx. by replace n with 0%nat by lia.
    + assert (Hnx : nx = Some j) by by destruct Hc. subst nx. pose proof Hc as [_ (nx' & Hj & _)].
      step_with (read_at_Some _ _ _ Hj). cbn [n_sz]. apply Forall_cons in Hok as [[Hb' _] Hok].
      assert (0 < Z.of_nat (length b')) by (destruct b'; [done|cbn; lia]).
      specialize (IH p l j b' bl 0 (k + 1) Hc). rewrite Z.sub_0_r in IH. apply IH; first [done | lia | cbn in Hf; lia].
  - rewrite <- Hd. replace (Z.of_nat (length b) - from - 1) with (Z.of_nat (length b) - (from + 1)) by lia.
    apply (IH p l); try done; [by split; [|exists nx]|lia|by rewrite Hd].
Qed.

(** The answer of [lreadline], for separators that are at most two bytes. *)
Lemma lreadline_spec p sb l r bs (check : bool) sep : buffered p sb l r bs -> sb_size sb = Z.of_nat (length bs) ->
  Z.of_nat (length bs) < 2 ^ 31 -> (length sep <= 2)%nat ->
  match (if decide (bs = []) then None else find_sep (length bs + 1 - length sep) sep bs : option nat) with
  | None => lreadline (Some sb) p check sep = Ret (NoLine, sb, p)
  | Some i =>
    if check then lreadline (Some sb) p check sep = Ret (HasLine, sb, p)
    else exists p' sb', lreadline (Some sb) p check sep = Ret (Line (take i bs), sb', p') /\
      sb_size sb' = Z.of_nat (length bs) - Z.of_nat (i + length sep) /\ same_nodes r p p' /\
      exists l', buffered p' sb' l' r (drop (i + length sep) bs)
  end.
Proof.
  intros Hbuf Hsize Hlt Hsep. pose proof Hbuf as (fl & bl & Hs & Hp & Hbs).
  destruct l as [|i l], bl as [|b bl]; try by destruct (h_chain _ _ _ _ Hs).
  { destruct (holds_nil _ _ Hs) as [Hh Hc]. rewrite Hc in Hbs. subst bs. unfold lreadline. rewrite Hh. by rewrite decide_True. }
  destruct (holds_head _ _ _ _ _ _ Hs) as (Hh & (nx & Hi & Hc') & Ho & Hb & Hc).
  assert (Hne : bs <> []).
  { rewrite Hbs, Hc. intros E. apply (f_equal length) in E. rewrite length_app, length_drop in E. cbn in E. lia. }
  rewrite decide_False by done. unfold lreadline. rewrite Hh. unfold node_at. step_with (read_at_Some _ _ _ Hi). cbn [n_sz].
  assert (Hloop : readline_loop (Z.to_nat (sb_size sb - Z.of_nat (length sep) + 1)) p i (sb_offset sb) (Z.of_nat (length b) - sb_offset sb) sep 0 =
    Ret ((fun j => 0 + Z.of_nat j) <$> find_sep (length bs + 1 - length sep) sep bs)).
  { replace (Z.to_nat (sb_size sb - Z.of_nat (length sep) + 1)) with (length bs + 1 - length sep)%nat by lia.
    rewrite Hbs, Hc. apply (readline_loop_spec sep _ p l i b bl); try done.
    - rewrite <- Hh. apply (h_chain _ _ _ _ Hs).
    - apply length_l_nodes in Hp. cbn in Hp. lia.
    - pose proof (h_messages _ _ _ _ Hs) as Hm. by apply Forall_cons in Hm as [_ Hm]. }
  step_with Hloop. destruct (find_sep _ sep bs) as [j|] eqn:Ef; cbn [fmap option_fmap option_map]; [|done].
  destruct check; [done|]. apply find_sep_first in Ef as (Hj & _).
  destruct (pop_lstring_spec p sb (i :: l) r bs (0 + Z.of_nat j + Z.of_nat (length sep)) (Z.of_nat (length sep)) Hbuf)
    as (p' & sb' & He & Hsize' & Hsame & l' & Hbuf'); [lia|lia|done|lia|]. step_with He.
  eexists p', _. split.
  { replace (Z.to_nat (0 + Z.of_nat j + Z.of_nat (length sep) - Z.of_nat (length sep))) with j by lia. reflexivity. }
  split.
  - cbn [set_size sb_size]. rewrite Hsize', Hsize, i32_small; [lia|unfold is_i32; lia].
  - split; [done|]. exists l'. replace (j + length sep)%nat with (Z.to_nat (0 + Z.of_nat j + Z.of_nat (length sep))) by lia.
    destruct Hbuf' as (fl' & bl' & [B1 B2 B3 B4] & Hp' & Hd). by exists fl', bl'.
Qed.

(** ** Several buffers over one pool *)

Inductive buf_op :=
| OpPush (k : nat) (msg : list Z)
| OpPop (k : nat) (sz : Z)
| OpLine (k : nat) (check : bool) (sep : list Z)
| OpAll (k : nat)
| OpClear (k : nat).

Inductive buf_res :=
| RSize (n : Z)
| RPop (s : option (list Z)) (n : Z)
| RLine (r : line)
| RAll (s : list Z)
| RUnit.

Definition op_buffer (op : buf_op) : nat :=
  match op with OpPush k _ | OpPop k _ | OpLine k _ _ | OpAll k | OpClear k => k end.

Definition call (op : buf_op) (sb : socket_buffer) (p : pool) : outcome (buf_res * socket_buffer * pool) :=
  match op with
  | OpPush _ msg => '(n, sb, p) ← lpushbuffer (Some sb) p (Some msg) (Z.of_nat (length msg)); Ret (RSize n, sb, p)
  | OpPop _ sz => '(s, n, sb, p) ← lpopbuffer (Some sb) p sz; Ret (RPop s n, sb, p)
  | OpLine _ check sep => '(r, sb, p) ← lreadline (Some sb) p check sep; Ret (RLine r, sb, p)
  | OpAll _ => '(s, sb, p) ← lreadall (Some sb) p; Ret (RAll s, sb, p)
  | OpClear _ => '(sb, p) ← lclearbuffer (Some sb) p; Ret (RUnit, sb, p)
  end.

Fixpoint run (ops : list buf_op) (sbs : list socket_buffer) (p : pool)
  : outcome (list buf_res * list socket_buffer * pool) :=
  match ops with
  | [] => Ret ([], sbs, p)
  | op :: ops =>
    sb ← read_at sbs (Z.of_nat (op_buffer op));
    '(r, sb, p) ← call op sb p;
    '(rs, sbs, p) ← run ops (<[op_buffer op := sb]> sbs) p;
    Ret (r :: rs, sbs, p)
  end.

(** The specification: each buffer is a byte queue.  [None] is a call outside of the
    contract: an empty block or too many bytes, a negative size, a long separator. *)
Definition spec_call (op : buf_op) (bs : list Z) : option (buf_res * list Z) :=
  match op with
  | OpPush _ msg =>
    if bool_decide (msg <> [] /\ Z.of_nat (length bs) + Z.of_nat (length msg) < 2 ^ 31)
    then Some (RSize (Z.of_nat (length (bs ++ msg))), bs ++ msg) else None
  | OpPop _ sz =>
    if bool_decide (sz < 0) then None
    else if bool_decide (Z.of_nat (length bs) < sz \/ sz = 0) then Some (RPop None (Z.of_nat (length bs)), bs)
    else Some (RPop (Some (take (Z.to_nat sz) bs)) (Z.of_nat (length bs) - sz), drop (Z.to_nat sz) bs)
  | OpLine _ check sep =>
    if bool_decide (2 < length sep)%nat then None
    else match (if decide (bs = []) then None else find_sep (length bs + 1 - length sep) sep bs : option nat) with
         | None => Some (RLine NoLine, bs)
         | Some i => if check then Some (RLine HasLine, bs) else Some (RLine (Line (take i bs)), drop (i + length sep) bs)
         end
  | OpAll _ => Some (RAll bs, [])
  | OpClear _ => Some (RUnit, [])
  end.

Fixpoint spec_run (ops : list buf_op) (qs : list (list Z)) : option (list buf_res * list (list Z)) :=
  match ops with
  | [] => Some ([], qs)
  | op :: ops =>
    bs ← qs !! op_buffer op;
    '(r, bs) ← spec_call op bs;
    '(rs, qs) ← spec_run ops (<[op_buffer op := bs]> qs);
    Some (r :: rs, qs)
  end.

(** The size field counts the bytes, which are not too many. *)
Definition sized_buffer (p : pool) (sb : socket_buffer) (l r : list nat) (bs : list Z) : Prop :=
  buffered p sb l r bs /\ sb_size sb = Z.of_nat (length bs) /\ Z.of_nat (length bs) < 2 ^ 31.

Lemma buffered_resize p sb l r bs n : buffered p sb l r bs -> buffered p (set_size n sb) l r bs.
Proof. intros (fl & bl & [H1 H2 H3 H4] & Hp & ->). by exists fl, bl. Qed.

Lemma call_spec op p sb l r bs res bs' : sized_buffer p sb l r bs -> spec_call op bs = Some (res, bs') ->
  exists sb' p' l', call op sb p = Ret (res, sb', p') /\ sized_buffer p' sb' l' r bs' /\ same_nodes r p p'.
Proof.
  intros (Hb & Hsize & Hlt) Hspec. destruct op as [k msg|k sz|k check sep|k|k]; cbn [spec_call call] in *.
  - case_bool_decide as Hm; [|done]. destruct Hm as [Hm1 Hm2]. injection Hspec as <- <-.
    destruct (lpushbuffer_spec p sb l r bs msg Hb Hsize) as (p' & sb' & l' & He & Hb' & Hsize' & Hsame); [split; [done|lia]|done|].
    exists sb', p', l'. step_with He. split; [done|]. split; [|done]. split; [done|]. split; [done|]. rewrite length_app. lia.
  - case_bool_decide as Hneg; [done|]. unfold lpopbuffer. rewrite Hsize. case_bool_decide as Hnil; injection Hspec as <- <-.
    + exists sb, p, l. by split.
    + destruct (pop_lstring_spec p sb l r bs sz 0 Hb) as (p' & sb' & He & Hsize' & Hsame & l' & Hb'); [lia|lia|by intros ->; cbn in *; lia|lia|].
      rewrite Z.sub_0_r in He. step_with He. cbn [mbind outcome_bind]. rewrite Hsize', Hsize, i32_small by (unfold is_i32; lia).
      eexists _, p', l'. split; [done|]. split; [|done]. split; [by apply buffered_resize|]. cbn. rewrite length_drop. lia.
  - case_bool_decide as Hsep; [done|]. pose proof (lreadline_spec p sb l r bs check sep Hb Hsize Hlt ltac:(lia)) as Hline.
    destruct (if decide (bs = []) then None else _) as [i|] eqn:Ef.
    2: { injection Hspec as <- <-. exists sb, p, l. step_with Hline. by split. }
    assert (Hi : (i < length bs + 1 - length sep)%nat) by (case_decide; [done|by apply find_sep_first in Ef as [? _]]).
    destruct check; injection Hspec as <- <-.
    + exists sb, p, l. step_with Hline. by split.
    + destruct Hline as (p' & sb' & He & Hsize' & Hsame & l' & Hb'). exists sb', p', l'. step_with He. split; [done|].
      split; [|done]. split; [done|]. rewrite length_drop. lia.
  - injection Hspec as <- <-. destruct Hb as (fl & bl & Hs & Hp & ->). unfold lreadall.
    destruct (drain_all_spec (length (p_nodes p)) p sb fl l bl r [] Hs Hp) as (p' & sb' & He & _ & Hsame & l' & Hb');
      [by eapply length_l_nodes|]. step_with He. eexists _, p', l'. split; [done|]. split; [|done].
    split; [by apply buffered_resize|]. by split.
  - injection Hspec as <- <-. destruct Hb as (fl & bl & Hs & Hp & ->). unfold lclearbuffer.
    destruct (clear_buffer_spec (length (p_nodes p)) p sb fl l bl r Hs Hp) as (p' & sb' & He & _ & Hsame & l' & Hb');
      [by eapply length_l_nodes|]. step_with He. eexists _, p', l'. split; [done|]. split; [|done].
    split; [by apply buffered_resize|]. by split.
Qed.

(** All buffers, with the nodes that each of them has. *)
Definition stores (p : pool) (sbs : list socket_buffer) (ls : list (list nat)) (qs : list (list Z)) : Prop :=
  length ls = length sbs /\ length qs = length sbs /\ (exists fl, pool_ok p fl [] (concat ls)) /\
  forall k sb l bs, sbs !! k = Some sb -> ls !! k = Some l -> qs !! k = Some bs -> sized_buffer p sb l (concat (delete k ls)) bs.

Lemma pool_ok_focus p fl ls k l : ls !! k = Some l -> pool_ok p fl [] (concat ls) <-> pool_ok p fl l (concat (delete k ls)).
Proof.
  intros Hl. pose proof (concat_delete _ _ _ Hl) as Hperm. unfold pool_ok. cbn [app]. rewrite Hperm.
  by setoid_rewrite Hperm.
Qed.

Lemma buffered_other p p' sb l r r' bs fl : buffered p sb l r bs -> same_nodes l p p' -> pool_ok p' fl l r' -> buffered p' sb l r' bs.
Proof. intros (fl0 & bl & Hs & _ & ->) Hsame Hp. exists fl, bl. split; [by eapply holds_ext|done]. Qed.

Lemma stores_update p p' sbs ls qs k l sb' l' bs' : stores p sbs ls qs -> ls !! k = Some l ->
  sized_buffer p' sb' l' (concat (delete k ls)) bs' -> same_nodes (concat (delete k ls)) p p' ->
  stores p' (<[k := sb']> sbs) (<[k := l']> ls) (<[k := bs']> qs).
Proof.
  intros (Hl1 & Hl2 & _ & Hall) Hl Hs Hsame. assert (Hk : (k < length ls)%nat) by (by eapply lookup_lt_Some).
  assert (Hk' : <[k := l']> ls !! k = Some l') by by apply list_lookup_insert_eq.
  assert (Hdel : delete k (<[k := l']> ls) = delete k ls).
  { clear - Hk. revert k Hk. induction ls as [|x ls IH]; intros [|k] Hk; cbn in *; try lia; [done|]. f_equal. apply IH. lia. }
  pose proof Hs as ((fl & bl & _ & Hp & _) & _). pose proof Hp as Hpool. rewrite <- Hdel in Hpool.
  apply (pool_ok_focus _ _ _ _ _ Hk') in Hpool.
  split; [by rewrite !length_insert|]. split; [by rewrite !length_insert|]. split; [by exists fl|].
  intros j sb lj bs Hsb Hlj Hq. destruct (decide (j = k)) as [->|Hne].
  - rewrite list_lookup_insert_eq in Hsb by lia. rewrite list_lookup_insert_eq in Hlj by lia.
    rewrite list_lookup_insert_eq in Hq by lia. injection Hsb as <-. injection Hlj as <-. injection Hq as <-. by rewrite Hdel.
  - pose proof (proj1 (pool_ok_focus _ _ _ _ _ Hlj) Hpool) as Hpj. rewrite list_lookup_insert_ne in Hsb by done.
    rewrite list_lookup_insert_ne in Hlj by done. rewrite list_lookup_insert_ne in Hq by done.
    destruct (Hall j sb lj bs Hsb Hlj Hq) as (Hb & ? & ?). split; [|done]. eapply buffered_other; [done| |done].
    intros i Hi. apply Hsame. by eapply elem_of_delete_concat.
Qed.

Lemma run_spec ops : forall p sbs ls qs rs qs', stores p sbs ls qs -> spec_run ops qs = Some (rs, qs') ->
  exists sbs' p' ls', run ops sbs p = Ret (rs, sbs', p') /\ stores p' sbs' ls' qs'.
Proof.
  induction ops as [|op ops IH]; intros p sbs ls qs rs qs' Hst Hspec; cbn [spec_run run] in *.
  { injection Hspec as <- <-. by exists sbs, p, ls. }
  destruct (qs !! op_buffer op) as [bs|] eqn:Eq; [|done]. cbn in Hspec.
  destruct (spec_call op bs) as [[r bs1]|] eqn:Ec; [|done]. cbn in Hspec.
  destruct (spec_run ops _) as [[rs1 qs1]|] eqn:Er; [|done]. injection Hspec as <- <-.
  pose proof Hst as (Hl1 & Hl2 & _ & Hall). pose proof (lookup_lt_Some _ _ _ Eq) as Hlt.
  destruct (lookup_lt_is_Some_2 sbs (op_buffer op)) as [sb Hsb]; [lia|].
  destruct (lookup_lt_is_Some_2 ls (op_buffer op)) as [l Hl]; [lia|].
  destruct (call_spec op p sb l _ bs r bs1 (Hall _ _ _ _ Hsb Hl Eq) Ec) as (sb' & p' & l' & He & Hs' & Hsame).
  destruct (IH p' (<[op_buffer op := sb']> sbs) (<[op_buffer op := l']> ls) _ rs1 qs1 (stores_update _ _ _ _ _ _ _ _ _ _ Hst Hl Hs' Hsame) Er)
    as (sbs' & p'' & ls' & He' & Hst').
  exists sbs', p'', ls'. step_with (read_at_Some _ _ _ Hsb). step_with He. by step_with He'.
Qed.

Lemma stores_init n : stores empty_pool (replicate n lnewbuffer) (replicate n []) (replicate n []).
Proof.
  assert (Hc : forall n, concat (replicate n ([] : list nat)) = []) by (intros k; by induction k).
  assert (Hp : forall r, r = [] -> pool_ok empty_pool [] [] r).
  { intros r ->. split; [constructor|]. split; [constructor|]. split; [by intros i Hi%not_elem_of_nil|done]. }
  split; [by rewrite !length_replicate|]. split; [by rewrite !length_replicate|]. split; [exists []; by apply Hp|].
  intros k sb l bs [-> _]%lookup_replicate [-> Hk]%lookup_replicate [-> _]%lookup_replicate.
  split; [|by split]. exists [], []. split; [by split|]. split; [|done]. apply Hp.
  clear Hp. revert k Hk. induction n as [|n IH]; intros [|k] Hk; cbn; try lia; [by rewrite Hc|]. apply IH. lia.
Qed.

(** C38: Any number of socket buffers over one pool behave as independent byte queues: for
    every sequence of the calls that [spec_call] admits - pushes of blocks that are not empty,
    pops of a size that is not negative, reads of a line whose separator has at most two
    bytes ([long_separator_overreads] is a longer one), reads of everything and clears, with
    less than 2^31 bytes in a buffer - and however the bytes are split into blocks, each call
    returns what the queue says, no read leaves a block, no assertion fails and no node is
    used by two buffers. *)
Theorem socket_buffers_are_queues n ops rs qs : spec_run ops (replicate n []) = Some (rs, qs) ->
  exists sbs p ls, run ops (replicate n lnewbuffer) empty_pool = Ret (rs, sbs, p) /\ stores p sbs ls qs.
Proof. intros Hspec. by apply (run_spec ops _ _ _ _ _ _ (stores_init n)). Qed.

Definition demo_ops : list buf_op :=
  [OpPush 0 [97; 98; 13]; OpPush 1 [120]; OpLine 0 false [13; 10]; OpPush 0 [10; 99]; OpLine 0 true [13; 10];
   OpLine 0 false [13; 10]; OpPush 0 [100; 101]; OpPop 0 2; OpPop 0 5; OpAll 0; OpClear 1].

Lemma socket_buffers_are_queues_witness : exists sbs p ls,
  run demo_ops (replicate 2 lnewbuffer) empty_pool =
    Ret ([RSize 3; RSize 1; RLine NoLine; RSize 5; RLine HasLine; RLine (Line [97; 98]); RSize 3;
          RPop (Some [99; 100]) 1; RPop None 1; RAll [101]; RUnit], sbs, p) /\
  stores p sbs ls [[]; []].
Proof. apply socket_buffers_are_queues. by vm_compute. Defined.

(** A separator of four bytes in three blocks: the middle block is all separator, the
    bytes to copy from it are a negative number, and [lreadline] reads out of bounds. *)
Example long_separator_overreads :
  run [OpPush 0 [97; 13]; OpPush 0 [10]; OpPush 0 [13; 10]; OpLine 0 false [13; 10; 13; 10]] [lnewbuffer] empty_pool =
    Crash OutOfBounds.
Proof. by vm_compute. Qed.

(** The first chunk of a pool has 16 nodes, not 8, and the second 32. *)
Example first_chunks : chunk_size 1 = 16 /\ chunk_size 2 = 32 /\ chunk_size 9 = 4096 /\ chunk_size 10 = 4096.
Proof. by vm_compute. Qed.

(** [lheader] is the number of the bytes, the high one first. *)
Lemma lheader_spec s : (1 <= length s <= 4)%nat -> Bytes s -> lheader s = Ret (be_value s).
Proof.
  intros Hl Hb. unfold lheader. rewrite bool_decide_false by lia. f_equal.
  assert (Hf : forall s z, Bytes s -> fold_left (fun sz b => Z.lor (Z.shiftl sz 8) b) s z = z * 256 ^ Z.of_nat (length s) + be_value s).
  { clear. induction s as [|x s IH] using rev_ind; intros z Hb; [cbn; lia|]. apply Forall_app in Hb as [Hb [Hx _]%Forall_cons].
    rewrite fold_left_app. cbn [fold_left]. rewrite IH by done. unfold is_byte in Hx.
    rewrite Z.lor_comm, lor_shiftl_add by lia. unfold be_value. rewrite rev_app_distr. cbn [rev app le_value].
    rewrite length_app. cbn [length]. rewrite Nat2Z.inj_add, Z.pow_add_r by lia. lia. }
  rewrite Hf by done. lia.
Qed.
