(* ===== verification/Sql.v ===== *)
(** * Quoting of SQL strings (src/lualib-src/lua-mysqlaux.c)

    The writer fills a buffer whose size was counted before.  The specification is how the
    database reads a string literal with backslash escapes: the quoted string is read
    back, and nothing in it ends the literal. *)
From stdpp Require Import base list gmap numbers strings.
From Stdlib Require Import ZArith Lia.
From S2P Require Import Prelude.

Local Open Scope Z_scope.

Definition QUOTE : Z := 39.
Definition BACKSLASH : Z := 92.

(** The cases of both switches: what follows the backslash. *)
Definition escape_char (c : Z) : option Z :=
  if bool_decide (Z.land c 0x80 <> 0) then None
  else if bool_decide (c = 0) then Some 48
  else if bool_decide (c = 8) then Some 98
  else if bool_decide (c = 10) then Some 110
  else if bool_decide (c = 13) then Some 114
  else if bool_decide (c = 9) then Some 116
  else if bool_decide (c = 26) then Some 90
  else if bool_decide (c = 92) then Some 92
  else if bool_decide (c = 39) then Some 39
  else if bool_decide (c = 34) then Some 34
  else None.

Fixpoint num_escape_sql_str (n : Z) (src : list Z) : Z :=
  match src with
  | [] => n
  | c :: src => num_escape_sql_str (if escape_char c is Some _ then u32 (n + 1) else n) src
  end.

(** The memory at [dst], and the end of what was written. *)
Fixpoint escape_sql_str (m : list Z) (dst : Z) (src : list Z) : outcome (Z * list Z) :=
  match src with
  | [] => Ret (dst, m)
  | c :: src =>
    match escape_char c with
    | Some e =>
      m ← write_at m dst BACKSLASH;
      m ← write_at m (dst + 1) e;
      escape_sql_str m (dst + 2) src
    | None =>
      m ← write_at m dst c;
      escape_sql_str m (dst + 1) src
    end
  end.

Definition quote_sql_str (src : list Z) : outcome (list Z) :=
  let len := Z.of_nat (length src) in
  if bool_decide (len = 0) then Ret [QUOTE; QUOTE]
  else
    let escape := num_escape_sql_str 0 src in
    let dlen := 2 + len + escape in
    let m := replicate (Z.to_nat dlen) 0 in
    m ← write_at m 0 QUOTE;
    '(p, m) ← (if bool_decide (escape = 0) then m ← write_bytes m 1 src; Ret (1 + len, m)
               else escape_sql_str m 1 src);
    m ← write_at m p QUOTE;
    let p := p + 1 in
    if bool_decide (p <> dlen) then Raise "quote sql string error"
    else read_bytes m 0 p.

(** ** What the database reads *)

(** The character that an escape sequence stands for. *)
Definition unescape_char (e : Z) : Z :=
  if decide (e = 48) then 0
  else if decide (e = 98) then 8
  else if decide (e = 110) then 10
  else if decide (e = 114) then 13
  else if decide (e = 116) then 9
  else if decide (e = 90) then 26
  else e.

(** The rest of a literal: its characters up to the closing quote, and what is behind it;
    a doubled quote is a quote. *)
Fixpoint read_literal (text : list Z) : option (list Z * list Z) :=
  match text with
  | [] => None
  | c :: text =>
    if decide (c = BACKSLASH) then
      match text with
      | [] => None
      | e :: text => '(s, rest) ← read_literal text; Some (unescape_char e :: s, rest)
      end
    else if decide (c = QUOTE) then
      match text with
      | c' :: text' => if decide (c' = QUOTE) then '(s, rest) ← read_literal text'; Some (QUOTE :: s, rest) else Some ([], text)
      | [] => Some ([], [])
      end
    else '(s, rest) ← read_literal text; Some (c :: s, rest)
  end.

Definition literal (text : list Z) : option (list Z * list Z) :=
  match text with
  | c :: text => if decide (c = QUOTE) then read_literal text else None
  | [] => None
  end.

(** The text of the escaped string. *)
Definition escaped_char (c : Z) : list Z := match escape_char c with Some e => [BACKSLASH; e] | None => [c] end.
Definition escaped (s : list Z) : list Z := s ≫= escaped_char.

Lemma escaped_cons c s : escaped (c :: s) = escaped_char c ++ escaped s.
Proof. done. Qed.

Lemma escape_unescape c e : escape_char c = Some e -> unescape_char e = c.
Proof. unfold escape_char. repeat case_bool_decide; intros [= <-]; by subst. Qed.

Lemma plain_char c : escape_char c = None -> c <> BACKSLASH /\ c <> QUOTE.
Proof. intros H. split; intros ->; by vm_compute in H. Qed.

(** ** The writer *)

Lemma length_escaped s : (length s <= length (escaped s))%nat.
Proof.
  induction s as [|c s IH]; [done|]. rewrite escaped_cons, length_app. unfold escaped_char.
  destruct (escape_char c); cbn; lia.
Qed.

Lemma num_escape_spec s : forall n, 0 <= n -> n + Z.of_nat (length s) < 2 ^ 32 ->
  num_escape_sql_str n s = n + Z.of_nat (length (escaped s)) - Z.of_nat (length s).
Proof.
  induction s as [|c s IH]; intros n Hn Hl; cbn [num_escape_sql_str length] in *; [cbn; lia|].
  rewrite escaped_cons, length_app. unfold escaped_char. destruct (escape_char c); cbn [length].
  - rewrite u32_small by (unfold is_u32; lia). rewrite IH by lia. lia.
  - rewrite IH by lia. lia.
Qed.

Lemma write_at_next (pre : list Z) x rest c p : p = Z.of_nat (length pre) -> write_at (pre ++ x :: rest) p c = Ret ((pre ++ [c]) ++ rest).
Proof.
  intros ->. rewrite write_at_lt by (rewrite length_app; cbn; lia). by rewrite insert_app_r_alt, Nat.sub_diag, <- app_assoc by lia.
Qed.

Lemma escape_writes s : forall pre rest tail p, p = Z.of_nat (length pre) -> length rest = length (escaped s) ->
  escape_sql_str (pre ++ rest ++ tail) p s = Ret (p + Z.of_nat (length (escaped s)), (pre ++ escaped s) ++ tail).
Proof.
  induction s as [|c s IH]; intros pre rest tail p -> Hl; cbn [escape_sql_str].
  { destruct rest; [|done]. cbn. by rewrite app_nil_r, Z.add_0_r. }
  rewrite escaped_cons, length_app in Hl. rewrite escaped_cons. unfold escaped_char in *. destruct (escape_char c) as [e|]; cbn [length] in Hl.
  - destruct rest as [|x [|y rest]]; try (cbn in Hl; lia). cbn [app]. step_with write_at_next by done.
    step_with write_at_next by (rewrite length_app; cbn; lia). rewrite (IH _ rest tail) by (rewrite ?length_app; cbn in *; lia).
    f_equal. f_equal; [cbn; lia|by rewrite <- !app_assoc].
  - destruct rest as [|x rest]; try (cbn in Hl; lia). cbn [app]. step_with write_at_next by done.
    rewrite (IH _ rest tail) by (rewrite ?length_app; cbn in *; lia). f_equal. f_equal; [cbn; lia|by rewrite <- !app_assoc].
Qed.

(** When nothing is escaped the string is its own text. *)
Lemma escaped_plain s : length (escaped s) = length s -> escaped s = s.
Proof.
  induction s as [|c s IH]; [done|]. rewrite escaped_cons. pose proof (length_escaped s). unfold escaped_char. destruct (escape_char c); cbn; intros Hl; [lia|].
  by rewrite IH by lia.
Qed.

Lemma quote_writes s : Z.of_nat (length s) < 2 ^ 32 -> quote_sql_str s = Ret (QUOTE :: escaped s ++ [QUOTE]).
Proof.
  intros Hl. unfold quote_sql_str. case_bool_decide as H0; [by destruct s|]. pose proof (length_escaped s) as He.
  rewrite num_escape_spec by lia. rewrite Z.add_0_l. set (L := length (escaped s)) in *.
  replace (Z.to_nat _) with (1 + (L + 1))%nat by lia. rewrite !replicate_add. cbn [replicate].
  change ([0] ++ replicate L 0 ++ [0]) with ([] ++ 0 :: (replicate L 0 ++ [0])).
  step_with write_at_next by done. cbn [app].
  assert (Hbody : (if bool_decide (Z.of_nat L - Z.of_nat (length s) = 0)
     then m ← write_bytes (QUOTE :: replicate L 0 ++ [0]) 1 s; Ret (1 + Z.of_nat (length s), m)
     else escape_sql_str (QUOTE :: replicate L 0 ++ [0]) 1 s) = Ret (1 + Z.of_nat L, (QUOTE :: escaped s) ++ [0])).
  { case_bool_decide as Hp.
    - assert (Hs : escaped s = s) by (apply escaped_plain; unfold L in *; lia). rewrite Hs. unfold write_bytes.
      assert (length s = L) by (unfold L; by rewrite Hs). rewrite decide_True by (cbn; rewrite length_app, length_replicate; cbn; lia).
      cbn [mbind outcome_bind]. do 2 f_equal; [lia|]. change (Z.to_nat 1) with 1%nat. cbn [take app drop Nat.add]. rewrite take_0. cbn [app].
      by rewrite drop_app_length' by (rewrite length_replicate; lia).
    - change (QUOTE :: replicate L 0 ++ [0]) with ([QUOTE] ++ replicate L 0 ++ [0]).
      by rewrite escape_writes by (cbn; rewrite ?length_replicate; lia). }
  step_with Hbody. cbn beta iota. step_with write_at_next by (cbn; unfold L; lia). cbn beta zeta.
  rewrite bool_decide_false by lia. rewrite app_nil_r. apply read_bytes_all. cbn. rewrite length_app. cbn. unfold L. lia.
Qed.

(** ** The reader *)

Lemma read_escaped s rest : head rest <> Some QUOTE -> read_literal (escaped s ++ QUOTE :: rest) = Some (s, rest).
Proof.
  intros Hr. induction s as [|c s IH].
  - change (escaped [] ++ QUOTE :: rest) with (QUOTE :: rest). cbn [read_literal]. rewrite decide_False, decide_True by done.
    destruct rest as [|c rest]; [done|]. by rewrite decide_False by (intros ->; by apply Hr).
  - rewrite escaped_cons. unfold escaped_char. destruct (escape_char c) as [e|] eqn:E; cbn [app read_literal].
    + rewrite decide_True by done. rewrite IH. cbn. by rewrite (escape_unescape c e).
    + destruct (plain_char c E). rewrite decide_False, decide_False by done. by rewrite IH.
Qed.

(** C39: A quoted string is one literal to the database, whatever bytes it has: the reader
    gets the string back, and the literal ends at its last quote, so that what follows it
    in a statement is not touched, if that does not begin with a quote (two quotes in a row
    stand for one inside of a literal, so that one would go on). *)
Theorem quote_reads_back s : Z.of_nat (length s) < 2 ^ 32 -> exists q, quote_sql_str s = Ret q /\
  forall rest, head rest <> Some QUOTE -> literal (q ++ rest) = Some (s, rest).
Proof.
  intros Hl. exists (QUOTE :: escaped s ++ [QUOTE]). split; [by apply quote_writes|]. intros rest Hr. cbn [app literal].
  rewrite decide_True by done. rewrite <- app_assoc. by apply read_escaped.
Qed.

Lemma quote_reads_back_witness : quote_sql_str [39; 59; 0] = Ret [39; 92; 39; 59; 92; 48; 39] /\
  exists q, quote_sql_str [39; 59; 0] = Ret q /\ forall rest, head rest <> Some QUOTE -> literal (q ++ rest) = Some ([39; 59; 0], rest).
Proof. split; [by vm_compute|]. apply quote_reads_back. by vm_compute. Defined.
