(* ===== verification/Bson.v ===== *)
(** * BSON documents (src/lualib-src/lua-bson.c)

    The writer over its growing buffer, the reader over a memory [m] with offsets for
    pointers, the index of a document and the replacement of its fields, and the typed
    strings.  A table that is encoded is the list of its entries in the order of [lua_next];
    a table that is decoded is the list of its entries in the order in which they were set.
    A double is its 64 bits. *)
From stdpp Require Import base list gmap numbers strings.
From Stdlib Require Import ZArith Lia.
From S2P Require Import Prelude CString.

Local Open Scope Z_scope.

Definition DEFAULT_CAP : Z := 64.
Definition MAX_NUMBER : Z := 1024.

Definition BSON_REAL : Z := 1.
Definition BSON_STRING : Z := 2.
Definition BSON_DOCUMENT : Z := 3.
Definition BSON_ARRAY : Z := 4.
Definition BSON_BINARY : Z := 5.
Definition BSON_OBJECTID : Z := 7.
Definition BSON_BOOLEAN : Z := 8.
Definition BSON_DATE : Z := 9.
Definition BSON_NULL : Z := 10.
Definition BSON_REGEX : Z := 11.
Definition BSON_DBPOINTER : Z := 12.
Definition BSON_JSCODE : Z := 13.
Definition BSON_SYMBOL : Z := 14.
Definition BSON_CODEWS : Z := 15.
Definition BSON_INT32 : Z := 16.
Definition BSON_TIMESTAMP : Z := 17.
Definition BSON_INT64 : Z := 18.
Definition BSON_MINKEY : Z := 255.
Definition BSON_MAXKEY : Z := 127.

Definition BSON_TYPE_SHIFT : Z := 5.

(** ** Lua values *)

(** Lua keeps no float with the value of an integer as a key. *)
Inductive bkey := KInt (z : Z) | KReal (bits : Z) | KStr (s : list Z) | KOther.

Inductive bval :=
| BInt (z : Z)
| BReal (bits : Z)
| BStr (s : list Z)
| BBool (b : bool)
| BUser (doc : list Z)
| BTable (es : list (bkey * bval))
| BNil
| BOther.

#[export] Instance bkey_eq_dec : EqDecision bkey.
Proof. solve_decision. Defined.

Abbreviation entries := (list (bkey * bval)).

(** [lua_rawset]. *)
Fixpoint rawset {A} (es : list (bkey * A)) (k : bkey) (v : A) : list (bkey * A) :=
  match es with
  | [] => [(k, v)]
  | (k', v') :: es => if decide (k' = k) then (k, v) :: es else (k', v') :: rawset es k v
  end.

Definition rawget {A} (es : list (bkey * A)) (k : bkey) : option A := snd <$> List.find (fun p => bool_decide (p.1 = k)) es.

(** ** The buffer *)

(** The bytes from [b_ptr] on in the memory [b_mem]; [b_own] while [ptr] is [buffer]. *)
Record bson := mk_bson {
  b_size : Z;
  b_cap : Z;
  b_mem : list Z;
  b_ptr : Z;
  b_own : bool
}.

(** What fresh memory holds. *)
Section WRITER.
Context (junk : Z).

Definition bson_create : bson := mk_bson 0 DEFAULT_CAP (replicate (Z.to_nat DEFAULT_CAP) junk) 0 true.

(** Whether memory is freed. *)
Definition bson_destroy (b : bson) : bool := negb (b_own b).

(** The loop of [bson_reserve]; an [int] is doubled at most 32 times. *)
Fixpoint cap_loop (fuel : nat) (cap need : Z) : outcome Z :=
  match fuel with
  | O => Crash OutOfFuel
  | S fuel => let cap := i32 (cap * 2) in if bool_decide (cap <= need) then cap_loop fuel cap need else Ret cap
  end.

Definition bson_reserve (b : bson) (sz : Z) : outcome bson :=
  let need := i32 (b_size b + sz) in
  if bool_decide (need <= b_cap b) then Ret b
  else
    cap ← cap_loop 33 (b_cap b) need;
    old ← (if b_own b then read_bytes (b_mem b) (b_ptr b) (b_size b) else Ret (drop (Z.to_nat (b_ptr b)) (b_mem b)));
    Ret (mk_bson (b_size b) cap (old ++ replicate (Z.to_nat cap - length old) junk) 0 false).

(** Storing bytes [off] behind [ptr]. *)
Definition store (b : bson) (off : Z) (l : list Z) : outcome bson :=
  m ← write_bytes (b_mem b) (b_ptr b + off) l;
  Ret (mk_bson (b_size b) (b_cap b) m (b_ptr b) (b_own b)).

Definition grow (n : Z) (b : bson) : bson := mk_bson (i32 (b_size b + n)) (b_cap b) (b_mem b) (b_ptr b) (b_own b).

Definition write_byte (b : bson) (v : Z) : outcome bson :=
  b ← bson_reserve b 1;
  b ← store b (b_size b) [u8 v];
  Ret (grow 1 b).

Definition write_int32 (b : bson) (v : Z) : outcome bson :=
  b ← bson_reserve b 4;
  b ← store b (b_size b) (le_bytes 4 v);
  Ret (grow 4 b).

Definition write_length (b : bson) (v off : Z) : outcome bson := store b off (le_bytes 4 v).

(** [sz] bytes of [key] from [from] on. *)
Definition write_string (b : bson) (key : list Z) (from sz : Z) : outcome bson :=
  b ← bson_reserve b (i32 (sz + 1));
  text ← read_bytes key from sz;
  b ← store b (b_size b) text;
  b ← store b (b_size b + sz) [0];
  Ret (grow (sz + 1) b).

Definition reserve_length (b : bson) : outcome (Z * bson) :=
  let sz := b_size b in
  b ← bson_reserve b 4;
  Ret (sz, grow 4 b).

Definition write_int64 (b : bson) (v : Z) : outcome bson :=
  b ← bson_reserve b 8;
  b ← store b (b_size b) (le_bytes 8 v);
  Ret (grow 8 b).

Definition write_double (b : bson) (d : Z) : outcome bson :=
  b ← bson_reserve b 8;
  b ← store b (b_size b) (le_bytes 8 d);
  Ret (grow 8 b).

Definition append_key (bs : bson) (type : Z) (key : list Z) (sz : Z) : outcome bson :=
  bs ← write_byte bs type;
  write_string bs key 0 sz.

(** [memcpy] of [sz] bytes of a string behind the others. *)
Definition append_bytes (b : bson) (str : list Z) (from sz : Z) : outcome bson :=
  b ← bson_reserve b (i32 sz);
  text ← read_bytes str from sz;
  b ← store b (b_size b) text;
  Ret (grow sz b).

Definition append_number (bs : bson) (v : bval) (key : list Z) (sz : Z) : outcome bson :=
  match v with
  | BInt i =>
    let si := i32 (Z.shiftr i 31) in
    if bool_decide (si = 0 \/ si = -1) then bs ← append_key bs BSON_INT32 key sz; write_int32 bs i
    else bs ← append_key bs BSON_INT64 key sz; write_int64 bs i
  | BReal d => bs ← append_key bs BSON_REAL key sz; write_double bs d
  | _ => Ret bs
  end.

(** [sz] bytes of the string from [from] on, the first being the subtype. *)
Definition write_binary (b : bson) (buffer : list Z) (from sz : Z) : outcome bson :=
  '(length, b) ← reserve_length b;
  b ← append_bytes b buffer from sz;
  write_length b (sz - 1) length.

(** The loop that looks for a zero from the end of [len] bytes at [from]; [i] bytes were
    passed over. *)
Fixpoint last_zero (fuel : nat) (str : list Z) (from len i : Z) : outcome Z :=
  match fuel with
  | O => Crash OutOfFuel
  | S fuel =>
    if bool_decide (i < len) then
      c ← read_at str (from + i64 (len - i - 1));
      if bool_decide (c = 0) then Ret i else last_zero fuel str from len (i + 1)
    else Ret i
  end.

(** A string that begins with a zero and a type. *)
Definition append_typed (bs : bson) (str : list Z) (subt : Z) (key : list Z) (sz : Z) : outcome bson :=
  let len := Z.of_nat (length str) in
  bs ← append_key bs subt key sz;
  if bool_decide (subt = BSON_BINARY) then write_binary bs str 2 (len - 2)
  else if bool_decide (subt = BSON_OBJECTID /\ len <> 2 + 12) then Raise "Invalid object id %s"
  else if bool_decide (subt = BSON_OBJECTID \/ subt = BSON_JSCODE \/ subt = BSON_DBPOINTER \/ subt = BSON_SYMBOL \/ subt = BSON_CODEWS)
  then append_bytes bs str 2 (len - 2)
  else if bool_decide (subt = BSON_DATE) then
    if bool_decide (len <> 2 + 4) then Raise "Invalid date"
    else ts ← read_bytes str 2 4; write_int64 bs (le_value ts * 1000)
  else if bool_decide (subt = BSON_TIMESTAMP) then
    if bool_decide (len <> 2 + 8) then Raise "Invalid timestamp"
    else
      inc ← read_bytes str 2 4;
      ts ← read_bytes str 6 4;
      bs ← write_int32 bs (le_value inc);
      write_int32 bs (le_value ts)
  else if bool_decide (subt = BSON_REGEX) then
    let len := u64 (len - 3) in
    i ← last_zero (S (S (length str))) str 2 len 0;
    bs ← write_string bs str 2 (u64 (len - i - 1));
    write_string bs str (2 + len - i) i
  else if bool_decide (subt = BSON_MINKEY \/ subt = BSON_MAXKEY \/ subt = BSON_NULL) then Ret bs
  else Raise "Invalid subtype %d".

Definition append_string (bs : bson) (str : list Z) (key : list Z) (sz : Z) : outcome bson :=
  let len := Z.of_nat (length str) in
  bs ← append_key bs BSON_STRING key sz;
  '(off, bs) ← reserve_length bs;
  bs ← write_string bs str 0 len;
  write_length bs (len + 1) off.

(** The length of a table as Lua gives it, and the text of a float. *)
Context (rawlen : entries -> Z) (real_text : Z -> list Z).

(** Whether [lua_next] ends behind the key. *)
Definition next_ends (es : entries) (key : bkey) : outcome bool :=
  match list_find (fun p => p.1 = key) es with
  | Some (i, _) => Ret (bool_decide (S i = length es))
  | None => Raise "invalid key to 'next'"
  end.

Section RECURSION.
Context (pack_dict : bson -> entries -> bool -> outcome bson).

Definition append_table (bs : bson) (es : entries) (key : list Z) (sz : Z) : outcome bson :=
  let len := rawlen es in
  isarray ← (if bool_decide (len > 0) then next_ends es (KInt len) else Ret false);
  bs ← append_key bs (if (isarray : bool) then BSON_ARRAY else BSON_DOCUMENT) key sz;
  pack_dict bs es isarray.

Definition get_length (data : list Z) : outcome Z := b ← read_bytes data 0 4; Ret (i32 (le_value b)).

Definition append_one (bs : bson) (v : bval) (key : list Z) (sz : Z) : outcome bson :=
  match v with
  | BInt _ | BReal _ => append_number bs v key sz
  | BUser doc =>
    bs ← append_key bs BSON_DOCUMENT key sz;
    sz ← get_length doc;
    append_bytes bs doc 0 sz
  | BStr str =>
    match str with
    | 0 :: subt :: _ => append_typed bs str subt key sz
    | _ => append_string bs str key sz
    end
  | BTable es => append_table bs es key sz
  | BBool b => bs ← append_key bs BSON_BOOLEAN key sz; write_byte bs (Z.b2z b)
  | BNil | BOther => Raise "Invalid value type : %s"
  end.

(** The strings of the numbers below [MAX_NUMBER], as [luaopen_bson] fills them in. *)
Definition bson_numstrs : list (list Z) :=
  (fun i => let tmp := print_int (Z.of_nat i) in tmp ++ replicate (4 - length tmp) 0) <$> seq 0 (Z.to_nat MAX_NUMBER).
Definition bson_numstr_len : list Z := (fun i => Z.of_nat (length (print_int (Z.of_nat i)))) <$> seq 0 (Z.to_nat MAX_NUMBER).

Definition bson_numstr (i : Z) : outcome (list Z * Z) :=
  if bool_decide (i < MAX_NUMBER) then
    str ← read_at bson_numstrs i;
    len ← read_at bson_numstr_len i;
    Ret (str, len)
  else let str := print_int i in Ret (str, Z.of_nat (length str)).

(** [lua_tointeger] of a key that is a number. *)
Definition key_integer (k : bkey) : Z := match k with KInt z => z | _ => 0 end.

Definition is_number (k : bkey) : bool := match k with KInt _ | KReal _ => true | _ => false end.

(** [lua_tolstring] of a key that is a number or a string. *)
Definition key_text (k : bkey) : option (list Z) :=
  match k with KInt z => Some (print_int z) | KReal d => Some (real_text d) | KStr s => Some s | KOther => None end.

(** The loop of [pack_dict]. *)
Fixpoint pack_entries (b : bson) (es : entries) (isarray : bool) : outcome bson :=
  match es with
  | [] => Ret b
  | (k, v) :: es =>
    b ← (if isarray then
           if negb (is_number k) then Raise "Invalid array key type : %s"
           else '(key, sz) ← bson_numstr (u32 (u32 (key_integer k) - 1)); append_one b v key sz
         else
           match key_text k with
           | Some key => append_one b v key (Z.of_nat (length key))
           | None => Raise "Invalid key type : %s"
           end);
    pack_entries b es isarray
  end.
End RECURSION.

(** [fuel] bounds the depth of the tables. *)
Fixpoint pack_dict (fuel : nat) (b : bson) (es : entries) (isarray : bool) : outcome bson :=
  match fuel with
  | O => Crash OutOfFuel
  | S fuel =>
    '(length, b) ← reserve_length b;
    b ← pack_entries (pack_dict fuel) b es isarray;
    b ← write_byte b 0;
    write_length b (i32 (b_size b - length)) length
  end.

(** [lua_tolstring] of an argument. *)
Definition arg_text (v : bval) : option (list Z) :=
  match v with BInt z => Some (print_int z) | BReal d => Some (real_text d) | BStr s => Some s | _ => None end.

Fixpoint pack_pairs (fuel : nat) (b : bson) (args : list bval) : outcome bson :=
  match args with
  | k :: v :: args =>
    match arg_text k with
    | None => Raise "Argument %d need a string"
    | Some key => b ← append_one (pack_dict fuel) b v key (Z.of_nat (length key)); pack_pairs fuel b args
    end
  | _ => Ret b
  end.

Definition pack_ordered_dict (fuel : nat) (b : bson) (args : list bval) : outcome bson :=
  '(length, b) ← reserve_length b;
  b ← pack_pairs fuel b args;
  b ← write_byte b 0;
  write_length b (i32 (b_size b - length)) length.

(** The userdata that is made of the buffer. *)
Definition lencode (fuel : nat) (v : bval) : outcome (list Z) :=
  match v with
  | BTable es => b ← pack_dict fuel bson_create es false; read_bytes (b_mem b) (b_ptr b) (b_size b)
  | _ => Raise "table expected"
  end.

Definition lencode_order (fuel : nat) (args : list bval) : outcome (list Z) :=
  if bool_decide (Z.of_nat (length args) mod 2 <> 0) then Raise "Invalid ordered dict"
  else b ← pack_ordered_dict fuel bson_create args; read_bytes (b_mem b) (b_ptr b) (b_size b).
End WRITER.

(** ** The reader *)

Record bson_reader := mk_reader {
  r_ptr : Z;
  r_size : Z
}.

Section READER.
Context (m : list Z).

Definition check_reader (br : bson_reader) (sz : Z) : outcome unit :=
  if bool_decide (r_size br < sz) then Raise "Invalid bson block (%d:%d)" else Ret tt.

Definition skip (n : Z) (br : bson_reader) : bson_reader := mk_reader (r_ptr br + n) (i32 (r_size br - n)).

Definition read_byte (br : bson_reader) : outcome (Z * bson_reader) :=
  _ ← check_reader br 1;
  r ← read_at m (r_ptr br);
  Ret (r, skip 1 br).

Definition read_int32 (br : bson_reader) : outcome (Z * bson_reader) :=
  _ ← check_reader br 4;
  b ← read_bytes m (r_ptr br) 4;
  Ret (i32 (le_value b), skip 4 br).

Definition read_int64 (br : bson_reader) : outcome (Z * bson_reader) :=
  _ ← check_reader br 8;
  b ← read_bytes m (r_ptr br) 8;
  Ret (i64 (le_value b), skip 8 br).

Definition read_double (br : bson_reader) : outcome (Z * bson_reader) :=
  _ ← check_reader br 8;
  b ← read_bytes m (r_ptr br) 8;
  Ret (le_value b, skip 8 br).

(** [read_bytes]: where the bytes begin. *)
Definition reader_bytes (br : bson_reader) (sz : Z) : outcome (Z * bson_reader) :=
  _ ← check_reader br sz;
  Ret (r_ptr br, skip sz br).

(** The loop of [read_cstring]; it ends at the end of the memory at the latest. *)
Fixpoint cstring_loop (fuel : nat) (br : bson_reader) (i : Z) : outcome Z :=
  match fuel with
  | O => Crash OutOfFuel
  | S fuel =>
    if bool_decide (i = r_size br) then Raise "Invalid bson block : cstring"
    else
      c ← read_at m (r_ptr br + i);
      if bool_decide (c = 0) then Ret i else cstring_loop fuel br (i + 1)
  end.

Definition read_cstring (br : bson_reader) : outcome (list Z * bson_reader) :=
  i ← cstring_loop (S (length m)) br 0;
  text ← read_bytes m (r_ptr br) i;
  Ret (text, skip (i + 1) br).

(** A string of a buffer to which [len] bytes at [ptr] are added: a negative number is a
    [size_t] for which the buffer cannot grow. *)
Definition addlstring (b : list Z) (ptr len : Z) : outcome (list Z) :=
  if bool_decide (len < 0) then Raise "buffer too large"
  else l ← read_bytes m ptr len; Ret (b ++ l).

Definition make_object (type ptr len : Z) : outcome bval := b ← addlstring [0; type] ptr len; Ret (BStr b).

Section RECURSION.
Context (unpack_dict : bson_reader -> bool -> outcome (entries * bson_reader)).

(** The switch of [unpack_dict]. *)
Definition unpack_value (bt : Z) (t : bson_reader) : outcome (bval * bson_reader) :=
  if bool_decide (bt = BSON_REAL) then '(d, t) ← read_double t; Ret (BReal d, t)
  else if bool_decide (bt = BSON_BOOLEAN) then '(v, t) ← read_byte t; Ret (BBool (bool_decide (v <> 0)), t)
  else if bool_decide (bt = BSON_STRING) then
    '(sz, t) ← read_int32 t;
    if bool_decide (sz <= 0) then Raise "Invalid bson string , length = %d"
    else
      '(p, t) ← reader_bytes t sz;
      s ← read_bytes m p (sz - 1);
      Ret (BStr s, t)
  else if bool_decide (bt = BSON_DOCUMENT) then '(es, t) ← unpack_dict t false; Ret (BTable es, t)
  else if bool_decide (bt = BSON_ARRAY) then '(es, t) ← unpack_dict t true; Ret (BTable es, t)
  else if bool_decide (bt = BSON_BINARY) then
    '(sz, t) ← read_int32 t;
    '(subtype, t) ← read_byte t;
    '(p, t) ← reader_bytes t sz;
    b ← addlstring [0; BSON_BINARY; subtype] p sz;
    Ret (BStr b, t)
  else if bool_decide (bt = BSON_OBJECTID) then
    '(p, t) ← reader_bytes t 12;
    o ← make_object BSON_OBJECTID p 12;
    Ret (o, t)
  else if bool_decide (bt = BSON_DATE) then
    '(date, t) ← read_int64 t;
    Ret (BStr ([0; BSON_DATE] ++ le_bytes 4 (u32 (Z.quot date 1000))), t)
  else if bool_decide (bt = BSON_MINKEY \/ bt = BSON_MAXKEY \/ bt = BSON_NULL) then Ret (BStr [0; bt], t)
  else if bool_decide (bt = BSON_REGEX) then
    '(r1, t) ← read_cstring t;
    '(r2, t) ← read_cstring t;
    Ret (BStr ([0; BSON_REGEX] ++ r1 ++ [0] ++ r2 ++ [0]), t)
  else if bool_decide (bt = BSON_INT32) then '(v, t) ← read_int32 t; Ret (BInt v, t)
  else if bool_decide (bt = BSON_TIMESTAMP) then
    '(inc, t) ← read_int32 t;
    '(ts, t) ← read_int32 t;
    Ret (BStr ([0; BSON_TIMESTAMP] ++ le_bytes 4 inc ++ le_bytes 4 ts), t)
  else if bool_decide (bt = BSON_INT64) then '(v, t) ← read_int64 t; Ret (BInt v, t)
  else if bool_decide (bt = BSON_DBPOINTER) then
    let ptr := r_ptr t in
    '(sz, t) ← read_int32 t;
    '(_, t) ← reader_bytes t (i32 (sz + 12));
    o ← make_object BSON_DBPOINTER ptr (i32 (sz + 16));
    Ret (o, t)
  else if bool_decide (bt = BSON_JSCODE \/ bt = BSON_SYMBOL) then
    let ptr := r_ptr t in
    '(sz, t) ← read_int32 t;
    '(_, t) ← reader_bytes t sz;
    o ← make_object bt ptr (i32 (sz + 4));
    Ret (o, t)
  else if bool_decide (bt = BSON_CODEWS) then
    let ptr := r_ptr t in
    '(sz, t) ← read_int32 t;
    '(_, t) ← reader_bytes t (i32 (sz - 4));
    o ← make_object bt ptr sz;
    Ret (o, t)
  else Raise "Invalid bson type : %d".

(** The loop of [unpack_dict]. *)
Fixpoint unpack_items (fuel : nat) (array : bool) (t : bson_reader) (es : entries) : outcome entries :=
  if bool_decide (r_size t = 0) then Ret es
  else
    match fuel with
    | O => Crash OutOfFuel
    | S fuel =>
      '(bt, t) ← read_byte t;
      '(key, t) ← read_cstring t;
      let k := if array then KInt (i32 (strtol10 key + 1)) else KStr key in
      '(v, t) ← unpack_value bt t;
      unpack_items fuel array t (rawset es k v)
    end.
End RECURSION.

(** [fuel] bounds the depth of the documents. *)
Fixpoint unpack_dict (fuel : nat) (br : bson_reader) (array : bool) : outcome (entries * bson_reader) :=
  match fuel with
  | O => Crash OutOfFuel
  | S fuel =>
    '(sz, br) ← read_int32 br;
    '(bytes, br) ← reader_bytes br (i32 (sz - 5));
    let t := mk_reader bytes (i32 (sz - 5)) in
    '(end_, br) ← read_byte br;
    if bool_decide (end_ <> 0) then Raise "Invalid document end"
    else
      es ← unpack_items (unpack_dict fuel) (S (Z.to_nat (r_size t))) array t [];
      Ret (es, br)
  end.

(** ** The index of a document *)

Definition field_size (bt : Z) : Z :=
  if bool_decide (bt = BSON_INT64 \/ bt = BSON_TIMESTAMP \/ bt = BSON_DATE \/ bt = BSON_REAL) then 8
  else if bool_decide (bt = BSON_BOOLEAN) then 1
  else if bool_decide (bt = BSON_OBJECTID) then 12
  else if bool_decide (bt = BSON_INT32) then 4
  else 0.

(** The switch of [lmakeindex] for the types without a fixed size. *)
Definition index_skip (bt : Z) (br : bson_reader) : outcome bson_reader :=
  if bool_decide (bt = BSON_JSCODE \/ bt = BSON_SYMBOL \/ bt = BSON_STRING) then
    '(sz, br) ← read_int32 br; '(_, br) ← reader_bytes br sz; Ret br
  else if bool_decide (bt = BSON_CODEWS \/ bt = BSON_ARRAY \/ bt = BSON_DOCUMENT) then
    '(sz, br) ← read_int32 br; '(_, br) ← reader_bytes br (i32 (sz - 4)); Ret br
  else if bool_decide (bt = BSON_BINARY) then
    '(sz, br) ← read_int32 br; '(_, br) ← reader_bytes br (i32 (sz + 1)); Ret br
  else if bool_decide (bt = BSON_REGEX) then
    '(_, br) ← read_cstring br; '(_, br) ← read_cstring br; Ret br
  else if bool_decide (bt = BSON_DBPOINTER) then
    '(sz, br) ← read_int32 br; '(_, br) ← reader_bytes br (i32 (sz + 12)); Ret br
  else if bool_decide (bt = BSON_MINKEY \/ bt = BSON_MAXKEY \/ bt = BSON_NULL \/ field_size bt > 0) then Ret br
  else Raise "Invalid bson type : %d".

(** Lengths below zero can move the reader back, and then the loop has no bound. *)
Fixpoint index_items (fuel : nat) (br : bson_reader) (idx : list (bkey * Z)) : outcome (list (bkey * Z)) :=
  if bool_decide (r_size br = 0) then Ret idx
  else
    match fuel with
    | O => Crash OutOfFuel
    | S fuel =>
      '(bt, br) ← read_byte br;
      '(key, br) ← read_cstring br;
      br ← index_skip bt br;
      if bool_decide (field_size bt > 0) then
        let id := i32 (Z.lor bt (i32 (Z.shiftl (r_ptr br) BSON_TYPE_SHIFT))) in
        '(_, br) ← reader_bytes br (field_size bt);
        index_items fuel br (rawset idx (KStr key) id)
      else index_items fuel br idx
    end.

Definition ldecode : outcome entries :=
  len ← get_length m;
  '(es, _) ← unpack_dict (S (Z.to_nat len)) (mk_reader 0 len) false;
  Ret es.

(** [m] is the userdata. *)
Definition lmakeindex : outcome (list (bkey * Z)) :=
  len ← get_length m;
  index_items (S (Z.to_nat (i32 (len - 5)))) (mk_reader 4 (i32 (len - 5))) [].

Definition ltostring : list Z := m.
Definition llen : Z := Z.of_nat (length m).
End READER.

(** ** Replacing a field *)

(** A userdata of the type "bson" with its user value. *)
Record document := mk_document {
  d_bytes : list Z;
  d_index : option (list (bkey * Z))
}.

Section REPLACE.
Context (junk : Z) (checknumber : bval -> option Z).

Definition replace_object (v : bval) (type : Z) (bs : bson) : outcome bson :=
  match v with
  | BStr data =>
    let len := Z.of_nat (length data) in
    if bool_decide (len < 6 \/ data !! 0%nat <> Some 0 \/ data !! 1%nat <> Some type) then Raise "Type mismatch, need bson type %d"
    else if bool_decide (type = BSON_OBJECTID) then
      if bool_decide (len <> 2 + 12) then Raise "Invalid object id"
      else oid ← read_bytes data 2 12; store bs 0 oid
    else if bool_decide (type = BSON_DATE) then
      if bool_decide (len <> 2 + 4) then Raise "Invalid date"
      else ts ← read_bytes data 2 4; write_int64 junk bs (le_value ts * 1000)
    else if bool_decide (type = BSON_TIMESTAMP) then
      if bool_decide (len <> 2 + 8) then Raise "Invalid timestamp"
      else
        inc ← read_bytes data 2 4;
        ts ← read_bytes data 6 4;
        bs ← write_int32 junk bs (le_value inc);
        write_int32 junk bs (le_value ts)
    else Ret bs
  | _ => Raise "string expected"
  end.

(** [lua_toboolean]. *)
Definition toboolean (v : bval) : bool := match v with BNil | BBool false => false | _ => true end.

(** The switch of [lreplace]. *)
Definition replace_value (type : Z) (v : bval) (b : bson) : outcome bson :=
  if bool_decide (type = BSON_REAL) then
    match checknumber v with Some d => write_double junk b d | None => Raise "number expected" end
  else if bool_decide (type = BSON_BOOLEAN) then write_byte junk b (Z.b2z (toboolean v))
  else if bool_decide (type = BSON_OBJECTID \/ type = BSON_DATE \/ type = BSON_TIMESTAMP) then replace_object v type b
  else if bool_decide (type = BSON_INT32) then
    match v with BInt i => write_int32 junk b (i32 i) | _ => Raise "%f must be a 32bit integer " end
  else if bool_decide (type = BSON_INT64) then
    match v with BInt i => write_int64 junk b i | _ => Raise "%f must be a 64bit integer " end
  else Raise "Can't replace type %d".

Definition lreplace (doc : document) (key : bkey) (v : bval) : outcome document :=
  match d_index doc with
  | None => Raise "call makeindex first"
  | Some idx =>
    match rawget idx key with
    | None => Raise "Can't replace key : %s"
    | Some id =>
      let type := Z.land id (2 ^ BSON_TYPE_SHIFT - 1) in
      let offset := Z.shiftr id BSON_TYPE_SHIFT in
      b ← replace_value type v (mk_bson 0 16 (d_bytes doc) offset false);
      Ret (mk_document (b_mem b) (d_index doc))
    end
  end.
End REPLACE.

(** ** Typed strings *)

Definition ldate (d : Z) : list Z := [0; BSON_DATE] ++ le_bytes 4 (i32 d).

(** [inc] is the static counter. *)
Definition ltimestamp (inc d : Z) (i : option Z) : list Z * Z :=
  match i with
  | None => ([0; BSON_TIMESTAMP] ++ le_bytes 4 inc ++ le_bytes 4 (i32 d), u32 (inc + 1))
  | Some i => ([0; BSON_TIMESTAMP] ++ le_bytes 4 (u32 i) ++ le_bytes 4 (i32 d), inc)
  end.

Definition lregex (pattern : list Z) (options : option (list Z)) : list Z :=
  [0; BSON_REGEX] ++ pattern ++ [0] ++ default [] options ++ [0].

Definition lbinary (s : list Z) : list Z := [0; BSON_BINARY; 0] ++ s.

(** The names of the types, by the index that [ltype] uses. *)
Definition typename : list string :=
  ["number"; "boolean"; "table"; "nil"; "string"; "binary"; "objectid"; "timestamp"; "date"; "regex"; "minkey"; "maxkey"; "unsupported"]%string.

Definition upvalue (i : nat) : string := default "" (typename !! pred i).

Definition hex_digit (d : Z) : Z := if bool_decide (d < 10) then 48 + d else 87 + d.

(** [buf] is the string behind its first two bytes. *)
Definition lsubtype (subtype : Z) (str : list Z) : outcome (string * list bval) :=
  let buf := drop 2 str in
  let sz := Z.of_nat (length buf) in
  if bool_decide (subtype = BSON_BINARY) then
    if bool_decide (sz - 1 < 0) then Raise "string length overflow"
    else b ← read_at buf 0; Ret (upvalue 6, [BStr (drop 1 buf); BInt b])
  else if bool_decide (subtype = BSON_OBJECTID) then
    if bool_decide (sz <> 12) then Raise "Invalid object id"
    else Ret (upvalue 7, [BStr (buf ≫= fun c => [hex_digit (Z.shiftr c 4); hex_digit (Z.land c 0xf)])])
  else if bool_decide (subtype = BSON_DATE) then
    if bool_decide (sz <> 4) then Raise "Invalid date" else Ret (upvalue 9, [BInt (i32 (le_value buf))])
  else if bool_decide (subtype = BSON_TIMESTAMP) then
    if bool_decide (sz <> 8) then Raise "Invalid timestamp"
    else Ret (upvalue 8, [BInt (le_value (drop 4 buf)); BInt (le_value (take 4 buf))])
  else if bool_decide (subtype = BSON_REGEX) then
    let sz := u64 (sz - 1) in
    i ← last_zero (S (S (length str))) str 2 sz 0;
    if bool_decide (i = sz) then Raise "Invalid regex"
    else
      r ← read_bytes str 2 (u64 (sz - i - 1));
      o ← read_bytes str (2 + sz - i) i;
      Ret (upvalue 10, [BStr r; BStr o])
  else if bool_decide (subtype = BSON_MINKEY) then Ret (upvalue 11, [])
  else if bool_decide (subtype = BSON_MAXKEY) then Ret (upvalue 12, [])
  else if bool_decide (subtype = BSON_NULL) then Ret (upvalue 4, [])
  else if bool_decide (subtype = BSON_JSCODE \/ subtype = BSON_DBPOINTER \/ subtype = BSON_SYMBOL \/ subtype = BSON_CODEWS)
  then Ret (upvalue 13, [BStr buf])
  else Raise "Invalid subtype %d".

Definition ltype (v : bval) : outcome (string * list bval) :=
  match v with
  | BInt _ | BReal _ => Ret (upvalue 1, [v])
  | BBool _ => Ret (upvalue 2, [v])
  | BTable _ => Ret (upvalue 3, [v])
  | BNil => Ret (upvalue 4, [])
  | BStr str =>
    match str with
    | 0 :: subt :: _ => lsubtype subt str
    | _ => Ret (upvalue 5, [v])
    end
  | BUser _ | BOther => Raise "Invalid type %s"
  end.

(** ** Object ids *)

Record oid_state := mk_oid_state {
  oid_header : list Z;
  oid_counter : Z
}.

Fixpoint hash_host (h : Z) (host : list Z) : Z :=
  match host with
  | [] => h
  | c :: host => hash_host (Z.lxor h (u32 (Z.shiftl h 5 + Z.shiftr h 2 + (if bool_decide (c < 128) then c else c - 256)))) host
  end.

(** The name of the host up to its NUL, [None] when it is not known; [at_] is the address
    of a local variable. *)
Definition init_oid_header (s : oid_state) (pid time at_ : Z) (host : option (list Z)) : oid_state :=
  if bool_decide (oid_counter s <> 0) then s
  else
    let h := match host with
             | Some name => Z.lxor (hash_host 0 name) (Z.of_nat (length name))
             | None => 0
             end in
    let c := u32 (Z.lxor (Z.lxor h time) at_) in
    mk_oid_state [Z.land h 0xff; Z.land (Z.shiftr h 8) 0xff; Z.land (Z.shiftr h 16) 0xff; Z.land pid 0xff; Z.land (Z.shiftr pid 8) 0xff]
      (if bool_decide (c = 0) then 1 else c).

Definition hextoint (c : Z) : Z :=
  if bool_decide (48 <= c <= 57) then c - 48
  else if bool_decide (97 <= c <= 122) then c - 97 + 10
  else if bool_decide (65 <= c <= 90) then c - 65 + 10
  else 0.

Fixpoint hex_pairs (str : list Z) : list Z :=
  match str with
  | a :: b :: str => u8 (Z.lor (Z.shiftl (hextoint a) 4) (hextoint b)) :: hex_pairs str
  | _ => []
  end.

Definition lobjectid (s : oid_state) (time : Z) (arg : option (list Z)) : outcome (list Z * oid_state) :=
  match arg with
  | Some str =>
    if bool_decide (Z.of_nat (length str) <> 24) then Raise "Invalid objectid %s"
    else Ret ([0; BSON_OBJECTID] ++ hex_pairs str, s)
  | None =>
    let c := oid_counter s in
    Ret ([0; BSON_OBJECTID] ++
         [Z.land (Z.shiftr time 24) 0xff; Z.land (Z.shiftr time 16) 0xff; Z.land (Z.shiftr time 8) 0xff; Z.land time 0xff] ++
         oid_header s ++ [Z.land (Z.shiftr c 16) 0xff; Z.land (Z.shiftr c 8) 0xff; Z.land c 0xff],
         mk_oid_state (oid_header s) (u32 (c + 1)))
  end.
