(* ===== verification/BsonWire.v ===== *)
(** * The bytes of a BSON document, and its encoder

    [item] is what the bytes of a field are, [good] which values have an image that is read
    back.  The encoder appends these bytes to its buffer, however often the buffer grows. *)
From stdpp Require Import base list gmap numbers strings.
From Stdlib Require Import ZArith Lia.
From S2P Require Import Prelude CString Bson.

Local Open Scope Z_scope.

(** Evaluates the comparisons of known types. *)
Ltac decide_types := repeat match goal with
  | |- context [bool_decide ?P] => first [change (bool_decide P) with true | change (bool_decide P) with false]
  end; cbv iota.

(** ** Values and their bytes *)

Section bval_induction.
Context (P : bval -> Prop) (Hleaf : forall v, (forall es, v <> BTable es) -> P v)
  (Htable : forall es, Forall (fun p => P p.2) es -> P (BTable es)).

Fixpoint bval_tree_ind (v : bval) : P v :=
  match v with
  | BTable es => Htable es ((fix go (es : entries) : Forall (fun p => P p.2) es :=
      match es with [] => Forall_nil_2 _ | (k, v) :: es => Forall_cons_2 _ (k, v) es (bval_tree_ind v) (go es) end) es)
  | BInt z => Hleaf (BInt z) (fun es H => ltac:(discriminate H))
  | BReal d => Hleaf (BReal d) (fun es H => ltac:(discriminate H))
  | BStr s => Hleaf (BStr s) (fun es H => ltac:(discriminate H))
  | BBool b => Hleaf (BBool b) (fun es H => ltac:(discriminate H))
  | BUser d => Hleaf (BUser d) (fun es H => ltac:(discriminate H))
  | BNil => Hleaf BNil (fun es H => ltac:(discriminate H))
  | BOther => Hleaf BOther (fun es H => ltac:(discriminate H))
  end.
End bval_induction.

Definition nonzero (s : list Z) : Prop := Forall (fun c => c <> 0) s.

(** The keys of an array count from 1; a document has distinct strings without zeros. *)
Definition array_keys (es : entries) : Prop := es <> [] /\ es.*1 = KInt <$> seqZ 1 (Z.of_nat (length es)).

Definition string_key (k : bkey) : Prop := match k with KStr s => nonzero s | _ => False end.

Definition document_keys (es : entries) : Prop := Forall string_key es.*1 /\ NoDup es.*1.

Definition is_array (es : entries) : bool := match es with (KInt _, _) :: _ => true | _ => false end.

Definition key_name (k : bkey) : list Z := match k with KInt z => print_int (z - 1) | KStr s => s | _ => [] end.

Definition int_small (z : Z) : bool := bool_decide (- 2 ^ 31 <= z < 2 ^ 31).

(** The type and the bytes of a typed string [0; t] ++ rest. *)
Definition typed_bytes (t : Z) (rest : list Z) : list Z :=
  if bool_decide (t = BSON_BINARY) then le_bytes 4 (Z.of_nat (length rest) - 1) ++ rest
  else if bool_decide (t = BSON_DATE) then le_bytes 8 (le_value rest * 1000)
  else rest.

Definition text_bytes (s : list Z) : list Z := le_bytes 4 (Z.of_nat (length s) + 1) ++ s ++ [0].

Definition wrap (l : list Z) : list Z := le_bytes 4 (Z.of_nat (length l) + 5) ++ l ++ [0].

Definition type_of (v : bval) : Z :=
  match v with
  | BInt z => if int_small z then BSON_INT32 else BSON_INT64
  | BReal _ => BSON_REAL
  | BStr (0 :: t :: _) => t
  | BStr _ => BSON_STRING
  | BBool _ => BSON_BOOLEAN
  | BTable es => if is_array es then BSON_ARRAY else BSON_DOCUMENT
  | _ => BSON_DOCUMENT
  end.

Fixpoint payload (v : bval) : list Z :=
  match v with
  | BInt z => le_bytes (if int_small z then 4 else 8) z
  | BReal d => le_bytes 8 d
  | BStr (0 :: t :: rest) => typed_bytes t rest
  | BStr s => text_bytes s
  | BBool b => [Z.b2z b]
  | BTable es => wrap ((fix items (es : entries) : list Z :=
      match es with [] => [] | (k, v) :: es => (type_of v :: key_name k ++ 0 :: payload v) ++ items es end) es)
  | _ => []
  end.

Definition item (k : bkey) (v : bval) : list Z := type_of v :: key_name k ++ 0 :: payload v.

Definition items (es : entries) : list Z := concat ((fun p => item p.1 p.2) <$> es).

Lemma payload_table es : payload (BTable es) = wrap (items es).
Proof. cbn [payload]. f_equal. induction es as [|[k v] es IH]; [done|]. by rewrite IH. Qed.

(** Typed strings that are read back. *)
Definition typed_good (t : Z) (rest : list Z) : Prop :=
  (t = BSON_BINARY /\ rest <> []) \/
  (t = BSON_OBJECTID /\ length rest = 12%nat) \/
  (t = BSON_DATE /\ length rest = 4%nat /\ Bytes rest) \/
  (t = BSON_TIMESTAMP /\ length rest = 8%nat /\ Bytes rest) \/
  (t = BSON_REGEX /\ exists r1 r2, rest = r1 ++ 0 :: r2 ++ [0] /\ nonzero r1 /\ nonzero r2) \/
  ((t = BSON_MINKEY \/ t = BSON_MAXKEY \/ t = BSON_NULL) /\ rest = []) \/
  ((t = BSON_JSCODE \/ t = BSON_SYMBOL) /\ exists b, rest = le_bytes 4 (Z.of_nat (length b)) ++ b) \/
  (t = BSON_CODEWS /\ exists b, rest = le_bytes 4 (Z.of_nat (length b) + 4) ++ b) \/
  (t = BSON_DBPOINTER /\ exists b, rest = le_bytes 4 (Z.of_nat (length b) - 12) ++ b /\ (12 <= length b)%nat).

(** The integers that the writer tells apart; see [extreme_integers]. *)
Fixpoint good (v : bval) : Prop :=
  match v with
  | BInt z => - 2 ^ 63 + 2 ^ 31 <= z < 2 ^ 63 - 2 ^ 31
  | BReal d => is_u64 d
  | BStr (0 :: t :: rest) => typed_good t rest
  | BStr _ | BBool _ => True
  | BTable es => (array_keys es \/ document_keys es) /\
      (fix all (es : entries) : Prop := match es with [] => True | (_, v) :: es => good v /\ all es end) es
  | _ => False
  end.

Lemma good_table es : good (BTable es) <-> (array_keys es \/ document_keys es) /\ Forall (fun p => good p.2) es.
Proof.
  cbn [good]. assert (H : (fix all (es : entries) : Prop := match es with [] => True | (_, v) :: es => good v /\ all es end) es <-> Forall (fun p => good p.2) es).
  { induction es as [|[k v] es IH]; [by split|]. rewrite Forall_cons, IH. done. }
  by rewrite H.
Qed.

(** How deep the tables of a value are. *)
Fixpoint depth (v : bval) : nat :=
  match v with
  | BTable es => S ((fix deepest (es : entries) : nat := match es with [] => O | (_, v) :: es => Nat.max (depth v) (deepest es) end) es)
  | _ => O
  end.

Lemma depth_table es n : (depth (BTable es) <= S n)%nat -> Forall (fun p => (depth p.2 <= n)%nat) es.
Proof. cbn [depth]. induction es as [|[k v] es IH]; intros H; [constructor|]. constructor; [cbn; lia|]. apply IH. lia. Qed.

Lemma is_array_keys es : array_keys es -> is_array es = true.
Proof. intros [Hne Hk]. destruct es as [|[k v] es]; [done|]. cbn [length] in Hk. rewrite seqZ_cons in Hk by lia. by injection Hk as ->. Qed.

Lemma is_document_keys es : document_keys es -> is_array es = false.
Proof. intros [Hk _]. destruct es as [|[k v] es]; [done|]. apply Forall_cons in Hk as [Hk _]. by destruct k. Qed.

(** ** The buffer *)

Definition LIMIT : Z := 2 ^ 30.

(** The buffer holds [l]. *)
Record holds (b : bson) (l : list Z) : Prop := {
  h_ptr : b_ptr b = 0;
  h_size : b_size b = Z.of_nat (length l);
  h_mem : exists rest, b_mem b = l ++ rest;
  h_cap : b_cap b = Z.of_nat (length (b_mem b));
  h_pos : 0 < b_cap b
}.

Definition writes (o : outcome bson) (l : list Z) : Prop := exists b, o = Ret b /\ holds b l.

Lemma writes_seq o l k l' : writes o l -> (forall b, holds b l -> writes (k b) l') -> writes (b ← o; k b) l'.
Proof. intros (b & -> & Hb) Hk. rewrite bind_Ret. by apply Hk. Qed.

Lemma writes_ret b l : holds b l -> writes (Ret b) l.
Proof. by exists b. Qed.

(** Doubling ends above what is needed. *)
Lemma cap_loop_spec fuel : forall cap need, 0 < cap <= need -> need < LIMIT -> need < cap * 2 ^ Z.of_nat fuel ->
  exists c, cap_loop fuel cap need = Ret c /\ need < c < 2 ^ 31.
Proof.
  unfold LIMIT. induction fuel as [|fuel IH]; intros cap need Hc Hn Hf; [rewrite Z.pow_0_r in Hf; lia|].
  cbn [cap_loop]. rewrite Nat2Z.inj_succ, Z.pow_succ_r in Hf by lia. rewrite i32_small by (unfold is_i32; lia).
  case_bool_decide as H; [|exists (cap * 2); split; [done|lia]]. apply IH; lia.
Qed.

Section ENCODER.
Context (junk : Z).

Lemma create_holds : holds (bson_create junk) [].
Proof. split; cbn; try done. by eexists. Qed.

Lemma reserve_spec b l sz : holds b l -> 0 <= sz -> Z.of_nat (length l) + sz < LIMIT ->
  exists b', bson_reserve junk b sz = Ret b' /\ holds b' l /\ Z.of_nat (length l) + sz <= b_cap b'.
Proof.
  intros Hb Hsz Hl. pose proof Hb as [Hp Hs (rest & Hm) Hc Hpos]. unfold LIMIT in Hl. unfold bson_reserve. rewrite Hs, Hp. rewrite (i32_small (_ + sz)) by (unfold is_i32; lia).
  case_bool_decide as Hfit; [by exists b|].
  destruct (cap_loop_spec 33 (b_cap b) (Z.of_nat (length l) + sz)) as (c & Hcap & Hr); [lia|unfold LIMIT; lia|lia|]. step_with Hcap.
  assert (Hold : exists old rest', (if b_own b then read_bytes (b_mem b) 0 (Z.of_nat (length l)) else Ret (drop (Z.to_nat 0) (b_mem b))) = Ret old /\
    old = l ++ rest' /\ Z.of_nat (length old) <= b_cap b).
  { rewrite Hc, Hm, length_app. destruct (b_own b).
    - exists l, []. rewrite app_nil_r, read_prefix by done. split; [done|]. split; [done|lia].
    - exists (l ++ rest), rest. split; [done|]. split; [done|len_lia]. }
  destruct Hold as (old & rest' & -> & Hold & Hlen). rewrite bind_Ret. eexists. split; [done|]. split; [|cbn; lia].
  split; cbn; [done|done| |len_lia|lia]. exists (rest' ++ replicate (Z.to_nat c - length old) junk). by rewrite Hold, <- app_assoc.
Qed.

(** Storing behind the content, and counting it. *)
Lemma store_spec b l x n : holds b l -> n = Z.of_nat (length x) -> Z.of_nat (length l) + n <= b_cap b -> Z.of_nat (length l) + n < LIMIT ->
  writes (b ← store b (b_size b) x; Ret (grow n b)) (l ++ x).
Proof.
  intros [Hp Hs (rest & Hm) Hc Hpos] -> Hcap Hl. unfold LIMIT in Hl. unfold store. rewrite Hs, Hp, Hm. rewrite Hc, Hm, length_app in Hcap.
  rewrite write_append by lia. rewrite !bind_Ret. eexists. split; [done|]. split; cbn; [done| | | |done].
  - rewrite i32_small by (unfold is_i32; lia). len_lia.
  - by eexists.
  - rewrite Hc, Hm. len_lia.
Qed.

Lemma store_store b off x y n : 0 <= b_ptr b + off -> n = Z.of_nat (length x) -> b_ptr b + off + n + Z.of_nat (length y) <= Z.of_nat (length (b_mem b)) ->
  (b ← store b off x; store b (off + n) y) = store b off (x ++ y).
Proof.
  intros H0 -> Hl. unfold store, write_bytes. rewrite decide_True by lia. rewrite !bind_Ret. cbn [b_mem b_ptr b_size b_cap b_own].
  rewrite decide_True by len_lia. rewrite decide_True by len_lia. rewrite !bind_Ret. do 2 f_equal.
  set (p := Z.to_nat (b_ptr b + off)) in *. replace (Z.to_nat (b_ptr b + (off + Z.of_nat (length x)))) with (p + length x)%nat by lia.
  assert (Hp : length (take p (b_mem b)) = p) by len_lia.
  set (T := take p (b_mem b)) in *. assert (E1 : take (p + length x) (T ++ x ++ drop (p + length x) (b_mem b)) = T ++ x).
  { rewrite app_assoc, take_app_length'; [done|]. len_lia. }
  assert (E2 : drop (p + length x + length y) (T ++ x ++ drop (p + length x) (b_mem b)) = drop (p + length (x ++ y)) (b_mem b)).
  { rewrite app_assoc, drop_app_ge by len_lia. rewrite drop_drop. f_equal. len_lia. }
  by rewrite E1, E2, <- !app_assoc.
Qed.

Lemma block_spec b l x n : holds b l -> n = Z.of_nat (length x) -> Z.of_nat (length l) + n < LIMIT ->
  writes (b ← bson_reserve junk b n; b ← store b (b_size b) x; Ret (grow n b)) (l ++ x).
Proof.
  intros Hb Hn Hl. destruct (reserve_spec b l n Hb ltac:(lia) Hl) as (b1 & Hr & Hb1 & Hcap). step_with Hr. by apply store_spec.
Qed.

Lemma write_byte_spec b l v : holds b l -> Z.of_nat (length l) + 1 < LIMIT -> is_byte v -> writes (write_byte junk b v) (l ++ [v]).
Proof. intros Hb Hl Hv. unfold write_byte, u8. rewrite Z.mod_small by (unfold is_byte in Hv; lia). by apply block_spec. Qed.

Lemma write_int32_spec b l v : holds b l -> Z.of_nat (length l) + 4 < LIMIT -> writes (write_int32 junk b v) (l ++ le_bytes 4 v).
Proof. intros Hb Hl. by apply block_spec. Qed.

Lemma write_int64_spec b l v : holds b l -> Z.of_nat (length l) + 8 < LIMIT -> writes (write_int64 junk b v) (l ++ le_bytes 8 v).
Proof. intros Hb Hl. by apply block_spec. Qed.

Lemma write_double_spec b l v : holds b l -> Z.of_nat (length l) + 8 < LIMIT -> writes (write_double junk b v) (l ++ le_bytes 8 v).
Proof. intros Hb Hl. by apply block_spec. Qed.

Lemma append_bytes_spec b l str from sz text : holds b l -> read_bytes str from sz = Ret text -> sz = Z.of_nat (length text) ->
  Z.of_nat (length l) + sz < LIMIT -> writes (append_bytes junk b str from sz) (l ++ text).
Proof.
  intros Hb Ht Hsz Hl. unfold append_bytes. rewrite i32_small by (unfold is_i32, LIMIT in *; lia).
  destruct (reserve_spec b l sz Hb ltac:(lia) Hl) as (b1 & Hr & Hb1 & Hcap). step_with Hr. step_with Ht. by apply store_spec.
Qed.

Lemma write_string_spec b l key from sz text : holds b l -> read_bytes key from sz = Ret text -> sz = Z.of_nat (length text) ->
  Z.of_nat (length l) + sz + 1 < LIMIT -> writes (write_string junk b key from sz) (l ++ text ++ [0]).
Proof.
  intros Hb Ht Hsz Hl. unfold write_string. rewrite i32_small by (unfold is_i32, LIMIT in *; lia).
  destruct (reserve_spec b l (sz + 1) Hb ltac:(lia) ltac:(lia)) as (b1 & Hr & Hb1 & Hcap). step_with Hr. step_with Ht.
  assert (Hs : (b ← store b1 (b_size b1) text; b ← store b (b_size b + sz) [0]; Ret (grow (sz + 1) b)) =
    (b ← store b1 (b_size b1) (text ++ [0]); Ret (grow (sz + 1) b))).
  { destruct Hb1 as [Hp Hsize _ Hc _]. rewrite <- (store_store b1 (b_size b1) text [0] sz) by (first [done | cbn; lia]).
    unfold store. by destruct (write_bytes (b_mem b1) (b_ptr b1 + b_size b1) text). }
  rewrite Hs. apply store_spec; [done|len_lia|lia|lia].
Qed.

Lemma reserve_length_spec b l : holds b l -> Z.of_nat (length l) + 4 < LIMIT ->
  exists b' x, reserve_length junk b = Ret (Z.of_nat (length l), b') /\ holds b' (l ++ x) /\ length x = 4%nat.
Proof.
  intros Hb Hl. unfold reserve_length. destruct (reserve_spec b l 4 Hb ltac:(lia) Hl) as (b1 & Hr & [Hp Hs (rest & Hm) Hc Hpos] & Hcap).
  exists (grow 4 b1), (take 4 rest). step_with Hr. rewrite (h_size _ _ Hb). split; [done|].
  assert (H4 : length (take 4 rest) = 4%nat) by (rewrite Hc, Hm in Hcap; len_lia). split; [|done]. split; cbn; [done| | |done|done].
  - rewrite Hs, i32_small by (unfold is_i32, LIMIT in *; lia). rewrite length_app. lia.
  - exists (drop 4 rest). by rewrite <- app_assoc, take_drop.
Qed.

Lemma write_length_spec b l x y v off : holds b (l ++ x ++ y) -> length x = 4%nat -> off = Z.of_nat (length l) ->
  writes (write_length b v off) (l ++ le_bytes 4 v ++ y).
Proof.
  intros [Hp Hs (rest & Hm) Hc Hpos] Hx ->. unfold write_length, store. rewrite Hp, Hm, <- !app_assoc. rewrite write_append by (first [lia | len_lia]).
  rewrite bind_Ret. eexists. split; [done|]. split; cbn -[le_bytes]; [done| | | |done].
  - rewrite Hs. len_lia.
  - exists rest. rewrite length_le_bytes, drop_app_length' by done. by rewrite <- !app_assoc.
  - rewrite Hc, Hm. len_lia.
Qed.

(** ** Fields *)

(** The zero between the two parts of a regular expression. *)
Lemma last_zero_spec pre r1 r2 post len : nonzero r2 -> len = Z.of_nat (length r1 + 1 + length r2) -> len < 2 ^ 63 ->
  forall fuel k i, i = Z.of_nat (length r2 - k) -> (k <= length r2)%nat -> (k < fuel)%nat ->
  last_zero fuel (pre ++ r1 ++ 0 :: r2 ++ post) (Z.of_nat (length pre)) len i = Ret (Z.of_nat (length r2)).
Proof.
  intros Hnz -> Hlen. induction fuel as [|fuel IH]; intros k i -> Hk Hf; [lia|]. cbn [last_zero]. rewrite bool_decide_true by lia.
  rewrite i64_small by (unfold is_i64; lia).
  replace (Z.of_nat (length r1 + 1 + length r2) - Z.of_nat (length r2 - k) - 1) with (Z.of_nat (length r1 + k)) by lia.
  rewrite (read_at_app_r pre _ _ (Z.of_nat (length r1 + k))) by lia. rewrite (read_at_app_r r1 _ _ (Z.of_nat k)) by lia.
  destruct k as [|k].
  - step_with (read_at_Some (0 :: r2 ++ post) 0 0 eq_refl). rewrite bool_decide_true by done. f_equal. lia.
  - destruct (lookup_lt_is_Some_2 r2 k) as [c Hc]; [lia|].
    step_with (read_at_Some (0 :: r2 ++ post) (S k) c (lookup_app_l_Some _ _ _ _ Hc)).
    pose proof (proj1 (Forall_lookup _ _) Hnz _ _ Hc) as Hcz. cbn beta in Hcz. rewrite bool_decide_false by done. apply (IH k); lia.
Qed.

Lemma append_key_spec b l type key sz name : holds b l -> is_byte type -> read_bytes key 0 sz = Ret name -> sz = Z.of_nat (length name) ->
  Z.of_nat (length l) + sz + 2 < LIMIT -> writes (append_key junk b type key sz) (l ++ type :: name ++ [0]).
Proof.
  intros Hb Ht Hk Hsz Hl. unfold append_key. change (l ++ type :: name ++ [0]) with (l ++ [type] ++ name ++ [0]). rewrite app_assoc.
  eapply writes_seq; [apply write_byte_spec; [done|lia|done]|]. intros b1 Hb1. eapply write_string_spec; [done..|]. len_lia.
Qed.

Lemma typed_good_byte t rest : typed_good t rest -> is_byte t.
Proof.
  unfold typed_good. intros Ht. assert (H : t = BSON_BINARY \/ t = BSON_OBJECTID \/ t = BSON_DATE \/ t = BSON_TIMESTAMP \/ t = BSON_REGEX \/
    t = BSON_MINKEY \/ t = BSON_MAXKEY \/ t = BSON_NULL \/ t = BSON_JSCODE \/ t = BSON_SYMBOL \/ t = BSON_CODEWS \/ t = BSON_DBPOINTER) by tauto.
  repeat destruct H as [-> |H]; try done. by subst.
Qed.

(** What follows the type of a string. *)
Lemma tail_read t rest : read_bytes (0 :: t :: rest) 2 (Z.of_nat (length (0 :: t :: rest)) - 2) = Ret rest.
Proof. change (0 :: t :: rest) with ([0; t] ++ rest). apply read_bytes_at; [done|len_lia]. Qed.

Lemma append_tail b l t rest : holds b l -> Z.of_nat (length l) + Z.of_nat (length rest) < LIMIT ->
  writes (append_bytes junk b (0 :: t :: rest) 2 (Z.of_nat (length (0 :: t :: rest)) - 2)) (l ++ rest).
Proof. intros Hb Hl. eapply append_bytes_spec; [done|apply tail_read|len_lia|len_lia]. Qed.

Lemma binary_spec b l t rest : holds b l -> Z.of_nat (length l) + 4 + Z.of_nat (length rest) < LIMIT ->
  writes (write_binary junk b (0 :: t :: rest) 2 (Z.of_nat (length (0 :: t :: rest)) - 2))
    (l ++ le_bytes 4 (Z.of_nat (length rest) - 1) ++ rest).
Proof.
  intros Hb Hl. unfold write_binary. destruct (reserve_length_spec b l Hb ltac:(lia)) as (b1 & x & Hr & Hb1 & Hx). step_with Hr.
  eapply writes_seq; [apply append_tail; [done|len_lia]|]. intros b2 Hb2. rewrite <- app_assoc in Hb2.
  replace (Z.of_nat (length (0 :: t :: rest)) - 2 - 1) with (Z.of_nat (length rest) - 1) by len_lia. by eapply write_length_spec.
Qed.

(** The two words of a timestamp. *)
Lemma split_words rest : length rest = 8%nat -> Bytes rest ->
  exists a c, rest = a ++ c /\ length a = 4%nat /\ length c = 4%nat /\ Bytes a /\ Bytes c.
Proof.
  intros Hr HB. exists (take 4 rest), (drop 4 rest). rewrite take_drop, length_take, length_drop.
  repeat split; [lia|lia|by apply Forall_take|by apply Forall_drop].
Qed.

Lemma timestamp_spec b l t rest : holds b l -> length rest = 8%nat -> Bytes rest -> Z.of_nat (length l) + 8 < LIMIT ->
  writes (inc ← read_bytes (0 :: t :: rest) 2 4; ts ← read_bytes (0 :: t :: rest) 6 4;
          bs ← write_int32 junk b (le_value inc); write_int32 junk bs (le_value ts)) (l ++ rest).
Proof.
  intros Hb Hr HB Hl. destruct (split_words rest Hr HB) as (a & c & -> & Ha & Hc & HBa & HBc).
  change (0 :: t :: a ++ c) with ([0; t] ++ a ++ c). assert (H2 : read_bytes ([0; t] ++ a ++ c) 2 4 = Ret a) by (apply (read_bytes_mid [0; t] a c); lia).
  step_with H2. rewrite (app_assoc [0; t] a c).
  rewrite (read_bytes_at ([0; t] ++ a) c) by len_lia. rewrite bind_Ret, (app_assoc l).
  eapply writes_seq; [apply write_int32_spec; [done|lia]|]. intros b1 Hb1. pose proof (le_bytes_le_value a HBa) as Ea. rewrite Ha in Ea. rewrite Ea in Hb1.
  pose proof (le_bytes_le_value c HBc) as Ec. rewrite Hc in Ec. rewrite <- Ec at 2. apply write_int32_spec; [done|len_lia].
Qed.

(** The two texts of a regular expression [str] lie before and behind its last zero but one. *)
Lemma regex_parts t r1 r2 str len : nonzero r2 -> str = [0; t] ++ r1 ++ 0 :: r2 ++ [0] -> len = Z.of_nat (length r1 + 1 + length r2) -> len < 2 ^ 62 ->
  last_zero (S (S (length str))) str 2 len 0 = Ret (Z.of_nat (length r2)) /\
  read_bytes str 2 (u64 (len - Z.of_nat (length r2) - 1)) = Ret r1 /\
  read_bytes str (2 + len - Z.of_nat (length r2)) (Z.of_nat (length r2)) = Ret r2.
Proof.
  intros Hz -> Hlen Hl. split; [apply (last_zero_spec [0; t] r1 r2 [0] len Hz Hlen ltac:(lia) _ (length r2)); [lia|lia|len_lia]|]. split.
  - rewrite u64_small by (unfold is_u64; lia). apply (read_bytes_mid [0; t] r1 (0 :: r2 ++ [0])). lia.
  - replace ([0; t] ++ r1 ++ 0 :: r2 ++ [0]) with ((0 :: t :: r1 ++ [0]) ++ r2 ++ [0]) by (cbn; by rewrite <- app_assoc).
    replace (2 + len - Z.of_nat (length r2)) with (Z.of_nat (length (0 :: t :: r1 ++ [0]))) by len_lia. by apply read_bytes_mid.
Qed.

Lemma regex_spec b l t r1 r2 : holds b l -> nonzero r2 -> Z.of_nat (length l) + Z.of_nat (length (r1 ++ 0 :: r2 ++ [0])) < LIMIT ->
  forall str len, str = 0 :: t :: r1 ++ 0 :: r2 ++ [0] -> len = u64 (Z.of_nat (length str) - 3) ->
  writes (i ← last_zero (S (S (length str))) str 2 len 0; bs ← write_string junk b str 2 (u64 (len - i - 1));
          write_string junk bs str (2 + len - i) i) (l ++ r1 ++ 0 :: r2 ++ [0]).
Proof.
  intros Hb Hz Hl str len Hstr Hlen0. assert (Hsl : length str = (length r1 + length r2 + 4)%nat) by (rewrite Hstr; clear; len_lia).
  assert (Hl' : Z.of_nat (length l) + Z.of_nat (length r1 + length r2 + 2) < 2 ^ 30) by (unfold LIMIT in Hl; len_lia). clear Hl.
  assert (Hlen : len = Z.of_nat (length r1 + 1 + length r2)) by (rewrite Hlen0, u64_small by (unfold is_u64; lia); lia). clear Hlen0.
  destruct (regex_parts t r1 r2 str len Hz Hstr Hlen ltac:(lia)) as (Hi & Hr1 & Hr2). step_with Hi.
  assert (Hw : u64 (len - Z.of_nat (length r2) - 1) = Z.of_nat (length r1)) by (rewrite u64_small by (unfold is_u64; lia); lia).
  replace (l ++ r1 ++ 0 :: r2 ++ [0]) with ((l ++ r1 ++ [0]) ++ r2 ++ [0]) by (rewrite <- !app_assoc; cbn; done).
  eapply writes_seq; [eapply write_string_spec; [done|exact Hr1|done|unfold LIMIT; lia]|]. intros b1 Hb1.
  eapply write_string_spec; [done|exact Hr2|done|unfold LIMIT; len_lia].
Qed.

Lemma append_typed_spec b l t rest key sz name : holds b l -> read_bytes key 0 sz = Ret name -> sz = Z.of_nat (length name) -> typed_good t rest ->
  Z.of_nat (length l) + sz + 2 + Z.of_nat (length (typed_bytes t rest)) < LIMIT ->
  writes (append_typed junk b (0 :: t :: rest) t key sz) (l ++ t :: name ++ 0 :: typed_bytes t rest).
Proof.
  intros Hb Hk Hsz Ht Hl. pose proof (typed_good_byte t rest Ht) as Hbyte.
  unfold append_typed. eapply writes_seq; [eapply append_key_spec; [done..|lia]|]. intros b1 Hb1.
  replace (l ++ t :: name ++ 0 :: typed_bytes t rest) with ((l ++ t :: name ++ [0]) ++ typed_bytes t rest) by (rewrite <- !app_assoc; cbn; by rewrite <- app_assoc).
  set (l1 := l ++ t :: name ++ [0]) in *. assert (Hl1 : Z.of_nat (length l1) + Z.of_nat (length (typed_bytes t rest)) < LIMIT) by (unfold l1; rewrite length_app; cbn [length]; rewrite length_app; cbn [length]; lia).
  clearbody l1. clear Hl Hk Hsz Hb b l.
  destruct Ht as [[-> Hr]|[[-> Hr]|[(-> & Hr & HB)|[(-> & Hr & HB)|[(-> & r1 & r2 & -> & Hr1 & Hr2)|[[Ht ->]|[[Ht Hb]|[[-> Hb]|[-> Hb]]]]]]]]].
  all: try (destruct Ht as [-> |[-> | ->]]); try (destruct Ht as [-> | ->]).
  all: revert Hl1; unfold typed_bytes; decide_types; intros Hl1.
  all: try (rewrite app_nil_r; by apply writes_ret).
  all: try (rewrite bool_decide_false by len_lia).
  all: try (apply append_tail; [done|exact Hl1]).
  - apply binary_spec; [done|len_lia].
  - change (0 :: BSON_DATE :: rest) with ([0; BSON_DATE] ++ rest). rewrite read_bytes_at by (first [done | lia]). rewrite bind_Ret.
    apply write_int64_spec; [done|len_lia].
  - apply timestamp_spec; try done. len_lia.
  - by eapply regex_spec.
Qed.

Lemma append_string_spec b l str key sz name : holds b l -> read_bytes key 0 sz = Ret name -> sz = Z.of_nat (length name) ->
  Z.of_nat (length l) + sz + 2 + Z.of_nat (length (text_bytes str)) < LIMIT ->
  writes (append_string junk b str key sz) (l ++ BSON_STRING :: name ++ 0 :: text_bytes str).
Proof.
  intros Hb Hk Hsz Hl. unfold text_bytes in *. unfold append_string. eapply writes_seq; [eapply append_key_spec; [done..|len_lia]|]. intros b1 Hb1.
  destruct (reserve_length_spec _ _ Hb1) as (b2 & x & Hr & Hb2 & Hx); [len_lia|]. step_with Hr.
  eapply writes_seq; [eapply (write_string_spec _ _ _ _ _ str); [done|by apply read_bytes_all|done|len_lia]|]. intros b3 Hb3.
  rewrite <- app_assoc in Hb3. destruct (write_length_spec b3 _ _ _ (Z.of_nat (length str) + 1) _ Hb3 Hx eq_refl) as (b4 & Hw & Hb4).
  exists b4. split; [done|]. revert Hb4. rewrite <- !app_assoc. cbn [app]. by rewrite <- !app_assoc.
Qed.

Lemma append_number_spec b l v key sz name : holds b l -> read_bytes key 0 sz = Ret name -> sz = Z.of_nat (length name) ->
  good v -> (exists z, v = BInt z) \/ (exists d, v = BReal d) ->
  Z.of_nat (length l) + sz + 2 + Z.of_nat (length (payload v)) < LIMIT ->
  writes (append_number junk b v key sz) (l ++ type_of v :: name ++ 0 :: payload v).
Proof.
  intros Hb Hk Hsz Hg Hv Hl.
  assert (Hassoc : forall t x, l ++ t :: name ++ 0 :: x = (l ++ t :: name ++ [0]) ++ x).
  { intros t x. rewrite <- app_assoc. cbn [app]. by rewrite <- app_assoc. }
  destruct Hv as [[z ->]|[d ->]]; cbn [append_number type_of payload] in *; rewrite Hassoc; rewrite length_le_bytes in Hl.
  - cbn in Hg. rewrite Z.shiftr_div_pow2 by lia. change (2 ^ 31) with 2147483648 in *.
    assert (Hsi : (i32 (z / 2147483648) = 0 \/ i32 (z / 2147483648) = -1) <-> - 2147483648 <= z < 2147483648).
    { unfold i32. split; intros H; dlia. }
    unfold int_small in *. change (2 ^ 31) with 2147483648 in *. destruct (decide (- 2147483648 <= z < 2147483648)) as [Hs|Hs].
    + rewrite !bool_decide_true in * by tauto. eapply writes_seq; [eapply append_key_spec; [done..|len_lia]|]. intros b1 Hb1.
      apply write_int32_spec; [done|len_lia].
    + rewrite !bool_decide_false in * by tauto. eapply writes_seq; [eapply append_key_spec; [done..|len_lia]|]. intros b1 Hb1.
      apply write_int64_spec; [done|len_lia].
  - eapply writes_seq; [eapply append_key_spec; [done..|len_lia]|]. intros b1 Hb1. apply write_double_spec; [done|len_lia].
Qed.

(** The name of an index of an array. *)
Lemma bson_numstr_spec i : 0 <= i -> exists str, bson_numstr i = Ret (str, Z.of_nat (length (print_int i))) /\
  read_bytes str 0 (Z.of_nat (length (print_int i))) = Ret (print_int i).
Proof.
  intros Hi. unfold bson_numstr. case_bool_decide as Hlt.
  - unfold MAX_NUMBER in Hlt. exists (print_int i ++ replicate (4 - length (print_int i)) 0). split; [|by apply read_prefix].
    assert (Hseq : seq 0 (Z.to_nat MAX_NUMBER) !! Z.to_nat i = Some (Z.to_nat i)) by (rewrite lookup_seq_lt; [done|unfold MAX_NUMBER; lia]).
    assert (H1 : read_at bson_numstrs i = Ret (print_int i ++ replicate (4 - length (print_int i)) 0)).
    { apply read_at_Z; [done|]. unfold bson_numstrs. rewrite list_lookup_fmap, Hseq. cbn -[print_int]. by rewrite Z2Nat.id. }
    assert (H2 : read_at bson_numstr_len i = Ret (Z.of_nat (length (print_int i)))).
    { apply read_at_Z; [done|]. unfold bson_numstr_len. rewrite list_lookup_fmap, Hseq. cbn -[print_int]. by rewrite Z2Nat.id. }
    step_with H1. by step_with H2.
  - exists (print_int i). split; [done|]. by apply read_bytes_all.
Qed.

(** *** Tables *)

(** What Lua says of the lengths of tables without gaps. *)
Context (rawlen : entries -> Z) (real_text : Z -> list Z).
Hypothesis sequence_length : forall es, es.*1 = KInt <$> seqZ 1 (Z.of_nat (length es)) -> rawlen es = Z.of_nat (length es).
Hypothesis strings_length : forall es, Forall string_key es.*1 -> rawlen es = 0.

Definition packed (n : nat) (v : bval) : Prop := forall b l key sz name, holds b l -> read_bytes key 0 sz = Ret name -> sz = Z.of_nat (length name) ->
  Z.of_nat (length l) + sz + 2 + Z.of_nat (length (payload v)) < LIMIT ->
  writes (append_one junk rawlen (pack_dict junk rawlen real_text n) b v key sz) (l ++ type_of v :: name ++ 0 :: payload v).

(** The keys from [k] on. *)
Lemma pack_entries_spec n isarray es : Forall (fun p => packed n p.2) es ->
  (forall i p, es !! i = Some p -> if isarray : bool then exists z, p.1 = KInt z /\ 1 <= z < 2 ^ 32 else exists s, p.1 = KStr s) ->
  forall b l, holds b l -> Z.of_nat (length l) + Z.of_nat (length (items es)) < LIMIT ->
  writes (pack_entries junk rawlen real_text (pack_dict junk rawlen real_text n) b es isarray) (l ++ items es).
Proof.
  induction 1 as [|[k v] es Hv Hes IH]; intros Hk b l Hb Hl; cbn [pack_entries].
  { unfold items. cbn. rewrite app_nil_r. by apply writes_ret. }
  unfold items in *. rewrite fmap_cons in *. cbn [concat fst snd] in *. rewrite app_assoc. unfold item in *.
  assert (Htail : forall i p, es !! i = Some p -> if isarray : bool then exists z, p.1 = KInt z /\ 1 <= z < 2 ^ 32 else exists s, p.1 = KStr s).
  { intros i p Hi. apply (Hk (S i)). exact Hi. }
  specialize (Hk 0%nat (k, v) eq_refl). cbn [fst] in Hk.
  eapply (writes_seq _ (l ++ type_of v :: key_name k ++ 0 :: payload v)); [|intros b1 Hb1; apply IH; [done|done|len_lia]].
  destruct isarray.
  - destruct Hk as (z & -> & Hz). cbn [is_number negb key_integer key_name] in *. destruct (bson_numstr_spec (z - 1)) as (str & Hs & Hr); [lia|].
    rewrite (u32_small z) by (unfold is_u32; lia). rewrite u32_small by (unfold is_u32; lia). step_with Hs. cbn beta iota.
    apply Hv; [done|done|done|len_lia].
  - destruct Hk as (s & ->). cbn [key_text key_name] in *. apply Hv; [done|by apply read_bytes_all|done|len_lia].
Qed.

(** A table that keeps its kind. *)
Lemma pack_dict_spec n es b l : Forall (fun p => packed n p.2) es -> array_keys es \/ document_keys es ->
  holds b l -> Z.of_nat (length l) + Z.of_nat (length (wrap (items es))) < LIMIT ->
  writes (pack_dict junk rawlen real_text (S n) b es (is_array es)) (l ++ wrap (items es)).
Proof.
  intros Hes Hk Hb Hl. unfold wrap in *. assert (Hsize : Z.of_nat (length l) + Z.of_nat (length (items es)) + 5 < LIMIT) by len_lia. clear Hl.
  cbn [pack_dict]. destruct (reserve_length_spec b l Hb ltac:(lia)) as (b1 & x & Hr & Hb1 & Hx). step_with Hr. cbn beta iota.
  eapply writes_seq; [apply (pack_entries_spec n _ es Hes); [|done|len_lia]|].
  { intros i [k v] Hi. destruct Hk as [Hk|Hk].
    - rewrite (is_array_keys _ Hk). destruct Hk as [_ Hk]. apply (f_equal (lookup i)) in Hk. rewrite !list_lookup_fmap, Hi in Hk. cbn in Hk.
      destruct (seqZ 1 (Z.of_nat (length es)) !! i) as [z|] eqn:Ez; [|done]. injection Hk as ->. exists z. split; [done|].
      apply lookup_seqZ in Ez as [-> Hlt]. assert (Hle : (length es <= length (items es))%nat).
      { clear. unfold items. induction es as [|[k v] es IH]; [done|]. rewrite fmap_cons. cbn [concat length]. rewrite length_app. unfold item at 1. cbn [length]. lia. }
      unfold LIMIT in *. lia.
    - rewrite (is_document_keys _ Hk). destruct Hk as [Hk _]. assert (Hin : k ∈ es.*1) by (apply list_elem_of_fmap; exists (k, v); split; [done|by eapply list_elem_of_lookup_2]).
      rewrite Forall_forall in Hk. specialize (Hk k Hin). destruct k as [| |s|]; try done. by exists s. }
  intros b2 Hb2. eapply writes_seq; [apply (write_byte_spec _ _ 0 Hb2); [len_lia|done]|]. intros b3 Hb3.
  rewrite <- !app_assoc in Hb3. rewrite (h_size _ _ Hb3), i32_small by (unfold is_i32, LIMIT in *; len_lia).
  replace (Z.of_nat (length (l ++ x ++ items es ++ [0])) - Z.of_nat (length l)) with (Z.of_nat (length (items es)) + 5) by len_lia.
  by eapply write_length_spec.
Qed.

(** The writer sees what kind of table it is. *)
Lemma table_kind es : array_keys es \/ document_keys es ->
  (if bool_decide (rawlen es > 0) then next_ends es (KInt (rawlen es)) else Ret false) = Ret (is_array es).
Proof.
  intros [Hk|Hk].
  - rewrite (is_array_keys _ Hk). destruct Hk as [Hne Hk]. rewrite (sequence_length es Hk). assert (Hn : (0 < length es)%nat) by (destruct es; [done|cbn; lia]).
    rewrite bool_decide_true by lia. unfold next_ends.
    assert (Hkey : forall i p, es !! i = Some p -> p.1 = KInt (1 + Z.of_nat i)).
    { intros i p Hi. apply (f_equal (lookup i)) in Hk. rewrite !list_lookup_fmap, Hi in Hk. cbn in Hk.
      destruct (seqZ 1 (Z.of_nat (length es)) !! i) as [z|] eqn:Ez; [|done]. apply lookup_seqZ in Ez as [-> _]. by injection Hk. }
    destruct (lookup_lt_is_Some_2 es (pred (length es))) as [p Hp]; [lia|].
    assert (Hf : list_find (fun q => q.1 = KInt (Z.of_nat (length es))) es = Some (pred (length es), p)).
    { apply list_find_Some. split; [done|]. split; [rewrite (Hkey _ _ Hp); f_equal; lia|]. intros j q Hj Hlt Hq. rewrite (Hkey _ _ Hj) in Hq. injection Hq. lia. }
    rewrite Hf. f_equal. apply bool_decide_eq_true. lia.
  - rewrite (is_document_keys _ Hk). destruct Hk as [Hk _]. rewrite (strings_length es Hk). done.
Qed.

Lemma good_packed v : forall n, good v -> (depth v <= n)%nat -> packed n v.
Proof.
  induction v as [v Hleaf|es IH] using bval_tree_ind; intros n Hg Hd b l key sz name Hb Hk Hsz Hl.
  - destruct v as [z|d|s|c|doc|es| |]; try done; [by apply append_number_spec; eauto|by apply append_number_spec; eauto| |..].
    + destruct s as [|c [|t rest]]; [by apply append_string_spec| |].
      * destruct (decide (c = 0)) as [-> |Hc]; [by apply append_string_spec|]. destruct c; try done; by apply append_string_spec.
      * destruct (decide (c = 0)) as [-> |Hc]; [apply append_typed_spec; try done|]. destruct c; try done; by apply append_string_spec.
    + cbn [append_one payload type_of] in *. replace (l ++ BSON_BOOLEAN :: name ++ [0; Z.b2z c]) with ((l ++ BSON_BOOLEAN :: name ++ [0]) ++ [Z.b2z c]).
      2: { rewrite <- !app_assoc. cbn [app]. by rewrite <- app_assoc. }
      eapply writes_seq; [eapply append_key_spec; [done..|cbn [length] in Hl; lia]|]. intros b1 Hb1. apply write_byte_spec; [done|len_lia|by destruct c].
    + by destruct (Hleaf es).
  - apply good_table in Hg as [Hkeys Hg]. destruct n as [|n]; [cbn in Hd; lia|]. pose proof (depth_table es n Hd) as Hds.
    rewrite payload_table in *. cbn [append_one type_of]. unfold append_table.
    rewrite (table_kind es Hkeys), bind_Ret.
    replace (l ++ (if is_array es then BSON_ARRAY else BSON_DOCUMENT) :: name ++ 0 :: wrap (items es))
      with ((l ++ (if is_array es then BSON_ARRAY else BSON_DOCUMENT) :: name ++ [0]) ++ wrap (items es)).
    2: { rewrite <- !app_assoc. cbn [app]. by rewrite <- app_assoc. }
    assert (Hp : Forall (fun p => packed n p.2) es).
    { rewrite Forall_forall in IH, Hg, Hds |- *. intros p Hp. by apply IH; [|apply Hg|apply Hds]. }
    eapply writes_seq; [eapply append_key_spec; [done|by destruct (is_array es)|done|done|lia]|]. intros b1 Hb1.
    apply (pack_dict_spec n es b1 _ Hp Hkeys Hb1). len_lia.
Qed.

(** The userdata of a good document is its bytes. *)
Lemma lencode_bytes n es : good (BTable es) -> document_keys es -> (depth (BTable es) <= n)%nat ->
  Z.of_nat (length (wrap (items es))) < LIMIT -> lencode junk rawlen real_text n (BTable es) = Ret (wrap (items es)).
Proof.
  intros Hg Hk Hd Hl. apply good_table in Hg as [Hkeys Hg]. destruct n as [|n]; [cbn in Hd; lia|]. pose proof (depth_table es n Hd) as Hds.
  assert (Hp : Forall (fun p => packed n p.2) es).
  { rewrite Forall_forall in Hg, Hds |- *. intros p Hp. by apply good_packed; [apply Hg|apply Hds]. }
  destruct (pack_dict_spec n es (bson_create junk) [] Hp Hkeys create_holds ltac:(cbn [length]; lia)) as (b & Hb & [Hptr Hsize (rest & Hm) _ _]).
  rewrite (is_document_keys _ Hk) in Hb. unfold lencode. step_with Hb. rewrite Hptr, Hsize, Hm. by apply read_prefix.
Qed.
End ENCODER.
