(* ===== verification/BsonRead.v ===== *)
(** * Reading BSON documents

    The decoder reads the bytes of a good document to the document; on any bytes it ends,
    and it never reads behind the block that it was given. *)
From stdpp Require Import base list gmap numbers strings.
From Stdlib Require Import ZArith Lia.
From S2P Require Import Prelude CString Bson BsonWire.

Local Open Scope Z_scope.

(** ** Reading placed bytes *)

Section READ.
Context (m : list Z).

Lemma skip_spec p sz n : 0 <= n <= sz -> sz < 2 ^ 31 -> skip n (mk_reader p sz) = mk_reader (p + n) (sz - n).
Proof. intros Hn Hs. unfold skip. cbn. by rewrite i32_small by (unfold is_i32; lia). Qed.

Lemma check_spec p sz n : n <= sz -> check_reader (mk_reader p sz) n = Ret tt.
Proof. intros Hn. unfold check_reader. cbn. by rewrite bool_decide_false by lia. Qed.

Lemma read_byte_at p sz x l : placed m p (x :: l) -> 1 <= sz < 2 ^ 31 -> read_byte m (mk_reader p sz) = Ret (x, mk_reader (p + 1) (sz - 1)).
Proof. intros Hp Hs. unfold read_byte. rewrite check_spec, bind_Ret by lia. cbn [r_ptr]. step_with (placed_byte _ _ _ _ Hp). by rewrite skip_spec by lia. Qed.

Lemma read_int32_at p sz z l : placed m p (le_bytes 4 z ++ l) -> is_i32 z -> 4 <= sz < 2 ^ 31 ->
  read_int32 m (mk_reader p sz) = Ret (z, mk_reader (p + 4) (sz - 4)).
Proof.
  intros [Hp _]%placed_app Hz Hs. unfold read_int32. rewrite check_spec, bind_Ret by lia. cbn [r_ptr]. step_with (placed_read _ _ _ 4 Hp) by done.
  rewrite skip_spec by lia. rewrite le_value_le_bytes. change (256 ^ Z.of_nat 4) with (2 ^ 32). fold (u32 z). by rewrite i32_u32, i32_small.
Qed.

Lemma read_int64_at p sz z l : placed m p (le_bytes 8 z ++ l) -> is_i64 z -> 8 <= sz < 2 ^ 31 ->
  read_int64 m (mk_reader p sz) = Ret (z, mk_reader (p + 8) (sz - 8)).
Proof.
  intros [Hp _]%placed_app Hz Hs. unfold read_int64. rewrite check_spec, bind_Ret by lia. cbn [r_ptr]. step_with (placed_read _ _ _ 8 Hp) by done.
  rewrite skip_spec by lia. rewrite le_value_le_bytes. change (256 ^ Z.of_nat 8) with (2 ^ 64). fold (u64 z). by rewrite i64_u64, i64_small.
Qed.

Lemma read_double_at p sz z l : placed m p (le_bytes 8 z ++ l) -> is_u64 z -> 8 <= sz < 2 ^ 31 ->
  read_double m (mk_reader p sz) = Ret (z, mk_reader (p + 8) (sz - 8)).
Proof.
  intros [Hp _]%placed_app Hz Hs. unfold read_double. rewrite check_spec, bind_Ret by lia. cbn [r_ptr]. step_with (placed_read _ _ _ 8 Hp) by done.
  rewrite skip_spec by lia. rewrite le_value_le_bytes. change (256 ^ Z.of_nat 8) with (2 ^ 64). by rewrite Z.mod_small.
Qed.

Lemma reader_bytes_at p sz n : 0 <= n <= sz -> sz < 2 ^ 31 -> reader_bytes (mk_reader p sz) n = Ret (p, mk_reader (p + n) (sz - n)).
Proof. intros Hn Hs. unfold reader_bytes. rewrite check_spec, bind_Ret by lia. by rewrite skip_spec by lia. Qed.

Lemma cstring_loop_spec s l : nonzero s -> forall k p sz fuel i, placed m p (s ++ 0 :: l) -> i = Z.of_nat (length s - k) -> (k <= length s)%nat ->
  Z.of_nat (length s) < sz -> (k < fuel)%nat -> cstring_loop m fuel (mk_reader p sz) i = Ret (Z.of_nat (length s)).
Proof.
  intros Hs. induction k as [|k IH]; intros p sz fuel i Hp -> Hk Hsz Hf; (destruct fuel as [|fuel]; [lia|]); cbn [cstring_loop r_size r_ptr];
    rewrite bool_decide_false by lia.
  - rewrite Nat.sub_0_r. apply placed_app in Hp as [_ Hp]. step_with (placed_byte _ _ _ _ Hp). done.
  - destruct (lookup_lt_is_Some_2 s (length s - S k)) as [c Hc]; [lia|]. pose proof (proj1 (Forall_lookup _ _) Hs _ _ Hc) as Hcz. cbn beta in Hcz.
    assert (Hp' := Hp). rewrite <- (take_drop_middle _ _ _ Hc), <- app_assoc in Hp'. apply placed_app in Hp' as [_ Hp'].
    rewrite length_take_le in Hp' by lia. cbn [app] in Hp'. step_with (placed_byte _ _ _ _ Hp'). rewrite bool_decide_false by done.
    apply (IH _ _ _ _ Hp); lia.
Qed.

Lemma read_cstring_at p sz s l : placed m p (s ++ 0 :: l) -> nonzero s -> Z.of_nat (length s) < sz < 2 ^ 31 ->
  read_cstring m (mk_reader p sz) = Ret (s, mk_reader (p + (Z.of_nat (length s) + 1)) (sz - (Z.of_nat (length s) + 1))).
Proof.
  intros Hp Hs Hsz. unfold read_cstring. pose proof (placed_length _ _ _ Hp) as [_ Hl]. rewrite length_app in Hl.
  pose proof (placed_length _ _ _ Hp) as [Hp0 _].
  step_with (cstring_loop_spec s l Hs (length s) p sz (S (length m)) 0 Hp ltac:(lia) ltac:(lia) ltac:(lia) ltac:(lia)).
  apply placed_app in Hp as [Hp _]. cbn [r_ptr]. step_with (placed_read _ _ _ _ Hp eq_refl). by rewrite skip_spec by lia.
Qed.

Lemma placed_behind p s l : placed m p (s ++ 0 :: l) -> placed m (p + (Z.of_nat (length s) + 1)) l.
Proof.
  change (0 :: l) with ([0] ++ l). rewrite app_assoc. intros [_ Hp]%placed_app. rewrite length_app in Hp. cbn [length] in Hp.
  by replace (p + Z.of_nat (length s + 1)) with (p + (Z.of_nat (length s) + 1)) in Hp by lia.
Qed.

Lemma make_object_at type p len l : placed m p l -> len = Z.of_nat (length l) -> make_object m type p len = Ret (BStr (0 :: type :: l)).
Proof. intros Hp ->. unfold make_object, addlstring. rewrite bool_decide_false by lia. by step_with (placed_read _ _ _ _ Hp eq_refl). Qed.

(** ** Values *)

Lemma le_bytes_i32 a : Bytes a -> length a = 4%nat -> le_bytes 4 (i32 (le_value a)) = a.
Proof.
  intros Ha Hl. rewrite <- (le_bytes_mod 4 (i32 _)). change (256 ^ Z.of_nat 4) with (2 ^ 32).
  assert (E : i32 (le_value a) mod 2 ^ 32 = le_value a mod 256 ^ Z.of_nat 4) by (unfold i32; change (256 ^ Z.of_nat 4) with (2 ^ 32); dlia).
  rewrite E, le_bytes_mod, <- Hl. by apply le_bytes_le_value.
Qed.

(** Two lengths that are one. *)
Lemma ret_reader (v : bval) p sz p' sz' : p = p' -> sz = sz' -> Ret (v, mk_reader p sz) = Ret (v, mk_reader p' sz').
Proof. by intros -> ->. Qed.

(** A block that begins with its length, which is kept with it. *)
Ltac solve_object := match goal with Hp : placed _ _ ((le_bytes 4 _ ++ _) ++ _) |- _ =>
  rewrite length_app, length_le_bytes in *; rewrite <- app_assoc in Hp; pose proof Hp as Hall; rewrite app_assoc in Hall;
  apply placed_app in Hall as [Hall _]; step_with (read_int32_at _ _ _ _ Hp) by (unfold is_i32; lia); cbn beta iota;
  rewrite ?i32_small by (unfold is_i32; lia); rewrite reader_bytes_at, bind_Ret by lia; cbn beta iota;
  step_with (make_object_at _ _ _ _ Hall) by (rewrite length_app, length_le_bytes; lia); apply ret_reader; lia
  end.

Lemma unpack_typed rec t rest p sz post : typed_good t rest -> placed m p (typed_bytes t rest ++ post) -> Z.of_nat (length (typed_bytes t rest)) <= sz < 2 ^ 31 ->
  unpack_value m rec t (mk_reader p sz) =
    Ret (BStr (0 :: t :: rest), mk_reader (p + Z.of_nat (length (typed_bytes t rest))) (sz - Z.of_nat (length (typed_bytes t rest)))).
Proof.
  intros Ht Hp Hsz.
  destruct Ht as [[-> Hr]|[[-> Hr]|[(-> & Hr & HB)|[(-> & Hr & HB)|[(-> & r1 & r2 & -> & Hr1 & Hr2)|[[Ht ->]|[[Ht (b & ->)]|[[-> (b & ->)]|[-> (b & -> & Hb)]]]]]]]]].
  all: try (destruct Ht as [-> |[-> | ->]]); try (destruct Ht as [-> | ->]).
  all: revert Hp Hsz; unfold typed_bytes; decide_types; intros Hp Hsz; unfold unpack_value; decide_types; cbn [r_ptr].
  - destruct rest as [|sub rest]; [done|]. rewrite <- app_assoc in Hp. replace (Z.of_nat (length (sub :: rest)) - 1) with (Z.of_nat (length rest)) in * by (cbn; lia).
    rewrite length_app, length_le_bytes in *. cbn [length] in *. step_with (read_int32_at _ _ _ _ Hp) by (unfold is_i32; lia). cbn beta iota.
    apply placed_app in Hp as [_ Hp]. rewrite length_le_bytes in Hp. cbn [app] in Hp. step_with (read_byte_at _ _ _ _ Hp) by lia. cbn beta iota.
    change (sub :: rest ++ post) with ([sub] ++ rest ++ post) in Hp. apply placed_app in Hp as [_ Hp]. apply placed_app in Hp as [Hp _]. cbn [length] in Hp.
    rewrite reader_bytes_at, bind_Ret by lia. cbn beta iota. unfold addlstring. rewrite bool_decide_false by lia.
    change (p + Z.of_nat 4) with (p + 4) in *. change (p + 4 + Z.of_nat 1) with (p + 4 + 1) in Hp. step_with (placed_read _ _ _ _ Hp eq_refl). cbn [app]. apply ret_reader; lia.
  - rewrite reader_bytes_at, bind_Ret by lia. cbn beta iota. apply placed_app in Hp as [Hp _].
    step_with (make_object_at BSON_OBJECTID p 12 rest Hp ltac:(lia)). by rewrite Hr.
  - rewrite length_le_bytes in *. pose proof (le_value_range _ HB) as Hv. rewrite Hr in Hv. change (256 ^ Z.of_nat 4) with (2 ^ 32) in Hv.
    step_with (read_int64_at _ _ _ _ Hp) by (unfold is_i64; lia). cbn beta iota. rewrite Z.quot_mul, u32_small by (unfold is_u32; lia).
    rewrite <- Hr at 1. by rewrite le_bytes_le_value.
  - destruct (split_words rest Hr HB) as (a & c & -> & Ha & Hc & HBa & HBc). rewrite <- app_assoc in Hp. rewrite length_app, Ha, Hc in *.
    rewrite <- (le_bytes_i32 a HBa Ha) in Hp. step_with (read_int32_at _ _ _ _ Hp) by (first [apply i32_range | lia]). cbn beta iota.
    apply placed_app in Hp as [_ Hp]. rewrite length_le_bytes in Hp. rewrite <- (le_bytes_i32 c HBc Hc) in Hp.
    step_with (read_int32_at _ _ _ _ Hp) by (first [apply i32_range | lia]). cbn beta iota. rewrite !le_bytes_i32 by done. apply ret_reader; lia.
  - rewrite length_app in *. cbn [length] in *. rewrite length_app in *. cbn [length] in *. rewrite <- app_assoc in Hp. cbn [app] in Hp.
    step_with (read_cstring_at _ _ _ _ Hp Hr1) by lia. cbn beta iota. change (0 :: (r2 ++ [0]) ++ post) with ([0] ++ (r2 ++ [0]) ++ post) in Hp.
    rewrite app_assoc in Hp. apply placed_app in Hp as [_ Hp]. rewrite length_app in Hp. cbn [length] in Hp. rewrite <- app_assoc in Hp. cbn [app] in Hp.
    replace (p + Z.of_nat (length r1 + 1)) with (p + (Z.of_nat (length r1) + 1)) in Hp by lia.
    step_with (read_cstring_at _ _ _ _ Hp Hr2) by lia. cbn beta iota. apply ret_reader; lia.
  - cbn [length]. apply ret_reader; lia.
  - cbn [length]. apply ret_reader; lia.
  - cbn [length]. apply ret_reader; lia.
  - solve_object.
  - solve_object.
  - solve_object.
  - solve_object.
Qed.

(** Values whose fields come one after the other in a table. *)
Lemma rawset_new {A} (es : list (bkey * A)) k v : k ∉ es.*1 -> rawset es k v = es ++ [(k, v)].
Proof.
  induction es as [|[k' v'] es IH]; intros Hk; [done|]. rewrite fmap_cons in Hk. apply not_elem_of_cons in Hk as [Hne Hk].
  cbn [rawset]. rewrite decide_False by (intros ->; by apply Hne). by rewrite IH.
Qed.

Definition unpacked (n : nat) (v : bval) : Prop := forall p sz post, placed m p (payload v ++ post) ->
  Z.of_nat (length (payload v)) <= sz < 2 ^ 31 ->
  unpack_value m (unpack_dict m n) (type_of v) (mk_reader p sz) =
    Ret (v, mk_reader (p + Z.of_nat (length (payload v))) (sz - Z.of_nat (length (payload v)))).

(** The key that is read from the name of a key. *)
Definition key_good (array : bool) (k : bkey) : Prop :=
  if array then exists z, k = KInt z /\ 1 <= z < 2 ^ 31 else string_key k.

Lemma key_read array k : key_good array k -> nonzero (key_name k) /\
  (if array then KInt (i32 (strtol10 (key_name k) + 1)) else KStr (key_name k)) = k.
Proof.
  unfold key_good. destruct array.
  - intros (z & -> & Hz). cbn [key_name]. split; [apply print_int_nonzero; lia|]. rewrite strtol10_print_int by lia.
    rewrite i32_small by (unfold is_i32; lia). f_equal. lia.
  - by destruct k.
Qed.

Lemma unpack_items_spec n array es : Forall (fun p => unpacked n p.2) es -> Forall (key_good array) es.*1 ->
  forall acc p sz fuel post, NoDup (acc.*1 ++ es.*1) -> placed m p (items es ++ post) -> sz = Z.of_nat (length (items es)) -> sz < 2 ^ 31 ->
  (length es <= fuel)%nat -> unpack_items m (unpack_dict m n) fuel array (mk_reader p sz) acc = Ret (acc ++ es).
Proof.
  induction 1 as [|[k v] es Hv Hes IH]; intros Hk acc p sz fuel post Hnd Hp -> Hsz Hf.
  { destruct fuel; cbn; by rewrite app_nil_r. }
  destruct fuel as [|fuel]; [cbn in Hf; lia|]. rewrite fmap_cons in Hk. apply Forall_cons in Hk as [Hk Hks].
  destruct (key_read array k Hk) as [Hnz Hkey]. unfold items in *. rewrite !fmap_cons in *. cbn [concat fst snd] in *. unfold item in *.
  rewrite length_app in *. cbn [length] in *. rewrite length_app in *. cbn [length] in *.
  cbn [unpack_items r_size]. rewrite bool_decide_false by lia.
  cbn [app] in Hp. step_with (read_byte_at _ _ _ _ Hp) by lia. cbn beta iota.
  match type of Hp with placed _ _ (?t :: ?l) => change (t :: l) with ([t] ++ l) in Hp end. apply placed_app in Hp as [_ Hp]. cbn [length] in Hp.
  change (Z.of_nat 1) with 1 in Hp. rewrite <- !app_assoc in Hp. cbn [app] in Hp. step_with (read_cstring_at _ _ _ _ Hp Hnz) by lia. cbn beta iota.
  apply placed_behind in Hp.
  match goal with |- context [unpack_value _ _ _ (mk_reader _ ?s)] => step_with (Hv _ s _ Hp) by lia end.
  cbn beta iota. rewrite Hkey. rewrite rawset_new.
  2: { intros Hin. apply NoDup_app in Hnd as (_ & Hnd & _). apply (Hnd k Hin). by left. }
  apply placed_app in Hp as [_ Hp]. rewrite (IH Hks (acc ++ [(k, v)]) _ _ fuel post).
  - by rewrite <- app_assoc.
  - rewrite fmap_app, <- app_assoc. exact Hnd.
  - exact Hp.
  - lia.
  - lia.
  - lia.
Qed.

Lemma array_key_good es : array_keys es -> Z.of_nat (length es) < 2 ^ 31 - 1 -> Forall (key_good true) es.*1 /\ NoDup es.*1.
Proof.
  intros [_ Hk] Hl. rewrite Hk. split.
  - apply Forall_fmap, Forall_forall. intros z Hz. apply elem_of_seqZ in Hz. exists z. split; [done|lia].
  - apply NoDup_fmap_2; [by intros a b [= ->]|apply NoDup_seqZ].
Qed.

Lemma items_length es : (length es <= length (items es))%nat.
Proof.
  unfold items. induction es as [|[k v] es IH]; [done|]. rewrite fmap_cons. cbn [concat length]. rewrite length_app. unfold item at 1. cbn [length]. lia.
Qed.

Lemma table_keys_good es : array_keys es \/ document_keys es -> Z.of_nat (length (items es)) < 2 ^ 31 - 1 ->
  Forall (key_good (is_array es)) es.*1 /\ NoDup es.*1.
Proof.
  pose proof (items_length es) as Hlen. intros [Hk|Hk] Hl.
  - rewrite (is_array_keys _ Hk). apply array_key_good; [done|lia].
  - by rewrite (is_document_keys _ Hk).
Qed.

Lemma unpack_dict_spec n es p sz post : Forall (fun p => unpacked n p.2) es -> array_keys es \/ document_keys es ->
  placed m p (wrap (items es) ++ post) -> Z.of_nat (length (wrap (items es))) <= sz < 2 ^ 31 ->
  unpack_dict m (S n) (mk_reader p sz) (is_array es) =
    Ret (es, mk_reader (p + Z.of_nat (length (wrap (items es)))) (sz - Z.of_nat (length (wrap (items es))))).
Proof.
  intros Hes Hk Hp Hsz. unfold wrap in *. rewrite !length_app, length_le_bytes in *. cbn [length] in *. rewrite <- !app_assoc in Hp.
  destruct (table_keys_good es Hk ltac:(lia)) as [Hgood Hnd]. cbn [unpack_dict].
  step_with (read_int32_at _ _ _ _ Hp) by (unfold is_i32; lia). cbn beta iota. rewrite Z.add_simpl_r, i32_small by (unfold is_i32; lia).
  rewrite reader_bytes_at, bind_Ret by lia. cbn beta iota. apply placed_app in Hp as [_ Hp]. rewrite length_le_bytes in Hp. change (Z.of_nat 4) with 4 in Hp.
  pose proof Hp as Hend. apply placed_app in Hend as [_ Hend]. cbn [app] in Hend. step_with (read_byte_at _ _ _ _ Hend) by lia. cbn beta iota.
  rewrite bool_decide_false by (intros H; by apply H). cbn [r_size]. pose proof (items_length es) as Hlen.
  rewrite (unpack_items_spec n (is_array es) es Hes Hgood [] (p + 4) _ _ _ Hnd Hp eq_refl) by lia. rewrite bind_Ret. cbn [app].
  do 2 f_equal. f_equal; lia.
Qed.

Lemma good_unpacked v : forall n, good v -> (depth v <= n)%nat -> unpacked n v.
Proof.
  induction v as [v Hleaf|es IH] using bval_tree_ind; intros n Hg Hd p sz post Hp Hsz.
  - destruct v as [z|d|s|c|doc|es| |]; try done.
    + cbn [type_of payload good] in *. destruct (int_small z) eqn:Es; rewrite length_le_bytes in *; unfold unpack_value; decide_types.
      * apply bool_decide_eq_true in Es. by step_with (read_int32_at _ _ _ _ Hp).
      * by step_with (read_int64_at _ _ _ _ Hp) by (first [unfold is_i64; lia | lia]).
    + cbn [type_of payload good] in *. rewrite length_le_bytes in *. unfold unpack_value. decide_types. by step_with (read_double_at _ _ _ _ Hp).
    + assert (Htext : forall s, placed m p (text_bytes s ++ post) -> Z.of_nat (length (text_bytes s)) <= sz < 2 ^ 31 ->
        unpack_value m (unpack_dict m n) BSON_STRING (mk_reader p sz) =
          Ret (BStr s, mk_reader (p + Z.of_nat (length (text_bytes s))) (sz - Z.of_nat (length (text_bytes s))))).
      { clear s Hg Hd Hp Hsz Hleaf. intros s Hp Hsz. unfold text_bytes in *. rewrite !length_app, length_le_bytes in *. cbn [length] in *. rewrite <- !app_assoc in Hp.
        unfold unpack_value. decide_types. step_with (read_int32_at _ _ _ _ Hp) by (unfold is_i32; lia). cbn beta iota. rewrite bool_decide_false by lia.
        rewrite reader_bytes_at, bind_Ret by lia. cbn beta iota. apply placed_app in Hp as [_ Hp]. rewrite length_le_bytes in Hp.
        apply placed_app in Hp as [Hp _]. rewrite Z.add_simpl_r. change (Z.of_nat 4) with 4 in *. step_with (placed_read _ _ _ _ Hp eq_refl). apply ret_reader; lia. }
      destruct s as [|c [|t rest]]; [by apply Htext|destruct c; by apply Htext|].
      destruct (decide (c = 0)) as [-> |Hc]; [by eapply unpack_typed|]. destruct c; try done; by apply Htext.
    + cbn [type_of payload] in *. cbn [length app] in *. unfold unpack_value. decide_types. step_with (read_byte_at _ _ _ _ Hp) by lia. cbn beta iota. by destruct c.
    + by destruct (Hleaf es).
  - apply good_table in Hg as [Hkeys Hg]. destruct n as [|n]; [cbn in Hd; lia|]. pose proof (depth_table es n Hd) as Hds.
    assert (Hu : Forall (fun p => unpacked n p.2) es).
    { rewrite Forall_forall in IH, Hg, Hds |- *. intros q Hq. by apply IH; [|apply Hg|apply Hds]. }
    rewrite payload_table in *. unfold unpack_value. cbn [type_of]. pose proof (unpack_dict_spec n es p sz post Hu Hkeys Hp Hsz) as Hr.
    destruct (is_array es); decide_types; by step_with Hr.
Qed.
End READ.

(** ** Documents *)

Lemma depth_payload v : good v -> (depth v <= length (payload v))%nat.
Proof.
  induction v as [v Hleaf|es IH] using bval_tree_ind; intros Hg.
  - destruct v as [| | | | |es| |]; cbn [depth]; try lia. by destruct (Hleaf es).
  - apply good_table in Hg as [_ Hg]. rewrite payload_table. unfold wrap. rewrite !length_app, length_le_bytes.
    assert (Hd : (depth (BTable es) <= S (length (items es)))%nat); [|cbn [length]; lia].
    cbn [depth]. apply le_n_S. unfold items. induction es as [|[k v] es IHes]; [done|].
    apply Forall_cons in IH as [IHv IH]. apply Forall_cons in Hg as [Hv Hg]. specialize (IHes IH Hg). specialize (IHv Hv). cbn [snd] in *.
    rewrite fmap_cons. cbn [concat fst snd]. rewrite length_app. unfold item at 1. cbn [length]. rewrite length_app. cbn [length]. lia.
Qed.

Lemma get_length_wrap l rest : Z.of_nat (length (wrap l)) < 2 ^ 31 -> get_length (wrap l ++ rest) = Ret (Z.of_nat (length (wrap l))).
Proof.
  unfold wrap. rewrite !length_app, length_le_bytes. cbn [length]. intros Hl. unfold get_length. rewrite <- !app_assoc.
  assert (Hp : placed (le_bytes 4 (Z.of_nat (length l) + 5) ++ l ++ [0] ++ rest) 0 (le_bytes 4 (Z.of_nat (length l) + 5))) by (exists [], (l ++ [0] ++ rest); by split).
  step_with (placed_read _ _ _ 4 Hp) by done. rewrite le_value_le_bytes. change (256 ^ Z.of_nat 4) with (2 ^ 32).
  rewrite Z.mod_small, i32_small by (unfold is_i32; lia). f_equal. lia.
Qed.

Lemma ldecode_bytes es rest : good (BTable es) -> document_keys es -> Z.of_nat (length (wrap (items es))) < LIMIT ->
  ldecode (wrap (items es) ++ rest) = Ret es.
Proof.
  intros Hg Hk Hl. unfold LIMIT in Hl. unfold ldecode. step_with (get_length_wrap (items es) rest ltac:(lia)). set (m := wrap (items es) ++ rest).
  pose proof (depth_payload _ Hg) as Hd. rewrite payload_table in Hd. apply good_table in Hg as [Hkeys Hg].
  set (n := length (wrap (items es))) in *. assert (Hds := depth_table es n ltac:(lia)).
  assert (Hu : Forall (fun p => unpacked m n p.2) es).
  { rewrite Forall_forall in Hg, Hds |- *. intros q Hq. by apply good_unpacked; [apply Hg|apply Hds]. }
  assert (Hp : placed m 0 (wrap (items es) ++ rest)) by (exists [], []; by rewrite app_nil_r).
  rewrite Nat2Z.id. pose proof (unpack_dict_spec m n es 0 (Z.of_nat n) rest Hu Hkeys Hp ltac:(unfold n; lia)) as Hr.
  rewrite (is_document_keys _ Hk) in Hr. by step_with Hr.
Qed.

(** C31: A document - a table with distinct string keys without zeros - of integers, floats,
    booleans, strings, typed strings (binary data, object ids, dates, timestamps, regular
    expressions and the others, each of the shape its type asks for, [typed_good]) and tables
    of those, whose keys are again strings or count from 1, is encoded, however often the
    buffer grows, if its bytes are less than 2^30; and the decoder gives the same table back,
    whatever follows the document in memory.  The integers are those the writer tells apart,
    from -2^63 + 2^31 to below 2^63 - 2^31 ([extreme_integers] shows the others). *)
Theorem bson_roundtrip junk rawlen real_text n es rest :
  (forall es, es.*1 = KInt <$> seqZ 1 (Z.of_nat (length es)) -> rawlen es = Z.of_nat (length es)) ->
  (forall es, Forall string_key es.*1 -> rawlen es = 0) ->
  good (BTable es) -> document_keys es -> (depth (BTable es) <= n)%nat -> Z.of_nat (length (payload (BTable es))) < LIMIT ->
  exists doc, lencode junk rawlen real_text n (BTable es) = Ret doc /\ ldecode (doc ++ rest) = Ret es /\
    get_length doc = Ret (Z.of_nat (length doc)).
Proof.
  intros H1 H2 Hg Hk Hd Hl. rewrite payload_table in Hl. exists (wrap (items es)). split; [by apply lencode_bytes|]. split; [by apply ldecode_bytes|].
  rewrite <- (app_nil_r (wrap _)) at 1. apply get_length_wrap. unfold LIMIT in Hl. lia.
Qed.

(** The number of integer keys: the length of a table without gaps. *)
Definition count_integers (es : entries) : Z := foldr (fun p n => match p.1 with KInt _ => n + 1 | _ => n end) 0 es.

Definition demo_document : entries :=
  [(KStr [97], BInt 5); (KStr [98], BInt (-2 ^ 40)); (KStr [99], BTable [(KInt 1, BBool true); (KInt 2, BStr [0; 5; 0; 1; 2; 3])]);
   (KStr [], BTable []); (KStr [100], BStr [0; 11; 97; 0; 98; 0]); (KStr [101], BStr [0; 9; 1; 2; 3; 4]); (KStr [102], BReal 77);
   (KStr [103], BStr [104; 105]); (KStr [104], BStr [0; 10])].

Lemma count_sequence es : es.*1 = KInt <$> seqZ 1 (Z.of_nat (length es)) -> count_integers es = Z.of_nat (length es).
Proof.
  intros Hk. assert (Hall : Forall (fun k => exists z, k = KInt z) es.*1) by (rewrite Hk; apply Forall_fmap, Forall_forall; intros z _; by exists z).
  clear Hk. induction es as [|[k v] es IH]; [done|]. apply Forall_cons in Hall as [[z Hz] Hall]. cbn in Hz. subst k. change (count_integers ((KInt z, v) :: es)) with (count_integers es + 1). rewrite (IH Hall). cbn [length]. lia.
Qed.

Lemma count_strings es : Forall string_key es.*1 -> count_integers es = 0.
Proof. induction es as [|[k v] es IH]; [done|]. intros [Hk Hes]%Forall_cons. destruct k; try done. by apply IH. Qed.

Lemma demo_good : good (BTable demo_document) /\ document_keys demo_document.
Proof.
  assert (Hk : document_keys demo_document) by (split; [repeat constructor; done|apply (bool_decide_unpack _); vm_compute; exact I]).
  split; [|done]. apply good_table. split; [by right|]. unfold demo_document. repeat apply Forall_cons_2; cbn [snd]; try done.
  - apply good_table. split; [left; by split|]. repeat apply Forall_cons_2; try done. left. by split.
  - apply good_table. split; [right; split; constructor|constructor].
  - right; right; right; right; left. split; [done|]. exists [97], [98]. repeat split; repeat constructor; done.
  - right; right; left. split; [done|]. split; [done|]. repeat constructor; done.
  - do 5 right. left. by split; [right; right|].
Qed.

Lemma bson_roundtrip_witness : exists doc, lencode 85 count_integers (fun _ => []) 2 (BTable demo_document) = Ret doc /\
  ldecode (doc ++ [1; 2; 3]) = Ret demo_document /\ get_length doc = Ret (Z.of_nat (length doc)).
Proof.
  apply bson_roundtrip; [exact count_sequence|exact count_strings|exact (proj1 demo_good)|exact (proj2 demo_good)|cbn; lia|by vm_compute].
Defined.

(** ** Ordered documents *)

(** The arguments of [lencode_order] for fields in an order. *)
Definition flat_args (fs : list (list Z * bval)) : list bval := fs ≫= fun f => [BStr f.1; f.2].

Lemma pack_pairs_entries junk rawlen real_text n fs : forall b,
  pack_pairs junk rawlen real_text n b (flat_args fs) =
  pack_entries junk rawlen real_text (pack_dict junk rawlen real_text n) b ((fun f => (KStr f.1, f.2)) <$> fs) false.
Proof.
  induction fs as [|[k v] fs IH]; intros b; [done|]. rewrite fmap_cons. change (flat_args ((k, v) :: fs)) with (BStr k :: v :: flat_args fs).
  cbn [pack_pairs pack_entries arg_text key_text fst snd]. match goal with |- context [append_one ?a ?b ?c ?d ?e ?f ?g] => destruct (append_one a b c d e f g) end; [|done|done]. apply IH.
Qed.

(** Fields that are given in an order are encoded as the table whose traversal has that
    order, errors included: the two encoders agree. *)
Theorem order_agrees junk rawlen real_text n fs :
  lencode_order junk rawlen real_text n (flat_args fs) =
  lencode junk rawlen real_text (S n) (BTable ((fun f => (KStr f.1, f.2)) <$> fs)).
Proof.
  unfold lencode_order. assert (Hl : Z.of_nat (length (flat_args fs)) mod 2 = 0).
  { induction fs as [|f fs IH]; [done|]. change (length (flat_args (f :: fs))) with (S (S (length (flat_args fs)))). dlia. }
  rewrite Hl, bool_decide_false by (intros H; by apply H). unfold lencode, pack_ordered_dict. cbn [pack_dict].
  destruct (reserve_length _ _) as [[len b]| |]; [|done|done]. rewrite !bind_Ret. by rewrite pack_pairs_entries.
Qed.
