(* ===== verification/BsonSafe.v ===== *)
(** * The BSON reader on any bytes

    Decoding ends for any bytes, and what it answers does not depend on what lies behind
    the document: every read is below its end.  A negative length inside a document can
    make it read before its begin, and can keep the index in its loop. *)
From stdpp Require Import base list gmap numbers strings.
From Stdlib Require Import ZArith Lia.
From S2P Require Import Prelude CString Bson BsonWire BsonRead.

Local Open Scope Z_scope.

(** ** Two runs side by side *)

Section SAFE.
Context (m rest : list Z).

Definition ends {A} (o : outcome A) : Prop := o <> Crash OutOfFuel.

(** A reader with at most [k] bytes left, which end in [m]. *)
Definition within (k : Z) (r : bson_reader) : Prop :=
  r_size r <= k /\ r_size r < 2 ^ 31 /\ r_ptr r + r_size r <= Z.of_nat (length m).

(** The run in [m ++ rest] is the run in [m], and leaves [k] bytes or less. *)
Definition safe {A} (k : Z) (o' o : outcome (A * bson_reader)) : Prop :=
  o' = o /\ ends o /\ forall a r, o = Ret (a, r) -> within k r.

Lemma alike_seq {A B} k k' (o' o : outcome (A * bson_reader)) (f' f : A -> bson_reader -> outcome (B * bson_reader)) :
  safe k o' o -> (forall a r, o = Ret (a, r) -> within k r -> safe k' (f' a r) (f a r)) ->
  safe k' ('(a, r) ← o'; f' a r) ('(a, r) ← o; f a r).
Proof.
  intros (-> & He & Hr) Hf. destruct o as [[a r]| |c].
  - rewrite !bind_Ret. apply Hf; [done|by eapply Hr].
  - by split; [|split].
  - split; [done|]. split; [|done]. intros [= ->]. by apply He.
Qed.

Lemma safe_pure {A B} k' (o' o : outcome A) (f' f : A -> outcome (B * bson_reader)) :
  o' = o -> ends o -> (forall a, o = Ret a -> safe k' (f' a) (f a)) -> safe k' (a ← o'; f' a) (a ← o; f a).
Proof.
  intros -> He Hf. destruct o as [a| |c].
  - rewrite !bind_Ret. by apply Hf.
  - by split; [|split].
  - split; [done|]. split; [|done]. intros [= ->]. by apply He.
Qed.

Definition same {A} (o' o : outcome A) : Prop := o' = o /\ ends o.

Lemma same_bind {A B} k (o' o : outcome (A * bson_reader)) (f' f : A -> bson_reader -> outcome B) :
  safe k o' o -> (forall a r, o = Ret (a, r) -> within k r -> same (f' a r) (f a r)) ->
  same ('(a, r) ← o'; f' a r) ('(a, r) ← o; f a r).
Proof.
  intros (-> & He & Hr) Hf. destruct o as [[a r]| |c].
  - rewrite !bind_Ret. apply Hf; [done|by eapply Hr].
  - by split.
  - split; [done|]. intros [= ->]. by apply He.
Qed.

Lemma safe_raise {A} k e : safe (A := A) k (Raise e) (Raise e).
Proof. by split; [|split]. Qed.

Lemma alike_ret {A} k (a : A) r : within k r -> safe k (Ret (a, r)) (Ret (a, r)).
Proof. intros Hr. split; [done|]. split; [done|]. by intros a' r' [= <- <-]. Qed.

Lemma within_le k k' r : k <= k' -> within k r -> within k' r.
Proof. intros Hk (H1 & H2 & H3). repeat split; lia. Qed.

(** *** The reads *)

Lemma read_at_front i : i < Z.of_nat (length m) -> read_at (m ++ rest) i = read_at m i.
Proof. intros Hi. unfold read_at. case_decide; [|done]. rewrite lookup_app_l; [done|lia]. Qed.

Lemma read_bytes_front p n : p + n <= Z.of_nat (length m) -> read_bytes (m ++ rest) p n = read_bytes m p n.
Proof.
  intros Hn. unfold read_bytes. rewrite length_app. destruct (decide (0 <= p /\ 0 <= n /\ p + n <= Z.of_nat (length m))) as [H|H].
  - rewrite decide_True by lia. f_equal. rewrite drop_app_le by lia. apply take_app_le. rewrite length_drop. lia.
  - rewrite decide_False by lia. done.
Qed.

Lemma read_bytes_ends l p n : ends (read_bytes l p n).
Proof. unfold ends, read_bytes. by case_decide. Qed.

Lemma read_at_ends {A} (l : list A) i : ends (read_at l i).
Proof. unfold ends, read_at. case_decide; [by case_match|done]. Qed.

(** Taking [n] bytes, where [n] may be below zero. *)
Lemma within_skip k n r : within k r -> n <= r_size r -> - 2 ^ 31 <= n -> within (k - n) (skip n r).
Proof. intros (H1 & H2 & H3) Hn Hl. unfold within, skip, i32. cbn. repeat split; dlia. Qed.

Lemma check_cases r n : (check_reader r n = Ret tt /\ n <= r_size r) \/ exists e, check_reader r n = Raise e.
Proof. unfold check_reader. case_bool_decide; [right; by eexists|left; split; [done|lia]]. Qed.

(** A read of [n] bytes behind a check. *)
Lemma safe_read {A} k n r (o' o : outcome A) (f : A -> A) : within k r -> 0 <= n < 2 ^ 31 -> (n <= r_size r -> o' = o) -> ends o ->
  safe (k - n) (_ ← check_reader r n; b ← o'; Ret (f b, skip n r)) (_ ← check_reader r n; b ← o; Ret (f b, skip n r)).
Proof.
  intros Hr Hn Ho He. destruct (check_cases r n) as [[-> Hle]|[e ->]]; [|apply safe_raise]. rewrite !bind_Ret.
  apply safe_pure; [by apply Ho|done|]. intros a _. apply alike_ret. apply within_skip; [done|done|lia].
Qed.

Local Abbreviation m' := (m ++ rest).

Lemma read_byte_safe k r : within k r -> safe (k - 1) (read_byte m' r) (read_byte m r).
Proof.
  intros Hr. apply (safe_read k 1 r _ _ (fun x => x)); [done|lia| |apply read_at_ends]. intros Hle. apply read_at_front. destruct Hr as (_ & _ & H). lia.
Qed.

Lemma read_int32_safe k r : within k r -> safe (k - 4) (read_int32 m' r) (read_int32 m r).
Proof.
  intros Hr. unfold read_int32. destruct (check_cases r 4) as [[-> Hle]|[e ->]]; [|apply safe_raise]. rewrite !bind_Ret.
  apply safe_pure; [apply read_bytes_front; destruct Hr as (_ & _ & H); lia|apply read_bytes_ends|]. intros a _.
  apply alike_ret. apply within_skip; [done|done|lia].
Qed.

Lemma read_int64_safe k r : within k r -> safe (k - 8) (read_int64 m' r) (read_int64 m r).
Proof.
  intros Hr. unfold read_int64. destruct (check_cases r 8) as [[-> Hle]|[e ->]]; [|apply safe_raise]. rewrite !bind_Ret.
  apply safe_pure; [apply read_bytes_front; destruct Hr as (_ & _ & H); lia|apply read_bytes_ends|]. intros a _.
  apply alike_ret. apply within_skip; [done|done|lia].
Qed.

Lemma read_double_safe k r : within k r -> safe (k - 8) (read_double m' r) (read_double m r).
Proof.
  intros Hr. unfold read_double. destruct (check_cases r 8) as [[-> Hle]|[e ->]]; [|apply safe_raise]. rewrite !bind_Ret.
  apply safe_pure; [apply read_bytes_front; destruct Hr as (_ & _ & H); lia|apply read_bytes_ends|]. intros a _.
  apply alike_ret. apply within_skip; [done|done|lia].
Qed.

Lemma reader_bytes_safe k r n : within k r -> - 2 ^ 31 <= n -> safe (k - n) (reader_bytes r n) (reader_bytes r n).
Proof.
  intros Hr Hn. unfold reader_bytes. destruct (check_cases r n) as [[-> Hle]|[e ->]]; [|apply safe_raise]. rewrite !bind_Ret.
  apply alike_ret. by apply within_skip.
Qed.

(** What a read answers. *)
Lemma reader_bytes_inv r n p r' : reader_bytes r n = Ret (p, r') -> p = r_ptr r /\ n <= r_size r /\ r' = skip n r.
Proof. unfold reader_bytes. destruct (check_cases r n) as [[-> Hle]|[e ->]]; [|done]. rewrite bind_Ret. by intros [= <- <-]. Qed.

Lemma read_int32_inv l r v r' : read_int32 l r = Ret (v, r') -> is_i32 v /\ 4 <= r_size r /\ r' = skip 4 r.
Proof.
  unfold read_int32. destruct (check_cases r 4) as [[-> Hle]|[e ->]]; [|done]. rewrite bind_Ret. destruct (read_bytes l _ _) as [b| |]; try done.
  rewrite bind_Ret. intros [= <- <-]. split; [apply i32_range|done].
Qed.

Lemma read_byte_inv l r v r' : read_byte l r = Ret (v, r') -> 1 <= r_size r /\ r' = skip 1 r.
Proof.
  unfold read_byte. destruct (check_cases r 1) as [[-> Hle]|[e ->]]; [|done]. rewrite bind_Ret. destruct (read_at l _) as [b| |]; try done.
  rewrite bind_Ret. by intros [= <- <-].
Qed.

(** Both loops over a string come to its end, or to the end of the bytes. *)
Lemma cstring_loop_safe r fuel : forall fuel' i, 0 <= i <= r_size r -> r_ptr r + r_size r <= Z.of_nat (length m) ->
  Z.of_nat (length m) - (r_ptr r + i) < Z.of_nat fuel \/ r_ptr r + i < 0 -> (0 < fuel)%nat -> (fuel <= fuel')%nat ->
  cstring_loop m' fuel' r i = cstring_loop m fuel r i /\ ends (cstring_loop m fuel r i) /\ forall j, cstring_loop m fuel r i = Ret j -> i <= j < r_size r.
Proof.
  induction fuel as [|fuel IH]; intros fuel' i Hi Hl Hf Hpos Hle; [lia|]. destruct fuel' as [|fuel']; [lia|]. cbn [cstring_loop].
  case_bool_decide as He; [by split; [|split]|]. rewrite read_at_front by lia. destruct (read_at m (r_ptr r + i)) as [c| |e] eqn:Er.
  - rewrite !bind_Ret. apply read_at_lt in Er. case_bool_decide; [split; [done|]; split; [done|]; intros j [= <-]; lia|].
    destruct (IH fuel' (i + 1)) as (H1 & H2 & H3); [lia|done|lia|lia|lia|]. split; [done|]. split; [done|]. intros j Hj. specialize (H3 j Hj). lia.
  - by split; [|split].
  - split; [done|]. split; [|done]. pose proof (read_at_ends m (r_ptr r + i)) as Hne. rewrite Er in Hne. intros [= ->]. by apply Hne.
Qed.

Lemma read_cstring_safe k r : within k r -> 0 <= r_size r -> safe (k - 1) (read_cstring m' r) (read_cstring m r) /\
  forall s r', read_cstring m r = Ret (s, r') -> 0 <= r_size r'.
Proof.
  intros Hr H0. pose proof Hr as (_ & H2 & H3). unfold read_cstring. destruct (cstring_loop_safe r (S (length m)) (S (length m')) 0) as (He & Hn & Hj);
    [lia|done|lia|lia|rewrite length_app; lia|]. rewrite He. split.
  - apply safe_pure; [done|done|]. intros i Hi. specialize (Hj i Hi). apply safe_pure; [apply read_bytes_front; lia|apply read_bytes_ends|]. intros s _.
    apply alike_ret. eapply within_le; [|apply within_skip; [done|lia|lia]]. lia.
  - intros s r' Hs. destruct (cstring_loop m _ r 0) as [i| |] eqn:Ei; try done. rewrite bind_Ret in Hs. specialize (Hj i eq_refl).
    destruct (read_bytes m _ i) as [t| |]; try done. rewrite bind_Ret in Hs. injection Hs as _ <-. unfold skip. cbn. rewrite i32_small by (unfold is_i32; lia). lia.
Qed.

Lemma addlstring_safe b p n : p + n <= Z.of_nat (length m) -> addlstring m' b p n = addlstring m b p n.
Proof. intros Hn. unfold addlstring. case_bool_decide; [done|]. by rewrite read_bytes_front. Qed.

Lemma addlstring_ends l b p n : ends (addlstring l b p n).
Proof.
  unfold addlstring. case_bool_decide; [done|]. pose proof (read_bytes_ends l p n) as He. unfold ends in *. by destruct (read_bytes l p n).
Qed.

Lemma addlstring_inv l b p n x : addlstring l b p n = Ret x -> 0 <= n.
Proof. unfold addlstring. case_bool_decide; [done|lia]. Qed.

Lemma make_object_safe t p n : p + n <= Z.of_nat (length m) -> make_object m' t p n = make_object m t p n.
Proof. intros Hn. unfold make_object. by rewrite addlstring_safe. Qed.

Lemma make_object_ends l t p n : ends (make_object l t p n).
Proof. unfold make_object. pose proof (addlstring_ends l [0; t] p n) as He. unfold ends in *. destruct (addlstring l [0; t] p n); [done|done|]. intros [= ->]. by apply He. Qed.

Lemma make_object_inv l t p n x : make_object l t p n = Ret x -> 0 <= n.
Proof. unfold make_object. destruct (addlstring l [0; t] p n) eqn:E; try done. intros _. by eapply addlstring_inv. Qed.

(** *** Values and documents *)

Section RECURSION.
Context (rec' rec : bson_reader -> bool -> outcome (entries * bson_reader)) (N : Z).
Hypothesis rec_safe : forall k r a, within k r -> 0 <= r_size r -> k <= N -> safe k (rec' r a) (rec r a).

Ltac narrow := eapply within_le; [|eassumption]; lia.
Ltac by_cases := case_bool_decide.

Lemma pointer_length sz : is_i32 sz -> is_i32 (i32 (sz + 12)) /\ (0 <= i32 (sz + 16) -> -4 <= i32 (sz + 12) /\ i32 (sz + 16) = i32 (sz + 12) + 4).
Proof. intros Hsz. split; [apply i32_range|]. unfold is_i32, i32 in *. intros Hl. dlia. Qed.

Lemma code_length sz : is_i32 sz -> is_i32 sz /\ (0 <= i32 (sz + 4) -> -4 <= sz /\ i32 (sz + 4) = sz + 4).
Proof. intros Hsz. split; [done|]. unfold is_i32, i32 in *. intros Hl. dlia. Qed.

Lemma scope_length sz : is_i32 sz -> is_i32 (i32 (sz - 4)) /\ (0 <= sz -> -4 <= i32 (sz - 4) /\ sz = i32 (sz - 4) + 4).
Proof. intros Hsz. split; [apply i32_range|]. unfold is_i32, i32 in *. intros Hl. dlia. Qed.

(** A block that begins with its length: [n] more bytes are passed over, [l] are kept. *)
Lemma block_safe k t type (n l : Z -> Z) : within k t -> 0 <= r_size t ->
  (forall sz, is_i32 sz -> is_i32 (n sz) /\ (0 <= l sz -> -4 <= n sz /\ l sz = n sz + 4)) ->
  safe k ('(sz, t') ← read_int32 m' t; '(_, t') ← reader_bytes t' (n sz); o ← make_object m' type (r_ptr t) (l sz); Ret (o, t'))
         ('(sz, t') ← read_int32 m t; '(_, t') ← reader_bytes t' (n sz); o ← make_object m type (r_ptr t) (l sz); Ret (o, t')).
Proof.
  intros Ht H0 Hn. pose proof Ht as (H1 & H2 & H3). eapply alike_seq; [by apply read_int32_safe|]. intros sz t1 E1 Ht1.
  apply read_int32_inv in E1 as (Hsz & Hfour & ->). destruct (Hn sz Hsz) as [Hi Hl].
  eapply alike_seq; [apply reader_bytes_safe; [exact Ht1|apply Hi]|]. intros u t2 E2 Ht2. apply reader_bytes_inv in E2 as (_ & Hle & ->).
  unfold skip in Hle at 1. cbn [r_size] in Hle. rewrite i32_small in Hle by (unfold is_i32; lia).
  destruct (decide (0 <= l sz)) as [Hpos|Hneg].
  - destruct (Hl Hpos) as [Hn4 Hl4]. apply safe_pure; [apply make_object_safe; lia|apply make_object_ends|]. intros o _. apply alike_ret. narrow.
  - unfold make_object, addlstring. rewrite !bool_decide_true by lia. apply safe_raise.
Qed.

Lemma unpack_value_safe k bt t : within k t -> 0 <= r_size t -> k <= N -> safe k (unpack_value m' rec' bt t) (unpack_value m rec bt t).
Proof.
  intros Ht H0 Hk. pose proof Ht as (H1 & H2 & H3). unfold unpack_value.
  by_cases; [eapply alike_seq; [by apply read_double_safe|]; intros d r _ Hr; apply alike_ret; narrow|].
  by_cases; [eapply alike_seq; [by apply read_byte_safe|]; intros d r _ Hr; apply alike_ret; narrow|].
  by_cases.
  { eapply alike_seq; [by apply read_int32_safe|]. intros sz r E Hr. apply read_int32_inv in E as (Hsz & Hfour & ->).
    case_bool_decide; [apply safe_raise|]. eapply alike_seq; [apply reader_bytes_safe; [exact Hr|lia]|]. intros p r E Hr2.
    apply reader_bytes_inv in E as (-> & Hle & ->). destruct Hr as (_ & _ & Hr). apply safe_pure; [apply read_bytes_front; lia|apply read_bytes_ends|].
    intros s _. apply alike_ret. narrow. }
  by_cases; [eapply alike_seq; [by apply rec_safe|]; intros es r _ Hr; by apply alike_ret|].
  by_cases; [eapply alike_seq; [by apply rec_safe|]; intros es r _ Hr; by apply alike_ret|].
  by_cases.
  { eapply alike_seq; [by apply read_int32_safe|]. intros sz r E Hr. apply read_int32_inv in E as (Hsz & Hfour & ->).
    eapply alike_seq; [apply read_byte_safe; exact Hr|]. intros sub r E Hr1. eapply alike_seq; [apply reader_bytes_safe; [exact Hr1|apply Hsz]|].
    intros p r2 E2 Hr2. apply reader_bytes_inv in E2 as (-> & Hle & ->). destruct Hr1 as (_ & _ & Hr1).
    destruct (decide (0 <= sz)).
    - apply safe_pure; [apply addlstring_safe; lia|apply addlstring_ends|]. intros b _. apply alike_ret. narrow.
    - unfold addlstring. rewrite !bool_decide_true by lia. apply safe_raise. }
  by_cases.
  { eapply alike_seq; [apply reader_bytes_safe; [exact Ht|lia]|]. intros p r E Hr. apply reader_bytes_inv in E as (-> & Hle & ->).
    apply safe_pure; [apply make_object_safe; lia|apply make_object_ends|]. intros o _. apply alike_ret. narrow. }
  by_cases; [eapply alike_seq; [by apply read_int64_safe|]; intros d r _ Hr; apply alike_ret; narrow|].
  by_cases; [by apply alike_ret|].
  by_cases.
  { destruct (read_cstring_safe k t Ht H0) as [Hs Hp]. eapply alike_seq; [exact Hs|]. intros r1 t1 E1 Ht1.
    destruct (read_cstring_safe _ t1 Ht1 (Hp _ _ E1)) as [Hs2 _]. eapply alike_seq; [exact Hs2|]. intros r2 t2 _ Ht2. apply alike_ret. narrow. }
  by_cases; [eapply alike_seq; [by apply read_int32_safe|]; intros d r _ Hr; apply alike_ret; narrow|].
  by_cases.
  { eapply alike_seq; [by apply read_int32_safe|]. intros inc r _ Hr. eapply alike_seq; [apply read_int32_safe; exact Hr|]. intros ts r2 _ Hr2. apply alike_ret. narrow. }
  by_cases; [eapply alike_seq; [by apply read_int64_safe|]; intros d r _ Hr; apply alike_ret; narrow|].
  by_cases; [apply (block_safe k t BSON_DBPOINTER (fun sz => i32 (sz + 12)) (fun sz => i32 (sz + 16))); [done|done|exact pointer_length]|].
  by_cases; [apply (block_safe k t bt (fun sz => sz) (fun sz => i32 (sz + 4))); [done|done|exact code_length]|].
  by_cases; [apply (block_safe k t bt (fun sz => i32 (sz - 4)) (fun sz => sz)); [done|done|exact scope_length]|].
  apply safe_raise.
Qed.

Lemma unpack_items_safe fuel : forall array t es, within (r_size t) t -> r_size t <= N -> r_size t < Z.of_nat fuel -> (0 < fuel)%nat ->
  same (unpack_items m' rec' fuel array t es) (unpack_items m rec fuel array t es).
Proof.
  induction fuel as [|fuel IH]; intros array t es Ht HN Hf Hpos; [lia|]. cbn [unpack_items]. case_bool_decide; [by split|].
  eapply same_bind; [by apply read_byte_safe|]. intros bt t1 E1 Ht1. apply read_byte_inv in E1 as [Hge E1].
  assert (H1 : 0 <= r_size t1) by (rewrite E1; unfold skip; cbn; destruct Ht as (_ & Ht & _); rewrite i32_small by (unfold is_i32; lia); lia).
  destruct (read_cstring_safe _ _ Ht1 H1) as [Hs Hp]. eapply same_bind; [exact Hs|]. intros key t2 E2 Ht2. specialize (Hp _ _ E2).
  eapply same_bind; [apply unpack_value_safe; [exact Ht2|exact Hp|lia]|]. intros v t3 _ (Ha & Hb & Hc). apply IH; [by repeat split|lia|lia|lia].
Qed.
End RECURSION.

Lemma unpack_dict_safe n : forall k r array, within k r -> 0 <= r_size r -> k <= Z.of_nat n - 1 ->
  safe k (unpack_dict m' n r array) (unpack_dict m n r array).
Proof.
  induction n as [|n IH]; intros k r array Hr H0 Hk; [destruct Hr; lia|]. cbn [unpack_dict].
  eapply alike_seq; [by apply read_int32_safe|]. intros sz r1 E1 Hr1. apply read_int32_inv in E1 as (Hsz & Hge & E1).
  eapply alike_seq; [apply reader_bytes_safe; [exact Hr1|apply i32_range]|]. intros p r2 E2 Hr2. apply reader_bytes_inv in E2 as (-> & Hle & E2).
  set (size := i32 (sz - 5)) in *. eapply alike_seq; [by apply read_byte_safe|]. intros e r3 _ Hr3.
  case_bool_decide; [apply safe_raise|]. set (t := mk_reader (r_ptr r1) size).
  destruct (decide (0 <= size)) as [Hpos|Hneg].
  - destruct Hr1 as (Ha & Hb & Hc).
    assert (Ht : within (r_size t) t) by (unfold within, t; cbn; repeat split; lia).
    destruct (unpack_items_safe (unpack_dict m' n) (unpack_dict m n) (Z.of_nat n - 1) IH (S (Z.to_nat (r_size t))) array t [] Ht) as [-> He]; [cbn; lia|cbn; lia|lia|].
    apply safe_pure; [done|done|]. intros es _. apply alike_ret. eapply within_le; [|exact Hr3]. lia.
  - assert (Hraise : forall l f, unpack_items l f (S (Z.to_nat (r_size t))) array t [] = Raise "Invalid bson block (%d:%d)").
    { intros l f. cbn [unpack_items]. rewrite bool_decide_false by (cbn; lia). unfold read_byte, check_reader. by rewrite bool_decide_true by (cbn; lia). }
    rewrite !Hraise. apply safe_raise.
Qed.
End SAFE.

(** C32: Decoding ends for any bytes, hostile ones included: there is fuel enough for every
    document, however deep (the stacks are not modelled), so no loop and no recursion goes
    on for ever; and what lies
    behind the length that the document gives has no influence on the answer, so that no
    read goes beyond it. *)
Theorem bson_decode_safe m rest len : get_length m = Ret len -> len <= Z.of_nat (length m) ->
  ldecode (m ++ rest) = ldecode m /\ ldecode m <> Crash OutOfFuel.
Proof.
  intros Hg Hl. unfold ldecode. assert (Hg' : get_length (m ++ rest) = Ret len).
  { unfold get_length in *. rewrite read_bytes_front; [done|]. unfold read_bytes in Hg. case_decide; [lia|done]. }
  rewrite Hg, Hg', !bind_Ret. assert (Hi : is_i32 len) by (unfold get_length in Hg; destruct (read_bytes m 0 4); try done; injection Hg as <-; apply i32_range).
  unfold is_i32 in Hi. destruct (decide (0 <= len)) as [Hpos|Hneg].
  - destruct (unpack_dict_safe m rest (S (Z.to_nat len)) len (mk_reader 0 len) false) as (-> & He & _); [by repeat split; cbn; lia|done|lia|].
    split; [done|]. destruct (unpack_dict m _ _ _) as [[es r]| |c]; try done. intros [= ->]. by apply He.
  - assert (Hr : forall l f, unpack_dict l (S f) (mk_reader 0 len) false = Raise "Invalid bson block (%d:%d)").
    { intros l f. cbn [unpack_dict]. unfold read_int32, check_reader. by rewrite bool_decide_true by (cbn; lia). }
    rewrite !Hr. by split.
Qed.

Lemma bson_decode_safe_witness : ldecode ([13; 0; 0; 0; 16; 97; 0; 1; 0; 0; 0; 1; 0] ++ [9]) = ldecode [13; 0; 0; 0; 16; 97; 0; 1; 0; 0; 0; 1; 0] /\
  ldecode [13; 0; 0; 0; 16; 97; 0; 1; 0; 0; 0; 1; 0] <> Crash OutOfFuel.
Proof. apply (bson_decode_safe _ [9] 13); [reflexivity|cbn; lia]. Defined.

(** ** What the code does with unusual input *)

(** [int si = i >> 31] keeps the low 32 bits, so that the largest and the least integers
    look small and lose their upper half. *)
Example extreme_integers :
  (doc ← lencode 85 count_integers (fun _ => []) 1 (BTable [(KStr [97], BInt (2 ^ 63 - 1)); (KStr [98], BInt (- 2 ^ 63))]); ldecode doc) =
  Ret [(KStr [97], BInt (-1)); (KStr [98], BInt 0)].
Proof. vm_compute. reflexivity. Qed.

(** The negative length of a nested document moves the reader back to before the block. *)
Example negative_length_reads_before :
  ldecode [20; 0; 0; 0; 3; 97; 0; 0; 255; 255; 255; 0; 0; 0; 0; 0; 0; 0; 0; 0] = Crash OutOfBounds.
Proof. vm_compute. reflexivity. Qed.

(** A regular expression without a zero byte: the length of its text wraps around. *)
Example regex_without_zero : lencode 85 count_integers (fun _ => []) 1 (BTable [(KStr [97], BStr [0; 11; 98])]) = Crash OutOfBounds.
Proof. vm_compute. reflexivity. Qed.

(** The negative length of a block of code moves the reader of [lmakeindex] back to the
    field, and it passes over the field for ever; decoding the document is an error. *)
Definition looping : list Z := [17; 0; 0; 0; 13; 97; 0; 249; 255; 255; 255; 0; 0; 0; 0; 0; 0].

Example looping_decode : ldecode looping = Raise "buffer too large".
Proof. vm_compute. reflexivity. Qed.

Lemma looping_index fuel idx : index_items looping fuel (mk_reader 4 12) idx = Crash OutOfFuel.
Proof. induction fuel as [|fuel IH]; [done|]. exact IH. Qed.

Example makeindex_loops : lmakeindex looping = Crash OutOfFuel.
Proof. unfold lmakeindex. cbn. exact (looping_index _ _). Qed.
