(* ===== verification/BsonReplace.v ===== *)
(** * Replacing a field of a BSON document

    [lmakeindex] finds where the fields of a fixed size are, and [lreplace] writes a value
    of the same type there: the document is then the one with that field replaced. *)
From stdpp Require Import base list gmap numbers strings.
From Stdlib Require Import ZArith Lia.
From S2P Require Import Prelude CString Bson BsonWire BsonRead.

Local Open Scope Z_scope.

(** ** The index *)

Lemma field_size_payload v : good v -> field_size (type_of v) > 0 -> Z.of_nat (length (payload v)) = field_size (type_of v).
Proof.
  destruct v as [z|d|s|b|doc|es| |]; cbn [type_of payload good]; intros Hg Hf; try done.
  - destruct (int_small z); by rewrite length_le_bytes.
  - destruct s as [|c [|t rest]]; [done|by destruct c|]. destruct (decide (c = 0)) as [-> |Hc]; [|destruct c; done].
    destruct Hg as [[-> Hr]|[[-> Hr]|[(-> & Hr & HB)|[(-> & Hr & HB)|[(-> & r1 & r2 & -> & Hr1 & Hr2)|[[Ht ->]|[[Ht (b & ->)]|[[-> (b & ->)]|[-> (b & -> & Hb)]]]]]]]]];
      try (destruct Ht as [-> |[-> | ->]]); try (destruct Ht as [-> | ->]); try done; unfold typed_bytes, field_size; decide_types; rewrite ?length_le_bytes; lia.
  - by destruct (is_array es).
Qed.

Section INDEX.
Context (m : list Z).

(** A block that begins with its length. *)
Ltac solve_skip := match goal with Hp : placed _ _ ((le_bytes 4 _ ++ _) ++ _) |- _ =>
  rewrite ?length_app, length_le_bytes in *; cbn [length] in *; rewrite <- app_assoc in Hp;
  step_with (read_int32_at _ _ _ _ _ Hp) by (unfold is_i32; lia); cbn beta iota;
  rewrite ?i32_small by (unfold is_i32; lia); rewrite reader_bytes_at, bind_Ret by lia; cbn beta iota; f_equal; f_equal; lia
  end.

Lemma index_skip_typed t rest p sz post : typed_good t rest -> ~ field_size t > 0 -> placed m p (typed_bytes t rest ++ post) ->
  Z.of_nat (length (typed_bytes t rest)) <= sz < 2 ^ 31 ->
  index_skip m t (mk_reader p sz) =
    Ret (mk_reader (p + Z.of_nat (length (typed_bytes t rest))) (sz - Z.of_nat (length (typed_bytes t rest)))).
Proof.
  intros Ht Hf Hp Hsz.
  destruct Ht as [[-> Hr]|[[-> Hr]|[(-> & Hr & HB)|[(-> & Hr & HB)|[(-> & r1 & r2 & -> & Hr1 & Hr2)|[[Ht ->]|[[Ht (b & ->)]|[[-> (b & ->)]|[-> (b & -> & Hb)]]]]]]]]];
    try (destruct Ht as [-> |[-> | ->]]); try (destruct Ht as [-> | ->]); try (by destruct Hf);
    revert Hp Hsz; unfold typed_bytes; decide_types; intros Hp Hsz; unfold index_skip; decide_types.
  - destruct rest as [|c rest]; [done|]. solve_skip.
  - rewrite !length_app in *. cbn [length] in *. rewrite length_app in *. cbn [length] in *. rewrite <- app_assoc in Hp. cbn [app] in Hp.
    step_with (read_cstring_at m _ _ _ _ Hp Hr1) by lia. cbn beta iota. apply placed_behind in Hp. rewrite <- app_assoc in Hp. cbn [app] in Hp.
    step_with (read_cstring_at m _ _ _ _ Hp Hr2) by lia. cbn beta iota. f_equal. f_equal; lia.
  - cbn [length]. f_equal. f_equal; lia.
  - cbn [length]. f_equal. f_equal; lia.
  - cbn [length]. f_equal. f_equal; lia.
  - solve_skip.
  - solve_skip.
  - solve_skip.
  - solve_skip.
Qed.

(** What is passed over for a value. *)
Lemma index_skip_spec v p sz post : good v -> placed m p (payload v ++ post) -> Z.of_nat (length (payload v)) <= sz < 2 ^ 31 ->
  index_skip m (type_of v) (mk_reader p sz) =
    Ret (if bool_decide (field_size (type_of v) > 0) then mk_reader p sz
         else mk_reader (p + Z.of_nat (length (payload v))) (sz - Z.of_nat (length (payload v)))).
Proof.
  intros Hg Hp Hsz. destruct (decide (field_size (type_of v) > 0)) as [Hf|Hf].
  - rewrite bool_decide_true by done. unfold index_skip.
    assert (Ht : type_of v = BSON_INT64 \/ type_of v = BSON_TIMESTAMP \/ type_of v = BSON_DATE \/ type_of v = BSON_REAL \/
      type_of v = BSON_BOOLEAN \/ type_of v = BSON_OBJECTID \/ type_of v = BSON_INT32).
    { unfold field_size in Hf. repeat case_bool_decide; [tauto..|lia]. }
    repeat destruct Ht as [-> |Ht]; try (decide_types; reflexivity). rewrite Ht. decide_types. reflexivity.
  - rewrite bool_decide_false by done. destruct v as [z|d|s|b|doc|es| |]; try done.
    + cbn [type_of] in Hf. by destruct (int_small z).
    + assert (Htext : forall s, placed m p (text_bytes s ++ post) -> Z.of_nat (length (text_bytes s)) <= sz < 2 ^ 31 ->
        index_skip m BSON_STRING (mk_reader p sz) = Ret (mk_reader (p + Z.of_nat (length (text_bytes s))) (sz - Z.of_nat (length (text_bytes s))))).
      { clear s Hg Hp Hf Hsz. intros s Hp Hsz. unfold text_bytes in *. unfold index_skip. decide_types. solve_skip. }
      destruct s as [|c [|t rest]]; [by apply Htext|destruct c; by apply Htext|].
      destruct (decide (c = 0)) as [-> |Hc]; [|destruct c; try done; by apply Htext]. cbn [type_of payload good] in *. by eapply index_skip_typed.
    + rewrite payload_table in *. unfold index_skip, wrap in *. cbn [type_of]. destruct (is_array es); decide_types; solve_skip.
Qed.

Lemma type_small v : good v -> field_size (type_of v) > 0 -> 0 <= type_of v < 2 ^ 5.
Proof.
  intros _ Hf. unfold field_size in Hf. change (2 ^ 5) with 32.
  unfold BSON_INT64, BSON_TIMESTAMP, BSON_DATE, BSON_REAL, BSON_BOOLEAN, BSON_OBJECTID, BSON_INT32 in Hf. repeat case_bool_decide; lia.
Qed.

Lemma rawget_rawset {A} (es : list (bkey * A)) k v k' : rawget (rawset es k v) k' = if decide (k = k') then Some v else rawget es k'.
Proof.
  unfold rawget. induction es as [|[k1 v1] es IH]; cbn [rawset List.find fst].
  - case_decide as H; [by rewrite bool_decide_true|by rewrite bool_decide_false].
  - destruct (decide (k1 = k)) as [-> |Hne]; cbn [List.find fst].
    + case_decide as H; [by rewrite bool_decide_true|by rewrite bool_decide_false].
    + case_bool_decide as H1; [|exact IH]. subst. by rewrite decide_False.
Qed.

(** The entry of a field whose value is at [p]. *)
Definition index_id (v : bval) (p : Z) : Z := type_of v + p * 2 ^ 5.

Lemma index_id_spec v p : 0 <= type_of v < 2 ^ 5 -> 0 <= p < 2 ^ 26 ->
  i32 (Z.lor (type_of v) (i32 (Z.shiftl p BSON_TYPE_SHIFT))) = index_id v p.
Proof.
  intros Ht Hp. unfold BSON_TYPE_SHIFT, index_id. rewrite (i32_small (Z.shiftl _ _)).
  2: { rewrite Z.shiftl_mul_pow2 by lia. unfold is_i32. lia. }
  rewrite lor_shiftl_add by lia. apply i32_small. unfold is_i32. lia.
Qed.

Lemma index_items_spec es : Forall (fun p => good p.2) es -> Forall string_key es.*1 -> NoDup es.*1 ->
  forall p sz fuel post idx, placed m p (items es ++ post) -> sz = Z.of_nat (length (items es)) -> p + sz < 2 ^ 26 -> (length es <= fuel)%nat ->
  exists idx', index_items m fuel (mk_reader p sz) idx = Ret idx' /\ (forall k, k ∉ es.*1 -> rawget idx' k = rawget idx k) /\
    forall l1 k v l2, es = l1 ++ (k, v) :: l2 -> field_size (type_of v) > 0 ->
      rawget idx' k = Some (index_id v (p + Z.of_nat (length (items l1)) + Z.of_nat (length (key_name k)) + 2)).
Proof.
  induction 1 as [|[k v] es Hv Hes IH]; intros Hk Hnd p sz fuel post idx Hp -> Hsz Hf.
  { exists idx. split; [by destruct fuel|]. split; [done|]. intros [|] k v l2 He; by inversion He. }
  destruct fuel as [|fuel]; [cbn in Hf; lia|]. rewrite fmap_cons in *. apply Forall_cons in Hk as [Hk Hks]. apply NoDup_cons in Hnd as [Hnew Hnd].
  destruct (key_read false k Hk) as [Hnz Hkey]. pose proof (placed_length _ _ _ Hp) as [Hp0 _].
  change (items ((k, v) :: es)) with (item k v ++ items es) in *. unfold item in *.
  set (tail := items es) in *. rewrite length_app in *. cbn [length] in *. rewrite length_app in *. cbn [length fst snd] in *.
  cbn [index_items r_size]. rewrite bool_decide_false by lia.
  cbn [app] in Hp. step_with (read_byte_at m _ _ _ _ Hp) by lia. cbn beta iota.
  match type of Hp with placed _ _ (?t :: ?l) => change (t :: l) with ([t] ++ l) in Hp end. apply placed_app in Hp as [_ Hp]. cbn [length] in Hp.
  change (Z.of_nat 1) with 1 in Hp. rewrite <- !app_assoc in Hp. cbn [app] in Hp. step_with (read_cstring_at m _ _ _ _ Hp Hnz) by lia. cbn beta iota.
  apply placed_behind in Hp. rewrite <- app_assoc in Hp || idtac.
  match goal with |- context [index_skip _ _ (mk_reader ?q ?s)] => set (q0 := q) in *; set (s0 := s) end.
  rewrite (index_skip_spec v q0 s0 (tail ++ post) Hv Hp) by (unfold s0; lia). rewrite bind_Ret. apply placed_app in Hp as [_ Hp].
  assert (Hsz0 : s0 - Z.of_nat (length (payload v)) = Z.of_nat (length tail)) by (unfold s0; lia).
  assert (Hid : field_size (type_of v) > 0 -> i32 (Z.lor (type_of v) (i32 (Z.shiftl q0 BSON_TYPE_SHIFT))) = index_id v q0).
  { intros Hfs. apply index_id_spec; [by apply type_small|]. unfold q0. lia. }
  assert (Hq0 : q0 = p + Z.of_nat (length (key_name k)) + 2) by (unfold q0; lia).
  destruct (decide (field_size (type_of v) > 0)) as [Hfs|Hfs]; rewrite !(bool_decide_true _ Hfs) || rewrite !(bool_decide_false _ Hfs); cbn [r_ptr].
  - rewrite Hid by done. pose proof (field_size_payload v Hv Hfs) as Hfl. rewrite reader_bytes_at, bind_Ret by lia. cbn beta iota.
    rewrite <- Hfl, Hsz0.
    destruct (IH Hks Hnd _ _ fuel post (rawset idx (KStr (key_name k)) (index_id v q0)) Hp eq_refl ltac:(unfold q0 in *; lia) ltac:(lia)) as (idx' & -> & Hold & Hnew').
    exists idx'. split; [done|]. cbn in Hkey. rewrite Hkey in Hold. split.
    + intros k' Hk'. apply not_elem_of_cons in Hk' as [Hne Hk']. rewrite Hold, rawget_rawset by done. by rewrite decide_False.
    + intros [|e l1] k' v' l2 He Hf'.
      * injection He as <- <- <-. rewrite Hold, rawget_rawset, decide_True by done. do 2 f_equal. cbn. lia.
      * injection He as <- He. rewrite (Hnew' _ _ _ _ He Hf'). do 2 f_equal. change (items ((k, v) :: l1)) with (item k v ++ items l1). unfold item.
        rewrite length_app. cbn [length]. rewrite length_app. cbn [length]. lia.
  - rewrite Hsz0.
    destruct (IH Hks Hnd _ _ fuel post idx Hp eq_refl ltac:(unfold q0 in *; lia) ltac:(lia)) as (idx' & -> & Hold & Hnew').
    exists idx'. split; [done|]. split.
    + intros k' Hk'. apply not_elem_of_cons in Hk' as [Hne Hk']. by apply Hold.
    + intros [|e l1] k' v' l2 He Hf'; [by injection He as <- <- <-|].
      injection He as <- He. rewrite (Hnew' _ _ _ _ He Hf'). do 2 f_equal. change (items ((k, v) :: l1)) with (item k v ++ items l1). unfold item.
      rewrite length_app. cbn [length]. rewrite length_app. cbn [length]. lia.
Qed.
End INDEX.

(** ** Replacing *)

Section REPLACE.
Context (junk : Z) (checknumber : bval -> option Z) (checknumber_real : forall d, checknumber (BReal d) = Some d).

(** [n] bytes are written over the field at [ptr], behind the [a] that were written. *)
Lemma field_store pre a x rest n : n = Z.of_nat (length x) -> Z.of_nat (length a) + n <= 16 -> Z.of_nat (length x) <= Z.of_nat (length rest) ->
  (b ← bson_reserve junk (mk_bson (Z.of_nat (length a)) 16 (pre ++ a ++ rest) (Z.of_nat (length pre)) false) n;
   b ← store b (b_size b) x; Ret (grow n b)) =
  Ret (mk_bson (Z.of_nat (length a) + n) 16 (pre ++ a ++ x ++ drop (length x) rest) (Z.of_nat (length pre)) false).
Proof.
  intros -> Hl Hr. unfold bson_reserve. cbn [b_size b_cap]. rewrite i32_small by (unfold is_i32; lia). rewrite bool_decide_true, bind_Ret by lia.
  unfold store. cbn [b_size b_cap b_mem b_ptr b_own]. rewrite app_assoc, <- Nat2Z.inj_add, <- length_app.
  rewrite write_next by lia. rewrite !bind_Ret. unfold grow. cbn [b_size b_cap b_mem b_ptr b_own]. rewrite i32_small by (unfold is_i32; lia).
  by rewrite <- !app_assoc.
Qed.

Lemma first_store pre x rest n : n = Z.of_nat (length x) -> n <= 16 -> Z.of_nat (length x) <= Z.of_nat (length rest) ->
  (b ← bson_reserve junk (mk_bson 0 16 (pre ++ rest) (Z.of_nat (length pre)) false) n; b ← store b (b_size b) x; Ret (grow n b)) =
  Ret (mk_bson n 16 (pre ++ x ++ drop (length x) rest) (Z.of_nat (length pre)) false).
Proof. intros Hn Hl Hr. exact (field_store pre [] x rest n Hn ltac:(cbn [length]; lia) Hr). Qed.

Lemma timestamp_field pre old post t rest : length rest = 8%nat -> Bytes rest -> length old = length rest -> exists b,
  (inc ← read_bytes (0 :: t :: rest) 2 4; ts ← read_bytes (0 :: t :: rest) 6 4;
   bs ← write_int32 junk (mk_bson 0 16 (pre ++ old ++ post) (Z.of_nat (length pre)) false) (le_value inc); write_int32 junk bs (le_value ts)) = Ret b /\
  b_mem b = pre ++ rest ++ post.
Proof.
  intros Hr HB Hl. rewrite Hr in Hl. destruct (split_words rest Hr HB) as (a & c & -> & Ha & Hc & HBa & HBc). change (0 :: t :: a ++ c) with ([0; t] ++ a ++ c).
  assert (H2 : read_bytes ([0; t] ++ a ++ c) 2 4 = Ret a) by (apply (read_bytes_mid [0; t] a c); lia). step_with H2. rewrite (app_assoc [0; t] a c), (read_bytes_at ([0; t] ++ a) c) by len_lia. rewrite bind_Ret.
  unfold write_int32. step_with (first_store pre (le_bytes 4 (le_value a)) (old ++ post) 4 eq_refl ltac:(lia) ltac:(len_lia)).
  pose proof (le_bytes_le_value a HBa) as Ea. rewrite Ha in Ea. rewrite Ea. pose proof (le_bytes_le_value c HBc) as Ec. rewrite Hc in Ec.
  pose proof (field_store pre a (le_bytes 4 (le_value c)) (drop (length a) (old ++ post)) 4) as Hs. rewrite Ha in Hs. change (Z.of_nat 4) with 4 in Hs.
  change (0 + 4) with 4. rewrite Ha, Hs by len_lia. eexists. split; [done|]. cbn [b_mem]. rewrite length_le_bytes, Ec, drop_drop, <- !app_assoc.
  do 2 f_equal. rewrite (drop_app_length' old) by lia. done.
Qed.

(** The field that [v] has is overwritten by [v']. *)
Lemma replace_value_spec pre old post v' : good v' -> field_size (type_of v') > 0 -> length old = length (payload v') ->
  exists b, replace_value junk checknumber (type_of v') v' (mk_bson 0 16 (pre ++ old ++ post) (Z.of_nat (length pre)) false) = Ret b /\
    b_mem b = pre ++ payload v' ++ post.
Proof.
  intros Hg Hf Hl.
  assert (Hone : forall x n, payload v' = x -> n = Z.of_nat (length x) -> n <= 16 -> exists b,
    (b ← bson_reserve junk (mk_bson 0 16 (pre ++ old ++ post) (Z.of_nat (length pre)) false) n; b ← store b (b_size b) x; Ret (grow n b)) = Ret b /\
    b_mem b = pre ++ payload v' ++ post).
  { intros x n Hx Hn Hn16. rewrite Hx in *. rewrite (first_store pre x (old ++ post) n Hn) by (rewrite ?length_app; lia).
    eexists. split; [done|]. cbn [b_mem]. by rewrite <- Hl, drop_app_length. }
  destruct v' as [z|d|s|b|doc|es| |]; try done.
  - cbn [type_of payload good] in *. destruct (int_small z) eqn:Es; unfold replace_value; decide_types.
    + apply bool_decide_eq_true in Es. rewrite i32_small by (unfold is_i32; lia). by apply Hone.
    + by apply Hone.
  - unfold replace_value. cbn [type_of]. decide_types. rewrite checknumber_real. by apply Hone.
  - destruct s as [|c [|t rest]]; [done|by destruct c|]. destruct (decide (c = 0)) as [-> |Hc]; [|destruct c; done].
    cbn [type_of payload good] in *.
    destruct Hg as [[-> Hr]|[[-> Hr]|[(-> & Hr & HB)|[(-> & Hr & HB)|[(-> & r1 & r2 & -> & Hr1 & Hr2)|[[Ht ->]|[[Ht (b & ->)]|[[-> (b & ->)]|[-> (b & -> & Hb)]]]]]]]]];
      try (destruct Ht as [-> |[-> | ->]]); try (destruct Ht as [-> | ->]); try done; unfold typed_bytes in *; revert Hone Hl; decide_types; intros Hone Hl;
      unfold replace_value, replace_object; decide_types; cbn [length]; rewrite bool_decide_false by (intros [H|[H|H]]; [lia|done..]);
      rewrite bool_decide_false by lia.
    + change (0 :: BSON_OBJECTID :: rest) with ([0; BSON_OBJECTID] ++ rest).
      step_with (read_bytes_at [0; BSON_OBJECTID] rest 2 12 ltac:(cbn; lia) ltac:(lia)). unfold store. cbn [b_size b_cap b_mem b_ptr b_own].
      rewrite Z.add_0_r, write_next by (rewrite ?length_app; lia). eexists. split; [done|]. cbn [b_mem]. by rewrite <- Hl, drop_app_length.
    + change (0 :: BSON_DATE :: rest) with ([0; BSON_DATE] ++ rest).
      step_with (read_bytes_at [0; BSON_DATE] rest 2 4 ltac:(cbn; lia) ltac:(lia)). by apply Hone.
    + apply (timestamp_field pre old post BSON_TIMESTAMP rest); done.
  - unfold replace_value. cbn [type_of]. decide_types. apply Hone; [|done..]. by destruct b.
  - cbn [type_of] in Hf. by destruct (is_array es).
Qed.

(** A document in parts around a field of it. *)
Definition before (l1 : entries) (k : bkey) (n : nat) (t : Z) : list Z := le_bytes 4 (Z.of_nat n + 5) ++ items l1 ++ t :: key_name k ++ [0].

Lemma wrap_around l1 k v l2 : wrap (items (l1 ++ (k, v) :: l2)) =
  before l1 k (length (items (l1 ++ (k, v) :: l2))) (type_of v) ++ payload v ++ (items l2 ++ [0]).
Proof.
  assert (E : items (l1 ++ (k, v) :: l2) = items l1 ++ item k v ++ items l2) by (unfold items; by rewrite fmap_app, concat_app).
  unfold wrap, before. generalize (length (items (l1 ++ (k, v) :: l2))). intros n. rewrite E. unfold item. by repeat (rewrite <- !app_assoc; cbn [app]).
Qed.

Lemma payload_replaced v v' : good v -> good v' -> field_size (type_of v) > 0 -> type_of v' = type_of v -> length (payload v) = length (payload v').
Proof.
  intros Hg Hg' Hf Ht. pose proof (field_size_payload v Hg Hf). pose proof (field_size_payload v' Hg' ltac:(by rewrite Ht)). rewrite Ht in *. lia.
Qed.

Lemma items_replaced l1 k v v' l2 : length (payload v) = length (payload v') ->
  length (items (l1 ++ (k, v) :: l2)) = length (items (l1 ++ (k, v') :: l2)).
Proof.
  intros Hp. unfold items. rewrite !fmap_app, !fmap_cons, !concat_app. cbn [concat fst snd]. unfold item. rewrite !length_app. cbn [length].
  rewrite !length_app. cbn [length]. lia.
Qed.

Lemma lreplace_spec l1 k v v' l2 idx : good v -> good v' -> field_size (type_of v) > 0 -> type_of v' = type_of v ->
  Z.of_nat (length (wrap (items (l1 ++ (k, v) :: l2)))) < 2 ^ 26 ->
  rawget idx k = Some (index_id v (4 + Z.of_nat (length (items l1)) + Z.of_nat (length (key_name k)) + 2)) ->
  lreplace junk checknumber (mk_document (wrap (items (l1 ++ (k, v) :: l2))) (Some idx)) k v' =
    Ret (mk_document (wrap (items (l1 ++ (k, v') :: l2))) (Some idx)).
Proof.
  intros Hg Hg' Hf Ht Hl Hidx. unfold lreplace. cbn [d_index d_bytes]. rewrite Hidx. pose proof (type_small v Hg Hf) as Hts.
  set (off := 4 + Z.of_nat (length (items l1)) + Z.of_nat (length (key_name k)) + 2) in *.
  pose proof (payload_replaced v v' Hg Hg' Hf Ht) as Hpay.
  assert (Hoff : off = Z.of_nat (length (before l1 k (length (items (l1 ++ (k, v) :: l2))) (type_of v)))).
  { unfold before, off. rewrite !length_app, length_le_bytes. cbn [length]. rewrite length_app. cbn [length]. lia. }
  unfold index_id, BSON_TYPE_SHIFT. rewrite land_mask, shiftr_div, Z.mod_add, Z.div_add, Z.mod_small, Z.div_small, Z.add_0_l by lia.
  rewrite wrap_around, Hoff, <- Ht.
  destruct (replace_value_spec (before l1 k (length (items (l1 ++ (k, v) :: l2))) (type_of v')) (payload v) (items l2 ++ [0]) v' Hg' ltac:(by rewrite Ht) Hpay) as (b & -> & Hm).
  rewrite bind_Ret, Hm. f_equal. f_equal. rewrite wrap_around. do 2 f_equal. by apply items_replaced.
Qed.
End REPLACE.

Lemma lmakeindex_spec es : Forall (fun p => good p.2) es -> document_keys es -> Z.of_nat (length (wrap (items es))) < 2 ^ 26 ->
  exists idx, lmakeindex (wrap (items es)) = Ret idx /\
    forall l1 k v l2, es = l1 ++ (k, v) :: l2 -> field_size (type_of v) > 0 ->
      rawget idx k = Some (index_id v (4 + Z.of_nat (length (items l1)) + Z.of_nat (length (key_name k)) + 2)).
Proof.
  intros Hg [Hk Hnd] Hl. unfold lmakeindex. pose proof (get_length_wrap (items es) [] ltac:(lia)) as Hlen. rewrite app_nil_r in Hlen. step_with Hlen.
  unfold wrap in Hl |- *. rewrite !length_app, length_le_bytes in *. cbn [length] in *.
  set (m := le_bytes 4 _ ++ _) in *. assert (Hp : placed m 4 (items es ++ [0])).
  { exists (le_bytes 4 (Z.of_nat (length (items es)) + 5)), []. by rewrite app_nil_r. }
  pose proof (items_length es) as Hi. replace (Z.of_nat (4 + (length (items es) + 1)) - 5) with (Z.of_nat (length (items es))) by lia.
  rewrite i32_small by (unfold is_i32; lia).
  destruct (index_items_spec m es Hg Hk Hnd 4 _ (S (Z.to_nat (Z.of_nat (length (items es))))) [0] [] Hp eq_refl ltac:(lia) ltac:(lia)) as (idx & -> & _ & Hidx).
  by exists idx.
Qed.

(** C33: The index that is made of an encoded document finds every field of a fixed size
    (numbers, booleans, object ids, dates and timestamps), and replacing such a field by a
    value of the same type changes the document in place to the one with that field
    replaced and the others as they were. *)
Theorem bson_replace junk rawlen real_text checknumber n l1 k v v' l2 doc :
  (forall es, es.*1 = KInt <$> seqZ 1 (Z.of_nat (length es)) -> rawlen es = Z.of_nat (length es)) ->
  (forall es, Forall string_key es.*1 -> rawlen es = 0) ->
  (forall d, checknumber (BReal d) = Some d) ->
  good (BTable (l1 ++ (k, v) :: l2)) -> document_keys (l1 ++ (k, v) :: l2) -> (depth (BTable (l1 ++ (k, v) :: l2)) <= n)%nat ->
  lencode junk rawlen real_text n (BTable (l1 ++ (k, v) :: l2)) = Ret doc ->
  Z.of_nat (length (payload (BTable (l1 ++ (k, v) :: l2)))) < 2 ^ 26 ->
  good v' -> type_of v' = type_of v -> field_size (type_of v) > 0 ->
  exists idx d, lmakeindex doc = Ret idx /\ lreplace junk checknumber (mk_document doc (Some idx)) k v' = Ret d /\
    ldecode (d_bytes d) = Ret (l1 ++ (k, v') :: l2).
Proof.
  intros H1 H2 Hc Hg Hk Hd Hdoc Hl Hv' Ht Hf. rewrite payload_table in Hl.
  rewrite (lencode_bytes junk rawlen real_text H1 H2 n _ Hg Hk Hd) in Hdoc by (unfold LIMIT; lia). injection Hdoc as <-.
  pose proof (proj1 (good_table _) Hg) as [Hkeys Hall]. destruct (lmakeindex_spec _ Hall Hk Hl) as (idx & Hidx & Hget).
  apply Forall_app in Hall as [Hg1 Hall]. apply Forall_cons in Hall as [Hv Hg2].
  exists idx, (mk_document (wrap (items (l1 ++ (k, v') :: l2))) (Some idx)). split; [done|].
  split; [by apply lreplace_spec; [..|by eapply Hget]|]. cbn [d_bytes]. rewrite <- (app_nil_r (wrap _)).
  assert (Hfst : (l1 ++ (k, v') :: l2).*1 = (l1 ++ (k, v) :: l2).*1) by by rewrite !fmap_app.
  assert (Hk' : document_keys (l1 ++ (k, v') :: l2)) by (unfold document_keys in *; by rewrite Hfst).
  apply ldecode_bytes; [|done|].
  - apply good_table. split; [by right|]. apply Forall_app. split; [done|]. by apply Forall_cons.
  - unfold wrap, LIMIT in *. rewrite !length_app, length_le_bytes in *. cbn [length] in *.
    rewrite <- (items_replaced l1 k v v' l2) by by apply payload_replaced. lia.
Qed.

Definition number_document : entries := [(KStr [97], BInt 5); (KStr [98], BReal 77)].

Lemma number_document_good : good (BTable number_document) /\ document_keys number_document.
Proof.
  assert (Hk : document_keys number_document) by (split; [repeat constructor; done|apply (bool_decide_unpack _); vm_compute; exact I]).
  split; [|done]. apply good_table. split; [by right|]. by repeat constructor.
Qed.

Lemma bson_replace_witness : exists idx d,
  lmakeindex [23; 0; 0; 0; 16; 97; 0; 5; 0; 0; 0; 1; 98; 0; 77; 0; 0; 0; 0; 0; 0; 0; 0] = Ret idx /\
  lreplace 85 (fun v => match v with BReal d => Some d | _ => None end)
    (mk_document [23; 0; 0; 0; 16; 97; 0; 5; 0; 0; 0; 1; 98; 0; 77; 0; 0; 0; 0; 0; 0; 0; 0] (Some idx)) (KStr [98]) (BReal 3) = Ret d /\
  ldecode (d_bytes d) = Ret [(KStr [97], BInt 5); (KStr [98], BReal 3)].
Proof.
  apply (bson_replace 85 count_integers (fun _ => []) _ 1 [(KStr [97], BInt 5)] (KStr [98]) (BReal 77) (BReal 3) []);
    [exact count_sequence|exact count_strings|done|exact (proj1 number_document_good)|exact (proj2 number_document_good)|cbn; lia|
     by vm_compute|by vm_compute|done|done|done].
Defined.
