(* ===== verification/BsonTypes.v ===== *)
(** * The typed strings of BSON

    Dates, timestamps, regular expressions, binary data and object ids are Lua strings that
    begin with a zero and a type: [ltype] tells them apart and gives their parts back. *)
From stdpp Require Import base list gmap numbers strings.
From Stdlib Require Import ZArith Lia.
From S2P Require Import Prelude CString Bson BsonWire BsonRead.

Local Open Scope Z_scope.

(** ** The parts of a typed string *)

Lemma ltype_typed t rest : ltype (BStr ([0; t] ++ rest)) = lsubtype t ([0; t] ++ rest).
Proof. done. Qed.

Lemma drop_head t (rest : list Z) : drop 2 ([0; t] ++ rest) = rest.
Proof. done. Qed.

Lemma ltype_date d : ltype (BStr (ldate d)) = Ret ("date"%string, [BInt (i32 d)]).
Proof.
  unfold ldate. rewrite ltype_typed. unfold lsubtype. decide_types. rewrite !drop_head.
  rewrite le_value_le_bytes. change (256 ^ Z.of_nat 4) with (2 ^ 32).
  fold (u32 (i32 d)). by rewrite i32_u32, (i32_small (i32 d)) by apply i32_range.
Qed.

(** The two words of a timestamp, the increment first. *)
Definition stamp (inc d : Z) : list Z := [0; BSON_TIMESTAMP] ++ le_bytes 4 inc ++ le_bytes 4 (i32 d).

Lemma ltype_stamp inc d : is_u32 inc -> ltype (BStr (stamp inc d)) = Ret ("timestamp"%string, [BInt (u32 d); BInt inc]).
Proof.
  intros Hi. unfold stamp. rewrite ltype_typed. unfold lsubtype. decide_types. rewrite !drop_head.
  rewrite (drop_app_length' (le_bytes 4 inc)), (take_app_length' (le_bytes 4 inc)) by by rewrite length_le_bytes.
  rewrite !le_value_le_bytes. change (256 ^ Z.of_nat 4) with (2 ^ 32). rewrite (Z.mod_small inc) by done. do 4 f_equal. unfold i32, u32. dlia.
Qed.

Lemma ltype_binary s : ltype (BStr (lbinary s)) = Ret ("binary"%string, [BStr s; BInt 0]).
Proof.
  unfold lbinary. change ([0; BSON_BINARY; 0] ++ s) with ([0; BSON_BINARY] ++ 0 :: s). rewrite ltype_typed. unfold lsubtype. decide_types.
  rewrite !drop_head. rewrite bool_decide_false by (cbn [length]; lia). done.
Qed.

Lemma ltype_regex pattern options : nonzero (default [] options) -> Z.of_nat (length pattern) + Z.of_nat (length (default [] options)) < 2 ^ 31 ->
  ltype (BStr (lregex pattern options)) = Ret ("regex"%string, [BStr pattern; BStr (default [] options)]).
Proof.
  intros Hz Hl. unfold lregex. generalize dependent (default [] options). intros o Hz Hl.
  change ([0; BSON_REGEX] ++ pattern ++ [0] ++ o ++ [0]) with ([0; BSON_REGEX] ++ pattern ++ 0 :: o ++ [0]).
  rewrite ltype_typed. unfold lsubtype. decide_types. rewrite !drop_head.
  set (str := [0; BSON_REGEX] ++ pattern ++ 0 :: o ++ [0]).
  assert (Hlen : u64 (Z.of_nat (length (pattern ++ 0 :: o ++ [0])) - 1) = Z.of_nat (length pattern + 1 + length o)).
  { rewrite length_app. cbn [length]. rewrite length_app. cbn [length]. rewrite u64_small by (unfold is_u64; lia). lia. }
  rewrite Hlen. destruct (regex_parts BSON_REGEX pattern o str _ Hz eq_refl eq_refl ltac:(lia)) as (Hi & H1 & H2).
  step_with Hi. rewrite bool_decide_false by lia. step_with H1. by step_with H2.
Qed.

(** ** Object ids *)

(** The digits that [ltype] writes. *)
Definition hex_lower (c : Z) : Prop := 48 <= c <= 57 \/ 97 <= c <= 102.

Lemma hextoint_lower c : hex_lower c -> 0 <= hextoint c < 16 /\ hex_digit (hextoint c) = c.
Proof.
  intros [Hc|Hc]; unfold hextoint, hex_digit.
  - rewrite bool_decide_true by lia. rewrite bool_decide_true by lia. lia.
  - rewrite bool_decide_false by lia. rewrite bool_decide_true by lia. rewrite bool_decide_false by lia. lia.
Qed.

Lemma hex_pair a b : hex_lower a -> hex_lower b ->
  let c := u8 (Z.lor (Z.shiftl (hextoint a) 4) (hextoint b)) in [hex_digit (Z.shiftr c 4); hex_digit (Z.land c 15)] = [a; b].
Proof.
  intros [Ha Ea]%hextoint_lower [Hb Eb]%hextoint_lower. cbv zeta. rewrite Z.lor_comm, lor_shiftl_add by lia.
  unfold u8. rewrite Z.mod_small by lia. rewrite (land_mask 4), shiftr_div by lia.
  replace ((hextoint b + hextoint a * 2 ^ 4) / 2 ^ 4) with (hextoint a) by dlia.
  replace ((hextoint b + hextoint a * 2 ^ 4) mod 2 ^ 4) with (hextoint b) by dlia. by rewrite Ea, Eb.
Qed.

Lemma hex_pairs_spec str n : length str = (2 * n)%nat -> Forall hex_lower str ->
  length (hex_pairs str) = n /\ (hex_pairs str ≫= fun c => [hex_digit (Z.shiftr c 4); hex_digit (Z.land c 15)]) = str.
Proof.
  revert str. induction n as [|n IH]; intros str Hl Hs; [by destruct str|].
  destruct str as [|a [|b str]]; [cbn in Hl; lia|cbn in Hl; lia|]. apply Forall_cons in Hs as [Ha Hs]. apply Forall_cons in Hs as [Hb Hs].
  destruct (IH str ltac:(cbn in Hl; lia) Hs) as [Hlen Hstr]. cbn [hex_pairs length mbind list_bind]. split; [by rewrite Hlen|].
  rewrite Hstr. pose proof (hex_pair a b Ha Hb) as Hp. cbv zeta in Hp. by injection Hp as -> ->.
Qed.

Lemma ltype_objectid s time str : length str = 24%nat -> Forall hex_lower str -> exists o, lobjectid s time (Some str) = Ret (o, s) /\
  ltype (BStr o) = Ret ("objectid"%string, [BStr str]).
Proof.
  intros Hl Hs. destruct (hex_pairs_spec str 12 Hl Hs) as [Hlen Hstr]. unfold lobjectid. rewrite bool_decide_false by lia. eexists. split; [done|].
  rewrite ltype_typed. unfold lsubtype. decide_types. rewrite !drop_head, Hlen, bool_decide_false by lia. by rewrite Hstr.
Qed.

(** ** The strings are read back *)

(** C37: [ltype] gives back what the typed strings were made of: the number of a date, the
    two numbers of a timestamp, the texts of a regular expression, binary data, and the 24
    digits of an object id; and all of them are values that a document carries (see
    [bson_roundtrip]). *)
Theorem typed_strings_read_back d inc i pattern options s st time str :
  is_u32 inc -> nonzero pattern -> nonzero (default [] options) ->
  Z.of_nat (length pattern) + Z.of_nat (length (default [] options)) < 2 ^ 31 ->
  length str = 24%nat -> Forall hex_lower str ->
  (ltype (BStr (ldate d)) = Ret ("date"%string, [BInt (i32 d)]) /\ good (BStr (ldate d))) /\
  (let '(stamp, _) := ltimestamp inc d i in
   ltype (BStr stamp) = Ret ("timestamp"%string, [BInt (u32 d); BInt (match i with Some i => u32 i | None => inc end)]) /\ good (BStr stamp)) /\
  (ltype (BStr (lregex pattern options)) = Ret ("regex"%string, [BStr pattern; BStr (default [] options)]) /\
   good (BStr (lregex pattern options))) /\
  (ltype (BStr (lbinary s)) = Ret ("binary"%string, [BStr s; BInt 0]) /\ good (BStr (lbinary s))) /\
  exists o, lobjectid st time (Some str) = Ret (o, st) /\ ltype (BStr o) = Ret ("objectid"%string, [BStr str]) /\ good (BStr o).
Proof.
  intros Hi Hp Ho Hl Hs Hh.
  assert (Hstamp : forall n, is_u32 n -> ltype (BStr (stamp n d)) = Ret ("timestamp"%string, [BInt (u32 d); BInt n]) /\ good (BStr (stamp n d))).
  { intros n Hn. split; [by apply ltype_stamp|]. do 3 right. left. split; [done|]. split; [done|].
    exact (Forall_app_2 _ _ _ (le_bytes_Bytes 4 n) (le_bytes_Bytes 4 (i32 d))). }
  split; [split; [apply ltype_date|]|]. { do 2 right. left. split; [done|]. split; [done|]. exact (le_bytes_Bytes 4 (i32 d)). }
  split; [destruct i as [i|]; apply Hstamp; [apply u32_range|done]|].
  split; [split; [by apply ltype_regex|]|]. { do 4 right. left. split; [done|]. exists pattern, (default [] options). by split. }
  split; [split; [apply ltype_binary|by left]|].
  destruct (ltype_objectid st time str Hs Hh) as (o & Eo & Ht). exists o. split; [done|]. split; [done|].
  unfold lobjectid in Eo. rewrite bool_decide_false in Eo by lia. injection Eo as <-. right. left. split; [done|].
  apply (hex_pairs_spec str 12 Hs Hh).
Qed.

Lemma typed_strings_read_back_witness :
  ltype (BStr (ldate 100)) = Ret ("date"%string, [BInt 100]) /\
  exists o, lobjectid (mk_oid_state [1; 2; 3; 4; 5] 6) 7 (Some (replicate 24 97)) = Ret (o, mk_oid_state [1; 2; 3; 4; 5] 6) /\
    ltype (BStr o) = Ret ("objectid"%string, [BStr (replicate 24 97)]).
Proof.
  destruct (typed_strings_read_back 100 1 None [97] (Some [98]) [1] (mk_oid_state [1; 2; 3; 4; 5] 6) 7 (replicate 24 97)) as ([H1 _] & _ & _ & _ & o & Eo & Ht & _);
    [unfold is_u32; lia|constructor; [lia|constructor]|constructor; [lia|constructor]|cbn; lia|done|
     apply Forall_replicate; unfold hex_lower; lia|].
  split; [exact H1|]. by exists o.
Defined.

(** ** Generated object ids *)

(** Calls without an argument, at the given times. *)
Fixpoint generate (s : oid_state) (times : list Z) : outcome (list (list Z)) :=
  match times with
  | [] => Ret []
  | t :: times => '(o, s) ← lobjectid s t None; l ← generate s times; Ret (o :: l)
  end.

Definition oid_of (h : list Z) (time c : Z) : list Z :=
  ([0; BSON_OBJECTID] ++ [Z.land (Z.shiftr time 24) 255; Z.land (Z.shiftr time 16) 255; Z.land (Z.shiftr time 8) 255; Z.land time 255] ++ h) ++
  [Z.land (Z.shiftr c 16) 255; Z.land (Z.shiftr c 8) 255; Z.land c 255].

Lemma oid_of_inj h t t' c c' : oid_of h t c = oid_of h t' c' -> c mod 2 ^ 24 = c' mod 2 ^ 24.
Proof.
  unfold oid_of. intros [_ He]%app_inj_2; [|done]. injection He as H1 H2 H3. rewrite !land_255, !shiftr_div in * by lia. dlia.
Qed.

Lemma generate_spec times : forall s, is_u32 (oid_counter s) -> exists l, generate s times = Ret l /\ length l = length times /\
  forall i o, l !! i = Some o -> exists t, o = oid_of (oid_header s) t (u32 (oid_counter s + Z.of_nat i)).
Proof.
  induction times as [|t times IH]; intros s Hs; [by exists []|]. cbn [generate]. unfold lobjectid. rewrite bind_Ret.
  destruct (IH (mk_oid_state (oid_header s) (u32 (oid_counter s + 1))) (u32_range _)) as (l & -> & Hl & Hspec). eexists. split; [done|].
  split; [cbn; by rewrite Hl|]. intros [|i] o Ho.
  - injection Ho as <-. exists t. unfold oid_of. rewrite Z.add_0_r, (u32_small (oid_counter s)) by done. by rewrite <- !app_assoc.
  - destruct (Hspec i o Ho) as [t' ->]. exists t'. cbn [oid_header oid_counter]. f_equal. unfold u32. rewrite Zplus_mod_idemp_l. f_equal. lia.
Qed.

(** The object ids that a process generates are different, as long as there are at
    most 2^24 of them, whatever the clock does and even if the counter wraps. *)
Theorem objectids_distinct s times : is_u32 (oid_counter s) -> Z.of_nat (length times) <= 2 ^ 24 ->
  exists l, generate s times = Ret l /\ length l = length times /\ NoDup l.
Proof.
  intros Hs Hl. destruct (generate_spec times s Hs) as (l & Hg & Hlen & Hspec). exists l. split; [done|]. split; [done|].
  apply NoDup_alt. intros i j o Hi Hj. destruct (Hspec i o Hi) as [t ->]. destruct (Hspec j _ Hj) as [t' He]. apply oid_of_inj in He.
  apply lookup_lt_Some in Hi, Hj. unfold u32 in He. dlia.
Qed.

Lemma objectids_distinct_witness : exists l, generate (mk_oid_state [1; 2; 3; 4; 5] (2 ^ 32 - 1)) [10; 10; 9] = Ret l /\ length l = 3%nat /\ NoDup l.
Proof. apply (objectids_distinct (mk_oid_state [1; 2; 3; 4; 5] (2 ^ 32 - 1)) [10; 10; 9]); [by unfold is_u32|cbn; lia]. Defined.
