(* ===== verification/Mongo.v ===== *)
(** * The messages of the MongoDB driver (src/lualib-src/lua-mongo.c)

    Requests are written into a growing buffer, and the documents follow.  The functions of
    the buffer (lines 55 to 137) are the text of those of lua-bson.c with another first
    capacity, and are taken from Bson.  Replies are cut into documents, given as pointers
    (offsets in the data). *)
From stdpp Require Import base list gmap numbers strings.
From Stdlib Require Import ZArith Lia.
From S2P Require Import Prelude CString Bson BsonWire BsonRead BsonReplace.

Local Open Scope Z_scope.

Definition OP_UPDATE : Z := 2001.
Definition OP_INSERT : Z := 2002.
Definition OP_QUERY : Z := 2004.
Definition OP_GET_MORE : Z := 2005.
Definition OP_DELETE : Z := 2006.
Definition OP_KILL_CURSORS : Z := 2007.

Definition REPLY_QUERYFAILURE : Z := 2.

Definition BUFFER_CAP : Z := 128.

(** An argument of a Lua function.  A table has its elements up to its length; a userdata is
    the memory it points to. *)
Inductive arg := AInt (z : Z) | AStr (s : list Z) | AUser (doc : list Z) | ATable (l : list arg) | ANone.

(** ** Requests *)

Section REQUESTS.
Context (junk : Z).
(** Lua's conversions of a value to an integer, to a string, and by [luaL_tolstring]. *)
Context (tointeger : arg -> option Z) (tostring : arg -> option (list Z)) (tolstring : arg -> list Z).

Definition checkinteger (a : arg) : outcome Z :=
  match tointeger a with Some z => Ret (i32 z) | None => Raise "number expected" end.

Definition checklstring (a : arg) : outcome (list Z) :=
  match tostring a with Some s => Ret s | None => Raise "string expected" end.

Definition integer_or_zero (a : arg) : Z := i32 (default 0 (tointeger a)).

Definition touserdata (a : arg) : option (list Z) := match a with AUser doc => Some doc | _ => None end.

Definition buffer_create : bson := mk_bson 0 BUFFER_CAP (replicate (Z.to_nat BUFFER_CAP) junk) 0 true.

Definition write_name (b : bson) (name : list Z) : outcome bson := write_string junk b name 0 (Z.of_nat (length name)).

(** What [luaL_addlstring] and [lua_pushlstring] take of the buffer. *)
Definition buffer_text (b : bson) : outcome (list Z) := addlstring (b_mem b) [] (b_ptr b) (b_size b).

Definition op_query (id flags name skip number query selector : arg) : outcome (list Z) :=
  id ← checkinteger id;
  match touserdata query with
  | None => Raise "require query document"
  | Some query =>
    flags ← checkinteger flags;
    name ← checklstring name;
    skip ← checkinteger skip;
    number ← checkinteger number;
    '(len, buf) ← reserve_length junk buffer_create;
    buf ← write_int32 junk buf id;
    buf ← write_int32 junk buf 0;
    buf ← write_int32 junk buf OP_QUERY;
    buf ← write_int32 junk buf flags;
    buf ← write_name buf name;
    buf ← write_int32 junk buf skip;
    buf ← write_int32 junk buf number;
    query_len ← get_length query;
    let total := i32 (b_size buf + query_len) in
    '(total, selector_len) ← (match touserdata selector with
      | Some selector => selector_len ← get_length selector; Ret (i32 (total + selector_len), selector_len)
      | None => Ret (total, 0)
      end);
    buf ← write_length buf total len;
    b ← buffer_text buf;
    b ← addlstring query b 0 query_len;
    match touserdata selector with Some selector => addlstring selector b 0 selector_len | None => Ret b end
  end.

Definition op_kill (cursor : arg) : outcome (list Z) :=
  let cursor_id := tolstring cursor in
  if bool_decide (length cursor_id <> 8%nat) then Raise "Invalid cursor id"
  else
    '(len, buf) ← reserve_length junk buffer_create;
    buf ← write_int32 junk buf 0;
    buf ← write_int32 junk buf 0;
    buf ← write_int32 junk buf OP_KILL_CURSORS;
    buf ← write_int32 junk buf 0;
    buf ← write_int32 junk buf 1;
    buf ← append_bytes junk buf cursor_id 0 8;
    buf ← write_length buf (b_size buf) len;
    buffer_text buf.

Definition op_delete (name single selector : arg) : outcome (list Z) :=
  match touserdata selector with
  | None => Raise "Invalid param"
  | Some selector =>
    name ← checklstring name;
    '(len, buf) ← reserve_length junk buffer_create;
    buf ← write_int32 junk buf 0;
    buf ← write_int32 junk buf 0;
    buf ← write_int32 junk buf OP_DELETE;
    buf ← write_int32 junk buf 0;
    buf ← write_name buf name;
    buf ← write_int32 junk buf (integer_or_zero single);
    selector_len ← get_length selector;
    let total := i32 (b_size buf + selector_len) in
    buf ← write_length buf total len;
    b ← buffer_text buf;
    addlstring selector b 0 selector_len
  end.

Definition op_get_more (id name number cursor : arg) : outcome (list Z) :=
  id ← checkinteger id;
  name ← checklstring name;
  number ← checkinteger number;
  let cursor_id := tolstring cursor in
  if bool_decide (length cursor_id <> 8%nat) then Raise "Invalid cursor id"
  else
    '(len, buf) ← reserve_length junk buffer_create;
    buf ← write_int32 junk buf id;
    buf ← write_int32 junk buf 0;
    buf ← write_int32 junk buf OP_GET_MORE;
    buf ← write_int32 junk buf 0;
    buf ← write_name buf name;
    buf ← write_int32 junk buf number;
    buf ← append_bytes junk buf cursor_id 0 8;
    buf ← write_length buf (b_size buf) len;
    buffer_text buf.

Definition op_update (name flags selector update : arg) : outcome (list Z) :=
  match touserdata selector, touserdata update with
  | Some selector, Some update =>
    name ← checklstring name;
    '(len, buf) ← reserve_length junk buffer_create;
    buf ← write_int32 junk buf 0;
    buf ← write_int32 junk buf 0;
    buf ← write_int32 junk buf OP_UPDATE;
    buf ← write_int32 junk buf 0;
    buf ← write_name buf name;
    buf ← write_int32 junk buf (integer_or_zero flags);
    selector_len ← get_length selector;
    update_len ← get_length update;
    let total := i32 (b_size buf + selector_len + update_len) in
    buf ← write_length buf total len;
    b ← buffer_text buf;
    b ← addlstring selector b 0 selector_len;
    addlstring update b 0 update_len
  | _, _ => Raise "Invalid param"
  end.

(** The loop of [document_length]. *)
Fixpoint total_length (l : list arg) (total : Z) : outcome Z :=
  match l with
  | [] => Ret total
  | a :: l =>
    match touserdata a with
    | None => Raise "Invalid document at %d"
    | Some doc => n ← get_length doc; total_length l (i32 (total + n))
    end
  end.

Definition document_length (docs : arg) : outcome Z :=
  match docs with
  | AUser doc => get_length doc
  | ATable l => total_length l 0
  | _ => Raise "Insert need documents"
  end.

(** A [uint32_t] is the length here. *)
Definition add_document (b : list Z) (doc : list Z) : outcome (list Z) := n ← get_length doc; addlstring doc b 0 (u32 n).

Fixpoint add_documents (b : list Z) (l : list arg) : outcome (list Z) :=
  match l with
  | [] => Ret b
  | a :: l =>
    match touserdata a with
    | None => Crash OutOfBounds
    | Some doc => b ← add_document b doc; add_documents b l
    end
  end.

Definition op_insert (flags name docs : arg) : outcome (list Z) :=
  name ← checklstring name;
  dsz ← document_length docs;
  '(len, buf) ← reserve_length junk buffer_create;
  buf ← write_int32 junk buf 0;
  buf ← write_int32 junk buf 0;
  buf ← write_int32 junk buf OP_INSERT;
  buf ← write_int32 junk buf (integer_or_zero flags);
  buf ← write_name buf name;
  let total := i32 (b_size buf + dsz) in
  buf ← write_length buf total len;
  b ← buffer_text buf;
  match docs with
  | AUser doc => add_document b doc
  | ATable l => add_documents b l
  | _ => Ret b
  end.
End REQUESTS.

(** ** Replies *)

(** The values of the table that receives the documents. *)
Inductive tvalue := TDoc (ptr : Z) | TOther.

(** What [op_reply] answers. *)
Inductive reply_result :=
| ReplyShort
| ReplyFailure (id doc : Z)
| ReplyCount (id : Z)
| ReplyOk (id : Z) (doc : option Z) (cursor_id : option (list Z)) (starting : Z).

Definition REPLY_SIZE : Z := 32.

Section REPLIES.
(** The length of a table. *)
Context (rawlen : gmap Z tvalue -> Z).
(** The string with the zero behind it. *)
Context (data : list Z).

(** A field of the structure, in the byte order of the host. *)
Definition reply_field (off : Z) : outcome Z := b ← read_bytes data off 4; Ret (i32 (le_value b)).

(** A length of zero or less keeps the loop going. *)
Fixpoint cut_documents (fuel : nat) (doc sz i : Z) (t : gmap Z tvalue) : outcome (Z * Z * gmap Z tvalue) :=
  if bool_decide (sz > 4) then
    match fuel with
    | O => Crash OutOfFuel
    | S fuel =>
      doc_len ← reply_field doc;
      cut_documents fuel (doc + doc_len) (i32 (sz - doc_len)) (i + 1) (<[i := TDoc doc]> t)
    end
  else Ret (sz, i, t).

(** The elements from [i] to [c] are removed. *)
Definition clear_from (i c : Z) (t : gmap Z tvalue) : gmap Z tvalue := foldr delete t (seqZ i (c - i + 1)).

(** [t] is the table, if there is one; with an error its content is not told. *)
Definition op_reply (t : option (gmap Z tvalue)) : outcome (reply_result * option (gmap Z tvalue)) :=
  let data_len := Z.of_nat (length data) - 1 in
  if bool_decide (data_len < REPLY_SIZE) then Ret (ReplyShort, t)
  else
    id ← reply_field 4;
    flags ← reply_field 12;
    if bool_decide (Z.land flags REPLY_QUERYFAILURE <> 0) then Ret (ReplyFailure id REPLY_SIZE, t)
    else
      starting_from ← reply_field 24;
      number ← reply_field 28;
      let sz := i32 (i32 data_len - REPLY_SIZE) in
      let finish (sz : Z) (t : option (gmap Z tvalue)) :=
        if bool_decide (sz <> 0) then Raise "Invalid result bson document"
        else
          cursor_id ← read_bytes data 16 8;
          Ret (ReplyOk id (if bool_decide (number = 0) then None else Some REPLY_SIZE)
                 (if bool_decide (le_value (take 4 cursor_id) = 0 /\ le_value (drop 4 cursor_id) = 0) then None else Some cursor_id) starting_from, t) in
      match t with
      | Some t =>
        '(sz, i, t) ← cut_documents (length data) REPLY_SIZE sz 1 t;
        if bool_decide (i <> i32 (number + 1)) then Ret (ReplyCount id, Some t)
        else let c := i32 (rawlen t) in finish sz (Some (clear_from i c t))
      | None =>
        if bool_decide (sz >= 4) then n ← reply_field REPLY_SIZE; finish (i32 (sz - n)) None
        else finish sz None
      end.

Definition reply_length : outcome Z := n ← reply_field 0; Ret (i32 (n - 4)).
End REPLIES.

(** ** What the requests are *)

(** A message: its length, its id, a zero, its kind and its body. *)
Definition message (id op : Z) (body : list Z) : list Z :=
  le_bytes 4 (16 + Z.of_nat (length body)) ++ le_bytes 4 id ++ le_bytes 4 0 ++ le_bytes 4 op ++ body.

(** The requests of the protocol; an insertion is of one document or of a table of them. *)
Inductive request :=
| Query (id flags : Z) (name : list Z) (skip number : Z) (query : list Z) (selector : option (list Z))
| Kill (cursor : list Z)
| Delete (name : list Z) (single : Z) (selector : list Z)
| GetMore (id : Z) (name : list Z) (number : Z) (cursor : list Z)
| Update (name : list Z) (flags : Z) (selector update : list Z)
| InsertOne (flags : Z) (name doc : list Z)
| Insert (flags : Z) (name : list Z) (docs : list (list Z)).

Definition wire (r : request) : list Z :=
  match r with
  | Query id flags name skip number query selector =>
    message id OP_QUERY (le_bytes 4 flags ++ (name ++ [0]) ++ le_bytes 4 skip ++ le_bytes 4 number ++ query ++ match selector with Some doc => doc | None => [] end)
  | Kill cursor => message 0 OP_KILL_CURSORS (le_bytes 4 0 ++ le_bytes 4 1 ++ cursor)
  | Delete name single selector => message 0 OP_DELETE (le_bytes 4 0 ++ (name ++ [0]) ++ le_bytes 4 single ++ selector)
  | GetMore id name number cursor => message id OP_GET_MORE (le_bytes 4 0 ++ (name ++ [0]) ++ le_bytes 4 number ++ cursor)
  | Update name flags selector update => message 0 OP_UPDATE (le_bytes 4 0 ++ (name ++ [0]) ++ le_bytes 4 flags ++ selector ++ update)
  | InsertOne flags name doc => message 0 OP_INSERT (le_bytes 4 flags ++ (name ++ [0]) ++ doc)
  | Insert flags name docs => message 0 OP_INSERT (le_bytes 4 flags ++ (name ++ [0]) ++ concat docs)
  end.

(** A document that tells its own length, as those of [bson_roundtrip] do. *)
Definition delimited (doc : list Z) : Prop := get_length doc = Ret (Z.of_nat (length doc)).

Definition request_ok (r : request) : Prop :=
  Z.of_nat (length (wire r)) < LIMIT /\
  match r with
  | Query _ _ _ _ _ query selector => delimited query /\ match selector with Some doc => delimited doc | None => True end
  | Kill cursor | GetMore _ _ _ cursor => length cursor = 8%nat
  | Delete _ _ selector => delimited selector
  | Update _ _ selector update => delimited selector /\ delimited update
  | InsertOne _ _ doc => delimited doc
  | Insert _ _ docs => Forall delimited docs
  end.

Section WRITTEN.
Context (junk : Z) (tointeger : arg -> option Z) (tostring : arg -> option (list Z)) (tolstring : arg -> list Z).

(** The call that makes the request. *)
Definition ask (r : request) : outcome (list Z) :=
  match r with
  | Query id flags name skip number query selector =>
    op_query junk tointeger tostring (AInt id) (AInt flags) (AStr name) (AInt skip) (AInt number) (AUser query)
      (match selector with Some doc => AUser doc | None => ANone end)
  | Kill cursor => op_kill junk tolstring (AStr cursor)
  | Delete name single selector => op_delete junk tointeger tostring (AStr name) (AInt single) (AUser selector)
  | GetMore id name number cursor => op_get_more junk tointeger tostring tolstring (AInt id) (AStr name) (AInt number) (AStr cursor)
  | Update name flags selector update => op_update junk tointeger tostring (AStr name) (AInt flags) (AUser selector) (AUser update)
  | InsertOne flags name doc => op_insert junk tointeger tostring (AInt flags) (AStr name) (AUser doc)
  | Insert flags name docs => op_insert junk tointeger tostring (AInt flags) (AStr name) (ATable (AUser <$> docs))
  end.

Hypothesis integer_int : forall z, tointeger (AInt z) = Some z.
Hypothesis string_str : forall s, tostring (AStr s) = Some s.
Hypothesis lstring_str : forall s, tolstring (AStr s) = s.

Lemma le_i32 z : le_bytes 4 (i32 z) = le_bytes 4 z.
Proof.
  rewrite <- (le_bytes_mod 4 (i32 z)), <- (le_bytes_mod 4 z). change (256 ^ Z.of_nat 4) with (2 ^ 32). f_equal. unfold i32. dlia.
Qed.

Lemma created : holds (buffer_create junk) [].
Proof. split; cbn; try done. by eexists. Qed.

(** A step of writing, and what comes behind it. *)
Lemma put_seq {A} o l (k : bson -> outcome A) r : writes o l -> (forall b, holds b l -> k b = r) -> (b ← o; k b) = r.
Proof. intros (b & -> & Hb) Hk. rewrite bind_Ret. by apply Hk. Qed.

Lemma put_name b l name : holds b l -> Z.of_nat (length l) + Z.of_nat (length name) + 1 < LIMIT -> writes (write_name junk b name) (l ++ name ++ [0]).
Proof. intros Hb Hl. eapply write_string_spec; [done|by apply read_bytes_all|done|done]. Qed.

Lemma put_bytes b l (x : list Z) n : holds b l -> n = Z.of_nat (length x) -> Z.of_nat (length l) + n < LIMIT -> writes (append_bytes junk b x 0 n) (l ++ x).
Proof. intros Hb -> Hl. eapply append_bytes_spec; [done|by apply read_bytes_all|done|done]. Qed.

Lemma buffer_text_spec b l : holds b l -> buffer_text b = Ret l.
Proof.
  intros [Hp Hs (rest & Hm) Hc Hpos]. unfold buffer_text, addlstring. rewrite Hp, Hs, Hm, bool_decide_false by lia. by step_with (read_prefix l rest _ eq_refl).
Qed.

Lemma add_all doc b n : n = Z.of_nat (length doc) -> addlstring doc b 0 n = Ret (b ++ doc).
Proof. intros ->. unfold addlstring. rewrite bool_decide_false by lia. by step_with (read_bytes_all doc _ eq_refl). Qed.

(** The length of the message is written at its front. *)
Lemma put_length {A} b x y total (k : list Z -> outcome A) : holds b (x ++ y) -> length x = 4%nat ->
  (buf ← write_length b total 0; t ← buffer_text buf; k t) = k (le_bytes 4 total ++ y).
Proof.
  intros Hb Hx. eapply put_seq; [by apply (write_length_spec b [] x y total 0)|]. intros b' Hb'. by step_with (buffer_text_spec _ _ Hb').
Qed.

Lemma put_length_last b x y total : holds b (x ++ y) -> length x = 4%nat ->
  (buf ← write_length b total 0; buffer_text buf) = Ret (le_bytes 4 total ++ y).
Proof.
  intros Hb Hx. eapply put_seq; [by apply (write_length_spec b [] x y total 0)|]. intros b' Hb'. by apply buffer_text_spec.
Qed.

Ltac put := eapply put_seq; [first [apply write_int32_spec | apply put_name | apply put_bytes]; [eassumption|unfold LIMIT in *; len_lia..]|];
  match goal with H : holds ?b _ |- _ => clear b H | _ => idtac end;
  let b := fresh "b" in let Hb := fresh "Hb" in intros b Hb.

(** The first words of a message. *)
Lemma put_header {A} (k : Z -> bson -> outcome A) id op r :
  (forall b x, holds b (x ++ le_bytes 4 id ++ le_bytes 4 0 ++ le_bytes 4 op) -> length x = 4%nat -> k 0 b = r) ->
  ('(len, buf) ← reserve_length junk (buffer_create junk); buf ← write_int32 junk buf id; buf ← write_int32 junk buf 0;
   buf ← write_int32 junk buf op; k len buf) = r.
Proof.
  intros Hk. destruct (reserve_length_spec junk _ _ created ltac:(cbn; unfold LIMIT; lia)) as (b & x & Hr & Hb & Hx). step_with Hr. cbn beta iota.
  cbn [app] in Hb. do 3 put. rewrite <- !app_assoc in *. cbn [length]. by eapply Hk.
Qed.

(** The end of a message: its length, and the documents behind it. *)
Ltac put_total := match goal with Hb : holds ?b _ |- _ =>
  rewrite ?(h_size _ _ Hb);
  repeat match goal with |- context [i32 ?z] => rewrite (i32_small z) by (unfold LIMIT, is_i32 in *; len_lia) end; rewrite <- ?app_assoc in Hb;
  first [erewrite (put_length b) by eassumption | erewrite (put_length_last b) by eassumption] end.

Ltac same_bytes := unfold message; rewrite ?le_i32, <- ?app_assoc; do 3 f_equal; len_lia.

Ltac send := put_total; rewrite ?add_all by done; rewrite ?bind_Ret, ?add_all by done; same_bytes.

Lemma length_message id op body : Z.of_nat (length (message id op body)) = 16 + Z.of_nat (length body).
Proof. unfold message. len_lia. Qed.

Lemma total_documents docs : forall total, Forall delimited docs -> 0 <= total -> total + Z.of_nat (length (concat docs)) < 2 ^ 31 ->
  total_length (AUser <$> docs) total = Ret (total + Z.of_nat (length (concat docs))).
Proof.
  induction docs as [|doc docs IH]; intros total Hd H0 Hl; [cbn; by rewrite Z.add_0_r|]. apply Forall_cons in Hd as [Hdoc Hd].
  cbn [concat] in Hl |- *. rewrite fmap_cons. cbn [total_length touserdata]. rewrite Hdoc, bind_Ret. rewrite length_app in *.
  rewrite i32_small by (unfold is_i32; lia). rewrite IH by (first [done | lia]). f_equal. lia.
Qed.

Lemma add_document_spec b doc : delimited doc -> Z.of_nat (length doc) < 2 ^ 31 -> add_document b doc = Ret (b ++ doc).
Proof. intros Hd Hl. unfold add_document. rewrite Hd, bind_Ret, u32_small by (unfold is_u32; lia). by apply add_all. Qed.

Lemma add_documents_spec docs : forall b, Forall delimited docs -> Z.of_nat (length (concat docs)) < 2 ^ 31 ->
  add_documents b (AUser <$> docs) = Ret (b ++ concat docs).
Proof.
  induction docs as [|doc docs IH]; intros b Hd Hl; [cbn; by rewrite app_nil_r|]. apply Forall_cons in Hd as [Hdoc Hd].
  cbn [concat] in Hl |- *. rewrite length_app in Hl. rewrite fmap_cons. cbn [add_documents touserdata].
  step_with (add_document_spec b doc Hdoc ltac:(lia)). rewrite IH by (first [done | lia]). by rewrite <- app_assoc.
Qed.

(** Each call writes its request. *)
Lemma request_written r : request_ok r -> ask r = Ret (wire r).
Proof.
  intros [Hl Hr]. destruct r as [id flags name skip number query selector|cursor|name single selector|id name number cursor|name flags selector update|flags name doc|flags name docs];
    cbn [ask wire] in *; rewrite length_message in Hl.
  - unfold op_query, checkinteger, checklstring. rewrite !integer_int, !string_str, !bind_Ret. cbn [touserdata].
    destruct Hr as [Hq Hs]. apply put_header. intros b x Hb Hx. do 4 put. rewrite Hq, bind_Ret. destruct selector as [selector|]; cbn [touserdata] in *.
    + rewrite Hs, !bind_Ret. send.
    + rewrite !bind_Ret, app_nil_r in *. send.
  - unfold op_kill. rewrite lstring_str, bool_decide_false by lia. apply put_header. intros b x Hb Hx. do 3 put. send.
  - unfold op_delete, checklstring, integer_or_zero. cbn [touserdata]. rewrite integer_int, string_str, bind_Ret. cbn [default].
    apply put_header. intros b x Hb Hx. do 3 put. rewrite Hr, bind_Ret. send.
  - unfold op_get_more, checkinteger, checklstring. rewrite !integer_int, string_str, lstring_str, !bind_Ret, bool_decide_false by lia.
    apply put_header. intros b x Hb Hx. do 4 put. send.
  - unfold op_update, checklstring, integer_or_zero. cbn [touserdata]. rewrite integer_int, string_str, bind_Ret. cbn [default].
    destruct Hr as [Hs Hu]. apply put_header. intros b x Hb Hx. do 3 put. rewrite Hs, Hu, !bind_Ret. send.
  - unfold op_insert, checklstring, integer_or_zero. cbn [document_length]. rewrite integer_int, string_str, Hr, !bind_Ret. cbn [default].
    apply put_header. intros b x Hb Hx. do 2 put. put_total.
    rewrite add_document_spec by (first [done | unfold LIMIT in *; len_lia]). same_bytes.
  - unfold op_insert, checklstring, integer_or_zero. cbn [document_length]. rewrite integer_int, string_str, bind_Ret. cbn [default].
    assert (Hc : Z.of_nat (length (concat docs)) < 2 ^ 31) by (unfold LIMIT in Hl; len_lia).
    rewrite (total_documents docs 0 Hr), Z.add_0_l, bind_Ret by lia.
    apply put_header. intros b x Hb Hx. do 2 put. put_total. rewrite add_documents_spec by done. same_bytes.
Qed.
End WRITTEN.

(** ** Documents of a reply *)

(** The table with pointers to the documents from [i] on. *)
Fixpoint doc_table (p i : Z) (docs : list (list Z)) (t : gmap Z tvalue) : gmap Z tvalue :=
  match docs with
  | [] => t
  | doc :: docs => doc_table (p + Z.of_nat (length doc)) (i + 1) docs (<[i := TDoc p]> t)
  end.

Lemma doc_table_below docs : forall p i t k, k < i -> doc_table p i docs t !! k = t !! k.
Proof. induction docs as [|doc docs IH]; intros p i t k Hk; [done|]. cbn [doc_table]. rewrite IH, lookup_insert_ne by lia. done. Qed.

Lemma doc_table_above docs : forall p i t k, i + Z.of_nat (length docs) <= k -> doc_table p i docs t !! k = t !! k.
Proof.
  induction docs as [|doc docs IH]; intros p i t k Hk; [done|]. cbn [doc_table length] in *. rewrite IH, lookup_insert_ne by lia. done.
Qed.

Lemma doc_table_lookup docs : forall p i t j doc, docs !! j = Some doc ->
  doc_table p i docs t !! (i + Z.of_nat j) = Some (TDoc (p + Z.of_nat (length (concat (take j docs))))).
Proof.
  induction docs as [|d docs IH]; intros p i t j doc Hj; [done|]. cbn [doc_table]. destruct j as [|j].
  - rewrite Z.add_0_r, doc_table_below by lia. rewrite lookup_insert_eq. do 2 f_equal. cbn. lia.
  - replace (i + Z.of_nat (S j)) with (i + 1 + Z.of_nat j) by lia. rewrite (IH _ _ _ j doc Hj). do 2 f_equal. cbn [take concat]. rewrite length_app. lia.
Qed.

(** A table that is a sequence of [n] elements. *)
Definition sequence (t : gmap Z tvalue) (n : Z) : Prop := forall k, is_Some (t !! k) <-> 1 <= k <= n.

Lemma doc_table_sequence docs p t n : 0 <= n -> sequence t n -> sequence (doc_table p 1 docs t) (Z.max (Z.of_nat (length docs)) n).
Proof.
  intros Hn Ht k. destruct (decide (1 <= k <= Z.of_nat (length docs))) as [Hk|Hk].
  - destruct (lookup_lt_is_Some_2 docs (Z.to_nat (k - 1))) as [doc Hd]; [lia|]. pose proof (doc_table_lookup docs p 1 t _ _ Hd) as Hl.
    replace (1 + Z.of_nat (Z.to_nat (k - 1))) with k in Hl by lia. rewrite Hl. split; [lia|by eexists].
  - destruct (decide (k < 1)); [rewrite doc_table_below by lia|rewrite doc_table_above by lia]; rewrite (Ht k); lia.
Qed.

Lemma clear_from_lookup i c t k : clear_from i c t !! k = if decide (i <= k <= c) then None else t !! k.
Proof.
  unfold clear_from. assert (H : forall l, (foldr delete t l : gmap Z tvalue) !! k = if decide (k ∈ l) then None else t !! k).
  { induction l as [|x l IH]; [by rewrite decide_False by set_solver|]. cbn [foldr]. destruct (decide (x = k)) as [-> |Hne].
    - rewrite lookup_delete_eq, decide_True by set_solver. done.
    - rewrite lookup_delete_ne, IH by done. destruct (decide (k ∈ l)); [rewrite decide_True by set_solver|rewrite decide_False by set_solver]; done. }
  rewrite H. destruct (decide (i <= k <= c)); [rewrite decide_True|rewrite decide_False]; rewrite ?elem_of_seqZ; (lia || done).
Qed.

Section READ.
Context (data : list Z).

Lemma reply_field_at p z l : placed data p (le_bytes 4 z ++ l) -> is_i32 z -> reply_field data p = Ret z.
Proof.
  intros [Hp _]%placed_app Hz. unfold reply_field. step_with (placed_read _ _ _ 4 Hp) by done.
  rewrite le_value_le_bytes. change (256 ^ Z.of_nat 4) with (2 ^ 32). fold (u32 z). by rewrite i32_u32, i32_small.
Qed.

Lemma reply_field_length p doc n : placed data p doc -> get_length doc = Ret n -> reply_field data p = Ret n.
Proof.
  intros Hp. unfold get_length, read_bytes at 1. case_decide as H4; [|done]. rewrite drop_0. change (Z.to_nat 4) with 4%nat. intros Hn.
  assert (Hp' := Hp). rewrite <- (take_drop 4 doc) in Hp'. apply placed_app in Hp' as [Hp' _]. unfold reply_field.
  rewrite (placed_read _ _ _ 4 Hp') by len_lia. exact Hn.
Qed.

Lemma cut_documents_spec docs : Forall (fun doc => delimited doc /\ 5 <= Z.of_nat (length doc)) docs ->
  forall p i t fuel post, placed data p (concat docs ++ post) -> Z.of_nat (length (concat docs)) < 2 ^ 31 -> (length docs <= fuel)%nat ->
  cut_documents data fuel p (Z.of_nat (length (concat docs))) i t = Ret (0, i + Z.of_nat (length docs), doc_table p i docs t).
Proof.
  induction 1 as [|doc docs [Hd H5] Hds IH]; intros p i t fuel post Hp Hl Hf.
  { cbn. destruct fuel; cbn; by rewrite Z.add_0_r. }
  destruct fuel as [|fuel]; [cbn in Hf; lia|]. cbn [concat length] in *. rewrite length_app in *. rewrite <- app_assoc in Hp. pose proof Hp as [Hdoc Hp']%placed_app.
  cbn [cut_documents]. rewrite bool_decide_true by lia. step_with (reply_field_length _ _ _ Hdoc Hd).
  replace (Z.of_nat (length doc + length (concat docs)) - Z.of_nat (length doc)) with (Z.of_nat (length (concat docs))) by lia.
  rewrite i32_small by (unfold is_i32; lia). rewrite (IH _ _ _ fuel post Hp') by lia. cbn [doc_table]. do 3 f_equal. lia.
Qed.
End READ.

(** A reply of the server. *)
Definition reply_bytes (request id op flags : Z) (cursor : list Z) (starting : Z) (docs : list (list Z)) : list Z :=
  le_bytes 4 request ++ le_bytes 4 id ++ le_bytes 4 op ++ le_bytes 4 flags ++ cursor ++ le_bytes 4 starting ++
  le_bytes 4 (Z.of_nat (length docs)) ++ concat docs.

Section REPLY.
Context (rawlen : gmap Z tvalue -> Z).
Hypothesis rawlen_sequence : forall t n, 0 <= n -> sequence t n -> rawlen t = n.

(** The cursor that is given back: none when it is closed. *)
Definition open_cursor (cursor : list Z) : option (list Z) :=
  if bool_decide (le_value (take 4 cursor) = 0 /\ le_value (drop 4 cursor) = 0) then None else Some cursor.

Lemma op_reply_spec request id op flags cursor starting docs t n : is_i32 id -> is_i32 flags -> is_i32 starting -> Z.land flags 2 = 0 ->
  length cursor = 8%nat -> Forall (fun doc => delimited doc /\ 5 <= Z.of_nat (length doc)) docs ->
  Z.of_nat (length (concat docs)) < LIMIT -> 0 <= n < LIMIT -> sequence t n ->
  op_reply rawlen (reply_bytes request id op flags cursor starting docs ++ [0]) (Some t) =
    Ret (ReplyOk id (if bool_decide (docs = []) then None else Some 32) (open_cursor cursor) starting,
         Some (clear_from (Z.of_nat (length docs) + 1) (Z.max (Z.of_nat (length docs)) n) (doc_table 32 1 docs t))).
Proof.
  intros Hid Hfl Hst H2 Hc Hds Hl Hn Ht. unfold LIMIT in *.
  assert (Hcount : 5 * Z.of_nat (length docs) <= Z.of_nat (length (concat docs))).
  { clear -Hds. induction Hds as [|doc docs [_ H5] _ IH]; [done|]. cbn [length concat]. rewrite length_app. lia. }
  set (m := reply_bytes request id op flags cursor starting docs ++ [0]).
  assert (Hp : placed m 0 (reply_bytes request id op flags cursor starting docs ++ [0])) by (exists [], []; by rewrite app_nil_r).
  unfold reply_bytes in Hp. rewrite <- !app_assoc in Hp. apply placed_app in Hp as [_ Hp]. rewrite length_le_bytes in Hp.
  assert (E1 : reply_field m 4 = Ret id) by exact (reply_field_at _ _ _ _ Hp Hid). apply placed_app in Hp as [_ Hp]. apply placed_app in Hp as [_ Hp]. rewrite !length_le_bytes in Hp.
  assert (E2 : reply_field m 12 = Ret flags) by exact (reply_field_at _ _ _ _ Hp Hfl). apply placed_app in Hp as [_ Hp]. rewrite length_le_bytes in Hp.
  pose proof Hp as [Hcur _]%placed_app. assert (E3 : read_bytes m 16 8 = Ret cursor) by exact (placed_read _ _ _ 8 Hcur ltac:(lia)). apply placed_app in Hp as [_ Hp]. rewrite Hc in Hp.
  assert (E4 : reply_field m 24 = Ret starting) by exact (reply_field_at _ _ _ _ Hp Hst). apply placed_app in Hp as [_ Hp]. rewrite length_le_bytes in Hp.
  assert (E5 : reply_field m 28 = Ret (Z.of_nat (length docs))) by exact (reply_field_at _ _ _ _ Hp ltac:(unfold is_i32; lia)). apply placed_app in Hp as [_ Hp]. rewrite length_le_bytes in Hp.
  change (placed m 32 (concat docs ++ [0])) in Hp.
  assert (Hm : Z.of_nat (length m) = 33 + Z.of_nat (length (concat docs))) by (unfold m, reply_bytes; len_lia).
  unfold op_reply. rewrite Hm, bool_decide_false by (unfold REPLY_SIZE; lia). step_with E1. step_with E2.
  rewrite (bool_decide_false (Z.land _ _ <> 0)) by (unfold REPLY_QUERYFAILURE; intros H; by apply H). step_with E4. step_with E5.
  unfold REPLY_SIZE. replace (33 + Z.of_nat (length (concat docs)) - 1) with (Z.of_nat (length (concat docs)) + 32) by lia.
  rewrite (i32_small (_ + 32)), Z.add_simpl_r, (i32_small (Z.of_nat _)) by (unfold is_i32; lia).
  step_with (cut_documents_spec m docs Hds _ 1 t (length m) [0] Hp ltac:(lia) ltac:(lia)). cbn beta iota.
  rewrite (i32_small (_ + 1)) by (unfold is_i32; lia). rewrite !(bool_decide_false (_ <> _)) by (first [lia | intros H; by apply H]).
  cbv zeta. rewrite (rawlen_sequence _ (Z.max (Z.of_nat (length docs)) n) ltac:(lia) (doc_table_sequence docs _ t n ltac:(lia) Ht)). step_with E3.
  rewrite (i32_small (Z.max _ _)) by (unfold is_i32; lia). rewrite (Z.add_comm 1). unfold open_cursor. do 5 f_equal.
  by destruct docs.
Qed.
End REPLY.

(** ** The driver *)

(** C40: Every request with cursors of eight bytes and documents that are as long as their
    first four bytes say, of less than 2^30 bytes in all, is written as the protocol has it:
    the length of the whole message, its id and kind, the fields in their order, and the
    documents behind them, however often the buffer grows; and the length is the one that
    [reply_length] takes a message for. *)
Theorem requests_written junk tointeger tostring tolstring r rest :
  (forall z, tointeger (AInt z) = Some z) -> (forall s, tostring (AStr s) = Some s) -> (forall s, tolstring (AStr s) = s) ->
  request_ok r ->
  ask junk tointeger tostring tolstring r = Ret (wire r) /\
  reply_length (wire r ++ rest) = Ret (Z.of_nat (length (wire r)) - 4).
Proof.
  intros Hi Hs Hl Hr. split; [by apply request_written|]. destruct Hr as [Hlen _].
  assert (Hm : exists id op body, wire r = message id op body) by (destruct r; by do 3 eexists). destruct Hm as (id & op & body & Hm). rewrite Hm in *.
  rewrite length_message in *. unfold reply_length, message. rewrite <- app_assoc.
  assert (Hp : placed (le_bytes 4 (16 + Z.of_nat (length body)) ++ (le_bytes 4 id ++ le_bytes 4 0 ++ le_bytes 4 op ++ body) ++ rest) 0
    (le_bytes 4 (16 + Z.of_nat (length body)) ++ (le_bytes 4 id ++ le_bytes 4 0 ++ le_bytes 4 op ++ body) ++ rest)) by (exists [], []; by rewrite app_nil_r).
  unfold LIMIT in Hlen. step_with (reply_field_at _ _ _ _ Hp ltac:(unfold is_i32; lia)). by rewrite i32_small by (unfold is_i32; lia).
Qed.

Definition integer_of (a : arg) : option Z := match a with AInt z => Some z | _ => None end.
Definition string_of (a : arg) : option (list Z) := match a with AStr s => Some s | _ => None end.

Lemma requests_written_witness :
  ask 85 integer_of string_of (fun a => default [] (string_of a)) (Query 7 0 [100; 98; 46; 99] 0 1 [5; 0; 0; 0; 0] None) =
    Ret ([38; 0; 0; 0; 7; 0; 0; 0; 0; 0; 0; 0; 212; 7; 0; 0; 0; 0; 0; 0] ++ [100; 98; 46; 99; 0] ++ [0; 0; 0; 0; 1; 0; 0; 0] ++ [5; 0; 0; 0; 0]) /\
  reply_length (wire (Query 7 0 [100; 98; 46; 99] 0 1 [5; 0; 0; 0; 0] None) ++ [9]) = Ret 34.
Proof.
  apply (requests_written 85 integer_of string_of (fun a => default [] (string_of a)) (Query 7 0 [100; 98; 46; 99] 0 1 [5; 0; 0; 0; 0] None) [9]); [done|done|done|].
  by vm_compute.
Defined.

(** C34: A reply with encoded documents is cut into them: the table that the caller gives
    has a pointer to each document in order, whatever it had before, and nothing else; the
    decoder reads each document from its pointer; and the id of the request, the first
    document, the cursor and its position are answered. *)
Theorem reply_gives_documents rawlen request id op flags cursor starting ess t n :
  (forall t n, 0 <= n -> sequence t n -> rawlen t = n) ->
  is_i32 id -> is_i32 flags -> is_i32 starting -> Z.land flags 2 = 0 -> length cursor = 8%nat ->
  Forall (fun es => good (BTable es) /\ document_keys es) ess ->
  Z.of_nat (length (concat ((fun es => payload (BTable es)) <$> ess))) < LIMIT -> 0 <= n < LIMIT -> sequence t n ->
  let data := reply_bytes request id op flags cursor starting ((fun es => payload (BTable es)) <$> ess) ++ [0] in
  exists t', op_reply rawlen data (Some t) =
      Ret (ReplyOk id (if bool_decide (ess = []) then None else Some 32) (open_cursor cursor) starting, Some t') /\
    sequence t' (Z.of_nat (length ess)) /\
    forall j es, ess !! j = Some es -> exists p, t' !! (1 + Z.of_nat j) = Some (TDoc p) /\ ldecode (drop (Z.to_nat p) data) = Ret es.
Proof.
  intros Hr Hid Hfl Hst H2 Hc Hess Hl Hn Ht. set (docs := (fun es => payload (BTable es)) <$> ess) in *. intros data.
  assert (Hlen : length docs = length ess) by (unfold docs; by rewrite length_fmap).
  assert (Hsmall : forall j es, ess !! j = Some es -> placed data (32 + Z.of_nat (length (concat (take j docs)))) (wrap (items es)) /\
    Z.of_nat (length (wrap (items es))) < LIMIT).
  { intros j es Hj. assert (Hd : docs !! j = Some (wrap (items es))) by (unfold docs; by rewrite list_lookup_fmap, Hj, <- payload_table).
    assert (Hsplit : concat docs = concat (take j docs) ++ wrap (items es) ++ concat (drop (S j) docs)) by (by rewrite <- (take_drop_middle _ _ _ Hd) at 1; rewrite concat_app).
    split; [|rewrite Hsplit in Hl; len_lia]. unfold data, reply_bytes. rewrite Hsplit.
    exists (le_bytes 4 request ++ le_bytes 4 id ++ le_bytes 4 op ++ le_bytes 4 flags ++ cursor ++ le_bytes 4 starting ++ le_bytes 4 (Z.of_nat (length docs)) ++
      concat (take j docs)), (concat (drop (S j) docs) ++ [0]). rewrite <- !app_assoc. split; [done|]. len_lia. }
  assert (Hdocs : Forall (fun doc => delimited doc /\ 5 <= Z.of_nat (length doc)) docs).
  { apply Forall_lookup. intros j doc Hj. unfold docs in Hj. rewrite list_lookup_fmap in Hj. destruct (ess !! j) as [es|] eqn:Ej; [|done].
    assert (doc = wrap (items es)) as -> by (rewrite <- payload_table; by injection Hj). destruct (Hsmall j es Ej) as [_ Hw]. unfold LIMIT in Hw. split; [|unfold wrap; len_lia].
    unfold delimited. rewrite <- (app_nil_r (wrap (items es))) at 1. apply get_length_wrap. lia. }
  exists (clear_from (Z.of_nat (length docs) + 1) (Z.max (Z.of_nat (length docs)) n) (doc_table 32 1 docs t)). split; [|split].
  - unfold data. rewrite (op_reply_spec rawlen Hr request id op flags cursor starting docs t n Hid Hfl Hst H2 Hc Hdocs Hl Hn Ht).
    do 4 f_equal. unfold docs. by destruct ess.
  - intros k. rewrite clear_from_lookup, <- Hlen. pose proof (doc_table_sequence docs 32 t n ltac:(lia) Ht k) as Hk.
    case_decide as Hd; [split; [by intros []|lia]|]. rewrite Hk. lia.
  - intros j es Hj. destruct (Hsmall j es Hj) as [Hp Hw]. pose proof (proj1 (Forall_lookup _ _) Hess j es Hj) as [Hg Hk].
    pose proof (lookup_lt_Some _ _ _ Hj) as Hjl. exists (32 + Z.of_nat (length (concat (take j docs)))). split.
    + rewrite clear_from_lookup, decide_False by lia. apply (doc_table_lookup docs 32 1 t j (wrap (items es))).
      unfold docs. by rewrite list_lookup_fmap, Hj, <- payload_table.
    + destruct Hp as (pre & post & -> & ->). rewrite Nat2Z.id, drop_app_length. by apply ldecode_bytes.
Qed.

(** A zero for the length of a document keeps the loop of [op_reply] going, and the table
    grows for ever. *)
Example zero_length_loops rawlen t : op_reply rawlen (reply_bytes 1 2 1 0 (replicate 8 0) 0 [replicate 5 0] ++ [0]) (Some t) = Crash OutOfFuel.
Proof. vm_compute. reflexivity. Qed.

Lemma zero_length_stays fuel : forall i t, cut_documents (replicate 5 0) fuel 0 5 i t = Crash OutOfFuel.
Proof. induction fuel as [|fuel IH]; intros i t; [done|]. exact (IH _ _). Qed.

Lemma sequence_size (t : gmap Z tvalue) n : 0 <= n -> sequence t n -> Z.of_nat (size t) = n.
Proof.
  intros Hn Ht. rewrite <- size_dom. assert (Hd : dom t = (list_to_set (seqZ 1 n) : gset Z)).
  { apply set_eq. intros k. rewrite elem_of_dom, (Ht k), elem_of_list_to_set, elem_of_seqZ. lia. }
  rewrite Hd, size_list_to_set, length_seqZ by apply NoDup_seqZ. lia.
Qed.

Definition old_table : gmap Z tvalue := <[2 := TOther]> {[1 := TOther]}.

Lemma old_table_sequence : sequence old_table 2.
Proof.
  intros k. unfold old_table. destruct (decide (k = 2)) as [-> |H2]; [rewrite lookup_insert_eq; split; [lia|by eexists]|]. rewrite lookup_insert_ne by done.
  destruct (decide (k = 1)) as [-> |H1]; [rewrite lookup_singleton_eq; split; [lia|by eexists]|]. rewrite lookup_singleton_ne by done. split; [by intros []|lia].
Qed.

Lemma reply_gives_documents_witness :
  exists t', op_reply (fun t => Z.of_nat (size t)) (reply_bytes 1 7 1 8 (replicate 8 0) 0 [payload (BTable number_document)] ++ [0]) (Some old_table) =
      Ret (ReplyOk 7 (Some 32) None 0, Some t') /\ sequence t' 1 /\
    forall j es, [number_document] !! j = Some es -> exists p, t' !! (1 + Z.of_nat j) = Some (TDoc p) /\
      ldecode (drop (Z.to_nat p) (reply_bytes 1 7 1 8 (replicate 8 0) 0 [payload (BTable number_document)] ++ [0])) = Ret es.
Proof.
  apply (reply_gives_documents (fun t => Z.of_nat (size t)) 1 7 1 8 (replicate 8 0) 0 [number_document] old_table 2);
    [exact sequence_size|done|done|done|done|done|constructor; [exact number_document_good|constructor]|by vm_compute|unfold LIMIT; lia|exact old_table_sequence].
Defined.
